(* ===== verification/_CoqProject ===== *)
-Q . S2P
Prelude.v
JsValue.v
OfferPrice.v
Domain.v
Mandate.v
TraitCriteria.v
BiddingService.v
PendingQueue.v
HotRefresh.v
HotRefreshInv.v
HotRefreshOps.v
HotRefreshProof.v
HotRefreshClaims.v
Strategy.v
StrategyPrice.v
StrategyEffects.v
StrategyPlan.v
StrategyRun.v
StrategyClaims.v
Schedule.v
ScheduleInv.v
ScheduleClaims.v
Refresh.v
RefreshInv.v
RefreshSteps.v
RefreshDrain.v
RefreshClaims.v
CommandQueue.v
CommandQueueClaims.v
Commands.v
CommandsClaims.v
RateLimiter.v
RateLimiterClaims.v
Recovery.v
Snapshots.v
SnapshotsInv.v
SnapshotsClaims.v
Projection.v
ProjectionInv.v
Pipeline.v
OrderBy.v
Chain.v
Ledger.v
LedgerProof.v
LedgerClaims.v
SyncBlocks.v
Jobs.v
QueueOutbox.v
SyncDb.v
GapRepair.v
GapRepairClaims.v
GapScheduler.v
GapSchedulerInv.v
GapSchedulerProof.v
GapSchedulerSteps.v
GapSchedulerClaims.v
SyncDbProof.v
Reorg.v
ReorgProof.v
ReorgClaims.v
SyncCommitProof.v
ResyncClaims.v
ScannerEnv.v
OutboxDrainer.v
OutboxClaims.v
FollowUps.v
FollowUpsClaims.v
ExecutionGate.v
AutoSync.v
AutoSyncProof.v
PolicyWallet.v
PolicyWalletSpec.v
PolicySessions.v
PolicySessionsClaims.v
TransactionPolicy.v
WethApproval.v
JsConvert.v
OpenSeaOffers.v
OpenSeaService.v
OpenSeaClaims.v
