(* ===== verification/Prelude.v ===== *)
(** * ArtGod: a verification library for the bidding runtime and the indexer

    ArtGod is an NFT indexer and trading bot in TypeScript.  This library models two
    of its cores.  The first is the trading bot, [src/trading/src] with the trading
    code it shares with the backend, [src/shared/trading]: the process that keeps one
    offer per declared job on OpenSea, reacts to market events, and applies the
    commands the backend writes for it.  The second is the synchronisation of the
    indexer, [src/indexer/src]: the processes that copy the history of the watched
    collections from a chain into SQLite, find and repair what is missing, and
    recover when the chain reorganises.

    ** How the parts work together

    The backend stores jobs and writes a command row for each change.  The command
    queue claims rows in order and the reconciler applies each to the live bidder: it
    schedules the job as saved, takes it out, or cancels its offers.  Market events
    pass the hot-refresh stage, which coalesces them per lane and keeps bounded
    queues, and the schedule decides which jobs an event concerns.  The snapshot
    service fetches the offers of every watched collection; each new snapshot is
    projected into the bid book the backend reads.  The refresh
    scheduler runs at most one refresh of a job at a time and a bounded number in
    all.  A refresh reads the book, works out the price and places, renews or cancels
    offers through the interface of the bidding service; the adapter behind it finds
    the offers a job competes with in live books and snapshots, and each of its calls
    waits for the rate limiter.  The mandate says which offers the process
    may place, and the policy wallet, the only thing the OpenSea SDK is given to sign
    with, refuses every payload but the one its operation was authorized for.  Before
    all this the allowance of OpenSea's conduit is set to the cap of the mandate.

    In the indexer the chain head and the sync windows decide which blocks are read.
    A range that was fetched is committed in one transaction: its blocks, its
    transfers and balances, its coverage per collection, and the messages it owes to
    the queues.  The gap scheduler searches coverage for missing ranges and leaves one
    per collection to repair.  Recent blocks are checked again when they are deep
    enough; a stored block the chain no longer has starts a recovery, which finds the
    last common block, rolls the tables back and has the removed range read again.
    The automatic synchronisation drives this loop by itself.  What a range asks of the
    rest of the indexer is worked out from its events and put into the outbox by the same
    transaction; the drainer publishes the outbox to the broker.  Work asked for by
    operators and automatic work pass one gate, so that current state is changed by one
    range at a time.
    These run in several processes over one database: each is modelled as a
    computation that gives the others a turn before each of its calls, and
    [ScannerEnv] shows that what one assumes of the others holds of their code.

    ** Files, in order, and what they model

    - [Prelude]: results of computations that may throw ([result]), a state and error
      monad over a world that survives a throw ([M]), JavaScript strings, and maps
      with insertion order ([jm_get], [jm_set], ...) with their lemmas.
    - [JsValue]: dynamic values, numbers, decimal texts and [Date.toISOString].
    - [OfferPrice]: shared/trading/open-sea-offer-price.ts, the price grid.
    - [Domain]: domain/market/strategy/job.ts, domain/market/event.ts and the shared
      types: jobs, targets, events, orders, and the bounded log texts.
    - [Mandate]: domain/bidding-mandate.ts, parsing and offer authorization.
    - [PolicyWallet], [PolicySessions]: adapters/opensea/open-sea-policy-wallet.ts, the
      checks of a payload and the signing sessions; [PolicyWalletSpec] says which orders
      they allow.
    - [TransactionPolicy]: shared/evm/transactions.ts, the fees and nonces of a
      transaction.  [WethApproval]: adapters/wallet/viem-weth-allowance-approval-service.ts
      and runtime/bidding-policy-agreement.ts, the approval at start.
    - [JsConvert]: the conversions of JavaScript values and the regular expressions the
      adapter uses.  [OpenSeaOffers]: shared/trading/open-sea-bidding-offers.ts, the
      decoding of an offer.  [OpenSeaService]: adapters/opensea/open-sea-bidding-service.ts
      and adapters/support/retry.ts, an instance of the interface of [BiddingService];
      [OpenSeaClaims] has its theorems.  These and the files of the policy wallet are last
      in the list, as only the models they use are below them.
    - [TraitCriteria]: shared/trading/offer-trait-criteria.ts and
      domain/market/strategy/trait-competition.ts.
    - [BiddingService]: the ports of the bidder as type classes over the state of the
      services, and the law the strategy needs of price rounding ([PriceGrid]),
      discharged by [OfferPrice].
    - [PendingQueue], [HotRefresh]: hot-refresh-backpressure.ts, its indexed heap and
      its lanes, timers, passes and cooldowns; [HotRefreshInv], [HotRefreshOps] and
      [HotRefreshProof] carry the invariant through every operation.
    - [Strategy]: the refresh of one job in use-cases/bidding/bidder.ts
      ([executeJob] and all it calls, [cancelActiveOffersForJob]), a computation over
      the job, the services and a trace of effects.  [StrategyPrice] (prices),
      [StrategyEffects] (which effects a computation may have), [StrategyPlan] (the
      abstract plan) and [StrategyRun] (inversion of a whole refresh) prepare its
      theorems.
    - [Schedule]: the jobs of [Bidder] with their indexes, counts, overrides and
      hot-refresh evaluation; [ScheduleInv] is its invariant.
    - [Refresh]: the refresh loops, locks, coalescing and shutdown of [Bidder] as a
      step relation whose steps end at the [await]s; [RefreshInv], [RefreshSteps] and
      [RefreshDrain] prove its invariant, that every step keeps it, progress and
      the measure of shutdown.
    - [CommandQueue]: sqlite-bidding-job-command-repository.ts, the batch loop of
      bidding-job-command-reconciler.ts and the poll loop.
    - [Commands]: the rest of bidding-job-command-reconciler.ts, on the schedule and
      the strategy.
    - [RateLimiter]: adapters/support/token-bucket-rate-limiter.ts.
    - [Recovery]: failed-offer-cancellation-reconciler.ts, one pass over the stored
      cancellations that did not settle, with a log of its calls and their arguments.
    - [Snapshots]: collection-offer-snapshot-service.ts, the authoritative books of
      offers, as a step relation over calls, refresh loops and the source's answers;
      [SnapshotsInv] is its invariant.
    - [Projection]: bidding-bid-book-projection.ts, throttled runs that write the latest
      snapshot of each collection; [ProjectionInv] is its invariant.
    - [Pipeline]: the two together, as bidding-runtime.ts connects them.
    - [OrderBy]: ordered queries, the pages of SQL statements and their laws.
    - [Chain]: domain/collections.ts, chain-sync.ts, canonical-check.ts and
      sync-result.ts of the indexer: anchors, windows, checks of blocks and ranges.
    - [Ledger]: domain/ownership.ts and the transfers, balances and ownership
      checkpoints of infra/storage/sqlite.ts, persisted and rolled back;
      [LedgerProof] holds its lemmas.
    - [SyncBlocks]: application/sync-blocks.ts, the headers of a range from the provider.
    - [Jobs]: domain/jobs.ts, queues.ts and sync-follow-ups.ts: the jobs sent to the
      queues.
    - [QueueOutbox]: infra/queue/sqlite-queue-outbox.ts, the outbox table.
    - [SyncDb]: the synchronisation tables of infra/storage (blocks, coverage, sync
      state, canonical checks, revisions, the outbox) and their statements;
      [SyncDbProof] says what a transaction that committed has done.
    - [GapRepair]: domain/sync-gap-repair.ts and sqlite-sync-gaps.ts, the rows of
      the repair, its two searches and its batches.
    - [GapScheduler]: application/sync-gap-scheduler.ts, all its methods, over tables
      that other processes change; [GapSchedulerInv] is its invariant with a small
      logic of triples, [GapSchedulerProof] and [GapSchedulerSteps] carry it through.
    - [Reorg]: domain/reorg-fork.ts and reorg-recovery.ts, application/reorg-fork.ts,
      reorg-rollback.ts and recover-chain-reorg.ts, and the commit of
      a range, sqlite-sync-range-commit.ts; [ReorgProof] and [SyncCommitProof] hold
      the lemmas.
    - [ScannerEnv]: the transactions of [SyncDb] and [Reorg] as sequences of the
      events [GapScheduler] assumes.
    - [OutboxDrainer]: application/queue-outbox/drainer.ts, over an outbox that other
      processes change.
    - [FollowUps]: the follow-ups in application/sync-range-processing.ts and
      order-update-fanout.ts, and the guards of a commit of acquired data.
    - [ExecutionGate]: the gate of application/backfill-execution.ts as a step relation;
      the world lists the tasks that run, so that exclusion is a theorem.
    - [AutoSync]: application/automatic-sync-executor.ts, all its methods, with the
      acquisition of a range; [AutoSyncProof] relates its passes to the scheduler's
      invariant.

    ** What the theorems show

    - [StrategyClaims]: a refresh attempts at most one offer, within ceiling and
      balance and on the grid; its market actions are those of an abstract plan, in
      order, up to the first failure; a replaced offer is cancelled only once the new
      one is saved; the price is the optimal one; a withdrawal cancels all or fails
      with the order still tracked; an order whose status is unknown blocks the market;
      after a refresh without error the tracked order is the plan's.
    - [ScheduleClaims]: indexes and counts say what the map of jobs holds in every
      reachable state; an event refreshes exactly the jobs it concerns.
    - [RefreshClaims]: one holder per job, bounded concurrency and exact gauges in
      every reachable state; coalesced requests served by exactly one more run;
      callbacks accounted for; a closed admission starts nothing and shutdown drains
      within a computed number of steps.
    - [HotRefreshClaims], [PendingQueue]: bounds, no lost wake-up, eviction of the
      weakest, exact counts and quiescence after stop; the indexed heap refines a bag.
    - [CommandQueueClaims]: a claim takes the earliest command that may be taken;
      retries end at the limit where every row can be read.  [CommandsClaims]: the saved
      declaration decides what is scheduled, and no command touches another job; a
      cancellation leaves the live declaration alone.
    - [RateLimiterClaims]: the rate is never exceeded in any window, waiting requests
      are served, by priority and then age.
    - [SnapshotsClaims]: one refresh per collection, a forced refresh is newer than its
      request, failures back off within bounds, and every call returns within a
      computed number of steps.  [ProjectionClaims]: writes are serialized, throttled and
      of the latest snapshot, which is never lost.  [Pipeline]: only complete books are
      written, and at rest the last write of a collection is of what the service holds.
    - [RecoveryClaims]: a pass asks for the stored order of each record and completes it
      only on proof that the order is gone; one record's failure does not stop the others.
    - [LedgerClaims]: balances are the sums of the stored transfers, a rollback leaves
      what the remaining blocks alone give, and the owner of a token is the one its
      newest fact gives, in whatever order ranges arrive.
    - [GapRepairClaims]: both searches find the newest missing range and nothing else;
      a batch shares only what all its members miss.  [GapSchedulerClaims]: in every
      reachable state a block that is neither covered nor to be repaired is still to
      be searched.  [ScannerEnv]: the writers refine the events this assumes.
      [AutoSyncClaims]: the same in every state reached by passes, restarts and other
      processes, wherever a pass fails and whatever the provider replies, as long as no
      head is below a cursor of the search.
    - [ReorgClaims]: the ancestor is the newest block both sides share, and a rollback
      removes all and only what lies above it, on proof.  [ResyncClaims]: what a
      rollback removed is stored again before a recovery may end; rolling back
      undoes a commit.
    - [FollowUpsClaims]: the follow-ups of a range are exactly the hints its events call
      for, and the blocks, coverage, transfers and follow-ups of a range are stored together
      or not at all.  [OutboxClaims]: a required job is published or deleted by a rollback
      or a purge, never lost; other jobs end at their last attempt; an undisturbed drain
      settles, in order, what is due.  [ExecutionGate]: ranges that may
      change current state run one at a time, by class and then arrival, and only ranges
      of history run beside them.
    - [PolicySessionsClaims]: whatever the SDK and the signer do, only purchases within
      the mandate are signed, each for exactly the amount authorized and the quantity and
      asset of its job; the checks accept exactly those; an operation obtains at most one signature.
    - [TransactionPolicy]: when fees are found and which.  [WethApprovalClaims]: at most one
      transaction is sent, the approval the mandate allows, and one that is needed and
      fits its limits is sent.
    - [OpenSeaClaims]: the discovery for a token misses no offer of its sources and lists
      none twice, a snapshot and a live book are read alike, pagination ends, orders are
      reported active or gone on the provider's word only, and what is placed is within
      the mandate and is what the wallet expects to sign.
    - [OfferPrice], [Mandate], [TraitCriteria]: exactness of rounding, of
      authorization, of parsing (with a round trip), of matching and of ranges.

    Six theorems state what the code does against its intention: colliding
    signatures of range offers, a rejected duplicate that stays scheduled, a request
    dropped between the end of a loop and its [finally], an unreadable command row that
    blocks the queue, a waiting cancellation that mislabels a refresh in flight,
    and an order of unknown contract reported gone without asking.

    ** Conventions and bounds

    Amounts in wei and times in milliseconds are integers of type [Z], as [bigint] and
    integral numbers are; the fields of dynamic values are [jsnum].  A record of
    the program is a [Record]; a JavaScript [Map] is an association list without
    repeated keys; an object shared by reference is one entry that every reader looks
    up, and [Commands] says for each job object whether it is the scheduled one.
    What is read of a service comes from its class, over an arbitrary state, and every
    theorem holds for every implementation; witnesses instantiate it.  Fuel is
    shown to be enough wherever it occurs: the heap operations of [PendingQueue] and
    the drain of [RateLimiter], bounded by the length of their queues; the pages of a
    rollback in [Ledger], by the number of transfers; the binary search of [GapRepair]
    and the loops over a range in [GapRepair] and [Reorg], by its length; the pagination
    of [OpenSeaService], by the number of cursors the provider has.  The batch
    loop of [CommandQueue] counts down its batch size as the code does.

    The indexer's tables are lists of rows and finite maps, a transaction a
    computation whose throw restores the tables, and block numbers integers whose
    checks ([Number.isSafeInteger]) are written out.  The theorems of [GapScheduler]
    and [AutoSync] ask that no scan runs at a head below a cursor it has reached;
    [lagging_head_skips_blocks] shows why, and [AutoSyncClaims] that heads which do not go
    back meet it, as do heads that go back no further than the cursors.

    ** Not modelled

    Logs and observers, which no operation reads back.  The OpenSea stream and the
    download of snapshots, the adapters of SQLite (apart from the statements the models
    above contain) and of NATS: they are code around third-party clients, seen through
    the classes.  Process
    start-up and wiring, the scan timer and the warm-up over all jobs.  Of the
    indexer: the workers of bootstrap, metadata and orders, which mostly move rows
    between HTTP clients, SQL statements and NATS; the fact tables that only
    gain and lose rows by block (apart from transfers and balances); and
    the decoding of logs, whose cases are those of the viem library.  The reader of
    token owners is a parameter of the ledger.  The backend, which may also delete the
    coverage of a collection it purges, and the read models are SQL queries; the user
    interface, the desktop shell (another language) and scripts are outside. *)

From Stdlib Require Export ZArith Lia Bool Ascii String.
From stdpp Require Export base decidable option strings gmap list sorting.

#[export] Set Default Goal Selector "!".

#[export] Set Warnings "-clear-no-such-hyp,-register-all".

(** ** Notations of the development *)

Declare Scope artgod_scope.
Delimit Scope artgod_scope with artgod.
Open Scope artgod_scope.

(** ** Results: a value or a thrown error *)

(** A JavaScript computation returns a value or throws an [Error]; only the
    error's message is kept. *)
Inductive result (A : Type) : Type :=
  | Ok (a : A)
  | Err (msg : string).
Arguments Ok {A} a.
Arguments Err {A} msg.

Definition result_bind {A B} (m : result A) (f : A -> result B) : result B :=
  match m with
  | Ok a => f a
  | Err e => Err e
  end.

Notation "'try' x <- m ; k" := (result_bind m (fun x => k))
  (at level 60, x pattern, m at next level, right associativity,
   format "'[v' 'try'  x  <-  m ; '/' k ']'") : artgod_scope.

Definition is_ok {A} (m : result A) : bool :=
  match m with Ok _ => true | Err _ => false end.

Fixpoint result_map {A B} (f : A -> result B) (l : list A) : result (list B) :=
  match l with
  | [] => Ok []
  | x :: l' => try y <- f x; try ys <- result_map f l'; Ok (y :: ys)
  end.

(** ** Computations over a mutable world that may throw

    The world survives a throw: whatever the code did before it stays done. *)
Definition M (W A : Type) : Type := W -> result A * W.

Definition mret {W A} (a : A) : M W A := fun w => (Ok a, w).

Definition mthrow {W A} (e : string) : M W A := fun w => (Err e, w).

Definition mbind {W A B} (m : M W A) (f : A -> M W B) : M W B :=
  fun w => match m w with
           | (Ok a, w') => f a w'
           | (Err e, w') => (Err e, w')
           end.

(** [try { m } catch (e) { h(e) }] *)
Definition mcatch {W A} (m : M W A) (h : string -> M W A) : M W A :=
  fun w => match m w with
           | (Ok a, w') => (Ok a, w')
           | (Err e, w') => h e w'
           end.

Definition mget {W} : M W W := fun w => (Ok w, w).

Definition mput {W} (w : W) : M W unit := fun _ => (Ok tt, w).

Definition mmodify {W} (f : W -> W) : M W unit := fun w => (Ok tt, f w).

Notation "'let!' x := m 'in' k" := (mbind m (fun x => k))
  (at level 10, x pattern, m at level 100, k at level 200,
   format "'[v' 'let!'  x  :=  m  'in' '/' k ']'") : artgod_scope.

Notation "'do!' m 'in' k" := (mbind m (fun _ => k))
  (at level 10, m at level 100, k at level 200,
   format "'[v' 'do!'  m  'in' '/' k ']'") : artgod_scope.

(** ** JavaScript strings

    A string is a sequence of UTF-16 code units; [string] covers the units 0 to
    255 (Latin-1), on which trimming and lower-casing below are those of
    ECMAScript. *)

(** The white space and line terminators of [String.prototype.trim] below 256. *)
Definition isTrimUnit (c : ascii) : bool :=
  let n := N_of_ascii c in
  ((9 <=? n) && (n <=? 13) || (n =? 32) || (n =? 160))%N.

Fixpoint trimStart (s : string) : string :=
  match s with
  | EmptyString => EmptyString
  | String c s' => if isTrimUnit c then trimStart s' else s
  end.

(** All units of [s] are trimmable. *)
Fixpoint allTrim (s : string) : bool :=
  match s with
  | EmptyString => true
  | String c s' => isTrimUnit c && allTrim s'
  end.

Fixpoint trimEnd (s : string) : string :=
  if allTrim s then EmptyString
  else match s with
       | EmptyString => EmptyString
       | String c s' => String c (trimEnd s')
       end.

(** [s.trim()] *)
Definition trim (s : string) : string := trimEnd (trimStart s).

Definition lowerUnit (c : ascii) : ascii :=
  let n := N_of_ascii c in
  if ((65 <=? n) && (n <=? 90) || (192 <=? n) && (n <=? 222) && negb (n =? 215))%N
  then ascii_of_N (n + 32) else c.

(** [s.toLowerCase()] *)
Fixpoint toLowerCase (s : string) : string :=
  match s with
  | EmptyString => EmptyString
  | String c s' => String (lowerUnit c) (toLowerCase s')
  end.

(** A string as a condition: only the empty string is falsy. *)
Definition truthy (s : string) : bool :=
  match s with EmptyString => false | _ => true end.

(** An optional string as a condition. *)
Definition otruthy (o : option string) : bool :=
  match o with Some s => truthy s | None => false end.

Fixpoint splitGo (sep cur s : string) (skip : nat) : list string :=
  match s with
  | EmptyString => [cur]
  | String c s' =>
      match skip with
      | S k => splitGo sep cur s' k
      | O => if String.prefix sep s
             then cur :: splitGo sep EmptyString s' (String.length sep - 1)
             else splitGo sep (cur ++ String c EmptyString)%string s' O
      end
  end.

(** [s.split(sep)] for a nonempty separator. *)
Definition splitOn (sep s : string) : list string := splitGo sep EmptyString s O.

(** [Array.prototype.sort] without a comparator: by code units, stable. *)
Fixpoint insertText (x : string) (l : list string) : list string :=
  match l with
  | [] => [x]
  | y :: l' => if String.leb x y then x :: l else y :: insertText x l'
  end.

Definition sortTexts (l : list string) : list string := foldr insertText [] l.

(** *** Laws of trimming and lower-casing *)

Lemma allTrim_trimEnd s : allTrim (trimEnd s) = true -> allTrim s = true.
Proof.
  induction s as [|c s IH]; [done|]. simpl.
  destruct (isTrimUnit c && allTrim s) eqn:E; [done|].
  simpl. intros [Hc H]%andb_true_iff. rewrite Hc, (IH H) in E. done.
Qed.

Lemma trimEnd_idemp s : trimEnd (trimEnd s) = trimEnd s.
Proof.
  induction s as [|c s IH]; [done|]. simpl.
  destruct (isTrimUnit c && allTrim s) eqn:E; [done|]. simpl.
  destruct (isTrimUnit c && allTrim (trimEnd s)) eqn:E'; [|by rewrite IH].
  apply andb_true_iff in E' as [Hc Ht]. rewrite Hc, (allTrim_trimEnd _ Ht) in E. done.
Qed.

Lemma trimStart_idemp s : trimStart (trimStart s) = trimStart s.
Proof.
  induction s as [|c s IH]; [done|]. simpl.
  destruct (isTrimUnit c) eqn:E; [done|]. simpl. by rewrite E.
Qed.

Lemma trimStart_trimEnd s : trimStart s = s -> trimStart (trimEnd s) = trimEnd s.
Proof.
  destruct s as [|c s]; [done|]. simpl. destruct (isTrimUnit c) eqn:E.
  - intros H. exfalso. apply (f_equal String.length) in H.
    assert (forall t, String.length (trimStart t) <= String.length t)%nat as Hle.
    { induction t as [|d t IHt]; simpl; [lia|]. case_match; simpl; lia. }
    specialize (Hle s). simpl in H. lia.
  - simpl. by rewrite E.
Qed.

Lemma trim_idemp s : trim (trim s) = trim s.
Proof.
  unfold trim. rewrite (trimStart_trimEnd (trimStart s)) by apply trimStart_idemp.
  apply trimEnd_idemp.
Qed.

Lemma lowerUnit_idemp c : lowerUnit (lowerUnit c) = lowerUnit c.
Proof. destruct c as [[] [] [] [] [] [] [] []]; vm_compute; reflexivity. Qed.

Lemma isTrimUnit_lower c : isTrimUnit (lowerUnit c) = isTrimUnit c.
Proof. destruct c as [[] [] [] [] [] [] [] []]; vm_compute; reflexivity. Qed.

Lemma toLowerCase_idemp s : toLowerCase (toLowerCase s) = toLowerCase s.
Proof. induction s as [|c s IH]; simpl; [done|]. by rewrite lowerUnit_idemp, IH. Qed.

Lemma allTrim_lower s : allTrim (toLowerCase s) = allTrim s.
Proof. induction s as [|c s IH]; simpl; [done|]. by rewrite isTrimUnit_lower, IH. Qed.

Lemma trimStart_lower s : trimStart (toLowerCase s) = toLowerCase (trimStart s).
Proof. induction s as [|c s IH]; simpl; [done|]. rewrite isTrimUnit_lower. by case_match. Qed.

Lemma trimEnd_lower s : trimEnd (toLowerCase s) = toLowerCase (trimEnd s).
Proof.
  induction s as [|c s IH]; simpl; [done|].
  rewrite isTrimUnit_lower, allTrim_lower. case_match; simpl; congruence.
Qed.

Lemma trim_lower s : trim (toLowerCase s) = toLowerCase (trim s).
Proof. unfold trim. by rewrite trimStart_lower, trimEnd_lower. Qed.

(** The canonical form [s.trim().toLowerCase()]. *)
Definition canonical (s : string) : string := toLowerCase (trim s).

Lemma canonical_idemp s : canonical (canonical s) = canonical s.
Proof. unfold canonical. by rewrite trim_lower, trim_idemp, toLowerCase_idemp. Qed.

(** *** Sorted texts *)

Lemma insertText_perm x l : insertText x l ≡ₚ x :: l.
Proof.
  induction l as [|y l IH]; simpl; [done|]. case_match; [done|]. rewrite IH. apply Permutation_swap.
Qed.

Lemma sortTexts_perm l : sortTexts l ≡ₚ l.
Proof. induction l as [|x l IH]; simpl; [done|]. by rewrite insertText_perm, IH. Qed.

Lemma leb_total x y : String.leb x y = false -> String.leb y x = true.
Proof. destruct (String.leb_total x y) as [H|H]; congruence. Qed.

#[global] Instance leb_transitive : Transitive String.leb.
Proof.
  intros x y z. unfold String.leb. revert y z.
  induction x as [|a x IH]; intros [|b y] [|c z]; simpl; try done.
  unfold Ascii.compare.
  destruct (N.compare_spec (N_of_ascii a) (N_of_ascii b)) as [E1|E1|E1],
           (N.compare_spec (N_of_ascii b) (N_of_ascii c)) as [E2|E2|E2],
           (N.compare_spec (N_of_ascii a) (N_of_ascii c)) as [E3|E3|E3];
    try done; try lia. apply IH.
Qed.

#[global] Instance leb_antisymmetric : AntiSymm eq String.leb.
Proof. intros x y H1 H2. by apply String.leb_antisym; apply Is_true_true. Qed.

Lemma insertText_sorted x l :
  Sorted String.leb l -> Sorted String.leb (insertText x l).
Proof.
  induction 1 as [|y l Hs IH Hhd]; simpl; [repeat constructor|].
  destruct (String.leb x y) eqn:E.
  - constructor; [by constructor|]. constructor. by rewrite E.
  - apply leb_total, Is_true_true in E. constructor; [done|]. destruct l as [|z l]; simpl in *; [by constructor|].
    inversion_clear Hhd. destruct (String.leb x z); by constructor.
Qed.

Lemma sortTexts_sorted l : Sorted String.leb (sortTexts l).
Proof. induction l as [|x l IH]; simpl; [constructor|]. by apply insertText_sorted. Qed.

Lemma sortTexts_eq l l' : sortTexts l = sortTexts l' <-> l ≡ₚ l'.
Proof.
  split; intros H.
  - rewrite <- (sortTexts_perm l), H. apply sortTexts_perm.
  - apply (Sorted_unique String.leb); [apply sortTexts_sorted..|]. by rewrite !sortTexts_perm.
Qed.

(** ** JavaScript [Map]: an association list in insertion order *)

Section JsMap.
Context {K V : Type} `{EqDecision K}.

Fixpoint jm_get (k : K) (m : list (K * V)) : option V :=
  match m with
  | [] => None
  | (k', v) :: m' => if decide (k = k') then Some v else jm_get k m'
  end.

(** [m.set(k, v)]: an existing key keeps its place, a new key goes last. *)
Fixpoint jm_set (k : K) (v : V) (m : list (K * V)) : list (K * V) :=
  match m with
  | [] => [(k, v)]
  | (k', v') :: m' =>
      if decide (k = k') then (k, v) :: m' else (k', v') :: jm_set k v m'
  end.

(** [m.delete(k)] *)
Fixpoint jm_del (k : K) (m : list (K * V)) : list (K * V) :=
  match m with
  | [] => []
  | (k', v) :: m' => if decide (k = k') then jm_del k m' else (k', v) :: jm_del k m'
  end.

Definition jm_has (k : K) (m : list (K * V)) : bool :=
  match jm_get k m with Some _ => true | None => false end.

Definition jm_keys (m : list (K * V)) : list K := map fst m.

Definition jm_values (m : list (K * V)) : list V := map snd m.

(** The entries of a [Map] have distinct keys. *)
Definition jm_wf (m : list (K * V)) : Prop := NoDup (jm_keys m).

(** Sum of a measure over the entries. *)
Fixpoint jm_sum (f : V -> Z) (m : list (K * V)) : Z :=
  match m with
  | [] => 0
  | (_, v) :: m' => f v + jm_sum f m'
  end.

Definition of_opt (f : V -> Z) (o : option V) : Z :=
  match o with Some v => f v | None => 0 end.

Lemma jm_get_set_eq k v m : jm_get k (jm_set k v m) = Some v.
Proof. induction m as [|[k' v'] m IH]; simpl; repeat (case_decide; simpl); congruence. Qed.

Lemma jm_get_set_ne k k' v m : k <> k' -> jm_get k' (jm_set k v m) = jm_get k' m.
Proof.
  intros Hne. induction m as [|[k1 v1] m IH]; simpl;
    repeat (case_decide; simpl); congruence.
Qed.

Lemma jm_get_set k k' v m :
  jm_get k' (jm_set k v m) = if decide (k = k') then Some v else jm_get k' m.
Proof.
  case_decide; subst; [apply jm_get_set_eq | by apply jm_get_set_ne].
Qed.

Lemma jm_get_del_eq k m : jm_get k (jm_del k m) = None.
Proof. induction m as [|[k' v'] m IH]; simpl; repeat (case_decide; simpl); congruence. Qed.

Lemma jm_get_del_ne k k' m : k <> k' -> jm_get k' (jm_del k m) = jm_get k' m.
Proof.
  intros Hne. induction m as [|[k1 v1] m IH]; simpl;
    repeat (case_decide; simpl); congruence.
Qed.

Lemma jm_get_del k k' m :
  jm_get k' (jm_del k m) = if decide (k = k') then None else jm_get k' m.
Proof.
  case_decide; subst; [apply jm_get_del_eq | by apply jm_get_del_ne].
Qed.

Lemma jm_keys_set k v m :
  jm_keys (jm_set k v m) = if jm_get k m is Some _ then jm_keys m else jm_keys m ++ [k].
Proof.
  unfold jm_keys. induction m as [|[k' v'] m IH]; simpl; [done|].
  case_decide; simpl; [congruence|]. rewrite IH. by destruct (jm_get k m).
Qed.

Lemma jm_get_In k v m : jm_get k m = Some v -> In (k, v) m.
Proof.
  induction m as [|[k' v'] m IH]; simpl; [done|].
  case_decide; [intros [= ->]; subst; by left | auto].
Qed.

Lemma jm_get_None k m : jm_get k m = None <-> ~ In k (jm_keys m).
Proof.
  unfold jm_keys. induction m as [|[k' v'] m IH]; simpl; [tauto|].
  case_decide; subst; [split; [done|tauto]|]. rewrite IH. intuition congruence.
Qed.

Lemma jm_get_Some_key k v m : jm_get k m = Some v -> In k (jm_keys m).
Proof. intros H%jm_get_In. by apply (in_map fst) in H. Qed.

Lemma jm_In_get k v m : jm_wf m -> In (k, v) m -> jm_get k m = Some v.
Proof.
  unfold jm_wf, jm_keys. induction m as [|[k' v'] m IH]; simpl; [done|].
  intros Hnd [Heq|Hin].
  - inversion Heq; subst. by rewrite decide_True.
  - apply NoDup_cons in Hnd as [Hni Hnd]. rewrite decide_False; [auto|].
    intros ->. apply Hni, list_elem_of_In. by apply (in_map fst) in Hin.
Qed.

Lemma jm_wf_nil : jm_wf [].
Proof. apply NoDup_nil. done. Qed.

Lemma jm_wf_set k v m : jm_wf m -> jm_wf (jm_set k v m).
Proof.
  unfold jm_wf. rewrite jm_keys_set. destruct (jm_get k m) eqn:E; [done|].
  intros Hnd. apply NoDup_app. split_and!; [done| |apply NoDup_singleton].
  intros x Hx ->%list_elem_of_singleton. apply jm_get_None in E.
  by apply E, list_elem_of_In.
Qed.

Lemma jm_keys_del k m : jm_keys (jm_del k m) = filter (fun k' => k <> k') (jm_keys m).
Proof.
  unfold jm_keys. induction m as [|[k' v'] m IH]; simpl; [done|].
  rewrite filter_cons. repeat case_decide; simpl; congruence.
Qed.

Lemma jm_wf_del k m : jm_wf m -> jm_wf (jm_del k m).
Proof. unfold jm_wf. rewrite jm_keys_del. apply NoDup_filter. Qed.

Lemma jm_del_absent k m : jm_get k m = None -> jm_del k m = m.
Proof.
  induction m as [|[k' v'] m IH]; simpl; [done|].
  case_decide; [done|]. intros ?. f_equal; auto.
Qed.

Lemma jm_length_set k v m :
  length (jm_set k v m) = (if jm_get k m is Some _ then length m else S (length m)).
Proof.
  induction m as [|[k' v'] m IH]; simpl; [done|].
  case_decide; simpl; [done|]. rewrite IH. by destruct (jm_get k m).
Qed.

Lemma jm_length_del k m :
  jm_wf m -> length (jm_del k m) = (if jm_get k m is Some _ then pred (length m) else length m).
Proof.
  unfold jm_wf, jm_keys. induction m as [|[k' v'] m IH]; simpl; [done|].
  intros [Hni Hnd]%NoDup_cons. case_decide; subst; simpl.
  - rewrite jm_del_absent; [done|]. apply jm_get_None. unfold jm_keys.
    by rewrite <- list_elem_of_In.
  - rewrite IH by done. destruct (jm_get k m) eqn:E; [|done].
    destruct m; simpl in *; [done|lia].
Qed.

Lemma jm_length_del_le k m : length (jm_del k m) <= length m.
Proof. induction m as [|[k' v'] m IH]; simpl; [done|]. case_decide; simpl; lia. Qed.

Lemma jm_sum_set f k v m :
  jm_sum f (jm_set k v m) = (jm_sum f m - of_opt f (jm_get k m) + f v)%Z.
Proof.
  induction m as [|[k' v'] m IH]; simpl; [lia|]. case_decide; simpl; lia.
Qed.

Lemma jm_sum_del f k m :
  jm_wf m -> jm_sum f (jm_del k m) = (jm_sum f m - of_opt f (jm_get k m))%Z.
Proof.
  unfold jm_wf, jm_keys. induction m as [|[k' v'] m IH]; simpl; [lia|].
  intros [Hni Hnd]%NoDup_cons. case_decide; subst; simpl; [|rewrite IH by done; lia].
  rewrite jm_del_absent; [lia|]. apply jm_get_None. unfold jm_keys.
  by rewrite <- list_elem_of_In.
Qed.

Lemma jm_sum_nonneg f m : (forall v, 0 <= f v)%Z -> (0 <= jm_sum f m)%Z.
Proof. intros Hf. induction m as [|[k v] m IH]; simpl; [lia|]. specialize (Hf v). lia. Qed.

Lemma jm_sum_one f m : (forall v, f v = 1)%Z -> jm_sum f m = Z.of_nat (length m).
Proof. intros Hf. induction m as [|[k v] m IH]; simpl; [lia|]. rewrite Hf. lia. Qed.

End JsMap.

(** Without distinct keys a deletion removes at least the entry found. *)
Lemma jm_sum_del_le {K V} `{EqDecision K} (f : V -> Z) k (m : list (K * V)) : (forall v, 0 <= f v)%Z ->
  (jm_sum f (jm_del k m) <= jm_sum f m - of_opt f (jm_get k m))%Z.
Proof.
  intros Hf. assert (forall m, jm_sum f (jm_del k m) <= jm_sum f m)%Z as Hle.
  { intros m'. induction m' as [|[k' v'] m' IH]; simpl; [lia|]. specialize (Hf v'). case_decide; simpl; lia. }
  induction m as [|[k' v'] m IH]; simpl; [lia|]. specialize (Hle m). case_decide; simpl; lia.
Qed.

Lemma jm_set_set {K V} `{EqDecision K} k (v w : V) (m : list (K * V)) : jm_set k v (jm_set k w m) = jm_set k v m.
Proof. induction m as [|[k' v'] m IH]; simpl; repeat (case_decide; simpl); congruence. Qed.

(** Every value changed. *)
Section JsMapValues.
Context {K V W : Type} `{EqDecision K}.
Context (g : V -> W).

Lemma jm_get_values k (m : list (K * V)) : jm_get k (map (fun '(k, v) => (k, g v)) m) = g <$> jm_get k m.
Proof. induction m as [|[k' v'] m IH]; simpl; [done|]. by case_decide. Qed.

Lemma jm_wf_values (m : list (K * V)) : jm_wf m -> jm_wf (map (fun '(k, v) => (k, g v)) m).
Proof.
  unfold jm_wf, jm_keys. rewrite map_map. intros H.
  assert (map (fun x : K * V => fst (let '(k, v) := x in (k, g v))) m = map fst m) as ->; [|done].
  apply map_ext. by intros [].
Qed.

Lemma jm_sum_values (f : W -> Z) (m : list (K * V)) :
  jm_sum f (map (fun '(k, v) => (k, g v)) m) = jm_sum (fun v => f (g v)) m.
Proof. induction m as [|[k v] m IH]; simpl; [done|]. by rewrite IH. Qed.

End JsMapValues.

(** Sums compared entry by entry, or over all values. *)
Lemma jm_sum_ext {K V} (f g : V -> Z) (m : list (K * V)) :
  (forall k v, In (k, v) m -> f v = g v) -> jm_sum f m = jm_sum g m.
Proof.
  induction m as [|[k v] m IH]; simpl; intros H; [done|].
  rewrite (H k v) by auto. f_equal. eauto.
Qed.

Lemma jm_sum_le {K V} (f g : V -> Z) (m : list (K * V)) :
  (forall k v, In (k, v) m -> f v <= g v)%Z -> (jm_sum f m <= jm_sum g m)%Z.
Proof.
  induction m as [|[k v] m IH]; simpl; intros H; [lia|].
  specialize (H k v (or_introl eq_refl)) as Hv.
  assert (jm_sum f m <= jm_sum g m)%Z; [|lia]. apply IH. eauto.
Qed.

Lemma jm_sum_ext_all {K V} (f g : V -> Z) (m : list (K * V)) : (forall v, f v = g v) -> jm_sum f m = jm_sum g m.
Proof. intros H. by apply jm_sum_ext. Qed.

Lemma jm_sum_le_all {K V} (f g : V -> Z) (m : list (K * V)) :
  (forall v, f v <= g v)%Z -> (jm_sum f m <= jm_sum g m)%Z.
Proof. intros H. by apply jm_sum_le. Qed.

(** ** Automation *)

Create HintDb artgod.

Create Rewrite HintDb artgod.

#[export] Hint Resolve jm_wf_nil jm_wf_set jm_wf_del : artgod.

#[export] Hint Rewrite @jm_get_set_eq @jm_get_del_eq : artgod.

(** Break every [if] and [match] in sight, keeping the equations. *)
Ltac break_match :=
  match goal with
  | |- context [match ?x with _ => _ end] =>
      lazymatch x with
      | context [match _ with _ => _ end] => fail
      | _ => let E := fresh "E" in destruct x eqn:E
      end
  end.

Ltac break_match_hyp :=
  match goal with
  | H : context [match ?x with _ => _ end] |- _ =>
      lazymatch x with
      | context [match _ with _ => _ end] => fail
      | _ => let E := fresh "E" in destruct x eqn:E
      end
  end.

(** Turn boolean comparisons on [Z] into the propositions they decide. *)
Ltac zbool :=
  repeat match goal with
  | H : (_ <? _)%Z = true |- _ => apply Z.ltb_lt in H
  | H : (_ <? _)%Z = false |- _ => apply Z.ltb_ge in H
  | H : (_ <=? _)%Z = true |- _ => apply Z.leb_le in H
  | H : (_ <=? _)%Z = false |- _ => apply Z.leb_gt in H
  | H : (_ =? _)%Z = true |- _ => apply Z.eqb_eq in H
  | H : (_ =? _)%Z = false |- _ => apply Z.eqb_neq in H
  | H : _ && _ = true |- _ => apply andb_true_iff in H as [? ?]
  | H : _ || _ = false |- _ => apply orb_false_iff in H as [? ?]
  | H : negb _ = true |- _ => apply negb_true_iff in H
  | H : negb _ = false |- _ => apply negb_false_iff in H
  end.

(** Invert a successful bind. *)
Lemma result_bind_ok {A B} (m : result A) (f : A -> result B) b :
  result_bind m f = Ok b -> exists a, m = Ok a /\ f a = Ok b.
Proof. destruct m; simpl; [eauto|done]. Qed.

Ltac inv_try :=
  repeat match goal with
  | H : result_bind _ _ = Ok _ |- _ =>
      let a := fresh "a" in let Ha := fresh "Ha" in
      apply result_bind_ok in H as (a & Ha & H)
  end.
