(* ===== verification/JsValue.v ===== *)
(** * JavaScript values and decimal text

    The dynamically typed values the code validates ([unknown], parsed JSON),
    the number predicates it uses on them, and the decimal text of integers:
    [BigInt(text)], [value.toString()] and the two anchored patterns for
    canonical unsigned integers. *)

From Stdlib Require Import DecimalString DecimalFacts DecimalN DecimalPos.
From S2P Require Import Prelude.

Open Scope Z_scope.

(** A JavaScript number, as far as the code distinguishes numbers: an integer
    value, a finite non-integer (a ratio), or not finite. *)
Inductive jsnum : Type :=
  | NInt (z : Z)
  | NFrac (num : Z) (den : positive)
  | NNaN
  | NInf (negative : bool).

(** A value: parsed JSON has neither BigInts nor functions, the payloads of the OpenSea
    SDK may.  The fields of an object have distinct names. *)
Inductive jsval : Type :=
  | VUndef
  | VNull
  | VBool (b : bool)
  | VNum (n : jsnum)
  | VStr (s : string)
  | VArr (l : list jsval)
  | VObj (fields : list (string * jsval))
  | VBigInt (z : Z)
  | VFunction.

(** [Number.MAX_SAFE_INTEGER] *)
Definition maxSafeInteger : Z := 9007199254740991.

(** [Number.isFinite], [Number.isInteger] and [Number.isSafeInteger] *)
Definition isFiniteNum (n : jsnum) : bool :=
  match n with NInt _ | NFrac _ _ => true | _ => false end.

Definition isIntegerNum (n : jsnum) : bool :=
  match n with NInt _ => true | _ => false end.

Definition isSafeIntegerNum (n : jsnum) : bool :=
  match n with NInt z => Z.abs z <=? maxSafeInteger | _ => false end.

(** [Math.floor(n)] on a finite number. *)
Definition floorNum (n : jsnum) : Z :=
  match n with
  | NInt z => z
  | NFrac num den => num / Zpos den
  | _ => 0
  end.

(** [value.field] on a record; a missing field is [undefined]. *)
Definition obj_get (field : string) (fields : list (string * jsval)) : jsval :=
  match jm_get field fields with Some v => v | None => VUndef end.

(** ** Decimal text *)

(** [n.toString()] for a natural number. *)
Definition N_toString (n : N) : string := NilEmpty.string_of_uint (N.to_uint n).

(** [z.toString()] for a BigInt or an integral number. *)
Definition Z_toString (z : Z) : string :=
  if z <? 0 then append "-" (N_toString (Z.to_N (- z))) else N_toString (Z.to_N z).

(** [BigInt(text)] on text made of decimal digits only. *)
Definition parseDigits (s : string) : option Z :=
  match NilEmpty.uint_of_string s with
  | Some d => Some (Z.of_N (N.of_uint d))
  | None => None
  end.

Definition isDigit (c : ascii) : bool :=
  let n := N_of_ascii c in ((48 <=? n) && (n <=? 57))%N.

Fixpoint allDigits (s : string) : bool :=
  match s with
  | EmptyString => true
  | String c s' => isDigit c && allDigits s'
  end.

(** The anchored pattern: one of 1-9, then any number of digits. *)
Definition POSITIVE_INTEGER_PATTERN (s : string) : bool :=
  match s with
  | EmptyString => false
  | String c s' => isDigit c && negb (Ascii.eqb c "0") && allDigits s'
  end.

(** The anchored pattern: the text 0, or a positive integer as above. *)
Definition NON_NEGATIVE_INTEGER_PATTERN (s : string) : bool :=
  String.eqb s "0" || POSITIVE_INTEGER_PATTERN s.

(** ** Dates *)

(** [n.toString().padStart(width, "0")] for a natural number. *)
Definition pad (width : nat) (z : Z) : string :=
  let s := Z_toString z in
  append (String.concat "" (repeat "0"%string (width - String.length s))) s.

(** Year, month and day of a day number counted from 1970-01-01 (proleptic
    Gregorian calendar). *)
Definition civilFromDays (days : Z) : Z * Z * Z :=
  let z := days + 719468 in
  let era := z / 146097 in
  let doe := z mod 146097 in
  let yoe := (doe - doe / 1460 + doe / 36524 - doe / 146096) / 365 in
  let doy := doe - (365 * yoe + yoe / 4 - yoe / 100) in
  let mp := (5 * doy + 2) / 153 in
  let d := doy - (153 * mp + 2) / 5 + 1 in
  let m := if mp <? 10 then mp + 3 else mp - 9 in
  (yoe + era * 400 + (if m <=? 2 then 1 else 0), m, d).

(** [new Date(ms).toISOString()] for a time value in range. *)
Definition toISOString (ms : Z) : string :=
  let '(y, m, d) := civilFromDays (ms / 86400000) in
  let t := ms mod 86400000 in
  let year := if (0 <=? y) && (y <=? 9999) then pad 4 y
              else append (if y <? 0 then "-" else "+") (pad 6 (Z.abs y)) in
  String.concat ""
    [year; "-"; pad 2 m; "-"; pad 2 d; "T"; pad 2 (t / 3600000); ":"; pad 2 (t / 60000 mod 60); ":";
     pad 2 (t / 1000 mod 60); "."; pad 3 (t mod 1000); "Z"]%string.

Example toISOString_epoch : toISOString 0 = "1970-01-01T00:00:00.000Z"%string.
Proof. vm_compute. reflexivity. Qed.

Example toISOString_leap : toISOString 1709210096789 = "2024-02-29T12:34:56.789Z"%string.
Proof. vm_compute. reflexivity. Qed.

Lemma allDigits_string_of_uint d : allDigits (NilEmpty.string_of_uint d) = true.
Proof. by induction d. Qed.

Lemma to_uint_no_leading_zero n d : N.to_uint n = Decimal.D0 d -> n = 0%N.
Proof.
  intros E. pose proof (DecimalN.Unsigned.to_of (Decimal.D0 d)) as H.
  rewrite <- E, DecimalN.Unsigned.of_to in H. rewrite E in H.
  unfold Decimal.unorm in H. pose proof (nzhead_nonzero (Decimal.D0 d)) as Hnz.
  destruct (Decimal.nzhead (Decimal.D0 d)) eqn:E'; try discriminate.
  - injection H as ->. rewrite <- (DecimalN.Unsigned.of_to n), E. reflexivity.
  - exfalso. by apply (Hnz u).
Qed.

Lemma parse_N_toString n : parseDigits (N_toString n) = Some (Z.of_N n).
Proof.
  unfold parseDigits, N_toString. by rewrite NilEmpty.usu, DecimalN.Unsigned.of_to.
Qed.

Lemma N_toString_canonical n :
  NON_NEGATIVE_INTEGER_PATTERN (N_toString n) = true /\
  (n <> 0%N -> POSITIVE_INTEGER_PATTERN (N_toString n) = true).
Proof.
  assert (n <> 0%N -> POSITIVE_INTEGER_PATTERN (N_toString n) = true) as Hpos.
  { intros Hn. unfold N_toString.
    destruct (N.to_uint n) eqn:E;
      try (simpl; rewrite allDigits_string_of_uint; reflexivity).
    - exfalso. apply Hn. rewrite <- (DecimalN.Unsigned.of_to n), E. reflexivity.
    - exfalso. apply Hn. by apply to_uint_no_leading_zero in E. }
  split; [|done]. unfold NON_NEGATIVE_INTEGER_PATTERN.
  destruct (decide (n = 0%N)) as [->|Hn]; [reflexivity|].
  rewrite (Hpos Hn). by rewrite orb_true_r.
Qed.

(** Printing is injective. *)
Lemma Z_toString_nonneg_inj a b :
  0 <= a -> 0 <= b -> Z_toString a = Z_toString b -> a = b.
Proof.
  unfold Z_toString. intros Ha Hb.
  apply Z.ltb_ge in Ha as Ha'. apply Z.ltb_ge in Hb as Hb'. rewrite Ha', Hb'.
  intros E. apply (f_equal parseDigits) in E. rewrite !parse_N_toString in E.
  injection E as E. lia.
Qed.

Lemma parse_Z_toString z : 0 <= z -> parseDigits (Z_toString z) = Some z.
Proof.
  intros Hz. unfold Z_toString. rewrite (proj2 (Z.ltb_ge _ _) Hz).
  rewrite parse_N_toString. f_equal. lia.
Qed.

Lemma parseDigits_nonneg s z : parseDigits s = Some z -> 0 <= z.
Proof. unfold parseDigits. case_match; intros [= <-]. lia. Qed.

Lemma POSITIVE_parse_pos s z :
  POSITIVE_INTEGER_PATTERN s = true -> parseDigits s = Some z -> 0 < z.
Proof.
  intros Hp Hz. pose proof (parseDigits_nonneg _ _ Hz) as Hn.
  destruct (decide (z = 0)) as [->|]; [exfalso|lia].
  unfold parseDigits in Hz. destruct (NilEmpty.uint_of_string s) as [d|] eqn:E; [|done].
  injection Hz as Hz. assert (N.of_uint d = 0%N) as Hd by lia.
  apply NilEmpty.sus in E. subst s.
  destruct d; simpl in Hp; try done;
    apply (f_equal N.to_uint) in Hd; rewrite DecimalN.Unsigned.to_of in Hd; done.
Qed.
