(* ===== verification/OfferPrice.v ===== *)
(** * OpenSea offer price grid

    [shared/trading/open-sea-offer-price.ts]: the marketplace accepts WETH unit
    prices on a grid whose step depends on the price; the bidder rounds its
    bounds and its bids onto it.  BigInt is [Z], BigInt division truncates
    towards zero ([Z.quot]), and a negative amount throws a [RangeError]. *)

From S2P Require Import Prelude.

Open Scope Z_scope.

Module OfferPrice.

Definition WHOLE_WETH_TIER_MIN_WEI : Z := 1000000000000000000.

Definition TENTH_WETH_TIER_MIN_WEI : Z := 100000000000000000.

Definition TWO_DECIMAL_STEP_WEI : Z := 10000000000000000.

Definition THREE_DECIMAL_STEP_WEI : Z := 1000000000000000.

Definition FOUR_DECIMAL_STEP_WEI : Z := 100000000000000.

Definition getOpenSeaOfferPriceStepWei (amountWei : Z) : result Z :=
  if amountWei <? 0 then Err "Offer price must be non-negative"
  else if WHOLE_WETH_TIER_MIN_WEI <=? amountWei then Ok TWO_DECIMAL_STEP_WEI
  else if TENTH_WETH_TIER_MIN_WEI <=? amountWei then Ok THREE_DECIMAL_STEP_WEI
  else Ok FOUR_DECIMAL_STEP_WEI.

Definition roundOpenSeaOfferPriceDown (amountWei : Z) : result Z :=
  try stepWei <- getOpenSeaOfferPriceStepWei amountWei;
  Ok (Z.quot amountWei stepWei * stepWei).

Definition roundOpenSeaOfferPriceUp (amountWei : Z) : result Z :=
  try stepWei <- getOpenSeaOfferPriceStepWei amountWei;
  Ok (Z.quot (amountWei + stepWei - 1) stepWei * stepWei).

Definition getOpenSeaBidDeltaStepWei (floorWei ceilingWei : Z) : result Z :=
  try floorStep <- getOpenSeaOfferPriceStepWei floorWei;
  try ceilingStep <- getOpenSeaOfferPriceStepWei ceilingWei;
  Ok (if ceilingStep <? floorStep then floorStep else ceilingStep).

Definition isValidOpenSeaBidDeltaWei (deltaWei floorWei ceilingWei : Z) : result bool :=
  try stepWei <- getOpenSeaBidDeltaStepWei floorWei ceilingWei;
  Ok ((0 <? deltaWei) && (Z.rem deltaWei stepWei =? 0)).

Definition nearestOpenSeaBidDeltaWei (deltaWei floorWei ceilingWei : Z) : result Z :=
  try stepWei <- getOpenSeaBidDeltaStepWei floorWei ceilingWei;
  Ok (if deltaWei <=? stepWei then stepWei
      else Z.quot (deltaWei + Z.quot stepWei 2) stepWei * stepWei).

(** ** The grid, independently of the rounding code *)

(** A valid unit price: a non-negative multiple of the step of its own tier. *)
Definition valid_price (p : Z) : Prop :=
  exists step, getOpenSeaOfferPriceStepWei p = Ok step /\ (step | p).

#[global] Instance valid_price_dec p : Decision (valid_price p).
Proof.
  refine (match getOpenSeaOfferPriceStepWei p as r
                return getOpenSeaOfferPriceStepWei p = r -> Decision (valid_price p) with
          | Ok s => fun E => match decide (p mod s = 0) with
                             | left H => left _ | right H => right _ end
          | Err e => fun E => right _
          end eq_refl).
  - exists s. split; [done|]. apply Z.mod_divide; [|done].
    unfold getOpenSeaOfferPriceStepWei in E. intros ->. repeat case_match; done.
  - intros (s' & E' & Hd). rewrite E in E'. injection E' as <-.
    apply H. apply Z.mod_divide; [|done].
    unfold getOpenSeaOfferPriceStepWei in E. intros ->. repeat case_match; done.
  - intros (s' & E' & _). congruence.
Defined.

(** [p] is the largest valid price at or below [a]. *)
Definition is_floor_price (a p : Z) : Prop :=
  valid_price p /\ p <= a /\ forall q, valid_price q -> q <= a -> q <= p.

(** [p] is the smallest valid price at or above [a]. *)
Definition is_ceil_price (a p : Z) : Prop :=
  valid_price p /\ a <= p /\ forall q, valid_price q -> a <= q -> p <= q.

Ltac grid := unfold WHOLE_WETH_TIER_MIN_WEI, TENTH_WETH_TIER_MIN_WEI,
  TWO_DECIMAL_STEP_WEI, THREE_DECIMAL_STEP_WEI, FOUR_DECIMAL_STEP_WEI in *.

(** The three tiers of a non-negative amount. *)
Lemma step_cases a :
  0 <= a ->
  exists step, getOpenSeaOfferPriceStepWei a = Ok step /\
  ((WHOLE_WETH_TIER_MIN_WEI <= a /\ step = TWO_DECIMAL_STEP_WEI) \/
   (TENTH_WETH_TIER_MIN_WEI <= a < WHOLE_WETH_TIER_MIN_WEI /\ step = THREE_DECIMAL_STEP_WEI) \/
   (0 <= a < TENTH_WETH_TIER_MIN_WEI /\ step = FOUR_DECIMAL_STEP_WEI)).
Proof.
  intros Ha. unfold getOpenSeaOfferPriceStepWei.
  repeat case_match; zbool; try lia; eexists; split; eauto; lia.
Qed.

Lemma step_neg a : a < 0 -> getOpenSeaOfferPriceStepWei a = Err "Offer price must be non-negative".
Proof. intros Ha. unfold getOpenSeaOfferPriceStepWei. by apply Z.ltb_lt in Ha as ->. Qed.

Lemma valid_price_nonneg p : valid_price p -> 0 <= p.
Proof.
  intros (s & E & _). unfold getOpenSeaOfferPriceStepWei in E.
  case_match; zbool; [done|lia].
Qed.

(** Validity, tier by tier, with the multiple made explicit. *)
Lemma valid_price_cases p :
  valid_price p <->
  exists k, 0 <= k /\
  ((p = k * TWO_DECIMAL_STEP_WEI /\ WHOLE_WETH_TIER_MIN_WEI <= p) \/
   (p = k * THREE_DECIMAL_STEP_WEI /\ TENTH_WETH_TIER_MIN_WEI <= p < WHOLE_WETH_TIER_MIN_WEI) \/
   (p = k * FOUR_DECIMAL_STEP_WEI /\ p < TENTH_WETH_TIER_MIN_WEI)).
Proof.
  split.
  - intros Hv. pose proof (valid_price_nonneg p Hv) as Hp.
    destruct Hv as (s & E & k & Hk). destruct (step_cases p Hp) as (s' & E' & Hc).
    rewrite E in E'. injection E' as <-. exists k. grid. intuition subst; lia.
  - intros (k & Hk & Hc). assert (0 <= p) as Hp by (grid; lia).
    destruct (step_cases p Hp) as (s & E & Hs). exists s. split; [done|].
    exists k. grid. lia.
Qed.

Lemma quot_ceil a s : 0 <= a -> 0 < s ->
  let q := Z.quot (a + s - 1) s in 0 <= q /\ a <= q * s < a + s.
Proof.
  intros Ha Hs q. subst q. rewrite Z.quot_div_nonneg by lia.
  pose proof (Z.div_mod (a + s - 1) s ltac:(lia)) as E.
  pose proof (Z.mod_pos_bound (a + s - 1) s Hs).
  pose proof (Z.div_pos (a + s - 1) s ltac:(lia) Hs). nia.
Qed.

Lemma quot_floor a s : 0 <= a -> 0 < s ->
  let q := Z.quot a s in 0 <= q /\ a - s < q * s <= a.
Proof.
  intros Ha Hs q. subst q. rewrite Z.quot_div_nonneg by lia.
  pose proof (Z.div_mod a s ltac:(lia)) as E.
  pose proof (Z.mod_pos_bound a s Hs).
  pose proof (Z.div_pos a s ltac:(lia) Hs). nia.
Qed.

Lemma round_down_spec a :
  0 <= a -> exists p, roundOpenSeaOfferPriceDown a = Ok p /\ is_floor_price a p.
Proof.
  intros Ha. destruct (step_cases a Ha) as (s & E & Hc).
  unfold roundOpenSeaOfferPriceDown. rewrite E. simpl.
  assert (0 < s) as Hs by (grid; lia).
  destruct (quot_floor a s Ha Hs) as (Hq & Hlo & Hhi).
  eexists; split; [done|]. set (q := Z.quot a s) in *. clearbody q.
  split_and!; [|lia|].
  - apply valid_price_cases. exists q. split; [done|]. grid. intuition subst; lia.
  - intros v (k & Hk & Hv)%valid_price_cases Hle. grid.
    destruct Hc as [[? ->]|[[? ->]|[? ->]]]; lia.
Qed.

Lemma round_up_spec a :
  0 <= a -> exists p, roundOpenSeaOfferPriceUp a = Ok p /\ is_ceil_price a p.
Proof.
  intros Ha. destruct (step_cases a Ha) as (s & E & Hc).
  unfold roundOpenSeaOfferPriceUp. rewrite E. simpl.
  assert (0 < s) as Hs by (grid; lia).
  destruct (quot_ceil a s Ha Hs) as (Hq & Hlo & Hhi).
  eexists; split; [done|]. set (q := Z.quot (a + s - 1) s) in *. clearbody q.
  split_and!; [|lia|].
  - apply valid_price_cases. grid. destruct Hc as [[? ->]|[[? ->]|[? ->]]].
    + exists q. lia.
    + destruct (decide (q = 1000)) as [->|]; [exists 100; lia|exists q; lia].
    + destruct (decide (q = 1000)) as [->|]; [exists 100; lia|exists q; lia].
  - intros v (k & Hk & Hv)%valid_price_cases Hle. grid.
    destruct Hc as [[? ->]|[[? ->]|[? ->]]]; lia.
Qed.

(** The step of a delta range is one of the three grid steps. *)
Lemma delta_step_cases floorWei ceilingWei :
  0 <= floorWei -> 0 <= ceilingWei ->
  exists step, getOpenSeaBidDeltaStepWei floorWei ceilingWei = Ok step /\
    (step = TWO_DECIMAL_STEP_WEI \/ step = THREE_DECIMAL_STEP_WEI \/ step = FOUR_DECIMAL_STEP_WEI).
Proof.
  intros Hf Hc. unfold getOpenSeaBidDeltaStepWei.
  destruct (step_cases _ Hf) as (s1 & -> & H1), (step_cases _ Hc) as (s2 & -> & H2).
  simpl. eexists; split; [done|]. case_match; lia.
Qed.

Lemma valid_delta_spec d floorWei ceilingWei step :
  getOpenSeaBidDeltaStepWei floorWei ceilingWei = Ok step -> step <> 0 ->
  isValidOpenSeaBidDeltaWei d floorWei ceilingWei = Ok true <-> 0 < d /\ (step | d).
Proof.
  intros E Hs. unfold isValidOpenSeaBidDeltaWei. rewrite E. simpl. split.
  - intros [= H]. zbool. split; [done|]. by apply Z.rem_divide.
  - intros [Hd Hdiv]. apply Z.rem_divide in Hdiv; [|done].
    by apply Z.ltb_lt in Hd as ->; rewrite Hdiv.
Qed.

(** C39: The two roundings are exact on the marketplace's price grid: for a
    non-negative amount, rounding down gives the largest valid price at or below
    it and rounding up the smallest valid price at or above it, the two agree
    precisely on valid prices, and a negative amount is refused by both. *)
Theorem offer_price_rounding_exact (a : Z) :
  (0 <= a -> exists d u,
     roundOpenSeaOfferPriceDown a = Ok d /\ roundOpenSeaOfferPriceUp a = Ok u /\
     is_floor_price a d /\ is_ceil_price a u /\ (d = u <-> valid_price a)) /\
  (a < 0 -> is_ok (roundOpenSeaOfferPriceDown a) = false /\
            is_ok (roundOpenSeaOfferPriceUp a) = false).
Proof.
  split; intros Ha.
  - destruct (round_down_spec a Ha) as (d & Ed & Hd), (round_up_spec a Ha) as (u & Eu & Hu).
    exists d, u. split_and!; try done. destruct Hd as (Vd & Hd & Md), Hu as (Vu & Hu & Mu).
    split; [intros <-; by replace a with d by lia|].
    intros Va. specialize (Md a Va). specialize (Mu a Va). lia.
  - unfold roundOpenSeaOfferPriceDown, roundOpenSeaOfferPriceUp. by rewrite step_neg.
Qed.

Lemma offer_price_rounding_exact_witness :
  exists d u, roundOpenSeaOfferPriceDown 999950000000000000 = Ok d /\
              roundOpenSeaOfferPriceUp 999950000000000000 = Ok u /\
              d <> u /\ is_ceil_price 999950000000000000 u.
Proof.
  destruct (proj1 (offer_price_rounding_exact 999950000000000000) ltac:(lia))
    as (d & u & Ed & Eu & _ & Hu & _).
  exists d, u. split_and!; try done.
  vm_compute in Ed, Eu. congruence.
Defined.

(** The delta suggested to the operator is valid for its range, no valid
    delta is nearer to the requested one, and between two equally near deltas
    the larger is chosen. *)
Theorem nearest_delta_optimal (deltaWei floorWei ceilingWei : Z) :
  0 <= floorWei -> 0 <= ceilingWei ->
  exists n, nearestOpenSeaBidDeltaWei deltaWei floorWei ceilingWei = Ok n /\
    isValidOpenSeaBidDeltaWei n floorWei ceilingWei = Ok true /\
    forall d, isValidOpenSeaBidDeltaWei d floorWei ceilingWei = Ok true ->
      Z.abs (n - deltaWei) < Z.abs (d - deltaWei) \/
      (Z.abs (n - deltaWei) = Z.abs (d - deltaWei) /\ d <= n).
Proof.
  intros Hf Hc. destruct (delta_step_cases _ _ Hf Hc) as (s & E & Hs).
  assert (0 < s /\ Z.quot s 2 * 2 = s) as [Hpos Heven]
    by (grid; destruct Hs as [->|[->| ->]]; vm_compute; split; congruence).
  unfold nearestOpenSeaBidDeltaWei. rewrite E. simpl. eexists; split; [done|].
  rewrite valid_delta_spec by (done || lia).
  setoid_rewrite (fun d => valid_delta_spec d _ _ s E ltac:(lia)).
  case_match; zbool.
  - split; [split; [lia|exists 1; lia]|]. intros d [Hd [k ->]].
    assert (k = 1 \/ 2 <= k) as [->|Hk] by nia; [lia|].
    assert (s + s <= k * s) by nia. lia.
  - set (h := Z.quot s 2) in *.
    destruct (quot_floor (deltaWei + h) s ltac:(lia) Hpos) as (Hq & Hlo & Hhi).
    set (q := Z.quot (deltaWei + h) s) in *. clearbody q h.
    split; [split; [nia|by exists q]|]. intros d [Hd [k ->]].
    assert (k <= q - 1 \/ k = q \/ q + 1 <= k) as [Hk|[->|Hk]] by lia; [|lia|].
    + assert (k * s <= q * s - s) by nia. lia.
    + assert (q * s + s <= k * s) by nia. lia.
Qed.

Lemma nearest_delta_optimal_witness :
  exists n, nearestOpenSeaBidDeltaWei 15000000000000000 0 1000000000000000000 = Ok n /\
            n = 20000000000000000.
Proof.
  destruct (nearest_delta_optimal 15000000000000000 0 1000000000000000000
              ltac:(lia) ltac:(lia)) as (n & E & _).
  exists n. split; [exact E|]. vm_compute in E. congruence.
Defined.

End OfferPrice.
