(* ===== verification/Domain.v ===== *)
(** * The bidding domain

    [trading/src/domain/market/strategy/job.ts] (jobs, their configuration, state
    and target, and the references the logs print), [trading/src/domain/market/
    event.ts] (market events) and the order types of [trading/src/application/
    use-cases/bidding/bidding-service.ts].  A bigint is [Z]; an optional field is
    an [option]; a price range bound is a binary64 number ([spec_float]). *)

From Stdlib Require Import SpecFloat.
From S2P Require Import Prelude JsValue.

Open Scope Z_scope.

(** ** Traits *)

Record TraitTarget := { tt_type : string; tt_value : string }.

Record TraitSelector := { ts_type : string; ts_value : option string }.

(** [TradingBiddingTraitCriterion]: an exact value or a numeric interval. *)
Inductive TraitCriterion : Type :=
  | ExactTrait (type value : string)
  | RangeTrait (type : string) (min max : spec_float).

#[global] Instance spec_float_eq_dec : EqDecision spec_float.
Proof. solve_decision. Defined.

#[global] Instance TraitTarget_eq_dec : EqDecision TraitTarget.
Proof. solve_decision. Defined.

#[global] Instance TraitSelector_eq_dec : EqDecision TraitSelector.
Proof. solve_decision. Defined.

#[global] Instance TraitCriterion_eq_dec : EqDecision TraitCriterion.
Proof. solve_decision. Defined.

Definition tc_type (c : TraitCriterion) : string :=
  match c with ExactTrait t _ => t | RangeTrait t _ _ => t end.

Definition exactCriterion (t : TraitTarget) : TraitCriterion :=
  ExactTrait (tt_type t) (tt_value t).

(** ** Jobs *)

Record BidderConfig := {
  ceiling : Z;
  floor : Z;
  delta : Z;
  extraCompetitionTraits : option (list TraitSelector);
}.

Inductive BidPosition : Type := Winning | Draw | Losing.

Inductive BidConstraint : Type := CeilingConstraint | FloorConstraint.

#[global] Instance BidPosition_eq_dec : EqDecision BidPosition.
Proof. solve_decision. Defined.

#[global] Instance BidConstraint_eq_dec : EqDecision BidConstraint.
Proof. solve_decision. Defined.

Record BidderState := {
  lastRun : option Z;
  activeOrderId : option string;
  activeProtocolAddress : option string;
  activeOrderPlacedAt : option string;
  activeOrderVerifiedAt : option string;
  currentPrice : option Z;
  activeExpirationTimeMs : option Z;
  bidPosition : option BidPosition;
  bidConstraints : option (list BidConstraint);
  competitorPrice : option Z;
}.

Definition emptyState : BidderState := {|
  lastRun := None; activeOrderId := None; activeProtocolAddress := None;
  activeOrderPlacedAt := None; activeOrderVerifiedAt := None; currentPrice := None;
  activeExpirationTimeMs := None; bidPosition := None; bidConstraints := None;
  competitorPrice := None |}.

Inductive BidderTarget : Type :=
  | TokenTarget (tokenId : string)
  | CollectionTarget (quantity : jsnum) (traits : option (list TraitTarget))
  | CompetitiveTraitTarget (quantity : jsnum) (targetTrait : TraitTarget)
      (competitorTraits : list TraitSelector).

Inductive TargetType : Type := TToken | TCollection | TCompetitiveTrait.

#[global] Instance TargetType_eq_dec : EqDecision TargetType.
Proof. solve_decision. Defined.

Definition target_type (t : BidderTarget) : TargetType :=
  match t with
  | TokenTarget _ => TToken
  | CollectionTarget _ _ => TCollection
  | CompetitiveTraitTarget _ _ _ => TCompetitiveTrait
  end.

Record BidderJob := {
  job_id : string;
  revision : Z;
  collectionId : Z;
  collectionAddress : string;
  collectionSlug : string;
  target : BidderTarget;
  config : BidderConfig;
  state : BidderState;
}.

Definition set_state (j : BidderJob) (s : BidderState) : BidderJob := {|
  job_id := job_id j; revision := revision j; collectionId := collectionId j;
  collectionAddress := collectionAddress j; collectionSlug := collectionSlug j;
  target := target j; config := config j; state := s |}.

Definition set_revision (j : BidderJob) (r : Z) : BidderJob := {|
  job_id := job_id j; revision := r; collectionId := collectionId j;
  collectionAddress := collectionAddress j; collectionSlug := collectionSlug j;
  target := target j; config := config j; state := state j |}.

Definition default_traits {A} (o : option (list A)) : list A :=
  match o with Some l => l | None => [] end.

Definition bidderTargetRequiresOpenSeaSignedZoneTrust (t : BidderTarget) : bool :=
  match t with
  | CompetitiveTraitTarget _ _ _ => true
  | CollectionTarget _ traits => (0 <? length (default_traits traits))%nat
  | TokenTarget _ => false
  end.

(** ** Log references of a job *)

Definition MAX_LOG_TRAITS : nat := 6.

Definition MAX_LOG_VALUE_LENGTH : nat := 96.

(** [parts.join(sep)] *)
Fixpoint joinWith (sep : string) (l : list string) : string :=
  match l with
  | [] => ""
  | [x] => x
  | x :: l' => append x (append sep (joinWith sep l'))
  end.

Definition compactLogValue (value : string) : string :=
  if (MAX_LOG_VALUE_LENGTH <? String.length value)%nat
  then append (String.substring 0 (MAX_LOG_VALUE_LENGTH - 3) value) "..."
  else value.

Definition formatTraitTarget (t : TraitTarget) : string :=
  append (compactLogValue (tt_type t)) (append "=" (compactLogValue (tt_value t))).

Definition formatTraitSelector (t : TraitSelector) : string :=
  match ts_value t with
  | None => append (compactLogValue (ts_type t)) "=*"
  | Some v => append (compactLogValue (ts_type t)) (append "=" (compactLogValue v))
  end.

Definition formatLimitedList (values : list string) : string :=
  let visible := take MAX_LOG_TRAITS values in
  let remaining := (length values - length visible)%nat in
  if (0 <? remaining)%nat
  then append (joinWith "|" visible)
         (append "|+" (append (N_toString (N.of_nat remaining)) " more"))
  else joinWith "|" visible.

Definition formatTraitTargets (traits : list TraitTarget) : string :=
  formatLimitedList (map formatTraitTarget traits).

Definition formatTraitSelectors (traits : list TraitSelector) : string :=
  if (0 <? length traits)%nat
  then formatLimitedList (map formatTraitSelector traits)
  else "none".

Definition formatQuantity (value : jsnum) : string :=
  if isFiniteNum value then Z_toString (Z.max 1 (floorNum value)) else "1".

Definition formatBidderTargetReference (t : BidderTarget) : string :=
  match t with
  | TokenTarget tokenId => append "token#" tokenId
  | CollectionTarget quantity traits =>
      let traits := default_traits traits in
      let scope := if (0 <? length traits)%nat
                   then append "traits[" (append (formatTraitTargets traits) "]")
                   else "collection" in
      append scope (append " qty=" (formatQuantity quantity))
  | CompetitiveTraitTarget quantity targetTrait competitorTraits =>
      append "competitive[target=" (append (formatTraitTarget targetTrait)
        (append "; competitors=" (append (formatTraitSelectors competitorTraits)
          (append "; qty=" (append (formatQuantity quantity) "]")))))
  end.

Definition formatBidderJobReference (j : BidderJob) : string :=
  append (collectionSlug j) (append "/" (append (formatBidderTargetReference (target j))
    (append " (jobId=" (append (job_id j) ")")))).

(** ** Market events *)

Inductive EventType : Type :=
  | CollectionOffer | ItemListed | ItemReceivedBid | ItemSold | TraitOffer | ItemTransferred.

Inductive Scope : Type := ScopeCollection | ScopeItem | ScopeTrait | ScopeUnknown.

#[global] Instance Scope_eq_dec : EqDecision Scope.
Proof. solve_decision. Defined.

(** The fields of [MarketEvent] the hot path reads; its quantity is an integral
    number. *)
Record MarketEvent := {
  ev_type : EventType;
  ev_collectionSlug : string;
  ev_itemId : string;
  ev_maker : string;
  ev_quantity : Z;
  ev_scope : Scope;
  ev_traitCriteria : list TraitCriterion;
  ev_totalPrice : Z;
}.

Definition hasExplicitTokenId (e : MarketEvent) : bool := truthy (ev_itemId e).

Definition setTotalPrice (e : MarketEvent) (price : Z) : MarketEvent := {|
  ev_type := ev_type e; ev_collectionSlug := ev_collectionSlug e; ev_itemId := ev_itemId e;
  ev_maker := ev_maker e; ev_quantity := ev_quantity e; ev_scope := ev_scope e;
  ev_traitCriteria := ev_traitCriteria e; ev_totalPrice := price |}.

Definition getUnitPrice (e : MarketEvent) : Z :=
  if ev_quantity e <=? 0 then 0 else Z.quot (ev_totalPrice e) (ev_quantity e).

(** ** Orders at the marketplace boundary *)

Inductive OfferScope : Type := OfferItem | OfferCollection | OfferTrait | OfferUnknown.

#[global] Instance OfferScope_eq_dec : EqDecision OfferScope.
Proof. solve_decision. Defined.

(** [rawOrder] enters the bidder only through the trait criteria read off it, so
    the criteria are the field. *)
Record Order := {
  ord_id : string;
  ord_price : Z;
  ord_maker : string;
  ord_protocolAddress : option string;
  ord_placedAt : option string;
  ord_expirationTime : option jsnum;
  ord_offerScope : option OfferScope;
  ord_criteria : list TraitCriterion;
  ord_quantity : option Z;
}.

Inductive BiddingOrderRecoveryResult : Type :=
  | RecoveryActive (order : Order)
  | RecoveryInactiveOrMissing
  | RecoveryInconclusive (reason : string).

Inductive RequestPriority : Type := PriorityBackground | PriorityUserCommand.

(** [BiddingServiceRequestContext]: its optional priority. *)
Definition RequestContext : Type := option RequestPriority.

Record PlacedOffer := {
  po_orderHash : string;
  po_protocolAddress : string;
  po_placedAt : string;
  po_expirationTime : option jsnum;
}.

(** ** Facts *)

Lemma substring_length n m s :
  (String.length (String.substring n m s) <= m)%nat.
Proof.
  revert n m. induction s as [|c s IH]; intros [|n] [|m]; simpl; try lia; [|apply IH..].
  specialize (IH 0%nat m). lia.
Qed.

Lemma string_length_app s t :
  String.length (append s t) = (String.length s + String.length t)%nat.
Proof.
  induction s as [|c s IH]; [done|].
  change (S (String.length (append s t)) = (S (String.length s) + String.length t)%nat). lia.
Qed.

Lemma compactLogValue_bounded v :
  (String.length (compactLogValue v) <= MAX_LOG_VALUE_LENGTH)%nat.
Proof.
  unfold compactLogValue, MAX_LOG_VALUE_LENGTH. case_match eqn:E.
  - rewrite string_length_app. pose proof (substring_length 0 (96 - 3) v) as Hs.
    change (String.length "...") with 3%nat. lia.
  - apply Nat.ltb_ge in E. lia.
Qed.
