(* ===== verification/Mandate.v ===== *)
(** * The bidding mandate

    [trading/src/domain/bidding-mandate.ts]: the immutable authority a bidding
    process receives at start.  It is parsed from untyped JSON, and every offer
    is checked against it before it is signed. *)

From S2P Require Import Prelude JsValue Domain.

Open Scope Z_scope.

Module Mandate.

(** [maxUint256] *)
Definition maxUint256 : Z := 2 ^ 256 - 1.

Record BiddingCollectionAuthority := {
  ca_collectionId : Z;
  ca_contractAddress : string;
  ca_openseaSlug : string;
  ca_maxUnitBidWei : Z;
  ca_maxQuantity : Z;
}.

(** [EVM_PENDING_NONCE_POLICY] *)
Inductive PendingNoncePolicy : Type := NonceFail.

Record BiddingStartPolicy := {
  wethAllowanceCapWei : Z;
  trustOpenSeaSignedZoneTraitOffers : bool;
  minPriorityFeePerGasWei : Z;
  maxFeePerGasWei : Z;
  maxTotalGasFeeWei : Z;
  pendingNoncePolicy : PendingNoncePolicy;
}.

Record BiddingMandate := {
  chainId : Z;
  startPolicy : BiddingStartPolicy;
  collectionsById : list (Z * BiddingCollectionAuthority);
}.

(** ** Validators *)

Definition isRecord (v : jsval) : option (list (string * jsval)) :=
  match v with VObj fields => Some fields | _ => None end.

Definition requirePositiveSafeInteger (value : jsval) (label : string) : result Z :=
  match value with
  | VNum n =>
      match n with
      | NInt z => if isSafeIntegerNum n && (0 <? z) then Ok z
                  else Err (append label " must be a positive safe integer")
      | _ => Err (append label " must be a positive safe integer")
      end
  | _ => Err (append label " must be a positive safe integer")
  end.

Definition requireCanonicalUint (value : jsval) (label : string) (allowZero : bool) : result Z :=
  let refuse := Err (append label (append " must be canonical "
                  (append (if allowZero then "non-negative" else "positive") " wei"))) in
  match value with
  | VStr s =>
      if (if allowZero then NON_NEGATIVE_INTEGER_PATTERN s else POSITIVE_INTEGER_PATTERN s)
      then match parseDigits s with
           | Some parsed => if maxUint256 <? parsed then Err (append label " exceeds uint256")
                            else Ok parsed
           | None => refuse
           end
      else refuse
  | _ => refuse
  end.

Definition requirePositiveBigInt (value : jsval) (label : string) : result Z :=
  requireCanonicalUint value label false.

Definition requireNonEmptyString (value : jsval) (label : string) : result string :=
  match value with
  | VStr s => if String.eqb (trim s) "" then Err (append label " must be non-empty")
              else Ok (trim s)
  | _ => Err (append label " must be non-empty")
  end.

Definition isHexUnit (c : ascii) : bool :=
  let n := N_of_ascii c in ((48 <=? n) && (n <=? 57) || (97 <=? n) && (n <=? 102))%N.

Fixpoint allHex (s : string) : bool :=
  match s with
  | EmptyString => true
  | String c s' => isHexUnit c && allHex s'
  end.

(** The anchored pattern: 0x, then forty lower-case hexadecimal digits. *)
Definition EVM_ADDRESS_PATTERN (s : string) : bool :=
  match s with
  | String c0 (String c1 rest) =>
      Ascii.eqb c0 "0" && Ascii.eqb c1 "x" && allHex rest && (String.length rest =? 40)%nat
  | _ => false
  end.

Definition normalizeAddress (value : string) : result string :=
  let normalized := toLowerCase (trim value) in
  if EVM_ADDRESS_PATTERN normalized then Ok normalized
  else Err "collection contract must be an EVM address".

Definition normalizeSlug (value : string) : result string :=
  let normalized := toLowerCase (trim value) in
  if String.eqb normalized "" then Err "OpenSea slug must be non-empty" else Ok normalized.

(** ** Start policy *)

Definition parseStartPolicy (raw : jsval) : result BiddingStartPolicy :=
  match isRecord raw with
  | None => Err "start policy must be an object"
  | Some raw =>
      match obj_get "trustOpenSeaSignedZoneTraitOffers" raw with
      | VBool trust =>
          match isRecord (obj_get "wethApproval" raw) with
          | None => Err "WETH approval policy must be an object"
          | Some approval =>
              try cap <- requireCanonicalUint (obj_get "wethAllowanceCapWei" raw)
                           "WETH allowance cap" true;
              try minPrio <- requireCanonicalUint (obj_get "minPriorityFeePerGasWei" approval)
                           "WETH approval minimum priority fee per gas" false;
              try maxFee <- requireCanonicalUint (obj_get "maxFeePerGasWei" approval)
                           "WETH approval maximum fee per gas" false;
              try maxTotal <- requireCanonicalUint (obj_get "maxTotalGasFeeWei" approval)
                           "WETH approval maximum total gas fee" false;
              if maxFee <? minPrio then
                Err "WETH approval minimum priority fee per gas exceeds maximum fee per gas"
              else
                match obj_get "pendingNoncePolicy" approval with
                | VStr p =>
                    if String.eqb p "fail" then
                      Ok {| wethAllowanceCapWei := cap;
                            trustOpenSeaSignedZoneTraitOffers := trust;
                            minPriorityFeePerGasWei := minPrio;
                            maxFeePerGasWei := maxFee;
                            maxTotalGasFeeWei := maxTotal;
                            pendingNoncePolicy := NonceFail |}
                    else Err "WETH approval pending nonce policy is unsupported"
                | _ => Err "WETH approval pending nonce policy is unsupported"
                end
          end
      | _ => Err "start policy trait trust must be a boolean"
      end
  end.

(** [BiddingStartPolicy.snapshot()], as the JSON value it is serialised to. *)
Definition snapshotStartPolicy (p : BiddingStartPolicy) : jsval :=
  VObj [
    ("wethAllowanceCapWei", VStr (Z_toString (wethAllowanceCapWei p)));
    ("trustOpenSeaSignedZoneTraitOffers", VBool (trustOpenSeaSignedZoneTraitOffers p));
    ("wethApproval", VObj [
      ("minPriorityFeePerGasWei", VStr (Z_toString (minPriorityFeePerGasWei p)));
      ("maxFeePerGasWei", VStr (Z_toString (maxFeePerGasWei p)));
      ("maxTotalGasFeeWei", VStr (Z_toString (maxTotalGasFeeWei p)));
      ("pendingNoncePolicy", VStr "fail")])].

(** ** Collections *)

Definition parseCollection (raw : jsval) (index : nat) : result BiddingCollectionAuthority :=
  let at_index := append "collection at index " (N_toString (N.of_nat index)) in
  match isRecord raw with
  | None => Err (append at_index " must be an object")
  | Some raw =>
      try id <- requirePositiveSafeInteger (obj_get "collectionId" raw) (append at_index " id");
      let of_id := append "collection " (Z_toString id) in
      try _ <- requireNonEmptyString (obj_get "artgodSlug" raw) (append of_id " ArtGod slug");
      try contract <- requireNonEmptyString (obj_get "contractAddress" raw) (append of_id " contract");
      try contractAddress <- normalizeAddress contract;
      try slug <- requireNonEmptyString (obj_get "openseaSlug" raw) (append of_id " OpenSea slug");
      try openseaSlug <- normalizeSlug slug;
      try maxUnitBidWei <- requirePositiveBigInt (obj_get "maxUnitBidWei" raw)
                             (append of_id " unit bid cap");
      try maxQuantity <- requirePositiveSafeInteger (obj_get "maxQuantity" raw)
                           (append of_id " quantity cap");
      Ok {| ca_collectionId := id; ca_contractAddress := contractAddress;
            ca_openseaSlug := openseaSlug; ca_maxUnitBidWei := maxUnitBidWei;
            ca_maxQuantity := maxQuantity |}
  end.

(** The [raw.collections.map] loop with its set of seen identifiers. *)
Fixpoint parseCollections (raws : list jsval) (index : nat) (seen : list Z)
    : result (list BiddingCollectionAuthority) :=
  match raws with
  | [] => Ok []
  | value :: raws' =>
      try collection <- parseCollection value index;
      if decide (ca_collectionId collection ∈ seen) then
        Err (append "collection " (append (Z_toString (ca_collectionId collection)) " is duplicated"))
      else
        try rest <- parseCollections raws' (S index) (ca_collectionId collection :: seen);
        Ok (collection :: rest)
  end.

(** [new Map(collections.map((c) => [c.collectionId, c]))] *)
Definition indexCollections (collections : list BiddingCollectionAuthority)
    : list (Z * BiddingCollectionAuthority) :=
  fold_left (fun m c => jm_set (ca_collectionId c) c m) collections [].

Definition parseMandate (raw : jsval) (expectedChainId : Z) : result BiddingMandate :=
  match isRecord raw with
  | None => Err "mandate must be an object"
  | Some raw =>
      try id <- requirePositiveSafeInteger (obj_get "chainId" raw) "chain id";
      if negb (id =? expectedChainId) then
        Err (append "chain id " (append (Z_toString id)
          (append " does not match envelope chain " (Z_toString expectedChainId))))
      else
        try policy <- parseStartPolicy (obj_get "startPolicy" raw);
        match obj_get "collections" raw with
        | VArr ((_ :: _) as raws) =>
            try collections <- parseCollections raws 0 [];
            Ok {| chainId := id; startPolicy := policy;
                  collectionsById := indexCollections collections |}
        | _ => Err "mandate must authorize at least one collection"
        end
  end.

(** ** Authorisation *)

(** [BiddingCollectionIdentity]; the slug may be missing. *)
Record CollectionIdentity := {
  ci_collectionId : Z;
  ci_collectionAddress : string;
  ci_collectionSlug : option string;
}.

Definition identity_of_job (j : BidderJob) : CollectionIdentity := {|
  ci_collectionId := Domain.collectionId j;
  ci_collectionAddress := collectionAddress j;
  ci_collectionSlug := Some (collectionSlug j) |}.

Definition collectionAuthorizationError (m : BiddingMandate) (c : CollectionIdentity)
    : option string :=
  let named := append "collection " (Z_toString (ci_collectionId c)) in
  match jm_get (ci_collectionId c) (collectionsById m) with
  | None => Some (append named " is not authorized")
  | Some authority =>
      if negb (String.eqb (toLowerCase (trim (ci_collectionAddress c)))
                          (ca_contractAddress authority))
      then Some (append named " contract does not match")
      else if negb (match ci_collectionSlug c with
                    | Some slug => String.eqb (toLowerCase (trim slug)) (ca_openseaSlug authority)
                    | None => false
                    end)
      then Some (append named " OpenSea slug does not match")
      else None
  end.

Definition authorizesCollection (m : BiddingMandate) (c : CollectionIdentity) : bool :=
  match collectionAuthorizationError m c with None => true | Some _ => false end.

Definition resolveOfferQuantity (j : BidderJob) : result Z :=
  let invalid := Err (append "collection " (append (Z_toString (Domain.collectionId j))
                        " offer quantity is invalid")) in
  let check q := match q with
                 | NInt z => if isSafeIntegerNum q && (0 <? z) then Ok z else invalid
                 | _ => invalid
                 end in
  match target j with
  | TokenTarget _ => Ok 1
  | CollectionTarget quantity _ => check quantity
  | CompetitiveTraitTarget quantity _ _ => check quantity
  end.

Definition assertOfferAuthorized (m : BiddingMandate) (j : BidderJob) (totalAmountWei : Z)
    : result unit :=
  let named := append "collection " (Z_toString (Domain.collectionId j)) in
  match collectionAuthorizationError m (identity_of_job j) with
  | Some e => Err e
  | None =>
      match jm_get (Domain.collectionId j) (collectionsById m) with
      | None => Err (append named " is not authorized")
      | Some authority =>
          try quantity <- resolveOfferQuantity j;
          if ca_maxQuantity authority <? quantity then
            Err (append named (append " quantity " (append (Z_toString quantity)
              (append " exceeds cap " (Z_toString (ca_maxQuantity authority))))))
          else if totalAmountWei <=? 0 then Err "offer amount must be positive"
          else
            let totalCapWei := ca_maxUnitBidWei authority * quantity in
            if totalCapWei <? totalAmountWei then
              Err (append named (append " total " (append (Z_toString totalAmountWei)
                (append " exceeds unit cap " (append (Z_toString (ca_maxUnitBidWei authority))
                  (append " for quantity " (Z_toString quantity)))))))
            else Ok tt
      end
  end.

(** [BiddingMandate.snapshot()] and [toJSON()] *)
Definition snapshotMandate (m : BiddingMandate) : jsval :=
  VObj [
    ("chainId", VNum (NInt (chainId m)));
    ("startPolicy", snapshotStartPolicy (startPolicy m));
    ("collections", VArr (map (fun c => VObj [
        ("collectionId", VNum (NInt (ca_collectionId c)));
        ("contractAddress", VStr (ca_contractAddress c));
        ("openseaSlug", VStr (ca_openseaSlug c));
        ("maxUnitBidWei", VStr (Z_toString (ca_maxUnitBidWei c)));
        ("maxQuantity", VNum (NInt (ca_maxQuantity c)))])
      (jm_values (collectionsById m))))].

(** ** Well-formed authority *)

Record authority_wf (c : BiddingCollectionAuthority) : Prop := {
  awf_id : 0 < ca_collectionId c <= maxSafeInteger;
  awf_address : EVM_ADDRESS_PATTERN (ca_contractAddress c) = true;
  awf_address_canonical : canonical (ca_contractAddress c) = ca_contractAddress c;
  awf_slug : ca_openseaSlug c <> "";
  awf_slug_canonical : canonical (ca_openseaSlug c) = ca_openseaSlug c;
  awf_cap : 0 < ca_maxUnitBidWei c <= maxUint256;
  awf_quantity : 0 < ca_maxQuantity c <= maxSafeInteger;
}.

Record policy_wf (p : BiddingStartPolicy) : Prop := {
  pwf_cap : 0 <= wethAllowanceCapWei p <= maxUint256;
  pwf_fees : 0 < minPriorityFeePerGasWei p <= maxFeePerGasWei p;
  pwf_max_fee : maxFeePerGasWei p <= maxUint256;
  pwf_total : 0 < maxTotalGasFeeWei p <= maxUint256;
}.

Record mandate_wf (m : BiddingMandate) : Prop := {
  mwf_chain : 0 < chainId m <= maxSafeInteger;
  mwf_policy : policy_wf (startPolicy m);
  mwf_nonempty : collectionsById m <> [];
  mwf_index : jm_wf (collectionsById m);
  mwf_entries : forall id c, jm_get id (collectionsById m) = Some c ->
                  ca_collectionId c = id /\ authority_wf c;
}.

(** ** Lemmas *)

Lemma requirePositiveSafeInteger_ok v l z :
  requirePositiveSafeInteger v l = Ok z -> 0 < z <= maxSafeInteger.
Proof.
  unfold requirePositiveSafeInteger, isSafeIntegerNum. repeat case_match; intros [= <-].
  zbool. unfold maxSafeInteger in *. lia.
Qed.

Lemma requireCanonicalUint_ok v l z b :
  requireCanonicalUint v l b = Ok z -> (if b then 0 <= z else 0 < z) /\ z <= maxUint256.
Proof.
  unfold requireCanonicalUint. intros H. repeat case_match; simplify_eq; zbool;
    eauto using parseDigits_nonneg, POSITIVE_parse_pos.
Qed.

Lemma normalizeAddress_ok s a :
  normalizeAddress s = Ok a -> EVM_ADDRESS_PATTERN a = true /\ canonical a = a.
Proof.
  unfold normalizeAddress. case_match eqn:E; intros [= <-].
  split; [done|]. apply canonical_idemp.
Qed.

Lemma normalizeSlug_ok s a : normalizeSlug s = Ok a -> a <> "" /\ canonical a = a.
Proof.
  unfold normalizeSlug. case_match eqn:E; intros [= <-].
  apply String.eqb_neq in E. split; [done|]. apply canonical_idemp.
Qed.

Lemma parseCollection_ok raw i c : parseCollection raw i = Ok c -> authority_wf c.
Proof.
  unfold parseCollection. intros Hok. case_match; [|done]. inv_try. simplify_eq.
  constructor; simpl; eauto using requirePositiveSafeInteger_ok.
  - by eapply normalizeAddress_ok.
  - by eapply normalizeAddress_ok.
  - by eapply normalizeSlug_ok.
  - by eapply normalizeSlug_ok.
  - by eapply (requireCanonicalUint_ok _ _ _ false).
Qed.

Lemma parseCollections_ok raws i seen cs :
  parseCollections raws i seen = Ok cs ->
  Forall authority_wf cs /\ NoDup (map ca_collectionId cs) /\
  (forall id, id ∈ seen -> id ∉ map ca_collectionId cs) /\ length cs = length raws.
Proof.
  revert i seen cs. induction raws as [|v raws IH]; simpl; intros i seen cs.
  - intros [= <-]. split_and!; [done|by apply NoDup_nil| |done]. set_solver.
  - intros H. apply result_bind_ok in H as (c & Hc & H). case_decide; [done|].
    inv_try. simplify_eq. destruct (IH _ _ _ Ha) as (Hf & Hnd & Hs & Hl). simpl.
    split_and!; [constructor; eauto using parseCollection_ok| |set_solver|lia].
    apply NoDup_cons. split; [|done]. apply Hs. set_solver.
Qed.

Lemma indexCollections_step cs m :
  NoDup (map ca_collectionId cs) ->
  (forall c, c ∈ cs -> jm_get (ca_collectionId c) m = None) ->
  fold_left (fun m c => jm_set (ca_collectionId c) c m) cs m =
  m ++ map (fun c => (ca_collectionId c, c)) cs.
Proof.
  revert m. induction cs as [|c cs IH]; simpl; intros m Hnd Hm; [by rewrite app_nil_r|].
  apply NoDup_cons in Hnd as [Hc Hnd].
  assert (jm_set (ca_collectionId c) c m = m ++ [(ca_collectionId c, c)]) as E.
  { specialize (Hm c ltac:(set_solver)). clear -Hm.
    induction m as [|[k v] m IHm]; [done|]. simpl in *. case_decide; [done|].
    simpl. f_equal. auto. }
  rewrite IH; [rewrite E, <- app_assoc; done|done|].
  intros c' Hc'. rewrite jm_get_set_ne; [apply Hm; set_solver|].
  intros Heq. apply Hc. rewrite Heq. apply list_elem_of_In, in_map. by apply list_elem_of_In.
Qed.

Lemma indexCollections_spec cs :
  NoDup (map ca_collectionId cs) ->
  indexCollections cs = map (fun c => (ca_collectionId c, c)) cs.
Proof. intros H. unfold indexCollections. by rewrite indexCollections_step. Qed.

Lemma parseStartPolicy_ok raw p : parseStartPolicy raw = Ok p -> policy_wf p.
Proof.
  unfold parseStartPolicy. intros Hok.
  repeat (case_match; try done); inv_try; repeat (case_match; try done); simplify_eq; zbool;
  repeat match goal with H : requireCanonicalUint _ _ _ = Ok _ |- _ =>
    apply requireCanonicalUint_ok in H as [? ?] end;
  constructor; simpl in *; lia.
Qed.

Lemma requireCanonicalUint_print z l b :
  0 <= z <= maxUint256 -> (b = false -> 0 < z) ->
  requireCanonicalUint (VStr (Z_toString z)) l b = Ok z.
Proof.
  intros [Hlo Hhi] Hb. unfold requireCanonicalUint.
  rewrite parse_Z_toString by done.
  assert ((if b then NON_NEGATIVE_INTEGER_PATTERN (Z_toString z)
           else POSITIVE_INTEGER_PATTERN (Z_toString z)) = true) as ->.
  { unfold Z_toString. rewrite (proj2 (Z.ltb_ge _ _) Hlo).
    destruct b; [apply N_toString_canonical|]. apply N_toString_canonical.
    specialize (Hb eq_refl). lia. }
  by rewrite (proj2 (Z.ltb_ge _ _) Hhi).
Qed.

(** ** What authorizes an offer *)

(** The quantity an offer of a job is for: one for a token, else the positive safe integer
    its target states. *)
Definition asksQuantity (j : BidderJob) (q : Z) : Prop :=
  match target j with
  | TokenTarget _ => q = 1
  | CollectionTarget n _ | CompetitiveTraitTarget n _ _ => n = NInt q /\ 0 < q <= 2 ^ 53 - 1
  end.

Lemma resolveOfferQuantity_asks j q : resolveOfferQuantity j = Ok q <-> asksQuantity j q.
Proof.
  unfold resolveOfferQuantity, asksQuantity, isSafeIntegerNum. pose proof (eq_refl : maxSafeInteger = 2 ^ 53 - 1) as Em.
  destruct (target j) as [?|n ?|n ? ?]; [split; congruence| |];
    (destruct n as [z| | |]; [|split; [done|by intros [[=] _]]..]; rewrite Em;
     destruct (Z.leb_spec (Z.abs z) (2 ^ 53 - 1)), (Z.ltb_spec 0 z); simpl;
     (split; [first [done|intros [= <-]; split; [done|lia]]|intros [[= <-] ?]; done || lia])).
Qed.

(** The check over the index of the mandate. *)
Lemma assertOfferAuthorized_ok (m : BiddingMandate) (j : BidderJob) (total : Z) :
  assertOfferAuthorized m j total = Ok tt <->
  exists c q,
    jm_get (Domain.collectionId j) (collectionsById m) = Some c /\
    canonical (collectionAddress j) = ca_contractAddress c /\
    canonical (collectionSlug j) = ca_openseaSlug c /\
    asksQuantity j q /\ q <= ca_maxQuantity c /\
    0 < total <= ca_maxUnitBidWei c * q.
Proof.
  setoid_rewrite <- resolveOfferQuantity_asks.
  unfold assertOfferAuthorized, collectionAuthorizationError, identity_of_job, canonical. simpl.
  destruct (jm_get _ _) as [c|] eqn:Ec; [|split; [done|naive_solver]].
  destruct (String.eqb_spec (toLowerCase (trim (collectionAddress j))) (ca_contractAddress c));
    simpl; [|split; [done|naive_solver]].
  destruct (String.eqb_spec (toLowerCase (trim (collectionSlug j))) (ca_openseaSlug c));
    simpl; [|split; [done|naive_solver]].
  destruct (resolveOfferQuantity j) as [q|msg] eqn:Eq; simpl; [|split; [done|naive_solver]].
  split.
  - intros H. repeat (case_match; try done). zbool. exists c, q. split_and!; done || lia.
  - intros (c' & q' & [= <-] & _ & _ & [= <-] & Hq & Ht).
    repeat case_match; zbool; try done; lia.
Qed.

(** An entry of the document names a collection and its limits. *)
Record grants (entry : list (string * jsval)) (id : Z) (contract slug : string) (unitCap maxQuantity : Z) : Prop := {
  gr_id : obj_get "collectionId" entry = VNum (NInt id);
  gr_contract : exists text, obj_get "contractAddress" entry = VStr text /\ canonical text = contract;
  gr_slug : exists text, obj_get "openseaSlug" entry = VStr text /\ canonical text = slug;
  gr_unitCap : exists digits, obj_get "maxUnitBidWei" entry = VStr digits /\ parseDigits digits = Some unitCap;
  gr_maxQuantity : obj_get "maxQuantity" entry = VNum (NInt maxQuantity);
}.

Lemma grants_functional entry id contract slug cap quantity id' contract' slug' cap' quantity' :
  grants entry id contract slug cap quantity -> grants entry id' contract' slug' cap' quantity' ->
  id = id' /\ contract = contract' /\ slug = slug' /\ cap = cap' /\ quantity = quantity'.
Proof. intros [? (?&?&?) (?&?&?) (?&?&?) ?] [? (?&?&?) (?&?&?) (?&?&?) ?]. split_and!; congruence. Qed.

Lemma requirePositiveSafeInteger_reads v l z : requirePositiveSafeInteger v l = Ok z -> v = VNum (NInt z).
Proof. unfold requirePositiveSafeInteger. repeat case_match; congruence. Qed.

Lemma requireNonEmptyString_reads v l s : requireNonEmptyString v l = Ok s -> exists text, v = VStr text /\ s = trim text.
Proof. unfold requireNonEmptyString. repeat case_match; naive_solver. Qed.

Lemma requirePositiveBigInt_reads v l z :
  requirePositiveBigInt v l = Ok z -> exists digits, v = VStr digits /\ parseDigits digits = Some z.
Proof. unfold requirePositiveBigInt, requireCanonicalUint. repeat case_match; naive_solver. Qed.

(** What an authority was read from. *)
Definition readFrom (raw : jsval) (c : BiddingCollectionAuthority) : Prop :=
  exists entry, raw = VObj entry
    /\ grants entry (ca_collectionId c) (ca_contractAddress c) (ca_openseaSlug c) (ca_maxUnitBidWei c) (ca_maxQuantity c).

Lemma parseCollection_reads raw i c : parseCollection raw i = Ok c -> readFrom raw c.
Proof.
  unfold parseCollection. intros Hok. destruct raw as [| | | | | |entry| |]; try done. simpl in Hok. inv_try. simplify_eq.
  exists entry. split; [done|]. repeat match goal with
  | H : requirePositiveSafeInteger _ _ = Ok _ |- _ => apply requirePositiveSafeInteger_reads in H
  | H : requireNonEmptyString _ _ = Ok _ |- _ => apply requireNonEmptyString_reads in H as (? & ? & ->)
  | H : requirePositiveBigInt _ _ = Ok _ |- _ => apply requirePositiveBigInt_reads in H
  | H : normalizeAddress _ = Ok _ |- _ => unfold normalizeAddress in H
  | H : normalizeSlug _ = Ok _ |- _ => unfold normalizeSlug in H
  end. repeat (case_match; simplify_eq). rewrite !trim_idemp. constructor; simpl; eauto.
Qed.

Lemma parseCollections_reads raws i seen cs : parseCollections raws i seen = Ok cs -> Forall2 readFrom raws cs.
Proof.
  revert i seen cs. induction raws as [|v raws IH]; simpl; intros i seen cs; [intros [= <-]; constructor|].
  intros H. apply result_bind_ok in H as (c & Hc%parseCollection_reads & H). case_decide; [done|].
  inv_try. simplify_eq. constructor; eauto.
Qed.

(** The index of a mandate holds what its document says. *)
Lemma parseMandate_reads raw chain m :
  parseMandate raw chain = Ok m ->
  exists fields entries cs, raw = VObj fields /\ obj_get "collections" fields = VArr entries
    /\ Forall2 readFrom entries cs
    /\ forall id c, jm_get id (collectionsById m) = Some c <-> In c cs /\ ca_collectionId c = id.
Proof.
  unfold parseMandate. intros Hok. destruct raw as [| | | | | |fields| |]; try done. simpl in Hok.
  apply result_bind_ok in Hok as (id & _ & Hok). case_match; [done|].
  apply result_bind_ok in Hok as (policy & _ & Hok).
  destruct (obj_get "collections" fields) as [| | | | |entries| | |] eqn:Ee; try done. destruct entries as [|e entries]; [done|].
  apply result_bind_ok in Hok as (cs & Hcs & [= <-]). exists fields, (e :: entries), cs.
  split_and!; [done|done|by eapply parseCollections_reads|]. intros id' c. simpl.
  destruct (parseCollections_ok _ _ _ _ Hcs) as (_ & Hnd & _ & _). rewrite indexCollections_spec by done. split.
  - intros (c' & [= <- <-] & Hc)%jm_get_In%in_map_iff. done.
  - intros [Hc <-]. apply jm_In_get; [unfold jm_wf, jm_keys; by rewrite map_map|].
    apply in_map_iff. by exists c.
Qed.

(** ** Properties *)

(** C40: Every mandate the process accepts is well formed: it is for the
    expected chain, it authorises at least one collection, identifiers are
    distinct and index their own authority, addresses and slugs are canonical,
    and every price, quantity and fee cap is positive and within its width. *)
Theorem parsed_mandate_well_formed (raw : jsval) (chain : Z) (m : BiddingMandate) :
  parseMandate raw chain = Ok m -> mandate_wf m /\ chainId m = chain.
Proof.
  unfold parseMandate. intros Hok. case_match; [|done].
  apply result_bind_ok in Hok as (id & Hid & Hok). case_match; [done|].
  apply result_bind_ok in Hok as (policy & Hpolicy & Hok).
  case_match; try done. case_match; [done|]. inv_try. simplify_eq. zbool. split; [|done].
  rename Ha into Hcs, a into cs.
  destruct (parseCollections_ok _ _ _ _ Hcs) as (Hf & Hnd & _ & Hl).
  constructor; simpl; rewrite ?indexCollections_spec by done.
  - eauto using requirePositiveSafeInteger_ok.
  - by eapply parseStartPolicy_ok.
  - by destruct cs.
  - unfold jm_wf, jm_keys. by rewrite map_map.
  - intros id0 c Hget%jm_get_In. apply in_map_iff in Hget as (c' & [= <- <-] & Hin).
    split; [done|]. rewrite Forall_forall in Hf. apply Hf. by apply list_elem_of_In.
Qed.

Definition exampleRaw : jsval :=
  VObj [("chainId", VNum (NInt 1));
        ("startPolicy", VObj [
           ("wethAllowanceCapWei", VStr "0");
           ("trustOpenSeaSignedZoneTraitOffers", VBool true);
           ("wethApproval", VObj [
              ("minPriorityFeePerGasWei", VStr "1");
              ("maxFeePerGasWei", VStr "20000000000");
              ("maxTotalGasFeeWei", VStr "5000000000000000");
              ("pendingNoncePolicy", VStr "fail")])]);
        ("collections", VArr [VObj [
           ("collectionId", VNum (NInt 7));
           ("artgodSlug", VStr "terraforms");
           ("contractAddress", VStr " 0x4E1F41613C9084FDB9E34E11FAE9412427480E56 ");
           ("openseaSlug", VStr "Terraforms");
           ("maxUnitBidWei", VStr "2000000000000000000");
           ("maxQuantity", VNum (NInt 3))]])].

Definition exampleMandate : BiddingMandate := {|
  chainId := 1;
  startPolicy := {| wethAllowanceCapWei := 0; trustOpenSeaSignedZoneTraitOffers := true;
    minPriorityFeePerGasWei := 1; maxFeePerGasWei := 20000000000;
    maxTotalGasFeeWei := 5000000000000000; pendingNoncePolicy := NonceFail |};
  collectionsById := [(7, {| ca_collectionId := 7;
    ca_contractAddress := "0x4e1f41613c9084fdb9e34e11fae9412427480e56";
    ca_openseaSlug := "terraforms"; ca_maxUnitBidWei := 2000000000000000000;
    ca_maxQuantity := 3 |})] |}.

Lemma parsed_mandate_well_formed_witness :
  parseMandate exampleRaw 1 = Ok exampleMandate /\ mandate_wf exampleMandate.
Proof.
  split; [vm_compute; reflexivity|].
  exact (proj1 (parsed_mandate_well_formed exampleRaw 1 exampleMandate
                  ltac:(vm_compute; reflexivity))).
Defined.

(** C38: the offer check enforces the document the process was given, and nothing else: an
    offer is authorised precisely when an entry of the document names the collection of
    the job, with its contract and slug up to case and outer white space, the quantity asked
    (one for a token, else the positive safe integer the target states) is within the
    entry's quantity, and the total is positive and at most the entry's unit price times
    that quantity. *)
Theorem offer_authorized_iff (raw : jsval) (chain : Z) (m : BiddingMandate) (j : BidderJob) (total : Z) :
  parseMandate raw chain = Ok m ->
  assertOfferAuthorized m j total = Ok tt <->
  exists fields entries entry unitCap maxQuantity q,
    raw = VObj fields /\ obj_get "collections" fields = VArr entries /\ In (VObj entry) entries /\
    grants entry (Domain.collectionId j) (canonical (collectionAddress j)) (canonical (collectionSlug j))
      unitCap maxQuantity /\
    asksQuantity j q /\ q <= maxQuantity /\
    0 < total <= unitCap * q.
Proof.
  intros (fields & entries & cs & -> & Ee & Hread & Hindex)%parseMandate_reads. rewrite assertOfferAuthorized_ok. split.
  - intros (c & q & [Hc <-]%Hindex & -> & -> & Hrest). apply list_elem_of_In in Hc.
    apply list_elem_of_lookup in Hc as [i Hi]. destruct (Forall2_lookup_r _ _ _ _ _ Hread Hi) as (v & Hv & entry & -> & Hg).
    exists fields, entries, entry, (ca_maxUnitBidWei c), (ca_maxQuantity c), q.
    split_and!; [done|done| |done|apply Hrest..]. apply list_elem_of_In. by eapply list_elem_of_lookup_2.
  - intros (fields' & entries' & entry & cap & maxQ & q & [= <-] & Ee' & Hin & Hg & Hrest).
    rewrite Ee in Ee'. injection Ee' as <-. apply list_elem_of_In, list_elem_of_lookup in Hin as [i Hi].
    destruct (Forall2_lookup_l _ _ _ _ _ Hread Hi) as (c & Hc & entry' & [= <-] & Hg').
    destruct (grants_functional _ _ _ _ _ _ _ _ _ _ _ Hg Hg') as (Hid & Hcon & Hslug & -> & ->).
    exists c, q. split_and!; [|done|done|apply Hrest..]. apply Hindex. split; [|done].
    apply list_elem_of_In. by eapply list_elem_of_lookup_2.
Qed.

Definition exampleOffer : BidderJob := {|
  job_id := "job"; revision := 1; Domain.collectionId := 7;
  collectionAddress := "0x4e1f41613c9084fdb9e34e11fae9412427480E56"; collectionSlug := "terraforms ";
  target := CollectionTarget (NInt 2) None;
  config := {| ceiling := 100; floor := 1; delta := 1; extraCompetitionTraits := None |};
  state := emptyState |}.

(** Two units at the unit price are within the document, and a wei more is not. *)
Lemma offer_authorized_iff_witness :
  assertOfferAuthorized exampleMandate exampleOffer 4000000000000000000 = Ok tt
  /\ assertOfferAuthorized exampleMandate exampleOffer 4000000000000000001 <> Ok tt.
Proof.
  split; [apply (offer_authorized_iff exampleRaw 1 exampleMandate exampleOffer _ ltac:(vm_compute; reflexivity))
         |intros H; apply (offer_authorized_iff exampleRaw 1 exampleMandate exampleOffer _ ltac:(vm_compute; reflexivity)) in H].
  - do 3 eexists. exists 2000000000000000000, 3, 2. split; [reflexivity|]. split; [reflexivity|]. split; [by left|].
    split.
    { constructor; [reflexivity|eexists; split; [reflexivity|vm_compute; reflexivity]..|reflexivity]. }
    split; [by split|]. split; [lia|]. lia.
  - destruct H as (fields & entries & entry & cap & maxQ & q & [= <-] & [= <-] & [[= <-]|[]] & Hg & [[= <-] _] & _ & Ht).
    destruct (gr_unitCap _ _ _ _ _ _ Hg) as (digits & [= <-] & [= <-]). lia.
Defined.

(** The start policy a process publishes is the policy it enforces:
    parsing the snapshot of a well-formed policy gives the policy back. *)
Theorem start_policy_roundtrip (p : BiddingStartPolicy) :
  policy_wf p -> parseStartPolicy (snapshotStartPolicy p) = Ok p.
Proof.
  intros [Hcap Hfees Hmax Htot]. destruct p as [cap trust mn mx tot []]; simpl in *.
  unfold parseStartPolicy, snapshotStartPolicy. cbn [isRecord].
  repeat match goal with |- context [obj_get ?k ?l] =>
    let v := eval lazy -[Z_toString] in (obj_get k l) in
    change (obj_get k l) with v; cbn [isRecord]
  end.
  rewrite !requireCanonicalUint_print by (done || lia). simpl.
  rewrite (proj2 (Z.ltb_ge mx mn)) by lia. reflexivity.
Qed.

Lemma start_policy_roundtrip_witness :
  policy_wf (startPolicy exampleMandate) /\
  parseStartPolicy (snapshotStartPolicy (startPolicy exampleMandate)) =
    Ok (startPolicy exampleMandate).
Proof.
  assert (policy_wf (startPolicy exampleMandate)) as H
    by (constructor; vm_compute; intuition congruence).
  split; [exact H|]. exact (start_policy_roundtrip _ H).
Defined.

End Mandate.
