(* ===== verification/TraitCriteria.v ===== *)
(** * Trait criteria of offers

    [shared/trading/offer-trait-criteria.ts] and [trading/src/domain/market/
    strategy/trait-competition.ts]: which token traits an offer's criteria accept,
    the order-independent identity of a set of criteria, validation of persisted
    criteria, the browse filters over trait scopes, and which trait offers compete
    with a job.

    A JavaScript number is a binary64 [spec_float]; [Number(text)] on decimal text
    is the correctly rounded value.  [JSON.stringify] of a criterion is injective
    up to the items of [keyItem], so a key is the sorted list of items; the
    collation [localeCompare] on the texts of two items is a parameter. *)

From Stdlib Require Import SpecFloat Sorted Permutation.
From stdpp Require Import list sorting.
From S2P Require Import Prelude JsValue Domain.

Open Scope Z_scope.

Module TraitCriteria.

(** ** Numbers *)

(** Rounding to binary64. *)
Definition doubleOfRatio (neg : bool) (num : Z) (den : positive) : spec_float :=
  match num with
  | Zpos n => SFdiv 53 1024 (S754_finite neg n 0) (S754_finite false den 0)
  | _ => S754_zero neg
  end.

(** The number a parsed JSON number stands for. *)
Definition doubleOf (n : jsnum) : spec_float :=
  match n with
  | NInt z => doubleOfRatio (z <? 0) (Z.abs z) 1
  | NFrac num den => doubleOfRatio (num <? 0) (Z.abs num) den
  | NNaN => S754_nan
  | NInf neg => S754_infinity neg
  end.

Definition sf_isFinite (x : spec_float) : bool :=
  match x with S754_zero _ | S754_finite _ _ _ => true | _ => false end.

(** [Math.floor] and [Math.ceil] of a finite number, as a BigInt. *)
Definition sf_floor (x : spec_float) : Z :=
  match x with
  | S754_finite s m e =>
      let v := if s then Zneg m else Zpos m in
      if 0 <=? e then v * 2 ^ e else v / 2 ^ (- e)
  | _ => 0
  end.

Definition sf_ceil (x : spec_float) : Z := - sf_floor (SFopp x).

(** ** Decimal text *)

Fixpoint spanDigits (s : string) : string * string :=
  match s with
  | String c s' =>
      if isDigit c then let '(d, r) := spanDigits s' in (String c d, r) else (EmptyString, s)
  | EmptyString => (EmptyString, EmptyString)
  end.

(** The optional exponent and the end of the text. *)
Definition parseExponent (s : string) : option Z :=
  match s with
  | EmptyString => Some 0
  | String c s' =>
      if Ascii.eqb c "e" || Ascii.eqb c "E" then
        let '(neg, s'') := match s' with
                           | String "+" t => (false, t)
                           | String "-" t => (true, t)
                           | _ => (false, s')
                           end in
        match spanDigits s'' with
        | (String _ _ as d, EmptyString) =>
            z ← parseDigits d; Some (if neg then - z else z)
        | _ => None
        end
      else None
  end.

(** The anchored decimal pattern: sign, significant digits and power of ten. *)
Definition parseDecimal (s : string) : option (bool * Z * Z) :=
  let '(neg, s1) := match s with String "-" t => (true, t) | _ => (false, s) end in
  let '(whole, s2) := spanDigits s1 in
  let '(frac, s3) := match s2 with
                     | String "." t => spanDigits t
                     | _ => (EmptyString, s2)
                     end in
  if truthy whole || truthy frac then
    d ← parseDigits (append whole frac);
    e ← parseExponent s3;
    Some (neg, d, e - Z.of_nat (String.length frac))
  else None.

(** [Number(value)] on such text. *)
Definition numberOfDecimal (neg : bool) (d e : Z) : spec_float :=
  if 0 <=? e then doubleOfRatio neg (d * 10 ^ e) 1
  else doubleOfRatio neg d (Z.to_pos (10 ^ (- e))).

Definition numericTraitValue (value : string) : option spec_float :=
  '(neg, d, e) ← parseDecimal value;
  let number := numberOfDecimal neg d e in
  if sf_isFinite number then Some number else None.

(** ** Matching token traits *)

Definition biddingTraitValueMatches (criterion : TraitCriterion) (value : string) : bool :=
  match criterion with
  | ExactTrait _ v => String.eqb v value
  | RangeTrait _ min max =>
      match numericTraitValue value with
      | Some number => SFleb min number && SFleb number max
      | None => false
      end
  end.

Definition biddingTraitsMatchToken (criteria : list TraitCriterion) (tokenTraits : list TraitTarget)
    : bool :=
  forallb (fun criterion =>
    existsb (fun trait => String.eqb (tt_type trait) (tc_type criterion) &&
                          biddingTraitValueMatches criterion (tt_value trait)) tokenTraits) criteria.

(** ** Identity of a set of criteria *)

(** What [JSON.stringify] prints of one criterion: negative zero prints as zero,
    a number that is not finite as null. *)
Inductive keyItem : Type :=
  | KExact (type value : string)
  | KRange (type : string) (min max : option spec_float).

#[global] Instance keyItem_eq_dec : EqDecision keyItem.
Proof. solve_decision. Defined.

Definition jsonNumber (x : spec_float) : option spec_float :=
  match x with
  | S754_zero _ => Some (S754_zero false)
  | S754_finite _ _ _ => Some x
  | _ => None
  end.

Definition criterionItem (c : TraitCriterion) : keyItem :=
  match c with
  | ExactTrait type value => KExact type value
  | RangeTrait type min max => KRange type (jsonNumber min) (jsonNumber max)
  end.

Section Keys.
Context (localeCompare : keyItem -> keyItem -> Z).

(** [Array.prototype.sort] with the collation: stable. *)
Fixpoint insertItem (x : keyItem) (l : list keyItem) : list keyItem :=
  match l with
  | [] => [x]
  | y :: l' => if localeCompare x y <=? 0 then x :: l else y :: insertItem x l'
  end.

Definition sortItems (l : list keyItem) : list keyItem := foldr insertItem [] l.

Definition biddingTraitCriteriaKey (criteria : list TraitCriterion) : list keyItem :=
  sortItems (map criterionItem criteria).

(** The filter of [dedupeBiddingTraitCriteria] with its set of seen keys. *)
Fixpoint dedupeFrom (seen : list (list keyItem)) (criteria : list TraitCriterion)
    : list TraitCriterion :=
  match criteria with
  | [] => []
  | c :: rest =>
      let key := biddingTraitCriteriaKey [c] in
      if decide (key ∈ seen) then dedupeFrom seen rest else c :: dedupeFrom (key :: seen) rest
  end.

Definition dedupeBiddingTraitCriteria (criteria : list TraitCriterion) : list TraitCriterion :=
  dedupeFrom [] criteria.

(** [Bidder.matchesExactTraitTargets] *)
Definition matchesExactTraitTargets (left right : list TraitCriterion) : bool :=
  let normalizedLeft := dedupeBiddingTraitCriteria left in
  let normalizedRight := dedupeBiddingTraitCriteria right in
  if negb (length normalizedLeft =? length normalizedRight)%nat then false
  else bool_decide (biddingTraitCriteriaKey normalizedLeft = biddingTraitCriteriaKey normalizedRight).

(** [matchesTraitCompetition] *)
Definition matchesTraitCompetition (criteria : list TraitCriterion) (target : list TraitTarget)
    (extras : list TraitSelector) : bool :=
  match target, criteria with
  | [], _ | _, [] => false
  | _ :: _, first :: _ =>
      if biddingTraitsMatchToken criteria target then true
      else
        forallb (fun trait => bool_decide (biddingTraitCriteriaKey [trait] =
                                           biddingTraitCriteriaKey [first])) criteria &&
        existsb (fun selector =>
          String.eqb (ts_type selector) (tc_type first) &&
          match ts_value selector with
          | None => true
          | Some value => biddingTraitValueMatches first value
          end) extras
  end.

End Keys.

(** ** Validation *)

Definition TRADING_TRAIT_TEXT_MAX_LENGTH : nat := 96.

Definition normalizeTradingTraitText (value : string) : string :=
  let trimmed := trim value in
  if (String.length trimmed <=? TRADING_TRAIT_TEXT_MAX_LENGTH)%nat then trimmed
  else append (String.substring 0 (TRADING_TRAIT_TEXT_MAX_LENGTH - 3) trimmed) "...".

Definition isUndef (v : jsval) : bool := match v with VUndef => true | _ => false end.

Definition parseCriterion (entry : jsval) : result TraitCriterion :=
  match entry with
  | VObj fields =>
      match obj_get "type" fields with
      | VStr type =>
          if truthy (trim type) then
            let type := normalizeTradingTraitText type in
            let value := obj_get "value" fields in
            let min := obj_get "min" fields in
            let max := obj_get "max" fields in
            match value, min, max with
            | VStr v, VUndef, VUndef => Ok (ExactTrait type (normalizeTradingTraitText v))
            | VUndef, VNum min, VNum max =>
                if isFiniteNum min && isFiniteNum max && SFleb (doubleOf min) (doubleOf max)
                then Ok (RangeTrait type (doubleOf min) (doubleOf max))
                else Err "Invalid bidding trait criterion"
            | _, _, _ => Err "Invalid bidding trait criterion"
            end
          else Err "Invalid bidding trait criterion"
      | _ => Err "Invalid bidding trait criterion"
      end
  | _ => Err "Invalid bidding trait criterion"
  end.

Definition parseBiddingTraitCriteria (value : jsval) : result (list TraitCriterion) :=
  match value with
  | VArr entries => result_map parseCriterion entries
  | _ => Err "Invalid bidding trait criteria"
  end.

(** ** Browse filters over trait scopes *)

Record TraitFilter := { tf_key : string; tf_value : string }.

(** [fromValue] and [toValue] are unsigned integer texts; the model has their
    BigInts. *)
Record TraitRangeFilter := { rf_key : string; rf_from : option Z; rf_to : option Z }.

Inductive JoinMode : Type := JoinAnd | JoinOr.

Definition above (bound : option Z) (v : Z) : bool :=
  match bound with None => true | Some b => b <=? v end.

Definition below (bound : option Z) (v : Z) : bool :=
  match bound with None => true | Some b => v <=? b end.

Definition traitValueWithinRange (value : string) (range : TraitRangeFilter) : bool :=
  if negb (truthy value && allDigits value) then false
  else match parseDigits value with
       | None => false
       | Some numeric => above (rf_from range) numeric && below (rf_to range) numeric
       end.

Definition traitCriterionIntersectsRange (criterion : TraitCriterion) (range : TraitRangeFilter)
    : bool :=
  match criterion with
  | RangeTrait _ min max =>
      let first := sf_ceil min in
      let last := sf_floor max in
      (first <=? last) && above (rf_from range) last && below (rf_to range) first && (0 <=? last)
  | ExactTrait _ value => traitValueWithinRange value range
  end.

Definition traitScopeCoveredByFilters (criteria : list TraitCriterion)
    (selectedTraits : list TraitFilter) (selectedTraitRanges : list TraitRangeFilter) : bool :=
  forallb (fun criterion =>
    let sameTypeSelectedTraits :=
      List.filter (fun t => String.eqb (tf_key t) (tc_type criterion)) selectedTraits in
    let exactMatch := existsb (fun t => biddingTraitValueMatches criterion (tf_value t))
                        sameTypeSelectedTraits in
    if (0 <? length sameTypeSelectedTraits)%nat && negb exactMatch then false
    else
      let range := List.find (fun r => String.eqb (rf_key r) (tc_type criterion)) selectedTraitRanges in
      let rangeMatch := match range with
                        | Some r => traitCriterionIntersectsRange criterion r
                        | None => false
                        end in
      if match range with Some _ => negb rangeMatch | None => false end then false
      else exactMatch || rangeMatch) criteria.

Definition filtersCoveredByTraitScope (criteria : list TraitCriterion)
    (selectedTraits : list TraitFilter) (selectedTraitRanges : list TraitRangeFilter) : bool :=
  forallb (fun t => existsb (fun c => String.eqb (tc_type c) (tf_key t) &&
                                      biddingTraitValueMatches c (tf_value t)) criteria) selectedTraits &&
  forallb (fun r => existsb (fun c => String.eqb (tc_type c) (rf_key r) &&
                                      traitCriterionIntersectsRange c r) criteria) selectedTraitRanges.

Definition traitScopeMatchesAllFilters (criteria : list TraitCriterion)
    (selectedTraits : list TraitFilter) (selectedTraitRanges : list TraitRangeFilter) : bool :=
  match criteria with
  | [] => false
  | _ => traitScopeCoveredByFilters criteria selectedTraits selectedTraitRanges &&
         filtersCoveredByTraitScope criteria selectedTraits selectedTraitRanges
  end.

Definition traitScopeMatchesAnyFilter (criteria : list TraitCriterion)
    (selectedTraits : list TraitFilter) (selectedTraitRanges : list TraitRangeFilter) : bool :=
  existsb (fun c =>
    existsb (fun t => String.eqb (tf_key t) (tc_type c) && biddingTraitValueMatches c (tf_value t))
      selectedTraits ||
    existsb (fun r => String.eqb (rf_key r) (tc_type c) && traitCriterionIntersectsRange c r)
      selectedTraitRanges) criteria.

Definition biddingTraitScopeMatchesFilters (criteria : list TraitCriterion)
    (selectedTraits : list TraitFilter) (selectedTraitRanges : list TraitRangeFilter)
    (joinMode : JoinMode) : bool :=
  match selectedTraits, selectedTraitRanges with
  | [], [] => true
  | _, _ =>
      match joinMode with
      | JoinOr => traitScopeMatchesAnyFilter criteria selectedTraits selectedTraitRanges
      | JoinAnd => traitScopeMatchesAllFilters criteria selectedTraits selectedTraitRanges
      end
  end.

(** ** Facts *)

Section KeyFacts.
Context (localeCompare : keyItem -> keyItem -> Z).

Lemma insertItem_perm x l : insertItem localeCompare x l ≡ₚ x :: l.
Proof.
  induction l as [|y l IH]; simpl; [done|]. case_match; [done|]. rewrite IH. apply Permutation_swap.
Qed.

Lemma sortItems_perm l : sortItems localeCompare l ≡ₚ l.
Proof. induction l as [|x l IH]; simpl; [done|]. by rewrite insertItem_perm, IH. Qed.

Lemma singleton_key c : biddingTraitCriteriaKey localeCompare [c] = [criterionItem c].
Proof. done. Qed.

(** What deduplication keeps: every item once, in order of first occurrence. *)
Lemma dedupeFrom_items seen l :
  NoDup (map criterionItem (dedupeFrom localeCompare seen l)) /\
  forall i, i ∈ map criterionItem (dedupeFrom localeCompare seen l) <->
            i ∈ map criterionItem l /\ [i] ∉ seen.
Proof.
  revert seen. induction l as [|c l IH]; intros seen.
  { simpl. split; [by apply NoDup_nil|]. set_solver. }
  cbn [dedupeFrom]. rewrite singleton_key. case_decide as Hs.
  - destruct (IH seen) as [H1 H2]. split; [done|]. intros i. rewrite H2. simpl.
    rewrite elem_of_cons. split; [tauto|]. intros [[->|?] ?]; [done|tauto].
  - destruct (IH ([criterionItem c] :: seen)) as [H1 H2]. simpl. split.
    + apply NoDup_cons. split; [|done]. rewrite H2. set_solver.
    + intros i. rewrite !elem_of_cons, H2, not_elem_of_cons.
      destruct (decide (i = criterionItem c)) as [->|Hne]; [tauto|].
      split; [tauto|]. intros [[?|?] ?]; [done|]. right. split_and!; try done. congruence.
Qed.

Lemma dedupe_items l :
  NoDup (map criterionItem (dedupeBiddingTraitCriteria localeCompare l)) /\
  forall i, i ∈ map criterionItem (dedupeBiddingTraitCriteria localeCompare l) <-> i ∈ map criterionItem l.
Proof.
  destruct (dedupeFrom_items [] l) as [H1 H2]. split; [done|]. intros i. rewrite H2. set_solver.
Qed.

(** A collation that tells all items apart and orders them totally. *)
Record total_collation : Prop := {
  tc_zero : forall a b, localeCompare a b = 0 -> a = b;
  tc_sym : forall a b, localeCompare a b <= 0 \/ localeCompare b a <= 0;
  tc_anti : forall a b, localeCompare a b <= 0 -> localeCompare b a <= 0 -> a = b;
  tc_trans : forall a b c, localeCompare a b <= 0 -> localeCompare b c <= 0 -> localeCompare a c <= 0;
}.

Lemma insertItem_sorted x l :
  total_collation -> Sorted (fun a b => localeCompare a b <= 0) l ->
  Sorted (fun a b => localeCompare a b <= 0) (insertItem localeCompare x l).
Proof.
  intros Ht. induction 1 as [|y l Hl IH Hy]; simpl; [by repeat constructor|].
  destruct (Z.leb_spec (localeCompare x y) 0) as [Hle|Hgt]; [by repeat constructor|].
  assert (localeCompare y x <= 0) as Hyx by (destruct (tc_sym Ht x y); [lia|done]).
  constructor; [done|]. destruct l as [|z l]; simpl; [by constructor|].
  case_match; constructor; [done|]. by inversion Hy.
Qed.

Lemma sortItems_sorted l :
  total_collation -> Sorted (fun a b => localeCompare a b <= 0) (sortItems localeCompare l).
Proof. intros Ht. induction l as [|x l IH]; simpl; [constructor|]. by apply insertItem_sorted. Qed.

Lemma sortItems_unique l1 l2 : total_collation -> l1 ≡ₚ l2 -> sortItems localeCompare l1 = sortItems localeCompare l2.
Proof.
  intros Ht Hp. set (R := fun a b => localeCompare a b <= 0).
  assert (Transitive R) by (intros a b c; by apply (tc_trans Ht)).
  assert (AntiSymm (=) R) by (intros a b; by apply (tc_anti Ht)).
  apply (Sorted_unique R); try by apply sortItems_sorted. by rewrite !sortItems_perm.
Qed.

(** An order counts as managed for a trait target only when it has exactly the
    target's criteria: whatever the collation does, when the comparison of two
    criteria lists succeeds they contain the same criteria (negative zero
    identified with zero, as JSON prints it), in any order and multiplicity. *)
Theorem exact_match_same_criteria left right
    (Hmatch : matchesExactTraitTargets localeCompare left right = true) :
  forall i, i ∈ map criterionItem left <-> i ∈ map criterionItem right.
Proof.
  intros i. unfold matchesExactTraitTargets in Hmatch.
  destruct (negb _); [done|]. apply bool_decide_eq_true in Hmatch.
  rewrite <- (proj2 (dedupe_items left)), <- (proj2 (dedupe_items right)).
  assert (map criterionItem (dedupeBiddingTraitCriteria localeCompare left) ≡ₚ map criterionItem (dedupeBiddingTraitCriteria localeCompare right)) as Hp.
  { rewrite <- (sortItems_perm (map criterionItem (dedupeBiddingTraitCriteria localeCompare left))).
    rewrite <- (sortItems_perm (map criterionItem (dedupeBiddingTraitCriteria localeCompare right))). unfold biddingTraitCriteriaKey in Hmatch. by rewrite Hmatch. }
  by rewrite Hp.
Qed.

(** Conversely, under a collation that orders distinct criteria, two lists with
    the same criteria always match: the maker's own order is recognised whatever
    order the marketplace lists the traits in and however often it repeats them. *)
Theorem same_criteria_match left right (Hcollation : total_collation)
    (Hsame : forall i, i ∈ map criterionItem left <-> i ∈ map criterionItem right) :
  matchesExactTraitTargets localeCompare left right = true.
Proof.
  destruct (dedupe_items left) as [L1 L2], (dedupe_items right) as [R1 R2].
  assert (map criterionItem (dedupeBiddingTraitCriteria localeCompare left) ≡ₚ map criterionItem (dedupeBiddingTraitCriteria localeCompare right)) as Hp.
  { apply NoDup_Permutation; [done|done|]. intros i. by rewrite L2, R2. }
  unfold matchesExactTraitTargets.
  pose proof (Permutation_length Hp) as Hl. rewrite !length_map in Hl.
  rewrite Hl, Nat.eqb_refl. simpl. apply bool_decide_eq_true.
  by apply sortItems_unique.
Qed.

End KeyFacts.

(** An integer between two binary64 numbers. *)
Definition dyadic_le_Z (x : spec_float) (k : Z) : Prop :=
  match x with
  | S754_finite s m e =>
      let v := if s then Zneg m else Zpos m in
      if 0 <=? e then v * 2 ^ e <= k else v <= k * 2 ^ (- e)
  | S754_zero _ => 0 <= k
  | S754_infinity s => s = true
  | S754_nan => False
  end.

Definition Z_le_dyadic (k : Z) (x : spec_float) : Prop :=
  match x with
  | S754_finite s m e =>
      let v := if s then Zneg m else Zpos m in
      if 0 <=? e then k <= v * 2 ^ e else k * 2 ^ (- e) <= v
  | S754_zero _ => k <= 0
  | S754_infinity s => s = false
  | S754_nan => False
  end.

Lemma sf_floor_spec x k : sf_isFinite x = true -> k <= sf_floor x <-> Z_le_dyadic k x.
Proof.
  destruct x as [s|s| |s m e]; try done. intros _. simpl.
  destruct (Z.leb_spec 0 e) as [He|He]; [done|].
  assert (0 < 2 ^ (- e)) by (apply Z.pow_pos_nonneg; lia).
  split; intros Hk.
  - etrans; [apply Z.mul_le_mono_nonneg_r; [lia|exact Hk]|]. rewrite Z.mul_comm.
    by apply Z.mul_div_le.
  - apply Z.div_le_lower_bound; [done|]. lia.
Qed.

Lemma sf_ceil_spec x k : sf_isFinite x = true -> sf_ceil x <= k <-> dyadic_le_Z x k.
Proof.
  intros Hx. unfold sf_ceil. pose proof (sf_floor_spec (SFopp x) (- k)) as H.
  assert (sf_isFinite (SFopp x) = true) as Hx' by by destruct x.
  specialize (H Hx'). assert (- sf_floor (SFopp x) <= k <-> - k <= sf_floor (SFopp x)) as -> by lia.
  rewrite H. destruct x as [s|s| |s m e]; try done; simpl; [lia|].
  destruct s; simpl; case_match; lia.
Qed.

(** A numeric-range offer passes a browse range filter exactly when some
    unsigned integer lies in both intervals. *)
Theorem range_intersection_exact type min max from to key
    (Hmin : sf_isFinite min = true) (Hmax : sf_isFinite max = true)
    (Hfrom : forall f, from = Some f -> 0 <= f) (Hto : forall t, to = Some t -> 0 <= t)
    (Hrange : forall f t, from = Some f -> to = Some t -> f <= t) :
  traitCriterionIntersectsRange (RangeTrait type min max)
    {| rf_key := key; rf_from := from; rf_to := to |} = true <->
  exists k, 0 <= k /\ dyadic_le_Z min k /\ Z_le_dyadic k max /\
            above from k = true /\ below to k = true.
Proof.
  setoid_rewrite <- sf_ceil_spec; [|done]. setoid_rewrite <- sf_floor_spec; [|done].
  simpl. set (a := sf_ceil min). set (b := sf_floor max). clearbody a b.
  rewrite !andb_true_iff, !Z.leb_le. unfold above, below. split.
  - intros [[[H1 H2] H3] H4]. exists (Z.max 0 (Z.max a (default 0 from))).
    destruct from as [f|], to as [t|]; simpl in *; rewrite ?Z.leb_le in *;
      repeat match goal with
      | H : forall _ _, Some ?x = Some _ -> Some ?y = Some _ -> _ |- _ => specialize (H _ _ eq_refl eq_refl)
      | H : forall _, Some ?x = Some _ -> _ |- _ => specialize (H _ eq_refl)
      end; split_and!; try done; lia.
  - intros (k & H1 & H2 & H3 & H4 & H5).
    destruct from as [f|], to as [t|]; simpl in *; rewrite ?Z.leb_le in *; split_and!; try done; lia.
Qed.

Lemma result_map_forall {A B} (f : A -> result B) (P : B -> Prop) l l' :
  (forall a b, f a = Ok b -> P b) -> result_map f l = Ok l' -> Forall P l' /\ length l' = length l.
Proof.
  intros Hf. revert l'. induction l as [|a l IH]; simpl; intros l' H; [injection H as <-; split; [constructor|done]|].
  inv_try. injection H as <-. destruct (IH _ Ha0) as [H1 H2]. split; [|simpl; lia].
  constructor; [by eapply Hf|done].
Qed.


Lemma truthy_normalize s : truthy (trim s) = true -> truthy (normalizeTradingTraitText s) = true.
Proof.
  unfold normalizeTradingTraitText. intros Ht. case_match eqn:E; [done|].
  apply Nat.leb_gt in E. destruct (trim s); [done|]. done.
Qed.

(** Validating a persisted trait scope never broadens it: when it succeeds
    there is one criterion per entry, in order, each with a nonblank type, and
    every numeric range has its bounds in order. *)
Theorem parsed_scope_complete entries criteria
    (Hparse : parseBiddingTraitCriteria (VArr entries) = Ok criteria) :
  length criteria = length entries /\
  Forall (fun c => truthy (tc_type c) = true /\
                   match c with
                   | ExactTrait _ _ => True
                   | RangeTrait _ min max => SFleb min max = true
                   end) criteria.
Proof.
  simpl in Hparse. eapply result_map_forall in Hparse as [H1 H2]; [by split|].
  clear. intros entry c. unfold parseCriterion. destruct entry; try done.
  destruct (obj_get "type" fields) as [| | | |type| | | |]; try done.
  destruct (truthy (trim type)) eqn:Et; [|done].
  apply truthy_normalize in Et.
  destruct (obj_get "value" fields), (obj_get "min" fields), (obj_get "max" fields); try done.
  - case_match eqn:E; [|done]. zbool. by intros [= <-].
  - by intros [= <-].
Qed.

Lemma parsed_scope_complete_witness :
  let entries := [VObj [("type", VStr " Eyes "); ("value", VStr "Blue")];
                  VObj [("type", VStr "Size"); ("min", VNum (NInt 1)); ("max", VNum (NFrac 5 2))]]%string in
  let criteria := [ExactTrait "Eyes" "Blue"; RangeTrait "Size" (doubleOf (NInt 1)) (doubleOf (NFrac 5 2))] in
  parseBiddingTraitCriteria (VArr entries) = Ok criteria /\ length criteria = length entries.
Proof.
  set (entries := [_; _]). set (criteria := [ExactTrait _ _; _]).
  assert (parseBiddingTraitCriteria (VArr entries) = Ok criteria) as H by (vm_compute; reflexivity).
  split; [exact H|]. exact (proj1 (parsed_scope_complete entries criteria H)).
Defined.

(** Which trait offers compete with a job: exactly those all of whose criteria
    some trait of the job's target satisfies, and those that constrain a single
    trait which one of the job's extra selectors names. An offer without criteria,
    or a job without target traits, never competes by traits. *)
Theorem trait_competition_iff localeCompare criteria target extras :
  matchesTraitCompetition localeCompare criteria target extras = true <->
  target <> [] /\ exists first rest, criteria = first :: rest /\
  ((forall c, In c criteria -> exists t, In t target /\ tt_type t = tc_type c /\
      biddingTraitValueMatches c (tt_value t) = true) \/
   ((forall c, In c criteria -> criterionItem c = criterionItem first) /\
    exists s, In s extras /\ ts_type s = tc_type first /\
      forall v, ts_value s = Some v -> biddingTraitValueMatches first v = true)).
Proof.
  unfold matchesTraitCompetition.
  assert (biddingTraitsMatchToken criteria target = true <->
    forall c, In c criteria -> exists t, In t target /\ tt_type t = tc_type c /\
      biddingTraitValueMatches c (tt_value t) = true) as Hexact.
  { unfold biddingTraitsMatchToken. rewrite forallb_forall. split; intros H c Hc; specialize (H c Hc).
    - apply existsb_exists in H as (t & Ht & [E1%String.eqb_eq E2]%andb_true_iff). eauto.
    - apply existsb_exists. destruct H as (t & Ht & <- & E2). exists t.
      by rewrite String.eqb_refl, E2. }
  destruct target as [|t0 target]; [split; [done|by intros []]|].
  destruct criteria as [|first rest]; [split; [done|by intros (_ & ? & ? & ? & _)]|].
  transitivity (biddingTraitsMatchToken (first :: rest) (t0 :: target) = true \/
    ((forall c, In c (first :: rest) -> criterionItem c = criterionItem first) /\
     exists s, In s extras /\ ts_type s = tc_type first /\
       forall v, ts_value s = Some v -> biddingTraitValueMatches first v = true)).
  - destruct (biddingTraitsMatchToken _ _); [tauto|]. rewrite andb_true_iff, forallb_forall, existsb_exists.
    split; [intros [H1 (s & Hs & [E1%String.eqb_eq E2]%andb_true_iff)]; right; split
           |intros [?|[H1 (s & Hs & <- & E2)]]; [done|]; split].
    + intros c Hc. specialize (H1 c Hc). apply bool_decide_eq_true in H1. rewrite !singleton_key in H1. congruence.
    + exists s. split_and!; try done. intros v Hv. by rewrite Hv in E2.
    + intros c Hc. apply bool_decide_eq_true. by rewrite !singleton_key, (H1 c Hc).
    + exists s. split; [done|]. rewrite String.eqb_refl. simpl. destruct (ts_value s); [by apply E2|done].
  - split; [intros H; split; [done|]; exists first, rest; split; [done|]; by rewrite <- Hexact|].
    intros (_ & f & r & [= <- <-] & H). by rewrite Hexact.
Qed.

Definition exampleCriteria : list TraitCriterion :=
  [ExactTrait "Eyes" "Blue"; RangeTrait "Size" (doubleOf (NInt 1)) (doubleOf (NInt 5))].

Lemma exact_match_same_criteria_witness :
  matchesExactTraitTargets (fun _ _ => 0) exampleCriteria exampleCriteria = true /\
  forall i, i ∈ map criterionItem exampleCriteria <-> i ∈ map criterionItem exampleCriteria.
Proof.
  assert (matchesExactTraitTargets (fun _ _ => 0) exampleCriteria exampleCriteria = true) as H
    by (vm_compute; reflexivity).
  split; [exact H|]. exact (exact_match_same_criteria (fun _ _ => 0) _ _ H).
Defined.

(** A collation for the examples: items are compared by an injective code. *)
Definition itemRank (encode : keyItem -> Z) (a b : keyItem) : Z := encode a - encode b.

Lemma itemRank_total encode : (forall a b, encode a = encode b -> a = b) ->
  total_collation (itemRank encode).
Proof.
  intros Hinj. unfold itemRank.
  split; intros; [apply Hinj; lia|lia|apply Hinj; lia|lia].
Qed.

(** Such a code exists: criteria items are countable. *)
#[global] Program Instance spec_float_countable : Countable spec_float :=
  inj_countable'
    (fun x => match x with
              | S754_zero s => inl (inl s)
              | S754_infinity s => inl (inr s)
              | S754_nan => inr None
              | S754_finite s m e => inr (Some (s, m, e))
              end)
    (fun y => match y with
              | inl (inl s) => S754_zero s
              | inl (inr s) => S754_infinity s
              | inr None => S754_nan
              | inr (Some (s, m, e)) => S754_finite s m e
              end) _.
Next Obligation. by intros []. Qed.

#[global] Program Instance keyItem_countable : Countable keyItem :=
  inj_countable'
    (fun i => match i with KExact t v => inl (t, v) | KRange t lo hi => inr (t, lo, hi) end)
    (fun y => match y with inl (t, v) => KExact t v | inr (t, lo, hi) => KRange t lo hi end) _.
Next Obligation. by intros []. Qed.

Definition exampleCollation : keyItem -> keyItem -> Z := itemRank (fun i => Zpos (encode i)).

Lemma same_criteria_match_witness :
  let left := exampleCriteria ++ exampleCriteria in
  let right := reverse exampleCriteria in
  total_collation exampleCollation /\
  matchesExactTraitTargets exampleCollation left right = true.
Proof.
  assert (total_collation exampleCollation) as H.
  { apply itemRank_total. intros a b E. apply (inj encode). by injection E. }
  split; [exact H|]. apply (same_criteria_match exampleCollation _ _ H).
  assert (map criterionItem (reverse exampleCriteria) = reverse (map criterionItem exampleCriteria)) as ->
    by reflexivity.
  intros i. rewrite map_app, elem_of_app, elem_of_reverse. tauto.
Defined.

Lemma range_intersection_exact_witness :
  sf_isFinite (doubleOf (NFrac 5 2)) = true /\
  (traitCriterionIntersectsRange (RangeTrait "Size" (doubleOf (NFrac 1 2)) (doubleOf (NFrac 5 2)))
    {| rf_key := "Size"; rf_from := Some 2; rf_to := None |} = true <->
   exists k, 0 <= k /\ dyadic_le_Z (doubleOf (NFrac 1 2)) k /\ Z_le_dyadic k (doubleOf (NFrac 5 2)) /\
             above (Some 2) k = true /\ below None k = true).
Proof.
  split; [vm_compute; reflexivity|].
  apply range_intersection_exact; try (vm_compute; reflexivity); try discriminate.
  intros f [= <-]. lia.
Defined.


End TraitCriteria.
