(* ===== verification/BiddingService.v ===== *)
(** * The interface between the bidding strategy and the marketplace

    [BiddingService] of [trading/src/application/use-cases/bidding/
    bidding-service.ts] and [BiddingJobRuntimeStatePort] of [bidder.ts]: the
    operations the strategy calls.  Each acts on a state of its own type [X]
    (marketplace, database, clock), about which the strategy knows nothing, and
    may throw.  [PriceGrid] states what the two rounding operations promise, as
    their comments do; OpenSea's rounding ([OfferPrice]) keeps the promise. *)

From S2P Require Import Prelude JsValue Domain OfferPrice.

Open Scope Z_scope.

(** [BiddingJobRuntimeStateSnapshot] *)
Record JobSnapshot := {
  js_jobId : string;
  js_jobRevision : Z;
  js_currentPriceWei : option string;
  js_activeOrderId : option string;
  js_activeProtocolAddress : option string;
  js_activeOrderPlacedAt : option string;
  js_activeOrderVerifiedAt : option string;
  js_activeExpirationTimeMs : option Z;
  js_bidPosition : option BidPosition;
  js_bidConstraints : list BidConstraint;
  js_competitorPriceWei : option string;
  js_lastRunAt : option string;
  js_lastError : option string;
}.

(** [BiddingJobOfferCancellationSnapshot] *)
Record CancellationSnapshot := {
  cs_jobId : string;
  cs_jobRevision : Z;
  cs_orderId : string;
  cs_priceWei : option string;
  cs_protocolAddress : option string;
  cs_placedAt : option string;
  cs_expirationTimeMs : option Z;
  cs_makerAddress : string;
  cs_requestedAt : string;
  cs_completedAt : option string;
  cs_cancellationError : option string;
}.

Class BiddingService (X : Type) := {
  roundOfferPriceDown : Z -> result Z;
  roundOfferPriceUp : Z -> result Z;
  getActiveOffers : BidderJob -> RequestContext -> M X (list Order);
  getOrder : string -> option string -> string -> option string -> string -> RequestContext ->
             M X BiddingOrderRecoveryResult;
  placeOffer : BidderJob -> Z -> RequestContext -> M X PlacedOffer;
  cancelOffer : BidderJob -> Order -> RequestContext -> M X unit;
}.

Class RuntimeStatePort (X : Type) := {
  persistJobRuntimeState : JobSnapshot -> M X unit;
  recordJobOfferCancellation : CancellationSnapshot -> M X unit;
  (** [Date.now()] *)
  dateNow : X -> Z;
}.

(** The promise of the rounding operations on amounts that are not negative:
    zero is a price, rounding down gives the greatest price not above the amount
    and rounding up the least not below it. *)
Class PriceGrid (down up : Z -> result Z) (valid : Z -> Prop) := {
  grid_zero : valid 0;
  grid_down : forall a, 0 <= a -> exists p, down a = Ok p /\ valid p /\ p <= a /\
                forall q, valid q -> q <= a -> q <= p;
  grid_up : forall a, 0 <= a -> exists p, up a = Ok p /\ valid p /\ a <= p /\
              forall q, valid q -> a <= q -> p <= q;
}.

(** OpenSea's price tiers keep it. *)
#[export] Instance openSeaGrid : PriceGrid OfferPrice.roundOpenSeaOfferPriceDown
  OfferPrice.roundOpenSeaOfferPriceUp OfferPrice.valid_price.
Proof.
  split.
  - apply OfferPrice.valid_price_cases. exists 0. OfferPrice.grid. lia.
  - intros a Ha. destruct (OfferPrice.round_down_spec a Ha) as (p & E & Hp). by exists p.
  - intros a Ha. destruct (OfferPrice.round_up_spec a Ha) as (p & E & Hp). by exists p.
Qed.
