(* ===== verification/PendingQueue.v ===== *)
(** * The weakest-event index of the hot-refresh queue

    [PendingEventPriorityQueue] of [trading/src/application/use-cases/market/
    pipeline/lib/hot-refresh-backpressure.ts]: a binary min-heap of references to
    pending events, ordered by the unit price of the event each reference points
    at, with a map from the pending event to its position.

    A pending event is a mutable object shared between this index and the lane
    that owns it, so a reference names it by address and [price] reads its
    current unit price through the address.  [update] is called after the price
    behind an address changed. *)

From stdpp Require Import gmap.
From S2P Require Import Prelude.

Open Scope nat_scope.

Module PendingQueue.

Record PendingEventReference := {
  ref_laneKey : string;
  ref_lane : nat;
  ref_signature : string;
  ref_pending : nat;
}.

Record PendingEventPriorityQueue := {
  heap : list PendingEventReference;
  indexByPending : gmap nat nat;
}.

Definition empty_queue : PendingEventPriorityQueue := {| heap := []; indexByPending := ∅ |}.

(** ** Operations *)

Section Operations.
Context (price : nat -> Z).

Definition isWeaker (l r : PendingEventReference) : bool :=
  (price (ref_pending l) <? price (ref_pending r))%Z.

(** [isWeaker(this.heap[i], this.heap[j])] *)
Definition weaker_at (q : PendingEventPriorityQueue) (i j : nat) : bool :=
  match heap q !! i, heap q !! j with
  | Some l, Some r => isWeaker l r
  | _, _ => false
  end.

Definition swap (q : PendingEventPriorityQueue) (leftIndex rightIndex : nat)
    : PendingEventPriorityQueue :=
  if leftIndex =? rightIndex then q
  else match heap q !! leftIndex, heap q !! rightIndex with
       | Some l, Some r =>
           {| heap := <[rightIndex := l]> (<[leftIndex := r]> (heap q));
              indexByPending := <[ref_pending l := rightIndex]>
                                  (<[ref_pending r := leftIndex]> (indexByPending q)) |}
       | _, _ => q
       end.

Definition parentOf (index : nat) : nat := (index - 1) / 2.

(** The loop of [bubbleUp]; the index halves, so [index] rounds are enough. *)
Fixpoint bubbleUp (fuel : nat) (q : PendingEventPriorityQueue) (index : nat)
    : PendingEventPriorityQueue * nat :=
  match fuel with
  | 0 => (q, index)
  | S fuel =>
      if 0 <? index then
        if weaker_at q index (parentOf index)
        then bubbleUp fuel (swap q index (parentOf index)) (parentOf index)
        else (q, index)
      else (q, index)
  end.

(** The child (or the node itself) that [bubbleDown] descends to. *)
Definition weakestIndex (q : PendingEventPriorityQueue) (index : nat) : nat :=
  let leftIndex := index * 2 + 1 in
  let rightIndex := leftIndex + 1 in
  let weakest := if (leftIndex <? length (heap q)) && weaker_at q leftIndex index
                 then leftIndex else index in
  if (rightIndex <? length (heap q)) && weaker_at q rightIndex weakest
  then rightIndex else weakest.

(** The loop of [bubbleDown]; the index grows below the length. *)
Fixpoint bubbleDown (fuel : nat) (q : PendingEventPriorityQueue) (index : nat)
    : PendingEventPriorityQueue :=
  match fuel with
  | 0 => q
  | S fuel =>
      let w := weakestIndex q index in
      if w =? index then q else bubbleDown fuel (swap q index w) w
  end.

(** [bubbleUp] then [bubbleDown] from where it settled. *)
Definition settle (q : PendingEventPriorityQueue) (index : nat) : PendingEventPriorityQueue :=
  let '(q', settledIndex) := bubbleUp index q index in
  bubbleDown (length (heap q')) q' settledIndex.

Definition add (q : PendingEventPriorityQueue) (reference : PendingEventReference)
    : PendingEventPriorityQueue :=
  let index := length (heap q) in
  fst (bubbleUp index
    {| heap := heap q ++ [reference];
       indexByPending := <[ref_pending reference := index]> (indexByPending q) |} index).

Definition update (q : PendingEventPriorityQueue) (pending : nat) : PendingEventPriorityQueue :=
  match indexByPending q !! pending with
  | None => q
  | Some index => settle q index
  end.

Definition remove (q : PendingEventPriorityQueue) (pending : nat) : PendingEventPriorityQueue :=
  match indexByPending q !! pending with
  | None => q
  | Some index =>
      let lastIndex := length (heap q) - 1 in
      let q1 := swap q index lastIndex in
      let q2 := {| heap := take lastIndex (heap q1);
                   indexByPending := delete pending (indexByPending q1) |} in
      if index <? length (heap q2) then settle q2 index else q2
  end.

Definition peek (q : PendingEventPriorityQueue) : option PendingEventReference := heap q !! 0.

End Operations.

Definition clear (q : PendingEventPriorityQueue) : PendingEventPriorityQueue := empty_queue.

(** ** Invariant *)

(** The position map is exactly the inverse of the heap. *)
Definition index_ok (q : PendingEventPriorityQueue) : Prop :=
  forall p i, indexByPending q !! p = Some i <->
    exists r, heap q !! i = Some r /\ ref_pending r = p.

Section Order.
Context (price : nat -> Z).

(** The entry at [i] is not stronger than the one at [j], where both exist. *)
Definition le_at (h : list PendingEventReference) (i j : nat) : Prop :=
  forall a b, h !! i = Some a -> h !! j = Some b ->
    (price (ref_pending a) <= price (ref_pending b))%Z.

Definition heap_ok (h : list PendingEventReference) : Prop :=
  forall i, 0 < i -> le_at h (parentOf i) i.

(** Heap order, except around [k], whose entry is arbitrary. *)
Definition up_inv (h : list PendingEventReference) (k : nat) : Prop :=
  (forall j, 0 < j -> j <> k -> parentOf j <> k -> le_at h (parentOf j) j) /\
  (forall c, 0 < c -> parentOf c = k -> 0 < k -> le_at h (parentOf k) c).

(** Heap order, except between [k] and its children. *)
Definition down_inv (h : list PendingEventReference) (k : nat) : Prop :=
  (forall j, 0 < j -> parentOf j <> k -> le_at h (parentOf j) j) /\
  (forall c, 0 < c -> parentOf c = k -> 0 < k -> le_at h (parentOf k) c).

Definition queue_ok (q : PendingEventPriorityQueue) : Prop :=
  index_ok q /\ heap_ok (heap q).

End Order.

Lemma parent_lt i : 0 < i -> parentOf i < i.
Proof. intros Hi. unfold parentOf. apply Nat.Div0.div_lt_upper_bound; lia. Qed.

Lemma parent_child j k : 0 < j -> parentOf j = k <-> j = k * 2 + 1 \/ j = k * 2 + 1 + 1.
Proof.
  intros Hj. unfold parentOf. pose proof (Nat.div_mod_eq (j - 1) 2).
  pose proof (Nat.mod_upper_bound (j - 1) 2 ltac:(lia)). lia.
Qed.

(** ** Swapping *)

Lemma swap_lookup q i j a b k :
  heap q !! i = Some a -> heap q !! j = Some b ->
  heap (swap q i j) !! k =
    if decide (k = i) then Some b else if decide (k = j) then Some a else heap q !! k.
Proof.
  intros Ha Hb. unfold swap. destruct (Nat.eqb_spec i j) as [->|Hne].
  - rewrite Ha in Hb. simplify_eq. repeat case_decide; subst; done.
  - rewrite Ha, Hb. simpl. apply lookup_lt_Some in Ha as Hi. apply lookup_lt_Some in Hb as Hj.
    repeat case_decide; subst.
    + rewrite list_lookup_insert_ne by done. by rewrite list_lookup_insert_eq.
    + rewrite list_lookup_insert_eq; [done|]. by rewrite length_insert.
    + by rewrite !list_lookup_insert_ne.
Qed.

Lemma swap_length q i j : length (heap (swap q i j)) = length (heap q).
Proof. unfold swap. repeat case_match; simpl; by rewrite ?length_insert. Qed.

Lemma swap_perm q i j : heap (swap q i j) ≡ₚ heap q.
Proof.
  unfold swap. case_match eqn:E; [done|]. apply Nat.eqb_neq in E.
  destruct (heap q !! i) as [a|] eqn:Ea, (heap q !! j) as [b|] eqn:Eb; simpl; try done.
  by apply Permutation_insert_swap.
Qed.

(** Two positions of a well-indexed heap hold distinct pending events. *)
Lemma index_ok_inj q i j a b :
  index_ok q -> heap q !! i = Some a -> heap q !! j = Some b ->
  ref_pending a = ref_pending b -> i = j.
Proof.
  intros Hok Ha Hb E.
  assert (indexByPending q !! ref_pending a = Some i) by (apply Hok; eauto).
  assert (indexByPending q !! ref_pending a = Some j) by (apply Hok; eauto).
  congruence.
Qed.

Lemma swap_index_ok q i j :
  index_ok q -> i < length (heap q) -> j < length (heap q) -> index_ok (swap q i j).
Proof.
  intros Hok [a Ha]%lookup_lt_is_Some [b Hb]%lookup_lt_is_Some p k.
  destruct (decide (i = j)) as [->|Hne].
  { unfold swap. rewrite Nat.eqb_refl. apply Hok. }
  setoid_rewrite (swap_lookup q i j a b k Ha Hb).
  unfold swap. rewrite (proj2 (Nat.eqb_neq i j) Hne), Ha, Hb. simpl.
  assert (ref_pending a <> ref_pending b) as Hab by eauto using index_ok_inj.
  rewrite !lookup_insert.
  assert (forall r k', heap q !! k' = Some r -> ref_pending r = ref_pending a -> k' = i) as Hia
    by eauto using index_ok_inj.
  assert (forall r k', heap q !! k' = Some r -> ref_pending r = ref_pending b -> k' = j) as Hib
    by eauto using index_ok_inj.
  destruct (decide (ref_pending a = p)) as [<-|Hap]; [|destruct (decide (ref_pending b = p)) as [<-|Hbp]];
    destruct (decide (k = i)) as [->|Hki]; [|destruct (decide (k = j)) as [->|Hkj]|
      |destruct (decide (k = j)) as [->|Hkj]| |destruct (decide (k = j)) as [->|Hkj]].
  - split; [congruence|]. by intros (r & [= <-] & E).
  - split; [eauto|done].
  - split; [congruence|]. intros (r & Hr & E). exfalso. eauto.
  - split; [eauto|done].
  - split; [congruence|]. by intros (r & [= <-] & E).
  - split; [congruence|]. intros (r & Hr & E). exfalso. eauto.
  - rewrite (Hok p i). split; (intros (r & Hr & E); exfalso; congruence).
  - rewrite (Hok p j). split; (intros (r & Hr & E); exfalso; congruence).
  - apply Hok.
Qed.

Section Heapify.
Context (price : nat -> Z).

Lemma weaker_at_spec q i j :
  weaker_at price q i j = true <->
  exists a b, heap q !! i = Some a /\ heap q !! j = Some b /\
    (price (ref_pending a) < price (ref_pending b))%Z.
Proof.
  unfold weaker_at, isWeaker. destruct (heap q !! i) as [a|], (heap q !! j) as [b|];
    rewrite ?Z.ltb_lt; naive_solver.
Qed.

Lemma not_weaker_le q i j :
  weaker_at price q i j = false -> le_at price (heap q) j i.
Proof.
  unfold weaker_at, isWeaker. intros H b a Hb Ha. rewrite Hb, Ha in H. zbool. lia.
Qed.

(** One round of [bubbleUp] keeps the exception local to the moved entry. *)
Lemma up_inv_step q k :
  up_inv price (heap q) k -> 0 < k -> weaker_at price q k (parentOf k) = true ->
  up_inv price (heap (swap q k (parentOf k))) (parentOf k).
Proof.
  intros [HA HB] Hk (a & b & Ha & Hb & Hlt)%weaker_at_spec.
  pose proof (parent_lt k Hk) as Hpk.
  split.
  - intros j Hj Hjk Hjp x y Hx Hy.
    rewrite (swap_lookup q _ _ a b) in Hx, Hy by done.
    rewrite (decide_False (P := j = parentOf k)) in Hy by done.
    rewrite (decide_False (P := parentOf j = parentOf k)) in Hx by done.
    rewrite (decide_False (P := j = k)) in Hy by congruence.
    destruct (decide (parentOf j = k)) as [E|E].
    + simplify_eq. by apply (HB j Hj eq_refl Hk).
    + assert (j <> k) by congruence. by apply (HA j).
  - intros c Hc Hcp Hk2 x y Hx Hy. pose proof (parent_lt _ Hk2) as Hpp.
    rewrite (swap_lookup q _ _ a b) in Hx, Hy by done.
    rewrite (decide_False (P := parentOf (parentOf k) = k)) in Hx by lia.
    rewrite (decide_False (P := parentOf (parentOf k) = parentOf k)) in Hx by lia.
    assert (le_at price (heap q) (parentOf (parentOf k)) (parentOf k)) as Hgp
      by (apply HA; lia).
    specialize (Hgp x b Hx Hb).
    destruct (decide (c = k)) as [->|Hne]; [by simplify_eq|].
    rewrite decide_False in Hy by (pose proof (parent_lt c Hc); lia).
    assert (parentOf c <> k) as Hck by lia.
    pose proof (HA c Hc Hne Hck) as Hbc. rewrite Hcp in Hbc.
    specialize (Hbc b y Hb Hy). lia.
Qed.

(** [bubbleUp] terminates within its fuel and leaves the exception downwards. *)
Lemma bubbleUp_spec fuel q k :
  up_inv price (heap q) k -> k <= fuel ->
  let '(q', k') := bubbleUp price fuel q k in
  down_inv price (heap q') k' /\ k' <= k /\ heap q' ≡ₚ heap q.
Proof.
  revert q k. induction fuel as [|fuel IH]; intros q k Hup Hf; simpl.
  - assert (k = 0) as -> by lia. destruct Hup as [HA HB].
    split_and!; [split|done|done]; [intros; apply HA; lia|lia].
  - destruct (Nat.ltb_spec 0 k) as [Hk|Hk].
    + destruct (weaker_at price q k (parentOf k)) eqn:E.
      * pose proof (parent_lt k Hk). specialize (IH _ _ (up_inv_step q k Hup Hk E) ltac:(lia)).
        case_match. destruct IH as (Hd & Hle & Hp). split_and!; [done|lia|].
        by rewrite Hp, swap_perm.
      * split_and!; [|done|done]. destruct Hup as [HA HB]. split; [|done].
        intros j Hj Hjp. destruct (decide (j = k)) as [->|]; [|by apply HA].
        by apply not_weaker_le.
    + assert (k = 0) as -> by lia. destruct Hup as [HA HB].
      split_and!; [split|done|done]; [intros; apply HA; lia|lia].
Qed.

Lemma bubbleUp_index_ok fuel q k :
  index_ok q -> k < length (heap q) -> index_ok (fst (bubbleUp price fuel q k)).
Proof.
  revert q k. induction fuel as [|fuel IH]; intros q k Hok Hk; simpl; [done|].
  destruct (Nat.ltb_spec 0 k) as [H0|]; [|done]. case_match; [|done].
  pose proof (parent_lt k H0). apply IH; rewrite ?swap_length; [|lia].
  apply swap_index_ok; [done|lia..].
Qed.

Lemma weakestIndex_cases q k :
  let w := weakestIndex price q k in
  (w = k \/ (w < length (heap q) /\ 0 < w /\ parentOf w = k /\ weaker_at price q w k = true)) /\
  (forall c, 0 < c -> parentOf c = k -> le_at price (heap q) w c).
Proof.
  unfold weakestIndex. set (l := k * 2 + 1). set (r := l + 1).
  assert (parentOf l = k /\ parentOf r = k) as [Hl Hr]
    by (split; apply parent_child; subst l r; lia).
  assert (forall c, 0 < c -> parentOf c = k -> c = l \/ c = r) as Hch
    by (intros c Hc E; apply parent_child in E; subst l r; lia).
  assert (0 < l /\ 0 < r) as [Hl0 Hr0] by (subst l r; lia). clearbody l r.
  assert (forall i c, c = l \/ c = r -> (c <? length (heap q)) && weaker_at price q c i = false ->
            le_at price (heap q) i c) as Hno.
  { intros i c _ H x y Hx Hy. apply lookup_lt_Some in Hy as Hlt.
    apply Nat.ltb_lt in Hlt. rewrite Hlt in H. simpl in H.
    exact (not_weaker_le q c i H x y Hx Hy). }
  assert (forall c, le_at price (heap q) c c) as Hrefl
    by (intros c x y Hx Hy; simplify_eq; lia).
  destruct ((l <? length (heap q)) && weaker_at price q l k) eqn:El;
    destruct ((r <? length (heap q)) && weaker_at price q r _) eqn:Er; simpl.
  - apply andb_true_iff in El as [El1%Nat.ltb_lt El2], Er as [Er1%Nat.ltb_lt Er2].
    apply weaker_at_spec in El2 as (a & b & Ha & Hb & Hab).
    apply weaker_at_spec in Er2 as (c & a' & Hc & Ha' & Hca). simplify_eq.
    split.
    + right. split_and!; [done..|]. apply weaker_at_spec. exists c, b. split_and!; [done..|lia].
    + intros d Hd [->| ->]%Hch; [|done|done]. intros x y Hx Hy. simplify_eq. lia.
  - apply andb_true_iff in El as [El1%Nat.ltb_lt El2]. split; [by right|].
    intros d Hd [->| ->]%Hch; [done| |done]. apply Hno; [by right|done].
  - apply andb_true_iff in Er as [Er1%Nat.ltb_lt Er2]. split; [by right|].
    intros d Hd [->| ->]%Hch; [|done|done].
    apply weaker_at_spec in Er2 as (c & b & Hc & Hb & Hcb).
    pose proof (Hno k l ltac:(by left) El) as Hkl. intros x y Hx Hy. simplify_eq.
    specialize (Hkl b y Hb Hy). lia.
  - split; [by left|]. intros d Hd [->| ->]%Hch; [| |done].
    + apply Hno; [by left|done].
    + apply Hno; [by right|done].
Qed.

(** One round of [bubbleDown] moves the exception to the chosen child. *)
Lemma down_inv_step q k w :
  down_inv price (heap q) k -> 0 < w -> parentOf w = k -> weaker_at price q w k = true ->
  (forall c, 0 < c -> parentOf c = k -> le_at price (heap q) w c) ->
  down_inv price (heap (swap q k w)) w.
Proof.
  intros [HA HB] Hw Hpw (b & a & Hb & Ha & Hlt)%weaker_at_spec Hmin.
  pose proof (parent_lt w Hw) as Hkw. rewrite Hpw in Hkw.
  split.
  - intros j Hj Hjw x y Hx Hy. pose proof (parent_lt j Hj) as Hpj.
    rewrite (swap_lookup q _ _ a b) in Hx, Hy by done.
    rewrite (decide_False (P := parentOf j = w)) in Hx by done.
    destruct (decide (parentOf j = k)) as [E|E].
    + simplify_eq. rewrite decide_False in Hy by lia.
      destruct (decide (j = w)) as [->|]; [simplify_eq; lia|].
      by apply (Hmin j Hj E).
    + destruct (decide (j = k)) as [->|]; [simplify_eq; by apply (HB w)|].
      rewrite decide_False in Hy by congruence. by apply (HA j).
  - intros c Hc Hcp _ x y Hx Hy. pose proof (parent_lt c Hc) as Hpc. rewrite Hcp in Hpc.
    rewrite (swap_lookup q _ _ a b) in Hx, Hy by done. rewrite Hpw in Hx.
    rewrite decide_True in Hx by done. rewrite !decide_False in Hy by lia. simplify_eq.
    apply (HA c Hc ltac:(lia)); by rewrite ?Hcp.
Qed.

(** [bubbleDown] terminates within its fuel in heap order. *)
Lemma bubbleDown_spec fuel q k :
  down_inv price (heap q) k -> length (heap q) <= k + fuel ->
  heap_ok price (heap (bubbleDown price fuel q k)) /\ heap (bubbleDown price fuel q k) ≡ₚ heap q.
Proof.
  revert q k. induction fuel as [|fuel IH]; intros q k Hd Hf; simpl.
  - split; [|done]. intros i Hi. destruct (decide (parentOf i = k)) as [E|]; [|by apply Hd].
    intros x y _ Hy. apply lookup_lt_Some in Hy. pose proof (parent_lt i Hi). lia.
  - destruct (weakestIndex_cases q k) as [Hc Hmin]. simpl in Hc, Hmin.
    destruct (Nat.eqb_spec (weakestIndex price q k) k) as [E|E].
    + split; [|done]. rewrite E in Hmin. intros i Hi.
      destruct (decide (parentOf i = k)) as [E'|]; [|by apply Hd].
      rewrite E'. by apply Hmin.
    + destruct Hc as [|(Hlen & H0 & Hp & Hwk)]; [done|].
      destruct (IH (swap q k (weakestIndex price q k)) (weakestIndex price q k)) as [H1 H2].
      * by apply down_inv_step.
      * rewrite swap_length. pose proof (parent_lt _ H0). lia.
      * split; [done|]. by rewrite H2, swap_perm.
Qed.

Lemma bubbleDown_index_ok fuel q k :
  index_ok q -> k < length (heap q) -> index_ok (bubbleDown price fuel q k).
Proof.
  revert q k. induction fuel as [|fuel IH]; intros q k Hok Hk; simpl; [done|].
  destruct (weakestIndex_cases q k) as [Hc _]. simpl in Hc.
  destruct (Nat.eqb_spec (weakestIndex price q k) k) as [E|E]; [done|].
  destruct Hc as [|(Hlen & _)]; [done|].
  apply IH; rewrite ?swap_length; [by apply swap_index_ok|done].
Qed.

(** Settling an arbitrary entry restores the whole invariant. *)
Lemma settle_spec q k :
  index_ok q -> k < length (heap q) -> up_inv price (heap q) k ->
  queue_ok price (settle price q k) /\ heap (settle price q k) ≡ₚ heap q.
Proof.
  intros Hok Hk Hup. unfold settle. pose proof (bubbleUp_spec k q k Hup ltac:(lia)) as H.
  pose proof (bubbleUp_index_ok k q k Hok Hk) as Hi.
  destruct (bubbleUp price k q k) as [q' k']. simpl in Hi. destruct H as (Hd & Hle & Hp).
  pose proof (Permutation_length Hp) as Hl.
  destruct (bubbleDown_spec (length (heap q')) q' k' Hd ltac:(lia)) as [H1 H2].
  split; [split|]; [apply bubbleDown_index_ok; [done|lia]|done|by rewrite H2].
Qed.

(** When the moved entry is not stronger than its children, [bubbleUp] alone
    restores heap order; this is the case of a new leaf. *)
Lemma bubbleUp_heap_ok fuel q k :
  up_inv price (heap q) k -> (forall c, 0 < c -> parentOf c = k -> le_at price (heap q) k c) ->
  k <= fuel -> heap_ok price (heap (fst (bubbleUp price fuel q k))).
Proof.
  revert q k. induction fuel as [|fuel IH]; intros q k Hup Hch Hf; simpl.
  - assert (k = 0) as -> by lia. intros i Hi.
    destruct (decide (parentOf i = 0)) as [E|]; [rewrite E; auto|apply Hup; lia].
  - destruct (Nat.ltb_spec 0 k) as [Hk|Hk].
    + destruct (weaker_at price q k (parentOf k)) eqn:E; simpl.
      * pose proof (parent_lt k Hk) as Hpk. apply IH; [by apply up_inv_step| |lia].
        apply weaker_at_spec in E as (a & b & Ha & Hb & Hlt).
        intros c Hc Hcp x y Hx Hy. rewrite (swap_lookup q _ _ a b) in Hx, Hy by done.
        rewrite decide_False, decide_True in Hx by lia. simplify_eq.
        destruct (decide (c = k)) as [->|Hne]; [simplify_eq; lia|].
        pose proof (parent_lt c Hc). rewrite decide_False in Hy by lia.
        destruct Hup as [HA _]. specialize (HA c Hc Hne ltac:(lia)). rewrite Hcp in HA.
        specialize (HA b y Hb Hy). lia.
      * intros i Hi. destruct (decide (parentOf i = k)) as [Ei|]; [rewrite Ei; auto|].
        destruct (decide (i = k)) as [->|]; [by apply not_weaker_le|by apply Hup].
    + assert (k = 0) as -> by lia. intros i Hi.
      destruct (decide (parentOf i = 0)) as [Ei|]; [rewrite Ei; auto|apply Hup; lia].
Qed.

(** ** The operations on a well-formed queue *)

Lemma push_index_ok q r :
  index_ok q -> indexByPending q !! ref_pending r = None ->
  index_ok {| heap := heap q ++ [r];
              indexByPending := <[ref_pending r := length (heap q)]> (indexByPending q) |}.
Proof.
  intros Hok Hnew p i. simpl. rewrite lookup_insert.
  destruct (decide (i = length (heap q))) as [->|Hi].
  - rewrite lookup_app_r, Nat.sub_diag by lia. simpl. case_decide; [naive_solver|].
    split; [|naive_solver]. intros (x & Hx & _)%Hok. apply lookup_lt_Some in Hx. lia.
  - assert ((heap q ++ [r]) !! i = heap q !! i) as ->.
    { destruct (decide (i < length (heap q))); [by apply lookup_app_l|].
      rewrite lookup_app_r, !lookup_ge_None_2; simpl; lia || done. }
    case_decide; [subst|apply Hok]. split; [congruence|].
    intros (x & Hx & E). assert (indexByPending q !! ref_pending r = Some i)
      by (apply Hok; eauto). congruence.
Qed.

Lemma add_spec q r :
  queue_ok price q -> indexByPending q !! ref_pending r = None ->
  queue_ok price (add price q r) /\ heap (add price q r) ≡ₚ r :: heap q.
Proof.
  intros [Hok Hh] Hnew. unfold add. pose proof (push_index_ok q r Hok Hnew) as Hok1.
  set (n := length (heap q)) in *. set (q1 := Build_PendingEventPriorityQueue _ _) in *.
  assert (heap q1 = heap q ++ [r]) as Hh1 by done. clearbody q1.
  assert (length (heap q1) = S n) as Hlen by (rewrite Hh1, length_app; simpl; lia).
  assert (forall c x, 0 < c -> parentOf c = n -> heap q1 !! c = Some x -> False) as Hleaf.
  { intros c x Hc Hcn Hx%lookup_lt_Some. pose proof (parent_lt c Hc). lia. }
  assert (up_inv price (heap q1) n) as Hup.
  { split; [|intros c Hc Hcn _ x y _ Hy; exfalso; eauto].
    intros j Hj Hjn _ x y Hx Hy. apply lookup_lt_Some in Hy as Hlt.
    pose proof (parent_lt j Hj). rewrite Hh1, lookup_app_l in Hx, Hy by lia. by apply (Hh j). }
  split; [split|].
  - apply bubbleUp_index_ok; [done|lia].
  - apply bubbleUp_heap_ok; [done| |done]. intros c Hc Hcn x y _ Hy. exfalso. eauto.
  - pose proof (bubbleUp_spec n q1 n Hup ltac:(lia)) as H. case_match. simpl.
    destruct H as (_ & _ & ->). rewrite Hh1. by rewrite Permutation_app_comm.
Qed.

Lemma lookup_pending q p i :
  index_ok q -> indexByPending q !! p = Some i ->
  exists r, heap q !! i = Some r /\ ref_pending r = p /\ i < length (heap q).
Proof.
  intros Hok (r & Hr & Hp)%Hok. exists r. eauto using lookup_lt_Some.
Qed.

(** [update] restores order after the price behind one address changed. *)
Lemma update_spec (old : nat -> Z) q p :
  queue_ok old q -> (forall p', p' <> p -> price p' = old p') ->
  queue_ok price (update price q p) /\ heap (update price q p) ≡ₚ heap q.
Proof.
  intros [Hok Hh] Hpr. unfold update. destruct (indexByPending q !! p) as [i|] eqn:E.
  - destruct (lookup_pending _ _ _ Hok E) as (r & Hr & Hp & Hi).
    assert (forall j x, heap q !! j = Some x -> j <> i ->
              price (ref_pending x) = old (ref_pending x)) as Hold.
    { intros j x Hx Hji. apply Hpr. intros Ex. apply Hji.
      eapply index_ok_inj; eauto; congruence. }
    apply settle_spec; [done|done|]. split.
    + intros j Hj Hji Hpj x y Hx Hy. rewrite (Hold _ _ Hx Hpj), (Hold _ _ Hy Hji).
      by apply (Hh j Hj).
    + intros c Hc Hci H0 x y Hx Hy. pose proof (parent_lt i H0). pose proof (parent_lt c Hc).
      rewrite (Hold _ _ Hx ltac:(lia)), (Hold _ _ Hy ltac:(lia)).
      pose proof (Hh i H0 x r Hx Hr). rewrite <- Hci in Hr.
      pose proof (Hh c Hc r y Hr Hy). lia.
  - split; [split|done]; [done|]. intros j Hj x y Hx Hy.
    assert (forall k z, heap q !! k = Some z -> price (ref_pending z) = old (ref_pending z)) as Hold.
    { intros k z Hz. apply Hpr. intros Ez. assert (indexByPending q !! p = Some k)
        by (apply Hok; eauto). congruence. }
    rewrite (Hold _ _ Hx), (Hold _ _ Hy). by apply (Hh j Hj).
Qed.

(** The heap with the entry of [p] swapped to the end and popped. *)
Lemma pop_index_ok q p i :
  index_ok q -> indexByPending q !! p = Some i ->
  index_ok {| heap := take (length (heap q) - 1) (heap (swap q i (length (heap q) - 1)));
              indexByPending := delete p (indexByPending (swap q i (length (heap q) - 1))) |}.
Proof.
  intros Hok E. destruct (lookup_pending _ _ _ Hok E) as (r & Hr & Hp & Hi).
  set (n := length (heap q) - 1). assert (n < length (heap q)) as Hn by lia.
  pose proof (swap_index_ok q i n Hok Hi Hn) as Hok1.
  destruct (lookup_lt_is_Some_2 _ _ Hn) as [b Hb].
  assert (heap (swap q i n) !! n = Some r) as Hrn.
  { rewrite (swap_lookup q i n r b) by done. repeat case_decide; congruence. }
  set (q1 := swap q i n) in *. intros p' k. simpl. rewrite lookup_delete.
  case_decide as Hd.
  - subst p'. split; [done|]. intros (x & Hx & Ex).
    apply lookup_take_Some in Hx as [Hx Hk].
    assert (k = n) by (eapply (index_ok_inj q1); eauto; congruence). lia.
  - rewrite (Hok1 p' k). split.
    + intros (x & Hx & Ex). exists x. split; [|done]. apply lookup_take_Some. split; [done|].
      apply lookup_lt_Some in Hx as Hlt. unfold q1 in Hlt. rewrite swap_length in Hlt.
      destruct (decide (k = n)) as [->|]; [|lia]. congruence.
    + intros (x & Hx & Ex). apply lookup_take_Some in Hx as [Hx Hk]. eauto.
Qed.

Lemma remove_spec q p :
  queue_ok price q ->
  queue_ok price (remove price q p) /\
  match indexByPending q !! p with
  | Some i => exists r, heap q !! i = Some r /\ ref_pending r = p /\
                        heap q ≡ₚ r :: heap (remove price q p)
  | None => remove price q p = q
  end.
Proof.
  intros [Hok Hh]. unfold remove. destruct (indexByPending q !! p) as [i|] eqn:E; [|done].
  destruct (lookup_pending _ _ _ Hok E) as (r & Hr & Hp & Hi).
  pose proof (pop_index_ok q p i Hok E) as Hok2. set (n := length (heap q) - 1) in *.
  set (q1 := swap q i n) in *. set (q2 := Build_PendingEventPriorityQueue _ _) in *.
  assert (n < length (heap q)) as Hn by lia.
  destruct (lookup_lt_is_Some_2 _ _ Hn) as [b Hb].
  assert (forall k, heap q1 !! k =
    if decide (k = i) then Some b else if decide (k = n) then Some r else heap q !! k) as Hl1
    by (intros k; by apply swap_lookup).
  assert (length (heap q1) = S n) as Hlen1 by (unfold q1; rewrite swap_length; lia).
  assert (heap q ≡ₚ r :: heap q2) as Hperm.
  { rewrite <- (swap_perm q i n). fold q1. subst q2. simpl.
    rewrite <- (take_drop n (heap q1)) at 1.
    assert (drop n (heap q1) = [r]) as ->; [|by rewrite Permutation_app_comm].
    rewrite (drop_S _ r); [rewrite drop_ge by lia; done|]. rewrite Hl1.
    repeat case_decide; congruence. }
  assert (length (heap q2) = n) as Hlen2.
  { pose proof (Permutation_length Hperm) as HL.
    change (length (heap q) = S (length (heap q2))) in HL. lia. }
  assert (forall k x, heap q2 !! k = Some x -> k <> i -> heap q !! k = Some x /\ k < n) as Hl2.
  { intros k x Hx Hk. subst q2. simpl in Hx. apply lookup_take_Some in Hx as [Hx Hkn].
    rewrite Hl1 in Hx. repeat case_decide; done || lia. }
  destruct (Nat.ltb_spec i (length (heap q2))) as [Hlt|Hge].
  - assert (up_inv price (heap q2) i) as Hup.
    { split.
      - intros j Hj Hji Hpj x y Hx Hy. apply Hl2 in Hx as [Hx _], Hy as [Hy _]; [|done..].
        by apply (Hh j Hj).
      - intros c Hc Hci H0 x y Hx Hy. pose proof (parent_lt i H0). pose proof (parent_lt c Hc).
        rewrite Hci in *. apply Hl2 in Hx as [Hx _], Hy as [Hy _]; [|lia..].
        pose proof (Hh i H0 x r Hx Hr). rewrite <- Hci in Hr.
        pose proof (Hh c Hc r y Hr Hy). lia. }
    destruct (settle_spec q2 i Hok2 Hlt Hup) as [H1 H2].
    split; [done|]. exists r. by rewrite H2.
  - split; [split; [done|]|by exists r].
    intros j Hj x y Hx Hy. apply lookup_lt_Some in Hy as Hjl. pose proof (parent_lt j Hj).
    apply Hl2 in Hx as [Hx _], Hy as [Hy _]; [|lia..]. by apply (Hh j Hj).
Qed.

(** The root is a weakest entry. *)
Lemma heap_root_min h r x :
  heap_ok price h -> h !! 0 = Some r -> x ∈ h ->
  (price (ref_pending r) <= price (ref_pending x))%Z.
Proof.
  intros Hh Hr [i Hi]%list_elem_of_lookup. revert x Hi.
  induction i as [i IH] using lt_wf_ind. intros x Hx.
  destruct (decide (i = 0)) as [->|Hi]; [simplify_eq; lia|].
  pose proof (parent_lt i ltac:(lia)) as Hp. apply lookup_lt_Some in Hx as Hlt.
  destruct (lookup_lt_is_Some_2 h (parentOf i) ltac:(lia)) as [y Hy].
  pose proof (IH _ Hp y Hy). pose proof (Hh i ltac:(lia) y x Hy Hx). lia.
Qed.

Lemma queue_ok_ext (old : nat -> Z) q :
  queue_ok old q -> (forall r, r ∈ heap q -> price (ref_pending r) = old (ref_pending r)) ->
  queue_ok price q.
Proof.
  intros [Hok Hh] E. split; [done|]. intros i Hi x y Hx Hy.
  rewrite !E by eauto using list_elem_of_lookup_2. by apply (Hh i Hi).
Qed.

End Heapify.

Lemma empty_queue_ok price : queue_ok price empty_queue.
Proof.
  split; [|intros i Hi x y Hx; done]. intros p i. simpl.
  rewrite lookup_empty. naive_solver.
Qed.

#[export] Hint Resolve empty_queue_ok : artgod.

(** ** Refinement of a bag

    What the backpressure stage relies on: a bag of references from which a
    weakest one can be read.  The price behind a reference is set when it is
    added and may be replaced before an update. *)

Inductive queue_op : Type :=
  | OpAdd (reference : PendingEventReference) (unitPrice : Z)
  | OpUpdate (pending : nat) (unitPrice : Z)
  | OpRemove (pending : nat).

Definition set_price (price : nat -> Z) (p : nat) (v : Z) : nat -> Z :=
  fun p' => if decide (p' = p) then v else price p'.

Definition queue_step (st : (nat -> Z) * PendingEventPriorityQueue) (op : queue_op)
    : (nat -> Z) * PendingEventPriorityQueue :=
  let '(price, q) := st in
  match op with
  | OpAdd r v => let price' := set_price price (ref_pending r) v in (price', add price' q r)
  | OpUpdate p v => let price' := set_price price p v in (price', update price' q p)
  | OpRemove p => (price, remove price q p)
  end.

(** The abstract bag; adding a reference to an event that is already pending is
    outside the contract. *)
Definition bag_step (b : list PendingEventReference) (op : queue_op)
    : option (list PendingEventReference) :=
  match op with
  | OpAdd r _ => if decide (ref_pending r ∈ map ref_pending b) then None else Some (r :: b)
  | OpUpdate _ _ => Some b
  | OpRemove p => Some (filter (fun r => ref_pending r <> p) b)
  end.

Fixpoint bag_run (b : list PendingEventReference) (ops : list queue_op)
    : option (list PendingEventReference) :=
  match ops with
  | [] => Some b
  | op :: ops' => match bag_step b op with Some b' => bag_run b' ops' | None => None end
  end.

Definition queue_refines (st : (nat -> Z) * PendingEventPriorityQueue)
    (b : list PendingEventReference) : Prop :=
  queue_ok (fst st) (snd st) /\ heap (snd st) ≡ₚ b.

Lemma index_None_iff q p :
  index_ok q -> indexByPending q !! p = None <-> p ∉ map ref_pending (heap q).
Proof.
  intros Hok. split.
  - intros Hn (r & <- & Hr)%list_elem_of_In%in_map_iff.
    apply list_elem_of_In, list_elem_of_lookup in Hr as [i Hi].
    assert (indexByPending q !! ref_pending r = Some i) by (apply Hok; eauto). congruence.
  - intros Hn. destruct (indexByPending q !! p) as [i|] eqn:E; [|done].
    apply Hok in E as (r & Hr & <-). exfalso. apply Hn.
    apply list_elem_of_In, in_map, list_elem_of_In. eauto using list_elem_of_lookup_2.
Qed.

Lemma remove_filter q p price :
  queue_ok price q ->
  heap (remove price q p) ≡ₚ filter (fun r => ref_pending r <> p) (heap q).
Proof.
  intros Hq. destruct (remove_spec price q p Hq) as [[Hok' _] H]. destruct Hq as [Hok _].
  destruct (indexByPending q !! p) as [i|] eqn:E.
  - destruct H as (r & Hr & Hp & Hperm). rewrite Hperm.
    rewrite filter_cons, decide_False by tauto.
    assert (Forall (fun x => ref_pending x <> p) (heap (remove price q p))) as Hall.
    { apply Forall_forall. intros x Hx Ex.
      assert (NoDup (map ref_pending (heap q))) as Hnd.
      { apply NoDup_fmap_2_strong; [|].
        - intros a b Ha Hb Hab. apply list_elem_of_lookup in Ha as [ia Hia], Hb as [ib Hib].
          assert (ia = ib) by eauto using index_ok_inj. congruence.
        - apply NoDup_alt. intros ia ib a Ha Hb. eauto using index_ok_inj. }
      rewrite (fmap_Permutation ref_pending _ _ Hperm) in Hnd. simpl in Hnd.
      apply NoDup_cons in Hnd as [Hn _]. apply Hn.
      assert (ref_pending r = ref_pending x) as -> by congruence.
      by apply list_elem_of_fmap_2. }
    revert Hall. generalize (heap (remove price q p)) as l. induction l as [|x l IH]; [done|].
    intros [Hx Hl]%Forall_cons. rewrite filter_cons, decide_True by done. by rewrite <- IH.
  - rewrite H. rewrite index_None_iff in E by done.
    revert E. generalize (heap q) as l. induction l as [|x l IH]; [done|].
    simpl. intros Hn. rewrite filter_cons, decide_True by set_solver.
    rewrite <- IH by set_solver. done.
Qed.

Lemma remove_elem q p price r :
  queue_ok price q -> r ∈ heap (remove price q p) <-> r ∈ heap q /\ ref_pending r <> p.
Proof. intros Hq. rewrite (remove_filter q p price Hq), list_elem_of_filter. tauto. Qed.

Lemma remove_all_spec price ps q :
  queue_ok price q ->
  queue_ok price (fold_left (remove price) ps q) /\
  forall r, r ∈ heap (fold_left (remove price) ps q) <-> r ∈ heap q /\ ref_pending r ∉ ps.
Proof.
  revert q. induction ps as [|p ps IH]; simpl; intros q Hq; [set_solver|].
  destruct (remove_spec price q p Hq) as [Hq' _]. destruct (IH _ Hq') as [H1 H2].
  split; [done|]. intros r. rewrite H2, remove_elem by done. set_solver.
Qed.

Lemma queue_step_refines st b op b' :
  queue_refines st b -> bag_step b op = Some b' -> queue_refines (queue_step st op) b'.
Proof.
  destruct st as [price q]. intros [Hq Hb]. simpl in *. destruct op as [r v|p v|p]; simpl.
  - case_decide as Hn; intros [= <-]. rewrite <- Hb in Hn.
    assert (queue_ok (set_price price (ref_pending r) v) q) as Hq'.
    { apply (queue_ok_ext _ price); [done|]. intros x Hx. unfold set_price.
      rewrite decide_False; [done|]. intros E. apply Hn. rewrite <- E.
      by apply list_elem_of_fmap_2. }
    destruct (add_spec _ q r Hq') as [H1 H2]; [by apply index_None_iff, Hn; destruct Hq|].
    split; [done|]. simpl. by rewrite H2, Hb.
  - intros [= <-]. destruct (update_spec (set_price price p v) price q p Hq) as [H1 H2].
    + intros p' Hp. unfold set_price. by rewrite decide_False.
    + split; [done|]. simpl. by rewrite H2.
  - intros [= <-]. split; [by apply remove_spec|]. simpl. by rewrite remove_filter, Hb.
Qed.

Lemma queue_run_refines ops st b b' :
  queue_refines st b -> bag_run b ops = Some b' -> queue_refines (fold_left queue_step ops st) b'.
Proof.
  revert st b. induction ops as [|op ops IH]; simpl; intros st b Hr; [by intros [= <-]|].
  destruct (bag_step b op) as [b1|] eqn:E; [|done]. eauto using queue_step_refines.
Qed.

(** C30: The indexed heap implements a bag with a weakest element: after any
    sequence of additions, price changes and removals, it holds exactly the
    references of the abstract bag, its position map and heap order are intact,
    and [peek] returns a reference of minimal current price, or nothing exactly
    when the bag is empty. *)
Theorem queue_implements_weakest_bag (ops : list queue_op) (b : list PendingEventReference)
    (price0 : nat -> Z) :
  bag_run [] ops = Some b ->
  let '(price, q) := fold_left queue_step ops (price0, empty_queue) in
  queue_ok price q /\ heap q ≡ₚ b /\
  match peek q with
  | None => b = []
  | Some r => r ∈ b /\ forall x, x ∈ b -> (price (ref_pending r) <= price (ref_pending x))%Z
  end.
Proof.
  intros Hrun.
  assert (queue_refines (price0, empty_queue) []) as H0 by (split; eauto with artgod).
  pose proof (queue_run_refines ops _ _ _ H0 Hrun) as [Hq Hb].
  destruct (fold_left queue_step ops (price0, empty_queue)) as [price q]. simpl in *.
  split_and!; [done..|]. unfold peek. destruct (heap q !! 0) as [r|] eqn:E.
  - setoid_rewrite <- Hb. split; [by eapply list_elem_of_lookup_2|].
    intros x Hx. destruct Hq. by eapply heap_root_min.
  - apply lookup_ge_None in E. apply Permutation_length in Hb. destruct b; simpl in *; [done|lia].
Qed.

Definition exampleRef (p : nat) : PendingEventReference :=
  {| ref_laneKey := "lane"; ref_lane := 0; ref_signature := "s"; ref_pending := p |}.

Definition exampleOps : list queue_op :=
  [OpAdd (exampleRef 1) 30; OpAdd (exampleRef 2) 20; OpAdd (exampleRef 3) 25;
   OpUpdate 2 40; OpAdd (exampleRef 4) 5; OpRemove 4].

Definition exampleBag : list PendingEventReference := [exampleRef 3; exampleRef 2; exampleRef 1].

Lemma queue_implements_weakest_bag_witness :
  bag_run [] exampleOps = Some exampleBag /\
  peek (snd (fold_left queue_step exampleOps (fun _ => 0%Z, empty_queue))) = Some (exampleRef 3) /\
  let '(price, q) := fold_left queue_step exampleOps (fun _ => 0%Z, empty_queue) in
  heap q ≡ₚ exampleBag.
Proof.
  assert (bag_run [] exampleOps = Some exampleBag) as E by (vm_compute; reflexivity).
  split; [exact E|]. split; [vm_compute; reflexivity|].
  pose proof (queue_implements_weakest_bag exampleOps exampleBag (fun _ => 0%Z) E) as H.
  destruct (fold_left queue_step exampleOps (fun _ => 0%Z, empty_queue)) as [price q].
  exact (proj1 (proj2 H)).
Defined.

End PendingQueue.
