(* ===== verification/HotRefresh.v ===== *)
(** * Hot-refresh backpressure

    [HotRefreshBackpressure] of [trading/src/application/use-cases/market/pipeline/
    lib/hot-refresh-backpressure.ts]: stream events are coalesced per lane and
    signature, admitted under a per-kind budget, delayed by a cooldown, and run
    in at most [maxConcurrentPasses] concurrent passes.

    The lane and pending-event objects are mutable and shared (a lane is held by
    the [lanes] map, by timers, by the ready queue and by running passes; a
    pending event by its lane and by the weakest-event index), so both live in
    stores and everything else holds addresses.  The event loop runs one callback
    at a time: an operation is a function on states, and the interleaving of
    events, timers, finished passes and [stop] is a step relation.  [now] is the
    value of [Date.now()] during an operation; nothing is assumed about it. *)

From stdpp Require Import gmap.
From S2P Require Import Prelude JsValue Domain PendingQueue.

Open Scope Z_scope.

Module HotRefresh.
Import PendingQueue.

Inductive LaneKind : Type := Broad | Item.

#[global] Instance LaneKind_eq_dec : EqDecision LaneKind.
Proof. solve_decision. Defined.

Inductive SignalOutcome : Type := Queued | Coalesced | Dropped | Evicted.

Record HotRefreshBackpressureOptions := {
  broadCooldownMs : Z;
  broadMaxPendingSignatures : Z;
  itemCooldownMs : Z;
  itemMaxPendingSignatures : Z;
  maxConcurrentPasses : Z;
}.

Record PendingHotRefreshEvent := {
  pe_event : MarketEvent;
  pe_signalCount : Z;
  pe_firstQueuedAt : Z;
}.

Record HotRefreshLane := {
  running : bool;
  pendingEvents : list (string * nat);
  pendingSignalCount : Z;
  nextRunAt : Z;
  timer : option nat;
  kind : LaneKind;
}.

Record HotRefreshLaneState := {
  activeLanes : Z;
  knownLanes : Z;
  pendingEventCount : Z;
  pendingSignals : Z;
}.

Definition createEmptyLaneState : HotRefreshLaneState :=
  {| activeLanes := 0; knownLanes := 0; pendingEventCount := 0; pendingSignals := 0 |}.

(** [Record<HotRefreshLaneKind, A>] *)
Record byKind (A : Type) := { onBroad : A; onItem : A }.
Arguments onBroad {A} _.
Arguments onItem {A} _.

Definition kget {A} (m : byKind A) (k : LaneKind) : A :=
  match k with Broad => onBroad m | Item => onItem m end.

Definition kset {A} (m : byKind A) (k : LaneKind) (v : A) : byKind A :=
  match k with
  | Broad => {| onBroad := v; onItem := onItem m |}
  | Item => {| onBroad := onBroad m; onItem := v |}
  end.

Definition kboth {A} (v : A) : byKind A := {| onBroad := v; onItem := v |}.

(** ** Keys and signatures *)

Definition isBroadHotRefreshEvent (e : MarketEvent) : bool :=
  bool_decide (ev_scope e = ScopeCollection) || bool_decide (ev_scope e = ScopeTrait).

Definition isSupportedHotRefreshEvent (e : MarketEvent) : bool :=
  isBroadHotRefreshEvent e || bool_decide (ev_scope e = ScopeItem).

Definition kindOfEvent (e : MarketEvent) : LaneKind :=
  if isBroadHotRefreshEvent e then Broad else Item.

Definition createLaneKey (e : MarketEvent) : string :=
  if bool_decide (ev_scope e = ScopeItem)
  then append "item:" (append (ev_collectionSlug e) (append ":" (ev_itemId e)))
  else append "collection:" (ev_collectionSlug e).

(** [`${criterion.type}=${criterion.value}`]; a numeric range has no [value]. *)
Definition criterionText (c : TraitCriterion) : string :=
  match c with
  | ExactTrait type value => append type (append "=" value)
  | RangeTrait type _ _ => append type (append "=" "undefined")
  end.

Definition formatTraitCriteriaSignature (e : MarketEvent) : string :=
  joinWith "|" (sortTexts (map criterionText (ev_traitCriteria e))).

Definition createEventSignature (e : MarketEvent) : string :=
  if bool_decide (ev_scope e = ScopeItem) then append "item:" (ev_itemId e)
  else if bool_decide (ev_scope e = ScopeTrait)
  then append "trait:" (formatTraitCriteriaSignature e)
  else "collection".

Definition selectConservativeEvent (existing : option MarketEvent) (incoming : MarketEvent)
    : MarketEvent :=
  match existing with
  | None => incoming
  | Some existing =>
      if getUnitPrice existing <=? getUnitPrice incoming then incoming else existing
  end.

(** ** State *)

Section Machine.
Context {C : Type}.

Inductive TimerAction : Type :=
  | LaneTimer (laneKey : string) (lane : nat) (callback : C)
  | CleanupTimer (k : LaneKind).

(** A pass in flight: the events its callback is being awaited on. *)
Record Pass := {
  pass_laneKey : string;
  pass_lane : nat;
  pass_callback : C;
  pass_events : list MarketEvent;
}.

Record st := {
  pend : gmap nat PendingHotRefreshEvent;
  laneObj : gmap nat HotRefreshLane;
  timers : gmap nat (Z * TimerAction);
  nextAddr : nat;
  lanes : list (string * nat);
  readyLanes : list (string * (nat * C));
  passes : list (nat * Pass);
  cooldowns : byKind (list (string * Z));
  cleanups : byKind (option nat);
  queues : byKind PendingEventPriorityQueue;
  counts : byKind HotRefreshLaneState;
  activePassCount : Z;
  stopped : bool;
  signals : list (LaneKind * EventType * SignalOutcome);
}.

Definition initial : st := {|
  pend := ∅; laneObj := ∅; timers := ∅; nextAddr := 0; lanes := []; readyLanes := [];
  passes := []; cooldowns := kboth []; cleanups := kboth None; queues := kboth empty_queue;
  counts := kboth createEmptyLaneState; activePassCount := 0; stopped := false; signals := [] |}.

(** Field updates. *)
Definition set_pend v s := {| pend := v; laneObj := laneObj s; timers := timers s;
  nextAddr := nextAddr s; lanes := lanes s; readyLanes := readyLanes s; passes := passes s;
  cooldowns := cooldowns s; cleanups := cleanups s; queues := queues s; counts := counts s;
  activePassCount := activePassCount s; stopped := stopped s; signals := signals s |}.

Definition set_laneObj v s := {| pend := pend s; laneObj := v; timers := timers s;
  nextAddr := nextAddr s; lanes := lanes s; readyLanes := readyLanes s; passes := passes s;
  cooldowns := cooldowns s; cleanups := cleanups s; queues := queues s; counts := counts s;
  activePassCount := activePassCount s; stopped := stopped s; signals := signals s |}.

Definition set_timers v s := {| pend := pend s; laneObj := laneObj s; timers := v;
  nextAddr := nextAddr s; lanes := lanes s; readyLanes := readyLanes s; passes := passes s;
  cooldowns := cooldowns s; cleanups := cleanups s; queues := queues s; counts := counts s;
  activePassCount := activePassCount s; stopped := stopped s; signals := signals s |}.

Definition set_nextAddr v s := {| pend := pend s; laneObj := laneObj s; timers := timers s;
  nextAddr := v; lanes := lanes s; readyLanes := readyLanes s; passes := passes s;
  cooldowns := cooldowns s; cleanups := cleanups s; queues := queues s; counts := counts s;
  activePassCount := activePassCount s; stopped := stopped s; signals := signals s |}.

Definition set_lanes v s := {| pend := pend s; laneObj := laneObj s; timers := timers s;
  nextAddr := nextAddr s; lanes := v; readyLanes := readyLanes s; passes := passes s;
  cooldowns := cooldowns s; cleanups := cleanups s; queues := queues s; counts := counts s;
  activePassCount := activePassCount s; stopped := stopped s; signals := signals s |}.

Definition set_ready v s := {| pend := pend s; laneObj := laneObj s; timers := timers s;
  nextAddr := nextAddr s; lanes := lanes s; readyLanes := v; passes := passes s;
  cooldowns := cooldowns s; cleanups := cleanups s; queues := queues s; counts := counts s;
  activePassCount := activePassCount s; stopped := stopped s; signals := signals s |}.

Definition set_passes v s := {| pend := pend s; laneObj := laneObj s; timers := timers s;
  nextAddr := nextAddr s; lanes := lanes s; readyLanes := readyLanes s; passes := v;
  cooldowns := cooldowns s; cleanups := cleanups s; queues := queues s; counts := counts s;
  activePassCount := activePassCount s; stopped := stopped s; signals := signals s |}.

Definition set_cooldowns v s := {| pend := pend s; laneObj := laneObj s; timers := timers s;
  nextAddr := nextAddr s; lanes := lanes s; readyLanes := readyLanes s; passes := passes s;
  cooldowns := v; cleanups := cleanups s; queues := queues s; counts := counts s;
  activePassCount := activePassCount s; stopped := stopped s; signals := signals s |}.

Definition set_cleanups v s := {| pend := pend s; laneObj := laneObj s; timers := timers s;
  nextAddr := nextAddr s; lanes := lanes s; readyLanes := readyLanes s; passes := passes s;
  cooldowns := cooldowns s; cleanups := v; queues := queues s; counts := counts s;
  activePassCount := activePassCount s; stopped := stopped s; signals := signals s |}.

Definition set_queues v s := {| pend := pend s; laneObj := laneObj s; timers := timers s;
  nextAddr := nextAddr s; lanes := lanes s; readyLanes := readyLanes s; passes := passes s;
  cooldowns := cooldowns s; cleanups := cleanups s; queues := v; counts := counts s;
  activePassCount := activePassCount s; stopped := stopped s; signals := signals s |}.

Definition set_counts v s := {| pend := pend s; laneObj := laneObj s; timers := timers s;
  nextAddr := nextAddr s; lanes := lanes s; readyLanes := readyLanes s; passes := passes s;
  cooldowns := cooldowns s; cleanups := cleanups s; queues := queues s; counts := v;
  activePassCount := activePassCount s; stopped := stopped s; signals := signals s |}.

Definition set_active v s := {| pend := pend s; laneObj := laneObj s; timers := timers s;
  nextAddr := nextAddr s; lanes := lanes s; readyLanes := readyLanes s; passes := passes s;
  cooldowns := cooldowns s; cleanups := cleanups s; queues := queues s; counts := counts s;
  activePassCount := v; stopped := stopped s; signals := signals s |}.

Definition set_stopped v s := {| pend := pend s; laneObj := laneObj s; timers := timers s;
  nextAddr := nextAddr s; lanes := lanes s; readyLanes := readyLanes s; passes := passes s;
  cooldowns := cooldowns s; cleanups := cleanups s; queues := queues s; counts := counts s;
  activePassCount := activePassCount s; stopped := v; signals := signals s |}.

Definition onSignal k t o s := {| pend := pend s; laneObj := laneObj s; timers := timers s;
  nextAddr := nextAddr s; lanes := lanes s; readyLanes := readyLanes s; passes := passes s;
  cooldowns := cooldowns s; cleanups := cleanups s; queues := queues s; counts := counts s;
  activePassCount := activePassCount s; stopped := stopped s;
  signals := signals s ++ [(k, t, o)] |}.

(** Updates of one field of a lane. *)
Definition lane_running v l := {| running := v; pendingEvents := pendingEvents l;
  pendingSignalCount := pendingSignalCount l; nextRunAt := nextRunAt l; timer := timer l;
  kind := kind l |}.

Definition lane_pending v n l := {| running := running l; pendingEvents := v;
  pendingSignalCount := n; nextRunAt := nextRunAt l; timer := timer l; kind := kind l |}.

Definition lane_nextRunAt v l := {| running := running l; pendingEvents := pendingEvents l;
  pendingSignalCount := pendingSignalCount l; nextRunAt := v; timer := timer l;
  kind := kind l |}.

Definition lane_timer v l := {| running := running l; pendingEvents := pendingEvents l;
  pendingSignalCount := pendingSignalCount l; nextRunAt := nextRunAt l; timer := v;
  kind := kind l |}.

(** [state.field = Math.max(0, state.field + d)] on one counter of one kind. *)
Definition bump_active d c := {| activeLanes := Z.max 0 (activeLanes c + d);
  knownLanes := knownLanes c; pendingEventCount := pendingEventCount c;
  pendingSignals := pendingSignals c |}.

Definition bump_known d c := {| activeLanes := activeLanes c;
  knownLanes := Z.max 0 (knownLanes c + d); pendingEventCount := pendingEventCount c;
  pendingSignals := pendingSignals c |}.

Definition bump_events d c := {| activeLanes := activeLanes c; knownLanes := knownLanes c;
  pendingEventCount := Z.max 0 (pendingEventCount c + d); pendingSignals := pendingSignals c |}.

Definition bump_signals d c := {| activeLanes := activeLanes c; knownLanes := knownLanes c;
  pendingEventCount := pendingEventCount c; pendingSignals := Z.max 0 (pendingSignals c + d) |}.

Definition upd_count (k : LaneKind) (f : HotRefreshLaneState -> HotRefreshLaneState) (s : st) : st :=
  set_counts (kset (counts s) k (f (kget (counts s) k))) s.

Definition upd_lane (a : nat) (f : HotRefreshLane -> HotRefreshLane) (s : st) : st :=
  set_laneObj (alter f a (laneObj s)) s.

Definition upd_queue (k : LaneKind)
    (f : PendingEventPriorityQueue -> PendingEventPriorityQueue) (s : st) : st :=
  set_queues (kset (queues s) k (f (kget (queues s) k))) s.

(** The lane at an address; every address the machine follows is allocated. *)
Definition emptyLane : HotRefreshLane :=
  {| running := false; pendingEvents := []; pendingSignalCount := 0; nextRunAt := 0;
     timer := None; kind := Broad |}.

Definition laneAt (s : st) (a : nat) : HotRefreshLane :=
  match laneObj s !! a with Some l => l | None => emptyLane end.

Definition signalCountAt (s : st) (p : nat) : Z :=
  match pend s !! p with Some x => pe_signalCount x | None => 0 end.

(** [pending.event.getUnitPrice()] through the store. *)
Definition priceAt (s : st) (p : nat) : Z :=
  match pend s !! p with Some x => getUnitPrice (pe_event x) | None => 0 end.

(** ** Operations *)

Section Ops.
Context (o : HotRefreshBackpressureOptions).

Definition getCooldownMs (k : LaneKind) : Z :=
  match k with Broad => broadCooldownMs o | Item => itemCooldownMs o end.

Definition getMaxPendingSignatures (k : LaneKind) : Z :=
  match k with Broad => broadMaxPendingSignatures o | Item => itemMaxPendingSignatures o end.

(** [setTimeout(action, delay)] at time [now]; returns the timer. *)
Definition setTimer (due : Z) (action : TimerAction) (s : st) : nat * st :=
  (nextAddr s,
   set_nextAddr (S (nextAddr s)) (set_timers (<[nextAddr s := (due, action)]> (timers s)) s)).

Definition clearTimer (t : option nat) (s : st) : st :=
  match t with Some t => set_timers (delete t (timers s)) s | None => s end.

Definition takeRetainedCooldown (k : LaneKind) (laneKey : string) (s : st) : option Z * st :=
  match jm_get laneKey (kget (cooldowns s) k) with
  | None => (None, s)
  | Some deadline =>
      let retained := jm_del laneKey (kget (cooldowns s) k) in
      let s := set_cooldowns (kset (cooldowns s) k retained) s in
      let s := match retained, kget (cleanups s) k with
               | [], Some t => set_cleanups (kset (cleanups s) k None) (clearTimer (Some t) s)
               | _, _ => s
               end in
      (Some deadline, s)
  end.

Definition scheduleRetainedCooldownCleanup (now : Z) (k : LaneKind) (s : st) : st :=
  if stopped s then s
  else match kget (cleanups s) k, kget (cooldowns s) k with
       | None, (_, deadline) :: _ =>
           let '(t, s) := setTimer (now + Z.max 0 (deadline - now)) (CleanupTimer k) s in
           set_cleanups (kset (cleanups s) k (Some t)) s
       | _, _ => s
       end.

(** The loop that forgets the oldest retained cooldowns above the budget. *)
Fixpoint forgetOldest (fuel : nat) (k : LaneKind) (s : st) : st :=
  match fuel with
  | O => s
  | S fuel =>
      if getMaxPendingSignatures k <? Z.of_nat (length (kget (cooldowns s) k)) then
        match kget (cooldowns s) k with
        | [] => s
        | (oldest, _) :: _ =>
            let s := set_cooldowns (kset (cooldowns s) k (jm_del oldest (kget (cooldowns s) k))) s in
            forgetOldest fuel k (upd_count k (bump_known (-1)) s)
        end
      else s
  end.

Definition retainLaneCooldown (now : Z) (laneKey : string) (lane : nat) (s : st) : st :=
  if decide (jm_get laneKey (lanes s) = Some lane) then
    let k := kind (laneAt s lane) in
    let s := set_lanes (jm_del laneKey (lanes s)) s in
    let s := set_ready (jm_del laneKey (readyLanes s)) s in
    let retained := jm_set laneKey (nextRunAt (laneAt s lane))
                      (jm_del laneKey (kget (cooldowns s) k)) in
    let s := set_cooldowns (kset (cooldowns s) k retained) s in
    let s := forgetOldest (length retained) k s in
    scheduleRetainedCooldownCleanup now k s
  else s.

Definition removeLaneIfIdle (now : Z) (laneKey : string) (lane : nat) (s : st) : st :=
  let l := laneAt s lane in
  if running l || bool_decide (is_Some (timer l)) || (0 <? length (pendingEvents l))%nat ||
     negb (bool_decide (jm_get laneKey (lanes s) = Some lane))
  then s
  else if now <? nextRunAt l then retainLaneCooldown now laneKey lane s
  else
    let s := set_lanes (jm_del laneKey (lanes s)) s in
    let s := set_ready (jm_del laneKey (readyLanes s)) s in
    upd_count (kind l) (bump_known (-1)) s.

(** The [for] loop of [expireRetainedCooldowns]: drops entries up to the first
    deadline in the future and counts them. *)
Fixpoint expireEntries (now : Z) (retained : list (string * Z)) : list (string * Z) * Z :=
  match retained with
  | [] => ([], 0)
  | (laneKey, deadline) :: rest =>
      if now <? deadline then (retained, 0)
      else let '(rest', n) := expireEntries now rest in (rest', n + 1)
  end.

Definition expireRetainedCooldowns (now : Z) (k : LaneKind) (s : st) : st :=
  let '(retained, expiredCount) := expireEntries now (kget (cooldowns s) k) in
  let s := set_cooldowns (kset (cooldowns s) k retained) s in
  let s := if 0 <? expiredCount then upd_count k (bump_known (- expiredCount)) s else s in
  scheduleRetainedCooldownCleanup now k s.

Definition clearLanePending (lane : nat) (s : st) : st :=
  let l := laneAt s lane in
  let s := upd_count (kind l) (bump_events (- Z.of_nat (length (pendingEvents l)))) s in
  let s := upd_count (kind l) (bump_signals (- pendingSignalCount l)) s in
  let s := upd_queue (kind l) (fun q =>
             fold_left (fun q p => remove (priceAt s) q p) (jm_values (pendingEvents l)) q) s in
  upd_lane lane (lane_pending [] 0) s.

(** [setTimeout] of [scheduleLane]. *)
Definition scheduleLane (now : Z) (laneKey : string) (lane : nat) (callback : C) (delayMs : Z)
    (s : st) : st :=
  let '(t, s) := setTimer (now + delayMs) (LaneTimer laneKey lane callback) s in
  upd_lane lane (lane_timer (Some t)) s.

(** Up to the point where the pass awaits its first callback. *)
Definition startLane (laneKey : string) (lane : nat) (callback : C) (s : st) : st :=
  if stopped s then s
  else match pendingEvents (laneAt s lane) with
  | [] => s
  | _ :: _ =>
      if maxConcurrentPasses o <=? activePassCount s then
        set_ready (jm_set laneKey (lane, callback) (readyLanes s)) s
      else
        let s := set_ready (jm_del laneKey (readyLanes s)) s in
        let events := omap (fun p => pe_event <$> pend s !! p)
                           (jm_values (pendingEvents (laneAt s lane))) in
        let k := kind (laneAt s lane) in
        let s := clearLanePending lane s in
        let s := upd_lane lane (lane_running true) s in
        let s := set_active (activePassCount s + 1) s in
        let s := upd_count k (bump_active 1) s in
        set_nextAddr (S (nextAddr s))
          (set_passes (passes s ++ [(nextAddr s, {| pass_laneKey := laneKey; pass_lane := lane;
             pass_callback := callback; pass_events := events |})]) s)
  end.

(** The loop of [startReadyLanes]; each round takes one entry off the queue. *)
Fixpoint startReadyLanes (fuel : nat) (now : Z) (s : st) : st :=
  match fuel with
  | O => s
  | S fuel =>
      if negb (stopped s) && (activePassCount s <? maxConcurrentPasses o) then
        match readyLanes s with
        | [] => s
        | (laneKey, (lane, callback)) :: _ =>
            let s := set_ready (jm_del laneKey (readyLanes s)) s in
            let l := laneAt s lane in
            if running l || bool_decide (is_Some (timer l)) ||
               (length (pendingEvents l) =? 0)%nat
            then startReadyLanes fuel now (removeLaneIfIdle now laneKey lane s)
            else startReadyLanes fuel now (startLane laneKey lane callback s)
        end
      else s
  end.

(** The [finally] block of a pass. *)
Definition finishPass (now : Z) (passId : nat) (s : st) : st :=
  match jm_get passId (passes s) with
  | None => s
  | Some pass =>
      let laneKey := pass_laneKey pass in
      let lane := pass_lane pass in
      let k := kind (laneAt s lane) in
      let s := set_passes (jm_del passId (passes s)) s in
      let s := upd_lane lane (lane_running false) s in
      let s := set_active (Z.max 0 (activePassCount s - 1)) s in
      let s := upd_count k (bump_active (-1)) s in
      if stopped s then upd_lane lane (lane_timer None) (clearLanePending lane s)
      else
        let s := upd_lane lane (lane_nextRunAt (now + getCooldownMs k)) s in
        let s := if (0 <? length (pendingEvents (laneAt s lane)))%nat
                 then scheduleLane now laneKey lane (pass_callback pass) (getCooldownMs k) s
                 else retainLaneCooldown now laneKey lane s in
        startReadyLanes (length (readyLanes s)) now s
  end.

(** A timer callback. *)
Definition fireTimer (now : Z) (t : nat) (s : st) : st :=
  match timers s !! t with
  | None => s
  | Some (_, action) =>
      let s := set_timers (delete t (timers s)) s in
      match action with
      | CleanupTimer k =>
          expireRetainedCooldowns now k (set_cleanups (kset (cleanups s) k None) s)
      | LaneTimer laneKey lane callback =>
          let s := upd_lane lane (lane_timer None) s in
          if stopped s then s
          else if running (laneAt s lane) then s
          else if (0 <? length (pendingEvents (laneAt s lane)))%nat
          then startLane laneKey lane callback s
          else removeLaneIfIdle now laneKey lane s
      end
  end.

(** [getLane(marketEvent)]: the lane's address. *)
Definition getLane (e : MarketEvent) (s : st) : nat * st :=
  let laneKey := createLaneKey e in
  match jm_get laneKey (lanes s) with
  | Some lane => (lane, s)
  | None =>
      let k := kindOfEvent e in
      let '(retainedCooldownDeadline, s) := takeRetainedCooldown k laneKey s in
      let lane := nextAddr s in
      let s := set_nextAddr (S (nextAddr s)) s in
      let s := set_laneObj (<[lane := {| running := false; pendingEvents := [];
                 pendingSignalCount := 0; nextRunAt := default 0 retainedCooldownDeadline;
                 timer := None; kind := k |}]> (laneObj s)) s in
      let s := set_lanes (jm_set laneKey lane (lanes s)) s in
      let s := match retainedCooldownDeadline with
               | None => upd_count k (bump_known 1) s
               | Some _ => s
               end in
      (lane, s)
  end.

(** Takes a pending event out of its lane, the index and the counters. *)
Definition detachPending (k : LaneKind) (r : PendingEventReference) (s : st) : st :=
  let lane := ref_lane r in
  let count := signalCountAt s (ref_pending r) in
  let s := upd_lane lane (fun l => lane_pending (jm_del (ref_signature r) (pendingEvents l))
             (pendingSignalCount l) l) s in
  let s := upd_queue k (fun q => remove (priceAt s) q (ref_pending r)) s in
  let s := upd_lane lane (fun l => lane_pending (pendingEvents l)
             (Z.max 0 (pendingSignalCount l - count)) l) s in
  let s := upd_count k (bump_events (-1)) s in
  upd_count k (bump_signals (- count)) s.

(** Cancels the timer of a lane that is left without work. *)
Definition cancelIdleTimer (lane : nat) (s : st) : st :=
  let l := laneAt s lane in
  if (length (pendingEvents l) =? 0)%nat && negb (running l) && bool_decide (is_Some (timer l))
  then upd_lane lane (lane_timer None) (clearTimer (timer l) s)
  else s.

(** Evicts the weakest pending event of a kind to make room for one of
    [laneKey]. *)
Definition evict (now : Z) (k : LaneKind) (laneKey : string) (weakest : PendingEventReference)
    (s : st) : st :=
  let lane := ref_lane weakest in
  let eventType := match pend s !! ref_pending weakest with
                   | Some x => ev_type (pe_event x)
                   | None => CollectionOffer
                   end in
  let s := onSignal k eventType Evicted (detachPending k weakest s) in
  if negb (String.eqb (ref_laneKey weakest) laneKey) then
    removeLaneIfIdle now (ref_laneKey weakest) lane (cancelIdleTimer lane s)
  else s.

Definition reservePendingSignature (now : Z) (k : LaneKind) (laneKey : string) (e : MarketEvent)
    (s : st) : bool * st :=
  if pendingEventCount (kget (counts s) k) <? getMaxPendingSignatures k then (true, s)
  else match peek (kget (queues s) k) with
       | None => (false, onSignal k (ev_type e) Dropped s)
       | Some weakest =>
           if getUnitPrice e <=? priceAt s (ref_pending weakest)
           then (false, onSignal k (ev_type e) Dropped s)
           else (true, evict now k laneKey weakest s)
       end.

(** Folds the event into an already pending one of the same signature. *)
Definition coalesce (k : LaneKind) (p : nat) (e : MarketEvent) (s : st) : st :=
  let s := set_pend (alter (fun x => {|
             pe_event := selectConservativeEvent (Some (pe_event x)) e;
             pe_signalCount := pe_signalCount x + 1;
             pe_firstQueuedAt := pe_firstQueuedAt x |}) p (pend s)) s in
  upd_queue k (fun q => update (priceAt s) q p) s.

(** Adds a fresh pending event to a lane and to the index. *)
Definition enqueue (now : Z) (laneKey : string) (lane : nat) (signature : string) (e : MarketEvent)
    (s : st) : st :=
  let p := nextAddr s in
  let k := kind (laneAt s lane) in
  let s := set_nextAddr (S p) s in
  let s := set_pend (<[p := {| pe_event := e; pe_signalCount := 1; pe_firstQueuedAt := now |}]>
             (pend s)) s in
  let s := upd_lane lane (fun l => lane_pending (jm_set signature p (pendingEvents l))
             (pendingSignalCount l) l) s in
  let s := upd_queue k (fun q => add (priceAt s) q {| ref_laneKey := laneKey; ref_lane := lane;
             ref_signature := signature; ref_pending := p |}) s in
  upd_count k (bump_events 1) s.

(** The end of [queueEvent]: run the lane now, later, or leave it to whoever
    holds it. *)
Definition wakeLane (now : Z) (laneKey : string) (lane : nat) (callback : C) (s : st) : st :=
  let l := laneAt s lane in
  if running l || bool_decide (is_Some (timer l)) then s
  else
    let delayMs := Z.max 0 (nextRunAt l - now) in
    if 0 <? delayMs then scheduleLane now laneKey lane callback delayMs s
    else startLane laneKey lane callback s.

Definition queueEvent (now : Z) (e : MarketEvent) (callback : C) (s : st) : st :=
  if stopped s then s
  else
    let laneKey := createLaneKey e in
    let k := kindOfEvent e in
    let signature := createEventSignature e in
    let found := jm_get laneKey (lanes s) in
    let existingPending := lane ← found; jm_get signature (pendingEvents (laneAt s lane)) in
    let '(admitted, s) := match existingPending with
                          | Some _ => (true, s)
                          | None => reservePendingSignature now k laneKey e s
                          end in
    if negb admitted then s
    else
      let '(lane, s) := match found with Some lane => (lane, s) | None => getLane e s end in
      let k := kind (laneAt s lane) in
      let s := match existingPending with
               | Some p => coalesce k p e s
               | None => enqueue now laneKey lane signature e s
               end in
      let s := upd_count k (bump_signals 1) s in
      let s := upd_lane lane (fun l =>
                 lane_pending (pendingEvents l) (pendingSignalCount l + 1) l) s in
      let s := onSignal k (ev_type e)
                 (match existingPending with Some _ => Coalesced | None => Queued end) s in
      wakeLane now laneKey lane callback s.

(** The stage's callback: unsupported events pass straight through ([true]). *)
Definition onMarketEvent (now : Z) (e : MarketEvent) (callback : C) (s : st) : bool * st :=
  if stopped s then (false, s)
  else if negb (isSupportedHotRefreshEvent e) then (true, s)
  else (false, queueEvent now e callback s).

(** One round of the loop over the kinds of [clearRetainedCooldownLanes]. *)
Definition clearRetainedOf (k : LaneKind) (s : st) : st :=
  let s := match kget (cleanups s) k with
           | Some t => set_cleanups (kset (cleanups s) k None) (clearTimer (Some t) s)
           | None => s
           end in
  let s := upd_count k (bump_known (- Z.of_nat (length (kget (cooldowns s) k)))) s in
  set_cooldowns (kset (cooldowns s) k []) s.

Definition clearRetainedCooldownLanes (s : st) : st :=
  fold_left (fun s k => clearRetainedOf k s) [Broad; Item] s.

(** The body of the loop of [stop()] over the lanes. *)
Definition drainLane (lane : nat) (s : st) : st :=
  let s := clearTimer (timer (laneAt s lane)) s in
  let s := upd_lane lane (lane_timer None) s in
  clearLanePending lane s.

(** [stop()] up to its [await]. *)
Definition stopBegin (s : st) : st :=
  let s := set_stopped true s in
  let s := set_ready [] s in
  let s := clearRetainedCooldownLanes s in
  fold_left (fun s lane => drainLane lane s) (jm_values (lanes s)) s.

(** [stop()] after every active pass has settled. *)
Definition stopFinish (s : st) : st :=
  let s := set_lanes [] s in
  let s := set_active 0 s in
  let s := set_queues (kboth empty_queue) s in
  set_counts (kboth createEmptyLaneState) s.

(** The constructor's validation. *)
Definition create : result st :=
  if broadCooldownMs o <=? 0 then Err "[HotRefreshBackpressure] broadCooldownMs must be > 0."
  else if itemCooldownMs o <=? 0 then Err "[HotRefreshBackpressure] itemCooldownMs must be > 0."
  else if broadMaxPendingSignatures o <=? 0 then
    Err "[HotRefreshBackpressure] broadMaxPendingSignatures must be an integer > 0."
  else if itemMaxPendingSignatures o <=? 0 then
    Err "[HotRefreshBackpressure] itemMaxPendingSignatures must be an integer > 0."
  else if maxConcurrentPasses o <=? 0 then
    Err "[HotRefreshBackpressure] maxConcurrentPasses must be an integer > 0."
  else Ok initial.

(** ** The event loop *)

Inductive step : st -> st -> Prop :=
  | step_event now e callback s : step s (snd (onMarketEvent now e callback s))
  | step_timer now t due action s :
      timers s !! t = Some (due, action) -> due <= now -> step s (fireTimer now t s)
  | step_pass now passId s : is_Some (jm_get passId (passes s)) -> step s (finishPass now passId s)
  | step_stop s : step s (stopBegin s)
  | step_stopped s : stopped s = true -> passes s = [] -> step s (stopFinish s).

Inductive reachable : st -> Prop :=
  | reachable_create s : create = Ok s -> reachable s
  | reachable_step s s' : reachable s -> step s s' -> reachable s'.

End Ops.
End Machine.

Arguments st : clear implicits.
Arguments TimerAction : clear implicits.
Arguments Pass : clear implicits.

End HotRefresh.
