(* ===== verification/HotRefreshInv.v ===== *)
(** * Invariants of the hot-refresh backpressure

    The well-formedness of a state of [HotRefresh], group by group: the lane and
    pending-event stores, the weakest-event indexes, the reported counters, the
    passes in flight, the timers, the ready queue and the retained cooldowns;
    and the lemmas that say how each primitive operation acts on a group. *)

From stdpp Require Import gmap.
From S2P Require Import Prelude JsValue Domain PendingQueue HotRefresh.

Open Scope Z_scope.

Module HotRefreshInv.
Import PendingQueue HotRefresh.

(** ** Generic facts *)

Lemma kget_kset {A} (m : byKind A) k k' v :
  kget (kset m k v) k' = if decide (k = k') then v else kget m k'.
Proof. by destruct k, k'. Qed.

Lemma kget_kset_eq {A} (m : byKind A) k v : kget (kset m k v) k = v.
Proof. by destruct k. Qed.

Lemma kget_kset_ne {A} (m : byKind A) k k' v : k <> k' -> kget (kset m k v) k' = kget m k'.
Proof. intros. rewrite kget_kset. by rewrite decide_False. Qed.

Lemma kset_kset {A} (m : byKind A) k v w : kset (kset m k v) k w = kset m k w.
Proof. by destruct k. Qed.

Lemma kget_kboth {A} (v : A) k : kget (kboth v) k = v.
Proof. by destruct k. Qed.

(** The kind a lane key names. *)
Definition key_kind (laneKey : string) : LaneKind :=
  match laneKey with
  | String c _ => if Ascii.eqb c "i" then Item else Broad
  | EmptyString => Broad
  end.

Lemma key_kind_event e :
  isSupportedHotRefreshEvent e = true -> key_kind (createLaneKey e) = kindOfEvent e.
Proof.
  unfold isSupportedHotRefreshEvent, kindOfEvent, isBroadHotRefreshEvent, createLaneKey.
  by destruct (ev_scope e).
Qed.

Section Inv.
Context {C : Type}.
Implicit Types s : st C.

Lemma laneAt_upd s a f b :
  laneAt (upd_lane a f s) b =
  if decide (b = a) then match laneObj s !! a with Some l => f l | None => emptyLane end
  else laneAt s b.
Proof.
  unfold laneAt, upd_lane. simpl. case_decide; subst.
  - rewrite lookup_alter_eq. by destruct (laneObj s !! a).
  - by rewrite lookup_alter_ne.
Qed.

Lemma laneAt_upd_eq s a f :
  is_Some (laneObj s !! a) -> laneAt (upd_lane a f s) a = f (laneAt s a).
Proof. intros [l Hl]. rewrite laneAt_upd, decide_True by done. unfold laneAt. by rewrite Hl. Qed.

Lemma laneAt_upd_ne s a f b : b <> a -> laneAt (upd_lane a f s) b = laneAt s b.
Proof. intros. by rewrite laneAt_upd, decide_False. Qed.

Lemma laneObj_upd s a f b :
  is_Some (laneObj (upd_lane a f s) !! b) <-> is_Some (laneObj s !! b).
Proof.
  unfold upd_lane. simpl. destruct (decide (a = b)) as [->|].
  - rewrite lookup_alter_eq. destruct (laneObj s !! b); simpl; unfold is_Some; naive_solver.
  - by rewrite lookup_alter_ne.
Qed.

(** ** Sums over the live lanes *)

Definition lane_sum (f : HotRefreshLane -> Z) s : Z :=
  jm_sum (fun a => f (laneAt s a)) (lanes s).

Definition on (k : LaneKind) (f : HotRefreshLane -> Z) (l : HotRefreshLane) : Z :=
  if decide (kind l = k) then f l else 0.

Definition size_of (l : HotRefreshLane) : Z := Z.of_nat (length (pendingEvents l)).

Definition run_of (l : HotRefreshLane) : Z := if running l then 1 else 0.

Definition one_of (l : HotRefreshLane) : Z := 1.

Lemma jm_sum_update {K V} `{EqDecision K} (f g : V -> Z) (m : list (K * V)) k v :
  jm_wf m -> jm_get k m = Some v ->
  (forall k' v', k' <> k -> jm_get k' m = Some v' -> f v' = g v') ->
  jm_sum g m = jm_sum f m - f v + g v.
Proof.
  unfold jm_wf, jm_keys. induction m as [|[k1 v1] m IH]; simpl; [done|].
  intros [Hni Hnd]%NoDup_cons Hget Hext. case_decide; subst.
  - injection Hget as ->. rewrite (jm_sum_ext g f m); [lia|].
    intros k' v' Hin. apply jm_In_get in Hin as Hg; [|done].
    assert (k' <> k1).
    { intros ->. apply Hni, list_elem_of_In. by apply (in_map fst) in Hin. }
    symmetry. apply (Hext k'); [done|]. by rewrite decide_False.
  - rewrite IH; [|done|done|].
    + rewrite (Hext k1 v1); [lia|done|]. by rewrite decide_True.
    + intros k' v' Hk' Hg. destruct (decide (k' = k1)) as [->|Hne].
      * exfalso. apply Hni, list_elem_of_In. by eapply jm_get_Some_key.
      * apply (Hext k'); [done|]. by rewrite decide_False.
Qed.

Definition lanes_ok s : Prop :=
  jm_wf (lanes s) /\
  (forall k1 k2 a, jm_get k1 (lanes s) = Some a -> jm_get k2 (lanes s) = Some a -> k1 = k2) /\
  (forall key a, jm_get key (lanes s) = Some a ->
     is_Some (laneObj s !! a) /\ kind (laneAt s a) = key_kind key).

Lemma lane_sum_upd f s key a g :
  lanes_ok s -> jm_get key (lanes s) = Some a ->
  lane_sum f (upd_lane a g s) = lane_sum f s - f (laneAt s a) + f (g (laneAt s a)).
Proof.
  intros (Hwf & Hinj & Hobj) Hget. unfold lane_sum.
  rewrite <- (laneAt_upd_eq s a g) by (by apply (Hobj key)).
  apply (jm_sum_update (fun b => f (laneAt s b)) (fun b => f (laneAt (upd_lane a g s) b))
           (lanes s) key a); [done|done|].
  intros k' b Hk' Hb. rewrite laneAt_upd_ne; [done|]. intros ->. eauto.
Qed.

Lemma lane_sum_eq f s s' :
  lanes s' = lanes s -> laneObj s' = laneObj s -> lane_sum f s' = lane_sum f s.
Proof. intros E1 E2. unfold lane_sum, laneAt. by rewrite E1, E2. Qed.

Lemma lane_sum_del f s key a :
  lanes_ok s -> jm_get key (lanes s) = Some a ->
  jm_sum (fun b => f (laneAt s b)) (jm_del key (lanes s)) = lane_sum f s - f (laneAt s a).
Proof.
  intros (Hwf & _) Hget. rewrite jm_sum_del by done. by rewrite Hget.
Qed.

Lemma lane_sum_nonneg f s :
  (forall key a, jm_get key (lanes s) = Some a -> 0 <= f (laneAt s a)) -> jm_wf (lanes s) ->
  0 <= lane_sum f s.
Proof.
  unfold lane_sum, jm_wf, jm_keys. induction (lanes s) as [|[k b] m IH]; simpl; [lia|].
  intros Hf [Hni Hnd]%NoDup_cons.
  assert (0 <= f (laneAt s b)) by (apply (Hf k); by rewrite decide_True).
  assert (0 <= jm_sum (fun a => f (laneAt s a)) m); [|lia].
  apply IH; [|done]. intros key a Hg. apply (Hf key). rewrite decide_False; [done|].
  intros ->. apply Hni, list_elem_of_In. by eapply jm_get_Some_key.
Qed.

Lemma lane_sum_pos f s key a :
  (forall key a, jm_get key (lanes s) = Some a -> 0 <= f (laneAt s a)) -> jm_wf (lanes s) ->
  jm_get key (lanes s) = Some a -> f (laneAt s a) <= lane_sum f s.
Proof.
  intros Hf Hwf Hget.
  assert (0 <= lane_sum f (set_lanes (jm_del key (lanes s)) s)) as H.
  { apply lane_sum_nonneg; simpl; [|by apply jm_wf_del].
    intros key' b. rewrite jm_get_del. case_decide; [done|]. apply Hf. }
  unfold lane_sum in H |- *. simpl in H. unfold laneAt in H at 1. simpl in H.
  change (0 <= jm_sum (fun a => f (laneAt s a)) (jm_del key (lanes s))) in H.
  rewrite jm_sum_del, Hget in H by done. simpl in H. lia.
Qed.

(** ** Ownership of pending events *)

(** The reference the index holds for a pending event of a live lane. *)
Definition owns s (k : LaneKind) (r : PendingEventReference) : Prop :=
  jm_get (ref_laneKey r) (lanes s) = Some (ref_lane r) /\
  kind (laneAt s (ref_lane r)) = k /\
  jm_get (ref_signature r) (pendingEvents (laneAt s (ref_lane r))) = Some (ref_pending r).

Record pending_ok s : Prop := {
  po_wf : forall key a, jm_get key (lanes s) = Some a -> jm_wf (pendingEvents (laneAt s a));
  po_store : forall k r, owns s k r ->
               exists x, pend s !! ref_pending r = Some x /\ 1 <= pe_signalCount x;
  po_inj : forall k1 k2 r1 r2, owns s k1 r1 -> owns s k2 r2 ->
             ref_pending r1 = ref_pending r2 -> r1 = r2;
  po_heap : forall k r, r ∈ heap (kget (queues s) k) <-> owns s k r;
  po_queue : forall k, queue_ok (priceAt s) (kget (queues s) k);
  po_signals : forall key a, jm_get key (lanes s) = Some a ->
    pendingSignalCount (laneAt s a) = jm_sum (signalCountAt s) (pendingEvents (laneAt s a));
}.

Record counts_ok s : Prop := {
  co_events : forall k, pendingEventCount (kget (counts s) k) = lane_sum (on k size_of) s;
  co_signals : forall k, pendingSignals (kget (counts s) k) = lane_sum (on k pendingSignalCount) s;
  co_active : forall k, activeLanes (kget (counts s) k) = lane_sum (on k run_of) s;
  co_known : forall k, knownLanes (kget (counts s) k) =
    lane_sum (on k one_of) s + Z.of_nat (length (kget (cooldowns s) k));
  co_passes : activePassCount s = lane_sum run_of s;
}.

Record passes_ok s : Prop := {
  pa_wf : jm_wf (passes s);
  pa_lane : forall i p, jm_get i (passes s) = Some p ->
    jm_get (pass_laneKey p) (lanes s) = Some (pass_lane p) /\
    running (laneAt s (pass_lane p)) = true;
  pa_inj : forall i j p q, jm_get i (passes s) = Some p -> jm_get j (passes s) = Some q ->
    pass_lane p = pass_lane q -> i = j;
  pa_count : activePassCount s = Z.of_nat (length (passes s));
}.

Record timers_ok s : Prop := {
  ti_lane : forall t due key a cb, timers s !! t = Some (due, LaneTimer key a cb) ->
    jm_get key (lanes s) = Some a /\ timer (laneAt s a) = Some t;
  ti_timer : forall key a t, jm_get key (lanes s) = Some a -> timer (laneAt s a) = Some t ->
    exists due cb, timers s !! t = Some (due, LaneTimer key a cb);
  ti_running : forall key a, jm_get key (lanes s) = Some a -> running (laneAt s a) = true ->
    timer (laneAt s a) = None;
  ti_cleanup : forall t due k, timers s !! t = Some (due, CleanupTimer k) ->
    kget (cleanups s) k = Some t;
  ti_cleanup_timer : forall k t, kget (cleanups s) k = Some t ->
    exists due, timers s !! t = Some (due, CleanupTimer k);
}.

Definition fresh_ok s : Prop :=
  forall a, (nextAddr s <= a)%nat ->
    pend s !! a = None /\ laneObj s !! a = None /\ timers s !! a = None /\
    jm_get a (passes s) = None.

Definition ready_ok s : Prop :=
  jm_wf (readyLanes s) /\
  forall key a cb, jm_get key (readyLanes s) = Some (a, cb) ->
    jm_get key (lanes s) = Some a /\ running (laneAt s a) = false.

Record cooldowns_ok (o : HotRefreshBackpressureOptions) s : Prop := {
  cd_wf : forall k, jm_wf (kget (cooldowns s) k);
  cd_apart : forall k key d, jm_get key (kget (cooldowns s) k) = Some d ->
    key_kind key = k /\ jm_get key (lanes s) = None;
  cd_bound : forall k, Z.of_nat (length (kget (cooldowns s) k)) <= getMaxPendingSignatures o k;
  cd_cleanup : forall k, stopped s = false -> kget (cooldowns s) k <> [] ->
    is_Some (kget (cleanups s) k);
}.

(** What holds between any two primitive operations. *)
Record core (o : HotRefreshBackpressureOptions) s : Prop := {
  core_lanes : lanes_ok s;
  core_fresh : fresh_ok s;
  core_pending : pending_ok s;
  core_counts : counts_ok s;
  core_passes : passes_ok s;
  core_timers : timers_ok s;
  core_ready : ready_ok s;
  core_cooldowns : cooldowns_ok o s;
}.

(** Options the constructor accepts. *)
Definition options_ok (o : HotRefreshBackpressureOptions) : Prop :=
  0 < broadCooldownMs o /\ 0 < itemCooldownMs o /\ 0 < broadMaxPendingSignatures o /\
  0 < itemMaxPendingSignatures o /\ 0 < maxConcurrentPasses o.

(** What additionally holds between two turns of the event loop; [ex] is a lane
    key the running operation has not dealt with yet. *)
Record quiet (o : HotRefreshBackpressureOptions) (ex : option string) s : Prop := {
  qu_served : forall key a, jm_get key (lanes s) = Some a -> Some key <> ex ->
    pendingEvents (laneAt s a) <> [] ->
    running (laneAt s a) = true \/ is_Some (timer (laneAt s a)) \/
    is_Some (jm_get key (readyLanes s));
  qu_busy : forall key a, jm_get key (lanes s) = Some a -> Some key <> ex ->
    running (laneAt s a) = true \/ pendingEvents (laneAt s a) <> [];
}.

Definition full (o : HotRefreshBackpressureOptions) s : Prop :=
  readyLanes s <> [] -> maxConcurrentPasses o <= activePassCount s.

Record bounded (o : HotRefreshBackpressureOptions) s : Prop := {
  bo_events : forall k, lane_sum (on k size_of) s <= getMaxPendingSignatures o k;
  bo_passes : activePassCount s <= maxConcurrentPasses o;
}.

(** What [stop] leaves behind. *)
Record drained s : Prop := {
  dr_lane : forall key a, jm_get key (lanes s) = Some a ->
    pendingEvents (laneAt s a) = [] /\ timer (laneAt s a) = None;
  dr_ready : readyLanes s = [];
  dr_cooldowns : forall k, kget (cooldowns s) k = [];
  dr_cleanups : forall k, kget (cleanups s) k = None;
}.

Record inv (o : HotRefreshBackpressureOptions) s : Prop := {
  inv_core : core o s;
  inv_bounded : bounded o s;
  inv_live : forall k,
    lane_sum (on k one_of) s <= getMaxPendingSignatures o k + maxConcurrentPasses o;
  inv_quiet : stopped s = false -> quiet o None s /\ full o s;
  inv_stopped : stopped s = true -> drained s;
}.

(** ** Frame lemmas: a group survives changes to what it does not read *)

Definition laneIn (m : gmap nat HotRefreshLane) (a : nat) : HotRefreshLane :=
  match m !! a with Some l => l | None => emptyLane end.

Lemma laneAt_laneIn s a : laneAt s a = laneIn (laneObj s) a.
Proof. done. Qed.

Lemma laneIn_alter_pres {B} (g : HotRefreshLane -> B) f a m b :
  (forall l, g (f l) = g l) -> g (laneIn (alter f a m) b) = g (laneIn m b).
Proof.
  intros Hg. unfold laneIn. destruct (decide (a = b)) as [->|].
  - rewrite lookup_alter_eq. destruct (m !! b); simpl; auto.
  - by rewrite lookup_alter_ne.
Qed.

Definition laneIn_kind := @laneIn_alter_pres _ kind.
Definition laneIn_pending := @laneIn_alter_pres _ pendingEvents.
Definition laneIn_signals := @laneIn_alter_pres _ pendingSignalCount.
Definition laneIn_running := @laneIn_alter_pres _ running.
Definition laneIn_timer := @laneIn_alter_pres _ timer.

Lemma laneIn_alter_dom f a (m : gmap nat HotRefreshLane) b :
  is_Some (alter f a m !! b) <-> is_Some (m !! b).
Proof.
  destruct (decide (a = b)) as [->|]; [rewrite lookup_alter_eq|by rewrite lookup_alter_ne].
  destruct (m !! b); simpl; unfold is_Some; naive_solver.
Qed.

Lemma lanes_ok_ext s s' :
  lanes s' = lanes s -> (forall a, is_Some (laneObj s' !! a) <-> is_Some (laneObj s !! a)) ->
  (forall a, kind (laneAt s' a) = kind (laneAt s a)) -> lanes_ok s -> lanes_ok s'.
Proof.
  intros E1 E2 E3 (H1 & H2 & H3). unfold lanes_ok. rewrite E1. split_and!; [done|done|].
  intros key a Hg. rewrite E2, E3. eauto.
Qed.

Lemma owns_ext s s' k r :
  lanes s' = lanes s -> (forall a, kind (laneAt s' a) = kind (laneAt s a)) ->
  (forall a, pendingEvents (laneAt s' a) = pendingEvents (laneAt s a)) ->
  owns s' k r <-> owns s k r.
Proof. intros E1 E2 E3. unfold owns. by rewrite E1, E2, E3. Qed.

Lemma pending_ok_ext s s' :
  lanes s' = lanes s -> pend s' = pend s -> queues s' = queues s ->
  (forall a, kind (laneAt s' a) = kind (laneAt s a)) ->
  (forall a, pendingEvents (laneAt s' a) = pendingEvents (laneAt s a)) ->
  (forall a, pendingSignalCount (laneAt s' a) = pendingSignalCount (laneAt s a)) ->
  pending_ok s -> pending_ok s'.
Proof.
  intros E1 E2 E3 E4 E5 E6 [].
  assert (forall k r, owns s' k r <-> owns s k r) as Ho by (intros; by apply owns_ext).
  assert (priceAt s' = priceAt s) as E7 by (unfold priceAt; by rewrite E2).
  assert (signalCountAt s' = signalCountAt s) as E8 by (unfold signalCountAt; by rewrite E2).
  split.
  - intros key a. rewrite E1, E5. eauto.
  - intros k r. rewrite Ho, E2. eauto.
  - intros k1 k2 r1 r2. rewrite !Ho. eauto.
  - intros k r. by rewrite Ho, E3.
  - intros k. by rewrite E7, E3.
  - intros key a. rewrite E1, E5, E6, E8. eauto.
Qed.

Lemma lane_sum_ext f s s' :
  lanes s' = lanes s -> (forall a, f (laneAt s' a) = f (laneAt s a)) ->
  lane_sum f s' = lane_sum f s.
Proof. intros E1 E2. unfold lane_sum. rewrite E1. by apply jm_sum_ext. Qed.

Lemma counts_ok_ext s s' :
  lanes s' = lanes s -> counts s' = counts s -> cooldowns s' = cooldowns s ->
  activePassCount s' = activePassCount s ->
  (forall a, kind (laneAt s' a) = kind (laneAt s a)) ->
  (forall a, pendingEvents (laneAt s' a) = pendingEvents (laneAt s a)) ->
  (forall a, pendingSignalCount (laneAt s' a) = pendingSignalCount (laneAt s a)) ->
  (forall a, running (laneAt s' a) = running (laneAt s a)) ->
  counts_ok s -> counts_ok s'.
Proof.
  intros E1 E2 E3 E4 E5 E6 E7 E8 [].
  split; rewrite ?E2, ?E3, ?E4; intros; rewrite (lane_sum_ext _ s s'); auto;
    intros a; unfold on, size_of, run_of, one_of; by rewrite ?E5, ?E6, ?E7, ?E8.
Qed.

Lemma passes_ok_ext s s' :
  lanes s' = lanes s -> passes s' = passes s -> activePassCount s' = activePassCount s ->
  (forall a, running (laneAt s' a) = running (laneAt s a)) -> passes_ok s -> passes_ok s'.
Proof.
  intros E1 E2 E3 E4 []. split; rewrite ?E1, ?E2, ?E3; try done.
  intros i p. rewrite E4. eauto.
Qed.

Lemma timers_ok_ext s s' :
  lanes s' = lanes s -> timers s' = timers s -> cleanups s' = cleanups s ->
  (forall a, timer (laneAt s' a) = timer (laneAt s a)) ->
  (forall a, running (laneAt s' a) = running (laneAt s a)) -> timers_ok s -> timers_ok s'.
Proof.
  intros E1 E2 E3 E4 E5 []. split; rewrite ?E1, ?E2, ?E3; try done; intros *;
    rewrite ?E4, ?E5; eauto.
Qed.

Lemma fresh_ok_ext s s' :
  (nextAddr s <= nextAddr s')%nat -> pend s' = pend s ->
  (forall a, is_Some (laneObj s' !! a) <-> is_Some (laneObj s !! a)) ->
  timers s' = timers s -> passes s' = passes s -> fresh_ok s -> fresh_ok s'.
Proof.
  intros E1 E2 E3 E4 E5 H a Ha. rewrite E2, E4, E5.
  destruct (H a ltac:(lia)) as (? & Hl & ? & ?). split_and!; try done.
  apply eq_None_not_Some. rewrite E3. by rewrite <- eq_None_not_Some.
Qed.

Lemma ready_ok_ext s s' :
  lanes s' = lanes s -> readyLanes s' = readyLanes s ->
  (forall a, running (laneAt s' a) = running (laneAt s a)) -> ready_ok s -> ready_ok s'.
Proof.
  intros E1 E2 E3 [H1 H2]. unfold ready_ok. rewrite E1, E2. split; [done|].
  intros key a cb. rewrite E3. eauto.
Qed.

Lemma cooldowns_ok_ext o s s' :
  lanes s' = lanes s -> cooldowns s' = cooldowns s -> cleanups s' = cleanups s ->
  stopped s' = stopped s -> cooldowns_ok o s -> cooldowns_ok o s'.
Proof. intros E1 E2 E3 E4 []. by split; rewrite ?E1, ?E2, ?E3, ?E4. Qed.

Lemma quiet_ext o ex s s' :
  lanes s' = lanes s -> readyLanes s' = readyLanes s ->
  (forall a, pendingEvents (laneAt s' a) = pendingEvents (laneAt s a)) ->
  (forall a, timer (laneAt s' a) = timer (laneAt s a)) ->
  (forall a, running (laneAt s' a) = running (laneAt s a)) -> quiet o ex s -> quiet o ex s'.
Proof.
  intros E1 E2 E3 E4 E5 []. split; rewrite E1, ?E2; intros key a; rewrite E3, E5, ?E4; eauto.
Qed.

Lemma bounded_ext o s s' :
  lanes s' = lanes s -> activePassCount s' = activePassCount s ->
  (forall a, kind (laneAt s' a) = kind (laneAt s a)) ->
  (forall a, pendingEvents (laneAt s' a) = pendingEvents (laneAt s a)) ->
  bounded o s -> bounded o s'.
Proof.
  intros E1 E2 E3 E4 []. split; rewrite ?E2; [|done]. intros k.
  rewrite (lane_sum_ext _ s s'); [done|done|]. intros a. unfold on, size_of. by rewrite E3, E4.
Qed.

End Inv.

#[global] Arguments laneIn : simpl never.

(** Discharges the side conditions of the frame lemmas. *)
Ltac frame_side :=
  intros; unfold clearTimer, upd_count, upd_queue, upd_lane in *;
  rewrite ?laneAt_laneIn; simpl;
  rewrite ?laneIn_kind, ?laneIn_pending, ?laneIn_signals, ?laneIn_running, ?laneIn_timer by done;
  rewrite ?laneIn_alter_dom;
  solve [reflexivity | done | lia].

(** Applies the frame lemma of whatever group is at stake. *)
Ltac frame_from s :=
  first [ apply (lanes_ok_ext s) | apply (pending_ok_ext s) | apply (counts_ok_ext s)
        | apply (passes_ok_ext s) | apply (timers_ok_ext s) | apply (fresh_ok_ext s)
        | apply (ready_ok_ext s) | apply (cooldowns_ok_ext _ s) | apply (quiet_ext _ _ s)
        | apply (bounded_ext _ s) ];
  solve [eassumption | frame_side].

End HotRefreshInv.
