(* ===== verification/HotRefreshOps.v ===== *)
(** * Primitive operations of the hot-refresh backpressure and its invariants

    One lemma per primitive (cancel a timer, schedule a lane, drop a lane, retain
    its cooldown, expire cooldowns, clear or evict pending events, start and end
    a pass, open a lane, enqueue, coalesce) saying that the invariant groups of
    [HotRefreshInv] survive it. *)

From stdpp Require Import gmap.
From S2P Require Import Prelude JsValue Domain PendingQueue HotRefresh HotRefreshInv.

Open Scope Z_scope.

Module HotRefreshOps.
Import PendingQueue HotRefresh HotRefreshInv.

Section Ops.
Context {C : Type} (o : HotRefreshBackpressureOptions).
Implicit Types s : st C.

(** Case analysis on whether a lane is the one just updated. *)
Ltac lane_case b a :=
  destruct (decide (b = a)) as [->|];
  [rewrite ?laneAt_upd_eq in * by eauto | rewrite ?laneAt_upd_ne in * by done].

(** Closes a counter equation once the lane sums are expressed over [s]. *)
Ltac counts_solve :=
  simpl; rewrite ?kset_kset, ?kget_kset_eq, ?kget_kset; try case_decide; subst;
  rewrite ?kget_kset_eq; simpl;
  repeat match goal with H : counts_ok _ |- _ => destruct H end;
  repeat match goal with
  | H : forall k, _ (kget (counts _) k) = _ |- _ => rewrite ?H; clear H
  end; unfold size_of, run_of, one_of in *; simpl in *; try lia.

Lemma live_obj s key a : lanes_ok s -> jm_get key (lanes s) = Some a -> is_Some (laneObj s !! a).
Proof. intros (_ & _ & H) Hg. by apply (H key). Qed.

Lemma live_kind s key a :
  lanes_ok s -> jm_get key (lanes s) = Some a -> kind (laneAt s a) = key_kind key.
Proof. intros (_ & _ & H) Hg. by apply (H key). Qed.

Lemma live_inj s k1 k2 a :
  lanes_ok s -> jm_get k1 (lanes s) = Some a -> jm_get k2 (lanes s) = Some a -> k1 = k2.
Proof. intros (_ & H & _). eauto. Qed.

Lemma signals_nonneg s key a :
  pending_ok s -> jm_get key (lanes s) = Some a -> 0 <= pendingSignalCount (laneAt s a).
Proof.
  intros Hp Hg. rewrite (po_signals s Hp key) by done.
  assert (forall sig p, In (sig, p) (pendingEvents (laneAt s a)) -> 0 <= signalCountAt s p) as H.
  { intros sig p Hin. apply jm_In_get in Hin; [|by apply (po_wf s Hp key)].
    destruct (po_store s Hp (kind (laneAt s a))
      {| ref_laneKey := key; ref_lane := a; ref_signature := sig; ref_pending := p |})
      as (x & Hx & ?); [done|]. unfold signalCountAt. simpl in Hx. rewrite Hx. lia. }
  induction (pendingEvents (laneAt s a)) as [|[sig p] m IH]; simpl; [lia|].
  specialize (H sig p ltac:(by left)) as Hp0.
  assert (0 <= jm_sum (signalCountAt s) m); [|lia]. apply IH. intros. eapply H. by right.
Qed.

(** ** Timers *)

Lemma cancelTimer_timers s key a :
  lanes_ok s -> timers_ok s -> jm_get key (lanes s) = Some a ->
  timers_ok (upd_lane a (lane_timer None) (clearTimer (timer (laneAt s a)) s)).
Proof.
  intros Hl Ht Hg. pose proof (live_obj _ _ _ Hl Hg) as Ho.
  destruct (timer (laneAt s a)) as [t|] eqn:E; simpl.
  - destruct (ti_timer s Ht _ _ _ Hg E) as (due & cb & Et).
    set (s1 := set_timers _ s). assert (is_Some (laneObj s1 !! a)) as Ho1 by done.
    assert (forall b, laneAt s1 b = laneAt s b) as Es by done.
    split; simpl.
    + intros t' due' key' b cb' [Hne H]%lookup_delete_Some.
      destruct (ti_lane s Ht _ _ _ _ _ H) as [H1 H2]. split; [done|].
      lane_case b a; [congruence|]. by rewrite Es.
    + intros key' b t' H1 H2. lane_case b a; [done|]. rewrite Es in H2.
      destruct (ti_timer s Ht _ _ _ H1 H2) as (due' & cb' & H3). exists due', cb'.
      rewrite lookup_delete_ne; [done|]. intros ->. congruence.
    + intros key' b H1 H2. lane_case b a; [done|]. rewrite Es in *. by apply (ti_running s Ht key').
    + intros t' due' k [Hne H]%lookup_delete_Some. eapply ti_cleanup; eauto.
    + intros k t' H. destruct (ti_cleanup_timer s Ht _ _ H) as [due' H'].
      exists due'. rewrite lookup_delete_ne; [done|]. congruence.
  - split; simpl.
    + intros t' due' key' b cb' H. destruct (ti_lane s Ht _ _ _ _ _ H) as [H1 H2].
      split; [done|]. lane_case b a; [congruence|done].
    + intros key' b t' H1 H2. lane_case b a; [done|]. by apply (ti_timer s Ht).
    + intros key' b H1 H2. lane_case b a; [done|]. by apply (ti_running s Ht key').
    + apply (ti_cleanup s Ht).
    + apply (ti_cleanup_timer s Ht).
Qed.

Lemma fresh_delete_timer s t : fresh_ok s -> fresh_ok (set_timers (delete t (timers s)) s).
Proof.
  intros H a Ha. simpl in *. destruct (H a Ha) as (? & ? & ? & ?). split_and!; try done.
  rewrite lookup_delete_None. auto.
Qed.

Lemma fresh_clearTimer s t : fresh_ok s -> fresh_ok (clearTimer t s).
Proof. destruct t; [apply fresh_delete_timer|done]. Qed.

Lemma cancelTimer_core s key a :
  core o s -> jm_get key (lanes s) = Some a ->
  core o (upd_lane a (lane_timer None) (clearTimer (timer (laneAt s a)) s)).
Proof.
  intros [] Hg. set (t := timer (laneAt s a)).
  assert (fresh_ok (clearTimer t s)) by by apply fresh_clearTimer.
  split; try (subst t; by eapply cancelTimer_timers); destruct t;
    first [frame_from s | frame_from (clearTimer (Some n) s)].
Qed.

(** A fresh address enters the timer table. *)
Lemma setTimer_fresh s due action s' t :
  fresh_ok s -> setTimer due action s = (t, s') ->
  fresh_ok s' /\ timers s !! t = None /\ timers s' = <[t := (due, action)]> (timers s).
Proof.
  unfold setTimer. intros Hf [= <- <-]. destruct (Hf (nextAddr s)) as (_ & _ & Ht & _); [lia|].
  split_and!; [|done|done]. intros a Ha. simpl in *.
  destruct (Hf a ltac:(lia)) as (? & ? & ? & ?). rewrite lookup_insert_ne by lia. auto.
Qed.

Lemma scheduleLane_timers s now key a cb d :
  lanes_ok s -> fresh_ok s -> timers_ok s -> jm_get key (lanes s) = Some a ->
  timer (laneAt s a) = None -> running (laneAt s a) = false ->
  timers_ok (scheduleLane now key a cb d s).
Proof.
  intros Hl Hf Ht Hg E Er. pose proof (live_obj _ _ _ Hl Hg) as Ho.
  unfold scheduleLane. destruct (setTimer _ _ s) as [t s1] eqn:Es.
  destruct (setTimer_fresh _ _ _ _ _ Hf Es) as (_ & Hn & Et).
  unfold setTimer in Es. injection Es as _ <-. set (s1 := set_nextAddr _ _) in *.
  assert (is_Some (laneObj s1 !! a)) as Ho1 by done.
  assert (forall b, laneAt s1 b = laneAt s b) as Es by done.
  split.
  - intros t' due' key' b cb'. simpl in Et |- *. rewrite Et.
    rewrite lookup_insert_Some. intros [[<- [= <- <- <- <-]]|[Hne H]].
    + rewrite laneAt_upd_eq by done. done.
    + destruct (ti_lane s Ht _ _ _ _ _ H) as [H1 H2]. split; [done|].
      lane_case b a; [rewrite Es in *; simpl; congruence|]. by rewrite Es.
  - intros key' b t' H1 H2. simpl in Et |- *. rewrite Et. simpl in H1. lane_case b a.
    + simpl in H2. injection H2 as <-. rewrite lookup_insert_eq.
      assert (key' = key) as -> by by eapply live_inj. eauto.
    + rewrite Es in H2. destruct (ti_timer s Ht _ _ _ H1 H2) as (due' & cb' & H3).
      exists due', cb'. rewrite lookup_insert_ne; [done|]. congruence.
  - intros key' b H1 H2. simpl in H1. lane_case b a.
    + rewrite Es in H2. simpl in H2. congruence.
    + rewrite Es in *. by apply (ti_running s Ht key').
  - intros t' due' k. simpl in Et |- *. rewrite Et. rewrite lookup_insert_Some.
    intros [[_ [=]]|[_ H]]. eapply ti_cleanup; eauto.
  - intros k t' H. destruct (ti_cleanup_timer s Ht _ _ H) as [due' H'].
    simpl in Et |- *. rewrite Et. exists due'. rewrite lookup_insert_ne; [done|]. congruence.
Qed.

Lemma scheduleLane_core s now key a cb d :
  core o s -> jm_get key (lanes s) = Some a ->
  timer (laneAt s a) = None -> running (laneAt s a) = false ->
  core o (scheduleLane now key a cb d s).
Proof.
  intros [] Hg E Er.
  assert (timers_ok (scheduleLane now key a cb d s)) by by apply scheduleLane_timers.
  destruct (setTimer_fresh s (now + d) (LaneTimer key a cb) _ _ core_fresh0 eq_refl) as (Hf & _).
  split; try done;
    first [ unfold scheduleLane, setTimer; frame_from s
          | unfold scheduleLane, setTimer in *; frame_from (set_nextAddr (S (nextAddr s))
              (set_timers (<[nextAddr s := (now + d, LaneTimer key a cb)]> (timers s)) s)) ].
Qed.

(** ** Removing an idle lane *)

Definition dropLane (key : string) (s : st C) : st C :=
  set_ready (jm_del key (readyLanes s)) (set_lanes (jm_del key (lanes s)) s).

(** The lane at [key] holds nothing that another component refers to. *)
Definition vacant s key a : Prop :=
  jm_get key (lanes s) = Some a /\ pendingEvents (laneAt s a) = [] /\
  running (laneAt s a) = false /\ timer (laneAt s a) = None.

Lemma dropLane_get s key key' b :
  jm_get key' (lanes (dropLane key s)) = Some b <->
  key' <> key /\ jm_get key' (lanes s) = Some b.
Proof. simpl. rewrite jm_get_del. case_decide; naive_solver. Qed.

Lemma dropLane_lane_sum f s key a :
  lanes_ok s -> jm_get key (lanes s) = Some a ->
  lane_sum f (dropLane key s) = lane_sum f s - f (laneAt s a).
Proof. intros Hl Hg. by apply (lane_sum_del f s key a). Qed.

Lemma dropLane_lanes s key : lanes_ok s -> lanes_ok (dropLane key s).
Proof.
  intros (H1 & H2 & H3). split_and!.
  - by apply jm_wf_del.
  - intros k1 k2 a [_ ?]%dropLane_get [_ ?]%dropLane_get. eauto.
  - intros k a [_ ?]%dropLane_get. eauto.
Qed.

Lemma dropLane_owns s key a k r :
  vacant s key a -> owns (dropLane key s) k r <-> owns s k r.
Proof.
  intros (Hg & Hp & _). unfold owns. rewrite dropLane_get.
  change (laneAt (dropLane key s)) with (laneAt s). split; [tauto|].
  intros (H1 & H2 & H3). split_and!; try done. intros <-.
  assert (a = ref_lane r) as E by congruence. by rewrite <- E, Hp in H3.
Qed.

Lemma dropLane_pending s key a : pending_ok s -> vacant s key a -> pending_ok (dropLane key s).
Proof.
  intros [] Hv.
  assert (forall k r, owns (dropLane key s) k r <-> owns s k r) as Ho
    by (intros; by eapply dropLane_owns).
  split.
  - intros k b [_ ?]%dropLane_get. eauto.
  - intros k r H%Ho. eauto.
  - intros k1 k2 r1 r2 H1%Ho H2%Ho. eauto.
  - intros k r. rewrite Ho. apply po_heap0.
  - apply po_queue0.
  - intros k b [_ ?]%dropLane_get. eauto.
Qed.

Lemma dropLane_passes s key a : passes_ok s -> vacant s key a -> passes_ok (dropLane key s).
Proof.
  intros [] (Hg & _ & Hr & _). split; try done.
  intros i p Hp. destruct (pa_lane0 _ _ Hp) as [H1 H2]. split; [|done].
  apply dropLane_get. split; [|done]. intros E. rewrite E in H1. congruence.
Qed.

Lemma dropLane_timers s key a : timers_ok s -> vacant s key a -> timers_ok (dropLane key s).
Proof.
  intros [] (Hg & _ & _ & Ht). split; try done.
  - intros t due k b cb H. destruct (ti_lane0 _ _ _ _ _ H) as [H1 H2]. split; [|done].
    apply dropLane_get. split; [|done]. intros ->. congruence.
  - intros k b t [_ H]%dropLane_get. eauto.
  - intros k b [_ H]%dropLane_get. eauto.
Qed.

Lemma dropLane_ready s key : ready_ok s -> ready_ok (dropLane key s).
Proof.
  intros [H1 H2]. split; simpl; [by apply jm_wf_del|].
  intros k a cb. rewrite jm_get_del. case_decide; [done|]. intros Hr.
  rewrite jm_get_del, decide_False by done. eauto.
Qed.

(** Every group but the counters and the cooldowns. *)
Record structure s : Prop := {
  str_lanes : lanes_ok s;
  str_fresh : fresh_ok s;
  str_pending : pending_ok s;
  str_passes : passes_ok s;
  str_timers : timers_ok s;
  str_ready : ready_ok s;
}.

Lemma core_structure s : core o s -> structure s.
Proof. by intros []. Qed.

Lemma core_build s : structure s -> counts_ok s -> cooldowns_ok o s -> core o s.
Proof. by intros [] ? ?. Qed.

Lemma dropLane_structure s key a : structure s -> vacant s key a -> structure (dropLane key s).
Proof.
  intros [] Hv. split;
    eauto using dropLane_lanes, dropLane_pending, dropLane_passes, dropLane_timers, dropLane_ready.
Qed.

Lemma on_vacant s key a k :
  vacant s key a -> pending_ok s ->
  on k size_of (laneAt s a) = 0 /\ on k pendingSignalCount (laneAt s a) = 0 /\
  on k run_of (laneAt s a) = 0 /\ run_of (laneAt s a) = 0.
Proof.
  intros (Hg & Hp & Hr & _) Hpo. pose proof (po_signals s Hpo _ _ Hg) as Hs.
  unfold on, size_of, run_of. rewrite Hp, Hr. rewrite Hp in Hs. simpl in Hs.
  split_and!; try (by case_decide). done.
Qed.

Lemma on_eq f l : on (kind l) f l = f l.
Proof. unfold on. by rewrite decide_True. Qed.

Lemma on_ne k f l : kind l <> k -> on k f l = 0.
Proof. intros. unfold on. by rewrite decide_False. Qed.

Lemma one_of_eq l : one_of l = 1.
Proof. done. Qed.

Lemma one_pos s k : 0 <= lane_sum (on k one_of) s.
Proof. apply jm_sum_nonneg. intros. unfold on, one_of. case_decide; lia. Qed.

Lemma one_live s key a :
  lanes_ok s -> jm_get key (lanes s) = Some a -> 1 <= lane_sum (on (kind (laneAt s a)) one_of) s.
Proof.
  intros Hl Hg. pose proof (lane_sum_pos (on (kind (laneAt s a)) one_of) s key a) as H.
  unfold on at 2 in H. rewrite decide_True in H by done. unfold one_of at 2 in H. apply H;
    [|by destruct Hl|done]. intros. unfold on, one_of. case_decide; lia.
Qed.

(** Dropping a lane while [n] more cooldowns are retained for its kind. *)
Lemma dropLane_counts s key a :
  counts_ok s -> lanes_ok s -> pending_ok s -> vacant s key a ->
  counts_ok (upd_count (kind (laneAt s a)) (bump_known (-1)) (dropLane key s)).
Proof.
  intros [] Hl Hp Hv. pose proof Hv as (Hg & _).
  pose proof (one_live _ _ _ Hl Hg).
  assert (forall f, lane_sum f (upd_count (kind (laneAt s a)) (bump_known (-1)) (dropLane key s)) =
                    lane_sum f s - f (laneAt s a)) as E by (intros; by apply (lane_sum_del _ s key)).
  split; try intros k; rewrite E; simpl;
    try (pose proof (on_vacant _ _ _ k Hv Hp)); try (pose proof (on_vacant _ _ _ Broad Hv Hp));
    rewrite ?kget_kset; try case_decide; subst; simpl;
    rewrite ?co_events0, ?co_signals0, ?co_active0, ?co_known0; try lia.
  - rewrite on_eq, one_of_eq. lia.
  - rewrite on_ne by done. lia.
Qed.


(** ** Retained cooldowns *)

(** The two states have the same lanes, ready queue and passes. *)
Definition same_run s s' : Prop :=
  lanes s' = lanes s /\ laneObj s' = laneObj s /\ readyLanes s' = readyLanes s /\
  activePassCount s' = activePassCount s /\ stopped s' = stopped s.

Lemma same_run_refl s : same_run s s.
Proof. done. Qed.

Lemma same_run_trans s1 s2 s3 : same_run s1 s2 -> same_run s2 s3 -> same_run s1 s3.
Proof. unfold same_run. intuition congruence. Qed.

Lemma same_run_laneAt s s' a : same_run s s' -> laneAt s' a = laneAt s a.
Proof. intros (_ & E & _). unfold laneAt. by rewrite E. Qed.

Lemma same_run_quiet ex s s' : same_run s s' -> quiet o ex s -> quiet o ex s'.
Proof.
  intros H. pose proof H as (E1 & E2 & E3 & _).
  apply quiet_ext; try done; intros; by erewrite same_run_laneAt.
Qed.

Lemma same_run_bounded s s' : same_run s s' -> bounded o s -> bounded o s'.
Proof.
  intros H. pose proof H as (E1 & E2 & E3 & E4 & _).
  apply bounded_ext; try done; intros; by erewrite same_run_laneAt.
Qed.

Lemma same_run_full s s' : same_run s s' -> full o s -> full o s'.
Proof. intros (_ & _ & E3 & E4 & _). unfold full. by rewrite E3, E4. Qed.

(** The retained cooldowns without their bound and their timer. *)
Definition retained_ok s : Prop :=
  (forall k, jm_wf (kget (cooldowns s) k)) /\
  (forall k key d, jm_get key (kget (cooldowns s) k) = Some d ->
     key_kind key = k /\ jm_get key (lanes s) = None).

Lemma forgetOldest_spec fuel k s :
  structure s -> counts_ok s -> retained_ok s ->
  let s' := forgetOldest o fuel k s in
  structure s' /\ counts_ok s' /\ retained_ok s' /\ same_run s s' /\
  cleanups s' = cleanups s /\
  (forall k', k' <> k -> kget (cooldowns s') k' = kget (cooldowns s) k') /\
  ((length (kget (cooldowns s) k) <= fuel)%nat -> 0 < getMaxPendingSignatures o k ->
   Z.of_nat (length (kget (cooldowns s') k)) <= getMaxPendingSignatures o k).
Proof.
  revert s. induction fuel as [|fuel IH]; simpl; intros s Hs Hc Hr.
  { split_and!; try done. intros Hl. assert (length (kget (cooldowns s) k) = 0%nat) as -> by lia. lia. }
  destruct (_ <? _) eqn:E; zbool; [|split_and!; try done; lia].
  destruct (kget (cooldowns s) k) as [|[key d] m] eqn:Em.
  { split_and!; try done. simpl in *. lia. }
  set (s1 := upd_count _ _ _). pose proof Hr as [Hwf Hap].
  assert (kget (cooldowns s1) k = m) as E1.
  { simpl. rewrite kget_kset_eq, decide_True by done. apply jm_del_absent.
    specialize (Hwf k). rewrite Em in Hwf. apply NoDup_cons in Hwf as [Hn _].
    apply jm_get_None. by rewrite <- list_elem_of_In. }
  assert (forall k', k' <> k -> kget (cooldowns s1) k' = kget (cooldowns s) k') as E2.
  { intros. simpl. by rewrite kget_kset_ne by done. }
  assert (structure s1) as Hs1 by (destruct Hs; split; frame_from s).
  assert (counts_ok s1) as Hc1.
  { destruct Hc. pose proof (one_pos s k).
    assert (forall f, lane_sum f s1 = lane_sum f s) as Es by (intros; by apply lane_sum_eq).
    split; try intros k'; rewrite Es; [| | |destruct (decide (k' = k)) as [->|]|done];
      rewrite ?E1, ?E2 by done; subst s1; simpl; rewrite kget_kset;
      try case_decide; subst; simpl; rewrite ?co_known0, ?Em; simpl; try done; lia. }
  assert (retained_ok s1) as Hr1.
  { split.
    - intros k'. destruct (decide (k' = k)) as [->|]; [|by rewrite E2].
      rewrite E1. specialize (Hwf k). rewrite Em in Hwf. by apply NoDup_cons in Hwf as [_ ?].
    - intros k' key' d' Hg. apply (Hap k' key' d').
      destruct (decide (k' = k)) as [->|]; [|by rewrite E2 in Hg].
      rewrite E1 in Hg. rewrite Em. simpl. rewrite decide_False; [done|]. intros ->.
      specialize (Hwf k). rewrite Em in Hwf. apply NoDup_cons in Hwf as [Hn _].
      apply Hn, list_elem_of_In. by eapply jm_get_Some_key. }
  destruct (IH s1 Hs1 Hc1 Hr1) as (? & ? & ? & ? & ? & H6 & H7).
  split_and!; try done.
  - intros. rewrite H6 by done. by rewrite E2.
  - simpl. intros Hl. apply H7. rewrite E1. lia.
Qed.

(** Timers in which the one of [k]'s cleanup is missing. *)
Lemma scheduleCleanup_spec now k s :
  structure s -> counts_ok s -> retained_ok s ->
  let s' := scheduleRetainedCooldownCleanup now k s in
  structure s' /\ counts_ok s' /\ retained_ok s' /\ same_run s s' /\
  cooldowns s' = cooldowns s /\
  (forall k', is_Some (kget (cleanups s) k') -> is_Some (kget (cleanups s') k')) /\
  (stopped s = false -> kget (cooldowns s) k <> [] -> is_Some (kget (cleanups s') k)).
Proof.
  intros Hs Hc Hr. unfold scheduleRetainedCooldownCleanup.
  destruct (stopped s) eqn:Est; [by split_and!|].
  destruct (kget (cleanups s) k) as [t|] eqn:Ek; [split_and!; by eauto|].
  destruct (kget (cooldowns s) k) as [|[key d] m] eqn:Em; [by split_and!|].
  destruct (setTimer _ _ s) as [t s1] eqn:Es1.
  destruct Hs. destruct (setTimer_fresh _ _ _ _ _ str_fresh0 Es1) as (Hf & Hn & Et).
  unfold setTimer in Es1. injection Es1 as _ <-. set (s1 := set_nextAddr _ _) in *.
  split_and!; try done.
  - split; try frame_from s; try frame_from s1. destruct str_timers0.
    split; simpl in Et |- *; try rewrite Et.
    + intros t' due key' a cb [[_ [=]]|[_ H]]%lookup_insert_Some. eauto.
    + intros key' a t' H1 H2. destruct (ti_timer0 _ _ _ H1 H2) as (due & cb & H3).
      exists due, cb. rewrite lookup_insert_ne; [done|]. congruence.
    + apply ti_running0.
    + intros t' due k' [[<- [= _ <-]]|[Hne H]]%lookup_insert_Some; [by rewrite kget_kset_eq|].
      rewrite kget_kset_ne; [eauto|]. intros <-. apply ti_cleanup0 in H. congruence.
    + intros k' t'. rewrite kget_kset. case_decide as Hk; [subst k'|].
      * intros [= <-]. rewrite lookup_insert_eq. eauto.
      * intros H. destruct (ti_cleanup_timer0 _ _ H) as [due Hd].
        exists due. rewrite lookup_insert_ne; [done|]. congruence.
  - frame_from s.
  - intros k' Hk. simpl. rewrite kget_kset. case_decide; by eauto.
  - intros _ _. simpl. rewrite kget_kset_eq. eauto.
Qed.

Lemma cooldowns_ok_retained s : cooldowns_ok o s -> retained_ok s.
Proof. intros []. split; eauto. Qed.


Lemma retainLaneCooldown_spec now s key a :
  options_ok o -> core o s -> vacant s key a ->
  let s' := retainLaneCooldown o now key a s in
  core o s' /\ same_run (dropLane key s) s'.
Proof.
  intros Ho Hcore Hv. pose proof Hv as (Hg & Hpe & Hru & Hti).
  pose proof (core_structure _ Hcore) as Hs. destruct Hcore as [Hl _ Hp Hc _ _ _ Hd].
  pose proof Hd as [Hwf Hap Hbo Hcl]. unfold retainLaneCooldown.
  rewrite decide_True by done. set (k := kind (laneAt s a)) in *.
  assert (k = key_kind key) as Hk by by apply live_kind.
  change (set_ready _ (set_lanes _ s)) with (dropLane key s).
  set (d := nextRunAt _).
  assert (jm_get key (kget (cooldowns s) k) = None) as Hnone.
  { destruct (jm_get key (kget (cooldowns s) k)) eqn:E; [|done].
    apply Hap in E as [_ E]. congruence. }
  set (retained := jm_set key d _).
  assert (retained = jm_set key d (kget (cooldowns s) k)) as Er
    by (unfold retained; simpl; by rewrite (jm_del_absent key)).
  set (s1 := set_cooldowns (kset (cooldowns (dropLane key s)) k retained) (dropLane key s)).
  assert (kget (cooldowns s1) k = retained) as E1 by (simpl; by rewrite kget_kset_eq).
  assert (forall k', k' <> k -> kget (cooldowns s1) k' = kget (cooldowns s) k') as E2
    by (intros; simpl; by rewrite kget_kset_ne by done).
  assert (structure s1) as Hs1.
  { destruct (dropLane_structure s key a Hs Hv). split; frame_from (dropLane key s). }
  assert (counts_ok s1) as Hc1.
  { pose proof Hc as []. pose proof (dropLane_lane_sum) as Eds.
    split; try intros k'; rewrite (lane_sum_eq _ (dropLane key s) s1) by done;
      rewrite Eds with (a := a) by done; simpl;
      try (pose proof (on_vacant _ _ _ k' Hv Hp)); try (pose proof (on_vacant _ _ _ Broad Hv Hp));
      rewrite ?co_events0, ?co_signals0, ?co_active0, ?co_known0; try lia.
    destruct (decide (k' = k)) as [->|].
    - rewrite kget_kset_eq, Er, jm_length_set, Hnone. subst k. rewrite on_eq, one_of_eq. lia.
    - rewrite kget_kset_ne, on_ne by done. lia. }
  assert (retained_ok s1) as Hr1.
  { split.
    - intros k'. destruct (decide (k' = k)) as [->|]; [|by rewrite E2].
      rewrite E1, Er. apply jm_wf_set, Hwf.
    - intros k' key' d'. simpl. rewrite jm_get_del. destruct (decide (k' = k)) as [->|Hne].
      + rewrite kget_kset_eq, Er, jm_get_set. destruct (decide (key = key')) as [<-|]; [done|].
        apply Hap.
      + rewrite kget_kset_ne by done. intros [? Hn]%Hap. split; [done|]. by case_decide. }
  destruct (forgetOldest_spec (length retained) k s1 Hs1 Hc1 Hr1)
    as (Hs2 & Hc2 & Hr2 & Hrun2 & Hcl2 & Hoth2 & Hbd2).
  set (s2 := forgetOldest o (length retained) k s1) in *.
  destruct (scheduleCleanup_spec now k s2 Hs2 Hc2 Hr2)
    as (Hs3 & Hc3 & [Hwf3 Hap3] & Hrun3 & Hcd3 & Hkeep3 & Hcl3).
  split; [|by apply (same_run_trans _ s2)].
  apply core_build; [done|done|]. split; [done|done| |].
  - intros k'. rewrite Hcd3. destruct (decide (k' = k)) as [->|].
    + apply Hbd2; [by rewrite E1|]. unfold options_ok in Ho. destruct k; simpl; lia.
    + rewrite Hoth2, E2 by done. apply Hbo.
  - intros k' Hst Hne. rewrite Hcd3 in Hne.
    assert (stopped s2 = false) as Hst2 by (destruct Hrun3 as (_ & _ & _ & _ & E); congruence).
    assert (stopped s = false) as Hst1.
    { destruct Hrun2 as (_ & _ & _ & _ & E). rewrite Hst2 in E. symmetry. exact E. }
    destruct (decide (k' = k)) as [->|]; [by apply Hcl3|].
    apply Hkeep3. rewrite Hcl2. rewrite Hoth2, E2 in Hne by done. by apply Hcl.
Qed.

Lemma removeLaneIfIdle_spec now s key a :
  options_ok o -> core o s -> jm_get key (lanes s) = Some a ->
  let s' := removeLaneIfIdle o now key a s in
  (vacant s key a /\ core o s' /\ same_run (dropLane key s) s') \/
  (s' = s /\ (running (laneAt s a) = true \/ is_Some (timer (laneAt s a)) \/
              pendingEvents (laneAt s a) <> [])).
Proof.
  intros Ho Hc Hg. unfold removeLaneIfIdle. destruct (_ || _) eqn:E.
  - right. split; [done|]. rewrite (bool_decide_eq_true_2 (_ = Some a)) in E by done.
    rewrite orb_false_r in E. apply orb_true_iff in E as [[E|E%bool_decide_eq_true]%orb_true_iff|E];
      [by left|by right; left|]. right. right. by destruct (pendingEvents _).
  - left. zbool. assert (vacant s key a) as Hv.
    { split_and!; [done| |done|].
      - by destruct (pendingEvents _).
      - destruct (timer _); [|done]. rewrite bool_decide_eq_true_2 in *; done. }
    split; [done|]. case_match; [by apply retainLaneCooldown_spec|].
    pose proof (core_structure _ Hc) as Hs. destruct Hc.
    split; [|done]. pose proof (dropLane_structure s key a Hs Hv) as [].
    apply core_build; [split; frame_from (dropLane key s)|by apply (dropLane_counts s key a)|].
    destruct core_cooldowns0. split; try done.
    intros k key' d Hd. destruct (cd_apart0 _ _ _ Hd) as [? Hn]. split; [done|].
    simpl. rewrite jm_get_del, Hn. by case_match.
Qed.

Lemma expireEntries_spec now (m : list (string * Z)) :
  exists dropped, m = dropped ++ fst (expireEntries now m) /\
                  snd (expireEntries now m) = Z.of_nat (length dropped).
Proof.
  induction m as [|[key d] m (dr & IH1 & IH2)]; simpl; [by exists []|].
  case_match; [by exists []|]. destruct (expireEntries now m) as [m' n]. simpl in *.
  exists ((key, d) :: dr). simpl. split; [by f_equal|lia].
Qed.

Lemma jm_get_suffix {K V} `{EqDecision K} (m1 m2 : list (K * V)) k v :
  jm_wf (m1 ++ m2) -> jm_get k m2 = Some v -> jm_get k (m1 ++ m2) = Some v.
Proof.
  intros Hwf Hg%jm_get_In. apply jm_In_get; [done|]. apply in_app_iff. by right.
Qed.

Lemma jm_wf_suffix {K V} `{EqDecision K} (m1 m2 : list (K * V)) : jm_wf (m1 ++ m2) -> jm_wf m2.
Proof. unfold jm_wf, jm_keys. rewrite map_app. by intros (_ & _ & ?)%NoDup_app. Qed.

(** The cleanup timer has fired: [s] has no timer for [k]. *)
Lemma expireRetained_spec now k s :
  structure s -> counts_ok s -> retained_ok s ->
  (forall k', Z.of_nat (length (kget (cooldowns s) k')) <= getMaxPendingSignatures o k') ->
  (forall k', k' <> k -> stopped s = false -> kget (cooldowns s) k' <> [] ->
     is_Some (kget (cleanups s) k')) ->
  let s' := expireRetainedCooldowns now k s in
  core o s' /\ same_run s s'.
Proof.
  intros Hs Hc Hr Hbo Hoth. unfold expireRetainedCooldowns.
  destruct (expireEntries_spec now (kget (cooldowns s) k)) as (dr & E1 & E2).
  destruct (expireEntries now (kget (cooldowns s) k)) as [m n]. simpl in E1, E2.
  set (s1 := if 0 <? n then _ else _). pose proof Hr as [Hwf Hap].
  assert (counts s1 = kset (counts s) k (bump_known (- n) (kget (counts s) k))) as Ect.
  { subst s1. case_match; simpl; [done|]. zbool. assert (n = 0) as -> by lia.
    pose proof (co_known _ Hc k). pose proof (one_pos s k).
    destruct (counts s) as [b i], k; simpl in *; f_equal; destruct b, i; unfold bump_known;
      simpl in *; f_equal; lia. }
  assert (kget (cooldowns s1) k = m) as Em by (subst s1; case_match; simpl; by rewrite kget_kset_eq).
  assert (forall k', k' <> k -> kget (cooldowns s1) k' = kget (cooldowns s) k') as En
    by (intros; subst s1; case_match; simpl; by rewrite kget_kset_ne).
  assert (same_run s s1) as Hrun by (subst s1; by case_match).
  assert (cleanups s1 = cleanups s) as Ecl by (subst s1; by case_match).
  assert (structure s1) as Hs1.
  { destruct Hs; subst s1; case_match; split; frame_from s. }
  assert (counts_ok s1) as Hc1.
  { pose proof Hc as []. pose proof (one_pos s k). destruct Hrun as (El & Eo & _ & Ea & _).
    clearbody s1. split; try intros k'; rewrite (lane_sum_eq _ s s1) by done; [| | |destruct (decide (k' = k)) as [->|]|];
      rewrite ?Ea, ?Em, ?En, ?Ect by done; rewrite ?kget_kset;
      try case_decide; subst; simpl; rewrite ?co_known0, ?E1, ?length_app; try done; lia. }
  assert (retained_ok s1) as Hr1.
  { split.
    - intros k'. destruct (decide (k' = k)) as [->|]; [|by rewrite En]. rewrite Em.
      specialize (Hwf k). rewrite E1 in Hwf. by eapply jm_wf_suffix.
    - intros k' key d Hg. destruct Hrun as (-> & _). apply (Hap k' key d).
      destruct (decide (k' = k)) as [->|]; [|by rewrite En in Hg]. rewrite Em in Hg.
      specialize (Hwf k). rewrite E1 in Hwf |- *. by apply jm_get_suffix. }
  destruct (scheduleCleanup_spec now k s1 Hs1 Hc1 Hr1)
    as (Hs3 & Hc3 & [Hwf3 Hap3] & Hrun3 & Hcd3 & Hkeep3 & Hcl3).
  split; [|by eapply same_run_trans]. apply core_build; [done|done|]. split; [done|done| |].
  - intros k'. rewrite Hcd3. destruct (decide (k' = k)) as [->|]; [|rewrite En; auto].
    rewrite Em. specialize (Hbo k). rewrite E1, length_app in Hbo. lia.
  - intros k' Hst Hne. rewrite Hcd3 in Hne.
    assert (stopped s = false) as Hst1.
    { destruct Hrun3 as (_ & _ & _ & _ & Ea), Hrun as (_ & _ & _ & _ & Eb). congruence. }
    destruct (decide (k' = k)) as [->|].
    + apply Hcl3; [|done]. destruct Hrun as (_ & _ & _ & _ & Eb). congruence.
    + apply Hkeep3. rewrite En in Hne by done. rewrite Ecl. auto.
Qed.


(** ** Pending events of one lane *)

Lemma pending_live s key a sig p :
  jm_get key (lanes s) = Some a -> jm_get sig (pendingEvents (laneAt s a)) = Some p ->
  owns s (kind (laneAt s a))
    {| ref_laneKey := key; ref_lane := a; ref_signature := sig; ref_pending := p |}.
Proof. done. Qed.

Lemma owns_kind s k1 k2 r : owns s k1 r -> owns s k2 r -> k1 = k2.
Proof. intros (_ & E1 & _) (_ & E2 & _). congruence. Qed.

Lemma clearLanePending_pending s key a :
  lanes_ok s -> pending_ok s -> jm_get key (lanes s) = Some a ->
  pending_ok (clearLanePending a s).
Proof.
  intros Hl Hp Hg. pose proof Hp as []. pose proof (live_obj _ _ _ Hl Hg) as Hob.
  set (s' := clearLanePending a s).
  assert (laneAt s' a = lane_pending [] 0 (laneAt s a)) as Ea
    by (apply (laneAt_upd_eq s a); done).
  assert (forall b, b <> a -> laneAt s' b = laneAt s b) as Eb
    by (intros; by apply (laneAt_upd_ne s)).
  assert (forall k r, owns s' k r <-> owns s k r /\ ref_lane r <> a) as Ho.
  { intros k r. unfold owns. change (lanes s') with (lanes s).
    destruct (decide (ref_lane r = a)) as [->|]; [rewrite Ea; simpl; naive_solver|].
    rewrite Eb by done. tauto. }
  assert (forall sig p, In (sig, p) (pendingEvents (laneAt s a)) ->
            jm_get sig (pendingEvents (laneAt s a)) = Some p) as Hin.
  { intros. apply jm_In_get; [|done]. by apply (po_wf0 key). }
  assert (forall k r, owns s k r -> ref_lane r <> a <->
            ref_pending r ∉ jm_values (pendingEvents (laneAt s a)) \/ k <> kind (laneAt s a)) as Hv.
  { intros k r Hr. split.
    - intros Hne. left. intros Hi. apply list_elem_of_In, in_map_iff in Hi as ([sig p] & Ep & Hi).
      simpl in Ep. subst p. apply Hin in Hi.
      pose proof (po_inj0 _ _ _ _ Hr (pending_live _ _ _ _ _ Hg Hi) eq_refl) as E.
      rewrite E in Hne. done.
    - intros H E. destruct Hr as (H1 & H2 & H3). rewrite E in *. destruct H as [H|H]; [|congruence].
      apply H, list_elem_of_In, in_map_iff. exists (ref_signature r, ref_pending r).
      split; [done|]. by apply jm_get_In. }
  split.
  - intros k b. destruct (decide (b = a)) as [->|]; [rewrite Ea|rewrite Eb by done; apply po_wf0].
    intros _. apply jm_wf_nil.
  - intros k r [H _]%Ho. eauto.
  - intros k1 k2 r1 r2 [H1 _]%Ho [H2 _]%Ho. eauto.
  - intros k r. rewrite Ho. simpl. rewrite kget_kset. case_decide as Hk; [subst k|].
    + rewrite (proj2 (remove_all_spec (priceAt s) _ _ (po_queue0 _))), po_heap0.
      split; (intros [H1 H2]; split; [done|]); [apply (Hv _ _ H1); by left|].
      by apply (Hv _ _ H1) in H2 as [H2|H2].
    + rewrite po_heap0. split; [|tauto]. intros H1. split; [done|]. apply (Hv _ _ H1). by right.
  - intros k. simpl. rewrite kget_kset. case_decide; [|apply po_queue0].
    apply (remove_all_spec (priceAt s)), po_queue0.
  - intros k b. destruct (decide (b = a)) as [->|]; [by rewrite Ea|rewrite Eb by done].
    apply po_signals0.
Qed.

Lemma clearLanePending_sum f s key a :
  lanes_ok s -> jm_get key (lanes s) = Some a ->
  lane_sum f (clearLanePending a s) =
  lane_sum f s - f (laneAt s a) + f (lane_pending [] 0 (laneAt s a)).
Proof. intros. by apply (lane_sum_upd f s key a). Qed.

Lemma size_pos k s key a : jm_get key (lanes s) = Some a -> 0 <= on k size_of (laneAt s a).
Proof. intros. unfold on, size_of. case_decide; lia. Qed.

Lemma size_le s key a :
  lanes_ok s -> jm_get key (lanes s) = Some a ->
  size_of (laneAt s a) <= lane_sum (on (kind (laneAt s a)) size_of) s.
Proof.
  intros Hl Hg. rewrite <- (on_eq size_of). eapply (lane_sum_pos (on _ size_of)); [|by destruct Hl|done].
  intros ? ?. apply size_pos.
Qed.

Lemma signals_le s key a :
  lanes_ok s -> pending_ok s -> jm_get key (lanes s) = Some a ->
  0 <= pendingSignalCount (laneAt s a) <=
  lane_sum (on (kind (laneAt s a)) pendingSignalCount) s.
Proof.
  intros Hl Hp Hg. split; [by eapply signals_nonneg|].
  rewrite <- (on_eq pendingSignalCount) at 1.
  eapply (lane_sum_pos (on _ pendingSignalCount)); [|by destruct Hl|done].
  intros key' b Hb. pose proof (signals_nonneg _ _ _ Hp Hb). unfold on. case_decide; lia.
Qed.

Lemma clearLanePending_counts s key a :
  lanes_ok s -> pending_ok s -> counts_ok s -> jm_get key (lanes s) = Some a ->
  counts_ok (clearLanePending a s).
Proof.
  intros Hl Hp Hc Hg. pose proof Hc as [].
  pose proof (size_le _ _ _ Hl Hg). pose proof (signals_le _ _ _ Hl Hp Hg).
  split; try intros k; rewrite (clearLanePending_sum _ s key) by done; simpl;
    rewrite ?kget_kset_eq, ?kget_kset;
    try (case_decide as E; [subst k; rewrite ?kget_kset, ?decide_True, ?on_eq by done|
      rewrite ?kget_kset, ?decide_False, ?on_ne by done]);
    simpl; rewrite ?co_events0, ?co_signals0, ?co_active0, ?co_known0;
    unfold size_of, run_of, one_of, on in *; simpl; try lia;
    repeat case_decide; try done; try lia.
Qed.

Lemma clearLanePending_core s key a :
  core o s -> jm_get key (lanes s) = Some a -> core o (clearLanePending a s).
Proof.
  intros [] Hg.
  assert (pending_ok (clearLanePending a s)) by by eapply clearLanePending_pending.
  assert (counts_ok (clearLanePending a s)) by by eapply clearLanePending_counts.
  split; try done; unfold clearLanePending; frame_from s.
Qed.


(** One live lane of [s] is different in [s']. *)
Lemma lane_changed_sum s s' key a l' :
  lanes_ok s -> jm_get key (lanes s) = Some a -> lanes s' = lanes s ->
  (forall b, laneAt s' b = if decide (b = a) then l' b else laneAt s b) ->
  kind (l' a) = kind (laneAt s a) ->
  (forall k f, lane_sum (on k f) s' = lane_sum (on k f) s +
     if decide (kind (laneAt s a) = k) then f (l' a) - f (laneAt s a) else 0) /\
  (forall f, lane_sum f s' = lane_sum f s + (f (l' a) - f (laneAt s a))).
Proof.
  intros Hl Hg El Ela Ek.
  assert (forall f, lane_sum f s' = lane_sum f s + (f (l' a) - f (laneAt s a))) as Hall.
  { intros f. unfold lane_sum. rewrite El.
    rewrite (jm_sum_update (fun b => f (laneAt s b)) (fun b => f (laneAt s' b)) _ key a);
      [rewrite Ela, decide_True by done; lia|by destruct Hl|done|].
    intros key' b Hk Hb. rewrite Ela, decide_False; [done|]. intros ->. apply Hk. by eapply live_inj. }
  split; [|done]. intros k f. rewrite Hall. unfold on at 2 3. rewrite Ek. case_decide; lia.
Qed.

(** ** Detaching one pending event *)

Lemma jm_sum_nonneg_in {K V} (f : V -> Z) (m : list (K * V)) :
  (forall k v, In (k, v) m -> 0 <= f v) -> 0 <= jm_sum f m.
Proof.
  induction m as [|[k v] m IH]; simpl; intros H; [lia|].
  specialize (H k v (or_introl eq_refl)) as Hv. assert (0 <= jm_sum f m); [|lia].
  apply IH. intros. eapply H. by right.
Qed.

Lemma owned_count s k r :
  pending_ok s -> owns s k r -> 1 <= signalCountAt s (ref_pending r).
Proof.
  intros Hp Hr. destruct (po_store s Hp _ _ Hr) as (x & E & H).
  unfold signalCountAt. by rewrite E.
Qed.

(** The signal count of a lane without one of its pending events. *)
Lemma detached_signals s k r :
  pending_ok s -> owns s k r ->
  let l := laneAt s (ref_lane r) in
  jm_sum (signalCountAt s) (jm_del (ref_signature r) (pendingEvents l)) =
  pendingSignalCount l - signalCountAt s (ref_pending r) /\
  signalCountAt s (ref_pending r) <= pendingSignalCount l.
Proof.
  intros Hp Hr. cbv zeta. pose proof Hr as (H1 & H2 & H3).
  pose proof (po_wf s Hp _ _ H1) as Hwf.
  rewrite jm_sum_del, H3 by done. simpl. rewrite <- (po_signals s Hp _ _ H1). split; [done|].
  assert (0 <= jm_sum (signalCountAt s)
    (jm_del (ref_signature r) (pendingEvents (laneAt s (ref_lane r))))) as H.
  { apply jm_sum_nonneg_in. intros sig p Hin. apply jm_In_get in Hin; [|by apply jm_wf_del].
    rewrite jm_get_del in Hin. case_decide; [done|].
    pose proof (owned_count s _ _ Hp (pending_live _ _ _ _ _ H1 Hin)). simpl in *. lia. }
  rewrite jm_sum_del, H3 in H by done. simpl in H. rewrite <- (po_signals s Hp _ _ H1) in H.
  lia.
Qed.

Lemma detachPending_lane s k r b :
  lanes_ok s -> pending_ok s -> owns s k r ->
  laneAt (detachPending k r s) b =
  if decide (b = ref_lane r)
  then lane_pending (jm_del (ref_signature r) (pendingEvents (laneAt s b)))
         (pendingSignalCount (laneAt s b) - signalCountAt s (ref_pending r)) (laneAt s b)
  else laneAt s b.
Proof.
  intros Hl Hp Hr. pose proof Hr as (H1 & _). destruct (live_obj _ _ _ Hl H1) as [l Hl1].
  destruct (detached_signals s k r Hp Hr) as [_ Hle].
  unfold detachPending, upd_count, upd_queue, upd_lane, laneAt in *. simpl. case_decide; subst.
  - rewrite !lookup_alter_eq, Hl1 in *. simpl in *. unfold lane_pending. simpl. f_equal. lia.
  - by rewrite !lookup_alter_ne.
Qed.

Lemma detachPending_owns s k r :
  lanes_ok s -> pending_ok s -> owns s k r ->
  forall k' r', owns (detachPending k r s) k' r' <->
                owns s k' r' /\ ref_pending r' <> ref_pending r.
Proof.
  intros Hl Hp Hr k' r'. transitivity (owns s k' r' /\ r' <> r).
  - unfold owns. change (lanes (detachPending k r s)) with (lanes s).
    rewrite detachPending_lane by done. pose proof Hr as (H1 & H2 & H3).
    case_decide as E; simpl.
    + rewrite jm_get_del, E in *. case_decide as E'.
      * split; [naive_solver|]. intros [(G1 & G2 & G3) Hne]. exfalso. apply Hne.
        destruct r as [k1 a1 s1 p1], r' as [k2 a2 s2 p2]; simpl in *; subst.
        assert (k2 = k1) as -> by by eapply live_inj. rewrite H3 in G3. congruence.
      * naive_solver.
    + naive_solver.
  - split; (intros [G1 G2]; split; [done|]).
    + intros E. by apply G2, (po_inj s Hp k' k).
    + congruence.
Qed.

Lemma detachPending_core s k r :
  core o s -> owns s k r -> core o (detachPending k r s).
Proof.
  intros [] Hr. set (s' := detachPending k r s).
  pose proof (fun b => detachPending_lane s k r b core_lanes0 core_pending0 Hr) as El.
  pose proof (detachPending_owns s k r core_lanes0 core_pending0 Hr) as Eo.
  fold s' in El, Eo. pose proof Hr as (H1 & H2 & H3).
  destruct (detached_signals s k r core_pending0 Hr) as [Hd1 Hd2].
  split; try (subst s'; unfold detachPending; frame_from s).
  - pose proof core_pending0 as []. split.
    + intros key b Hb. rewrite El. case_decide; [apply jm_wf_del|]; by apply (po_wf0 key).
    + intros k' r' [Hr' _]%Eo. eauto.
    + intros k1 k2 r1 r2 [G1 _]%Eo [G2 _]%Eo. eauto.
    + intros k' r'. rewrite Eo. simpl. rewrite kget_kset. case_decide as E; [subst k'|].
      * rewrite (remove_elem _ _ (priceAt s)) by apply po_queue0. by rewrite po_heap0.
      * rewrite po_heap0. split; [|tauto]. intros G. split; [done|]. intros Ep.
        assert (r' = r) as -> by by eapply po_inj0. eauto using owns_kind.
    + intros k'. simpl. rewrite kget_kset. case_decide; [|apply po_queue0].
      apply (remove_spec (priceAt s)), po_queue0.
    + intros key b Hb. rewrite El. case_decide; [|by apply (po_signals0 key)]. subst b. simpl.
      symmetry. apply Hd1.
  - pose proof (size_le _ _ _ core_lanes0 H1) as Hs1.
    pose proof (signals_le _ _ _ core_lanes0 core_pending0 H1) as Hs2.
    destruct (lane_changed_sum s s' (ref_laneKey r) (ref_lane r) _ core_lanes0 H1 eq_refl El eq_refl)
      as [Eon Eall].
    assert (pendingEvents (laneAt s (ref_lane r)) <> []) as Hne by (intros E; by rewrite E in H3).
    pose proof (jm_length_del (ref_signature r) (pendingEvents (laneAt s (ref_lane r)))
                  (po_wf s core_pending0 _ _ H1)) as Hlen. rewrite H3 in Hlen.
    rewrite H2 in *.
    assert (length (pendingEvents (laneAt s (ref_lane r))) <> 0%nat) as Hn0
      by (by destruct (pendingEvents _)).
    split; try intros k'; rewrite ?Eon, ?Eall, ?H2; counts_solve.
Qed.


(** ** Admitting an event *)

(** The bookkeeping [queueEvent] does for every admitted event. *)
Definition countSignal (k : LaneKind) (a : nat) (s : st C) : st C :=
  upd_lane a (fun l => lane_pending (pendingEvents l) (pendingSignalCount l + 1) l)
    (upd_count k (bump_signals 1) s).

Lemma coalesced_signals s e r k :
  pending_ok s -> owns s k r ->
  let s' := countSignal k (ref_lane r) (coalesce k (ref_pending r) e s) in
  forall key a, jm_get key (lanes s) = Some a ->
  jm_sum (signalCountAt s') (pendingEvents (laneAt s a)) =
  jm_sum (signalCountAt s) (pendingEvents (laneAt s a)) +
  if decide (a = ref_lane r) then 1 else 0.
Proof.
  intros Hp Hr s' key a Hg. pose proof Hr as (H1 & H2 & H3).
  assert (forall p, p <> ref_pending r -> signalCountAt s' p = signalCountAt s p) as Ene.
  { intros p Hpne. unfold signalCountAt, s'. simpl. by rewrite lookup_alter_ne. }
  assert (signalCountAt s' (ref_pending r) = signalCountAt s (ref_pending r) + 1) as Eeq.
  { destruct (po_store s Hp _ _ Hr) as (x & Ex & _). unfold signalCountAt, s'. simpl.
    by rewrite lookup_alter_eq, Ex. }
  assert (forall sig p, jm_get sig (pendingEvents (laneAt s a)) = Some p ->
            p = ref_pending r -> a = ref_lane r /\ sig = ref_signature r) as Hinj.
  { intros sig p Hs ->. pose proof (po_inj s Hp _ _ _ _ (pending_live _ _ _ _ _ Hg Hs) Hr eq_refl) as E.
    by rewrite <- E. }
  case_decide as E.
  - subst a. rewrite (jm_sum_update (signalCountAt s) (signalCountAt s') _ (ref_signature r)
      (ref_pending r)); [lia|by eapply po_wf|done|].
    intros sig p Hne Hs. symmetry. apply Ene. intros Ep. by destruct (Hinj _ _ Hs Ep).
  - rewrite Z.add_0_r. apply jm_sum_ext. intros sig p Hin. apply Ene. intros Ep. apply E.
    apply (Hinj sig p); [|done]. apply jm_In_get; [by eapply po_wf|done].
Qed.

Lemma coalesce_core s k r e :
  core o s -> owns s k r -> core o (countSignal k (ref_lane r) (coalesce k (ref_pending r) e s)).
Proof.
  intros [] Hr. pose proof (coalesced_signals s e r k core_pending0 Hr) as Hsum.
  set (s' := countSignal _ _ _) in *. pose proof Hr as (H1 & H2 & H3).
  pose proof (live_obj _ _ _ core_lanes0 H1) as Hob.
  assert (forall b, laneAt s' b = if decide (b = ref_lane r)
            then lane_pending (pendingEvents (laneAt s b)) (pendingSignalCount (laneAt s b) + 1)
                   (laneAt s b) else laneAt s b) as El.
  { intros b. destruct Hob as [l Hl]. unfold s', countSignal, coalesce, upd_count, upd_queue, upd_lane, laneAt.
    simpl. case_decide; subst; [by rewrite lookup_alter_eq, Hl|by rewrite lookup_alter_ne]. }
  assert (forall b, pendingEvents (laneAt s' b) = pendingEvents (laneAt s b)) as Epe
    by (intros; rewrite El; by case_decide).
  assert (forall b, kind (laneAt s' b) = kind (laneAt s b)) as Eki
    by (intros; rewrite El; by case_decide).
  assert (forall k' r', owns s' k' r' <-> owns s k' r') as Eo by (intros; by apply owns_ext).
  assert (forall p, p <> ref_pending r -> priceAt s' p = priceAt s p) as Epr.
  { intros p Hpne. unfold priceAt, s'. simpl. by rewrite lookup_alter_ne. }
  assert (forall k', kget (queues s') k' =
            if decide (k = k') then update (priceAt s') (kget (queues s) k') (ref_pending r)
            else kget (queues s) k') as Equ.
  { intros k'. unfold s', coalesce. simpl. rewrite kget_kset. by case_decide; subst. }
  split; try (subst s'; unfold countSignal, coalesce; frame_from s).
  - intros b Hb. destruct (core_fresh0 b Hb) as (G1 & G2 & G3 & G4). split_and!; try done; simpl.
    + rewrite lookup_alter_ne; [done|]. intros <-.
      destruct (po_store s core_pending0 _ _ Hr) as (x & Ex & _). congruence.
    + rewrite lookup_alter_ne; [done|]. intros <-. destruct Hob. congruence.
  - pose proof core_pending0 as []. split.
    + intros key b. rewrite Epe. apply po_wf0.
    + intros k' r' (x & Ex & Hx)%Eo%po_store0. simpl. destruct (decide (ref_pending r = ref_pending r')) as [E|].
      * rewrite E, lookup_alter_eq, Ex. simpl. eexists. split; [done|]. simpl. lia.
      * rewrite lookup_alter_ne by done. eauto.
    + intros k1 k2 r1 r2. rewrite !Eo. eauto.
    + intros k' r'. rewrite Eo, <- po_heap0, Equ. case_decide; [subst k'|done].
      by rewrite (proj2 (update_spec (priceAt s') (priceAt s) _ (ref_pending r) (po_queue0 k) Epr)).
    + intros k'. rewrite Equ. case_decide.
      * apply (update_spec (priceAt s') (priceAt s)); [apply po_queue0|apply Epr].
      * apply (queue_ok_ext _ (priceAt s)); [apply po_queue0|]. intros r' Hr'%po_heap0.
        apply Epr. intros E. assert (r' = r) as -> by by eapply po_inj0. eauto using owns_kind.
    + intros key b Hb. rewrite Epe, (Hsum _ _ Hb), <- (po_signals0 _ _ Hb), El.
      case_decide; simpl; lia.
  - destruct (lane_changed_sum s s' (ref_laneKey r) (ref_lane r) _ core_lanes0 H1 eq_refl El eq_refl)
      as [Eon Eall].
    pose proof (signals_le _ _ _ core_lanes0 core_pending0 H1).
    rewrite H2 in *. split; try intros k'; rewrite ?Eon, ?Eall; subst s'; counts_solve.
Qed.

Lemma enqueue_core s now k key a sig e :
  core o s -> jm_get key (lanes s) = Some a -> kind (laneAt s a) = k ->
  jm_get sig (pendingEvents (laneAt s a)) = None ->
  core o (countSignal k a (enqueue now key a sig e s)).
Proof.
  intros [] H1 H2 H3. set (s' := countSignal _ _ _).
  pose proof (live_obj _ _ _ core_lanes0 H1) as Hob.
  destruct (core_fresh0 (nextAddr s) ltac:(lia)) as (Hnp & Hnl & Hnt & _).
  set (p := nextAddr s) in *.
  set (r := {| ref_laneKey := key; ref_lane := a; ref_signature := sig; ref_pending := p |}).
  assert (forall b, laneAt s' b = if decide (b = a)
            then lane_pending (jm_set sig p (pendingEvents (laneAt s b)))
                   (pendingSignalCount (laneAt s b) + 1) (laneAt s b) else laneAt s b) as El.
  { intros b. destruct Hob as [l Hl].
    unfold s', countSignal, enqueue, upd_count, upd_queue, upd_lane, laneAt. simpl.
    case_decide; subst; [by rewrite !lookup_alter_eq, Hl|by rewrite !lookup_alter_ne]. }
  assert (forall k' r', owns s k' r' -> ref_pending r' <> p) as Hfresh.
  { intros k' r' Hr E. destruct (po_store s core_pending0 _ _ Hr) as (x & Ex & _). congruence. }
  assert (forall k' r', owns s' k' r' <-> owns s k' r' \/ (k' = k /\ r' = r)) as Eo.
  { intros k' r'. unfold owns. change (lanes s') with (lanes s). rewrite El. case_decide as E;
      unfold lane_pending; cbn [pendingEvents kind].
    - rewrite jm_get_set, E. case_decide as E'.
      + split; [|intros [(G1 & G2 & G3)|[-> ->]]; [by rewrite <- E', H3 in G3|done]].
        intros (G1 & G2 & G3). right. split; [congruence|].
        assert (ref_laneKey r' = key) by by eapply live_inj.
        destruct r'; simpl in *; unfold r; congruence.
      + split; [by left|]. intros [G|[-> ->]]; [done|]. by simpl in E'.
    - split; [by left|]. intros [G|[-> ->]]; [done|]. by simpl in E. }
  assert (pend s' = <[p := {| pe_event := e; pe_signalCount := 1; pe_firstQueuedAt := now |}]> (pend s))
    as Epd by done.
  assert (forall q, q <> p -> priceAt s' q = priceAt s q) as Epr.
  { intros q Hq. unfold priceAt. rewrite Epd. by rewrite lookup_insert_ne. }
  assert (forall q, q <> p -> signalCountAt s' q = signalCountAt s q) as Esc.
  { intros q Hq. unfold signalCountAt. rewrite Epd. by rewrite lookup_insert_ne. }
  assert (signalCountAt s' p = 1) as Ep1 by (unfold signalCountAt; by rewrite Epd, lookup_insert_eq).
  assert (forall k', queue_ok (priceAt s') (kget (queues s) k')) as Hq.
  { intros k'. apply (queue_ok_ext _ (priceAt s)); [by apply po_queue|].
    intros r' Hr'. apply (po_heap s core_pending0) in Hr'. eauto. }
  assert (queue_ok (priceAt s') (add (priceAt s') (kget (queues s) k) r) /\
          heap (add (priceAt s') (kget (queues s) k) r) ≡ₚ r :: heap (kget (queues s) k)) as [Hadd1 Hadd2].
  { apply add_spec; [done|]. apply index_None_iff; [by destruct (Hq k)|].
    intros (r' & E & Hr')%list_elem_of_In%in_map_iff. apply list_elem_of_In in Hr'.
    apply (po_heap s core_pending0) in Hr'. by apply Hfresh in Hr'. }
  assert (kget (queues s') k = add (priceAt s') (kget (queues s) k) r) as Eqk.
  { unfold s', enqueue. simpl. rewrite kget_kset, H2, decide_True by done. done. }
  assert (forall k', k' <> k -> kget (queues s') k' = kget (queues s) k') as Eqn.
  { intros k' Hne. unfold s', enqueue. simpl. by rewrite kget_kset_ne by congruence. }
  split; try (subst s'; unfold countSignal, enqueue; frame_from s).
  - intros b Hb. simpl in Hb. destruct (core_fresh0 b ltac:(lia)) as (G1 & G2 & G3 & G4).
    split_and!; try done; simpl.
    + rewrite lookup_insert_ne by lia. done.
    + apply eq_None_not_Some. rewrite !laneIn_alter_dom. by rewrite <- eq_None_not_Some.
  - pose proof core_pending0 as []. split.
    + intros key' b Hb. rewrite El. case_decide; [apply jm_wf_set|]; by apply (po_wf0 key').
    + intros k' r'. rewrite Eo, Epd. intros [Hr|[-> ->]].
      * rewrite lookup_insert_ne by (intros E; by apply (Hfresh _ _ Hr)). eauto.
      * simpl. rewrite lookup_insert_eq. eexists. split; [done|]. simpl. lia.
    + intros k1 k2 r1 r2 [G1|[-> ->]]%Eo [G2|[-> ->]]%Eo E; [by eapply po_inj0| | |done];
        exfalso; [by apply (Hfresh _ _ G1)|by apply (Hfresh _ _ G2)].
    + intros k' r'. rewrite Eo. destruct (decide (k' = k)) as [->|].
      * rewrite Eqk, Hadd2, elem_of_cons, po_heap0. tauto.
      * rewrite Eqn, po_heap0 by done. tauto.
    + intros k'. destruct (decide (k' = k)) as [->|]; [by rewrite Eqk|by rewrite Eqn].
    + intros key' b Hb.
      assert (jm_sum (signalCountAt s') (pendingEvents (laneAt s b)) =
              jm_sum (signalCountAt s) (pendingEvents (laneAt s b))) as Hold.
      { apply jm_sum_ext. intros sig' q Hin. apply Esc. apply jm_In_get in Hin; [|by apply (po_wf0 key')].
        exact (Hfresh _ _ (pending_live s _ _ _ _ Hb Hin)). }
      rewrite El. case_decide; [subst b|by rewrite Hold; apply (po_signals0 key')].
      simpl. rewrite jm_sum_set, H3, Ep1, Hold, (po_signals0 _ _ Hb). simpl. lia.
  - destruct (lane_changed_sum s s' key a _ core_lanes0 H1 eq_refl El eq_refl) as [Eon Eall].
    pose proof (signals_le _ _ _ core_lanes0 core_pending0 H1).
    pose proof (size_le _ _ _ core_lanes0 H1).
    pose proof (jm_length_set sig p (pendingEvents (laneAt s a))) as Hlen. rewrite H3 in Hlen.
    rewrite H2 in *. split; try intros k'; rewrite ?Eon, ?Eall; subst s'; unfold enqueue;
      rewrite ?H2; counts_solve.
Qed.


(** ** Opening a lane *)

(** Cancels the cleanup timer of a kind. *)
Definition dropCleanup (k : LaneKind) (t : nat) (s : st C) : st C :=
  set_cleanups (kset (cleanups s) k None) (clearTimer (Some t) s).

Lemma dropCleanup_structure s k t :
  structure s -> kget (cleanups s) k = Some t -> structure (dropCleanup k t s).
Proof.
  intros [] Hk. pose proof (fresh_delete_timer s t str_fresh0). unfold dropCleanup.
  split; try (frame_from (set_timers (delete t (timers s)) s)); try (frame_from s).
  destruct str_timers0. split; simpl.
  - intros t' due key a cb [Hne H1]%lookup_delete_Some. eauto.
  - intros key a t' H1 H2. destruct (ti_timer0 _ _ _ H1 H2) as (due & cb & H3).
    exists due, cb. rewrite lookup_delete_ne; [done|]. intros ->.
    destruct (ti_cleanup_timer0 _ _ Hk) as [due' H4]. congruence.
  - eauto.
  - intros t' due k' [Hne H1]%lookup_delete_Some. rewrite kget_kset_ne; [eauto|].
    intros <-. apply ti_cleanup0 in H1. congruence.
  - intros k' t'. rewrite kget_kset. case_decide; [done|]. intros H1.
    destruct (ti_cleanup_timer0 _ _ H1) as [due Hd]. exists due.
    rewrite lookup_delete_ne; [done|]. intros <-.
    destruct (ti_cleanup_timer0 _ _ Hk) as [due' H4]. congruence.
Qed.

Lemma takeRetained_spec s k key d s1 :
  structure s -> takeRetainedCooldown k key s = (d, s1) ->
  structure s1 /\ same_run s s1 /\ counts s1 = counts s /\ nextAddr s1 = nextAddr s /\
  d = jm_get key (kget (cooldowns s) k) /\
  cooldowns s1 = kset (cooldowns s) k (jm_del key (kget (cooldowns s) k)) /\
  (forall k', kget (cooldowns s1) k' <> [] -> is_Some (kget (cleanups s) k') ->
     is_Some (kget (cleanups s1) k')).
Proof.
  intros Hs. unfold takeRetainedCooldown.
  destruct (jm_get key _) as [deadline|] eqn:E; intros [= <- <-].
  - generalize (jm_del key (kget (cooldowns s) k)) as m. intros m.
    set (s1 := set_cooldowns _ s).
    assert (structure s1) as Hs1 by (destruct Hs; split; frame_from s).
    assert (kget (cooldowns s1) k = m) as Ek by (simpl; by rewrite kget_kset_eq).
    destruct m as [|x m]; [|split_and!; try done; intros k' _ H; exact H].
    destruct (kget (cleanups s) k) as [t|] eqn:Ec; [|split_and!; try done; intros k' _ H; exact H].
    split_and!; try done; [by apply (dropCleanup_structure s1)|].
    intros k' Hne. simpl. rewrite kget_kset. case_decide; [|done]. subst k'. destruct (Hne Ek).
  - split_and!; try done. rewrite jm_del_absent by done. by destruct (cooldowns s), k.
Qed.

Definition freshLane (k : LaneKind) (d : Z) : HotRefreshLane :=
  {| running := false; pendingEvents := []; pendingSignalCount := 0; nextRunAt := d;
     timer := None; kind := k |}.

Definition insertLane (key : string) (l : HotRefreshLane) (s : st C) : st C :=
  set_lanes (jm_set key (nextAddr s) (lanes s))
    (set_laneObj (<[nextAddr s := l]> (laneObj s)) (set_nextAddr (S (nextAddr s)) s)).

Lemma insertLane_laneAt s key l b :
  laneAt (insertLane key l s) b = if decide (b = nextAddr s) then l else laneAt s b.
Proof.
  unfold insertLane, laneAt. simpl. case_decide; subst.
  - by rewrite lookup_insert_eq.
  - by rewrite lookup_insert_ne.
Qed.

Lemma live_not_fresh s key a :
  lanes_ok s -> fresh_ok s -> jm_get key (lanes s) = Some a -> a <> nextAddr s.
Proof.
  intros Hl Hf Hg ->. destruct (Hf (nextAddr s)) as (_ & E & _); [lia|].
  destruct (live_obj _ _ _ Hl Hg). congruence.
Qed.

Lemma insertLane_get s key l key' a :
  lanes_ok s -> fresh_ok s ->
  jm_get key' (lanes (insertLane key l s)) = Some a ->
  (key' = key /\ a = nextAddr s) \/ (key' <> key /\ jm_get key' (lanes s) = Some a /\
     laneAt (insertLane key l s) a = laneAt s a).
Proof.
  intros Hl Hf. simpl. rewrite jm_get_set. case_decide; [intros [= <-]; by left|].
  intros Hg. right. split_and!; [done|done|]. rewrite insertLane_laneAt, decide_False; [done|].
  by eapply live_not_fresh.
Qed.

Lemma insertLane_old s key l key' a :
  jm_get key (lanes s) = None -> lanes_ok s -> fresh_ok s ->
  jm_get key' (lanes s) = Some a ->
  jm_get key' (lanes (insertLane key l s)) = Some a /\
  laneAt (insertLane key l s) a = laneAt s a.
Proof.
  intros Hn Hl Hf Hg. simpl. rewrite jm_get_set, decide_False by congruence.
  rewrite insertLane_laneAt, decide_False; [done|]. by eapply live_not_fresh.
Qed.

Lemma insertLane_sum f s key l :
  jm_get key (lanes s) = None -> lanes_ok s -> fresh_ok s ->
  lane_sum f (insertLane key l s) = lane_sum f s + f l.
Proof.
  intros Hn Hl Hf. unfold lane_sum at 1.
  change (lanes (insertLane key l s)) with (jm_set key (nextAddr s) (lanes s)).
  rewrite jm_sum_set, Hn, insertLane_laneAt, decide_True by done. simpl.
  rewrite (jm_sum_ext _ (fun a => f (laneAt s a))); [unfold lane_sum; lia|].
  intros key' a Hin. apply jm_In_get in Hin; [|by destruct Hl].
  rewrite insertLane_laneAt, decide_False; [done|]. by eapply live_not_fresh.
Qed.

Lemma insertLane_structure s key d :
  structure s -> jm_get key (lanes s) = None ->
  structure (insertLane key (freshLane (key_kind key) d) s).
Proof.
  intros [] Hn. set (s' := insertLane _ _ s).
  pose proof (insertLane_get s key (freshLane (key_kind key) d)) as Hget.
  pose proof (insertLane_old s key (freshLane (key_kind key) d)) as Hold.
  pose proof (insertLane_laneAt s key (freshLane (key_kind key) d)) as Hat.
  fold s' in Hget, Hold, Hat.
  assert (laneAt s' (nextAddr s) = freshLane (key_kind key) d) as Hnew
    by (rewrite Hat; by rewrite decide_True).
  assert (forall k r, owns s' k r <-> owns s k r) as Ho.
  { intros k r. unfold owns. split.
    - intros (G1 & G2 & G3). destruct (Hget _ _ str_lanes0 str_fresh0 G1) as [[_ E]|(_ & E1 & E2)].
      + by rewrite E, Hnew in G3.
      + by rewrite E2 in *.
    - intros (G1 & G2 & G3). destruct (Hold _ _ Hn str_lanes0 str_fresh0 G1) as [E1 E2].
      by rewrite E2. }
  split.
  - pose proof str_lanes0 as (L1 & L2 & L3). split_and!; [by apply jm_wf_set| |].
    + intros k1 k2 a G1 G2.
      destruct (Hget _ _ str_lanes0 str_fresh0 G1) as [[-> ->]|(_ & E1 & _)],
        (Hget _ _ str_lanes0 str_fresh0 G2) as [[-> E]|(_ & E2 & _)]; [done| | |by eapply L2];
        exfalso; [|subst a]; by eapply live_not_fresh.
    + intros key' a G. simpl. destruct (Hget _ _ str_lanes0 str_fresh0 G) as [[-> ->]|(_ & E1 & E2)].
      * rewrite lookup_insert_eq, Hnew. eauto.
      * rewrite E2. split; [|by apply L3]. destruct (decide (a = nextAddr s)) as [->|];
          [rewrite lookup_insert_eq; eauto|]. rewrite lookup_insert_ne by done. by eapply L3.
  - intros a Ha. simpl in Ha |- *. destruct (str_fresh0 a ltac:(lia)) as (? & ? & ? & ?).
    rewrite lookup_insert_ne by lia. done.
  - pose proof str_pending0 as []. split.
    + intros key' a G. destruct (Hget _ _ str_lanes0 str_fresh0 G) as [[-> ->]|(_ & E1 & E2)].
      * rewrite Hnew. apply jm_wf_nil.
      * rewrite E2. eauto.
    + intros k r Hr%Ho. eauto.
    + intros k1 k2 r1 r2 G1%Ho G2%Ho. eauto.
    + intros k r. rewrite Ho. apply po_heap0.
    + apply po_queue0.
    + intros key' a G. destruct (Hget _ _ str_lanes0 str_fresh0 G) as [[-> ->]|(_ & E1 & E2)].
      * by rewrite Hnew.
      * rewrite E2. eauto.
  - pose proof str_passes0 as []. split; try done. intros i p Hp.
    destruct (pa_lane0 _ _ Hp) as [G1 G2]. destruct (Hold _ _ Hn str_lanes0 str_fresh0 G1) as [E1 E2].
    by rewrite E2.
  - pose proof str_timers0 as []. split; try done.
    + intros t due key' a cb G. destruct (ti_lane0 _ _ _ _ _ G) as [G1 G2].
      destruct (Hold _ _ Hn str_lanes0 str_fresh0 G1) as [E1 E2]. by rewrite E2.
    + intros key' a t G Gt. destruct (Hget _ _ str_lanes0 str_fresh0 G) as [[-> ->]|(_ & E1 & E2)].
      * by rewrite Hnew in Gt.
      * rewrite E2 in Gt. eauto.
    + intros key' a G Gr. destruct (Hget _ _ str_lanes0 str_fresh0 G) as [[-> ->]|(_ & E1 & E2)].
      * by rewrite Hnew in Gr.
      * rewrite E2 in *. eauto.
  - destruct str_ready0 as [R1 R2]. split; [done|]. intros key' a cb G.
    destruct (R2 _ _ _ G) as [G1 G2]. destruct (Hold _ _ Hn str_lanes0 str_fresh0 G1) as [E1 E2].
    by rewrite E2.
Qed.


Lemma openLane_core s e a s' :
  core o s -> isSupportedHotRefreshEvent e = true -> jm_get (createLaneKey e) (lanes s) = None ->
  getLane e s = (a, s') ->
  core o s' /\ lanes s' = jm_set (createLaneKey e) a (lanes s) /\ a = nextAddr s /\
  readyLanes s' = readyLanes s /\ activePassCount s' = activePassCount s /\
  stopped s' = stopped s /\
  exists d, forall b, laneAt s' b = if decide (b = a) then freshLane (kindOfEvent e) d else laneAt s b.
Proof.
  intros Hc Hsup Hn. unfold getLane. rewrite Hn.
  destruct (takeRetainedCooldown _ _ s) as [d s1] eqn:Et.
  pose proof (core_structure _ Hc) as Hs. pose proof (core_cooldowns _ _ Hc) as [Hwf Hap Hbo Hcl].
  pose proof (core_counts _ _ Hc) as Hco.
  destruct (takeRetained_spec _ _ _ _ _ Hs Et) as (Hs1 & Hrun & Ect & Ena & Ed & Ecd & Hkeep).
  pose proof Hrun as (El & Eo & Er & Ea & Est). rewrite <- key_kind_event in * by done.
  set (key := createLaneKey e) in *. set (k := key_kind key) in *.
  change (set_lanes _ _) with (insertLane key (freshLane k (default 0 d)) s1).
  set (s2 := insertLane _ _ s1).
  assert (jm_get key (lanes s1) = None) as Hn1 by by rewrite El.
  assert (structure s2) as Hs2 by by apply insertLane_structure.
  intros [= <- <-]. set (s3 := match d with Some _ => s2 | None => _ end).
  assert (forall f, lane_sum f s3 = lane_sum f s + f (freshLane k (default 0 d))) as Esum.
  { intros f. transitivity (lane_sum f s2); [by subst s3; destruct d|].
    unfold s2. rewrite insertLane_sum; [|done|by destruct Hs1..]. f_equal. by apply lane_sum_eq. }
  split.
  - apply core_build.
    + subst s3. destruct d; [done|]. destruct Hs2. split; frame_from s2.
    + pose proof Hco as []. pose proof (one_pos s k).
      assert (cooldowns s3 = cooldowns s1) as Ec3 by (subst s3; by destruct d).
      assert (counts s3 = match d with Some _ => counts s1 |
        None => kset (counts s1) k (bump_known 1 (kget (counts s1) k)) end) as Ek3
        by (subst s3; by destruct d).
      pose proof (jm_length_del key _ (Hwf k)) as Hlen. rewrite <- Ed in Hlen.
      split; try intros k'; rewrite Esum, ?Ek3, ?Ec3, ?Ect, ?Ecd, ?kget_kset;
        [| | | |transitivity (activePassCount s1);
          [subst s3; by destruct d|change (run_of _) with 0; lia]];
        unfold on at 2; simpl; (destruct d; [|rewrite ?kget_kset]; repeat case_decide; subst; try done; simpl;
         rewrite ?co_events0, ?co_signals0, ?co_active0, ?co_known0; unfold size_of, run_of; simpl;
         rewrite ?one_of_eq; try lia).
      destruct (kget (cooldowns s) k); simpl in *; [done|lia].
    + assert (cooldowns s3 = cooldowns s1) as Ec3 by (subst s3; by destruct d).
      assert (cleanups s3 = cleanups s1) as El3 by (subst s3; by destruct d).
      assert (lanes s3 = jm_set key (nextAddr s1) (lanes s1)) as Els by (subst s3; by destruct d).
      assert (stopped s3 = stopped s1) as Es3 by (subst s3; by destruct d).
      split; intros k'; rewrite ?Ec3, ?El3, ?Els, ?Es3, ?Ecd, ?kget_kset.
      * case_decide; [apply jm_wf_del|]; apply Hwf.
      * intros key' d'. rewrite El, jm_get_set. case_decide; subst.
        { rewrite jm_get_del. case_decide; [done|]. apply Hap. }
        intros Hg. destruct (decide (key = key')) as [<-|]; [|by eapply Hap].
        apply Hap in Hg as [Hk _]. by destruct (H Hk).
      * case_decide; [|apply Hbo]. subst k'. pose proof (jm_length_del key _ (Hwf k)) as Hlen.
        specialize (Hbo k). destruct (jm_get key (kget (cooldowns s) k)); lia.
      * intros Hst Hne. apply Hkeep; [by rewrite Ecd, kget_kset|].
        apply Hcl; [congruence|]. case_decide; [subst k'|done]. intros E. by rewrite E in Hne.
  - split_and!; try (subst s3; by destruct d); [subst s3; rewrite <- El; by destruct d|].
    exists (default 0 d). intros b. transitivity (laneAt s2 b); [subst s3; by destruct d|].
    unfold s2. rewrite insertLane_laneAt. case_decide; [done|]. by apply same_run_laneAt.
Qed.

(** ** Passes *)

(** Marks the lane running in a new pass. *)
Definition beginPass (a : nat) (p : Pass C) (s : st C) : st C :=
  let k := kind (laneAt s a) in
  let s := upd_lane a (lane_running true) s in
  let s := set_active (activePassCount s + 1) s in
  let s := upd_count k (bump_active 1) s in
  set_nextAddr (S (nextAddr s)) (set_passes (passes s ++ [(nextAddr s, p)]) s).

Lemma jm_get_app {K V} `{EqDecision K} (m1 m2 : list (K * V)) k :
  jm_get k (m1 ++ m2) = match jm_get k m1 with Some v => Some v | None => jm_get k m2 end.
Proof. induction m1 as [|[k' v] m1 IH]; simpl; [done|]. by case_decide. Qed.

Lemma run_pos s : 0 <= lane_sum run_of s.
Proof. apply jm_sum_nonneg. intros. unfold run_of. case_match; lia. Qed.

Lemma onrun_pos s k : 0 <= lane_sum (on k run_of) s.
Proof. apply jm_sum_nonneg. intros. unfold on, run_of. repeat case_match; lia. Qed.

Lemma beginPass_lane s a p b :
  is_Some (laneObj s !! a) ->
  laneAt (beginPass a p s) b = if decide (b = a) then lane_running true (laneAt s b) else laneAt s b.
Proof.
  intros [l Hl]. unfold beginPass, upd_count, upd_lane, laneAt. simpl.
  case_decide; subst; [by rewrite lookup_alter_eq, Hl|by rewrite lookup_alter_ne].
Qed.

Lemma beginPass_core s a p :
  core o s -> jm_get (pass_laneKey p) (lanes s) = Some a -> pass_lane p = a ->
  running (laneAt s a) = false -> timer (laneAt s a) = None ->
  jm_get (pass_laneKey p) (readyLanes s) = None -> core o (beginPass a p s).
Proof.
  intros [] Hg Hpa Hru Hti Hre. set (s' := beginPass a p s).
  pose proof (fun b => beginPass_lane s a p b (live_obj _ _ _ core_lanes0 Hg)) as El. fold s' in El.
  assert (forall i, jm_get i (passes s') = if decide (i = nextAddr s) then Some p
                                           else jm_get i (passes s)) as Ep.
  { intros i. simpl. rewrite jm_get_app. simpl. destruct (core_fresh0 (nextAddr s)) as (_ & _ & _ & E); [lia|].
    case_decide; subst; [by rewrite E|]. by destruct (jm_get i (passes s)). }
  split; try (subst s'; unfold beginPass; frame_from s).
  - intros b Hb. simpl in Hb. destruct (core_fresh0 b ltac:(lia)) as (G1 & G2 & G3 & G4).
    split_and!; try done; [|rewrite Ep, decide_False by lia; done]. simpl.
    apply eq_None_not_Some. rewrite laneIn_alter_dom. by rewrite <- eq_None_not_Some.
  - destruct (lane_changed_sum s s' (pass_laneKey p) a _ core_lanes0 Hg eq_refl El eq_refl) as [Eon Eall].
    pose proof (onrun_pos s (kind (laneAt s a))).
    split; try intros k'; rewrite ?Eon, ?Eall; subst s'; simpl; rewrite ?Hru; counts_solve.
    all: rewrite Hru; unfold run_of in *; try lia.
    all: match goal with H : activePassCount _ = _ |- _ => rewrite H; lia end.
  - destruct core_passes0. split.
    + simpl. unfold jm_wf, jm_keys in *. rewrite map_app. apply NoDup_app. split_and!; [done| |apply NoDup_singleton].
      intros i Hi ->%list_elem_of_singleton. apply list_elem_of_In in Hi.
      destruct (core_fresh0 (nextAddr s)) as (_ & _ & _ & E); [lia|]. by apply jm_get_None in E.
    + intros i q. rewrite Ep, El. change (lanes s') with (lanes s). case_decide.
      * intros [= <-]. split; [by rewrite Hpa|]. by rewrite Hpa, decide_True.
      * intros Hq. destruct (pa_lane0 _ _ Hq) as [G1 G2]. split; [done|]. by case_decide.
    + intros i j q1 q2. rewrite !Ep. repeat case_decide; subst; [done| | |by apply pa_inj0].
      * intros [= <-] Hq E. destruct (pa_lane0 _ _ Hq) as [_ G]. congruence.
      * intros Hq [= <-] E. destruct (pa_lane0 _ _ Hq) as [_ G]. congruence.
    + simpl. rewrite length_app. simpl. lia.
  - destruct core_timers0. split; try done.
    + intros t due key b cb G. destruct (ti_lane0 _ _ _ _ _ G). split; [done|].
      rewrite El. by case_decide.
    + intros key b t G. rewrite El. case_decide; simpl; eauto.
    + intros key b G. rewrite El. case_decide; simpl; [by subst b|eauto].
  - destruct core_ready0 as [R1 R2]. split; [done|]. intros key b cb G.
    destruct (R2 _ _ _ G) as [G1 G2]. split; [done|]. rewrite El. case_decide; [|done]. subst b.
    assert (key = pass_laneKey p) as -> by by eapply live_inj. simpl in G. congruence.
Qed.


(** A pass leaves: its lane is idle again. *)
Definition endPass (i : nat) (a : nat) (s : st C) : st C :=
  let k := kind (laneAt s a) in
  let s := set_passes (jm_del i (passes s)) s in
  let s := upd_lane a (lane_running false) s in
  let s := set_active (Z.max 0 (activePassCount s - 1)) s in
  upd_count k (bump_active (-1)) s.

Lemma run_le s key a :
  lanes_ok s -> jm_get key (lanes s) = Some a ->
  run_of (laneAt s a) <= lane_sum (on (kind (laneAt s a)) run_of) s /\
  run_of (laneAt s a) <= lane_sum run_of s.
Proof.
  intros Hl Hg. split; [rewrite <- (on_eq run_of)|];
    (eapply lane_sum_pos; [|by destruct Hl|done]); intros; unfold on, run_of; repeat case_match; lia.
Qed.

Lemma endPass_lane s i p b :
  core o s -> jm_get i (passes s) = Some p ->
  laneAt (endPass i (pass_lane p) s) b =
  if decide (b = pass_lane p) then lane_running false (laneAt s b) else laneAt s b.
Proof.
  intros [] Hi. destruct (pa_lane s core_passes0 _ _ Hi) as [Hg _].
  destruct (live_obj _ _ _ core_lanes0 Hg) as [l Hl].
  unfold endPass, upd_count, upd_lane, laneAt. simpl.
  case_decide; subst; [by rewrite lookup_alter_eq, Hl|by rewrite lookup_alter_ne].
Qed.

Lemma endPass_core s i p :
  core o s -> jm_get i (passes s) = Some p -> core o (endPass i (pass_lane p) s).
Proof.
  intros Hc Hi. pose proof (fun b => endPass_lane s i p b Hc Hi) as El. destruct Hc.
  set (s' := endPass _ _ s) in *. destruct (pa_lane s core_passes0 _ _ Hi) as [Hg Hru].
  split; try (subst s'; unfold endPass; frame_from s).
  - intros b Hb. destruct (core_fresh0 b Hb) as (G1 & G2 & G3 & G4). split_and!; try done.
    + simpl. apply eq_None_not_Some. rewrite laneIn_alter_dom. by rewrite <- eq_None_not_Some.
    + simpl. rewrite jm_get_del. by case_match.
  - destruct (lane_changed_sum s s' (pass_laneKey p) (pass_lane p) _ core_lanes0 Hg eq_refl El eq_refl)
      as [Eon Eall].
    destruct (run_le _ _ _ core_lanes0 Hg) as [R1 R2].
    assert (run_of (laneAt s (pass_lane p)) = 1) as Er1 by (unfold run_of; by rewrite Hru).
    rewrite Er1 in R1, R2.
    pose proof (co_passes s core_counts0) as Hcp. pose proof (co_active s core_counts0) as Hca.
    split; try intros k'; rewrite ?Eon, ?Eall; subst s'; simpl; rewrite ?Hru; counts_solve;
      rewrite ?Hca, ?Hcp, ?Hru; unfold run_of in *; lia.
  - destruct core_passes0. split.
    + by apply jm_wf_del.
    + intros j q. simpl. rewrite jm_get_del. case_decide; [done|]. intros Hj.
      destruct (pa_lane0 _ _ Hj) as [G1 G2]. split; [done|].
      change (running (laneAt s' (pass_lane q)) = true). rewrite El. case_decide as E; [|done].
      by destruct (pa_inj0 _ _ _ _ Hi Hj).
    + intros j1 j2 q1 q2. simpl. rewrite !jm_get_del. repeat case_decide; try done. apply pa_inj0.
    + simpl. rewrite jm_length_del, Hi by done. rewrite pa_count0.
      destruct (passes s); simpl; [done|lia].
  - destruct core_timers0. split; try done.
    + intros t due key b cb G. destruct (ti_lane0 _ _ _ _ _ G). split; [done|].
      rewrite El. by case_decide.
    + intros key b t G. rewrite El. case_decide; simpl; eauto.
    + intros key b G. rewrite El. case_decide; simpl; [done|eauto].
  - destruct core_ready0 as [R1 R2]. split; [done|]. intros key b cb G.
    destruct (R2 _ _ _ G) as [G1 G2]. split; [done|]. rewrite El. by case_decide.
Qed.

(** Only the reported signals or the retry time of a lane change. *)
Lemma onSignal_core s k t r : core o s -> core o (onSignal k t r s).
Proof. intros []. split; frame_from s. Qed.

Lemma nextRunAt_core s a v : core o s -> core o (upd_lane a (lane_nextRunAt v) s).
Proof. intros []. split; frame_from s. Qed.

Lemma dropReady_core s key : core o s -> core o (set_ready (jm_del key (readyLanes s)) s).
Proof.
  intros []. split; try frame_from s. destruct core_ready0 as [R1 R2].
  split; simpl; [by apply jm_wf_del|]. intros k a cb. rewrite jm_get_del. case_match; [done|]. eauto.
Qed.

Lemma setReady_core s key a cb :
  core o s -> jm_get key (lanes s) = Some a -> running (laneAt s a) = false ->
  core o (set_ready (jm_set key (a, cb) (readyLanes s)) s).
Proof.
  intros [] Hg Hr. split; try frame_from s. destruct core_ready0 as [R1 R2].
  split; simpl; [by apply jm_wf_set|]. intros k b cb'. rewrite jm_get_set.
  case_decide; [intros [= <- <-]; by subst k|]. eauto.
Qed.

End Ops.

End HotRefreshOps.
