(* ===== verification/HotRefreshProof.v ===== *)
(** * The hot-refresh backpressure is correct

    Every state the event loop can reach satisfies [HotRefreshInv.inv]; from it
    follow the bounds the runtime documents, the exactness of the reported lane
    state, the absence of lost wake-ups, the admission policy under a full
    budget, coalescing, and quiescence after [stop]. *)

From stdpp Require Import gmap.
From S2P Require Import Prelude JsValue Domain PendingQueue HotRefresh HotRefreshInv HotRefreshOps.

Open Scope Z_scope.

Module HotRefreshProof.
Import PendingQueue HotRefresh HotRefreshInv HotRefreshOps.

Section Proof.
Context {C : Type} (o : HotRefreshBackpressureOptions) (Ho : options_ok o).
Implicit Types s : st C.

(** A state inside an operation of a running stage; the lane key [ex], if any,
    is still being dealt with. *)
Record turn (ex : option string) s : Prop := {
  tu_core : core o s;
  tu_bounded : bounded o s;
  tu_quiet : quiet o ex s;
  tu_open : stopped s = false;
}.

Lemma quiet_weaken ex s : quiet o None s -> quiet o ex s.
Proof. intros []. split; intros key a Hg _; eauto. Qed.

Lemma turn_weaken ex s : turn None s -> turn ex s.
Proof. intros []. split; try done. by apply quiet_weaken. Qed.

(** The exempt lane is served after all. *)
Lemma quiet_close s key a :
  quiet o (Some key) s -> jm_get key (lanes s) = Some a ->
  (pendingEvents (laneAt s a) <> [] -> running (laneAt s a) = true \/
     is_Some (timer (laneAt s a)) \/ is_Some (jm_get key (readyLanes s))) ->
  (running (laneAt s a) = true \/ pendingEvents (laneAt s a) <> []) -> quiet o None s.
Proof.
  intros [H1 H2] Hg Hs Hb.
  split; intros key' b Hg' _; (destruct (decide (key' = key)) as [->|];
    [assert (b = a) as -> by congruence; auto|]); [apply (H1 key')|apply (H2 key')]; first [done | congruence].
Qed.

(** Operations on one lane leave the others quiet. *)
Lemma quiet_other s s' key a :
  jm_get key (lanes s) = Some a -> lanes_ok s -> lanes s' = lanes s ->
  (forall b, b <> a -> laneAt s' b = laneAt s b) ->
  (forall key', key' <> key -> jm_get key' (readyLanes s') = jm_get key' (readyLanes s)) ->
  quiet o (Some key) s -> quiet o (Some key) s'.
Proof.
  intros Hg Hl El Ela Er [H1 H2].
  split; rewrite El; intros key' b Hg' Hne; (assert (key' <> key) as Hk by congruence);
    rewrite ?Er, Ela by first [done | intros ->; apply Hk; by eapply live_inj]; eauto.
Qed.

Lemma drop_turn s key a :
  turn (Some key) s -> vacant s key a -> forall s', core o s' -> same_run (dropLane key s) s' ->
  turn None s' /\ (full o s -> full o s').
Proof.
  intros [Hc Hb Hq Hop] Hv s' Hc' Hrun. pose proof Hv as (Hg & Hp & Hr & _).
  pose proof (core_lanes _ _ Hc) as Hl. split; [split; [done| | |]|].
  - apply (same_run_bounded o _ _ Hrun). destruct Hb. split; [|done]. intros k.
    rewrite (dropLane_lane_sum _ s key a) by done.
    pose proof (on_vacant _ _ _ k Hv (core_pending _ _ Hc)). specialize (bo_events0 k). lia.
  - apply (same_run_quiet o _ _ _ Hrun). destruct Hq as [H1 H2].
    split; intros key' b [Hne Hg']%dropLane_get _; simpl.
    + intros Hpe. rewrite jm_get_del, decide_False by congruence. apply H1; [done|congruence|done].
    + apply (H2 key'); [done|congruence].
  - by destruct Hrun as (_ & _ & _ & _ & ->).
  - intros Hf. apply (same_run_full o _ _ Hrun). intros Hne. apply Hf. intros E. apply Hne. simpl. by rewrite E.
Qed.

Lemma removeLaneIfIdle_turn now s key a :
  turn (Some key) s -> jm_get key (lanes s) = Some a ->
  (pendingEvents (laneAt s a) = [] -> running (laneAt s a) = true \/ timer (laneAt s a) = None) ->
  (pendingEvents (laneAt s a) <> [] -> running (laneAt s a) = true \/
     is_Some (timer (laneAt s a)) \/ is_Some (jm_get key (readyLanes s))) ->
  let s' := removeLaneIfIdle o now key a s in
  turn None s' /\ (full o s -> full o s') /\
  (s' = s \/ (vacant s key a /\ same_run (dropLane key s) s')).
Proof.
  intros Ht Hg H1 H2. pose proof Ht as [Hc Hb Hq Hop]. cbv zeta.
  destruct (removeLaneIfIdle_spec o now s key a Ho Hc Hg) as [(Hv & Hc' & Hrun)|(-> & Hbusy)].
  - destruct (drop_turn s key a Ht Hv _ Hc' Hrun). auto.
  - split_and!; [|done|by left]. split; try done. apply (quiet_close s key a); try done.
    destruct Hbusy as [?|[?|?]]; [by left| |by right].
    destruct (pendingEvents (laneAt s a)) eqn:E; [|by right].
    destruct H1 as [?|Hti]; [done|by left|]. rewrite Hti in *. by destruct H.
Qed.

Lemma bounded_passes_lt s : bounded o s -> activePassCount s <= maxConcurrentPasses o.
Proof. by intros []. Qed.

(** [startLane] on a lane that waits. *)
Lemma startLane_turn s key a cb :
  turn (Some key) s -> jm_get key (lanes s) = Some a -> pendingEvents (laneAt s a) <> [] ->
  running (laneAt s a) = false -> timer (laneAt s a) = None ->
  let s' := startLane o key a cb s in
  turn None s' /\ (full o s -> full o s') /\
  (activePassCount s < maxConcurrentPasses o ->
     readyLanes s' = jm_del key (readyLanes s)).
Proof.
  intros [Hc Hb Hq Hop] Hg Hpe Hru Hti. cbv zeta. pose proof (core_lanes _ _ Hc) as Hl.
  unfold startLane. rewrite Hop. destruct (pendingEvents (laneAt s a)) as [|x m] eqn:Em; [done|].
  clear Hpe. destruct (_ <=? _) eqn:Ecap; zbool.
  { split_and!; [|by intros _ _|lia]. split; [by apply setReady_core| | |done].
    - revert Hb. apply bounded_ext; done.
    - apply (quiet_close _ key a); [|done| |].
      + revert Hq. apply (quiet_other s _ key a); try done. intros k' Hk. simpl.
        by rewrite jm_get_set, decide_False.
      + intros _. right. right. simpl. rewrite jm_get_set_eq. eauto.
      + right. simpl. unfold laneAt in *. simpl. by rewrite Em. }
  set (s1 := set_ready (jm_del key (readyLanes s)) s).
  assert (core o s1) as Hc1 by by apply dropReady_core.
  set (p := {| pass_laneKey := key; pass_lane := a; pass_callback := cb; pass_events := _ |}).
  assert (core o (clearLanePending a s1)) as Hc2 by by apply (clearLanePending_core o s1 key).
  set (s2 := clearLanePending a s1) in *.
  assert (kind (laneAt s1 a) = kind (laneAt s2 a)) as Ek.
  { destruct (live_obj _ _ _ Hl Hg) as [l Hll]. unfold s2, clearLanePending.
    rewrite laneAt_upd_eq; [done|]. simpl. eauto. }
  rewrite Ek. change (set_nextAddr _ _) with (beginPass a p s2).
  assert (forall b, laneAt s2 b = if decide (b = a) then lane_pending [] 0 (laneAt s b) else laneAt s b) as E2.
  { intros b. destruct (live_obj _ _ _ Hl Hg) as [l Hll].
    unfold s2, clearLanePending, upd_count, upd_queue, upd_lane, laneAt. simpl.
    case_decide; subst; [by rewrite lookup_alter_eq, Hll|by rewrite lookup_alter_ne]. }
  assert (core o (beginPass a p s2)) as Hc3.
  { apply beginPass_core; try done.
    - by rewrite E2, decide_True.
    - by rewrite E2, decide_True.
    - simpl. apply jm_get_del_eq. }
  assert (forall b, laneAt (beginPass a p s2) b =
            if decide (b = a) then lane_running true (lane_pending [] 0 (laneAt s b)) else laneAt s b) as E3.
  { intros b. rewrite beginPass_lane by by apply (live_obj s2 key a (core_lanes _ _ Hc2)).
    rewrite E2. by case_decide. }
  destruct (lane_changed_sum s (beginPass a p s2) key a _ Hl Hg eq_refl E3 eq_refl) as [Eon _].
  split_and!; [split; [done| | |done]| |done].
  - destruct Hb. split; [|simpl; lia]. intros k. rewrite Eon. specialize (bo_events0 k).
    assert (0 <= size_of (laneAt s a)) by apply Zle_0_nat.
    change (size_of (lane_running _ _)) with 0. case_decide; lia.
  - apply (quiet_close _ key a); [|done| |].
    + revert Hq. apply (quiet_other s _ key a); try done.
      * intros b Hne. by rewrite E3, decide_False.
      * intros k' Hk. simpl. by rewrite jm_get_del, decide_False.
    + intros _. left. by rewrite E3, decide_True.
    + left. by rewrite E3, decide_True.
  - intros Hf Hne. exfalso. assert (readyLanes s <> []) as Hne'; [|specialize (Hf Hne'); lia].
    intros E. apply Hne. simpl. by rewrite E.
Qed.

(** ** The ready queue *)

Lemma popReady_turn s key a cb m :
  turn None s -> readyLanes s = (key, (a, cb)) :: m ->
  let s1 := set_ready (jm_del key (readyLanes s)) s in
  turn (Some key) s1 /\ jm_get key (lanes s) = Some a /\ running (laneAt s a) = false /\
  pendingEvents (laneAt s a) <> [] /\ (length (readyLanes s1) < length (readyLanes s))%nat.
Proof.
  intros [Hc Hb Hq Hop] E. cbv zeta. pose proof (core_ready _ _ Hc) as [R1 R2].
  assert (jm_get key (readyLanes s) = Some (a, cb)) as Hr by (rewrite E; simpl; by rewrite decide_True).
  destruct (R2 _ _ _ Hr) as [Hg Hru].
  split_and!; [split|done|done| |].
  - by apply dropReady_core.
  - revert Hb. by apply bounded_ext.
  - apply (quiet_other s _ key a); try done.
    + apply (core_lanes _ _ Hc).
    + intros k' Hk. simpl. by rewrite jm_get_del, decide_False.
    + by apply quiet_weaken.
  - done.
  - destruct (qu_busy _ _ _ Hq key a Hg) as [H|H]; [done|congruence|done].
  - simpl. rewrite jm_length_del, Hr by done. rewrite E. simpl. lia.
Qed.

Lemma startReadyLanes_turn now fuel s :
  turn None s -> (length (readyLanes s) <= fuel)%nat ->
  let s' := startReadyLanes o fuel now s in turn None s' /\ full o s'.
Proof.
  revert s. induction fuel as [|fuel IH]; simpl; intros s Ht Hlen.
  { split; [done|]. intros Hne. destruct (readyLanes s); simpl in *; [done|lia]. }
  rewrite (tu_open _ _ Ht). simpl. destruct (_ <? _) eqn:Ecap; zbool; [|by split; [|intros _]].
  destruct (readyLanes s) as [|[key [a cb]] m] eqn:Er; [by split; [|intros Hne]|].
  destruct (popReady_turn _ _ _ _ _ Ht Er) as (Ht1 & Hg & Hru & Hpe & Hl1).
  rewrite Er in Ht1, Hl1. set (s1 := set_ready _ s) in *. simpl in Hl1.
  change (laneAt s) with (laneAt s1) in Hru, Hpe. rewrite Hru.
  assert ((length (pendingEvents (laneAt s1 a)) =? 0)%nat = false) as ->
    by (apply Nat.eqb_neq; destruct (pendingEvents (laneAt s1 a)); [done|simpl; lia]).
  rewrite orb_false_r. simpl. destruct (timer (laneAt s1 a)) as [t|] eqn:Eti.
  - rewrite bool_decide_eq_true_2 by eauto.
    destruct (removeLaneIfIdle_turn now s1 key a Ht1 Hg) as (Ht2 & _ & [->|[(_ & H & _) _]]).
    + done.
    + intros _. right. left. by rewrite Eti.
    + apply IH; [|simpl in *; lia].
      destruct (removeLaneIfIdle_spec o now s1 key a Ho (tu_core _ _ Ht1) Hg) as [((_ & H & _) & _)|[E _]];
        [done|]. destruct Ht1. split; try done. apply (quiet_close _ key a); try done; [|by right].
      intros _. right. left. by rewrite Eti.
    + done.
  - rewrite bool_decide_eq_false_2 by (by intros []).
    destruct (startLane_turn s1 key a cb Ht1 Hg Hpe Hru Eti) as (Ht2 & _ & H3).
    apply IH; [done|]. rewrite H3 by (simpl; lia).
    etrans; [apply jm_length_del_le|]. simpl in *. lia.
Qed.

Lemma wakeLane_turn now s key a cb :
  turn (Some key) s -> full o s -> jm_get key (lanes s) = Some a ->
  pendingEvents (laneAt s a) <> [] ->
  let s' := wakeLane o now key a cb s in turn None s' /\ full o s'.
Proof.
  intros Ht Hf Hg Hpe. pose proof Ht as [Hc Hb Hq Hop]. cbv zeta. unfold wakeLane.
  destruct (running (laneAt s a)) eqn:Hru; simpl.
  { split; [|done]. split; try done. apply (quiet_close _ key a); auto. }
  destruct (timer (laneAt s a)) as [t|] eqn:Hti.
  { rewrite bool_decide_eq_true_2 by eauto. split; [|done]. split; try done.
    apply (quiet_close _ key a); try done; auto. }
  rewrite bool_decide_eq_false_2 by (by intros []). case_match.
  - pose proof (scheduleLane_core o s now key a cb (Z.max 0 (nextRunAt (laneAt s a) - now)) Hc Hg Hti Hru)
      as Hc'. set (s' := scheduleLane _ _ _ _ _ _) in *.
    destruct (live_obj _ _ _ (core_lanes _ _ Hc) Hg) as [l Hl].
    assert (forall b, laneAt s' b = if decide (b = a) then lane_timer (Some (nextAddr s)) (laneAt s b)
              else laneAt s b) as El.
    { intros b. unfold s', scheduleLane, upd_lane, laneAt. simpl.
      case_decide; subst; [by rewrite lookup_alter_eq, Hl|by rewrite lookup_alter_ne]. }
    split; [|done]. split; [done| | |done].
    + revert Hb. apply bounded_ext; try done; intros; rewrite El; by case_decide.
    + apply (quiet_close _ key a); try done.
      * revert Hq. apply (quiet_other s _ key a); try done; [apply (core_lanes _ _ Hc)|].
        intros b Hne. by rewrite El, decide_False.
      * intros _. right. left. rewrite El, decide_True by done. by eexists.
      * right. by rewrite El, decide_True.
  - destruct (startLane_turn s key a cb Ht Hg Hpe Hru Hti) as (? & ? & _). auto.
Qed.


(** ** Between two turns *)

Lemma jm_sum_zero {K V} (m : list (K * V)) : jm_sum (fun _ => 0) m = 0.
Proof. induction m as [|[k v] m IH]; simpl; lia. Qed.

Lemma jm_sum_add {K V} (f g : V -> Z) (m : list (K * V)) :
  jm_sum (fun v => f v + g v) m = jm_sum f m + jm_sum g m.
Proof. induction m as [|[k v] m IH]; simpl; lia. Qed.

(** A live lane is running or holds a pending event, so the budgets bound the
    number of live lanes. *)
Lemma quiet_live_bound s :
  core o s -> bounded o s -> quiet o None s -> forall k,
  lane_sum (on k one_of) s <= getMaxPendingSignatures o k + maxConcurrentPasses o.
Proof.
  intros [] [] [_ H2] k. specialize (bo_events0 k).
  assert (lane_sum (on k one_of) s <= lane_sum (on k size_of) s + lane_sum run_of s).
  { unfold lane_sum. rewrite <- jm_sum_add. apply jm_sum_le. intros key a Hin.
    apply jm_In_get in Hin; [|by destruct core_lanes0].
    destruct (H2 _ _ Hin) as [E|E]; [done| |]; unfold on, one_of, size_of, run_of.
    - rewrite E. case_decide; lia.
    - destruct (pendingEvents (laneAt s a)); [done|]. simpl. repeat case_match; lia. }
  rewrite <- (co_passes _ core_counts0) in *. lia.
Qed.

Lemma turn_inv s : turn None s -> full o s -> inv o s.
Proof.
  intros [] Hf. split; try done.
  - by apply quiet_live_bound.
  - congruence.
Qed.

Lemma inv_turn s : inv o s -> stopped s = false -> turn None s /\ full o s.
Proof. intros [] Hop. destruct (inv_quiet0 Hop). done. Qed.

Lemma finishPass_open now i s :
  inv o s -> stopped s = false -> inv o (finishPass o now i s).
Proof.
  intros Hi Hop. destruct (inv_turn s Hi Hop) as [[Hc Hb Hq _] Hf].
  unfold finishPass. destruct (jm_get i (passes s)) as [p|] eqn:Ep; [|done].
  destruct (pa_lane _ (core_passes _ _ Hc) _ _ Ep) as [Hg Hru].
  set (k := kind (laneAt s (pass_lane p))). set (a := pass_lane p) in *.
  change (upd_count k _ _) with (endPass i a s).
  pose proof (fun b => endPass_lane o s i p b Hc Ep) as El1. fold a in El1.
  pose proof (endPass_core o s i p Hc Ep) as Hc1. fold a in Hc1.
  set (s1 := endPass i a s) in *. change (stopped s1) with (stopped s). rewrite Hop.
  set (s2 := upd_lane a _ s1).
  assert (core o s2) as Hc2 by by apply nextRunAt_core.
  destruct (live_obj _ _ _ (core_lanes _ _ Hc1) Hg) as [l Hl].
  assert (forall b, laneAt s2 b = if decide (b = a)
            then lane_nextRunAt (now + getCooldownMs o k) (lane_running false (laneAt s b))
            else laneAt s b) as El2.
  { intros b. unfold s2. rewrite laneAt_upd, El1. case_decide; [|done]. subst b.
    pose proof (El1 a) as E. unfold laneAt at 1 in E. rewrite Hl, decide_True in E by done.
    by rewrite Hl, E. }
  assert (turn (Some (pass_laneKey p)) s2) as Ht2.
  { split; [done| | |done].
    - pose proof (co_passes _ (core_counts _ _ Hc)). pose proof (run_pos s). destruct Hb as [Hb1 Hb2].
      split; [|simpl; lia]. intros k'. specialize (Hb1 k').
      rewrite (lane_sum_ext _ s s2); [done|done|]. intros b. rewrite El2. by case_decide.
    - apply (quiet_other s _ (pass_laneKey p) a); try done; [by destruct Hc| |by apply quiet_weaken].
      intros b Hne. by rewrite El2, decide_False. }
  assert (timer (laneAt s2 a) = None) as Hti2.
  { rewrite El2, decide_True by done. simpl. by apply (ti_running _ (core_timers _ _ Hc) (pass_laneKey p)). }
  assert (running (laneAt s2 a) = false) as Hru2 by (by rewrite El2, decide_True).
  assert (turn None (if (0 <? length (pendingEvents (laneAt s2 a)))%nat
     then scheduleLane now (pass_laneKey p) a (pass_callback p) (getCooldownMs o k) s2
     else retainLaneCooldown o now (pass_laneKey p) a s2)) as Ht3.
  { destruct (_ <? _)%nat eqn:En.
    - pose proof (scheduleLane_core o s2 now (pass_laneKey p) a (pass_callback p) (getCooldownMs o k)
        Hc2 Hg Hti2 Hru2) as Hc3. set (s3 := scheduleLane _ _ _ _ _ _) in *.
      destruct (live_obj _ _ _ (core_lanes _ _ Hc2) Hg) as [l2 Hl2].
      assert (forall b, laneAt s3 b = if decide (b = a) then lane_timer (Some (nextAddr s2)) (laneAt s2 b)
                else laneAt s2 b) as El3.
      { intros b. unfold s3, scheduleLane, upd_lane, laneAt. simpl in Hl2 |- *.
        case_decide as Eb; [by rewrite Eb, lookup_alter_eq, Hl2|by rewrite lookup_alter_ne]. }
      destruct Ht2 as [_ Hb2 Hq2 Hop2]. split; [done| | |done].
      + revert Hb2. apply bounded_ext; try done; intros; rewrite El3; by case_decide.
      + apply (quiet_close _ (pass_laneKey p) a); try done.
        * revert Hq2. apply (quiet_other s2 _ _ a); try done; [by destruct Hc2|].
          intros b Hne. by rewrite El3, decide_False.
        * intros _. right. left. rewrite El3, decide_True by done. by eexists.
        * right. rewrite El3, decide_True by done. simpl.
          intros E. by rewrite E in En.
    - assert (vacant s2 (pass_laneKey p) a) as Hv.
      { split_and!; try done. destruct (pendingEvents (laneAt s2 a)); done. }
      destruct (retainLaneCooldown_spec o now s2 _ a Ho Hc2 Hv) as [Hc3 Hrun].
      by apply (drop_turn s2 _ a Ht2 Hv). }
  destruct (startReadyLanes_turn now _ _ Ht3 (le_n _)) as [H4 H5]. by apply turn_inv.
Qed.


(** ** Timers *)

Lemma fireCleanup_open now k t due s :
  inv o s -> stopped s = false -> timers s !! t = Some (due, CleanupTimer k) ->
  inv o (fireTimer o now t s).
Proof.
  intros Hi Hop Et. destruct (inv_turn s Hi Hop) as [[Hc Hb Hq _] Hf].
  unfold fireTimer. rewrite Et.
  pose proof (ti_cleanup _ (core_timers _ _ Hc) _ _ _ Et) as Hk.
  change (set_cleanups _ _) with (dropCleanup k t s).
  pose proof (dropCleanup_structure s k t (core_structure _ _ Hc) Hk) as Hs.
  pose proof Hc as [_ _ _ Hco _ _ _ [Hwf Hap Hbo Hcl]].
  destruct (expireRetained_spec o now k (dropCleanup k t s) Hs) as [Hc' Hrun].
  - revert Hco. by apply counts_ok_ext.
  - by split.
  - apply Hbo.
  - intros k' Hne _ Hnil. simpl. rewrite kget_kset_ne by done. by apply Hcl.
  - apply turn_inv; [split; [done| | |]|].
    + apply (same_run_bounded o s); done.
    + by apply (same_run_quiet o None s).
    + by destruct Hrun as (_ & _ & _ & _ & ->).
    + by apply (same_run_full o s).
Qed.

Lemma cancelTimer_lane s key a b :
  lanes_ok s -> jm_get key (lanes s) = Some a ->
  laneAt (upd_lane a (lane_timer None) (clearTimer (timer (laneAt s a)) s)) b =
  if decide (b = a) then lane_timer None (laneAt s b) else laneAt s b.
Proof.
  intros Hl Hg. destruct (live_obj _ _ _ Hl Hg) as [l El].
  unfold upd_lane, laneAt, clearTimer. rewrite El.
  destruct (timer l); simpl; (case_decide as Eb;
    [by rewrite Eb, lookup_alter_eq, El|by rewrite lookup_alter_ne]).
Qed.

Lemma cancelTimer_turn s key a :
  turn (Some key) s -> jm_get key (lanes s) = Some a ->
  turn (Some key) (upd_lane a (lane_timer None) (clearTimer (timer (laneAt s a)) s)).
Proof.
  intros [Hc Hb Hq Hop] Hg. pose proof (core_lanes _ _ Hc) as Hl.
  pose proof (fun b => cancelTimer_lane s key a b Hl Hg) as El.
  pose proof (cancelTimer_core o s key a Hc Hg) as Hc'. set (s' := upd_lane _ _ _) in *.
  assert (lanes s' = lanes s /\ activePassCount s' = activePassCount s /\
          readyLanes s' = readyLanes s /\ stopped s' = stopped s) as (E1 & E2 & E3 & E4)
    by (subst s'; by destruct (timer (laneAt s a))).
  split; [done| | |congruence].
  - revert Hb. apply bounded_ext; try done; intros; rewrite El; by case_decide.
  - revert Hq. apply (quiet_other s _ key a); try done.
    + intros b Hne. by rewrite El, decide_False.
    + intros. by rewrite E3.
Qed.

Lemma fireLane_open now key a cb t due s :
  inv o s -> stopped s = false -> timers s !! t = Some (due, LaneTimer key a cb) ->
  inv o (fireTimer o now t s).
Proof.
  intros Hi Hop Et. destruct (inv_turn s Hi Hop) as [Ht Hf]. pose proof Ht as [Hc Hb Hq _].
  unfold fireTimer. rewrite Et.
  destruct (ti_lane _ (core_timers _ _ Hc) _ _ _ _ _ Et) as [Hg Hti].
  pose proof (cancelTimer_turn s key a (turn_weaken _ _ Ht) Hg) as Ht1.
  pose proof (cancelTimer_lane s key a a (core_lanes _ _ Hc) Hg) as El.
  rewrite Hti, decide_True in * by done. change (clearTimer (Some t) s) with (set_timers (delete t (timers s)) s) in *.
  set (s1 := upd_lane a _ _) in *. change (stopped s1) with (stopped s). rewrite Hop.
  assert (running (laneAt s a) = false) as Hru.
  { destruct (running (laneAt s a)) eqn:E; [|done].
    pose proof (ti_running _ (core_timers _ _ Hc) _ _ Hg E). congruence. }
  assert (pendingEvents (laneAt s a) <> []) as Hpe.
  { destruct (qu_busy _ _ _ Hq _ _ Hg) as [H|H]; [done|congruence|done]. }
  rewrite El. simpl. rewrite Hru.
  assert ((0 <? length (pendingEvents (laneAt s a)))%nat = true) as ->
    by (destruct (pendingEvents (laneAt s a)); done).
  destruct (startLane_turn s1 key a cb) as (H1 & H2 & _); try done; try (by rewrite El).
  apply turn_inv; auto.
Qed.

(** ** Events *)


Definition same_fields s s' : Prop :=
  lanes s' = lanes s /\ readyLanes s' = readyLanes s /\ activePassCount s' = activePassCount s /\
  (forall b, kind (laneAt s' b) = kind (laneAt s b)) /\
  (forall b, pendingEvents (laneAt s' b) = pendingEvents (laneAt s b)).

Lemma same_fields_refl s : same_fields s s.
Proof. done. Qed.

Lemma cancelTimer_same s a t :
  same_fields s (upd_lane a (lane_timer None) (clearTimer t s)).
Proof. destruct t; split_and!; frame_side. Qed.

(** Making room for an event of lane [key]. *)
Lemma evict_turn now k key r s :
  turn None s -> owns s k r ->
  let s' := evict o now k key r s in
  turn (Some key) s' /\ (full o s -> full o s') /\
  (forall k', lane_sum (on k' size_of) s' =
     lane_sum (on k' size_of) s - if decide (k = k') then 1 else 0) /\
  jm_get key (lanes s') = jm_get key (lanes s) /\
  (forall a, jm_get key (lanes s) = Some a ->
     kind (laneAt s' a) = kind (laneAt s a) /\
     forall sig, jm_get sig (pendingEvents (laneAt s a)) = None ->
                 jm_get sig (pendingEvents (laneAt s' a)) = None).
Proof.
  intros Ht Hr. pose proof Ht as [Hc Hb Hq Hop]. pose proof Hc as [Hl _ Hp _ _ Hti _ _].
  pose proof Hr as (Hg & Hk & Hs). cbv zeta. unfold evict.
  set (ty := match pend s !! ref_pending r with Some x => _ | None => _ end). clearbody ty.
  set (a := ref_lane r) in *. set (wk := ref_laneKey r) in *.
  pose proof (fun b => detachPending_lane s k r b Hl Hp Hr) as El. fold a in El.
  set (s1 := onSignal k ty Evicted (detachPending k r s)).
  assert (core o s1) as Hc1 by by apply onSignal_core, detachPending_core.
  change (laneAt (detachPending k r s)) with (laneAt s1) in El.
  destruct (lane_changed_sum s s1 wk a _ Hl Hg eq_refl El eq_refl) as [Eon _].
  assert (length (jm_del (ref_signature r) (pendingEvents (laneAt s a))) =
          (length (pendingEvents (laneAt s a)) - 1)%nat /\
          (0 < length (pendingEvents (laneAt s a)))%nat) as [Hlen Hpos].
  { rewrite jm_length_del, Hs by (by eapply po_wf).
    destruct (pendingEvents (laneAt s a)); [done|simpl; lia]. }
  assert (forall k', lane_sum (on k' size_of) s1 =
     lane_sum (on k' size_of) s - if decide (k = k') then 1 else 0) as Esz.
  { intros k'. rewrite Eon, Hk.
    assert (size_of (lane_pending (jm_del (ref_signature r) (pendingEvents (laneAt s a)))
       (pendingSignalCount (laneAt s a) - signalCountAt s (ref_pending r)) (laneAt s a)) =
       size_of (laneAt s a) - 1) as -> by (unfold size_of; simpl; lia). case_decide; lia. }
  assert (turn (Some wk) s1) as Ht1.
  { split; [done| | |done].
    - destruct Hb as [Hb1 Hb2]. split; [|done]. intros k'. rewrite Esz. specialize (Hb1 k').
      case_decide; lia.
    - apply (quiet_other s _ wk a); try done; [|by apply quiet_weaken].
      intros b Hne. by rewrite El, decide_False. }
  destruct (String.eqb_spec wk key) as [<-|Hne]; cbn [negb].
  { split_and!; try done. intros b Hb'. assert (b = a) as -> by congruence.
    rewrite El, decide_True by done. simpl. split; [done|]. intros sig Hsig.
    rewrite jm_get_del. by case_decide. }
  set (s2 := cancelIdleTimer a s1).
  assert (turn (Some wk) s2 /\ same_fields s1 s2 /\
          (pendingEvents (laneAt s2 a) = [] -> running (laneAt s2 a) = true \/ timer (laneAt s2 a) = None) /\
          (pendingEvents (laneAt s2 a) <> [] -> running (laneAt s2 a) = true \/
             is_Some (timer (laneAt s2 a)) \/ is_Some (jm_get wk (readyLanes s2)))) as
    (Ht2 & Hsame & Hv1 & Hv2).
  { unfold s2, cancelIdleTimer. destruct (_ && _ && _) eqn:E.
    - zbool. apply Nat.eqb_eq in H. pose proof (cancelTimer_turn s1 wk a Ht1 Hg) as H3.
      pose proof (fun b => cancelTimer_lane s1 wk a b (core_lanes _ _ Hc1) Hg) as E3.
      split; [exact H3|split; [|split]].
      + apply cancelTimer_same.
      + intros _. right. by rewrite E3, decide_True.
      + rewrite E3, decide_True by done. simpl. intros Hn. by destruct (pendingEvents (laneAt s1 a)).
    - split; [exact Ht1|split; [apply same_fields_refl|split]].
      + intros Hnil. rewrite Hnil in E. simpl in E. destruct (running (laneAt s1 a)); [by left|].
        right. destruct (timer (laneAt s1 a)); [|done].
        by rewrite bool_decide_eq_true_2 in E by eauto.
      + rewrite El, decide_True by done. simpl. intros _.
        apply (qu_served _ _ _ Hq wk a Hg); [done|]. intros E0. rewrite E0 in Hpos. simpl in Hpos. lia. }
  destruct Hsame as (F1 & F2 & F3 & F4 & F5).
  assert (jm_get wk (lanes s2) = Some a) as Hg2 by by rewrite F1.
  destruct (removeLaneIfIdle_turn now s2 wk a Ht2 Hg2 Hv1 Hv2) as (Ht3 & Hf3 & Hcase).
  set (s3 := removeLaneIfIdle o now wk a s2) in *.
  assert (jm_get key (lanes s3) = jm_get key (lanes s) /\ (forall b, laneAt s3 b = laneAt s2 b) /\
          (forall k', lane_sum (on k' size_of) s3 = lane_sum (on k' size_of) s2)) as (G1 & G2 & G3).
  { destruct Hcase as [->|[Hv Hrun]]; [by rewrite F1|]. pose proof Hrun as (L1 & _).
    split_and!.
    - rewrite L1. simpl. rewrite jm_get_del, decide_False by done. by rewrite F1.
    - intros b. by rewrite (same_run_laneAt _ _ _ Hrun).
    - intros k'. rewrite (lane_sum_eq _ (dropLane wk s2) s3) by apply Hrun.
      rewrite (dropLane_lane_sum _ _ wk a) by (done || apply (tu_core _ _ Ht2)).
      destruct (on_vacant _ _ _ k' Hv (core_pending _ _ (tu_core _ _ Ht2))) as [-> _]. lia. }
  split_and!; [by apply turn_weaken| | |done|].
  - intros Hf. apply Hf3. unfold full. rewrite F2, F3. exact Hf.
  - intros k'. rewrite G3. rewrite <- Esz. apply lane_sum_ext; [done|]. intros b.
    unfold on, size_of. by rewrite F4, F5.
  - intros b Hb'. rewrite G2, F4, F5. rewrite El.
    assert (b <> a) by (intros ->; apply Hne; by eapply live_inj).
    by rewrite decide_False.
Qed.


(** Finding or opening the lane of an event. *)
Lemma laneFor_turn s e a s' :
  turn (Some (createLaneKey e)) s -> isSupportedHotRefreshEvent e = true ->
  match jm_get (createLaneKey e) (lanes s) with Some lane => (lane, s) | None => getLane e s end = (a, s') ->
  turn (Some (createLaneKey e)) s' /\ (full o s -> full o s') /\
  jm_get (createLaneKey e) (lanes s') = Some a /\ kind (laneAt s' a) = kindOfEvent e /\
  (forall k, lane_sum (on k size_of) s' = lane_sum (on k size_of) s) /\
  (jm_get (createLaneKey e) (lanes s) = Some a /\ s' = s \/
   jm_get (createLaneKey e) (lanes s) = None /\ pendingEvents (laneAt s' a) = []).
Proof.
  intros [Hc Hb Hq Hop] Hsup. set (key := createLaneKey e) in *.
  destruct (jm_get key (lanes s)) as [lane|] eqn:Eg.
  { intros [= <- <-]. split_and!; try done; [|by left].
    rewrite (live_kind _ _ _ (core_lanes _ _ Hc) Eg). by apply key_kind_event. }
  intros Hget. destruct (openLane_core o s e a s' Hc Hsup Eg Hget)
    as (Hc' & El & Ea & Er & Eact & Est & d & Hat). fold key in El.
  assert (forall key' b, jm_get key' (lanes s') = Some b -> key' <> key ->
            jm_get key' (lanes s) = Some b /\ laneAt s' b = laneAt s b) as Hold.
  { intros key' b G Hne. rewrite El, jm_get_set, decide_False in G by congruence.
    split; [done|]. rewrite Hat, decide_False; [done|]. rewrite Ea.
    eapply live_not_fresh; [apply (core_lanes _ _ Hc)|apply (core_fresh _ _ Hc)|done]. }
  assert (forall f, f (freshLane (kindOfEvent e) d) = 0 -> lane_sum f s' = lane_sum f s) as Hsum.
  { intros f Hf. unfold lane_sum. rewrite El, jm_sum_set, Eg. simpl.
    rewrite Hat, decide_True, Hf by done.
    rewrite (jm_sum_ext _ (fun b => f (laneAt s b)) (lanes s)); [lia|].
    intros key' b Hin. apply jm_In_get in Hin; [|by destruct (core_lanes _ _ Hc)].
    rewrite Hat, decide_False; [done|]. rewrite Ea.
    eapply live_not_fresh; [apply (core_lanes _ _ Hc)|apply (core_fresh _ _ Hc)|done]. }
  assert (forall k, lane_sum (on k size_of) s' = lane_sum (on k size_of) s) as Hsz.
  { intros k. apply Hsum. unfold on. by case_decide. }
  split_and!.
  - split; [done| | |congruence].
    + destruct Hb as [Hb1 Hb2]. split; [|by rewrite Eact]. intros k. by rewrite Hsz.
    + destruct Hq as [H1 H2].
      split; intros key' b G Hne; (assert (key' <> key) as Hk by congruence);
        destruct (Hold _ _ G Hk) as [G' ->]; rewrite ?Er; eauto.
  - unfold full. by rewrite Er, Eact.
  - by rewrite El, jm_get_set_eq.
  - by rewrite Hat, decide_True.
  - done.
  - right. split; [done|]. by rewrite Hat, decide_True.
Qed.

(** The end of [queueEvent], once the event is in its lane. *)
Lemma admitted_turn s s1 key a l' :
  turn (Some key) s -> (full o s -> full o s1) -> core o s1 ->
  jm_get key (lanes s) = Some a -> lanes s1 = lanes s -> readyLanes s1 = readyLanes s ->
  activePassCount s1 = activePassCount s -> stopped s1 = stopped s ->
  (forall b, laneAt s1 b = if decide (b = a) then l' else laneAt s b) ->
  kind l' = kind (laneAt s a) ->
  lane_sum (on (kind (laneAt s a)) size_of) s + (size_of l' - size_of (laneAt s a)) <=
    getMaxPendingSignatures o (kind (laneAt s a)) ->
  turn (Some key) s1.
Proof.
  intros [Hc Hb Hq Hop] _ Hc1 Hg E1 E2 E3 E4 El Ek Hle.
  destruct (lane_changed_sum s s1 key a (fun _ => l') (core_lanes _ _ Hc) Hg E1 El Ek) as [Eon _].
  split; [done| | |congruence].
  - destruct Hb as [Hb1 Hb2]. split; [|by rewrite E3]. intros k. rewrite Eon. specialize (Hb1 k).
    case_decide; [by subst k|lia].
  - apply (quiet_other s _ key a); try done; [apply (core_lanes _ _ Hc)| |].
    + intros b Hne. by rewrite El, decide_False.
    + intros. by rewrite E2.
Qed.

Lemma coalesce_lane s k r e b :
  lanes_ok s -> owns s k r ->
  laneAt (countSignal k (ref_lane r) (coalesce k (ref_pending r) e s)) b =
  if decide (b = ref_lane r)
  then lane_pending (pendingEvents (laneAt s (ref_lane r)))
         (pendingSignalCount (laneAt s (ref_lane r)) + 1) (laneAt s (ref_lane r))
  else laneAt s b.
Proof.
  intros Hl (Hg & _). destruct (live_obj _ _ _ Hl Hg) as [l El].
  unfold countSignal, coalesce, upd_count, upd_queue, upd_lane, laneAt. simpl.
  case_decide as Eb; [by rewrite Eb, lookup_alter_eq, El|by rewrite lookup_alter_ne].
Qed.

Lemma enqueue_lane s now k key a sig e b :
  lanes_ok s -> jm_get key (lanes s) = Some a ->
  laneAt (countSignal k a (enqueue now key a sig e s)) b =
  if decide (b = a)
  then lane_pending (jm_set sig (nextAddr s) (pendingEvents (laneAt s a)))
         (pendingSignalCount (laneAt s a) + 1) (laneAt s a)
  else laneAt s b.
Proof.
  intros Hl Hg. destruct (live_obj _ _ _ Hl Hg) as [l El].
  unfold countSignal, enqueue, upd_count, upd_queue, upd_lane, laneAt. simpl.
  case_decide as Eb; [by rewrite Eb, !lookup_alter_eq, El|by rewrite !lookup_alter_ne].
Qed.


Lemma onSignal_turn ex s k t r : turn ex s -> turn ex (onSignal k t r s).
Proof.
  intros [Hc Hb Hq Hop]. split; [by apply onSignal_core| | |done].
  - revert Hb. by apply bounded_ext.
  - revert Hq. by apply quiet_ext.
Qed.

(** Enqueueing a fresh event within the budget and waking its lane. *)
Lemma enqueued_turn now e cb a s :
  let key := createLaneKey e in
  let k := kind (laneAt s a) in
  turn (Some key) s -> full o s -> jm_get key (lanes s) = Some a -> k = kindOfEvent e ->
  lane_sum (on (kindOfEvent e) size_of) s + 1 <= getMaxPendingSignatures o (kindOfEvent e) ->
  jm_get (createEventSignature e) (pendingEvents (laneAt s a)) = None ->
  let s1 := onSignal k (ev_type e) Queued
              (countSignal k a (enqueue now key a (createEventSignature e) e s)) in
  turn None (wakeLane o now key a cb s1) /\ full o (wakeLane o now key a cb s1).
Proof.
  intros key k Ht Hf Hg Hk Hle Hn s1. pose proof Ht as [Hc Hb Hq Hop].
  pose proof (fun b => enqueue_lane s now k key a (createEventSignature e) e b (core_lanes _ _ Hc) Hg) as El.
  pose proof (enqueue_core o s now k key a (createEventSignature e) e Hc Hg eq_refl Hn) as Hc1.
  set (s2 := countSignal _ _ _) in *.
  apply wakeLane_turn; [|done|done|].
  - apply onSignal_turn.
    refine (admitted_turn s s2 key a _ Ht _ Hc1 Hg _ _ _ _ El _ _); try done.
    fold k. rewrite Hk in *. unfold size_of at 2 3. simpl. rewrite jm_length_set, Hn. lia.
  - change (pendingEvents (laneAt s2 a) <> []). rewrite El, decide_True by done. simpl.
    intros E. apply (f_equal length) in E. rewrite jm_length_set, Hn in E. done.
Qed.

(** A nonempty index has its root owned by a live lane. *)
Lemma peek_owns s k r :
  core o s -> peek (kget (queues s) k) = Some r -> owns s k r.
Proof.
  intros Hc Hp. apply (po_heap _ (core_pending _ _ Hc)). by eapply list_elem_of_lookup_2.
Qed.

Lemma reserve_turn now k key e s s' b :
  turn None s -> full o s ->
  reservePendingSignature o now k key e s = (b, s') ->
  (b = false /\ turn None s' /\ full o s') \/
  (b = true /\ turn (Some key) s' /\ full o s' /\
   lane_sum (on k size_of) s' + 1 <= getMaxPendingSignatures o k /\
   jm_get key (lanes s') = jm_get key (lanes s) /\
   forall a, jm_get key (lanes s) = Some a ->
     kind (laneAt s' a) = kind (laneAt s a) /\
     forall sig, jm_get sig (pendingEvents (laneAt s a)) = None ->
                 jm_get sig (pendingEvents (laneAt s' a)) = None).
Proof.
  intros Ht Hf. pose proof Ht as [Hc Hb Hq Hop]. unfold reservePendingSignature.
  rewrite (co_events _ (core_counts _ _ Hc)). case_match eqn:E; zbool.
  { intros [= <- <-]. right. split_and!; try done; [by apply turn_weaken|lia]. }
  destruct (peek _) as [r|] eqn:Ep; [|intros [= <- <-]; left; split_and!; try done; by apply onSignal_turn].
  destruct (_ <=? priceAt _ _); intros [= <- <-];
    [left; split_and!; try done; by apply onSignal_turn|].
  right. destruct (evict_turn now k key r s Ht (peek_owns _ _ _ Hc Ep)) as (H1 & H2 & H3 & H4 & H5).
  split_and!; try done; [auto|]. rewrite H3, decide_True by done.
  pose proof (bo_events _ _ Hb k). lia.
Qed.

Lemma queueEvent_turn now e cb s :
  turn None s -> full o s -> isSupportedHotRefreshEvent e = true ->
  turn None (queueEvent o now e cb s) /\ full o (queueEvent o now e cb s).
Proof.
  intros Ht Hf Hsup. pose proof Ht as [Hc Hb Hq Hop]. unfold queueEvent. rewrite Hop.
  set (key := createLaneKey e). set (sig := createEventSignature e).
  destruct (jm_get key (lanes s)) as [lane|] eqn:Eg; simpl.
  - destruct (jm_get sig (pendingEvents (laneAt s lane))) as [p|] eqn:Es; simpl.
    { set (k := kind (laneAt s lane)).
      set (r := {| ref_laneKey := key; ref_lane := lane; ref_signature := sig; ref_pending := p |}).
      assert (owns s k r) as Hr by done.
      change (onSignal _ _ _ _) with
        (onSignal k (ev_type e) Coalesced (countSignal k (ref_lane r) (coalesce k (ref_pending r) e s))).
      pose proof (fun b => coalesce_lane s k r e b (core_lanes _ _ Hc) Hr) as El.
      pose proof (coalesce_core o s k r e Hc Hr) as Hc1. set (s1 := countSignal _ _ _) in *.
      apply wakeLane_turn; [|done|done|].
      - apply onSignal_turn.
        refine (admitted_turn s s1 key lane _ (turn_weaken _ _ Ht) _ Hc1 Eg _ _ _ _ El _ _); try done.
        pose proof (bo_events _ _ Hb (kind (laneAt s lane))). unfold size_of at 2 3. simpl. lia.
      - change (pendingEvents (laneAt s1 lane) <> []). rewrite El, decide_True by done. simpl.
        intros E. by rewrite E in Es. }
    destruct (reservePendingSignature _ _ _ _ _ s) as [b s2] eqn:Er.
    destruct (reserve_turn now _ key e s s2 b Ht Hf Er) as [(-> & H1 & H2)|(-> & H1 & H2 & H3 & H4 & H5)];
      [done|]. simpl. destruct (H5 _ Eg) as [H6 H7]. specialize (H7 _ Es). rewrite Eg in H4.
    apply (enqueued_turn now e cb lane s2); try done.
    rewrite (live_kind s2 key lane); [by apply key_kind_event|apply (core_lanes _ _ (tu_core _ _ H1))|done].
  - destruct (reservePendingSignature _ _ _ _ _ s) as [b s2] eqn:Er.
    destruct (reserve_turn now _ key e s s2 b Ht Hf Er) as [(-> & H1 & H2)|(-> & H1 & H2 & H3 & H4 & H5)];
      [done|]. simpl. rewrite Eg in H4.
    destruct (getLane e s2) as [lane s3] eqn:El.
    destruct (laneFor_turn s2 e lane s3 H1 Hsup) as (G1 & G2 & G3 & G4 & G5 & [[G6 _]|[_ G6]]).
    + fold key. by rewrite H4.
    + fold key in G6. congruence.
    + apply (enqueued_turn now e cb lane s3); try done; [auto|by rewrite G5|by rewrite G6].
Qed.


(** ** Stopping *)

Lemma clearRetainedOf_spec k s :
  structure s -> counts_ok s -> retained_ok s ->
  let s2 := clearRetainedOf k s in
  structure s2 /\ counts_ok s2 /\ retained_ok s2 /\ same_run s s2 /\
  (forall k', kget (cooldowns s2) k' = if decide (k = k') then [] else kget (cooldowns s) k') /\
  (forall k', kget (cleanups s2) k' = if decide (k = k') then None else kget (cleanups s) k').
Proof.
  intros Hs Hc [Hwf Hap] s2. unfold clearRetainedOf in s2.
  set (s1 := match kget (cleanups s) k with Some t => _ | None => s end) in s2.
  assert (structure s1 /\ counts s1 = counts s /\ cooldowns s1 = cooldowns s /\ same_run s s1 /\
          forall k', kget (cleanups s1) k' = if decide (k = k') then None else kget (cleanups s) k')
    as (Hs1 & Ec & Ed & Hrun & El).
  { subst s1. destruct (kget (cleanups s) k) as [t|] eqn:E.
    - split; [by apply (dropCleanup_structure s k t)|]. split_and!; try done.
      intros k'. simpl. rewrite kget_kset. by case_decide.
    - split_and!; try done. intros k'. case_decide; [by subst|done]. }
  clearbody s1. pose proof Hrun as (F1 & F2 & F3 & F4 & F5).
  split_and!.
  - destruct Hs1. split; frame_from s1.
  - pose proof (one_pos s k). pose proof Hc as [].
    split; try intros k'; rewrite (lane_sum_eq _ s s2) by done; subst s2; simpl;
      rewrite ?Ec, ?Ed, ?F4, ?kget_kset; try case_decide; subst; simpl; rewrite ?co_known0; try done.
    simpl. lia.
  - split; intros k'; subst s2; simpl; rewrite Ed, kget_kset; case_decide; auto with artgod; [done|].
    intros key d Hg. rewrite F1. by eapply Hap.
  - done.
  - intros k'. subst s2. simpl. by rewrite Ed, kget_kset.
  - done.
Qed.

Lemma clearRetained_spec s :
  structure s -> counts_ok s -> retained_ok s -> stopped s = true ->
  let s' := clearRetainedCooldownLanes s in
  core o s' /\ same_run s s' /\ (forall k, kget (cooldowns s') k = []) /\
  (forall k, kget (cleanups s') k = None).
Proof.
  intros Hs Hc Hr Hst. unfold clearRetainedCooldownLanes. cbn [fold_left].
  destruct (clearRetainedOf_spec Broad s Hs Hc Hr) as (Hs1 & Hc1 & Hr1 & Hrun1 & E1 & L1).
  destruct (clearRetainedOf_spec Item _ Hs1 Hc1 Hr1) as (Hs2 & Hc2 & Hr2 & Hrun2 & E2 & L2).
  set (s1 := clearRetainedOf Broad s) in *. set (s2 := clearRetainedOf Item s1) in *.
  pose proof (same_run_trans _ _ _ Hrun1 Hrun2) as Hrun.
  assert (forall k, kget (cooldowns s2) k = []) as Hnil
    by (intros []; rewrite E2; [rewrite decide_False, E1, decide_True by done|rewrite decide_True by done]; done).
  split_and!; [|done|done|].
  - apply core_build; [done|done|]. split; [apply Hr2|apply Hr2| |].
    + intros k. rewrite Hnil. simpl. unfold options_ok in Ho. destruct k; simpl; lia.
    + intros k E. destruct Hrun as (_ & _ & _ & _ & F). congruence.
  - intros []; rewrite L2; [rewrite decide_False, L1, decide_True by done|rewrite decide_True by done]; done.
Qed.

(** One lane drained: its timer is cancelled and its pending events dropped. *)
Lemma clearPending_lane s key a b :
  lanes_ok s -> jm_get key (lanes s) = Some a ->
  laneAt (clearLanePending a s) b =
  if decide (b = a) then lane_pending [] 0 (laneAt s b) else laneAt s b.
Proof.
  intros Hl Hg. destruct (live_obj _ _ _ Hl Hg) as [l Hll].
  unfold clearLanePending, upd_count, upd_queue, upd_lane, laneAt. simpl.
  case_decide as Eb; [by rewrite Eb, lookup_alter_eq, Hll|by rewrite lookup_alter_ne].
Qed.

Lemma drainLane_spec s key a :
  core o s -> jm_get key (lanes s) = Some a ->
  core o (drainLane a s) /\
  (forall b, laneAt (drainLane a s) b =
     if decide (b = a) then lane_pending [] 0 (lane_timer None (laneAt s b)) else laneAt s b) /\
  lanes (drainLane a s) = lanes s /\ readyLanes (drainLane a s) = readyLanes s /\
  activePassCount (drainLane a s) = activePassCount s /\ stopped (drainLane a s) = stopped s /\
  cooldowns (drainLane a s) = cooldowns s /\ cleanups (drainLane a s) = cleanups s.
Proof.
  intros Hc Hg. pose proof (core_lanes _ _ Hc) as Hl. unfold drainLane.
  pose proof (fun b => cancelTimer_lane s key a b Hl Hg) as El.
  pose proof (cancelTimer_core o s key a Hc Hg) as Hc1.
  assert (forall t, lanes (clearTimer t s) = lanes s /\ readyLanes (clearTimer t s) = readyLanes s /\
    activePassCount (clearTimer t s) = activePassCount s /\ stopped (clearTimer t s) = stopped s /\
    cooldowns (clearTimer t s) = cooldowns s /\ cleanups (clearTimer t s) = cleanups s) as Hsame
    by (by intros []).
  destruct (Hsame (timer (laneAt s a))) as (F1 & F2 & F3 & F4 & F5 & F6).
  set (s1 := upd_lane a _ _) in *.
  assert (jm_get key (lanes s1) = Some a) as Hg1 by (subst s1; simpl; by rewrite F1).
  split_and!; try done.
  - by eapply clearLanePending_core.
  - intros b. rewrite (clearPending_lane s1 key a b (core_lanes _ _ Hc1) Hg1), El. by case_decide.
Qed.

Lemma drainLanes_spec l s :
  core o s -> (forall a, In a l -> exists key, jm_get key (lanes s) = Some a) ->
  let s' := fold_left (fun s a => drainLane a s) l s in
  core o s' /\ lanes s' = lanes s /\ readyLanes s' = readyLanes s /\
  activePassCount s' = activePassCount s /\ stopped s' = stopped s /\
  cooldowns s' = cooldowns s /\ cleanups s' = cleanups s /\
  (forall b, kind (laneAt s' b) = kind (laneAt s b)) /\
  (forall b, In b l \/ (pendingEvents (laneAt s b) = [] /\ timer (laneAt s b) = None) ->
     pendingEvents (laneAt s' b) = [] /\ timer (laneAt s' b) = None) /\
  (forall b, (length (pendingEvents (laneAt s' b)) <= length (pendingEvents (laneAt s b)))%nat).
Proof.
  revert s. induction l as [|a l IH]; simpl; intros s Hc Hl.
  { split_and!; try done. by intros b [[]|H]. }
  destruct (Hl a) as [key Hg]; [by left|].
  destruct (drainLane_spec s key a Hc Hg) as (H1 & H2 & H3 & H4 & H5 & H6 & H7 & H8).
  destruct (IH (drainLane a s) H1) as (G1 & G2 & G3 & G4 & G5 & G6 & G7 & G8 & G9 & G10).
  { intros b Hb. rewrite H3. auto. }
  split_and!; try congruence.
  - intros b. rewrite G8, H2. by case_decide.
  - intros b Hb. apply G9. rewrite H2. case_decide; [by right|]. naive_solver.
  - intros b. specialize (G10 b). rewrite H2 in G10. case_decide; simpl in *; lia.
Qed.

Lemma stopBegin_inv s : inv o s -> inv o (stopBegin s).
Proof.
  intros [Hc Hb Hlive _ _]. unfold stopBegin.
  set (s1 := set_ready [] (set_stopped true s)).
  pose proof Hc as [Hl Hfr Hp Hco Hpa Hti _ Hcd].
  assert (structure s1) as Hs1 by (split; try frame_from s; by split; [apply jm_wf_nil|]).
  assert (counts_ok s1) as Hc1 by frame_from s.
  assert (retained_ok s1) as Hr1 by (apply cooldowns_ok_retained in Hcd; exact Hcd).
  destruct (clearRetained_spec s1 Hs1 Hc1 Hr1 eq_refl) as (Hc2 & Hrun & Hnil & Hcl).
  set (s2 := clearRetainedCooldownLanes s1) in *. pose proof Hrun as (F1 & F2 & F3 & F4 & F5).
  destruct (drainLanes_spec (jm_values (lanes s2)) s2 Hc2) as
    (G1 & G2 & G3 & G4 & G5 & G6 & G7 & G8 & G9 & G10).
  { intros a Ha. apply in_map_iff in Ha as ([key b] & <- & Hin). exists key.
    apply jm_In_get; [|done]. by destruct (core_lanes _ _ Hc2). }
  set (s3 := fold_left _ _ s2) in *.
  assert (forall f, (forall b, f (laneAt s3 b) <= f (laneAt s b)) -> lane_sum f s3 <= lane_sum f s) as Hsum.
  { intros f Hf. unfold lane_sum. rewrite G2, F1. apply jm_sum_le. auto. }
  assert (forall b, kind (laneAt s3 b) = kind (laneAt s b)) as Ek.
  { intros b. rewrite G8. by rewrite (same_run_laneAt _ _ _ Hrun). }
  split.
  - done.
  - destruct Hb as [Hb1 Hb2]. split; [|by rewrite G4, F4]. intros k.
    etrans; [|apply Hb1]. apply Hsum. intros b. unfold on, size_of. rewrite Ek.
    specialize (G10 b). rewrite (same_run_laneAt _ _ _ Hrun) in G10.
    change (laneAt s1 b) with (laneAt s b) in G10. case_decide; lia.
  - intros k. etrans; [|apply Hlive]. apply Hsum. intros b. unfold on. by rewrite Ek.
  - rewrite G5, F5. done.
  - intros _. split.
    + intros key a Hg. apply G9. left. apply in_map_iff. exists (key, a). split; [done|].
      apply jm_get_In. by rewrite <- G2.
    + by rewrite G3, F3.
    + intros k. by rewrite G6.
    + intros k. by rewrite G7.
Qed.


Lemma finishPass_stopped now i s : inv o s -> stopped s = true -> inv o (finishPass o now i s).
Proof.
  intros Hi Hst. unfold finishPass. destruct (jm_get i (passes s)) as [p|] eqn:Ep; [|done].
  destruct Hi as [Hc Hb Hlive _ Hd]. specialize (Hd Hst). destruct Hd as [D1 D2 D3 D4].
  destruct (pa_lane _ (core_passes _ _ Hc) _ _ Ep) as [Hg Hru].
  set (a := pass_lane p) in *. change (upd_count _ _ _) with (endPass i a s).
  pose proof (fun b => endPass_lane o s i p b Hc Ep) as El. fold a in El.
  pose proof (endPass_core o s i p Hc Ep) as Hc1. fold a in Hc1.
  set (s1 := endPass i a s) in *. change (stopped s1) with (stopped s). rewrite Hst.
  assert (jm_get (pass_laneKey p) (lanes s1) = Some a) as Hg1 by done.
  pose proof (clearLanePending_core o s1 _ a Hc1 Hg1) as Hc2.
  pose proof (fun b => clearPending_lane s1 _ a b (core_lanes _ _ Hc1) Hg1) as El2.
  set (s2 := clearLanePending a s1) in *.
  assert (timer (laneAt s2 a) = None) as Hti.
  { rewrite El2, El, !decide_True by done. simpl. by apply (D1 (pass_laneKey p)). }
  pose proof (cancelTimer_core o s2 _ a Hc2 Hg1) as Hc3.
  pose proof (fun b => cancelTimer_lane s2 _ a b (core_lanes _ _ Hc2) Hg1) as El3.
  rewrite Hti in Hc3, El3. simpl in Hc3, El3. set (s3 := upd_lane a _ s2) in *.
  assert (forall b, kind (laneAt s3 b) = kind (laneAt s b)) as Ek.
  { intros b. rewrite El3, El2, El. by repeat case_decide. }
  assert (forall b, (length (pendingEvents (laneAt s3 b)) <= length (pendingEvents (laneAt s b)))%nat) as En.
  { intros b. rewrite El3, El2, El. repeat case_decide; simpl; lia. }
  assert (forall f, (forall b, f (laneAt s3 b) <= f (laneAt s b)) -> lane_sum f s3 <= lane_sum f s) as Hsum.
  { intros f Hf. apply jm_sum_le. auto. }
  split; try done.
  - pose proof (co_passes _ (core_counts _ _ Hc)). pose proof (run_pos s). destruct Hb as [Hb1 Hb2].
    split; [|simpl; lia]. intros k. etrans; [|apply Hb1]. apply Hsum. intros b.
    unfold on, size_of. rewrite Ek. specialize (En b). case_decide; lia.
  - intros k. etrans; [|apply Hlive]. apply Hsum. intros b. unfold on. by rewrite Ek.
  - simpl. congruence.
  - intros _. split; try done. intros key b G. rewrite El3, El2, El.
    destruct (D1 _ _ G) as [G1 G2]. repeat case_decide; by split.
Qed.

(** In a stopped stage no timer is left. *)
Lemma drained_no_timer s t : core o s -> drained s -> timers s !! t = None.
Proof.
  intros Hc [D1 _ _ D4]. destruct (timers s !! t) as [[due [key a cb|k]]|] eqn:E; [| |done].
  - destruct (ti_lane _ (core_timers _ _ Hc) _ _ _ _ _ E) as [Hg Ht].
    destruct (D1 _ _ Hg). congruence.
  - pose proof (ti_cleanup _ (core_timers _ _ Hc) _ _ _ E). specialize (D4 k). congruence.
Qed.

Lemma stopFinish_inv s :
  inv o s -> stopped s = true -> passes s = [] -> inv o (stopFinish s).
Proof.
  intros [Hc Hb Hlive _ Hd] Hst Hpa. specialize (Hd Hst). pose proof Hd as [D1 D2 D3 D4].
  assert (forall k, 0 < getMaxPendingSignatures o k) as HM
    by (intros []; unfold options_ok in Ho; simpl; lia).
  assert (0 < maxConcurrentPasses o) as HC by (unfold options_ok in Ho; lia).
  split.
  - split.
    + split_and!; simpl; [apply jm_wf_nil|done|done].
    + pose proof (core_fresh _ _ Hc). frame_from s.
    + split; simpl; try done.
      * intros k r (G & _). done.
      * intros k1 k2 r1 r2 (G & _). done.
      * intros k r. rewrite kget_kboth. simpl. split; [by intros ?%elem_of_nil|by intros (G & _)].
      * intros k. rewrite kget_kboth. apply empty_queue_ok.
    + split; try intros k; simpl; rewrite ?kget_kboth; try done. by rewrite D3.
    + split; simpl; rewrite Hpa; try done. apply jm_wf_nil.
    + split; simpl; try done; try (intros *; by rewrite drained_no_timer).
      intros k t. by rewrite D4.
    + split; simpl; rewrite D2; [apply jm_wf_nil|done].
    + split; simpl; intros k; rewrite ?D3; [apply jm_wf_nil|done|simpl; specialize (HM k); lia|done].
  - split; [|simpl; lia]. intros k. change (0 <= getMaxPendingSignatures o k). specialize (HM k). lia.
  - intros k. change (0 <= getMaxPendingSignatures o k + maxConcurrentPasses o). specialize (HM k). lia.
  - simpl. congruence.
  - intros _. by split.
Qed.

Lemma initial_inv : inv o (@initial C).
Proof.
  assert (forall k, 0 < getMaxPendingSignatures o k) as HM
    by (intros []; unfold options_ok in Ho; simpl; lia).
  assert (0 < maxConcurrentPasses o) as HC by (unfold options_ok in Ho; lia).
  split.
  - split.
    + split_and!; simpl; [apply jm_wf_nil|done|done].
    + intros a _. simpl. split_and!; apply lookup_empty || done.
    + split; simpl; try done.
      * intros k r (G & _). done.
      * intros k1 k2 r1 r2 (G & _). done.
      * intros k r. rewrite kget_kboth. simpl. split; [by intros ?%elem_of_nil|by intros (G & _)].
      * intros k. rewrite kget_kboth. apply empty_queue_ok.
    + split; try intros k; simpl; rewrite ?kget_kboth; done.
    + split; simpl; try done. apply jm_wf_nil.
    + split; simpl; intros *; rewrite ?lookup_empty, ?kget_kboth; done.
    + split; simpl; [apply jm_wf_nil|done].
    + split; simpl; intros k; rewrite ?kget_kboth; [apply jm_wf_nil|done|simpl; specialize (HM k); lia|done].
  - split; [|simpl; lia]. intros k. change (0 <= getMaxPendingSignatures o k). specialize (HM k). lia.
  - intros k. change (0 <= getMaxPendingSignatures o k + maxConcurrentPasses o). specialize (HM k). lia.
  - intros _. split; [by split|intros Hn; by destruct Hn].
  - done.
Qed.

Lemma step_inv s s' : inv o s -> step o s s' -> inv o s'.
Proof.
  intros Hi Hstep. destruct (stopped s) eqn:Hst.
  - destruct Hstep as [now e cb s|now t due action s Ht _|now i s _|s|s _ Hpa].
    + unfold onMarketEvent. by rewrite Hst.
    + rewrite (drained_no_timer s t) in Ht; [done|apply Hi|by apply Hi].
    + by apply finishPass_stopped.
    + by apply stopBegin_inv.
    + by apply stopFinish_inv.
  - destruct Hstep as [now e cb s|now t due [key a cb|k] s Ht _|now i s _|s|s E _].
    + unfold onMarketEvent. rewrite Hst. destruct (isSupportedHotRefreshEvent e) eqn:Hsup; [|done].
      destruct (inv_turn s Hi Hst) as [H1 H2].
      destruct (queueEvent_turn now e cb s H1 H2 Hsup). by apply turn_inv.
    + by eapply fireLane_open.
    + by eapply fireCleanup_open.
    + by apply finishPass_open.
    + by apply stopBegin_inv.
    + congruence.
Qed.


End Proof.
End HotRefreshProof.
