(* ===== verification/HotRefreshClaims.v ===== *)
(** * What the hot-refresh backpressure guarantees

    The properties of [HotRefresh] over every state the event loop reaches,
    read off the invariant of [HotRefreshProof], with runs that show the
    hypotheses can hold. *)

From Stdlib Require Import SpecFloat.
From stdpp Require Import gmap.
From S2P Require Import Prelude JsValue Domain PendingQueue HotRefresh HotRefreshInv HotRefreshOps.
From S2P Require Import HotRefreshProof.

Open Scope Z_scope.

Module HotRefreshClaims.
Import PendingQueue HotRefresh HotRefreshInv HotRefreshOps HotRefreshProof.

Section Claims.
Context {C : Type} (o : HotRefreshBackpressureOptions).
Implicit Types s : st C.

(** The constructor accepts exactly the positive options. *)
Lemma create_iff s : create o = Ok s <-> options_ok o /\ s = initial.
Proof.
  unfold create, options_ok. repeat case_match; zbool; split; try done;
    try (intros [? _]; lia); [intros [= <-]; split; [lia|done]|by intros [_ ->]].
Qed.

Lemma reachable_inv s : reachable o s -> options_ok o /\ inv o s.
Proof.
  induction 1 as [s [Ho ->]%create_iff|s s' _ [Ho IH] Hstep].
  - split; [done|]. by apply initial_inv.
  - split; [done|]. by eapply step_inv.
Qed.

(** C31: In every reachable state of the backpressure stage the documented bounds
    hold: per kind, at most [maxPendingSignatures] pending events and as many
    retained cooldowns; at most [maxConcurrentPasses] passes in flight, no two of
    them on one lane; and per kind at most twice the signature budget plus the
    pass budget of known lanes. *)
Theorem hot_refresh_bounds s (Hs : reachable o s) :
  (forall k, pendingEventCount (kget (counts s) k) <= getMaxPendingSignatures o k /\
             Z.of_nat (length (kget (cooldowns s) k)) <= getMaxPendingSignatures o k /\
             knownLanes (kget (counts s) k) <=
               2 * getMaxPendingSignatures o k + maxConcurrentPasses o) /\
  Z.of_nat (length (passes s)) <= maxConcurrentPasses o /\
  (forall i j p q, jm_get i (passes s) = Some p -> jm_get j (passes s) = Some q ->
     pass_laneKey p = pass_laneKey q -> i = j).
Proof.
  destruct (reachable_inv s Hs) as [Ho [[] [] Hlive _ _]]. split_and!.
  - intros k. rewrite (co_events _ core_counts0), (co_known _ core_counts0).
    pose proof (cd_bound _ _ core_cooldowns0 k). specialize (Hlive k). split_and!; auto. lia.
  - by rewrite <- (pa_count _ core_passes0).
  - intros i j p q Hi Hj E. apply (pa_inj _ core_passes0 i j p q); try done.
    destruct (pa_lane _ core_passes0 _ _ Hi) as [G1 _], (pa_lane _ core_passes0 _ _ Hj) as [G2 _].
    rewrite E in G1. congruence.
Qed.

(** The lane state the stage reports is exact in every reachable state: per
    kind, pending events, pending signals and active lanes are the sums over the
    live lanes, known lanes are the live lanes plus the retained cooldowns, the
    weakest-event index holds exactly the pending events, and the active pass
    count is the number of passes in flight. No [Math.max(0, ...)] hides a drift. *)
Theorem hot_refresh_counts_exact s (Hs : reachable o s) :
  (forall k,
     pendingEventCount (kget (counts s) k) = lane_sum (on k size_of) s /\
     pendingSignals (kget (counts s) k) =
       lane_sum (on k (fun l => jm_sum (signalCountAt s) (pendingEvents l))) s /\
     activeLanes (kget (counts s) k) = lane_sum (on k run_of) s /\
     knownLanes (kget (counts s) k) =
       lane_sum (on k one_of) s + Z.of_nat (length (kget (cooldowns s) k)) /\
     forall r, r ∈ heap (kget (queues s) k) <-> owns s k r) /\
  activePassCount s = Z.of_nat (length (passes s)).
Proof.
  destruct (reachable_inv s Hs) as [Ho [[] _ _ _ _]]. split; [|apply core_passes0].
  intros k. split_and!; try apply core_counts0; [|apply core_pending0].
  rewrite (co_signals _ core_counts0). apply jm_sum_ext. intros key a Hin.
  apply jm_In_get in Hin; [|apply core_lanes0]. unfold on. case_decide; [|done].
  by eapply po_signals.
Qed.

(** No wake-up is lost. In every reachable state of a stage that is not
    stopped, a lane with pending events is in a pass in flight, or has a live
    timer that will start it, or waits in the ready queue while every pass slot
    is taken; so while anything is pending the event loop has a pass or a timer
    to run. *)
Theorem hot_refresh_no_lost_wakeup s (Hs : reachable o s) (Hopen : stopped s = false)
    key a (Hlane : jm_get key (lanes s) = Some a) (Hpending : pendingEvents (laneAt s a) <> []) :
  (running (laneAt s a) = true \/
   (exists t due cb, timers s !! t = Some (due, LaneTimer key a cb)) \/
   (is_Some (jm_get key (readyLanes s)) /\
    Z.of_nat (length (passes s)) = maxConcurrentPasses o)) /\
  (passes s <> [] \/ exists t due cb, timers s !! t = Some (due, LaneTimer key a cb)).
Proof.
  destruct (reachable_inv s Hs) as [Ho [[] [Hb1 Hb2] _ Hq _]].
  destruct (Hq Hopen) as [[Hserved _] Hfull].
  pose proof (pa_count _ core_passes0) as Hpc.
  destruct (Hserved _ _ Hlane) as [Hr|[[t Ht]|Hr]]; [done|done| | |].
  - split; [by left|]. left. destruct (run_le _ _ _ core_lanes0 Hlane) as [_ H].
    unfold run_of at 1 in H. rewrite Hr, <- (co_passes _ core_counts0), Hpc in H.
    destruct (passes s); [simpl in H; lia|done].
  - destruct (ti_timer _ core_timers0 _ _ _ Hlane Ht) as (due & cb & E). split; eauto 8.
  - assert (Z.of_nat (length (passes s)) = maxConcurrentPasses o) as E.
    { destruct Hr as [x Hx]. assert (readyLanes s <> []) as Hne by (intros E; by rewrite E in Hx).
      specialize (Hfull Hne). lia. }
    split; [eauto|]. left. intros En. rewrite En in E. unfold options_ok in Ho. simpl in E. lia.
Qed.

(** What [evict] leaves pending. *)
Lemma evict_owns now k key r s :
  options_ok o -> core o s -> owns s k r ->
  forall k' r', owns (evict o now k key r s) k' r' <-> owns s k' r' /\ r' <> r.
Proof.
  intros Ho Hc Hr k' r'. pose proof Hc as [Hl _ Hp _ _ _ _ _].
  assert (owns (detachPending k r s) k' r' <-> owns s k' r' /\ r' <> r) as H1.
  { rewrite detachPending_owns by done.
    split; (intros [G1 G2]; split; [done|]); [congruence|].
    intros E. by apply G2, (po_inj s Hp k' k). }
  rewrite <- H1. unfold evict. set (ty := match pend s !! _ with Some x => _ | None => _ end).
  set (s1 := onSignal k ty Evicted (detachPending k r s)).
  change (owns (detachPending k r s) k' r') with (owns s1 k' r').
  assert (core o s1) as Hc1 by by apply onSignal_core, detachPending_core.
  assert (jm_get (ref_laneKey r) (lanes s1) = Some (ref_lane r)) as Hg1 by apply Hr.
  destruct (String.eqb_spec (ref_laneKey r) key); [done|]. simpl negb. cbv iota.
  set (s2 := cancelIdleTimer (ref_lane r) s1).
  assert (core o s2 /\ same_fields s1 s2) as [Hc2 Hsame].
  { unfold s2, cancelIdleTimer. case_match; [|done]. split; [by eapply cancelTimer_core|apply cancelTimer_same]. }
  assert (owns s2 k' r' <-> owns s1 k' r') as <- by (apply owns_ext; apply Hsame).
  assert (jm_get (ref_laneKey r) (lanes s2) = Some (ref_lane r)) as Hg2.
  { destruct Hsame as (-> & _). done. }
  destruct (removeLaneIfIdle_spec o now s2 _ _ Ho Hc2 Hg2) as [(Hv & _ & Hrun)|[-> _]]; [|done].
  rewrite <- (dropLane_owns s2 _ _ k' r' Hv). apply owns_ext; [apply Hrun|intros; f_equal..];
    intros; by rewrite (same_run_laneAt _ _ _ Hrun).
Qed.

(** Admission when the budget of a kind is spent keeps the strongest offers.
    Some pending event of the kind is weakest; an event whose unit price does not
    exceed it is dropped and nothing changes but the reported outcome, and a
    stronger event is admitted by taking exactly that weakest event out. *)
Theorem full_budget_keeps_strongest s (Hs : reachable o s) (Hopen : stopped s = false)
    now k key e
    (Hfull : pendingEventCount (kget (counts s) k) = getMaxPendingSignatures o k) :
  exists weakest, owns s k weakest /\
    (forall r, owns s k r -> priceAt s (ref_pending weakest) <= priceAt s (ref_pending r)) /\
    if getUnitPrice e <=? priceAt s (ref_pending weakest)
    then reservePendingSignature o now k key e s = (false, onSignal k (ev_type e) Dropped s)
    else exists s', reservePendingSignature o now k key e s = (true, s') /\
         pendingEventCount (kget (counts s') k) = getMaxPendingSignatures o k - 1 /\
         forall k' r, owns s' k' r <-> owns s k' r /\ r <> weakest.
Proof.
  destruct (reachable_inv s Hs) as [Ho Hi].
  destruct (inv_turn o s Hi Hopen) as [Ht _]. pose proof Ht as [Hc Hb Hq _].
  unfold reservePendingSignature. rewrite Hfull, Z.ltb_irrefl.
  destruct (peek (kget (queues s) k)) as [w|] eqn:Ep.
  - pose proof (peek_owns o _ _ _ Hc Ep) as Hw. exists w. split_and!; [done| |].
    + intros r Hr. apply (po_heap _ (core_pending _ _ Hc)) in Hr.
      apply (heap_root_min (priceAt s) (heap (kget (queues s) k))); try done.
      apply (po_queue _ (core_pending _ _ Hc)).
    + case_match; [done|]. eexists. split; [done|]. split.
      * destruct (evict_turn o Ho now k key w s Ht Hw) as ([Hc' _ _ _] & _ & H3 & _).
        rewrite (co_events _ (core_counts _ _ Hc')), H3, decide_True, <- Hfull by done.
        by rewrite (co_events _ (core_counts _ _ Hc)).
      * by apply evict_owns.
  - exfalso. rewrite (co_events _ (core_counts _ _ Hc)) in Hfull.
    assert (0 < getMaxPendingSignatures o k) by (unfold options_ok in Ho; destruct k; simpl; lia).
    assert (lane_sum (on k size_of) s <= 0); [|lia].
    unfold lane_sum. rewrite <- (jm_sum_zero (lanes s)). apply jm_sum_le. intros key' a Hin.
    apply jm_In_get in Hin; [|apply (core_lanes _ _ Hc)]. unfold on, size_of.
    case_decide as Ek; [|lia]. destruct (pendingEvents (laneAt s a)) as [|[sig p] m] eqn:E; [simpl; lia|].
    assert (owns s k {| ref_laneKey := key'; ref_lane := a; ref_signature := sig; ref_pending := p |}) as Hr.
    { split_and!; [done|done|]. simpl. rewrite E. simpl. by rewrite decide_True. }
    apply (po_heap _ (core_pending _ _ Hc)), list_elem_of_lookup in Hr as [i Hi'].
    unfold peek in Ep. by destruct (heap (kget (queues s) k)).
Qed.

Lemma stopBegin_frame s :
  stopped (stopBegin s) = true /\ signals (stopBegin s) = signals s /\
  passes (stopBegin s) = passes s.
Proof.
  unfold stopBegin.
  assert (forall l s1, stopped (fold_left (fun s a => drainLane a s) l s1) = stopped s1 /\
            signals (fold_left (fun s a => drainLane a s) l s1) = signals s1 /\
            passes (fold_left (fun s a => drainLane a s) l s1) = passes s1) as Hd.
  { induction l as [|a l IH]; simpl; intros s1; [done|].
    destruct (IH (drainLane a s1)) as (-> & -> & ->). unfold drainLane.
    by destruct (timer (laneAt s1 a)). }
  assert (forall k s1, stopped (clearRetainedOf k s1) = stopped s1 /\
            signals (clearRetainedOf k s1) = signals s1 /\
            passes (clearRetainedOf k s1) = passes s1) as Hk.
  { intros k s1. unfold clearRetainedOf. by destruct (kget (cleanups s1) k). }
  destruct (Hd (jm_values (lanes (clearRetainedCooldownLanes (set_ready [] (set_stopped true s)))))
    (clearRetainedCooldownLanes (set_ready [] (set_stopped true s)))) as (-> & -> & ->).
  unfold clearRetainedCooldownLanes. cbn [fold_left].
  destruct (Hk Item (clearRetainedOf Broad (set_ready [] (set_stopped true s)))) as (-> & -> & ->).
  by destruct (Hk Broad (set_ready [] (set_stopped true s))) as (-> & -> & ->).
Qed.

Lemma scheduleLane_lane s now key a cb d b :
  lanes_ok s -> jm_get key (lanes s) = Some a ->
  laneAt (scheduleLane now key a cb d s) b =
  if decide (b = a) then lane_timer (Some (nextAddr s)) (laneAt s b) else laneAt s b.
Proof.
  intros Hl Hg. destruct (live_obj _ _ _ Hl Hg) as [l El].
  unfold scheduleLane, setTimer, upd_lane, laneAt. simpl.
  case_decide as Eb; [by rewrite Eb, lookup_alter_eq, El|by rewrite lookup_alter_ne].
Qed.

(** Waking a lane that was served already starts no pass. *)
Lemma wakeLane_served now s key a cb :
  lanes_ok s -> jm_get key (lanes s) = Some a -> stopped s = false -> full o s ->
  pendingEvents (laneAt s a) <> [] ->
  (running (laneAt s a) = true \/ is_Some (timer (laneAt s a)) \/
   is_Some (jm_get key (readyLanes s))) ->
  let s' := wakeLane o now key a cb s in
  lanes s' = lanes s /\ pend s' = pend s /\ signals s' = signals s /\ passes s' = passes s /\
  (forall b, kind (laneAt s' b) = kind (laneAt s b)) /\
  (forall b, pendingEvents (laneAt s' b) = pendingEvents (laneAt s b)).
Proof.
  intros Hl Hg Hop Hf Hpe Hserved. cbv zeta. unfold wakeLane.
  destruct (running (laneAt s a)); [done|].
  destruct (timer (laneAt s a)) as [t|]; [by rewrite bool_decide_eq_true_2 by eauto|].
  rewrite bool_decide_eq_false_2 by (by intros []). simpl.
  destruct Hserved as [?|[[]|Hr]]; [done|done|].
  case_match.
  - split_and!; try done; intros b; rewrite (scheduleLane_lane s _ key) by done; by case_decide.
  - unfold startLane. rewrite Hop. destruct (pendingEvents (laneAt s a)); [done|].
    destruct (Z.leb_spec (maxConcurrentPasses o) (activePassCount s)); [done|].
    destruct Hr as [x Hx]. assert (readyLanes s <> []) as Hne by (intros E; by rewrite E in Hx).
    specialize (Hf Hne). lia.
Qed.

Lemma coalesce_event s (Hs : reachable o s) (Hopen : stopped s = false)
    now e (cb : C) a p (Hsup : isSupportedHotRefreshEvent e = true)
    (Hlane : jm_get (createLaneKey e) (lanes s) = Some a)
    (Hpending : jm_get (createEventSignature e) (pendingEvents (laneAt s a)) = Some p) :
  let s' := snd (onMarketEvent o now e cb s) in
  exists x, pend s !! p = Some x /\
  pend s' !! p = Some {| pe_event := selectConservativeEvent (Some (pe_event x)) e;
    pe_signalCount := pe_signalCount x + 1; pe_firstQueuedAt := pe_firstQueuedAt x |} /\
  (forall k r, owns s' k r <-> owns s k r) /\ passes s' = passes s /\
  signals s' = signals s ++ [(kindOfEvent e, ev_type e, Coalesced)].
Proof.
  destruct (reachable_inv s Hs) as [Ho Hi]. destruct (inv_turn o s Hi Hopen) as [[Hc Hb Hq _] Hf].
  unfold onMarketEvent, queueEvent. rewrite Hopen, Hsup. simpl. rewrite Hlane. simpl.
  rewrite Hpending. simpl.
  pose proof (core_lanes _ _ Hc) as Hl.
  assert (kind (laneAt s a) = kindOfEvent e) as Hk
    by (rewrite (live_kind _ _ _ Hl Hlane); by apply key_kind_event).
  set (key := createLaneKey e) in *. set (k := kind (laneAt s a)) in *.
  set (r := {| ref_laneKey := key; ref_lane := a; ref_signature := createEventSignature e;
               ref_pending := p |}).
  assert (owns s k r) as Hr by done.
  set (s1 := onSignal k (ev_type e) Coalesced (countSignal k a (coalesce k p e s))).
  change (onSignal _ _ _ _) with s1.
  assert (forall b, laneAt s1 b = if decide (b = a)
    then lane_pending (pendingEvents (laneAt s a)) (pendingSignalCount (laneAt s a) + 1) (laneAt s a)
    else laneAt s b) as El by (intros b; apply (coalesce_lane s k r e b Hl Hr)).
  assert (core o s1) as Hc1 by (apply onSignal_core, (coalesce_core o s k r e Hc Hr)).
  destruct (wakeLane_served now s1 key a cb) as (E1 & E2 & E3 & E4 & E5 & E6); try done.
  - apply (core_lanes _ _ Hc1).
  - rewrite El, decide_True by done. simpl. intros E. by rewrite E in Hpending.
  - rewrite El, decide_True by done. simpl. apply (qu_served _ _ _ Hq key a Hlane); [done|].
    intros E. by rewrite E in Hpending.
  - set (s' := wakeLane _ _ _ _ _ _) in *.
    destruct (po_store _ (core_pending _ _ Hc) k r Hr) as (x & Ex & _). simpl in Ex.
    assert (pend s' !! p = Some {| pe_event := selectConservativeEvent (Some (pe_event x)) e;
              pe_signalCount := pe_signalCount x + 1; pe_firstQueuedAt := pe_firstQueuedAt x |}) as Ep.
    { rewrite E2. simpl. by rewrite lookup_alter_eq, Ex. }
    exists x. split_and!; [done|done| |by rewrite E4|].
    + intros k' r'. apply owns_ext; [by rewrite E1| |]; intros b; rewrite ?E5, ?E6, El;
        case_decide; by subst.
    + rewrite E3. simpl. by rewrite Hk.
Qed.

(** Coalescing keeps the strongest offer and loses no signal. An event whose
    lane and signature are already pending adds no pending event: exactly the same
    events stay pending, the pending event of that signature ends with the larger
    of the two unit prices and one more signal, no pass starts, and the event is
    reported as coalesced. *)
Theorem coalescing_keeps_best s (Hs : reachable o s) (Hopen : stopped s = false)
    now e (cb : C) a p (Hsup : isSupportedHotRefreshEvent e = true)
    (Hlane : jm_get (createLaneKey e) (lanes s) = Some a)
    (Hpending : jm_get (createEventSignature e) (pendingEvents (laneAt s a)) = Some p) :
  let s' := snd (onMarketEvent o now e cb s) in
  priceAt s' p = Z.max (priceAt s p) (getUnitPrice e) /\
  signalCountAt s' p = signalCountAt s p + 1 /\
  (forall k r, owns s' k r <-> owns s k r) /\ passes s' = passes s /\
  signals s' = signals s ++ [(kindOfEvent e, ev_type e, Coalesced)].
Proof.
  destruct (coalesce_event s Hs Hopen now e cb a p Hsup Hlane Hpending) as (x & Ex & Ep & H).
  split_and!; [| |apply H..].
  - unfold priceAt. rewrite Ep, Ex. unfold selectConservativeEvent. simpl. case_match; zbool; lia.
  - unfold signalCountAt. by rewrite Ep, Ex.
Qed.

(** After [stop] the stage is quiescent. In a reachable stopped state nothing
    is pending on any lane, no timer is left and no lane waits; and no further
    turn of the event loop reopens the stage, starts a pass, or reports a signal:
    the passes in flight can only finish. *)
Theorem stopped_is_quiescent s (Hs : reachable o s) (Hstopped : stopped s = true) :
  (forall key a, jm_get key (lanes s) = Some a -> pendingEvents (laneAt s a) = []) /\
  (forall t, timers s !! t = None) /\ readyLanes s = [] /\
  forall s', step o s s' ->
    stopped s' = true /\ signals s' = signals s /\
    forall i p, jm_get i (passes s') = Some p -> jm_get i (passes s) = Some p.
Proof.
  destruct (reachable_inv s Hs) as [Ho Hi]. pose proof (inv_stopped _ _ Hi Hstopped) as Hd.
  split_and!.
  - intros key a Hg. by destruct (dr_lane _ Hd _ _ Hg).
  - intros t. eapply drained_no_timer; [apply Hi|done].
  - apply (dr_ready _ Hd).
  - intros s' Hstep. destruct Hstep as [now e cb s|now t due action s Ht _|now i s _|s|s _ Hpa].
    + unfold onMarketEvent. by rewrite Hstopped.
    + rewrite (drained_no_timer o s t) in Ht; [done|apply Hi|done].
    + unfold finishPass. destruct (jm_get i (passes s)) as [p|]; [|done].
      simpl stopped. rewrite Hstopped. split_and!; try done.
      intros j q. simpl. rewrite jm_get_del. by case_decide.
    + destruct (stopBegin_frame s) as (-> & -> & ->). done.
    + split_and!; done.
Qed.


End Claims.

(** Numeric-range offers on one trait type are not told apart. Whatever their
    intervals, two trait offers of one collection with a single range criterion of
    the same type share lane and signature; so once the first is pending, the
    second is coalesced into it and, when it is cheaper, its own interval is no
    longer represented by any pending event. *)
Theorem range_offers_collide {C : Type} (o : HotRefreshBackpressureOptions) (s : st C) now
    (e1 e2 : MarketEvent) (cb : C) type min1 max1 min2 max2 a p
    (Hscope1 : ev_scope e1 = ScopeTrait) (Hscope2 : ev_scope e2 = ScopeTrait)
    (Hslug : ev_collectionSlug e1 = ev_collectionSlug e2)
    (Hc1 : ev_traitCriteria e1 = [RangeTrait type min1 max1])
    (Hc2 : ev_traitCriteria e2 = [RangeTrait type min2 max2])
    (Hs : reachable o s) (Hopen : stopped s = false)
    (Hlane : jm_get (createLaneKey e1) (lanes s) = Some a)
    (Hpending : jm_get (createEventSignature e1) (pendingEvents (laneAt s a)) = Some p)
    (Hstored : pe_event <$> pend s !! p = Some e1)
    (Hcheaper : getUnitPrice e2 < getUnitPrice e1) :
  createLaneKey e2 = createLaneKey e1 /\ createEventSignature e2 = createEventSignature e1 /\
  let s' := snd (onMarketEvent o now e2 cb s) in
  pe_event <$> pend s' !! p = Some e1 /\ forall k r, owns s' k r <-> owns s k r.
Proof.
  assert (createLaneKey e2 = createLaneKey e1) as E1
    by (unfold createLaneKey; by rewrite Hscope1, Hscope2, Hslug).
  assert (createEventSignature e2 = createEventSignature e1) as E2.
  { unfold createEventSignature, formatTraitCriteriaSignature.
    rewrite Hscope1, Hscope2, Hc1, Hc2. done. }
  assert (isSupportedHotRefreshEvent e2 = true) as Hsup
    by (unfold isSupportedHotRefreshEvent, isBroadHotRefreshEvent; by rewrite Hscope2).
  split_and!; [done|done|]. rewrite <- E1 in Hlane. rewrite <- E2 in Hpending.
  destruct (coalesce_event o s Hs Hopen now e2 cb a p Hsup Hlane Hpending) as (x & Ex & Ep & Ho & _).
  split; [|done]. rewrite Ex in Hstored. simpl in Hstored. injection Hstored as Hx.
  rewrite Ep. simpl. unfold selectConservativeEvent. subst e1.
  destruct (Z.leb_spec (getUnitPrice (pe_event x)) (getUnitPrice e2)); [lia|done].
Qed.

(** ** Example runs *)

Definition exampleOptions : HotRefreshBackpressureOptions := {|
  broadCooldownMs := 100; broadMaxPendingSignatures := 1;
  itemCooldownMs := 100; itemMaxPendingSignatures := 1; maxConcurrentPasses := 1 |}.

Definition traitEvent (type : string) (max : spec_float) (price : Z) : MarketEvent := {|
  ev_type := TraitOffer; ev_collectionSlug := "artwork"; ev_itemId := ""; ev_maker := "0xabc";
  ev_quantity := 1; ev_scope := ScopeTrait;
  ev_traitCriteria := [RangeTrait type (S754_zero false) max]; ev_totalPrice := price |}.

Definition oneF : spec_float := S754_finite false 1 0.

Definition twoF : spec_float := S754_finite false 1 1.

Definition exampleEvent : MarketEvent := traitEvent "Size" oneF 50.

(** The first offer starts a pass, the second waits behind it. *)
Definition exampleState : st unit :=
  snd (onMarketEvent exampleOptions 1001 exampleEvent tt
        (snd (onMarketEvent exampleOptions 1000 exampleEvent tt initial))).

Lemma exampleState_reachable : reachable exampleOptions exampleState.
Proof.
  eapply reachable_step; [|apply step_event]. eapply reachable_step; [|apply step_event].
  by apply reachable_create.
Qed.

Definition exampleLane : nat := default 0%nat (jm_get (createLaneKey exampleEvent) (lanes exampleState)).

Definition examplePending : nat :=
  default 0%nat (jm_get (createEventSignature exampleEvent)
                   (pendingEvents (laneAt exampleState exampleLane))).

Lemma hot_refresh_bounds_witness :
  reachable exampleOptions exampleState /\
  pendingEventCount (kget (counts exampleState) Broad) = 1 /\
  Z.of_nat (length (passes exampleState)) <= 1.
Proof.
  split; [exact exampleState_reachable|]. split; [vm_compute; reflexivity|].
  exact (proj1 (proj2 (hot_refresh_bounds exampleOptions exampleState exampleState_reachable))).
Defined.

Lemma hot_refresh_counts_exact_witness :
  reachable exampleOptions exampleState /\
  activePassCount exampleState = Z.of_nat (length (passes exampleState)).
Proof.
  split; [exact exampleState_reachable|].
  exact (proj2 (hot_refresh_counts_exact exampleOptions exampleState exampleState_reachable)).
Defined.

Lemma hot_refresh_no_lost_wakeup_witness :
  pendingEvents (laneAt exampleState exampleLane) <> [] /\
  (passes exampleState <> [] \/ exists t due cb,
     timers exampleState !! t = Some (due, LaneTimer (createLaneKey exampleEvent) exampleLane cb)).
Proof.
  assert (pendingEvents (laneAt exampleState exampleLane) <> []) as Hpe by (vm_compute; discriminate).
  split; [exact Hpe|].
  refine (proj2 (hot_refresh_no_lost_wakeup exampleOptions exampleState exampleState_reachable _
    (createLaneKey exampleEvent) exampleLane _ Hpe)); vm_compute; reflexivity.
Defined.

Lemma full_budget_keeps_strongest_witness :
  pendingEventCount (kget (counts exampleState) Broad) = 1 /\
  exists weakest, owns exampleState Broad weakest.
Proof.
  assert (pendingEventCount (kget (counts exampleState) Broad) = 1) as Hfull by (vm_compute; reflexivity).
  split; [exact Hfull|].
  destruct (full_budget_keeps_strongest exampleOptions exampleState exampleState_reachable
    ltac:(vm_compute; reflexivity) 1002 Broad (createLaneKey exampleEvent) exampleEvent Hfull) as (w & Hw & _).
  exact (ex_intro _ w Hw).
Defined.

Definition strongerEvent : MarketEvent := traitEvent "Size" oneF 70.

Lemma coalescing_keeps_best_witness :
  getUnitPrice strongerEvent = 70 /\
  priceAt (snd (onMarketEvent exampleOptions 1002 strongerEvent tt exampleState)) examplePending =
    Z.max (priceAt exampleState examplePending) (getUnitPrice strongerEvent).
Proof.
  split; [vm_compute; reflexivity|].
  assert (jm_get (createLaneKey strongerEvent) (lanes exampleState) = Some exampleLane) as H1
    by (vm_compute; reflexivity).
  assert (jm_get (createEventSignature strongerEvent) (pendingEvents (laneAt exampleState exampleLane)) =
    Some examplePending) as H2 by (vm_compute; reflexivity).
  assert (stopped exampleState = false) as H3 by (vm_compute; reflexivity).
  assert (isSupportedHotRefreshEvent strongerEvent = true) as H4 by (vm_compute; reflexivity).
  pose proof (coalescing_keeps_best exampleOptions exampleState exampleState_reachable H3 1002
    strongerEvent tt exampleLane examplePending H4) as H.
  specialize (H H1 H2). destruct H as [H _]. exact H.
Defined.

Definition stoppedState : st unit := stopBegin exampleState.

Lemma stopped_is_quiescent_witness :
  reachable exampleOptions stoppedState /\ stopped stoppedState = true /\
  readyLanes stoppedState = [].
Proof.
  pose proof (reachable_step exampleOptions exampleState stoppedState exampleState_reachable
                (step_stop exampleOptions exampleState)) as Hr.
  assert (stopped stoppedState = true) as Hst by (vm_compute; reflexivity).
  split; [exact Hr|]. split; [exact Hst|].
  pose proof (stopped_is_quiescent exampleOptions stoppedState Hr) as H.
  specialize (H Hst). destruct H as (_ & _ & H & _). exact H.
Defined.

Definition otherRangeEvent : MarketEvent := traitEvent "Size" twoF 40.

Lemma range_offers_collide_witness :
  ev_traitCriteria otherRangeEvent <> ev_traitCriteria exampleEvent /\
  createEventSignature otherRangeEvent = createEventSignature exampleEvent /\
  pe_event <$> pend (snd (onMarketEvent exampleOptions 1002 otherRangeEvent tt exampleState))
    !! examplePending = Some exampleEvent.
Proof.
  split; [vm_compute; discriminate|].
  assert (jm_get (createLaneKey exampleEvent) (lanes exampleState) = Some exampleLane) as H1
    by (vm_compute; reflexivity).
  assert (jm_get (createEventSignature exampleEvent) (pendingEvents (laneAt exampleState exampleLane)) =
    Some examplePending) as H2 by (vm_compute; reflexivity).
  assert (stopped exampleState = false) as H3 by (vm_compute; reflexivity).
  assert (pe_event <$> pend exampleState !! examplePending = Some exampleEvent) as H4
    by (vm_compute; reflexivity).
  assert (getUnitPrice otherRangeEvent < getUnitPrice exampleEvent) as H5 by (vm_compute; reflexivity).
  pose proof (range_offers_collide exampleOptions exampleState 1002 exampleEvent otherRangeEvent tt
    "Size" (S754_zero false) oneF (S754_zero false) twoF exampleLane examplePending
    eq_refl eq_refl eq_refl eq_refl eq_refl exampleState_reachable H3) as H.
  specialize (H H1 H2 H4 H5). destruct H as (_ & H6 & H7 & _). exact (conj H6 H7).
Defined.

End HotRefreshClaims.
