(* ===== verification/Strategy.v ===== *)
(** * The bidding strategy of one job

    The part of [Bidder] ([trading/src/application/use-cases/bidding/bidder.ts])
    that one refresh of one job runs, [executeJob] and everything it calls, and
    the cancellation of a job's offers: read the market, work out the price, place
    before cancelling, track and persist.

    The job mutex and semaphore run it without interference on the job, so the
    model is one sequential computation over a [World]: the job object, whether
    the schedule still holds it, the cached balance, and the state [X] of the
    services behind the interface of [BiddingService].  Every market mutation,
    persisted record and decision is logged in [w_trace], which no code reads.
    [BiddingServiceRequestContext] is passed to the services.  Logging and
    best-effort observability are left out. *)

From S2P Require Import Prelude JsValue Domain TraitCriteria BiddingService.

Open Scope Z_scope.

Module Strategy.
Import TraitCriteria.

Inductive BidderDecision : Type :=
  | DPlace | DRenew | DAdjustUp | DAdjustDown | DMaintainWinning | DMaintainCapped
  | DRevertToTarget | DZeroCeiling.

(** Effects, in the order they happen. *)
Inductive Effect : Type :=
  | EDecision (d : BidderDecision)
  | EPlace (amount : Z) (succeeded : bool)
  | ECancel (order : Order) (succeeded : bool)
  | EPersist (snapshot : JobSnapshot) (succeeded : bool)
  | ERecordCancellation (snapshot : CancellationSnapshot).

Record RuntimeJobOverride := {
  ro_activationId : Z;
  ro_floor : Z;
  ro_ceiling : Z;
  ro_expiresAt : Z;
}.

Record RuntimeBidDecisionContext := {
  dc_competitorPrice : Z;
  dc_floor : Z;
  dc_ceiling : Z;
}.

Record JobExecutionOptions := {
  throwOnFailure : bool;
  requestContext : RequestContext;
}.

Record World (X : Type) := {
  w_job : BidderJob;
  w_scheduled : bool;
  w_override : option RuntimeJobOverride;
  w_balance : option Z;
  w_ext : X;
  w_trace : list Effect;
}.
Arguments w_job {X}.
Arguments w_scheduled {X}.
Arguments w_override {X}.
Arguments w_balance {X}.
Arguments w_ext {X}.
Arguments w_trace {X}.

Section World.
Context {X : Type}.

Definition set_job (j : BidderJob) (w : World X) : World X := {|
  w_job := j; w_scheduled := w_scheduled w; w_override := w_override w;
  w_balance := w_balance w; w_ext := w_ext w; w_trace := w_trace w |}.

Definition set_override (r : option RuntimeJobOverride) (w : World X) : World X := {|
  w_job := w_job w; w_scheduled := w_scheduled w; w_override := r;
  w_balance := w_balance w; w_ext := w_ext w; w_trace := w_trace w |}.

Definition set_ext (x : X) (w : World X) : World X := {|
  w_job := w_job w; w_scheduled := w_scheduled w; w_override := w_override w;
  w_balance := w_balance w; w_ext := x; w_trace := w_trace w |}.

Definition log_effect (e : Effect) (w : World X) : World X := {|
  w_job := w_job w; w_scheduled := w_scheduled w; w_override := w_override w;
  w_balance := w_balance w; w_ext := w_ext w; w_trace := w_trace w ++ [e] |}.

(** A service call: it acts on the services' state only. *)
Definition call {A} (m : M X A) : M (World X) A := fun w =>
  let '(r, x) := m (w_ext w) in (r, set_ext x w).

(** A service call whose outcome is logged. *)
Definition logged {A} (f : bool -> Effect) (m : M X A) : M (World X) A := fun w =>
  let '(r, w') := call m w in (r, log_effect (f (is_ok r)) w').

Definition emit (e : Effect) : M (World X) unit := mmodify (log_effect e).

Definition thisJob : M (World X) BidderJob := fun w => (Ok (w_job w), w).

Definition updateState (f : BidderState -> BidderState) : M (World X) unit :=
  mmodify (fun w => set_job (set_state (w_job w) (f (state (w_job w)))) w).

Definition ofResult {A} (r : result A) : M (World X) A := fun w => (r, w).

End World.

(** Updates of the job state. *)
Definition st_lastRun v s := {| lastRun := v; activeOrderId := activeOrderId s;
  activeProtocolAddress := activeProtocolAddress s; activeOrderPlacedAt := activeOrderPlacedAt s;
  activeOrderVerifiedAt := activeOrderVerifiedAt s; currentPrice := currentPrice s;
  activeExpirationTimeMs := activeExpirationTimeMs s; bidPosition := bidPosition s;
  bidConstraints := bidConstraints s; competitorPrice := competitorPrice s |}.

(** The six fields that describe the tracked order. *)
Definition st_order id protocol placedAt verifiedAt price expiration s := {|
  lastRun := lastRun s; activeOrderId := id; activeProtocolAddress := protocol;
  activeOrderPlacedAt := placedAt; activeOrderVerifiedAt := verifiedAt; currentPrice := price;
  activeExpirationTimeMs := expiration; bidPosition := bidPosition s;
  bidConstraints := bidConstraints s; competitorPrice := competitorPrice s |}.

Definition st_protocol v s := st_order (activeOrderId s) v (activeOrderPlacedAt s)
  (activeOrderVerifiedAt s) (currentPrice s) (activeExpirationTimeMs s) s.

(** The three fields that describe the last decision. *)
Definition st_decision position constraints competitor s := {|
  lastRun := lastRun s; activeOrderId := activeOrderId s;
  activeProtocolAddress := activeProtocolAddress s; activeOrderPlacedAt := activeOrderPlacedAt s;
  activeOrderVerifiedAt := activeOrderVerifiedAt s; currentPrice := currentPrice s;
  activeExpirationTimeMs := activeExpirationTimeMs s; bidPosition := position;
  bidConstraints := constraints; competitorPrice := competitor |}.

Definition orElse {A} (a b : option A) : option A := match a with Some _ => a | None => b end.

(** ** Pure decisions *)

Definition resolveRuntimeBidPosition (ownPrice competitorPrice : Z) : BidPosition :=
  if competitorPrice <? ownPrice then Winning
  else if ownPrice =? competitorPrice then Draw
  else Losing.

Definition resolveRuntimeBidConstraints (position : BidPosition) (ownPrice floor ceiling : Z)
    : list BidConstraint :=
  let isAtCeiling := (0 <? ceiling) && (ceiling <=? ownPrice) in
  let isAtFloor := (0 <? floor) && (ownPrice <=? floor) in
  if negb (bool_decide (position = Winning)) && isAtCeiling then [CeilingConstraint]
  else if isAtFloor then [FloorConstraint]
  else if isAtCeiling then [CeilingConstraint] else [].

(** Seconds to milliseconds, the product taken exactly. *)
Definition toExpirationTimeMs (expirationTime : option jsnum) : option Z :=
  match expirationTime with
  | Some (NInt z) => if z <=? 0 then None else Some (z * 1000)
  | Some (NFrac num den) => if num <=? 0 then None else Some (num * 1000 / Zpos den)
  | _ => None
  end.

(** [[...offers].sort(...)]: by price, highest first, stable. *)
Fixpoint insertOffer (o : Order) (l : list Order) : list Order :=
  match l with
  | [] => [o]
  | o' :: l' => if ord_price o' <=? ord_price o then o :: l else o' :: insertOffer o l'
  end.

Definition sortOffers (l : list Order) : list Order := foldr insertOffer [] l.

Definition sameId (id : string) (o : Order) : bool := String.eqb (ord_id o) id.

Section Strategy.
Context {X : Type} `{BiddingService X} `{RuntimeStatePort X}.
Context (localeCompare : keyItem -> keyItem -> Z).

(** The bidder's constructor arguments the strategy reads; [hasStatePort] tells
    whether [runtimeStatePort] is given. *)
Record BidderEnv := {
  makerAddress : string;
  scanSleepMs : Z;
  isDryRun : bool;
  hasStatePort : bool;
}.
Context (env : BidderEnv).

Local Open Scope artgod_scope.

Definition now : M (World X) Z := fun w => (Ok (dateNow (w_ext w)), w).

(** ** Prices *)

Definition getEffectiveCeiling (cachedMakerWethBalance : option Z)
    (configuredCeiling configuredFloor : Z) : result Z :=
  let limit := match cachedMakerWethBalance with
               | Some balance => if balance <? configuredCeiling then balance else configuredCeiling
               | None => configuredCeiling
               end in
  try ceiling <- roundOfferPriceDown (X := X) limit;
  let canFundConfiguredFloor := match cachedMakerWethBalance with
                                | None => true
                                | Some balance => configuredFloor <=? balance
                                end in
  if canFundConfiguredFloor then
    try floor <- roundOfferPriceUp (X := X) configuredFloor;
    Ok (if ceiling <? floor then 0 else ceiling)
  else Ok ceiling.

Definition getEffectiveFloor (configuredFloor effectiveCeiling : Z) : result Z :=
  try floor <- roundOfferPriceUp (X := X) configuredFloor;
  Ok (if floor <? effectiveCeiling then floor else effectiveCeiling).

Definition getDesiredBid (floor ceiling competitorPrice delta : Z) : result Z :=
  let desiredPrice := competitorPrice + delta in
  let desiredPrice := if desiredPrice <? floor then floor else desiredPrice in
  try desiredPrice <- roundOfferPriceUp (X := X) desiredPrice;
  Ok (if ceiling <? desiredPrice then ceiling else desiredPrice).

(** ** Job state *)

Definition persistRuntimeState (lastError : option string) (required : bool) : M (World X) unit :=
  if negb (hasStatePort env) then mret tt
  else
    let! job := thisJob in
    let s := state job in
    let snapshot := {|
      js_jobId := job_id job;
      js_jobRevision := revision job;
      js_currentPriceWei := Z_toString <$> currentPrice s;
      js_activeOrderId := activeOrderId s;
      js_activeProtocolAddress := activeProtocolAddress s;
      js_activeOrderPlacedAt := activeOrderPlacedAt s;
      js_activeOrderVerifiedAt := activeOrderVerifiedAt s;
      js_activeExpirationTimeMs := activeExpirationTimeMs s;
      js_bidPosition := bidPosition s;
      js_bidConstraints := default [] (bidConstraints s);
      js_competitorPriceWei := Z_toString <$> competitorPrice s;
      js_lastRunAt := match lastRun s with
                      | Some t => if t =? 0 then None else Some (toISOString t)
                      | None => None
                      end;
      js_lastError := lastError |} in
    mcatch (logged (EPersist snapshot) (persistJobRuntimeState snapshot))
      (fun error => if required then mthrow error else mret tt).

Definition verifiedNow : M (World X) (option string) :=
  let! t := now in mret (Some (toISOString t)).

Definition trackRuntimeBidDecision (ownPrice competitor floor ceiling : Z) : M (World X) unit :=
  let position := resolveRuntimeBidPosition ownPrice competitor in
  updateState (st_decision (Some position)
    (Some (resolveRuntimeBidConstraints position ownPrice floor ceiling)) (Some competitor)).

Definition clearRuntimeBidDecision : M (World X) unit :=
  updateState (st_decision None None None).

Definition trackCurrentOrder (order : Order) : M (World X) unit :=
  let! job := thisJob in
  let s := state job in
  let isTracked := match activeOrderId s with Some id => sameId id order | None => false end in
  let nextExpirationTimeMs := orElse (toExpirationTimeMs (ord_expirationTime order))
        (if isTracked then activeExpirationTimeMs s else None) in
  let nextPlacedAt := orElse (ord_placedAt order)
        (if isTracked then activeOrderPlacedAt s else None) in
  let! verified := verifiedNow in
  do! updateState (st_order (Some (ord_id order)) (ord_protocolAddress order) nextPlacedAt verified
        (Some (ord_price order)) nextExpirationTimeMs) in
  persistRuntimeState None false.

Definition clearTrackedOrder : M (World X) unit :=
  do! updateState (st_order None None None None None None) in
  do! clearRuntimeBidDecision in
  persistRuntimeState None false.

Definition recordCancellation (order : Order) (requestedAt : string)
    (completedAt cancellationError : option string) : M (World X) unit :=
  if negb (hasStatePort env) then mret tt
  else
    let! job := thisJob in
    let snapshot := {|
      cs_jobId := job_id job;
      cs_jobRevision := revision job;
      cs_orderId := ord_id order;
      cs_priceWei := Some (Z_toString (ord_price order));
      cs_protocolAddress := ord_protocolAddress order;
      cs_placedAt := ord_placedAt order;
      cs_expirationTimeMs := toExpirationTimeMs (ord_expirationTime order);
      cs_makerAddress := toLowerCase (makerAddress env);
      cs_requestedAt := requestedAt;
      cs_completedAt := completedAt;
      cs_cancellationError := cancellationError |} in
    do! emit (ERecordCancellation snapshot) in
    mcatch (call (recordJobOfferCancellation snapshot)) (fun _ => mret tt).

Definition recordTrackedOrderCancellation (requestedAt : string)
    (completedAt cancellationError : option string) : M (World X) unit :=
  let! job := thisJob in
  let s := state job in
  match activeOrderId s with
  | Some orderId =>
      if negb (hasStatePort env) || negb (truthy orderId) then mret tt
      else
        let snapshot := {|
          cs_jobId := job_id job;
          cs_jobRevision := revision job;
          cs_orderId := orderId;
          cs_priceWei := Z_toString <$> currentPrice s;
          cs_protocolAddress := activeProtocolAddress s;
          cs_placedAt := activeOrderPlacedAt s;
          cs_expirationTimeMs := activeExpirationTimeMs s;
          cs_makerAddress := toLowerCase (makerAddress env);
          cs_requestedAt := requestedAt;
          cs_completedAt := completedAt;
          cs_cancellationError := cancellationError |} in
        do! emit (ERecordCancellation snapshot) in
        mcatch (call (recordJobOfferCancellation snapshot)) (fun _ => mret tt)
  | None => mret tt
  end.

(** ** The job's own offers *)

Definition isOfferManagedByJob (job : BidderJob) (order : Order) : bool :=
  match target job with
  | TokenTarget _ => bool_decide (ord_offerScope order = Some OfferItem)
  | CollectionTarget _ traits =>
      match default_traits traits with
      | [] => bool_decide (ord_offerScope order = Some OfferCollection)
      | (_ :: _) as targetTraits =>
          if negb (bool_decide (ord_offerScope order = Some OfferTrait)) then false
          else matchesExactTraitTargets localeCompare (ord_criteria order)
                 (map exactCriterion targetTraits)
      end
  | CompetitiveTraitTarget _ targetTrait _ =>
      if negb (bool_decide (ord_offerScope order = Some OfferTrait)) then false
      else matchesExactTraitTargets localeCompare (ord_criteria order) [exactCriterion targetTrait]
  end.

Definition isMakerOffer (offer : Order) : bool :=
  String.eqb (toLowerCase (ord_maker offer)) (toLowerCase (makerAddress env)).

Definition resolveTrackedActiveOrder (offers : list Order) (clearMissing : bool)
    (context : RequestContext) : M (World X) (option Order) :=
  let! job := thisJob in
  match activeOrderId (state job) with
  | None => mret None
  | Some activeId =>
      if negb (truthy activeId) then mret None
      else
        let adopt := fun order : Order =>
          if negb (otruthy (activeProtocolAddress (state job))) &&
             otruthy (ord_protocolAddress order)
          then updateState (st_protocol (ord_protocolAddress order))
          else mret tt in
        match List.find (sameId activeId) offers with
        | Some foundInMarket => do! adopt foundInMarket in mret (Some foundInMarket)
        | None =>
            let tokenId := match target job with TokenTarget t => Some t | _ => None end in
            let! recovered := call (getOrder activeId (activeProtocolAddress (state job))
                                (collectionAddress job) tokenId (collectionSlug job) context) in
            match recovered with
            | RecoveryActive order => do! adopt order in mret (Some order)
            | RecoveryInconclusive reason =>
                mthrow (String.concat ""
                  ["[Bidder] Unable to prove tracked active order status: jobId="; job_id job;
                   ", orderId="; activeId; ", reason="; reason]%string)
            | RecoveryInactiveOrMissing =>
                do! (if clearMissing then clearTrackedOrder else mret tt) in mret None
            end
        end
  end.

(** [offers.push(trackedOrder)] when the read did not list it. *)
Definition withTracked (offers : list Order) (tracked : option Order) : list Order :=
  match tracked with
  | Some t => if existsb (sameId (ord_id t)) offers then offers else offers ++ [t]
  | None => offers
  end.

(** ** Market actions *)

Definition performPlaceAndTrack (amount : Z) (decision : RuntimeBidDecisionContext)
    (context : RequestContext) : M (World X) unit :=
  let! t := now in
  do! updateState (st_lastRun (Some t)) in
  if isDryRun env then mret tt
  else
    let! job := thisJob in
    let! placed := logged (EPlace amount) (placeOffer job amount context) in
    let! verified := verifiedNow in
    do! updateState (st_order (Some (po_orderHash placed)) (Some (po_protocolAddress placed))
          (Some (po_placedAt placed)) verified (Some amount)
          (toExpirationTimeMs (po_expirationTime placed))) in
    do! trackRuntimeBidDecision amount (dc_competitorPrice decision) (dc_floor decision)
          (dc_ceiling decision) in
    persistRuntimeState None true.

(** [placeAndTrack] only adds the observation of the outcome. *)
Definition placeAndTrack := performPlaceAndTrack.

Definition performCancelAndTrack (order : Order) (context : RequestContext) : M (World X) unit :=
  if isDryRun env then mret tt
  else
    let! t := now in
    let requestedAt := toISOString t in
    do! recordCancellation order requestedAt None None in
    let! job := thisJob in
    do! mcatch (logged (ECancel order) (cancelOffer job order context))
          (fun error =>
             do! recordCancellation order requestedAt None (Some error) in mthrow error) in
    let! t := now in
    recordCancellation order requestedAt (Some (toISOString t)) None.

Definition cancelAndTrack := performCancelAndTrack.

Fixpoint cancelMakerOffers (myOffers : list Order) (keepOrderId : option string)
    (context : RequestContext) : M (World X) unit :=
  match myOffers with
  | [] => mret tt
  | offer :: rest =>
      let kept := match keepOrderId with
                  | Some id => truthy id && sameId id offer
                  | None => false
                  end in
      do! (if kept then mret tt else cancelAndTrack offer context) in
      cancelMakerOffers rest keepOrderId context
  end.

(** ** Renewal *)

Definition resolveKnownExpirationTimeMs (job : BidderJob) (order : Order) : option Z :=
  orElse (toExpirationTimeMs (ord_expirationTime order))
    (if match activeOrderId (state job) with Some id => sameId id order | None => false end
     then activeExpirationTimeMs (state job) else None).

(** Whether a renewal reason is given (its text goes to the log). *)
Definition getBidRenewalReason (order : Order) : M (World X) bool :=
  let! job := thisJob in
  match resolveKnownExpirationTimeMs job order with
  | None => mret true
  | Some expirationTimeMs =>
      let! t := now in
      mret (negb (scanSleepMs env * 2 <=? expirationTimeMs - t))
  end.

(** ** Runtime overrides *)

Definition getRuntimeOverride : M (World X) (option RuntimeJobOverride) := fun w =>
  match w_override w with
  | None => (Ok None, w)
  | Some override =>
      if ro_expiresAt override <=? dateNow (w_ext w) then (Ok None, set_override None w)
      else (Ok (Some override), w)
  end.

(** ** One refresh *)

(** The offers of a refresh, strongest first, and the tracked order among them. *)
Definition readOffers (context : RequestContext) : M (World X) (list Order) :=
  let! job := thisJob in
  let! offers := call (getActiveOffers job context) in
  let! trackedOrder := resolveTrackedActiveOrder offers true context in
  mret (sortOffers (withTracked offers trackedOrder)).

(** The price to bid and the bounds it was worked out from. *)
Definition decidePrice (job : BidderJob) (override : option RuntimeJobOverride)
    (balance : option Z) (competitor : Z) : result (Z * RuntimeBidDecisionContext) :=
  let configuredFloor := match override with Some r => ro_floor r | None => floor (config job) end in
  let configuredCeiling := match override with
                           | Some r => ro_ceiling r
                           | None => ceiling (config job)
                           end in
  try ceiling <- getEffectiveCeiling balance configuredCeiling configuredFloor;
  try floor <- getEffectiveFloor configuredFloor ceiling;
  try desiredPrice <- getDesiredBid floor ceiling competitor (delta (config job));
  Ok (desiredPrice, {| dc_competitorPrice := competitor; dc_floor := floor; dc_ceiling := ceiling |}).

(** Everything after the price is known. *)
Definition actOnPrice (myOffers : list Order) (desiredPrice : Z)
    (decision : RuntimeBidDecisionContext) (context : RequestContext) : M (World X) unit :=
  let competitor := dc_competitorPrice decision in
  let! renewalReason := match myOffers with
                        | myHighest :: _ => getBidRenewalReason myHighest
                        | [] => mret false
                        end in
  if desiredPrice <=? 0 then
    do! emit (EDecision DZeroCeiling) in
    match myOffers with
    | _ :: _ =>
        do! cancelMakerOffers myOffers None context in
        clearTrackedOrder
    | [] =>
        do! clearRuntimeBidDecision in
        persistRuntimeState None false
    end
  else
    match myOffers with
    | [] =>
        do! emit (EDecision DPlace) in
        do! clearRuntimeBidDecision in
        placeAndTrack desiredPrice decision context
    | myHighest :: _ =>
        let myPrice := ord_price myHighest in
        if renewalReason then
          do! emit (EDecision DRenew) in
          do! clearRuntimeBidDecision in
          do! placeAndTrack desiredPrice decision context in
          cancelMakerOffers myOffers None context
        else
          match List.find (fun offer => ord_price offer =? desiredPrice) myOffers with
          | Some matchingMakerOffer =>
              do! emit (EDecision (if negb (sameId (ord_id matchingMakerOffer) myHighest)
                                   then DRevertToTarget
                                   else if competitor <? desiredPrice then DMaintainWinning
                                   else DMaintainCapped)) in
              do! trackRuntimeBidDecision (ord_price matchingMakerOffer) competitor
                    (dc_floor decision) (dc_ceiling decision) in
              do! trackCurrentOrder matchingMakerOffer in
              cancelMakerOffers myOffers (Some (ord_id matchingMakerOffer)) context
          | None =>
              do! emit (EDecision (if myPrice <? desiredPrice then DAdjustUp else DAdjustDown)) in
              do! clearRuntimeBidDecision in
              do! placeAndTrack desiredPrice decision context in
              cancelMakerOffers myOffers None context
          end
    end.

Definition strategyBody (context : RequestContext) : M (World X) unit :=
  let! runtimeOverride := getRuntimeOverride in
  let! sortedOffers := readOffers context in
  let! job := thisJob in
  let myOffers := List.filter (fun o => isMakerOffer o && isOfferManagedByJob job o) sortedOffers in
  let competitorOffers := List.filter (fun o => negb (isMakerOffer o)) sortedOffers in
  let competitor := match competitorOffers with o :: _ => ord_price o | [] => 0 end in
  let! (desiredPrice, decision) :=
    (fun w => ofResult (decidePrice job runtimeOverride (w_balance w) competitor) w) in
  actOnPrice myOffers desiredPrice decision context.

Definition executeJob (options : JobExecutionOptions) : M (World X) unit := fun w =>
  if negb (w_scheduled w) then (Ok tt, w)
  else mcatch (strategyBody (requestContext options))
    (fun error =>
       do! (fun w => if w_scheduled w then persistRuntimeState (Some error) false w else (Ok tt, w)) in
       if throwOnFailure options then mthrow error else mret tt) w.

(** ** Cancelling a job's offers *)

(** Cancels the offers found, or records that the tracked one is gone. *)
Definition withdrawOffers (makerOffers : list Order) (trackedOrderId : option string)
    (context : RequestContext) : M (World X) Z :=
  match makerOffers with
  | [] =>
      if otruthy trackedOrderId then
        let! t := now in
        let completedAt := toISOString t in
        do! recordTrackedOrderCancellation completedAt (Some completedAt) None in
        do! clearTrackedOrder in
        mret 0
      else
        do! clearTrackedOrder in
        mret 0
  | _ :: _ =>
      do! cancelMakerOffers makerOffers None context in
      do! clearTrackedOrder in
      mret (Z.of_nat (length makerOffers))
  end.

Definition cancelActiveOffersForJob (context : RequestContext) : M (World X) Z :=
  let! job := thisJob in
  let! offers := call (getActiveOffers job context) in
  let! trackedJob := thisJob in
  let trackedOrderId := activeOrderId (state trackedJob) in
  let! trackedOrder := resolveTrackedActiveOrder offers false context in
  let cancellationCandidates := withTracked offers trackedOrder in
  let makerOffers := List.filter (fun offer =>
        isMakerOffer offer &&
        (isOfferManagedByJob job offer ||
         match trackedOrderId with Some id => sameId id offer | None => false end))
      cancellationCandidates in
  withdrawOffers makerOffers trackedOrderId context.

End Strategy.
End Strategy.
