(* ===== verification/StrategyPrice.v ===== *)
(** * The bid price of the strategy

    What [decidePrice] of [Strategy] computes, for any marketplace whose rounding
    keeps the promise of [PriceGrid]. *)

From S2P Require Import Prelude JsValue Domain TraitCriteria OfferPrice BiddingService Strategy.

Open Scope Z_scope.

Module StrategyPrice.
Import Strategy.

Section Price.
Context {X : Type} `{BiddingService X} (valid : Z -> Prop)
  `{!PriceGrid (roundOfferPriceDown (X := X)) (roundOfferPriceUp (X := X)) valid}.

(** The most the job may bid: its ceiling, or the balance when that is less. *)
Definition spendable (balance : option Z) (ceiling : Z) : Z :=
  match balance with Some b => Z.min b ceiling | None => ceiling end.

(** The declared floor can be paid. *)
Definition affordable (balance : option Z) (floor : Z) : Prop :=
  match balance with Some b => floor <= b | None => True end.

Lemma affordable_dec balance floor : {affordable balance floor} + {~ affordable balance floor}.
Proof. destruct balance as [b|]; simpl; [apply Z_le_dec|by left]. Qed.

(** The price to bid, stated without rounding: the least price that meets the
    floor and beats the competitor by delta, or the greatest price within limits
    when that is too much; nothing when the declared range holds no price; and
    all that the balance buys when it cannot pay the floor. *)
Definition is_bid_price (balance : option Z) (floor ceiling competitor delta p : Z) : Prop :=
  let limit := spendable balance ceiling in
  let wanted := Z.max floor (competitor + delta) in
  let least_wanted := valid p /\ wanted <= p /\ forall q, valid q -> wanted <= q -> p <= q in
  let greatest := valid p /\ p <= limit /\ forall q, valid q -> q <= limit -> q <= p in
  (affordable balance floor ->
     ((exists q, valid q /\ floor <= q <= limit) ->
        floor <= p <= limit /\ (least_wanted \/ (greatest /\ p < wanted))) /\
     ((~ exists q, valid q /\ floor <= q <= limit) -> p = 0)) /\
  (~ affordable balance floor -> greatest).

Lemma spendable_eq balance ceiling :
  match balance with
  | Some b => if b <? ceiling then b else ceiling
  | None => ceiling
  end = spendable balance ceiling.
Proof. destruct balance as [b|]; [|done]. simpl. destruct (Z.ltb_spec b ceiling); lia. Qed.

Lemma up_valid q r : 0 <= q -> valid q -> roundOfferPriceUp (X := X) q = Ok r -> r = q.
Proof.
  intros Hq Hv E. destruct (grid_up q Hq) as (p & E' & Hp & Hle & Hm).
  rewrite E in E'. injection E' as ->. specialize (Hm q Hv ltac:(lia)). lia.
Qed.

Lemma decidePrice_total job override balance competitor :
  let f := match override with Some r => ro_floor r | None => floor (config job) end in
  let c := match override with Some r => ro_ceiling r | None => ceiling (config job) end in
  0 <= f -> 0 <= c -> (forall b, balance = Some b -> 0 <= b) ->
  exists p d, decidePrice (X := X) job override balance competitor = Ok (p, d) /\
    dc_competitorPrice d = competitor /\ 0 <= p /\ valid p /\
    is_bid_price balance f c competitor (delta (config job)) p.
Proof.
  intros f c Hf Hc Hb. unfold decidePrice. fold f c. set (dl := delta (config job)). clearbody dl.
  set (limit := spendable balance c).
  assert (0 <= limit) as Hlim.
  { unfold limit. destruct balance as [b|]; [|done]. simpl. specialize (Hb b eq_refl). lia. }
  destruct (grid_down limit Hlim) as (C & EC & VC & HC & MC).
  pose proof (MC 0 grid_zero Hlim) as HC0.
  destruct (grid_up f Hf) as (F & EF & VF & HF & MF).
  unfold getEffectiveCeiling, getEffectiveFloor. rewrite spendable_eq. fold limit. rewrite EC. simpl.
  set (can := match balance with Some b => f <=? b | None => true end).
  assert (can = true <-> affordable balance f) as Hcan.
  { unfold can, affordable. destruct balance as [b|]; [|done]. by rewrite Z.leb_le. }
  set (ce := if can then if C <? F then 0 else C else C).
  assert ((if can then try fl <- roundOfferPriceUp (X := X) f; Ok (if C <? fl then 0 else C) else Ok C)
          = Ok ce) as -> by (unfold ce; destruct can; [by rewrite EF|done]).
  simpl. rewrite EF. simpl. set (fl := if F <? ce then F else ce).
  assert (0 <= ce /\ valid ce) as [Hce Vce].
  { unfold ce. destruct can; [|done]. destruct (C <? F); [|done]. split; [lia|apply grid_zero]. }
  assert (0 <= fl /\ valid fl) as [Hfl Vfl] by (unfold fl; destruct (F <? ce); (split; [lia|done])).
  unfold getDesiredBid. set (want := if competitor + dl <? fl then fl else competitor + dl).
  assert (fl <= want /\ competitor + dl <= want /\ (want = fl \/ want = competitor + dl)) as Hwant.
  { unfold want. destruct (Z.ltb_spec (competitor + dl) fl); lia. }
  destruct (grid_up want ltac:(lia)) as (U & EU & VU & HU & MU). rewrite EU. simpl.
  eexists _, _. split; [done|]. split; [done|].
  set (p := if ce <? U then ce else U).
  assert (p = Z.min ce U /\ valid p) as [Hp Vp]
    by (unfold p; destruct (Z.ltb_spec ce U); (split; [lia|done])).
  split; [lia|]. split; [done|]. clearbody p. unfold is_bid_price. fold limit.
  split.
  - intros Haff. apply Hcan in Haff. 
    destruct (Z.ltb_spec C F) as [HCF|HCF].
    + assert (ce = 0) as Ece by (unfold ce; rewrite Haff; destruct (Z.ltb_spec C F); lia).
      split.
      * intros (q & Vq & Hq). specialize (MF q Vq). specialize (MC q Vq). lia.
      * intros _. lia.
    + assert (ce = C) as Ece by (unfold ce; rewrite Haff; destruct (Z.ltb_spec C F); lia).
      assert (fl = F) as Efl by (unfold fl; destruct (Z.ltb_spec F ce); lia).
      split; [intros _|intros Hno; exfalso; apply Hno; exists F; split; [done|lia]].
      split; [lia|]. destruct (Z.le_gt_cases U C) as [HUC|HUC].
      * left. assert (p = U) as -> by lia. split; [done|]. split; [lia|].
        intros q Vq Hq. apply MU; [done|]. destruct Hwant as (_ & _ & [->| ->]); [|lia].
        rewrite Efl. apply MF; [done|lia].
      * right. assert (p = C) as -> by lia. split; [done|].
        assert (C < want) as HCw
          by (destruct (Z.le_gt_cases want C); [specialize (MU C VC); lia|done]).
        destruct Hwant as (_ & _ & [E|E]); lia.
  - intros Hna. assert (can = false) as Ecan by (destruct can; [by destruct Hna; apply Hcan|done]).
    assert (ce = C) as Ece by (unfold ce; by rewrite Ecan).
    assert (limit < f) as Hlf.
    { unfold affordable in Hna. destruct balance as [b|]; [|done]. unfold limit. simpl. lia. }
    assert (fl = C) as Efl by (unfold fl; destruct (Z.ltb_spec F ce); lia).
    assert (p = C) as -> by lia. done.
Qed.

End Price.
End StrategyPrice.
