(* ===== verification/StrategyEffects.v ===== *)
(** * Reasoning about the effects of the strategy

    [effects P m]: whatever happens, the run of [m] adds to the trace only effects
    in [P] and changes nothing of the job but its state.  The lemmas below compose
    it along the monad and give it for each helper of [Strategy]. *)

From S2P Require Import Prelude JsValue Domain TraitCriteria BiddingService Strategy.

Open Scope Z_scope.

Module StrategyEffects.
Import TraitCriteria Strategy.

Section Effects.
Context {X : Type}.

(** The job is the same declaration; the schedule and the balance are untouched. *)
Definition same_static (w w' : World X) : Prop :=
  set_state (w_job w') emptyState = set_state (w_job w) emptyState /\
  w_scheduled w' = w_scheduled w /\ w_balance w' = w_balance w.

#[global] Instance same_static_preorder : PreOrder same_static.
Proof.
  split; [done|]. intros w1 w2 w3 (H1 & H2 & H3) (G1 & G2 & G3).
  unfold same_static. split_and!; congruence.
Qed.

Definition effects {A} (P : Effect -> Prop) (m : M (World X) A) : Prop :=
  forall w r w', m w = (r, w') ->
  exists T, w_trace w' = w_trace w ++ T /\ Forall P T /\ same_static w w'.

Lemma bind_inv {A B} (m : M (World X) A) (f : A -> M (World X) B) w r w' :
  mbind m f w = (r, w') ->
  (exists a w1, m w = (Ok a, w1) /\ f a w1 = (r, w')) \/
  (exists e, m w = (Err e, w') /\ r = Err e).
Proof.
  unfold mbind. destruct (m w) as [[a|e] w1]; [by left; eauto|]. intros [= <- <-]. right. eauto.
Qed.

Lemma effects_weaken {A} (P Q : Effect -> Prop) (m : M (World X) A) :
  (forall e, P e -> Q e) -> effects P m -> effects Q m.
Proof.
  intros HPQ Hm w r w' E. destruct (Hm _ _ _ E) as (T & H1 & H2 & H3).
  exists T. split_and!; try done. by eapply Forall_impl.
Qed.

Lemma effects_pure {A} P (m : M (World X) A) :
  (forall w r w', m w = (r, w') -> w_trace w' = w_trace w /\ same_static w w') -> effects P m.
Proof.
  intros Hm w r w' E. destruct (Hm _ _ _ E) as [H1 H2]. exists []. rewrite app_nil_r. auto.
Qed.

Lemma effects_ret {A} P (a : A) : effects P (mret a).
Proof. apply effects_pure. by intros w r w' [= <- <-]. Qed.

Lemma effects_throw {A} P e : effects P (mthrow (A := A) e).
Proof. apply effects_pure. by intros w r w' [= <- <-]. Qed.

Lemma effects_thisJob P : effects P thisJob.
Proof. apply effects_pure. by intros w r w' [= <- <-]. Qed.

Lemma effects_ofResult {A} P (r : result A) : effects P (ofResult r).
Proof. apply effects_pure. by intros w r' w' [= <- <-]. Qed.

Lemma effects_updateState P f : effects P (updateState f).
Proof. apply effects_pure. by intros w r w' [= <- <-]. Qed.

Lemma effects_call {A} P (m : M X A) : effects P (call m).
Proof.
  apply effects_pure. intros w r w'. unfold call. destruct (m (w_ext w)). by intros [= <- <-].
Qed.

Lemma effects_emit (P : Effect -> Prop) e : P e -> effects P (emit e).
Proof. intros He w r w' [= <- <-]. exists [e]. split_and!; try done. by constructor. Qed.

Lemma effects_logged {A} (P : Effect -> Prop) f (m : M X A) :
  P (f true) -> P (f false) -> effects P (logged f m).
Proof.
  intros Ht Hf w r w'. unfold logged, call. destruct (m (w_ext w)) as [r0 x].
  intros [= <- <-]. exists [f (is_ok r0)]. split_and!; try done.
  constructor; [by destruct r0|done].
Qed.

Lemma effects_bind {A B} P (m : M (World X) A) (f : A -> M (World X) B) :
  effects P m -> (forall a, effects P (f a)) -> effects P (mbind m f).
Proof.
  intros Hm Hf w r w' [(a & w1 & E1 & E2)|(e & E & ->)]%bind_inv; [|by apply Hm in E].
  destruct (Hm _ _ _ E1) as (T1 & G1 & G2 & G3), (Hf _ _ _ _ E2) as (T2 & F1 & F2 & F3).
  exists (T1 ++ T2). rewrite F1, G1, app_assoc. split_and!; [done|by apply Forall_app|].
  by transitivity w1.
Qed.

Lemma effects_catch {A} P (m : M (World X) A) h :
  effects P m -> (forall e, effects P (h e)) -> effects P (mcatch m h).
Proof.
  intros Hm Hh w r w'. unfold mcatch. destruct (m w) as [[a|e] w1] eqn:E.
  - intros [= <- <-]. by apply Hm in E.
  - intros E2. destruct (Hm _ _ _ E) as (T1 & G1 & G2 & G3), (Hh _ _ _ _ E2) as (T2 & F1 & F2 & F3).
    exists (T1 ++ T2). rewrite F1, G1, app_assoc. split_and!; [done|by apply Forall_app|].
    by transitivity w1.
Qed.

Lemma effects_now `{RuntimeStatePort X} P : effects P now.
Proof. apply effects_pure. by intros w r w' [= <- <-]. Qed.

End Effects.

#[export] Hint Resolve effects_ret effects_throw effects_thisJob effects_ofResult
  effects_updateState effects_call effects_now : artgod.

(** Walks through a computation of the monad. *)
Ltac walk_effects :=
  repeat first
    [ solve [auto with artgod]
    | progress cbv zeta
    | apply effects_bind; [|intros ?]
    | apply effects_catch; [|intros ?]
    | apply effects_emit | apply effects_logged
    | match goal with |- effects _ (match ?x with _ => _ end) => destruct x end ].

(** Bookkeeping: records, persisted state and decisions, but no market action. *)
Definition silent (e : Effect) : Prop :=
  match e with EPlace _ _ | ECancel _ _ => False | _ => True end.

Definition isMarket (e : Effect) : bool :=
  match e with EPlace _ _ | ECancel _ _ => true | _ => false end.

(** The market actions of a trace. *)
Definition market (T : list Effect) : list Effect := List.filter isMarket T.

Lemma market_app T1 T2 : market (T1 ++ T2) = market T1 ++ market T2.
Proof. apply List.filter_app. Qed.

Lemma market_silent T : Forall silent T -> market T = [].
Proof. induction 1 as [|e T He _ IH]; simpl; [done|]. by destruct e. Qed.

Section Helpers.
Context {X : Type} `{BiddingService X} `{RuntimeStatePort X}.
Context (localeCompare : keyItem -> keyItem -> Z) (env : BidderEnv).

Lemma persist_silent e b : effects silent (persistRuntimeState (X := X) env e b).
Proof. unfold persistRuntimeState. by walk_effects. Qed.

Lemma verifiedNow_silent : effects silent (verifiedNow (X := X)).
Proof. unfold verifiedNow. by walk_effects. Qed.

Lemma trackDecision_silent a b c d : effects silent (trackRuntimeBidDecision (X := X) a b c d).
Proof. unfold trackRuntimeBidDecision. by walk_effects. Qed.

Lemma clearDecision_silent : effects silent (clearRuntimeBidDecision (X := X)).
Proof. unfold clearRuntimeBidDecision. by walk_effects. Qed.

Hint Resolve persist_silent verifiedNow_silent trackDecision_silent clearDecision_silent : artgod.

Lemma trackCurrentOrder_silent order : effects silent (trackCurrentOrder (X := X) env order).
Proof. unfold trackCurrentOrder. by walk_effects. Qed.

Lemma clearTrackedOrder_silent : effects silent (clearTrackedOrder (X := X) env).
Proof. unfold clearTrackedOrder. by walk_effects. Qed.

Lemma recordCancellation_silent order a b c :
  effects silent (recordCancellation (X := X) env order a b c).
Proof. unfold recordCancellation. by walk_effects. Qed.

Lemma recordTracked_silent a b c :
  effects silent (recordTrackedOrderCancellation (X := X) env a b c).
Proof. unfold recordTrackedOrderCancellation. by walk_effects. Qed.

Hint Resolve trackCurrentOrder_silent clearTrackedOrder_silent recordCancellation_silent
  recordTracked_silent : artgod.

Lemma resolveTracked_silent offers b context :
  effects silent (resolveTrackedActiveOrder (X := X) env offers b context).
Proof. unfold resolveTrackedActiveOrder. by walk_effects. Qed.

Lemma getRuntimeOverride_silent : effects silent (getRuntimeOverride (X := X)).
Proof.
  apply effects_pure. intros w r w'. unfold getRuntimeOverride.
  repeat case_match; by intros [= <- <-].
Qed.

Lemma renewal_silent order : effects silent (getBidRenewalReason (X := X) env order).
Proof. unfold getBidRenewalReason. by walk_effects. Qed.

Hint Resolve resolveTracked_silent getRuntimeOverride_silent renewal_silent : artgod.

Lemma readOffers_silent context : effects silent (readOffers (X := X) env context).
Proof. unfold readOffers. by walk_effects. Qed.

Lemma silent_market {A} (m : M (World X) A) w r w' :
  effects silent m -> m w = (r, w') ->
  exists T, w_trace w' = w_trace w ++ T /\ market T = [] /\ same_static w w'.
Proof.
  intros Hm E. destruct (Hm _ _ _ E) as (T & H1 & H2 & H3). exists T.
  split_and!; try done. by apply market_silent.
Qed.

(** *** Helpers that cannot fail *)

Definition total {A} (m : M (World X) A) : Prop := forall w, exists a w', m w = (Ok a, w').

Lemma total_bind {A B} (m : M (World X) A) (f : A -> M (World X) B) :
  total m -> (forall a, total (f a)) -> total (mbind m f).
Proof.
  intros Hm Hf w. unfold mbind. destruct (Hm w) as (a & w1 & ->). apply Hf.
Qed.

Lemma total_catch {A} (m : M (World X) A) h : (forall e, total (h e)) -> total (mcatch m h).
Proof.
  intros Hh w. unfold mcatch. destruct (m w) as [[a|e] w1]; [by eexists _, _|apply Hh].
Qed.

Lemma total_ret {A} (a : A) : total (mret a).
Proof. intros w. by eexists _, _. Qed.

Lemma total_emit e : total (emit e).
Proof. intros w. by eexists _, _. Qed.

Lemma total_updateState f : total (updateState f).
Proof. intros w. by eexists _, _. Qed.

Lemma total_thisJob : total thisJob.
Proof. intros w. by eexists _, _. Qed.

Lemma total_now : total now.
Proof. intros w. by eexists _, _. Qed.

Hint Resolve total_ret total_emit total_updateState total_thisJob total_now : artgod.

Ltac walk_total :=
  repeat first
    [ solve [auto with artgod]
    | progress cbv zeta
    | apply total_bind; [|intros ?]
    | apply total_catch; intros ?
    | match goal with |- total (match ?x with _ => _ end) => destruct x end ].

Lemma persist_total e : total (persistRuntimeState (X := X) env e false).
Proof. unfold persistRuntimeState. by walk_total. Qed.

Lemma verifiedNow_total : total (verifiedNow (X := X)).
Proof. unfold verifiedNow. by walk_total. Qed.

Lemma trackDecision_total a b c d : total (trackRuntimeBidDecision (X := X) a b c d).
Proof. unfold trackRuntimeBidDecision. by walk_total. Qed.

Lemma clearDecision_total : total (clearRuntimeBidDecision (X := X)).
Proof. unfold clearRuntimeBidDecision. by walk_total. Qed.

Hint Resolve persist_total verifiedNow_total trackDecision_total clearDecision_total : artgod.

Lemma trackCurrentOrder_total order : total (trackCurrentOrder (X := X) env order).
Proof. unfold trackCurrentOrder. by walk_total. Qed.

Lemma clearTrackedOrder_total : total (clearTrackedOrder (X := X) env).
Proof. unfold clearTrackedOrder. by walk_total. Qed.

Lemma recordCancellation_total order a b c : total (recordCancellation (X := X) env order a b c).
Proof. unfold recordCancellation. by walk_total. Qed.

Lemma recordTracked_total a b c : total (recordTrackedOrderCancellation (X := X) env a b c).
Proof. unfold recordTrackedOrderCancellation. by walk_total. Qed.

Lemma renewal_total order : total (getBidRenewalReason (X := X) env order).
Proof. unfold getBidRenewalReason. by walk_total. Qed.

End Helpers.

#[export] Hint Resolve persist_silent verifiedNow_silent trackDecision_silent
  clearDecision_silent trackCurrentOrder_silent clearTrackedOrder_silent
  recordCancellation_silent recordTracked_silent resolveTracked_silent
  getRuntimeOverride_silent renewal_silent readOffers_silent
  total_ret total_emit total_updateState total_thisJob total_now
  persist_total verifiedNow_total trackDecision_total clearDecision_total
  trackCurrentOrder_total clearTrackedOrder_total recordCancellation_total
  recordTracked_total renewal_total : artgod.

(** ** Running a list of market actions *)

(** An action that the marketplace refused. *)
Definition refused (e : Effect) : Effect :=
  match e with
  | EPlace p _ => EPlace p false
  | ECancel o _ => ECancel o false
  | e => e
  end.

(** The market sees the actions in order, up to the first refused one, or up to
    a placement that could not be saved. *)
Inductive executes (acts : list Effect) : result unit -> list Effect -> Prop :=
  | executes_all : executes acts (Ok tt) acts
  | executes_refused l a rest e : acts = l ++ a :: rest -> executes acts (Err e) (l ++ [refused a])
  | executes_unsaved l p rest e : acts = l ++ EPlace p true :: rest ->
      executes acts (Err e) (l ++ [EPlace p true]).

Lemma executes_app_ok a1 a2 T1 r T2 :
  executes a1 (Ok tt) T1 -> executes a2 r T2 -> executes (a1 ++ a2) r (T1 ++ T2).
Proof.
  intros E1 E2. inversion E1; subst. destruct E2.
  - constructor.
  - rewrite app_assoc. apply executes_refused with rest. subst. by rewrite app_assoc.
  - rewrite app_assoc. apply executes_unsaved with rest. subst. by rewrite app_assoc.
Qed.

Lemma executes_app_err a1 a2 e T : executes a1 (Err e) T -> executes (a1 ++ a2) (Err e) T.
Proof.
  intros E. inversion E; subst; rewrite <- app_assoc; cbn [app]; [by econstructor|].
  by econstructor 3.
Qed.

Lemma decision_silent {X} d : effects silent (emit (X := X) (EDecision d)).
Proof. by apply effects_emit. Qed.

#[export] Hint Resolve decision_silent : artgod.

Section Runs.
Context {X : Type}.

(** [m] takes the market actions [acts]. *)
Definition acts_as (m : M (World X) unit) (acts : list Effect) : Prop :=
  forall w r w', m w = (r, w') ->
  exists T, w_trace w' = w_trace w ++ T /\ same_static w w' /\ executes acts r (market T).

Lemma acts_as_quiet m : effects silent m -> total m -> acts_as m [].
Proof.
  intros Hs Ht w r w' E. destruct (silent_market m w r w' Hs E) as (T & HT & Hm & Hw).
  exists T. rewrite Hm. split_and!; try done. destruct (Ht w) as ([] & w1 & E1).
  rewrite E1 in E. injection E as <- <-. constructor.
Qed.

Lemma acts_as_bind m k a1 a2 :
  acts_as m a1 -> acts_as k a2 -> acts_as (mbind m (fun _ => k)) (a1 ++ a2).
Proof.
  intros Hm Hk w r w' [([] & w1 & E1 & E2)|(e & E & ->)]%bind_inv.
  - destruct (Hm _ _ _ E1) as (T1 & H1 & S1 & X1), (Hk _ _ _ E2) as (T2 & H2 & S2 & X2).
    exists (T1 ++ T2). rewrite H2, H1, app_assoc, market_app. split_and!; [done|by transitivity w1|].
    by apply executes_app_ok.
  - destruct (Hm _ _ _ E) as (T1 & H1 & S1 & X1). exists T1. split_and!; try done.
    by apply executes_app_err.
Qed.

(** Bookkeeping before or after changes nothing. *)
Lemma acts_as_quiet_bind {A} (m : M (World X) A) k acts :
  effects silent m -> total m -> (forall a, acts_as (k a) acts) -> acts_as (mbind m k) acts.
Proof.
  intros Hs Ht Hk w r w' [(a & w1 & E1 & E2)|(e & E & ->)]%bind_inv.
  - destruct (silent_market _ _ _ _ Hs E1) as (T1 & H1 & M1 & S1).
    destruct (Hk _ _ _ _ E2) as (T2 & H2 & S2 & X2).
    exists (T1 ++ T2). rewrite H2, H1, app_assoc, market_app, M1.
    split_and!; [done|by transitivity w1|done].
  - destruct (Ht w) as (a & w1 & E1). by rewrite E1 in E.
Qed.

Lemma acts_as_bind_quiet m k acts :
  acts_as m acts -> effects silent k -> total k -> acts_as (mbind m (fun _ => k)) acts.
Proof.
  intros Hm Hs Ht. rewrite <- (app_nil_r acts). by apply acts_as_bind, acts_as_quiet.
Qed.

End Runs.
End StrategyEffects.
