(* ===== verification/StrategyPlan.v ===== *)
(** * What one refresh does to the market, as a plan

    The abstract specification of the strategy: from the price to bid and the
    job's own offers, whether to withdraw, hold or post, and the market actions
    that carries out, new offer first.  [actOnPrice] of [Strategy] is shown to
    take exactly the actions of the plan, up to the first failure. *)

From S2P Require Import Prelude JsValue Domain TraitCriteria BiddingService Strategy StrategyEffects.

Open Scope Z_scope.

Module StrategyPlan.
Import TraitCriteria Strategy StrategyEffects.

Inductive Plan : Type :=
  | Withdraw
  | Hold (id : string)
  | Post (price : Z).

Definition planFor (price : Z) (own : list Order) (renew : bool) : Plan :=
  if price <=? 0 then Withdraw
  else match List.find (fun o => ord_price o =? price) own with
       | Some o => if renew then Post price else Hold (ord_id o)
       | None => Post price
       end.

Definition cancels (l : list Order) : list Effect := map (fun o => ECancel o true) l.

(** The held order is the one its (nonempty) id names. *)
Definition others (id : string) (own : list Order) : list Order :=
  List.filter (fun o => negb (truthy id && sameId id o)) own.

Definition planActions (plan : Plan) (own : list Order) : list Effect :=
  match plan with
  | Withdraw => cancels own
  | Hold id => cancels (others id own)
  | Post price => EPlace price true :: cancels own
  end.

(** What the job records when the plan has been carried out. *)
Definition tracks (plan : Plan) (s : BidderState) : Prop :=
  match plan with
  | Withdraw => activeOrderId s = None /\ currentPrice s = None
  | Hold id => activeOrderId s = Some id
  | Post price => (exists id, activeOrderId s = Some id) /\ currentPrice s = Some price
  end.

Section Plan.
Context {X : Type} `{BiddingService X} `{RuntimeStatePort X}.
Context (localeCompare : keyItem -> keyItem -> Z) (env : BidderEnv).

(** A dry run takes no action. *)
Definition live (acts : list Effect) : list Effect := if isDryRun env then [] else acts.

Lemma live_app a b : live (a ++ b) = live a ++ live b.
Proof. unfold live. by destruct (isDryRun env). Qed.

(** The renewal decision on an offer at time [t]. *)
Definition dueForRenewal (job : BidderJob) (t : Z) (order : Order) : bool :=
  match resolveKnownExpirationTimeMs job order with
  | None => true
  | Some expiration => negb (scanSleepMs env * 2 <=? expiration - t)
  end.

Lemma renewal_eq order (w : World X) :
  getBidRenewalReason env order w = (Ok (dueForRenewal (w_job w) (dateNow (w_ext w)) order), w).
Proof.
  unfold getBidRenewalReason, dueForRenewal, thisJob, mbind, now, mret.
  by destruct (resolveKnownExpirationTimeMs (w_job w) order).
Qed.

Lemma acts_as_logged f (m : M X unit) :
  isMarket (f true) = true -> refused (f true) = f false -> acts_as (logged f m) [f true].
Proof.
  intros Hm Hf w r w'. unfold logged, call. destruct (m (w_ext w)) as [r0 x] eqn:E.
  intros [= <- <-]. destruct r0 as [[]|e]; simpl.
  - exists [f true]. split_and!; try done. unfold market. simpl. rewrite Hm. constructor.
  - exists [f false]. split_and!; try done. rewrite <- Hf at 1. unfold market. simpl.
    replace (isMarket (refused (f true))) with true by (destruct (f true); done).
    by apply (executes_refused [f true] [] (f true) []).
Qed.

Lemma cancel_acts order context :
  acts_as (performCancelAndTrack (X := X) env order context) (live [ECancel order true]).
Proof.
  unfold performCancelAndTrack, live. destruct (isDryRun env).
  { apply acts_as_quiet; [auto with artgod|apply total_ret]. }
  apply acts_as_quiet_bind; [auto with artgod..|intros t].
  apply acts_as_quiet_bind; [auto with artgod..|intros _].
  apply acts_as_quiet_bind; [auto with artgod..|intros job].
  apply acts_as_bind_quiet; [| |].
  - intros w r w'. unfold mcatch. destruct (logged _ _ w) as [r0 w1] eqn:E.
    destruct (acts_as_logged (ECancel order) _ eq_refl eq_refl _ _ _ E) as (T & HT & HS & HX).
    destruct r0 as [[]|e]; [intros [= <- <-]; by exists T|].
    unfold mbind. destruct (recordCancellation_total env order (toISOString t) None (Some e) w1)
      as (a & w2 & E2). rewrite E2. intros [= <- <-].
    destruct (silent_market _ _ _ _ (recordCancellation_silent env order _ _ _) E2)
      as (T2 & HT2 & HM2 & HS2).
    exists (T ++ T2). rewrite HT2, HT, app_assoc, market_app, HM2, app_nil_r.
    split_and!; [done|by transitivity w1|done].
  - apply effects_bind; intros; auto with artgod.
  - apply total_bind; intros; auto with artgod.
Qed.

Lemma cancelMakerOffers_acts l keep context :
  acts_as (cancelMakerOffers (X := X) env l keep context)
    (live (cancels (match keep with Some id => others id l | None => l end))).
Proof.
  induction l as [|o l IH]; cbn [cancelMakerOffers].
  { destruct keep; unfold live, cancels, others; simpl;
      destruct (isDryRun env); apply acts_as_quiet; auto with artgod. }
  set (kept := match keep with Some id => truthy id && sameId id o | None => false end).
  assert (match keep with Some id => others id (o :: l) | None => o :: l end =
          (if kept then [] else [o]) ++ match keep with Some id => others id l | None => l end) as ->.
  { destruct keep as [id|]; [|done]. unfold others. simpl. unfold kept. by destruct (_ && _). }
  unfold cancels. rewrite map_app, live_app. apply acts_as_bind; [|done].
  destruct kept; [|apply cancel_acts].
  unfold live. simpl. destruct (isDryRun env); apply acts_as_quiet; auto with artgod.
Qed.

(** ** Placement *)

(** What the first save after a placement records. *)
Definition saves (placed : PlacedOffer) (amount : Z) (snap : JobSnapshot) : Prop :=
  js_activeOrderId snap = Some (po_orderHash placed) /\
  js_activeProtocolAddress snap = Some (po_protocolAddress placed) /\
  js_currentPriceWei snap = Some (Z_toString amount).

Lemma place_run amount decision context (w : World X) r w' :
  isDryRun env = false ->
  performPlaceAndTrack env amount decision context w = (r, w') ->
  same_static w w' /\
  ((exists e, r = Err e /\ w_trace w' = w_trace w ++ [EPlace amount false]) \/
   exists placed,
     activeOrderId (state (w_job w')) = Some (po_orderHash placed) /\
     currentPrice (state (w_job w')) = Some amount /\
     if hasStatePort env then
       exists snap ok, saves placed amount snap /\ is_ok r = ok /\
         w_trace w' = w_trace w ++ [EPlace amount true; EPersist snap ok]
     else r = Ok tt /\ w_trace w' = w_trace w ++ [EPlace amount true]).
Proof.
  intros Hdry. unfold performPlaceAndTrack. rewrite Hdry.
  unfold now, updateState, thisJob, logged, call, mmodify, mbind. cbn [w_ext w_job set_job].
  destruct (placeOffer _ amount context (w_ext w)) as [[placed|e] x].
  - unfold verifiedNow, now, mret, mbind, trackRuntimeBidDecision, updateState, mmodify,
      persistRuntimeState.
    destruct (hasStatePort env); cbn [negb].
    + unfold thisJob, mbind, mcatch, logged, call. cbn -[toISOString].
      match goal with |- context [persistJobRuntimeState ?s ?x] =>
        set (snap := s); destruct (persistJobRuntimeState snap x) as [[[]|e] x'] end;
        intros [= <- <-]; (split; [by unfold same_static|]); right; exists placed;
        (split_and!; [done|done|]); eexists snap, _; (split; [done|]);
        (split; [reflexivity|]); cbn; by rewrite <- app_assoc.
    + intros [= <- <-]. split; [by unfold same_static|]. right. exists placed. by split_and!.
  - intros [= <- <-]. split; [by unfold same_static|]. left. by exists e.
Qed.

Lemma place_acts amount decision context :
  acts_as (placeAndTrack (X := X) env amount decision context) (live [EPlace amount true]).
Proof.
  unfold live. destruct (isDryRun env) eqn:Hdry.
  { unfold placeAndTrack, performPlaceAndTrack. rewrite Hdry.
    apply acts_as_quiet; [by walk_effects|].
    repeat (apply total_bind; [auto with artgod|intros ?]). auto with artgod. }
  intros w r w' E. destruct (place_run _ _ _ _ _ _ Hdry E) as (HS & [(e & -> & HT)|
    (placed & _ & _ & HP)]).
  - exists [EPlace amount false]. split_and!; try done.
    by apply (executes_refused [EPlace amount true] [] (EPlace amount true) []).
  - destruct (hasStatePort env).
    + destruct HP as (snap & ok & _ & Hok & HT). exists [EPlace amount true; EPersist snap ok].
      split_and!; try done. unfold market. simpl. destruct r as [[]|e]; [constructor|].
      by apply (executes_unsaved _ [] amount []).
    + destruct HP as [-> HT]. exists [EPlace amount true]. split_and!; try done. constructor.
Qed.

(** ** The refinement *)

Lemma actOnPrice_acts own price decision context (w : World X) r w' :
  actOnPrice env own price decision context w = (r, w') ->
  let renew := match own with
               | o :: _ => dueForRenewal (w_job w) (dateNow (w_ext w)) o
               | [] => false
               end in
  exists T, w_trace w' = w_trace w ++ T /\ same_static w w' /\
    executes (live (planActions (planFor price own renew) own)) r (market T).
Proof.
  intros E renew. unfold actOnPrice in E.
  assert ((match own with o :: _ => getBidRenewalReason env o | [] => mret false end) w
          = (Ok renew, w)) as Er by (destruct own; [done|apply renewal_eq]).
  unfold mbind at 1 in E. rewrite Er in E. clearbody renew. clear Er. revert w r w' E.
  unfold planFor. destruct (price <=? 0).
  { apply acts_as_quiet_bind; [auto with artgod..|intros _].
    destruct own as [|o own].
    - unfold live. simpl. destruct (isDryRun env); apply acts_as_quiet;
        solve [by walk_effects|apply total_bind; intros; auto with artgod].
    - apply acts_as_bind_quiet; [apply cancelMakerOffers_acts|auto with artgod..]. }
  assert (forall k acts, acts_as k (live acts) ->
    acts_as (mbind (placeAndTrack (X := X) env price decision context) (fun _ => k))
      (live (EPlace price true :: acts))) as Hpost.
  { intros k acts Hk. change (EPlace price true :: acts) with ([EPlace price true] ++ acts).
    rewrite live_app. by apply acts_as_bind; [apply place_acts|]. }
  destruct own as [|o own].
  { cbn [List.find]. do 2 (apply acts_as_quiet_bind; [auto with artgod..|intros _]).
    apply place_acts. }
  set (all := o :: own) in *.
  destruct renew.
  - do 2 (apply acts_as_quiet_bind; [auto with artgod..|intros _]).
    destruct (List.find _ all); apply Hpost, (cancelMakerOffers_acts all None).
  - destruct (List.find _ all) as [m|].
    + do 3 (apply acts_as_quiet_bind; [auto with artgod..|intros _]).
      apply (cancelMakerOffers_acts all (Some (ord_id m))).
    + do 2 (apply acts_as_quiet_bind; [auto with artgod..|intros _]).
      apply Hpost, (cancelMakerOffers_acts all None).
Qed.

End Plan.
End StrategyPlan.
