(* ===== verification/StrategyRun.v ===== *)
(** * Runs of the strategy, taken apart

    The decomposition of [executeJob] into reading, pricing and acting, the shape
    of its trace, and the facts about the job's state the claims are read off. *)

From S2P Require Import Prelude JsValue Domain TraitCriteria OfferPrice BiddingService Strategy.
From S2P Require Import StrategyPrice StrategyEffects StrategyPlan.

Open Scope Z_scope.

Module StrategyRun.
Import TraitCriteria Strategy StrategyPrice StrategyEffects StrategyPlan.

(** *** Lists of actions *)

Definition isPlace (e : Effect) : bool := match e with EPlace _ _ => true | _ => false end.

Definition isPlaced (e : Effect) : Prop := match e with EPlace _ true => True | _ => False end.

Lemma executes_prefix acts r T : executes acts r T -> map refused T `prefix_of` map refused acts.
Proof.
  assert (forall e, refused (refused e) = refused e) as Hr by (by intros []).
  intros [|l a rest e ->|l p rest e ->]; [done| |]; rewrite !map_app; simpl.
  - rewrite Hr. exists (map refused rest). by rewrite <- app_assoc.
  - exists (map refused rest). by rewrite <- app_assoc.
Qed.

Lemma executes_In acts r T e : executes acts r T -> In e T -> In (refused e) (map refused acts).
Proof.
  intros E He. destruct (executes_prefix _ _ _ E) as [rest ->].
  apply in_or_app. left. by apply in_map.
Qed.

Lemma executes_places acts r T : executes acts r T ->
  (length (List.filter isPlace T) <= length (List.filter isPlace acts))%nat.
Proof.
  assert (forall l, length (List.filter isPlace (map refused l)) = length (List.filter isPlace l)) as Hr.
  { induction l as [|[] l IH]; simpl; auto. }
  intros E. destruct (executes_prefix _ _ _ E) as [rest Hp].
  rewrite <- (Hr T), <- (Hr acts), Hp, List.filter_app, length_app. lia.
Qed.

Lemma In_market e T : isMarket e = true -> In e T <-> In e (market T).
Proof. intros He. unfold market. rewrite filter_In. intuition. Qed.

Lemma market_places T : List.filter isPlace T = List.filter isPlace (market T).
Proof. induction T as [|[] T IH]; simpl; congruence. Qed.

(** A list splits in one way at the only element with a property. *)
Lemma pivot_unique {A} (P : A -> Prop) (S R A1 A2 : list A) a b :
  Forall (fun x => ~ P x) S -> Forall (fun x => ~ P x) R -> P a ->
  A1 ++ a :: A2 = S ++ b :: R -> A1 = S /\ a = b /\ A2 = R.
Proof.
  intros HS HR Ha. revert A1. induction HS as [|s S Hs HS IH]; intros [|x A1]; simpl; intros E.
  - by injection E as -> ->.
  - injection E as -> <-. exfalso. apply Forall_app in HR as [_ HR].
    inversion HR; subst. done.
  - injection E as -> E. done.
  - injection E as -> E. destruct (IH _ E) as (-> & -> & ->). done.
Qed.

Section Run.
Context {X : Type} `{BiddingService X} `{RuntimeStatePort X}.
Context (localeCompare : keyItem -> keyItem -> Z) (env : BidderEnv).

(** ** Reading, pricing, acting *)

(** The override that still holds. *)
Definition liveOverride (w : World X) : option RuntimeJobOverride :=
  match w_override w with
  | Some override => if ro_expiresAt override <=? dateNow (w_ext w) then None else Some override
  | None => None
  end.

(** The world once an expired override is dropped. *)
Definition expireOverride (w : World X) : World X :=
  match w_override w, liveOverride w with
  | Some _, None => set_override None w
  | _, _ => w
  end.

Lemma getRuntimeOverride_eq w : getRuntimeOverride w = (Ok (liveOverride w), expireOverride w).
Proof.
  unfold getRuntimeOverride, expireOverride, liveOverride. destruct (w_override w) as [o|]; [|done].
  by destruct (ro_expiresAt o <=? dateNow (w_ext w)).
Qed.

Lemma expireOverride_frame w : w_job (expireOverride w) = w_job w /\
  w_trace (expireOverride w) = w_trace w /\ w_balance (expireOverride w) = w_balance w /\
  w_scheduled (expireOverride w) = w_scheduled w /\ w_ext (expireOverride w) = w_ext w.
Proof. unfold expireOverride. by repeat case_match. Qed.

(** The job's own offers among those read, and the best price of the others. *)
Definition ownOffers (job : BidderJob) (offers : list Order) : list Order :=
  List.filter (fun o => isMakerOffer env o && isOfferManagedByJob localeCompare job o) offers.

Definition bestRival (offers : list Order) : Z :=
  match List.filter (fun o => negb (isMakerOffer env o)) offers with
  | o :: _ => ord_price o
  | [] => 0
  end.

Definition floorInForce (w : World X) : Z :=
  match liveOverride w with Some r => ro_floor r | None => floor (config (w_job w)) end.

Definition ceilingInForce (w : World X) : Z :=
  match liveOverride w with Some r => ro_ceiling r | None => ceiling (config (w_job w)) end.

Lemma strategyBody_inv context w r w' :
  strategyBody localeCompare env context w = (r, w') ->
  (exists e, readOffers env context (expireOverride w) = (Err e, w') /\ r = Err e) \/
  exists offers w2, readOffers env context (expireOverride w) = (Ok offers, w2) /\
    match decidePrice (X := X) (w_job w2) (liveOverride w) (w_balance w2) (bestRival offers) with
    | Err e => w' = w2 /\ r = Err e
    | Ok (price, decision) =>
        actOnPrice env (ownOffers (w_job w2) offers) price decision context w2 = (r, w')
    end.
Proof.
  unfold strategyBody. intros E. unfold mbind at 1 in E. rewrite getRuntimeOverride_eq in E.
  apply bind_inv in E as [(offers & w2 & E1 & E)|(e & E & ->)]; [right|by left; eauto].
  exists offers, w2. split; [done|]. unfold mbind at 1, thisJob at 1 in E.
  cbv zeta in E. fold (ownOffers (w_job w2) offers) (bestRival offers) in E.
  unfold mbind at 1, ofResult at 1 in E.
  destruct (decidePrice _ _ _ _) as [[price decision]|e]; [done|]. by injection E as <- <-.
Qed.

Lemma executeJob_inv options w r w' :
  w_scheduled w = true -> executeJob localeCompare env options w = (r, w') ->
  exists r0 w1 T, strategyBody localeCompare env (requestContext options) w = (r0, w1) /\
    r = (if throwOnFailure options then r0 else Ok tt) /\
    w_trace w' = w_trace w1 ++ T /\ Forall silent T /\ w_job w' = w_job w1.
Proof.
  unfold executeJob. intros ->. cbn [negb]. unfold mcatch.
  destruct (strategyBody _ _ _ w) as [[[]|e] w1] eqn:E.
  - intros [= <- <-]. exists (Ok tt), w1, []. rewrite app_nil_r.
    split_and!; try done. by destruct (throwOnFailure options).
  - intros Eh. exists (Err e), w1.
    set (m := fun w => if w_scheduled w then persistRuntimeState env (Some e) false w
                       else (Ok tt, w)) in Eh.
    assert (exists w2 T, m w1 = (Ok tt, w2) /\ w_trace w2 = w_trace w1 ++ T /\ Forall silent T /\
              w_job w2 = w_job w1) as (w2 & T & E1 & HT & HS & HJ).
    { unfold m. destruct (w_scheduled w1); [|exists w1, []; by rewrite app_nil_r].
      destruct (persist_total env (Some e) w1) as ([] & w2 & E2).
      destruct (persist_silent env (Some e) false _ _ _ E2) as (T & HT & HS & _).
      exists w2, T. split_and!; try done. revert E2. unfold persistRuntimeState.
      destruct (hasStatePort env); cbn [negb]; [|by intros [= <-]].
      unfold mbind, thisJob, mcatch, logged, call. destruct (persistJobRuntimeState _ _) as [[[]|?] x];
        by intros [= <-]. }
    unfold mbind in Eh. rewrite E1 in Eh. exists T.
    destruct (throwOnFailure options); injection Eh as <- <-; by split_and!.
Qed.

(** ** Saved before anything is cancelled *)

Definition notPlaced (e : Effect) : Prop := ~ isPlaced e.

(** At most one offer is placed, and the first thing after it is its save;
    nothing is cancelled when that fails. *)
Definition safeReplacement (T : list Effect) : Prop :=
  Forall notPlaced T \/
  exists S p snap ok C, T = S ++ EPlace p true :: EPersist snap ok :: C /\
    Forall notPlaced S /\ Forall notPlaced C /\ (ok = false -> Forall silent C) /\
    exists placed, saves placed p snap.

Lemma silent_notPlaced1 e : silent e -> notPlaced e.
Proof. unfold notPlaced. destruct e as [|? []| | |]; simpl; tauto. Qed.

Lemma effects_notPlaced {A} (m : M (World X) A) : effects silent m -> effects notPlaced m.
Proof. apply effects_weaken, silent_notPlaced1. Qed.

Lemma silent_notPlaced T : Forall silent T -> Forall notPlaced T.
Proof. intros HT. eapply Forall_impl; [done|apply silent_notPlaced1]. Qed.

Lemma safe_app_l S T : Forall silent S -> safeReplacement T -> safeReplacement (S ++ T).
Proof.
  intros HS%silent_notPlaced [HT|(S' & p & snap & ok & C & -> & H1 & H2)].
  - left. by apply Forall_app.
  - right. exists (S ++ S'), p, snap, ok, C. rewrite <- app_assoc. split_and!; [done| |apply H2..].
    by apply Forall_app.
Qed.

Lemma safe_app_r S T : Forall silent S -> safeReplacement T -> safeReplacement (T ++ S).
Proof.
  intros HS [HT|(S' & p & snap & ok & C & -> & H1 & H2 & H3 & H4)].
  - left. apply Forall_app. split; [done|by apply silent_notPlaced].
  - right. exists S', p, snap, ok, (C ++ S). rewrite <- app_assoc. split_and!; try done.
    + apply Forall_app. split; [done|by apply silent_notPlaced].
    + intros Hok. apply Forall_app. auto.
Qed.

Lemma cancelMakerOffers_notPlaced l keep context :
  effects notPlaced (cancelMakerOffers (X := X) env l keep context).
Proof.
  induction l as [|o l IH]; cbn [cancelMakerOffers]; [auto with artgod|].
  apply effects_bind; [|done]. destruct (match keep with Some _ => _ | None => _ end);
    [auto with artgod|]. unfold cancelAndTrack, performCancelAndTrack.
  destruct (isDryRun env); [auto with artgod|].
  repeat first [ solve [apply effects_notPlaced; auto with artgod] | apply effects_logged; [by intros []|by intros []]
    | apply effects_bind; [|intros ?] | apply effects_catch; [|intros ?] | solve [auto with artgod] ].
Qed.

Lemma post_safe amount decision own context (w : World X) r w' :
  hasStatePort env = true -> isDryRun env = false ->
  mbind (placeAndTrack env amount decision context)
    (fun _ => cancelMakerOffers env own None context) w = (r, w') ->
  exists T, w_trace w' = w_trace w ++ T /\ safeReplacement T.
Proof.
  intros Hport Hdry [([] & w1 & E1 & E2)|(e & E1 & ->)]%bind_inv;
    destruct (place_run _ _ _ _ _ _ _ Hdry E1) as (_ & [(e' & ? & HT)|(placed & _ & _ & HP)]);
    try done; rewrite ?Hport in *.
  - destruct HP as (snap & ok & Hs & Hok & HT).
    destruct (cancelMakerOffers_notPlaced _ _ _ _ _ _ E2) as (C & HC & HnC & _).
    exists ([EPlace amount true; EPersist snap ok] ++ C). rewrite HC, HT, app_assoc.
    split; [done|]. right. exists [], amount, snap, ok, C. split_and!; try done; [|by exists placed].
    simpl in Hok. by intros ->.
  - exists [EPlace amount false]. split; [done|]. left. repeat constructor. by intros [].
  - destruct HP as (snap & ok & Hs & Hok & HT).
    exists [EPlace amount true; EPersist snap ok]. split; [done|]. right.
    exists [], amount, snap, ok, []. split_and!; try done. by exists placed.
Qed.

(** Prefixes a run with a silent step. *)
Lemma safe_silent_bind {A B} (m : M (World X) A) (k : A -> M (World X) B) :
  effects silent m ->
  (forall a w r w', k a w = (r, w') -> exists T, w_trace w' = w_trace w ++ T /\ safeReplacement T) ->
  forall w r w', mbind m k w = (r, w') ->
  exists T, w_trace w' = w_trace w ++ T /\ safeReplacement T.
Proof.
  intros Hm Hk w r w' [(a & w1 & E1 & E2)|(e & E1 & ->)]%bind_inv;
    destruct (Hm _ _ _ E1) as (S & HS & HSs & _).
  - destruct (Hk _ _ _ _ E2) as (T & HT & HTs). exists (S ++ T).
    rewrite HT, HS, app_assoc. split; [done|]. by apply safe_app_l.
  - exists S. split; [done|]. left. by apply silent_notPlaced.
Qed.

Lemma safe_notPlaced {A} (m : M (World X) A) : effects notPlaced m ->
  forall w r w', m w = (r, w') -> exists T, w_trace w' = w_trace w ++ T /\ safeReplacement T.
Proof. intros Hm w r w' E. destruct (Hm _ _ _ E) as (T & HT & HP & _). exists T. by split; [|left]. Qed.

Lemma actOnPrice_safe own price decision context (w : World X) r w' :
  hasStatePort env = true -> isDryRun env = false ->
  actOnPrice env own price decision context w = (r, w') ->
  exists T, w_trace w' = w_trace w ++ T /\ safeReplacement T.
Proof.
  intros Hport Hdry. unfold actOnPrice. revert w r w'.
  assert (effects silent (match own with o :: _ => getBidRenewalReason (X := X) env o
                          | [] => mret false end)) as Hr by (destruct own; auto with artgod).
  apply safe_silent_bind; [done|intros renew].
  destruct (price <=? 0); [|destruct own as [|o own]; [|destruct renew]].
  - apply safe_notPlaced. apply effects_bind; [apply effects_notPlaced; auto with artgod|intros _].
    destruct own; (apply effects_bind; [|intros _]);
      first [apply cancelMakerOffers_notPlaced | apply effects_notPlaced; auto with artgod].
  - do 2 (apply safe_silent_bind; [auto with artgod|intros _]). intros w r w' E.
    apply (post_safe price decision [] context w r w' Hport Hdry). unfold mbind, placeAndTrack in *.
    rewrite E. cbn. destruct r as [[]|e]; done.
  - do 2 (apply safe_silent_bind; [auto with artgod|intros _]). intros w r w'. by apply post_safe.
  - destruct (List.find _ _) as [m|].
    + do 3 (apply safe_silent_bind; [auto with artgod|intros _]).
      apply safe_notPlaced, cancelMakerOffers_notPlaced.
    + do 2 (apply safe_silent_bind; [auto with artgod|intros _]). intros w r w'. by apply post_safe.
Qed.

End Run.
End StrategyRun.
