(* ===== verification/StrategyClaims.v ===== *)
(** * What the bidding strategy guarantees

    The claims about one refresh of a job ([executeJob]) and about withdrawing a
    job's offers ([cancelActiveOffersForJob]), for any marketplace, database and
    clock behind the interface; prices assume only the rounding promise of
    [PriceGrid].  The runs at the end use OpenSea's rounding and a small market. *)

From S2P Require Import Prelude JsValue Domain TraitCriteria OfferPrice BiddingService Strategy.
From S2P Require Import StrategyPrice StrategyEffects StrategyPlan StrategyRun.

Open Scope Z_scope.

Module StrategyClaims.
Import TraitCriteria Strategy StrategyPrice StrategyEffects StrategyPlan StrategyRun.

Section Claims.
Context {X : Type} `{BiddingService X} `{RuntimeStatePort X}.
Context (localeCompare : keyItem -> keyItem -> Z) (env : BidderEnv).

(** ** State of the job *)

(** [m] changes nothing of what [f] shows of the job. *)
Definition keeps {Y A} (f : BidderJob -> Y) (m : M (World X) A) : Prop :=
  forall w r w', m w = (r, w') -> f (w_job w') = f (w_job w).

Lemma keeps_bind {Y A B} (f : BidderJob -> Y) (m : M (World X) A) (k : A -> M (World X) B) :
  keeps f m -> (forall a, keeps f (k a)) -> keeps f (mbind m k).
Proof.
  intros Hm Hk w r w' [(a & w1 & E1 & E2)|(e & E & _)]%bind_inv; [|by eapply Hm].
  rewrite (Hk _ _ _ _ E2). by eapply Hm.
Qed.

Lemma keeps_catch {Y A} (f : BidderJob -> Y) (m : M (World X) A) h :
  keeps f m -> (forall e, keeps f (h e)) -> keeps f (mcatch m h).
Proof.
  intros Hm Hh w r w'. unfold mcatch. destruct (m w) as [[a|e] w1] eqn:E.
  - intros [= <- <-]. by eapply Hm.
  - intros E2. rewrite (Hh _ _ _ _ E2). by eapply Hm.
Qed.

Lemma keeps_ret {Y A} (f : BidderJob -> Y) (a : A) : keeps f (mret a).
Proof. by intros w r w' [= <- <-]. Qed.

Lemma keeps_throw {Y A} (f : BidderJob -> Y) e : keeps f (mthrow (A := A) e).
Proof. by intros w r w' [= <- <-]. Qed.

Lemma keeps_thisJob {Y} (f : BidderJob -> Y) : keeps f thisJob.
Proof. by intros w r w' [= <- <-]. Qed.

Lemma keeps_now {Y} (f : BidderJob -> Y) : keeps f now.
Proof. by intros w r w' [= <- <-]. Qed.

Lemma keeps_emit {Y} (f : BidderJob -> Y) e : keeps f (emit e).
Proof. by intros w r w' [= <- <-]. Qed.

Lemma keeps_call {Y A} (f : BidderJob -> Y) (m : M X A) : keeps f (call m).
Proof. intros w r w'. unfold call. destruct (m (w_ext w)). by intros [= <- <-]. Qed.

Lemma keeps_logged {Y A} (f : BidderJob -> Y) g (m : M X A) : keeps f (logged g m).
Proof. intros w r w'. unfold logged, call. destruct (m (w_ext w)). by intros [= <- <-]. Qed.

Lemma keeps_updateState {Y} (f : BidderJob -> Y) g :
  (forall j, f (set_state j (g (state j))) = f j) -> keeps f (updateState g).
Proof. intros Hf w r w' [= <- <-]. apply Hf. Qed.

Hint Resolve keeps_ret keeps_throw keeps_thisJob keeps_now keeps_emit keeps_call keeps_logged : artgod.

Ltac walk_keeps :=
  repeat first
    [ solve [auto with artgod]
    | progress cbv zeta
    | apply keeps_bind; [|intros ?]
    | apply keeps_catch; [|intros ?]
    | match goal with |- keeps _ (match ?x with _ => _ end) => destruct x end ].

Lemma persist_keeps {Y} (f : BidderJob -> Y) e b : keeps f (persistRuntimeState env e b).
Proof. unfold persistRuntimeState. by walk_keeps. Qed.

Lemma recordCancellation_keeps {Y} (f : BidderJob -> Y) order a b c :
  keeps f (recordCancellation env order a b c).
Proof. unfold recordCancellation. by walk_keeps. Qed.

Lemma recordTracked_keeps {Y} (f : BidderJob -> Y) a b c :
  keeps f (recordTrackedOrderCancellation env a b c).
Proof. unfold recordTrackedOrderCancellation. by walk_keeps. Qed.

Hint Resolve persist_keeps recordCancellation_keeps recordTracked_keeps : artgod.

Lemma cancelMakerOffers_keeps {Y} (f : BidderJob -> Y) l keep context :
  keeps f (cancelMakerOffers env l keep context).
Proof.
  induction l as [|o l IH]; cbn [cancelMakerOffers]; [by walk_keeps|].
  unfold cancelAndTrack, performCancelAndTrack. by walk_keeps.
Qed.

Hint Resolve cancelMakerOffers_keeps : artgod.

Definition trackedId (j : BidderJob) : option string := activeOrderId (state j).

(** Looking the tracked order up without clearing keeps it tracked. *)
Lemma resolveTracked_keeps_id offers context :
  keeps trackedId (resolveTrackedActiveOrder env offers false context).
Proof.
  assert (forall v, keeps trackedId (updateState (st_protocol v))) as Hp
    by (intros v; by apply keeps_updateState).
  unfold resolveTrackedActiveOrder. by walk_keeps.
Qed.

Lemma clearTrackedOrder_state w r w' : clearTrackedOrder env w = (r, w') ->
  activeOrderId (state (w_job w')) = None /\ currentPrice (state (w_job w')) = None.
Proof.
  unfold clearTrackedOrder, clearRuntimeBidDecision. unfold mbind at 1, updateState at 1.
  unfold mmodify at 1. unfold mbind at 1, updateState at 1, mmodify at 1.
  intros E. rewrite (persist_keeps (fun j => j) _ _ _ _ _ E). done.
Qed.

Lemma trackCurrentOrder_state order w r w' : trackCurrentOrder env order w = (r, w') ->
  activeOrderId (state (w_job w')) = Some (ord_id order).
Proof.
  unfold trackCurrentOrder. unfold mbind at 1, thisJob at 1. cbv zeta.
  unfold mbind at 1, verifiedNow at 1. unfold mbind at 1, now at 1, mret at 1.
  unfold mbind at 1, updateState at 1, mmodify at 1.
  intros E. rewrite (persist_keeps (fun j => j) _ _ _ _ _ E). done.
Qed.

(** A read that fails leaves the job as it was. *)
Lemma readOffers_failed context w e w' : readOffers env context w = (Err e, w') ->
  w_job w' = w_job w.
Proof.
  unfold readOffers. unfold mbind at 1, thisJob at 1.
  intros [(offers & w1 & E1 & E)|(e1 & E & _)]%bind_inv; [|by eapply (keeps_call (fun j => j))].
  pose proof (keeps_call (fun j => j) _ _ _ _ E1) as <-.
  apply bind_inv in E as [(tracked & w2 & _ & E)|(e1 & E & _)]; [done|].
  unfold resolveTrackedActiveOrder in E. unfold mbind at 1, thisJob at 1 in E.
  destruct (activeOrderId (state (w_job w1))) as [id|]; [|done].
  destruct (negb (truthy id)); [done|]. cbv zeta in E.
  destruct (List.find (sameId id) offers) as [o|].
  { exfalso. unfold mbind in E. by destruct (negb (otruthy _) && _). }
  apply bind_inv in E as [(recovered & w3 & E3 & E)|(e1' & E & _)]; [|by eapply (keeps_call (fun j => j))].
  rewrite <- (keeps_call (fun j => j) _ _ _ _ E3). destruct recovered as [o| |reason].
  - exfalso. unfold mbind in E. by destruct (negb (otruthy _) && _).
  - exfalso. unfold mbind in E. destruct (clearTrackedOrder_total env w3) as ([] & w4 & E4).
    by rewrite E4 in E.
  - by injection E as _ <-.
Qed.

(** When the recovery of the tracked order is inconclusive the read fails. *)
Lemma readOffers_inconclusive context w offers x1 id tokenId reason x2 :
  getActiveOffers (w_job w) context (w_ext w) = (Ok offers, x1) ->
  activeOrderId (state (w_job w)) = Some id -> truthy id = true ->
  List.find (sameId id) offers = None ->
  tokenId = (match target (w_job w) with TokenTarget t => Some t | _ => None end) ->
  getOrder id (activeProtocolAddress (state (w_job w))) (collectionAddress (w_job w)) tokenId
    (collectionSlug (w_job w)) context x1 = (Ok (RecoveryInconclusive reason), x2) ->
  exists e w', readOffers env context w = (Err e, w').
Proof.
  intros E1 Hid Ht Hf -> E2. unfold readOffers. unfold mbind at 1, thisJob at 1.
  unfold mbind at 1, call at 1. rewrite E1. unfold mbind at 1, resolveTrackedActiveOrder.
  unfold mbind at 1, thisJob at 1. cbn [w_job set_ext]. rewrite Hid, Ht. cbn [negb]. cbv zeta.
  rewrite Hf. unfold mbind at 1, call. cbn [w_ext set_ext]. rewrite E2. by eexists _, _.
Qed.

Lemma safe_saved T A price B order ok C : safeReplacement T ->
  T = A ++ EPlace price true :: B ++ ECancel order ok :: C ->
  exists snap placed, In (EPersist snap true) B /\ saves placed price snap.
Proof.
  intros [HT|(S & p & snap & sok & D & -> & HS & HD & Hok & placed & Hs)] E.
  - subst T. apply Forall_app in HT as [_ HT]. inversion HT as [|? ? Hn]; subst. by destruct Hn.
  - apply eq_sym, (pivot_unique isPlaced) in E as (_ & [= <-] & ED); [|done| |done].
    2:{ constructor; [by intros []|done]. }
    destruct B as [|e B]; simpl in ED; [done|]. injection ED as -> <-.
    exists snap, placed. split; [|done]. left. destruct sok; [done|].
    exfalso. specialize (Hok eq_refl). apply Forall_app in Hok as [_ Hok]. by inversion Hok.
Qed.

Lemma post_tracks amount decision own context w w' : isDryRun env = false ->
  mbind (placeAndTrack env amount decision context)
    (fun _ => cancelMakerOffers env own None context) w = (Ok tt, w') ->
  tracks (Post amount) (state (w_job w')).
Proof.
  intros Hdry [([] & w1 & E1 & E2)|(e & _ & ?)]%bind_inv; [|done].
  rewrite (cancelMakerOffers_keeps (fun j => j) _ _ _ _ _ _ E2).
  destruct (place_run _ _ _ _ _ _ _ Hdry E1) as (_ & [(e & ? & _)|(placed & Hid & Hp & _)]); [done|].
  split; [by eexists|done].
Qed.

Lemma actOnPrice_tracks own price decision context w w' : isDryRun env = false ->
  actOnPrice env own price decision context w = (Ok tt, w') ->
  let renew := match own with
               | o :: _ => dueForRenewal env (w_job w) (dateNow (w_ext w)) o
               | [] => false
               end in
  own = [] /\ planFor price own renew = Withdraw \/
  tracks (planFor price own renew) (state (w_job w')).
Proof.
  intros Hdry E renew. unfold actOnPrice in E.
  assert ((match own with o :: _ => getBidRenewalReason env o | [] => mret false end) w
          = (Ok renew, w)) as Er by (destruct own; [done|apply renewal_eq]).
  unfold mbind at 1 in E. rewrite Er in E. clearbody renew. clear Er. unfold planFor.
  destruct (price <=? 0).
  { apply bind_inv in E as [([] & w1 & _ & E)|(? & _ & ?)]; [|done].
    destruct own as [|o own]; [by left|]. right.
    apply bind_inv in E as [([] & w2 & _ & E)|(? & _ & ?)]; [|done].
    by eapply clearTrackedOrder_state. }
  right. destruct own as [|o own].
  { do 2 (apply bind_inv in E as [([] & ? & _ & E)|(? & _ & ?)]; [|done]).
    eapply (post_tracks price decision [] context _ w' Hdry). unfold mbind. by rewrite E. }
  set (all := o :: own) in *. destruct renew.
  - do 2 (apply bind_inv in E as [([] & ? & _ & E)|(? & _ & ?)]; [|done]).
    destruct (List.find _ all); by eapply post_tracks.
  - destruct (List.find _ all) as [m|].
    + do 2 (apply bind_inv in E as [([] & ? & _ & E)|(? & _ & ?)]; [|done]).
      apply bind_inv in E as [([] & w3 & Et & E)|(? & _ & ?)]; [|done].
      simpl. rewrite (cancelMakerOffers_keeps (fun j => j) _ _ _ _ _ _ E).
      by eapply trackCurrentOrder_state.
    + do 2 (apply bind_inv in E as [([] & ? & _ & E)|(? & _ & ?)]; [|done]).
      by eapply post_tracks.
Qed.

(** ** The claims *)

Context (valid : Z -> Prop) `{!PriceGrid (roundOfferPriceDown (X := X)) (roundOfferPriceUp (X := X)) valid}.

(** Floor, ceiling and balance are amounts. *)
Definition sound_settings (w : World X) : Prop :=
  0 <= floorInForce w /\ 0 <= ceilingInForce w /\ forall b, w_balance w = Some b -> 0 <= b.

(** The price the job bids against a rival. *)
Definition bids (w : World X) (rival price : Z) : Prop :=
  valid price /\
  is_bid_price valid (w_balance w) (floorInForce w) (ceilingInForce w) rival
    (delta (config (w_job w))) price.

Lemma config_static (w w' : World X) : same_static w w' -> config (w_job w') = config (w_job w).
Proof. intros (E & _ & _). by apply (f_equal config) in E. Qed.

Lemma expire_static (w : World X) : same_static w (expireOverride w).
Proof.
  unfold same_static. by destruct (expireOverride_frame w) as (-> & _ & -> & -> & _).
Qed.

(** What a refresh does, once the override in force is settled. *)
Lemma body_cases w context r w' : sound_settings w ->
  strategyBody localeCompare env context w = (r, w') ->
  (exists e T, readOffers env context (expireOverride w) = (Err e, w') /\ r = Err e /\
     w_trace w' = w_trace w ++ T /\ Forall silent T) \/
  exists offers w2 S price decision, readOffers env context (expireOverride w) = (Ok offers, w2) /\
    w_trace w2 = w_trace w ++ S /\ Forall silent S /\ bids w (bestRival env offers) price /\
    actOnPrice env (ownOffers localeCompare env (w_job w2) offers) price decision context w2 = (r, w').
Proof.
  intros (Hf & Hc & Hb) [(e & E & ->)|(offers & w2 & E & Hd)]%strategyBody_inv;
    destruct (readOffers_silent env context _ _ _ E) as (S & HS & HSs & HSt);
    destruct (expireOverride_frame w) as (EJ & ET & EB & _); rewrite ET in HS.
  - left. by exists e, S.
  - right. pose proof (config_static _ _ HSt) as Hcfg. rewrite EJ in Hcfg.
    destruct HSt as (_ & _ & Hbal). rewrite EB in Hbal.
    destruct (decidePrice_total valid (w_job w2) (liveOverride w) (w_balance w2)
      (bestRival env offers)) as (p & d & Ed & _ & _ & Hv & Hp);
      rewrite ?Hcfg, ?Hbal; try done.
    rewrite Ed in Hd. exists offers, w2, S, p, d. split_and!; try done. split; [done|].
    by rewrite Hcfg, Hbal in Hp.
Qed.

(** The plan places at most one offer, at the price. *)
Lemma plan_places price own renew :
  let acts := live env (planActions (planFor price own renew) own) in
  (length (List.filter isPlace acts) <= 1)%nat /\
  forall q, In (EPlace q false) (map refused acts) -> q = price /\ 0 < price.
Proof.
  assert (forall l, List.filter isPlace (cancels l) = []) as Hf by (induction l; simpl; auto).
  assert (forall l q, ~ In (EPlace q false) (map refused (cancels l))) as Hi.
  { intros l q. induction l as [|o l IH]; simpl; [tauto|]. intros [?|?]; [done|tauto]. }
  intros acts. unfold acts, live. destruct (isDryRun env); [by simpl; split; [lia|]|].
  unfold planFor. destruct (Z.leb_spec price 0); simpl.
  { rewrite Hf. simpl. split; [lia|]. by intros q ?%Hi. }
  assert (forall q, In (EPlace q false) (map refused (planActions (Post price) own)) ->
    q = price /\ 0 < price) as Hpost.
  { intros q [[= <-]|?%Hi]; [done|done]. }
  destruct (List.find _ own) as [o|]; [destruct renew|]; simpl; rewrite ?Hf; simpl;
    (split; [lia|]); try apply Hpost. by intros q ?%Hi.
Qed.

(** A positive bid is within the ceiling and the balance. *)
Lemma bids_within w rival price : sound_settings w -> bids w rival price -> 0 < price ->
  valid price /\ price <= ceilingInForce w /\
  forall balance, w_balance w = Some balance -> price <= balance.
Proof.
  intros _ [Hv [Hok Hno]] Hpos. split; [done|].
  assert (price <= spendable (w_balance w) (ceilingInForce w)) as Hs.
  { destruct (affordable_dec (w_balance w) (floorInForce w)) as [Ha|Ha]; [|apply (Hno Ha)].
    destruct (Hok Ha) as [Hin Hout]. destruct (Z.le_gt_cases price (spendable (w_balance w) (ceilingInForce w))); [done|].
    assert (price = 0); [|lia]. apply Hout. intros Hex. destruct (Hin Hex). lia. }
  unfold spendable in Hs. destruct (w_balance w) as [b|]; [|by split].
  split; [lia|]. intros balance [= <-]. lia.
Qed.

(** C25: One refresh carries out one plan.  Whatever the services do, a refresh
    either fails while reading the market and takes no market action, or it works
    out the price to bid and takes exactly the actions of the plan for that price
    and the job's own offers (withdraw them; hold the one at the price and cancel
    the others; or post the new offer, then cancel the old ones), in that order,
    up to the first refused action or unsaved placement.  A dry run takes none. *)
Theorem refresh_follows_plan options w r w' (Hscheduled : w_scheduled w = true)
    (Hsound : sound_settings w) (Hrun : executeJob localeCompare env options w = (r, w')) :
  exists T r0, w_trace w' = w_trace w ++ T /\ r = (if throwOnFailure options then r0 else Ok tt) /\
    ((exists e w2, readOffers env (requestContext options) (expireOverride w) = (Err e, w2) /\
        r0 = Err e /\ market T = []) \/
     exists offers w2 price, readOffers env (requestContext options) (expireOverride w) = (Ok offers, w2) /\
       bids w (bestRival env offers) price /\
       let own := ownOffers localeCompare env (w_job w2) offers in
       let renew := match own with
                    | o :: _ => dueForRenewal env (w_job w2) (dateNow (w_ext w2)) o
                    | [] => false
                    end in
       executes (live env (planActions (planFor price own renew) own)) r0 (market T)).
Proof.
  destruct (executeJob_inv _ _ _ _ _ _ Hscheduled Hrun) as (r0 & w1 & T1 & E & -> & HT & HS & _).
  destruct (body_cases _ _ _ _ Hsound E) as [(e & T & Er & -> & HT2 & HS2)|
    (offers & w2 & S & price & decision & Er & HT2 & HS2 & Hp & Ea)].
  - exists (T ++ T1), (Err e). rewrite HT, HT2, app_assoc. split_and!; try done.
    left. exists e, w1. split_and!; try done. by rewrite market_app, !market_silent.
  - destruct (actOnPrice_acts _ _ _ _ _ _ _ _ Ea) as (T & HT3 & _ & HX).
    exists (S ++ T ++ T1), r0. rewrite HT, HT3, HT2, <- !app_assoc. split_and!; try done.
    right. exists offers, w2, price. split_and!; try done.
    by rewrite !market_app, (market_silent S), (market_silent T1), app_nil_r.
Qed.

(** C1: The bot never overbids.  In any refresh, however the services behave,
    at most one offer is attempted, at a positive price the marketplace accepts,
    not above the ceiling in force and not above the known balance. *)
Theorem never_overbids options w r w' (Hsound : sound_settings w)
    (Hrun : executeJob localeCompare env options w = (r, w')) :
  exists T, w_trace w' = w_trace w ++ T /\ (length (List.filter isPlace T) <= 1)%nat /\
    forall price ok, In (EPlace price ok) T ->
      0 < price /\ valid price /\ price <= ceilingInForce w /\
      forall balance, w_balance w = Some balance -> price <= balance.
Proof.
  destruct (w_scheduled w) eqn:Hs.
  2:{ unfold executeJob in Hrun. rewrite Hs in Hrun. injection Hrun as <- <-. exists [].
      rewrite app_nil_r. split_and!; [done|simpl; lia|done]. }
  destruct (executeJob_inv _ _ _ _ _ _ Hs Hrun) as (r0 & w1 & T1 & E & _ & HT & HS & _).
  destruct (body_cases _ _ _ _ Hsound E) as [(e & T & Er & -> & HT2 & HS2)|
    (offers & w2 & S & price & decision & Er & HT2 & HS2 & Hp & Ea)].
  - exists (T ++ T1). rewrite HT, HT2, app_assoc.
    assert (market (T ++ T1) = []) as Hm by by rewrite market_app, !market_silent.
    rewrite market_places, Hm. split_and!; [done|simpl; lia|]. intros price ok Hin.
    apply In_market in Hin; [|done]. by rewrite Hm in Hin.
  - destruct (actOnPrice_acts _ _ _ _ _ _ _ _ Ea) as (T & HT3 & _ & HX).
    exists (S ++ T ++ T1). rewrite HT, HT3, HT2, <- !app_assoc.
    assert (market (S ++ T ++ T1) = market T) as Hm
      by by rewrite !market_app, (market_silent S), (market_silent T1), app_nil_r.
    cbv zeta in HX. set (own := ownOffers _ _ _ _) in *. set (renew := match own with [] => _ | _ => _ end) in *.
    destruct (plan_places price own renew) as [Hlen Hin].
    split_and!; [done| |].
    + rewrite market_places, Hm. etransitivity; [apply (executes_places _ _ _ HX)|done].
    + intros q ok Hq. apply In_market in Hq; [|done]. rewrite Hm in Hq.
      apply (executes_In _ _ _ _ HX), Hin in Hq as [-> Hpos]. split; [done|].
      by apply (bids_within _ _ _ Hsound Hp).
Qed.
(** C27: A replacement is saved before anything is cancelled.  With a state port,
    whenever an order is cancelled after a new offer was placed in the same
    refresh, the save of the new offer's id, protocol address and price succeeded
    in between: a crash never leaves an unrecorded offer with the old one gone. *)
Theorem replacement_saved_first options w r w' (Hscheduled : w_scheduled w = true)
    (Hsound : sound_settings w) (Hport : hasStatePort env = true) (Hdry : isDryRun env = false)
    (Hrun : executeJob localeCompare env options w = (r, w')) :
  exists T, w_trace w' = w_trace w ++ T /\
    forall A price B order ok C, T = A ++ EPlace price true :: B ++ ECancel order ok :: C ->
    exists snap placed, In (EPersist snap true) B /\ saves placed price snap.
Proof.
  destruct (executeJob_inv _ _ _ _ _ _ Hscheduled Hrun) as (r0 & w1 & T1 & E & _ & HT & HS & _).
  assert (exists T, w_trace w' = w_trace w ++ T /\ safeReplacement T) as (T & HT' & Hsafe).
  { destruct (body_cases _ _ _ _ Hsound E) as [(e & T & Er & -> & HT2 & HS2)|
      (offers & w2 & S & price & decision & Er & HT2 & HS2 & Hp & Ea)].
    - exists (T ++ T1). rewrite HT, HT2, app_assoc. split; [done|].
      left. apply silent_notPlaced. by apply Forall_app.
    - destruct (actOnPrice_safe _ _ _ _ _ _ _ _ Hport Hdry Ea) as (T & HT3 & HTs).
      exists (S ++ T ++ T1). rewrite HT, HT3, HT2, <- !app_assoc. split; [done|].
      apply safe_app_l; [done|]. by apply safe_app_r. }
  exists T. split; [done|]. intros A price B order ok C Esplit.
  eapply safe_saved; [done|done].
Qed.

(** The job remembers what it has on the market.  After a refresh that ends
    without error the tracked order is the one the plan leaves: the offer just
    placed, with its price; the offer held; or none, when the offers were
    withdrawn. *)
Theorem refresh_tracks_plan options w w' (Hscheduled : w_scheduled w = true)
    (Hsound : sound_settings w) (Hdry : isDryRun env = false) (Hthrow : throwOnFailure options = true)
    (Hrun : executeJob localeCompare env options w = (Ok tt, w')) :
  exists offers w2 price, readOffers env (requestContext options) (expireOverride w) = (Ok offers, w2) /\
    bids w (bestRival env offers) price /\
    let own := ownOffers localeCompare env (w_job w2) offers in
    let renew := match own with
                 | o :: _ => dueForRenewal env (w_job w2) (dateNow (w_ext w2)) o
                 | [] => false
                 end in
    own = [] /\ planFor price own renew = Withdraw \/
    tracks (planFor price own renew) (state (w_job w')).
Proof.
  destruct (executeJob_inv _ _ _ _ _ _ Hscheduled Hrun) as (r0 & w1 & T1 & E & Hr & _ & _ & ->).
  rewrite Hthrow in Hr. subst r0.
  destruct (body_cases _ _ _ _ Hsound E) as [(e & T & Er & He & _)|
    (offers & w2 & S & price & decision & Er & _ & _ & Hp & Ea)]; [done|].
  exists offers, w2, price. split_and!; [done..|]. by apply (actOnPrice_tracks _ _ _ _ _ _ Hdry Ea).
Qed.

(** Without proof of the tracked order's status nothing is touched.  When the
    tracked order is not among the offers read and its lookup is inconclusive, the
    refresh fails: no offer is placed or cancelled and the job keeps tracking it. *)
Theorem unproved_status_blocks_market options w r w' offers x1 id reason x2
    (Hscheduled : w_scheduled w = true)
    (Hoffers : getActiveOffers (w_job w) (requestContext options) (w_ext w) = (Ok offers, x1))
    (Htracked : activeOrderId (state (w_job w)) = Some id) (Hid : truthy id = true)
    (Hmissing : List.find (sameId id) offers = None)
    (Hlookup : getOrder id (activeProtocolAddress (state (w_job w))) (collectionAddress (w_job w))
       (match target (w_job w) with TokenTarget t => Some t | _ => None end)
       (collectionSlug (w_job w)) (requestContext options) x1 = (Ok (RecoveryInconclusive reason), x2))
    (Hrun : executeJob localeCompare env options w = (r, w')) :
  is_ok r = negb (throwOnFailure options) /\ w_job w' = w_job w /\
  exists T, w_trace w' = w_trace w ++ T /\ market T = [].
Proof.
  destruct (executeJob_inv _ _ _ _ _ _ Hscheduled Hrun) as (r0 & w1 & T1 & E & -> & HT & HS & ->).
  destruct (expireOverride_frame w) as (EJ & ET & _ & _ & EX).
  destruct (readOffers_inconclusive (requestContext options) (expireOverride w) offers x1 id
    (match target (w_job w) with TokenTarget t => Some t | _ => None end) reason x2)
    as (e & w2 & Er); rewrite ?EJ, ?EX; try done.
  apply strategyBody_inv in E as [(e' & Er' & ->)|(? & ? & Er' & _)]; [|by rewrite Er in Er'].
  rewrite (readOffers_failed _ _ _ _ Er'), EJ.
  destruct (readOffers_silent env _ _ _ _ Er') as (T & HT2 & HS2 & _). rewrite ET in HT2.
  split_and!; [by destruct (throwOnFailure options)|done|].
  exists (T ++ T1). rewrite HT, HT2, app_assoc. split; [done|]. by rewrite market_app, !market_silent.
Qed.

(** The withdrawal of the offers found. *)
Lemma withdraw_run own tracked context (w : World X) (r : result Z) w' : isDryRun env = false ->
  withdrawOffers env own tracked context w = (r, w') ->
  exists T : list Effect, w_trace w' = w_trace w ++ T /\
    match r with
    | Ok n => market T = cancels own /\ n = Z.of_nat (length own) /\ activeOrderId (state (w_job w')) = None
    | Err _ => activeOrderId (state (w_job w')) = activeOrderId (state (w_job w))
    end.
Proof.
  intros Hdry.
  assert (forall (m : M (World X) unit), effects silent m -> total m -> forall w r w',
    mbind m (fun _ => mbind (clearTrackedOrder env) (fun _ => mret 0)) w = (r, w') ->
    exists T, w_trace w' = w_trace w ++ T /\ r = Ok 0 /\ market T = [] /\
      activeOrderId (state (w_job w')) = None) as Hnone.
  { intros m Hs Ht w0 r0 w0'. unfold mbind. destruct (Ht w0) as ([] & w1 & E1). rewrite E1.
    destruct (clearTrackedOrder_total env w1) as ([] & w2 & E2). rewrite E2. intros [= <- <-].
    destruct (Hs _ _ _ E1) as (T1 & HT1 & HS1 & _).
    destruct (clearTrackedOrder_silent env _ _ _ E2) as (T2 & HT2 & HS2 & _).
    exists (T1 ++ T2). rewrite HT2, HT1, app_assoc, market_app, !market_silent by done.
    split_and!; try done. by apply clearTrackedOrder_state in E2 as [? _]. }
  destruct own as [|o own]; cbn [withdrawOffers].
  - intros E. assert (exists T, w_trace w' = w_trace w ++ T /\ r = Ok 0 /\ market T = [] /\
      activeOrderId (state (w_job w')) = None) as (T & HT & -> & Hm & Hc).
    { destruct (otruthy tracked).
      - unfold mbind at 1, now at 1 in E. cbv zeta in E. revert E. apply Hnone; auto with artgod.
      - apply (Hnone (mret tt)); auto with artgod. }
    exists T. by split_and!.
  - intros [([] & w1 & E1 & E2)|(e & E1 & ->)]%bind_inv;
      destruct (cancelMakerOffers_acts _ _ _ _ _ _ _ E1) as (T & HT & _ & HX).
    + destruct (clearTrackedOrder_total env w1) as ([] & w2 & E3). unfold mbind in E2. rewrite E3 in E2.
      injection E2 as <- <-. destruct (clearTrackedOrder_silent env _ _ _ E3) as (T2 & HT2 & HS2 & _).
      exists (T ++ T2). rewrite HT2, HT, app_assoc, market_app, (market_silent T2), app_nil_r by done.
      split_and!; [done| |done|by apply clearTrackedOrder_state in E3 as [? _]].
      unfold live in HX. rewrite Hdry in HX. by inversion HX.
    + exists T. split; [done|]. by rewrite (cancelMakerOffers_keeps (fun j => j) _ _ _ _ _ _ E1).
Qed.

Lemma withTracked_In o offers tracked : In o offers -> In o (withTracked offers tracked).
Proof.
  intros Ho. unfold withTracked. destruct tracked as [t|]; [|done].
  destruct (existsb _ _); [done|]. apply in_or_app. by left.
Qed.

(** C35: Withdrawing a job's offers is all or retryable.  When it returns, every
    own offer read that the job manages or tracks was cancelled, the returned
    number is the number of cancellations, only own offers were cancelled and
    nothing is tracked any more; when it fails, the job still tracks its order. *)
Theorem withdrawal_complete context w r w' (Hdry : isDryRun env = false)
    (Hrun : cancelActiveOffersForJob localeCompare env context w = (r, w')) :
  exists T, w_trace w' = w_trace w ++ T /\
    match r with
    | Ok n =>
        Z.of_nat (length (market T)) = n /\ activeOrderId (state (w_job w')) = None /\
        Forall (fun e => exists o, e = ECancel o true /\ isMakerOffer env o = true) (market T) /\
        forall offers x, getActiveOffers (w_job w) context (w_ext w) = (Ok offers, x) ->
        forall o, In o offers -> isMakerOffer env o = true ->
          isOfferManagedByJob localeCompare (w_job w) o = true \/
            activeOrderId (state (w_job w)) = Some (ord_id o) ->
          In (ECancel o true) (market T)
    | Err _ => activeOrderId (state (w_job w')) = activeOrderId (state (w_job w))
    end.
Proof.
  unfold cancelActiveOffersForJob in Hrun. unfold mbind at 1, thisJob at 1 in Hrun.
  apply bind_inv in Hrun as [(offers & w1 & E1 & Hrun)|(e & E1 & ->)].
  2:{ destruct (effects_call silent _ _ _ _ E1) as (T & HT & _). exists T. split; [done|].
      by rewrite (keeps_call (fun j => j) _ _ _ _ E1). }
  pose proof (keeps_call (fun j => j) _ _ _ _ E1) as EJ. simpl in EJ.
  destruct (effects_call silent _ _ _ _ E1) as (T1 & HT1 & HS1 & _).
  unfold mbind at 1, thisJob at 1 in Hrun. rewrite EJ in Hrun.
  apply bind_inv in Hrun as [(tracked & w2 & E2 & Hrun)|(e & E2 & ->)];
    destruct (resolveTracked_silent env _ _ _ _ _ _ E2) as (T2 & HT2 & HS2 & _);
    pose proof (resolveTracked_keeps_id _ _ _ _ _ E2) as Hid; unfold trackedId in Hid; rewrite EJ in Hid.
  2:{ exists (T1 ++ T2). rewrite HT2, HT1, app_assoc. by split. }
  assert (market (T1 ++ T2) = []) as Hm12 by by rewrite market_app, !market_silent.
  assert (w_trace w2 = w_trace w ++ (T1 ++ T2)) as HT12 by by rewrite HT2, HT1, app_assoc.
  set (mine := fun offer => isMakerOffer env offer && (isOfferManagedByJob localeCompare (w_job w) offer ||
    match activeOrderId (state (w_job w)) with Some id => sameId id offer | None => false end)) in Hrun.
  set (own := List.filter mine (withTracked offers tracked)) in Hrun.
  assert (forall offers' x, getActiveOffers (w_job w) context (w_ext w) = (Ok offers', x) ->
    forall o, In o offers' -> isMakerOffer env o = true ->
    isOfferManagedByJob localeCompare (w_job w) o = true \/
      activeOrderId (state (w_job w)) = Some (ord_id o) -> In o own) as Hown.
  { intros offers' x Eg o Ho Hmk Hmg. unfold call in E1. rewrite Eg in E1. injection E1 as -> _.
    apply filter_In. split; [by apply withTracked_In|]. unfold mine. rewrite Hmk. simpl.
    destruct Hmg as [->| ->]; [done|]. unfold sameId. by rewrite String.eqb_refl, orb_true_r. }
  assert (Forall (fun e => exists o, e = ECancel o true /\ isMakerOffer env o = true) (cancels own)) as Hmk.
  { apply Forall_map, List.Forall_forall. intros o Ho. exists o. split; [done|].
    apply filter_In in Ho as [_ Ho]. by apply andb_true_iff in Ho as [Ho _]. }
  destruct (withdraw_run _ _ _ _ _ _ Hdry Hrun) as (T3 & HT3 & HR).
  exists ((T1 ++ T2) ++ T3). split; [by rewrite HT3, HT12, <- !app_assoc|].
  rewrite market_app, Hm12. simpl. destruct r as [n|e]; [|by rewrite HR, Hid].
  destruct HR as (-> & -> & Hclear). unfold cancels at 1. rewrite length_map. split_and!; try done.
  intros offers' x Eg o Ho Hm Hmg. apply (in_map (fun o => ECancel o true)). by eapply Hown.
Qed.

(** C26: The bid price is exact.  For any declared floor, ceiling and delta, any
    balance and any rival, the price worked out is the least price the marketplace
    accepts that meets the floor and beats the rival by delta, or the greatest
    within ceiling and balance when that is too much; zero when the declared range
    holds no acceptable price; and all the balance buys when it cannot pay the
    floor. *)
Theorem bid_price_exact job override balance rival
    (Hfloor : 0 <= match override with Some r => ro_floor r | None => floor (config job) end)
    (Hceiling : 0 <= match override with Some r => ro_ceiling r | None => ceiling (config job) end)
    (Hbalance : forall b, balance = Some b -> 0 <= b) :
  exists price decision, decidePrice (X := X) job override balance rival = Ok (price, decision) /\
    0 <= price /\ valid price /\
    is_bid_price valid balance
      (match override with Some r => ro_floor r | None => floor (config job) end)
      (match override with Some r => ro_ceiling r | None => ceiling (config job) end)
      rival (delta (config job)) price.
Proof.
  destruct (decidePrice_total valid job override balance rival Hfloor Hceiling Hbalance)
    as (p & d & E & _ & Hp). by exists p, d.
Qed.

End Claims.

(** ** A small market *)

(** A book of offers, a clock, the next order number and whether the lookup of an
    order that is not listed works. *)
Record Market := {
  mk_book : list Order;
  mk_clock : Z;
  mk_next : Z;
  mk_lookup : bool;
}.

Definition mk_set_book (l : list Order) (n : Z) (x : Market) : Market :=
  {| mk_book := l; mk_clock := mk_clock x; mk_next := n; mk_lookup := mk_lookup x |}.

Definition offerOf (id maker : string) (price : Z) : Order := {|
  ord_id := id; ord_price := price; ord_maker := maker;
  ord_protocolAddress := Some "0xproto"%string; ord_placedAt := None;
  ord_expirationTime := Some (NInt 2000000); ord_offerScope := Some OfferItem;
  ord_criteria := []; ord_quantity := None |}.

#[local] Instance marketService : BiddingService Market := {|
  roundOfferPriceDown := OfferPrice.roundOpenSeaOfferPriceDown;
  roundOfferPriceUp := OfferPrice.roundOpenSeaOfferPriceUp;
  getActiveOffers _ _ x := (Ok (mk_book x), x);
  getOrder _ _ _ _ _ _ x :=
    (Ok (if mk_lookup x then RecoveryInactiveOrMissing else RecoveryInconclusive "lookup_unavailable"), x);
  placeOffer _ amount _ x :=
    let id := Z_toString (mk_next x) in
    (Ok {| po_orderHash := id; po_protocolAddress := "0xproto"; po_placedAt := toISOString (mk_clock x);
           po_expirationTime := Some (NInt 2000000) |},
     mk_set_book (mk_book x ++ [offerOf id "0xme" amount]) (mk_next x + 1) x);
  cancelOffer _ order _ x :=
    (Ok tt, mk_set_book (List.filter (fun o => negb (sameId (ord_id order) o)) (mk_book x)) (mk_next x) x);
|}.

#[local] Instance marketState : RuntimeStatePort Market := {|
  persistJobRuntimeState _ x := (Ok tt, x);
  recordJobOfferCancellation _ x := (Ok tt, x);
  dateNow := mk_clock;
|}.

#[local] Instance marketGrid :
  PriceGrid (roundOfferPriceDown (X := Market)) (roundOfferPriceUp (X := Market)) OfferPrice.valid_price :=
  openSeaGrid.

Definition milliEth (n : Z) : Z := n * 1000000000000000.

Definition exampleJob (s : BidderState) : BidderJob := {|
  job_id := "job"; revision := 1; collectionId := 1; collectionAddress := "0xc";
  collectionSlug := "slug"; target := TokenTarget "7";
  config := {| ceiling := milliEth 1000; floor := milliEth 100; delta := milliEth 1;
               extraCompetitionTraits := None |};
  state := s |}.

Definition exampleEnv : BidderEnv :=
  {| makerAddress := "0xME"; scanSleepMs := 60000; isDryRun := false; hasStatePort := true |}.

Definition exampleOptions : JobExecutionOptions :=
  {| throwOnFailure := true; requestContext := None |}.

Definition trackedState (id : string) : BidderState :=
  st_order (Some id) (Some "0xproto"%string) None None None None emptyState.

(** A rival at 0.5 ETH, the job's own offer at 0.3 ETH and 0.8 ETH to spend. *)
Definition exampleWorld (lookup : bool) (own : list Order) (s : BidderState) : World Market := {|
  w_job := exampleJob s; w_scheduled := true; w_override := None;
  w_balance := Some (milliEth 800);
  w_ext := {| mk_book := offerOf "rival" "0xother" (milliEth 500) :: own; mk_clock := 1000;
              mk_next := 42; mk_lookup := lookup |};
  w_trace := [] |}.

Definition world0 : World Market :=
  exampleWorld true [offerOf "mine" "0xme" (milliEth 300)] (trackedState "mine").

Definition collate : keyItem -> keyItem -> Z := fun _ _ => 0.

(** The refresh of [world0] outbids the rival by delta, then cancels the old offer. *)
Definition world1 : World Market := snd (executeJob collate exampleEnv exampleOptions world0).

Lemma sound0 lookup own s : sound_settings (exampleWorld lookup own s).
Proof. split_and!; [by vm_compute|by vm_compute|]. by intros b [= <-]. Qed.

Lemma bid_price_exact_witness :
  decidePrice (X := Market) (exampleJob emptyState) None (Some (milliEth 800)) (milliEth 500) =
    Ok (milliEth 501, {| dc_competitorPrice := milliEth 500; dc_floor := milliEth 100; dc_ceiling := milliEth 800 |}) /\
  exists price decision,
    decidePrice (X := Market) (exampleJob emptyState) None (Some (milliEth 800)) (milliEth 500) =
      Ok (price, decision) /\ 0 <= price /\ OfferPrice.valid_price price /\
    is_bid_price OfferPrice.valid_price (Some (milliEth 800)) (milliEth 100) (milliEth 1000)
      (milliEth 500) (milliEth 1) price.
Proof.
  split; [by vm_compute|].
  apply (bid_price_exact OfferPrice.valid_price (exampleJob emptyState) None (Some (milliEth 800)) (milliEth 500));
    [by vm_compute|by vm_compute|]. by intros b [= <-].
Defined.

Lemma run0 : executeJob collate exampleEnv exampleOptions world0 = (Ok tt, world1).
Proof. by vm_compute. Qed.

Lemma refresh_follows_plan_witness :
  market (w_trace world1) =
    [EPlace (milliEth 501) true; ECancel (offerOf "mine" "0xme" (milliEth 300)) true] /\
  exists T r0, w_trace world1 = T /\ Ok tt = r0 /\
    (market T = [] \/ exists price own renew,
       executes (planActions (planFor price own renew) own) r0 (market T)).
Proof.
  split; [by vm_compute|].
  destruct (refresh_follows_plan collate exampleEnv OfferPrice.valid_price exampleOptions world0
    (Ok tt) world1 eq_refl (sound0 _ _ _) run0) as (T & r0 & HT & Hr & H).
  exists T, r0. split; [exact HT|]. split; [exact Hr|].
  destruct H as [(e & w2 & _ & _ & H)|(offers & w2 & price & _ & _ & H)]; [left; exact H|right].
  eexists price, _, _. exact H.
Defined.

Lemma never_overbids_witness :
  In (EPlace (milliEth 501) true) (w_trace world1) /\ 0 < milliEth 501 <= milliEth 1000 /\
  milliEth 501 <= milliEth 800.
Proof.
  assert (In (EPlace (milliEth 501) true) (w_trace world1)) as Hin by (vm_compute; auto 10).
  split; [exact Hin|].
  destruct (never_overbids collate exampleEnv OfferPrice.valid_price exampleOptions world0
    (Ok tt) world1 (sound0 _ _ _) run0) as (T & HT & _ & H).
  change (w_trace world1 = T) in HT. rewrite HT in Hin.
  destruct (H _ _ Hin) as (Hpos & _ & Hc & Hb). split; [split; [exact Hpos|exact Hc]|].
  exact (Hb _ eq_refl).
Defined.

Lemma replacement_saved_first_witness :
  exists A B order C T, w_trace world1 = T /\
    T = A ++ EPlace (milliEth 501) true :: B ++ ECancel order true :: C /\
    exists snap placed, In (EPersist snap true) B /\ saves placed (milliEth 501) snap.
Proof.
  destruct (replacement_saved_first collate exampleEnv OfferPrice.valid_price exampleOptions world0
    (Ok tt) world1 eq_refl (sound0 _ _ _) eq_refl eq_refl run0) as (T & HT & H).
  change (w_trace world1 = T) in HT.
  assert (exists A B order C, w_trace world1 = A ++ EPlace (milliEth 501) true :: B ++ ECancel order true :: C)
    as (A & B & order & C & E).
  { eexists [EDecision DAdjustUp], [EPersist _ true; ERecordCancellation _], _, [ERecordCancellation _].
    vm_compute. reflexivity. }
  exists A, B, order, C, T. split; [exact HT|]. rewrite HT in E. split; [exact E|].
  exact (H _ _ _ _ _ _ E).
Defined.

Lemma refresh_tracks_plan_witness :
  activeOrderId (state (w_job world1)) = Some "42"%string /\
  exists price own renew, own = [] /\ planFor price own renew = Withdraw \/
    tracks (planFor price own renew) (state (w_job world1)).
Proof.
  split; [by vm_compute|].
  destruct (refresh_tracks_plan collate exampleEnv OfferPrice.valid_price exampleOptions world0
    world1 eq_refl (sound0 _ _ _) eq_refl eq_refl run0) as (offers & w2 & price & _ & _ & H).
  eexists price, _, _. exact H.
Defined.

Definition world2 : World Market := exampleWorld false [] (trackedState "gone").

Lemma unproved_status_blocks_market_witness :
  let w' := snd (executeJob collate exampleEnv exampleOptions world2) in
  w_job w' = w_job world2 /\ exists T, w_trace w' = T /\ market T = [].
Proof.
  intros w'.
  pose proof (unproved_status_blocks_market collate exampleEnv exampleOptions world2
    (fst (executeJob collate exampleEnv exampleOptions world2)) w' (mk_book (w_ext world2)) (w_ext world2)
    "gone" "lookup_unavailable" (w_ext world2)) as H.
  specialize (H eq_refl eq_refl eq_refl eq_refl eq_refl eq_refl).
  specialize (H (surjective_pairing _)). destruct H as (_ & HJ & T & HT & HM).
  split; [exact HJ|]. exists T. split; [exact HT|exact HM].
Defined.

Definition withdrawn : result Z * World Market := cancelActiveOffersForJob collate exampleEnv None world0.

Lemma withdrawal_complete_witness :
  fst withdrawn = Ok 1 /\ activeOrderId (state (w_job (snd withdrawn))) = None.
Proof.
  assert (fst withdrawn = Ok 1) as E by by vm_compute. split; [exact E|].
  destruct (withdrawal_complete collate exampleEnv None world0 (fst withdrawn) (snd withdrawn) eq_refl
    (surjective_pairing _)) as (T & _ & H).
  rewrite E in H. destruct H as (_ & Hid & _). exact Hid.
Defined.
End StrategyClaims.
