(* ===== verification/Schedule.v ===== *)
(** * The schedule of jobs and its hot-refresh index

    The part of [Bidder] ([bidder.ts]) that holds the declared jobs: [addJob] and
    [removeJob] with the two token indexes and the counts by target, what of the
    old state a redeclared job keeps, runtime overrides and their expiry timers,
    and which jobs a market event may refresh.  Observability and logs are left
    out; a hot-refresh evaluation keeps the fields the bidder acts on. *)

From S2P Require Import Prelude JsValue Domain TraitCriteria BiddingService Strategy.

Open Scope Z_scope.

Module Schedule.
Import TraitCriteria Strategy.

(** The own properties of the state object of an incoming job: [None] is absent,
    [Some None] is a property that is [undefined]. *)
Record StateOverlay := {
  ov_lastRun : option (option Z);
  ov_activeOrderId : option (option string);
  ov_activeProtocolAddress : option (option string);
  ov_activeOrderPlacedAt : option (option string);
  ov_activeOrderVerifiedAt : option (option string);
  ov_currentPrice : option (option Z);
  ov_activeExpirationTimeMs : option (option Z);
  ov_bidPosition : option (option BidPosition);
  ov_bidConstraints : option (option (list BidConstraint));
  ov_competitorPrice : option (option Z);
}.

Definition over {A} (new : option (option A)) (old : option A) : option A :=
  match new with Some v => v | None => old end.

(** [{ ...old, ...new }] *)
Definition spreadState (old : BidderState) (new : StateOverlay) : BidderState := {|
  lastRun := over (ov_lastRun new) (lastRun old);
  activeOrderId := over (ov_activeOrderId new) (activeOrderId old);
  activeProtocolAddress := over (ov_activeProtocolAddress new) (activeProtocolAddress old);
  activeOrderPlacedAt := over (ov_activeOrderPlacedAt new) (activeOrderPlacedAt old);
  activeOrderVerifiedAt := over (ov_activeOrderVerifiedAt new) (activeOrderVerifiedAt old);
  currentPrice := over (ov_currentPrice new) (currentPrice old);
  activeExpirationTimeMs := over (ov_activeExpirationTimeMs new) (activeExpirationTimeMs old);
  bidPosition := over (ov_bidPosition new) (bidPosition old);
  bidConstraints := over (ov_bidConstraints new) (bidConstraints old);
  competitorPrice := over (ov_competitorPrice new) (competitorPrice old) |}.

Definition noOverlay : StateOverlay := {|
  ov_lastRun := None; ov_activeOrderId := None; ov_activeProtocolAddress := None;
  ov_activeOrderPlacedAt := None; ov_activeOrderVerifiedAt := None; ov_currentPrice := None;
  ov_activeExpirationTimeMs := None; ov_bidPosition := None; ov_bidConstraints := None;
  ov_competitorPrice := None |}.

Record TargetCounts := { n_token : Z; n_collection : Z; n_competitive : Z }.

Record RuntimeSatisfactionSnapshot := {
  rs_activeOrderId : string;
  rs_currentPrice : Z;
  rs_activeOrderVerifiedAt : string;
}.

Record BidderActivationOptions := { ao_floor : Z; ao_ceiling : Z; ao_ttlMs : jsnum }.

Record HotRefreshEvaluation := {
  he_jobId : string;
  he_matched : bool;
  he_reason : string;
  he_currentPrice : option Z;
  he_priceDiff : option Z;
}.

Record CurrentPriceCheckResult := {
  cc_shouldReact : bool;
  cc_reason : string;
  cc_currentPrice : option Z;
  cc_priceDiff : option Z;
}.

Record BidderPositionHealth := {
  ph_winning : Z; ph_draw : Z; ph_losing : Z; ph_unobserved : Z;
  ph_ceiling : Z; ph_floor : Z;
}.

Record Sched (X : Type) := {
  s_jobs : list (string * BidderJob);
  s_tokenJob : list (string * string);
  s_tokenJobs : list (string * list string);
  s_counts : TargetCounts;
  s_overrides : list (string * RuntimeJobOverride);
  s_timers : list (string * Z);
  s_nextActivationId : Z;
  s_acceptingBackground : bool;
  s_balance : option Z;
  s_ext : X;
}.
Arguments s_jobs {X}.
Arguments s_tokenJob {X}.
Arguments s_tokenJobs {X}.
Arguments s_counts {X}.
Arguments s_overrides {X}.
Arguments s_timers {X}.
Arguments s_nextActivationId {X}.
Arguments s_acceptingBackground {X}.
Arguments s_balance {X}.
Arguments s_ext {X}.

(** Reads of the bidder's collaborators that the strategy does not use. *)
Class MarketReads (X : Type) := {
  getTraits : string -> string -> M X (list TraitTarget);
  getWethBalance : string -> M X Z;
  getActiveTokenOfferByMaker : BidderJob -> string -> M X (option Order);
}.

Section Updates.
Context {X : Type}.
Implicit Types s : Sched X.

Definition set_jobs v s := {| s_jobs := v; s_tokenJob := s_tokenJob s; s_tokenJobs := s_tokenJobs s;
  s_counts := s_counts s; s_overrides := s_overrides s; s_timers := s_timers s;
  s_nextActivationId := s_nextActivationId s; s_acceptingBackground := s_acceptingBackground s;
  s_balance := s_balance s; s_ext := s_ext s |}.

Definition set_index t c s := {| s_jobs := s_jobs s; s_tokenJob := t; s_tokenJobs := c;
  s_counts := s_counts s; s_overrides := s_overrides s; s_timers := s_timers s;
  s_nextActivationId := s_nextActivationId s; s_acceptingBackground := s_acceptingBackground s;
  s_balance := s_balance s; s_ext := s_ext s |}.

Definition set_counts v s := {| s_jobs := s_jobs s; s_tokenJob := s_tokenJob s;
  s_tokenJobs := s_tokenJobs s; s_counts := v; s_overrides := s_overrides s; s_timers := s_timers s;
  s_nextActivationId := s_nextActivationId s; s_acceptingBackground := s_acceptingBackground s;
  s_balance := s_balance s; s_ext := s_ext s |}.

Definition set_overrides o t n s := {| s_jobs := s_jobs s; s_tokenJob := s_tokenJob s;
  s_tokenJobs := s_tokenJobs s; s_counts := s_counts s; s_overrides := o; s_timers := t;
  s_nextActivationId := n; s_acceptingBackground := s_acceptingBackground s;
  s_balance := s_balance s; s_ext := s_ext s |}.

Definition set_accepting v s := {| s_jobs := s_jobs s; s_tokenJob := s_tokenJob s;
  s_tokenJobs := s_tokenJobs s; s_counts := s_counts s; s_overrides := s_overrides s;
  s_timers := s_timers s; s_nextActivationId := s_nextActivationId s; s_acceptingBackground := v;
  s_balance := s_balance s; s_ext := s_ext s |}.

Definition set_balance v x s : Sched X := {| s_jobs := s_jobs s; s_tokenJob := s_tokenJob s;
  s_tokenJobs := s_tokenJobs s; s_counts := s_counts s; s_overrides := s_overrides s;
  s_timers := s_timers s; s_nextActivationId := s_nextActivationId s;
  s_acceptingBackground := s_acceptingBackground s; s_balance := v; s_ext := x |}.

Definition callExt {A} (m : M X A) : M (Sched X) A := fun s =>
  let '(r, x) := m (s_ext s) in (r, set_balance (s_balance s) x s).

Definition initialSchedule (balance : option Z) (x : X) : Sched X := {|
  s_jobs := []; s_tokenJob := []; s_tokenJobs := [];
  s_counts := {| n_token := 0; n_collection := 0; n_competitive := 0 |};
  s_overrides := []; s_timers := []; s_nextActivationId := 1; s_acceptingBackground := true;
  s_balance := balance; s_ext := x |}.

End Updates.

Section Schedule.
Context {X : Type} `{BiddingService X} `{RuntimeStatePort X} `{MarketReads X}.
(** [numberText] is the decimal text of a number, for a message. *)
Context (localeCompare : keyItem -> keyItem -> Z) (numberText : jsnum -> string).

Local Open Scope artgod_scope.

(** ** Counts and indexes *)

Definition adjustJobTargetCount (t : TargetType) (d : Z) : M (Sched X) unit := mmodify (fun s =>
  let c := s_counts s in
  set_counts match t with
             | TToken => {| n_token := Z.max 0 (n_token c + d);
                 n_collection := n_collection c; n_competitive := n_competitive c |}
             | TCollection => {| n_token := n_token c;
                 n_collection := Z.max 0 (n_collection c + d); n_competitive := n_competitive c |}
             | TCompetitiveTrait => {| n_token := n_token c; n_collection := n_collection c;
                 n_competitive := Z.max 0 (n_competitive c + d) |}
             end s).

Definition makeCollectionTokenKey (collectionSlug tokenId : string) : string :=
  append collectionSlug (append ":" tokenId).

(** [set.add(id)] and [set.delete(id)] on an insertion-ordered set. *)
Definition addId (id : string) (ids : list string) : list string :=
  if bool_decide (id ∈ ids) then ids else ids ++ [id].

Definition deleteId (id : string) (ids : list string) : list string :=
  List.filter (fun i => negb (String.eqb i id)) ids.

Definition addJobToIndexes (job : BidderJob) : M (Sched X) unit := fun s =>
  match target job with
  | TokenTarget tokenId =>
      let collectionTokenKey := makeCollectionTokenKey (collectionSlug job) tokenId in
      let existingJobId := jm_get collectionTokenKey (s_tokenJob s) in
      if match existingJobId with
         | Some id => truthy id && negb (String.eqb id (job_id job))
         | None => false
         end
      then (Err (String.concat "" ["[Bidder] Duplicate token job detected for ";
                   formatBidderJobReference job; ": existingJobId="; default ""%string existingJobId]%string), s)
      else
        let ids := default [] (jm_get (collectionSlug job) (s_tokenJobs s)) in
        (Ok tt, set_index (jm_set collectionTokenKey (job_id job) (s_tokenJob s))
                  (jm_set (collectionSlug job) (addId (job_id job) ids) (s_tokenJobs s)) s)
  | _ => (Ok tt, s)
  end.

Definition removeJobFromIndexes (job : BidderJob) : M (Sched X) unit := fun s =>
  match target job with
  | TokenTarget tokenId =>
      let collectionTokenKey := makeCollectionTokenKey (collectionSlug job) tokenId in
      let tokenJob := if bool_decide (jm_get collectionTokenKey (s_tokenJob s) = Some (job_id job))
                      then jm_del collectionTokenKey (s_tokenJob s) else s_tokenJob s in
      let tokenJobs := match jm_get (collectionSlug job) (s_tokenJobs s) with
                       | None => s_tokenJobs s
                       | Some collectionJobIds =>
                           match deleteId (job_id job) collectionJobIds with
                           | [] => jm_del (collectionSlug job) (s_tokenJobs s)
                           | ids => jm_set (collectionSlug job) ids (s_tokenJobs s)
                           end
                       end in
      (Ok tt, set_index tokenJob tokenJobs s)
  | _ => (Ok tt, s)
  end.

(** ** Declarations *)

Definition hasSameTargetIdentity (existingJob nextJob : BidderJob) : bool :=
  if negb (String.eqb (collectionAddress existingJob) (collectionAddress nextJob)) ||
     negb (String.eqb (collectionSlug existingJob) (collectionSlug nextJob)) ||
     negb (bool_decide (target_type (target existingJob) = target_type (target nextJob)))
  then false
  else match target existingJob, target nextJob with
       | TokenTarget a, TokenTarget b => String.eqb a b
       | CollectionTarget _ a, CollectionTarget _ b =>
           matchesExactTraitTargets localeCompare (map exactCriterion (default_traits a))
             (map exactCriterion (default_traits b))
       | CompetitiveTraitTarget _ a _, CompetitiveTraitTarget _ b _ =>
           matchesExactTraitTargets localeCompare [exactCriterion a] [exactCriterion b]
       | _, _ => false
       end.

(** [JSON.stringify] of two selector lists is equal when the lists are. *)
Definition hasSameSatisfiedDeclaration (currentJob desiredJob : BidderJob) : bool :=
  (revision currentJob =? revision desiredJob) &&
  (floor (config currentJob) =? floor (config desiredJob)) &&
  (ceiling (config currentJob) =? ceiling (config desiredJob)) &&
  (delta (config currentJob) =? delta (config desiredJob)) &&
  bool_decide (default_traits (extraCompetitionTraits (config currentJob)) =
               default_traits (extraCompetitionTraits (config desiredJob))) &&
  hasSameTargetIdentity currentJob desiredJob.

Definition getJob (jobId : string) (s : Sched X) : option BidderJob := jm_get jobId (s_jobs s).

(** [addJob(job)], whose state object has the own properties [overlay]. *)
Definition addJob (declared : BidderJob) (overlay : StateOverlay) : M (Sched X) unit := fun s =>
  let existingJob := getJob (job_id declared) s in
  let job := set_state declared
        match existingJob with
        | Some existing =>
            if hasSameTargetIdentity existing declared then spreadState (state existing) overlay
            else spreadState emptyState overlay
        | None => spreadState emptyState overlay
        end in
  (do! match existingJob with
       | Some existing =>
           do! removeJobFromIndexes existing in
           adjustJobTargetCount (target_type (target existing)) (-1)
       | None => mret tt
       end in
   do! mmodify (fun s => set_jobs (jm_set (job_id job) job (s_jobs s)) s) in
   do! addJobToIndexes job in
   adjustJobTargetCount (target_type (target job)) 1) s.

Definition clearRuntimeOverride (jobId : string) : M (Sched X) unit := mmodify (fun s =>
  match jm_get jobId (s_overrides s) with
  | None => s
  | Some override =>
      set_overrides (jm_del jobId (s_overrides s))
        (List.filter (fun t => negb (String.eqb (fst t) jobId && (snd t =? ro_activationId override))) (s_timers s))
        (s_nextActivationId s) s
  end).

Definition removeJob (jobId : string) : M (Sched X) (option BidderJob) := fun s =>
  match getJob jobId s with
  | None => (Ok None, s)
  | Some existingJob =>
      (do! clearRuntimeOverride jobId in
       do! removeJobFromIndexes existingJob in
       do! mmodify (fun s => set_jobs (jm_del jobId (s_jobs s)) s) in
       do! adjustJobTargetCount (target_type (target existingJob)) (-1) in
       mret (Some existingJob)) s
  end.

Definition getSatisfiedRuntimeSnapshot (desiredJob : BidderJob) (s : Sched X)
    : option RuntimeSatisfactionSnapshot :=
  match getJob (job_id desiredJob) s with
  | None => None
  | Some currentJob =>
      if negb (hasSameSatisfiedDeclaration currentJob desiredJob) then None
      else match activeOrderId (state currentJob), currentPrice (state currentJob),
                 activeOrderVerifiedAt (state currentJob) with
           | Some activeOrderId, Some currentPrice, Some activeOrderVerifiedAt =>
               if truthy activeOrderId && truthy activeOrderVerifiedAt
               then Some {| rs_activeOrderId := activeOrderId; rs_currentPrice := currentPrice;
                            rs_activeOrderVerifiedAt := activeOrderVerifiedAt |}
               else None
           | _, _, _ => None
           end
  end.

Definition getTokenTargetIds (s : Sched X) : list string :=
  fold_left (fun ids job => match target job with TokenTarget t => addId t ids | _ => ids end)
    (jm_values (s_jobs s)) [].

Definition countIf (b : bool) : Z := if b then 1 else 0.

Definition readPositionHealth (s : Sched X) : BidderPositionHealth :=
  fold_left (fun h job =>
    let p := bidPosition (state job) in
    let cs := default [] (bidConstraints (state job)) in
    {| ph_winning := ph_winning h + countIf (bool_decide (p = Some Winning));
       ph_draw := ph_draw h + countIf (bool_decide (p = Some Draw));
       ph_losing := ph_losing h + countIf (bool_decide (p = Some Losing));
       ph_unobserved := ph_unobserved h + countIf (bool_decide (p = None));
       ph_ceiling := ph_ceiling h + countIf (bool_decide (CeilingConstraint ∈ cs));
       ph_floor := ph_floor h + countIf (bool_decide (FloorConstraint ∈ cs)) |})
    (jm_values (s_jobs s))
    {| ph_winning := 0; ph_draw := 0; ph_losing := 0; ph_unobserved := 0; ph_ceiling := 0; ph_floor := 0 |}.

(** ** Runtime overrides *)

Definition dateNowS (s : Sched X) : Z := dateNow (s_ext s).

Definition getRuntimeOverride (jobId : string) : M (Sched X) (option RuntimeJobOverride) := fun s =>
  match jm_get jobId (s_overrides s) with
  | None => (Ok None, s)
  | Some override =>
      if ro_expiresAt override <=? dateNowS s
      then (do! clearRuntimeOverride jobId in mret None) s
      else (Ok (Some override), s)
  end.

(** A time span in whole milliseconds: a deadline at a fraction of a millisecond
    has passed at a whole time exactly when the next whole one has. *)
Definition ceilNum (n : jsnum) : Z :=
  match n with
  | NInt z => z
  | NFrac num den => - (- num / Zpos den)
  | _ => 0
  end.

Definition isPositive (n : jsnum) : bool :=
  match n with
  | NInt z => 0 <? z
  | NFrac num _ => 0 <? num
  | NInf negative => negb negative
  | NNaN => true
  end.

(** [activateJob] up to the refresh it requests; [true] when it does. *)
Definition activateJob (jobId : string) (options : BidderActivationOptions) : M (Sched X) bool := fun s =>
  if negb (s_acceptingBackground s) then (Ok false, s)
  else match getJob jobId s with
  | None => (Err (append "[Bidder] Cannot activate unknown job: " jobId), s)
  | Some _ =>
      if negb (isPositive (ao_ttlMs options)) || negb (isFiniteNum (ao_ttlMs options))
      then (Err (append "[Bidder] ttlMs must be > 0. received=" (numberText (ao_ttlMs options))), s)
      else if ao_ceiling options <? ao_floor options
      then (Err (String.concat "" ["[Bidder] Activation floor must be <= ceiling. floor=";
              Z_toString (ao_floor options); ", ceiling="; Z_toString (ao_ceiling options)]%string), s)
      else
        (do! clearRuntimeOverride jobId in
         do! mmodify (fun s =>
           let id := s_nextActivationId s in
           set_overrides
             (jm_set jobId {| ro_activationId := id; ro_floor := ao_floor options;
                ro_ceiling := ao_ceiling options;
                ro_expiresAt := dateNowS s + ceilNum (ao_ttlMs options) |} (s_overrides s))
             (s_timers s ++ [(jobId, id)]) (id + 1) s) in
         mret true) s
  end.

(** The expiry timer fires; [true] when it requests a refresh. *)
Definition overrideTimerFires (jobId : string) (activationId : Z) : M (Sched X) bool := fun s =>
  let s := set_overrides (s_overrides s)
        (List.filter (fun t => negb (String.eqb (fst t) jobId && (snd t =? activationId))) (s_timers s))
        (s_nextActivationId s) s in
  match jm_get jobId (s_overrides s) with
  | Some current =>
      if ro_activationId current =? activationId
      then (do! clearRuntimeOverride jobId in mret true) s
      else (Ok false, s)
  | None => (Ok false, s)
  end.

(** [closeBackgroundRefreshAdmission], for the overrides. *)
Definition closeAdmission : M (Sched X) unit := mmodify (fun s =>
  set_accepting false (set_overrides (s_overrides s) [] (s_nextActivationId s) s)).

(** ** Balance *)

Definition refreshCachedMakerWethBalance (hasBalanceService : bool) (makerAddress : string)
    : M (Sched X) bool := fun s =>
  if negb hasBalanceService then (Ok false, s)
  else match getWethBalance makerAddress (s_ext s) with
       | (Ok balance, x) => (Ok true, set_balance (Some balance) x s)
       | (Err _, x) => (Ok false, set_balance (s_balance s) x s)
       end.

(** ** Hot refresh *)

Definition getHotRefreshCandidateJobs (e : MarketEvent) (s : Sched X) : list BidderJob :=
  match ev_scope e with
  | ScopeItem =>
      if negb (hasExplicitTokenId e) then []
      else match jm_get (makeCollectionTokenKey (ev_collectionSlug e) (ev_itemId e)) (s_tokenJob s) with
           | None => []
           | Some jobId =>
               if negb (truthy jobId) then []
               else match getJob jobId s with Some job => [job] | None => [] end
           end
  | ScopeCollection | ScopeTrait =>
      match jm_get (ev_collectionSlug e) (s_tokenJobs s) with
      | None => []
      | Some jobIds => omap (fun jobId => getJob jobId s) jobIds
      end
  | ScopeUnknown => []
  end.

Definition evaluateCurrentPriceGate (job : BidderJob) (e : MarketEvent)
    : M (Sched X) CurrentPriceCheckResult :=
  match currentPrice (state job) with
  | None => mret {| cc_shouldReact := false; cc_reason := "currentPrice unavailable";
                    cc_currentPrice := None; cc_priceDiff := None |}
  | Some price =>
      let! runtimeOverride := getRuntimeOverride (job_id job) in
      let! effectiveCeiling := (fun s =>
        (getEffectiveCeiling (X := X) (s_balance s)
           match runtimeOverride with Some r => ro_ceiling r | None => ceiling (config job) end
           match runtimeOverride with Some r => ro_floor r | None => floor (config job) end, s)) in
      let check := fun react reason =>
        {| cc_shouldReact := react; cc_reason := reason; cc_currentPrice := Some price;
           cc_priceDiff := Some (getUnitPrice e - price) |} in
      mret (if effectiveCeiling <=? getUnitPrice e
            then check false "event price met or exceeded effective ceiling"%string
            else if getUnitPrice e <? price then check false "event price below current price"%string
            else check true "event price met or exceeded current price gate"%string)
  end.

Definition matchesTraitCriteria (hasMetadata : bool) (collectionSlug tokenId : string)
    (traitCriteria : list TraitCriterion) : M (Sched X) bool :=
  match traitCriteria with
  | [] => mret false
  | _ =>
      if negb hasMetadata then mret false
      else
        let! tokenTraits := callExt (getTraits collectionSlug tokenId) in
        mret match tokenTraits with
             | [] => false
             | _ => biddingTraitsMatchToken traitCriteria tokenTraits
             end
  end.

Definition evaluateMarketEvent (hasMetadata : bool) (job : BidderJob) (e : MarketEvent)
    : M (Sched X) HotRefreshEvaluation :=
  let verdict := fun matched reason price diff =>
    {| he_jobId := job_id job; he_matched := matched; he_reason := reason; he_currentPrice := price;
       he_priceDiff := diff |} in
  match target job with
  | TokenTarget tokenId =>
      if negb (String.eqb (collectionSlug job) (ev_collectionSlug e)) then
        mret (verdict false "collection slug mismatch"%string (currentPrice (state job)) None)
      else
        let! check := evaluateCurrentPriceGate job e in
        let say := fun matched reason =>
          mret (verdict matched reason (cc_currentPrice check) (cc_priceDiff check)) in
        if negb (cc_shouldReact check) then say false (cc_reason check)
        else match ev_scope e with
             | ScopeItem =>
                 if negb (hasExplicitTokenId e)
                 then say false "item-scope event has no explicit token id"%string
                 else if negb (String.eqb tokenId (ev_itemId e))
                 then say false "item-scope token id mismatch"%string
                 else say true "item-scope token id matched and event price met current price gate"%string
             | ScopeTrait =>
                 let! matched := matchesTraitCriteria hasMetadata (collectionSlug job) tokenId
                                   (ev_traitCriteria e) in
                 if negb matched
                 then say false "trait criteria did not fully match cached token metadata"%string
                 else say true "trait-scope event fully matched cached token metadata and price gate"%string
             | ScopeCollection =>
                 say true "collection-scope event matched token job collection and price gate"%string
             | ScopeUnknown => say false "unsupported event scope for hot refresh"%string
             end
  | _ => mret (verdict false "job target is not token"%string (currentPrice (state job)) None)
  end.

Fixpoint evaluateAll (hasMetadata : bool) (jobs : list BidderJob) (e : MarketEvent)
    : M (Sched X) (list HotRefreshEvaluation) :=
  match jobs with
  | [] => mret []
  | job :: rest =>
      let! evaluation := evaluateMarketEvent hasMetadata job e in
      let! evaluations := evaluateAll hasMetadata rest e in
      mret (evaluation :: evaluations)
  end.

Definition evaluateHotRefresh (hasMetadata : bool) (e : MarketEvent)
    : M (Sched X) (list HotRefreshEvaluation) := fun s =>
  evaluateAll hasMetadata (getHotRefreshCandidateJobs e s) e s.

(** The jobs [refreshMatchingJobs] refreshes, in order. *)
Definition matchingJobIds (evaluations : list HotRefreshEvaluation) : list string :=
  map he_jobId (List.filter he_matched evaluations).

(** ** Warming a job's current price at start-up *)

Definition tryWarmCurrentPrice (env : BidderEnv) : M (World X) bool :=
  let! job := thisJob in
  match target job with
  | TokenTarget _ =>
      mcatch
        (let! activeOffer := call (getActiveTokenOfferByMaker job (makerAddress env)) in
         match activeOffer with
         | None => mret false
         | Some offer =>
             match ord_expirationTime offer with
             | None => mret false
             | Some expirationTime =>
                 let! verified := verifiedNow in
                 do! updateState (st_order (Some (ord_id offer)) (ord_protocolAddress offer)
                       (ord_placedAt offer) verified (Some (ord_price offer))
                       (toExpirationTimeMs (Some expirationTime))) in
                 do! persistRuntimeState env None false in
                 mret true
             end
         end)
        (fun _ => mret false)
  | _ => mret false
  end.

End Schedule.
End Schedule.
