(* ===== verification/ScheduleInv.v ===== *)
(** * The invariant of the schedule

    The two token indexes and the counts always say exactly what the map of jobs
    holds; [addJob], when it does not reject the job, and [removeJob] keep it so. *)

From S2P Require Import Prelude JsValue Domain TraitCriteria BiddingService Strategy Schedule.

Open Scope Z_scope.

Module ScheduleInv.
Import TraitCriteria Strategy Schedule.

Section Inv.
Context {X : Type}.
Implicit Types (s : Sched X) (J : string -> option BidderJob).

Definition tokenKey (j : BidderJob) : option string :=
  match target j with
  | TokenTarget tokenId => Some (makeCollectionTokenKey (collectionSlug j) tokenId)
  | _ => None
  end.

Definition isTokenJob (j : BidderJob) : Prop := is_Some (tokenKey j).

Definition onSlug J (slug id : string) : Prop :=
  exists j, J id = Some j /\ isTokenJob j /\ collectionSlug j = slug.

(** The indexes [t] and [c] describe the jobs [J]. *)
Definition tokenIndex J (t : list (string * string)) : Prop :=
  forall k id, jm_get k t = Some id <-> exists j, J id = Some j /\ tokenKey j = Some k.

Definition slugIndex J (c : list (string * list string)) : Prop :=
  forall slug, match jm_get slug c with
               | Some ids => ids <> [] /\ NoDup ids /\ forall id, id ∈ ids <-> onSlug J slug id
               | None => forall id, ~ onSlug J slug id
               end.

Definition ofType (t : TargetType) (j : BidderJob) : Z :=
  countIf (bool_decide (target_type (target j) = t)).

Definition countOf (t : TargetType) (c : TargetCounts) : Z :=
  match t with TToken => n_token c | TCollection => n_collection c | TCompetitiveTrait => n_competitive c end.

Definition countsExact (jobs : list (string * BidderJob)) (c : TargetCounts) : Prop :=
  forall t, countOf t c = jm_sum (ofType t) jobs.

Record schedule_wf s : Prop := {
  wf_jobs : jm_wf (s_jobs s);
  wf_ids : forall id j, getJob id s = Some j -> job_id j = id /\ truthy id = true;
  wf_tokens : tokenIndex (fun id => getJob id s) (s_tokenJob s);
  wf_slugs : slugIndex (fun id => getJob id s) (s_tokenJobs s);
  wf_counts : countsExact (s_jobs s) (s_counts s);
}.

(** *** Sets of ids *)

Lemma addId_In id ids i : i ∈ addId id ids <-> i = id \/ i ∈ ids.
Proof.
  unfold addId. case_bool_decide; [intuition congruence|].
  rewrite elem_of_app, list_elem_of_singleton. tauto.
Qed.

Lemma addId_NoDup id ids : NoDup ids -> NoDup (addId id ids).
Proof.
  intros Hn. unfold addId. case_bool_decide; [done|]. apply NoDup_app.
  split_and!; [done| |apply NoDup_singleton]. intros x Hx ->%list_elem_of_singleton. done.
Qed.

Lemma addId_nonempty id ids : addId id ids <> [].
Proof. unfold addId. case_bool_decide as E; destruct ids; try done. by apply elem_of_nil in E. Qed.

Lemma deleteId_In id ids i : i ∈ deleteId id ids <-> i <> id /\ i ∈ ids.
Proof.
  unfold deleteId. rewrite !list_elem_of_In, filter_In, negb_true_iff, String.eqb_neq. tauto.
Qed.

Lemma deleteId_NoDup id ids : NoDup ids -> NoDup (deleteId id ids).
Proof.
  unfold deleteId. induction 1 as [|x l Hx Hl IH]; simpl; [constructor|].
  destruct (negb (String.eqb x id)); [|done]. constructor; [|done].
  rewrite list_elem_of_In, filter_In, <- list_elem_of_In. tauto.
Qed.

(** *** Views of the jobs *)

Definition without id J : string -> option BidderJob := fun i => if decide (id = i) then None else J i.

Definition with_job id j J : string -> option BidderJob := fun i => if decide (id = i) then Some j else J i.

Lemma tokenIndex_ext J J' t : (forall i, J i = J' i) -> tokenIndex J t -> tokenIndex J' t.
Proof. unfold tokenIndex. intros E H k id. rewrite H. by setoid_rewrite E. Qed.

Lemma onSlug_ext J J' slug id : (forall i, J i = J' i) -> onSlug J slug id <-> onSlug J' slug id.
Proof. intros E. unfold onSlug. by setoid_rewrite E. Qed.

Lemma slugIndex_ext J J' c : (forall i, J i = J' i) -> slugIndex J c -> slugIndex J' c.
Proof.
  intros E H slug. specialize (H slug). destruct (jm_get slug c).
  - destruct H as (H1 & H2 & H3). split_and!; try done. intros id. rewrite H3. by apply onSlug_ext.
  - intros id Hid. apply (H id). by apply (onSlug_ext _ _ _ _ E).
Qed.

(** *** Counts *)

Lemma ofType_nonneg t j : 0 <= ofType t j.
Proof. unfold ofType, countIf. case_bool_decide; lia. Qed.

Lemma adjust_count t d s : exists c, adjustJobTargetCount t d s = (Ok tt, set_counts c s) /\
  countOf t c = Z.max 0 (countOf t (s_counts s) + d) /\
  forall t', t' <> t -> countOf t' c = countOf t' (s_counts s).
Proof.
  eexists. split; [reflexivity|]. split; [by destruct t|]. intros t' Hne. by destruct t, t'.
Qed.

(** *** The indexes under removal *)

Section Remove.
Context J j (Hj : J (job_id j) = Some j).

Lemma without_onSlug slug id :
  onSlug (without (job_id j) J) slug id <-> onSlug J slug id /\ id <> job_id j.
Proof.
  unfold onSlug, without. split.
  - intros (j' & E1 & E2). case_decide; [done|]. split; [by exists j'|congruence].
  - intros [(j' & E1 & E2) E3]. exists j'. case_decide; [congruence|done].
Qed.

(** A slug the job is not on. *)
Lemma without_onSlug_other slug id : ~ (isTokenJob j /\ collectionSlug j = slug) ->
  onSlug (without (job_id j) J) slug id <-> onSlug J slug id.
Proof.
  intros Hother. rewrite without_onSlug. split; [tauto|]. intros H4. split; [done|].
  intros ->. destruct H4 as (j' & E1 & E2). rewrite Hj in E1. injection E1 as <-. by apply Hother.
Qed.

Lemma slugIndex_other c slug : ~ (isTokenJob j /\ collectionSlug j = slug) ->
  match jm_get slug c with
  | Some ids => ids <> [] /\ NoDup ids /\ forall id, id ∈ ids <-> onSlug J slug id
  | None => forall id, ~ onSlug J slug id
  end ->
  match jm_get slug c with
  | Some ids => ids <> [] /\ NoDup ids /\ forall id, id ∈ ids <-> onSlug (without (job_id j) J) slug id
  | None => forall id, ~ onSlug (without (job_id j) J) slug id
  end.
Proof.
  intros Hother. destruct (jm_get slug c) as [ids|]; by setoid_rewrite (without_onSlug_other slug).
Qed.

Lemma nontoken_without t c : tokenKey j = None -> tokenIndex J t -> slugIndex J c ->
  tokenIndex (without (job_id j) J) t /\ slugIndex (without (job_id j) J) c.
Proof.
  intros Hk Ht Hc. split.
  - intros k id. rewrite (Ht k id). unfold without. split; intros (j' & E1 & E2); exists j';
      case_decide; subst; try done. rewrite Hj in E1. congruence.
  - intros slug. apply slugIndex_other; [|apply Hc]. intros [[k Hk'] _]. congruence.
Qed.

Lemma tokenIndex_without k0 t : tokenKey j = Some k0 -> tokenIndex J t ->
  tokenIndex (without (job_id j) J)
    (if bool_decide (jm_get k0 t = Some (job_id j)) then jm_del k0 t else t).
Proof.
  intros Hk Ht. assert (jm_get k0 t = Some (job_id j)) as E0 by (apply Ht; by exists j).
  rewrite bool_decide_true by done. intros k id. rewrite jm_get_del. unfold without.
  case_decide as E1; [subst k|].
  - split; [done|]. intros (j' & E2 & E3). case_decide as E4; [done|]. exfalso.
    assert (jm_get k0 t = Some id) by (apply Ht; by exists j'). congruence.
  - rewrite (Ht k id). split; intros (j' & E2 & E3); exists j'; case_decide as E4; try done.
    subst id. congruence.
Qed.

Lemma slugIndex_without c : isTokenJob j -> slugIndex J c ->
  slugIndex (without (job_id j) J)
    match jm_get (collectionSlug j) c with
    | None => c
    | Some ids => match deleteId (job_id j) ids with
                  | [] => jm_del (collectionSlug j) c
                  | ids' => jm_set (collectionSlug j) ids' c
                  end
    end.
Proof.
  intros Htok Hc. assert (onSlug J (collectionSlug j) (job_id j)) as Hme by by exists j.
  pose proof (Hc (collectionSlug j)) as Hcj.
  destruct (jm_get (collectionSlug j) c) as [ids|] eqn:Eids; [|by destruct (Hcj _ Hme)].
  destruct Hcj as (_ & Hnd & Hin).
  assert (forall id, id ∈ deleteId (job_id j) ids <-> onSlug (without (job_id j) J) (collectionSlug j) id) as Hdel.
  { intros id. rewrite deleteId_In, without_onSlug, Hin. tauto. }
  pose proof (deleteId_NoDup (job_id j) ids Hnd) as Hnd'.
  intros slug. destruct (decide (collectionSlug j = slug)) as [<-|Hne].
  - destruct (deleteId (job_id j) ids) as [|i ids'].
    + rewrite jm_get_del_eq. intros id Hid%Hdel. by apply elem_of_nil in Hid.
    + rewrite jm_get_set_eq. by split_and!.
  - assert (jm_get slug (match deleteId (job_id j) ids with [] => jm_del (collectionSlug j) c
            | ids' => jm_set (collectionSlug j) ids' c end) = jm_get slug c) as ->
      by (destruct (deleteId _ _); [by apply jm_get_del_ne|by apply jm_get_set_ne]).
    apply slugIndex_other; [tauto|apply Hc].
Qed.

End Remove.

Lemma removeJobFromIndexes_spec j s : getJob (job_id j) s = Some j ->
  tokenIndex (fun id => getJob id s) (s_tokenJob s) ->
  slugIndex (fun id => getJob id s) (s_tokenJobs s) ->
  exists t c, removeJobFromIndexes j s = (Ok tt, set_index t c s) /\
    tokenIndex (without (job_id j) (fun id => getJob id s)) t /\
    slugIndex (without (job_id j) (fun id => getJob id s)) c.
Proof.
  intros Hj Ht Hc. unfold removeJobFromIndexes. destruct (target j) as [tokenId| |] eqn:Etarget.
  2,3: exists (s_tokenJob s), (s_tokenJobs s); (split; [by destruct s|]);
    apply nontoken_without; try done; unfold tokenKey; by rewrite Etarget.
  assert (tokenKey j = Some (makeCollectionTokenKey (collectionSlug j) tokenId)) as Ekey
    by (unfold tokenKey; by rewrite Etarget).
  eexists _, _. split; [reflexivity|]. split.
  - by apply tokenIndex_without.
  - apply slugIndex_without; try done. by eexists.
Qed.

(** *** The indexes under addition *)

Section Add.
Context J j (Hj : J (job_id j) = None).

Lemma with_onSlug slug id : onSlug (with_job (job_id j) j J) slug id <->
  onSlug J slug id \/ (id = job_id j /\ isTokenJob j /\ collectionSlug j = slug).
Proof.
  unfold onSlug, with_job. split.
  - intros (j' & E1 & E2). case_decide as Ei; [injection E1 as <-; by right|]. left. by exists j'.
  - intros [(j' & E1 & E2)|(-> & E)].
    + exists j'. case_decide as Ei; [|done]. subst id. congruence.
    + exists j. by case_decide.
Qed.

Lemma with_indexes t c : tokenKey j = None -> tokenIndex J t -> slugIndex J c ->
  tokenIndex (with_job (job_id j) j J) t /\ slugIndex (with_job (job_id j) j J) c.
Proof.
  intros Hk Ht Hc. split.
  - intros k id. rewrite (Ht k id). unfold with_job. split; intros (j' & E1 & E2); exists j';
      case_decide; subst; try done; congruence.
  - assert (forall slug id, onSlug (with_job (job_id j) j J) slug id <-> onSlug J slug id) as Hon.
    { intros slug id. rewrite with_onSlug. split; [|tauto]. intros [?|(_ & [k ?] & _)]; [done|congruence]. }
    intros slug. specialize (Hc slug). destruct (jm_get slug c); by setoid_rewrite Hon.
Qed.

Lemma tokenIndex_with k0 t : tokenKey j = Some k0 -> tokenIndex J t ->
  (forall id, jm_get k0 t = Some id -> id = job_id j) ->
  tokenIndex (with_job (job_id j) j J) (jm_set k0 (job_id j) t).
Proof.
  intros Hk Ht Hfree k id. rewrite jm_get_set. unfold with_job. case_decide as E1; [subst k|].
  - split.
    + intros [= <-]. exists j. by case_decide.
    + intros (j' & E2 & E3). case_decide as E4; [by subst|].
      assert (jm_get k0 t = Some id) as E5 by (apply Ht; by exists j'). by rewrite (Hfree _ E5).
  - rewrite (Ht k id). split; intros (j' & E2 & E3); exists j'; case_decide as E4; try done;
      subst; congruence.
Qed.

Lemma slugIndex_with c : isTokenJob j -> slugIndex J c ->
  slugIndex (with_job (job_id j) j J)
    (jm_set (collectionSlug j) (addId (job_id j) (default [] (jm_get (collectionSlug j) c))) c).
Proof.
  intros Htok Hc slug. rewrite jm_get_set. case_decide as E; [subst slug|].
  - specialize (Hc (collectionSlug j)). split_and!; [apply addId_nonempty| |].
    + apply addId_NoDup. destruct (jm_get (collectionSlug j) c) as [ids|]; [apply Hc|constructor].
    + intros id. rewrite addId_In, with_onSlug. destruct (jm_get (collectionSlug j) c) as [ids|]; simpl.
      * destruct Hc as (_ & _ & Hin). rewrite Hin. tauto.
      * specialize (Hc id). rewrite elem_of_nil. tauto.
  - specialize (Hc slug).
    assert (forall id, onSlug (with_job (job_id j) j J) slug id <-> onSlug J slug id) as Hon.
    { intros id. rewrite with_onSlug. split; [|tauto]. intros [?|(_ & _ & ?)]; [done|congruence]. }
    destruct (jm_get slug c); by setoid_rewrite Hon.
Qed.

End Add.

(** ** The operations *)

Context (localeCompare : keyItem -> keyItem -> Z).

(** The counts without the job called [id]. *)
Definition countsWithout id s (c : TargetCounts) : Prop :=
  forall t, countOf t c = jm_sum (ofType t) (s_jobs s) - of_opt (ofType t) (getJob id s).

Lemma count_self j : ofType (target_type (target j)) j = 1.
Proof. unfold ofType, countIf. by rewrite bool_decide_true. Qed.

Lemma count_other t j : t <> target_type (target j) -> ofType t j = 0.
Proof. intros Hne. unfold ofType, countIf. rewrite bool_decide_false; congruence. Qed.

Lemma sum_without id s t : jm_wf (s_jobs s) ->
  0 <= jm_sum (ofType t) (s_jobs s) - of_opt (ofType t) (getJob id s).
Proof.
  intros Hwf. unfold getJob. rewrite <- jm_sum_del by done. apply jm_sum_nonneg, ofType_nonneg.
Qed.

(** Taking the job called [id] out of indexes and counts. *)
Lemma takeOut_spec j s : schedule_wf s -> getJob (job_id j) s = Some j ->
  exists t c n,
    (do! removeJobFromIndexes j in adjustJobTargetCount (target_type (target j)) (-1))%artgod s =
      (Ok tt, set_counts n (set_index t c s)) /\
    tokenIndex (without (job_id j) (fun id => getJob id s)) t /\
    slugIndex (without (job_id j) (fun id => getJob id s)) c /\ countsWithout (job_id j) s n.
Proof.
  intros [Hwf _ Ht Hc Hn] Hj.
  destruct (removeJobFromIndexes_spec j s Hj Ht Hc) as (t & c & E & Ht' & Hc').
  destruct (adjust_count (target_type (target j)) (-1) (set_index t c s)) as (n & En & Hself & Hothers).
  exists t, c, n. unfold mbind. rewrite E, En. split_and!; try done. intros t'. rewrite Hj. simpl.
  pose proof (sum_without (job_id j) s t' Hwf) as Hpos. rewrite Hj in Hpos. simpl in Hpos.
  destruct (decide (t' = target_type (target j))) as [->|Hne].
  - rewrite Hself. simpl. rewrite (Hn _), count_self in *. lia.
  - rewrite (Hothers _ Hne), count_other by done. simpl. rewrite (Hn t'). lia.
Qed.

(** The job as [addJob] schedules it. *)
Definition mergedJob (declared : BidderJob) (overlay : StateOverlay) s : BidderJob :=
  set_state declared
    match getJob (job_id declared) s with
    | Some existing =>
        if hasSameTargetIdentity localeCompare existing declared then spreadState (state existing) overlay
        else spreadState emptyState overlay
    | None => spreadState emptyState overlay
    end.

Lemma addJob_taken j overlay s : schedule_wf s -> exists t c n,
  addJob localeCompare j overlay s =
    (do! addJobToIndexes (mergedJob j overlay s) in adjustJobTargetCount (target_type (target j)) 1)%artgod
      (set_jobs (jm_set (job_id j) (mergedJob j overlay s) (s_jobs s)) (set_counts n (set_index t c s))) /\
  tokenIndex (without (job_id j) (fun id => getJob id s)) t /\
  slugIndex (without (job_id j) (fun id => getJob id s)) c /\ countsWithout (job_id j) s n.
Proof.
  intros Hwf. unfold addJob. fold (mergedJob j overlay s).
  destruct (getJob (job_id j) s) as [old|] eqn:Eold.
  - destruct (wf_ids _ Hwf _ _ Eold) as [Eid _].
    destruct (takeOut_spec old s Hwf) as (t & c & n & E & Ht & Hc & Hn); [by rewrite Eid|].
    rewrite Eid in *. exists t, c, n. split_and!; try done.
    cbv zeta. unfold mbind at 1. rewrite E. reflexivity.
  - exists (s_tokenJob s), (s_tokenJobs s), (s_counts s).
    assert (forall i, getJob i s = without (job_id j) (fun id => getJob id s) i) as Hext.
    { intros i. unfold without. by case_decide; subst. }
    split_and!.
    + unfold mbind. by destruct s.
    + eapply tokenIndex_ext; [apply Hext|apply Hwf].
    + eapply slugIndex_ext; [apply Hext|apply Hwf].
    + intros t. rewrite Eold. simpl. rewrite (wf_counts _ Hwf t). lia.
Qed.

Lemma getJob_set i id j s : jm_get i (jm_set id j (s_jobs s)) =
  with_job id j (without id (fun i => getJob i s)) i.
Proof. unfold with_job, without. rewrite jm_get_set. by case_decide. Qed.

Lemma addIndexes_spec j s t c n s' J : s_tokenJob s = t -> s_tokenJobs s = c -> s_counts s = n ->
  J (job_id j) = None ->
  (forall id i, J id = Some i -> truthy id = true) ->
  tokenIndex J t -> slugIndex J c ->
  (do! addJobToIndexes j in adjustJobTargetCount (target_type (target j)) 1)%artgod s = (Ok tt, s') ->
  exists t' c' n', s' = set_counts n' (set_index t' c' s) /\
    tokenIndex (with_job (job_id j) j J) t' /\ slugIndex (with_job (job_id j) j J) c' /\
    forall ty, 0 <= countOf ty n -> countOf ty n' = countOf ty n + ofType ty j.
Proof.
  intros <- <- <- HJ Hids Ht Hc E.
  assert (exists t' c', addJobToIndexes j s = (Ok tt, set_index t' c' s) /\
    tokenIndex (with_job (job_id j) j J) t' /\ slugIndex (with_job (job_id j) j J) c') as
    (t' & c' & E1 & Ht' & Hc').
  { unfold mbind in E. destruct (addJobToIndexes j s) as [[[]|e] s1] eqn:E1; [|done].
    unfold addJobToIndexes in E1. destruct (target j) as [tokenId| |] eqn:Etarget.
    2,3: injection E1 as <-; exists (s_tokenJob s), (s_tokenJobs s); (split; [by destruct s|]);
      apply with_indexes; try done; unfold tokenKey; by rewrite Etarget.
    assert (tokenKey j = Some (makeCollectionTokenKey (collectionSlug j) tokenId)) as Ekey
      by (unfold tokenKey; by rewrite Etarget).
    destruct (match jm_get _ (s_tokenJob s) with Some _ => _ | None => _ end) eqn:Edup; [done|].
    injection E1 as <-. eexists _, _. split; [reflexivity|]. split.
    - apply tokenIndex_with; try done. intros id Eid. rewrite Eid in Edup.
      assert (truthy id = true) as Hid by (apply Ht in Eid as (i & Hi & _); by eapply Hids).
      rewrite Hid in Edup. simpl in Edup. by apply negb_false_iff, String.eqb_eq in Edup.
    - apply slugIndex_with; try done. by eexists. }
  destruct (adjust_count (target_type (target j)) 1 (set_index t' c' s)) as (n' & En & Hself & Hothers).
  unfold mbind in E. rewrite E1, En in E. injection E as <-. exists t', c', n'. split_and!; try done.
  intros ty Hpos. destruct (decide (ty = target_type (target j))) as [->|Hne].
  - rewrite Hself, count_self. simpl. lia.
  - rewrite (Hothers _ Hne), count_other by done. simpl. lia.
Qed.

Lemma addJob_spec j overlay s s' : schedule_wf s -> truthy (job_id j) = true ->
  addJob localeCompare j overlay s = (Ok tt, s') ->
  schedule_wf s' /\ getJob (job_id j) s' = Some (mergedJob j overlay s) /\
  (forall id, id <> job_id j -> getJob id s' = getJob id s) /\ s_ext s' = s_ext s.
Proof.
  intros Hwf Hid E. destruct (addJob_taken j overlay s Hwf) as (t & c & n & Eq & Ht & Hc & Hn).
  rewrite Eq in E. set (m := mergedJob j overlay s) in *.
  assert (job_id m = job_id j /\ target m = target j) as [Em Etm] by done. rewrite <- Etm in E.
  destruct (addIndexes_spec m (set_jobs (jm_set (job_id j) m (s_jobs s)) (set_counts n (set_index t c s))) t c n s' (without (job_id j) (fun id => getJob id s)) eq_refl eq_refl eq_refl)
    as (t' & c' & n' & -> & Ht' & Hc' & Hn'); try done.
  { rewrite Em. unfold without. by case_decide. }
  { intros id i. unfold without. case_decide; [done|]. intros Hi. by apply (wf_ids _ Hwf _ _ Hi). }
  rewrite Em in *. split_and!; [|by unfold getJob; simpl; rewrite jm_get_set_eq| |done].
  2:{ intros id Hne. unfold getJob. simpl. by apply jm_get_set_ne. }
  split; simpl.
  - apply jm_wf_set, Hwf.
  - intros id i. unfold getJob. simpl. rewrite getJob_set. unfold with_job, without.
    case_decide as Ei; [intros [= <-]; by subst|]. apply (wf_ids _ Hwf).
  - eapply tokenIndex_ext; [|exact Ht']. intros i. unfold getJob at 2. simpl. by rewrite getJob_set.
  - eapply slugIndex_ext; [|exact Hc']. intros i. unfold getJob at 2. simpl. by rewrite getJob_set.
  - intros ty. simpl. rewrite Hn'; rewrite (Hn ty); [|apply sum_without, Hwf].
    rewrite jm_sum_set. unfold getJob. lia.
Qed.

Lemma clearRuntimeOverride_eq id s : exists o t, clearRuntimeOverride id s =
  (Ok tt, set_overrides o t (s_nextActivationId s) s).
Proof.
  unfold clearRuntimeOverride, mmodify. destruct (jm_get id (s_overrides s)); [by eexists _, _|].
  exists (s_overrides s), (s_timers s). by destruct s.
Qed.

Lemma wf_overrides o t n s : schedule_wf s -> schedule_wf (set_overrides o t n s).
Proof. by intros []. Qed.

Lemma removeJob_spec id s r s' : schedule_wf s -> removeJob id s = (r, s') ->
  schedule_wf s' /\ r = Ok (getJob id s) /\ forall i, getJob i s' = without id (fun i => getJob i s) i.
Proof.
  intros Hwf. unfold removeJob. destruct (getJob id s) as [j|] eqn:Ej.
  2:{ intros [= <- <-]. split_and!; [done|done|]. intros i. unfold without. by case_decide; subst. }
  destruct (wf_ids _ Hwf _ _ Ej) as [Eid _]. unfold mbind at 1.
  destruct (clearRuntimeOverride_eq id s) as (o & tm & ->).
  destruct (takeOut_spec j (set_overrides o tm (s_nextActivationId s) s)) as (t & c & n & E & Ht & Hc & Hn);
    [by apply wf_overrides|by rewrite Eid|].
  unfold mbind, mmodify in *. destruct (removeJobFromIndexes _ _) as [[[]|e] s1] eqn:E1; [|done].
  assert (s1 = set_index t c (set_overrides o tm (s_nextActivationId s) s)) as ->.
  { revert E1. unfold removeJobFromIndexes in *. destruct (target j); intros [= <-];
      unfold adjustJobTargetCount, mmodify in E; injection E; intros; by subst. }
  rewrite Eid in *. cbv beta in E. unfold adjustJobTargetCount, mmodify in *. injection E as En.
  intros [= <- <-]. split_and!; [|done|].
  2:{ intros i. unfold getJob. simpl. rewrite jm_get_del. by unfold without. }
  assert (forall i, without id (fun i => getJob i s) i = jm_get i (jm_del id (s_jobs s))) as Hext
    by (intros i; unfold without, getJob; by rewrite jm_get_del).
  split; simpl.
  - apply jm_wf_del, Hwf.
  - intros i k. unfold getJob. simpl. rewrite <- Hext. unfold without. case_decide; [done|].
    apply (wf_ids _ Hwf).
  - eapply tokenIndex_ext; [exact Hext|exact Ht].
  - eapply slugIndex_ext; [exact Hext|exact Hc].
  - intros ty. rewrite jm_sum_del by apply Hwf. rewrite En. apply (Hn ty).
Qed.

Lemma initialSchedule_wf balance (x : X) : schedule_wf (initialSchedule balance x).
Proof.
  split; simpl; try done.
  - apply jm_wf_nil.
  - intros k id. split; [done|]. by intros (j & E & _).
  - intros slug id (j & E & _). done.
  - by intros [].
Qed.


End Inv.
End ScheduleInv.
