(* ===== verification/ScheduleClaims.v ===== *)
(** * What the schedule guarantees

    The claims about the schedule of jobs: its indexes and counts are exact in
    every state it reaches, and a market event refreshes exactly the jobs that can
    react to it. *)

From S2P Require Import Prelude JsValue Domain TraitCriteria OfferPrice BiddingService Strategy.
From S2P Require Import Schedule ScheduleInv.

Open Scope Z_scope.

Module ScheduleClaims.
Import TraitCriteria Strategy Schedule ScheduleInv.

Section Claims.
Context {X : Type} `{BiddingService X} `{RuntimeStatePort X} `{MarketReads X}.
Context (localeCompare : keyItem -> keyItem -> Z) (numberText : jsnum -> string).
Implicit Types s : Sched X.

(** Replaces the state of a scheduled job, as a refresh does in place. *)
Definition refreshed (id : string) (st : BidderState) s : Sched X :=
  match getJob id s with
  | Some j => set_jobs (jm_set id (set_state j st) (s_jobs s)) s
  | None => s
  end.

(** The states the schedule reaches: every operation of it, in any order. *)
Inductive scheduled : Sched X -> Prop :=
  | scheduled_initial balance x : scheduled (initialSchedule balance x)
  | scheduled_add s j overlay s' : scheduled s -> truthy (job_id j) = true ->
      addJob localeCompare j overlay s = (Ok tt, s') -> scheduled s'
  | scheduled_remove s id r s' : scheduled s -> removeJob id s = (r, s') -> scheduled s'
  | scheduled_activate s id options r s' : scheduled s ->
      activateJob numberText id options s = (r, s') -> scheduled s'
  | scheduled_timer s id activation r s' : scheduled s ->
      overrideTimerFires id activation s = (r, s') -> scheduled s'
  | scheduled_close s r s' : scheduled s -> closeAdmission s = (r, s') -> scheduled s'
  | scheduled_balance s b maker r s' : scheduled s ->
      refreshCachedMakerWethBalance b maker s = (r, s') -> scheduled s'
  | scheduled_event s b e r s' : scheduled s -> evaluateHotRefresh b e s = (r, s') -> scheduled s'
  | scheduled_refresh s id st : scheduled s -> scheduled (refreshed id st s).

(** What no operation but [addJob] and [removeJob] touches. *)
Definition sameJobs s s' : Prop :=
  s_jobs s' = s_jobs s /\ s_tokenJob s' = s_tokenJob s /\ s_tokenJobs s' = s_tokenJobs s /\
  s_counts s' = s_counts s.

#[global] Instance sameJobs_preorder : PreOrder sameJobs.
Proof.
  split; [done|]. intros s1 s2 s3 (F1 & F2 & F3 & F4) (G1 & G2 & G3 & G4).
  unfold sameJobs. split_and!; congruence.
Qed.

Lemma sameJobs_wf s s' : sameJobs s s' -> schedule_wf s -> schedule_wf s'.
Proof.
  intros (Ej & Et & Ec & En) [W1 W2 W3 W4 W5]. split; unfold getJob in *; by rewrite ?Ej, ?Et, ?Ec, ?En.
Qed.

Definition keepsJobs {A} (m : M (Sched X) A) : Prop := forall s r s', m s = (r, s') -> sameJobs s s'.

Lemma keepsJobs_bind {A B} (m : M (Sched X) A) (k : A -> M (Sched X) B) :
  keepsJobs m -> (forall a, keepsJobs (k a)) -> keepsJobs (mbind m k).
Proof.
  intros Hm Hk s r s'. unfold mbind. destruct (m s) as [[a|e] s1] eqn:E.
  - intros E2. transitivity s1; [by eapply Hm|by eapply Hk].
  - intros [= <- <-]. by eapply Hm.
Qed.

Lemma keepsJobs_ret {A} (a : A) : keepsJobs (mret a).
Proof. by intros s r s' [= <- <-]. Qed.

Lemma keepsJobs_clear id : keepsJobs (clearRuntimeOverride id).
Proof.
  intros s r s'. destruct (clearRuntimeOverride_eq id s) as (o & t & ->). by intros [= <- <-].
Qed.

Lemma keepsJobs_getOverride id : keepsJobs (Schedule.getRuntimeOverride id).
Proof.
  intros s r s'. unfold Schedule.getRuntimeOverride.
  destruct (jm_get id (s_overrides s)) as [o|]; [|by intros [= <- <-]].
  destruct (ro_expiresAt o <=? dateNowS s); [|by intros [= <- <-]].
  apply keepsJobs_bind; [apply keepsJobs_clear|]. intros []. apply keepsJobs_ret.
Qed.

Lemma keepsJobs_traits b slug token criteria : keepsJobs (matchesTraitCriteria b slug token criteria).
Proof.
  unfold matchesTraitCriteria. destruct criteria; [apply keepsJobs_ret|].
  destruct (negb b); [apply keepsJobs_ret|]. apply keepsJobs_bind; [|intros; apply keepsJobs_ret].
  intros s r s'. unfold callExt. destruct (getTraits _ _ _). by intros [= <- <-].
Qed.

Lemma keepsJobs_event b e : keepsJobs (evaluateHotRefresh b e).
Proof.
  intros s. unfold evaluateHotRefresh. generalize (getHotRefreshCandidateJobs e s). revert s.
  intros s jobs r s'. revert s r s'. change (keepsJobs (evaluateAll b jobs e)).
  induction jobs as [|job jobs IH]; [apply keepsJobs_ret|]. cbn [evaluateAll].
  apply keepsJobs_bind; [|intros; apply keepsJobs_bind; [done|intros; apply keepsJobs_ret]].
  unfold evaluateMarketEvent. destruct (target job); try apply keepsJobs_ret.
  destruct (negb _); [apply keepsJobs_ret|]. apply keepsJobs_bind.
  - unfold evaluateCurrentPriceGate. destruct (currentPrice _); [|apply keepsJobs_ret].
    apply keepsJobs_bind; [apply keepsJobs_getOverride|]. intros o. apply keepsJobs_bind.
    + by intros s r s' [= <- <-].
    + intros c. apply keepsJobs_ret.
  - intros check. cbv zeta. destruct (negb (cc_shouldReact check)); [apply keepsJobs_ret|].
    destruct (ev_scope e); try apply keepsJobs_ret.
    + destruct (negb _); [apply keepsJobs_ret|]. destruct (negb _); apply keepsJobs_ret.
    + apply keepsJobs_bind; [apply keepsJobs_traits|]. intros m. destruct (negb m); apply keepsJobs_ret.
Qed.

Lemma keepsJobs_activate id options : keepsJobs (activateJob numberText id options).
Proof.
  intros s r s'. unfold activateJob. destruct (negb _); [by intros [= <- <-]|].
  destruct (getJob id s); [|by intros [= <- <-]]. destruct (_ || _); [by intros [= <- <-]|].
  destruct (_ <? _); [by intros [= <- <-]|]. revert s r s'.
  change (keepsJobs (do! clearRuntimeOverride id in do! mmodify (fun s =>
    set_overrides (jm_set id {| ro_activationId := s_nextActivationId s; ro_floor := ao_floor options;
      ro_ceiling := ao_ceiling options; ro_expiresAt := dateNowS s + ceilNum (ao_ttlMs options) |} (s_overrides s))
      (s_timers s ++ [(id, s_nextActivationId s)]) (s_nextActivationId s + 1) s) in mret true)%artgod).
  apply keepsJobs_bind; [apply keepsJobs_clear|intros _].
  apply keepsJobs_bind; [by intros s r s' [= <- <-]|intros _; apply keepsJobs_ret].
Qed.

Lemma refreshed_wf id st s : schedule_wf s -> schedule_wf (refreshed id st s).
Proof.
  intros Hwf. unfold refreshed. destruct (getJob id s) as [j|] eqn:Ej; [|done].
  set (j' := set_state j st).
  assert (forall i k, getJob i (set_jobs (jm_set id j' (s_jobs s)) s) = Some k ->
    exists k0, getJob i s = Some k0 /\ job_id k = job_id k0 /\ tokenKey k = tokenKey k0 /\
               collectionSlug k = collectionSlug k0) as Hto.
  { intros i k. unfold getJob. simpl. rewrite jm_get_set. case_decide as E; [|by exists k].
    intros [= <-]. subst i. by exists j. }
  assert (forall i k0, getJob i s = Some k0 -> exists k,
    getJob i (set_jobs (jm_set id j' (s_jobs s)) s) = Some k /\ tokenKey k = tokenKey k0 /\
    collectionSlug k = collectionSlug k0) as Hfrom.
  { intros i k0 Hk. unfold getJob. simpl. rewrite jm_get_set. case_decide as E; [|by exists k0].
    subst i. exists j'. split; [done|]. rewrite Ej in Hk. by injection Hk as <-. }
  destruct Hwf as [W1 W2 W3 W4 W5]. split; simpl.
  - by apply jm_wf_set.
  - intros i k Hk. destruct (Hto i k Hk) as (k0 & Hk0 & -> & _). by apply W2.
  - intros key i. rewrite (W3 key i). split; intros (k & Hk & E).
    + destruct (Hfrom i k Hk) as (k' & Hk' & Ek & _). exists k'. by rewrite Ek.
    + destruct (Hto i k Hk) as (k0 & Hk0 & _ & Ek & _). exists k0. by rewrite <- Ek.
  - assert (forall slug i, onSlug (fun i => getJob i (set_jobs (jm_set id j' (s_jobs s)) s)) slug i <->
      onSlug (fun i => getJob i s) slug i) as Hon.
    { intros slug i. split; intros (k & Hk & E1 & E2).
      - destruct (Hto i k Hk) as (k0 & Hk0 & _ & Ek & Es). exists k0. unfold isTokenJob in *.
        by rewrite <- Ek, <- Es.
      - destruct (Hfrom i k Hk) as (k0 & Hk0 & Ek & Es). exists k0. unfold isTokenJob in *.
        by rewrite Ek, Es. }
    intros slug. specialize (W4 slug). destruct (jm_get slug _); by setoid_rewrite Hon.
  - intros ty. rewrite (W5 ty), jm_sum_set. unfold getJob in Ej. rewrite Ej. simpl.
    change (ofType ty j') with (ofType ty j). lia.
Qed.

Lemma scheduled_wf s : scheduled s -> schedule_wf s.
Proof.
  induction 1 as [b x|s j ov s' _ IH Hid E|s id r s' _ IH E|s id o r s' _ IH E|s id a r s' _ IH E
    |s r s' _ IH E|s b m r s' _ IH E|s b e r s' _ IH E|s id st _ IH].
  - apply initialSchedule_wf.
  - by apply (addJob_spec localeCompare j ov s s').
  - by apply (removeJob_spec id s r s').
  - by eapply sameJobs_wf; [eapply keepsJobs_activate|].
  - eapply sameJobs_wf, IH. unfold overrideTimerFires in E.
    destruct (jm_get _ _) as [c|]; [destruct (_ =? _)|]; try by injection E as <- <-.
    revert E. unfold mbind. destruct (clearRuntimeOverride_eq id (set_overrides (s_overrides s)
      (List.filter (fun t => negb (String.eqb (fst t) id && (snd t =? a))) (s_timers s))
      (s_nextActivationId s) s)) as (o & t & ->). by intros [= <- <-].
  - injection E as <- <-. by apply (sameJobs_wf s).
  - eapply sameJobs_wf, IH. unfold refreshCachedMakerWethBalance in E. destruct (negb b).
    + by injection E as <- <-.
    + destruct (getWethBalance _ _) as [[?|?] x]; by injection E as <- <-.
  - by eapply sameJobs_wf; [eapply keepsJobs_event|].
  - by apply refreshed_wf.
Qed.

(** The schedule's indexes are exact.  After any sequence of operations in
    which no [addJob] rejects its job, the index by collection and token maps a
    key to a job exactly when that job is scheduled with that key, the index by
    collection lists without repetition exactly the token jobs of the collection,
    and the counts by target are the numbers of scheduled jobs. *)
Theorem schedule_indexes_exact s (Hreach : scheduled s) :
  (forall key id, jm_get key (s_tokenJob s) = Some id <->
     exists j tokenId, getJob id s = Some j /\ target j = TokenTarget tokenId /\
       makeCollectionTokenKey (collectionSlug j) tokenId = key) /\
  (forall slug, NoDup (default [] (jm_get slug (s_tokenJobs s))) /\
     forall id, id ∈ default [] (jm_get slug (s_tokenJobs s)) <->
       exists j tokenId, getJob id s = Some j /\ target j = TokenTarget tokenId /\ collectionSlug j = slug) /\
  forall t, countOf t (s_counts s) =
    Z.of_nat (length (List.filter (fun e => bool_decide (target_type (target (snd e)) = t)) (s_jobs s))).
Proof.
  destruct (scheduled_wf s Hreach) as [W1 W2 W3 W4 W5].
  assert (forall j k, tokenKey j = Some k <-> exists tokenId, target j = TokenTarget tokenId /\
    makeCollectionTokenKey (collectionSlug j) tokenId = k) as Hkey.
  { intros j k. unfold tokenKey. destruct (target j) as [t| |]; split.
    - intros [= <-]. by exists t.
    - by intros (t' & [= <-] & ->).
    - done.
    - by intros (? & ? & _).
    - done.
    - by intros (? & ? & _). }
  split_and!.
  - intros key id. rewrite (W3 key id). setoid_rewrite Hkey. split.
    + intros (j & E & t & E1 & E2). by exists j, t.
    + intros (j & t & E & E1 & E2). exists j. split; [done|]. by exists t.
  - assert (forall slug id, onSlug (fun id => getJob id s) slug id <->
      exists j tokenId, getJob id s = Some j /\ target j = TokenTarget tokenId /\ collectionSlug j = slug) as Hon.
    { intros slug id. split.
      - intros (j & E & (k & Ek) & E3). apply Hkey in Ek as (t & E1 & _). by exists j, t.
      - intros (j & t & E & E1 & E3). exists j. split_and!; try done.
        exists (makeCollectionTokenKey (collectionSlug j) t). apply Hkey. by exists t. }
    intros slug. specialize (W4 slug). destruct (jm_get slug (s_tokenJobs s)) as [ids|]; simpl.
    + destruct W4 as (_ & Hn & Hin). split; [done|]. intros id. by rewrite Hin, Hon.
    + split; [constructor|]. intros id. rewrite elem_of_nil, <- Hon. specialize (W4 id). tauto.
  - intros t. rewrite (W5 t). clear. induction (s_jobs s) as [|[k j] l IH]; [done|]. simpl. unfold ofType at 1.
    rewrite IH. destruct (bool_decide _); simpl; lia.
Qed.

(** ** Hot refresh *)

Section HotRefresh.
Context (hasMetadata : bool) (traits : string -> string -> list TraitTarget).
Context (Htraits : forall slug token (x : X), getTraits slug token x = (Ok (traits slug token), x)).

(** The override of a job that still holds. *)
Definition overrideOf s (id : string) : option RuntimeJobOverride :=
  match jm_get id (s_overrides s) with
  | Some o => if ro_expiresAt o <=? dateNowS s then None else Some o
  | None => None
  end.

(** The job can react to the event: it is a token job of the event's collection
    whose current bid the event's price reaches without reaching what the job can
    spend, and the event concerns its token. *)
Definition reacts s (e : MarketEvent) (job : BidderJob) : Prop :=
  exists tokenId price limit,
    target job = TokenTarget tokenId /\ collectionSlug job = ev_collectionSlug e /\
    currentPrice (state job) = Some price /\
    getEffectiveCeiling (X := X) (s_balance s)
      match overrideOf s (job_id job) with Some r => ro_ceiling r | None => ceiling (config job) end
      match overrideOf s (job_id job) with Some r => ro_floor r | None => floor (config job) end = Ok limit /\
    price <= getUnitPrice e < limit /\
    match ev_scope e with
    | ScopeItem => hasExplicitTokenId e = true /\ tokenId = ev_itemId e
    | ScopeCollection => True
    | ScopeTrait => ev_traitCriteria e <> [] /\ hasMetadata = true /\
        traits (collectionSlug job) tokenId <> [] /\
        biddingTraitsMatchToken (ev_traitCriteria e) (traits (collectionSlug job) tokenId) = true
    | ScopeUnknown => False
    end.

(** Nothing an evaluation reads changes. *)
Definition sameView s s' : Prop :=
  sameJobs s s' /\ s_balance s' = s_balance s /\ s_ext s' = s_ext s /\
  forall id, overrideOf s' id = overrideOf s id.

#[local] Instance sameView_preorder : PreOrder sameView.
Proof.
  split; [done|]. intros s1 s2 s3 (F1 & F2 & F3 & F4) (G1 & G2 & G3 & G4).
  split; [by transitivity s2|]. split_and!; [congruence..|]. intros id. by rewrite G4.
Qed.

Lemma getOverride_view id s : exists s', Schedule.getRuntimeOverride id s = (Ok (overrideOf s id), s') /\
  sameView s s'.
Proof.
  unfold Schedule.getRuntimeOverride, overrideOf.
  destruct (jm_get id (s_overrides s)) as [o|] eqn:Eo; [|by exists s].
  destruct (ro_expiresAt o <=? dateNowS s) eqn:Ex; [|by exists s].
  unfold mbind, clearRuntimeOverride, mmodify. rewrite Eo. eexists. split; [reflexivity|].
  split_and!; try done. intros i. unfold overrideOf. simpl. rewrite jm_get_del.
  case_decide; [subst i|done]. rewrite Eo. change (dateNowS _) with (dateNowS s) at 1. by rewrite Ex.
Qed.

Lemma gate_view job e s check s' : evaluateCurrentPriceGate job e s = (Ok check, s') ->
  sameView s s' /\ (cc_shouldReact check = true <-> exists price limit,
    currentPrice (state job) = Some price /\
    getEffectiveCeiling (X := X) (s_balance s)
      match overrideOf s (job_id job) with Some r => ro_ceiling r | None => ceiling (config job) end
      match overrideOf s (job_id job) with Some r => ro_floor r | None => floor (config job) end = Ok limit /\
    price <= getUnitPrice e < limit).
Proof.
  unfold evaluateCurrentPriceGate. destruct (currentPrice (state job)) as [price|].
  2:{ intros [= <- <-]. split; [done|]. simpl. split; [done|]. by intros (? & ? & ? & _). }
  unfold mbind at 1. destruct (getOverride_view (job_id job) s) as (s1 & -> & Hv).
  unfold mbind. replace (s_balance s1) with (s_balance s) by (symmetry; apply Hv).
  destruct (getEffectiveCeiling _ _ _) as [limit|err]; [|done]. intros [= <- <-].
  split; [done|]. split.
  - destruct (Z.leb_spec limit (getUnitPrice e)); [done|].
    destruct (Z.ltb_spec (getUnitPrice e) price); [done|]. intros _. by exists price, limit.
  - intros (p & l & [= <-] & [= <-] & Hp). destruct (Z.leb_spec limit (getUnitPrice e)); [lia|].
    destruct (Z.ltb_spec (getUnitPrice e) price); [lia|done].
Qed.

Lemma traits_view slug token criteria s m s' :
  matchesTraitCriteria hasMetadata slug token criteria s = (Ok m, s') -> sameView s s' /\
  (m = true <-> criteria <> [] /\ hasMetadata = true /\ traits slug token <> [] /\
     biddingTraitsMatchToken criteria (traits slug token) = true).
Proof.
  unfold matchesTraitCriteria. destruct criteria as [|c l].
  { intros [= <- <-]. by split; [|split; [|intros (? & _)]]. }
  destruct hasMetadata; simpl.
  2:{ intros [= <- <-]. by split; [|split; [|intros (_ & ? & _)]]. }
  unfold mbind, callExt. rewrite Htraits. intros [= <- <-].
  split; [by destruct s|]. destruct (traits slug token) as [|t ts];
    [|split; [intros ?; by split_and!|tauto]].
  split; [done|]. tauto.
Qed.

Lemma evaluate_view job e s v s' : evaluateMarketEvent hasMetadata job e s = (Ok v, s') ->
  sameView s s' /\ he_jobId v = job_id job /\ (he_matched v = true <-> reacts s e job).
Proof.
  assert (forall P : Prop, ~ P -> (false = true <-> P)) as Hno by (by intros P HP; split).
  unfold evaluateMarketEvent, reacts. destruct (target job) as [tokenId| |].
  2,3: intros [= <- <-]; split_and!; try done; apply Hno; by intros (? & ? & ? & ? & _).
  destruct (String.eqb_spec (collectionSlug job) (ev_collectionSlug e)) as [Es|Es]; cbn [negb].
  2:{ intros [= <- <-]. split_and!; try done. apply Hno. by intros (? & ? & ? & _ & ? & _). }
  unfold mbind at 1. cbv zeta.
  destruct (evaluateCurrentPriceGate job e s) as [[check|err] s1] eqn:Eg; [|done].
  destruct (gate_view _ _ _ _ _ Eg) as [Hv Hg].
  destruct (cc_shouldReact check); cbn [negb].
  2:{ intros [= <- <-]. split_and!; try done. apply Hno.
      intros (t & p & l & _ & _ & Hp & Hl & Hpl & _). assert (false = true) as [=]. apply Hg. by exists p, l. }
  destruct (proj1 Hg eq_refl) as (price & limit & Hp & Hl & Hpl).
  assert (forall b P, (b = true <-> P tokenId) -> (b = true <-> exists t p l,
    TokenTarget tokenId = TokenTarget t /\ collectionSlug job = ev_collectionSlug e /\
    currentPrice (state job) = Some p /\
    getEffectiveCeiling (X := X) (s_balance s)
      match overrideOf s (job_id job) with Some r => ro_ceiling r | None => ceiling (config job) end
      match overrideOf s (job_id job) with Some r => ro_floor r | None => floor (config job) end = Ok l /\
    p <= getUnitPrice e < l /\ P t)) as Hyes.
  { intros b P HP. rewrite HP. split; [|by intros (t & p & l & [= <-] & _ & _ & _ & _ & ?)].
    intros HPt. by exists tokenId, price, limit. }
  destruct (ev_scope e).
  - intros [= <- <-]. split_and!; try done. by apply (Hyes true (fun _ => True)).
  - destruct (hasExplicitTokenId e); cbn [negb].
    + destruct (String.eqb_spec tokenId (ev_itemId e)) as [Et|Et]; intros [= <- <-]; split_and!; try done;
        (apply (Hyes _ (fun t => true = true /\ t = ev_itemId e)); by split; [|intros [_ ?]]).
    + intros [= <- <-]. split_and!; try done. apply (Hyes _ (fun t => false = true /\ t = ev_itemId e)).
      split; [done|by intros [? _]].
  - unfold mbind. destruct (matchesTraitCriteria _ _ _ _ s1) as [[m|err] s2] eqn:Em; [|done].
    destruct (traits_view _ _ _ _ _ _ Em) as [Hv2 Hm].
    destruct m; intros [= <- <-]; (split; [by transitivity s1|]); (split; [done|]);
      apply (Hyes _ (fun t => ev_traitCriteria e <> [] /\ hasMetadata = true /\
        traits (collectionSlug job) t <> [] /\
        biddingTraitsMatchToken (ev_traitCriteria e) (traits (collectionSlug job) t) = true)), Hm.
  - intros [= <- <-]. split_and!; try done. by apply (Hyes false (fun _ => False)).
Qed.

Lemma reacts_view s s' e job : sameView s s' -> reacts s' e job <-> reacts s e job.
Proof.
  intros (_ & Hb & _ & Ho). unfold reacts. by rewrite Hb, Ho.
Qed.

Lemma evaluateAll_view jobs e s evs s' : evaluateAll hasMetadata jobs e s = (Ok evs, s') ->
  forall id, In id (matchingJobIds evs) <-> exists job, In job jobs /\ job_id job = id /\ reacts s e job.
Proof.
  revert s evs. induction jobs as [|job jobs IH]; intros s evs; cbn [evaluateAll].
  { intros [= <- <-] id. split; [done|]. by intros (? & ? & _). }
  unfold mbind. destruct (evaluateMarketEvent _ job e s) as [[v|err] s1] eqn:E1; [|done].
  destruct (evaluateAll _ jobs e s1) as [[l|err] s2] eqn:E2; [|done]. intros [= <- <-] id.
  destruct (evaluate_view _ _ _ _ _ E1) as (Hv & Hid & Hm). specialize (IH _ _ E2 id).
  unfold matchingJobIds in *. simpl.
  assert ((exists job', (job = job' \/ In job' jobs) /\ job_id job' = id /\ reacts s e job') <->
    (job_id job = id /\ reacts s e job) \/ exists job', In job' jobs /\ job_id job' = id /\ reacts s1 e job') as ->.
  { setoid_rewrite (reacts_view s s1 e _ Hv). split.
    - intros (j & [<-|Hj] & Hr); [by left|]. right. by exists j.
    - intros [Hr|(j & Hj & Hr)]; [exists job; tauto|]. exists j. tauto. }
  rewrite <- IH, <- Hm, <- Hid. destruct (he_matched v); simpl; intuition congruence.
Qed.

(** The candidates are the token jobs the event concerns. *)
Lemma candidates_complete s e id job : schedule_wf s -> getJob id s = Some job -> reacts s e job ->
  In job (getHotRefreshCandidateJobs e s).
Proof.
  intros [W1 W2 W3 W4 W5] Hj (tokenId & price & limit & Ht & Hs & _ & _ & _ & Hscope).
  unfold getHotRefreshCandidateJobs.
  assert (forall slug, onSlug (fun id => getJob id s) slug id <-> collectionSlug job = slug) as Hon.
  { intros slug. unfold onSlug. split; [intros (j & E & _ & <-); congruence|]. intros <-. exists job.
    split_and!; try done. unfold isTokenJob, tokenKey. rewrite Ht. by eexists. }
  assert (In job match jm_get (ev_collectionSlug e) (s_tokenJobs s) with
    | None => [] | Some jobIds => omap (fun jobId => getJob jobId s) jobIds end) as Hcoll.
  { specialize (W4 (ev_collectionSlug e)). destruct (jm_get _ (s_tokenJobs s)) as [ids|].
    - destruct W4 as (_ & _ & Hin). apply list_elem_of_In, list_elem_of_omap. exists id.
      split; [|done]. by apply Hin, Hon.
    - exfalso. by apply (W4 id), Hon. }
  destruct (ev_scope e); try done. destruct Hscope as [-> ->]. cbn [negb].
  assert (jm_get (makeCollectionTokenKey (ev_collectionSlug e) (ev_itemId e)) (s_tokenJob s) = Some id) as ->.
  { apply W3. exists job. split; [done|]. unfold tokenKey. by rewrite Ht, Hs. }
  destruct (W2 _ _ Hj) as [_ ->]. rewrite Hj. by left.
Qed.

Lemma candidates_sound s e job : schedule_wf s -> In job (getHotRefreshCandidateJobs e s) ->
  getJob (job_id job) s = Some job.
Proof.
  intros [_ W2 _ _ _]. assert (forall id, getJob id s = Some job -> getJob (job_id job) s = Some job) as Hid.
  { intros id Hj. by destruct (W2 _ _ Hj) as [-> _]. }
  unfold getHotRefreshCandidateJobs. destruct (ev_scope e); [| | |done].
  1,3: destruct (jm_get _ _) as [ids|]; [|done]; intros Hin; apply list_elem_of_In, list_elem_of_omap in Hin
    as (id & _ & Hj); by eapply Hid.
  destruct (negb _); [done|]. destruct (jm_get _ _) as [id|]; [|done].
  destruct (negb _); [done|]. destruct (getJob id s) eqn:Ej; [|done]. intros [->|[]]. by eapply Hid.
Qed.

(** A market event refreshes exactly the jobs that can react to it.  In every
    state the schedule reaches, the jobs an event's evaluation matches are the
    scheduled token jobs of its collection that it concerns (its token, its traits
    or the whole collection) and whose current bid its unit price reaches while
    staying below the ceiling in force, rounded and capped by the balance. *)
Theorem hot_refresh_targets s e evs s' (Hreach : scheduled s)
    (Hrun : evaluateHotRefresh hasMetadata e s = (Ok evs, s')) :
  forall id, In id (matchingJobIds evs) <-> exists job, getJob id s = Some job /\ reacts s e job.
Proof.
  pose proof (scheduled_wf s Hreach) as Hwf. intros id.
  rewrite (evaluateAll_view _ _ _ _ _ Hrun id). split.
  - intros (job & Hin & <- & Hr). exists job. split; [by eapply candidates_sound|done].
  - intros (job & Hj & Hr). exists job. split_and!; [by eapply candidates_complete| |done].
    by apply (wf_ids _ Hwf).
Qed.

End HotRefresh.

(** A rejected duplicate stays scheduled.  When [addJob] throws because another
    job already bids for the token, the rejected job is nevertheless in the map of
    jobs, beside the other one, so the next scan executes both; and neither index
    lists it, so no market event refreshes it. *)
Theorem rejected_duplicate_stays_scheduled s j overlay e s' (Hreach : scheduled s)
    (Hrun : addJob localeCompare j overlay s = (Err e, s')) :
  (exists job, getJob (job_id j) s' = Some job /\ target job = target j /\ config job = config j) /\
  (exists other otherJob, other <> job_id j /\ getJob other s' = Some otherJob /\
     tokenKey otherJob = tokenKey j /\ isTokenJob j) /\
  (forall key, jm_get key (s_tokenJob s') <> Some (job_id j)) /\
  (forall slug, job_id j ∉ default [] (jm_get slug (s_tokenJobs s'))).
Proof.
  pose proof (scheduled_wf s Hreach) as Hwf.
  destruct (addJob_taken localeCompare j overlay s Hwf) as (t & c & n & Eq & Ht & Hc & Hn).
  rewrite Eq in Hrun. clear Eq. set (m := mergedJob localeCompare j overlay s) in *.
  unfold mbind, addJobToIndexes in Hrun. change (target m) with (target j) in Hrun.
  destruct (target j) as [tokenId| |] eqn:Etarget; try done.
  change (collectionSlug m) with (collectionSlug j) in Hrun. change (job_id m) with (job_id j) in Hrun.
  simpl s_tokenJob in Hrun. set (key := makeCollectionTokenKey (collectionSlug j) tokenId) in *.
  destruct (jm_get key t) as [other|] eqn:Ekey; [|done].
  destruct (truthy other && negb (String.eqb other (job_id j))) eqn:Edup; [|done].
  injection Hrun as _ <-. apply andb_true_iff in Edup as [_ Hne].
  apply negb_true_iff, String.eqb_neq in Hne. split_and!.
  - exists m. unfold getJob. simpl. rewrite jm_get_set_eq. by split_and!.
  - pose proof Ekey as Hk. apply (Ht key other) in Hk as (o & Ho & Hok). unfold without in Ho.
    case_decide as Ei; [done|]. exists other, o. split; [done|]. split.
    + unfold getJob. simpl. by rewrite jm_get_set_ne.
    + assert (tokenKey j = Some key) as Ek by (unfold tokenKey; by rewrite Etarget).
      split; [by rewrite Ek|]. by eexists.
  - intros k E. apply (Ht k (job_id j)) in E as (o & Ho & _). unfold without in Ho. by case_decide.
  - intros slug Hin. simpl in Hin. specialize (Hc slug). destruct (jm_get slug c) as [ids|]; simpl in Hin.
    + apply Hc in Hin as (o & Ho & _). unfold without in Ho. by case_decide.
    + by apply elem_of_nil in Hin.
Qed.

End Claims.

(** ** A small schedule *)

Record Reads := { rd_clock : Z }.

#[local] Instance readsService : BiddingService Reads := {|
  roundOfferPriceDown := OfferPrice.roundOpenSeaOfferPriceDown;
  roundOfferPriceUp := OfferPrice.roundOpenSeaOfferPriceUp;
  getActiveOffers _ _ x := (Ok [], x);
  getOrder _ _ _ _ _ _ x := (Ok RecoveryInactiveOrMissing, x);
  placeOffer _ _ _ x := (Err "closed", x);
  cancelOffer _ _ _ x := (Err "closed", x);
|}.

#[local] Instance readsState : RuntimeStatePort Reads := {|
  persistJobRuntimeState _ x := (Ok tt, x);
  recordJobOfferCancellation _ x := (Ok tt, x);
  dateNow := rd_clock;
|}.

Definition sampleTraits (slug token : string) : list TraitTarget :=
  if String.eqb token "7" then [{| tt_type := "Hat"; tt_value := "Red" |}] else [].

#[local] Instance readsMarket : MarketReads Reads := {|
  getTraits slug token x := (Ok (sampleTraits slug token), x);
  getWethBalance _ x := (Err "offline", x);
  getActiveTokenOfferByMaker _ _ x := (Ok None, x);
|}.

Definition tokenJob (id token : string) : BidderJob := {|
  job_id := id; revision := 1; collectionId := 1; collectionAddress := "0xc"; collectionSlug := "slug";
  target := TokenTarget token;
  config := {| ceiling := 1000000000000000000; floor := 100000000000000000; delta := 1000000000000000;
               extraCompetitionTraits := None |};
  state := emptyState |}.

Definition bidAt (price : Z) : StateOverlay := {|
  ov_lastRun := None; ov_activeOrderId := None; ov_activeProtocolAddress := None;
  ov_activeOrderPlacedAt := None; ov_activeOrderVerifiedAt := None; ov_currentPrice := Some (Some price);
  ov_activeExpirationTimeMs := None; ov_bidPosition := None; ov_bidConstraints := None;
  ov_competitorPrice := None |}.

Definition noCollation : keyItem -> keyItem -> Z := fun _ _ => 0.

Definition schedule1 : Sched Reads :=
  snd (addJob noCollation (tokenJob "a" "7") (bidAt 200000000000000000) (initialSchedule None {| rd_clock := 5 |})).

Definition schedule2 : Sched Reads :=
  snd (addJob noCollation (tokenJob "b" "8") (bidAt 200000000000000000) schedule1).

Definition traitEvent : MarketEvent := {|
  ev_type := TraitOffer; ev_collectionSlug := "slug"; ev_itemId := ""; ev_maker := "0x1"; ev_quantity := 1;
  ev_scope := ScopeTrait; ev_traitCriteria := [ExactTrait "Hat" "Red"]; ev_totalPrice := 300000000000000000 |}.

Lemma scheduled2 : scheduled noCollation (fun _ => ""%string) schedule2.
Proof.
  apply (scheduled_add noCollation (fun _ => ""%string) schedule1 (tokenJob "b" "8") (bidAt 200000000000000000));
    [|by vm_compute|by vm_compute].
  apply (scheduled_add noCollation (fun _ => ""%string) (initialSchedule None {| rd_clock := 5 |})
    (tokenJob "a" "7") (bidAt 200000000000000000)); [constructor|by vm_compute|by vm_compute].
Qed.

Lemma schedule_indexes_exact_witness :
  countOf TToken (s_counts schedule2) = 2 /\
  countOf TToken (s_counts schedule2) = Z.of_nat (length
    (List.filter (fun e => bool_decide (target_type (target (snd e)) = TToken)) (s_jobs schedule2))).
Proof.
  split; [by vm_compute|].
  destruct (schedule_indexes_exact noCollation (fun _ => ""%string) schedule2 scheduled2) as (_ & _ & Hc).
  exact (Hc TToken).
Defined.

Lemma hot_refresh_targets_witness :
  let run := evaluateHotRefresh (X := Reads) true traitEvent schedule2 in
  (exists evs, fst run = Ok evs /\ matchingJobIds evs = ["a"%string]) /\
  exists job, getJob "a" schedule2 = Some job /\ reacts true sampleTraits schedule2 traitEvent job.
Proof.
  intros run. assert (exists evs, fst run = Ok evs /\ matchingJobIds evs = ["a"%string]) as (evs & E & Em).
  { eexists. split; [vm_compute; reflexivity|vm_compute; reflexivity]. }
  split; [by exists evs|].
  pose proof (hot_refresh_targets noCollation (fun _ => ""%string) true sampleTraits
    (fun _ _ _ => eq_refl) schedule2 traitEvent evs (snd run) scheduled2) as Hall.
  assert (evaluateHotRefresh true traitEvent schedule2 = (Ok evs, snd run)) as Erun.
  { rewrite <- E. apply surjective_pairing. }
  apply (Hall Erun "a"%string). rewrite Em. by left.
Defined.

Lemma rejected_duplicate_stays_scheduled_witness :
  let run := addJob noCollation (tokenJob "c" "7") noOverlay schedule2 in
  is_ok (fst run) = false /\ exists job, getJob "c" (snd run) = Some job.
Proof.
  intros run. assert (is_ok (fst run) = false) as E by by vm_compute. split; [exact E|].
  destruct (fst run) as [u|e] eqn:Ef; [discriminate E|].
  assert (addJob noCollation (tokenJob "c" "7") noOverlay schedule2 = (Err e, snd run)) as Erun.
  { rewrite <- Ef. apply surjective_pairing. }
  destruct (rejected_duplicate_stays_scheduled noCollation (fun _ => ""%string) schedule2
    (tokenJob "c" "7") noOverlay e (snd run) scheduled2 Erun) as ((job & Hj & _) & _).
  exists job. exact Hj.
Defined.

End ScheduleClaims.
