(* ===== verification/Refresh.v ===== *)
(** * The refresh scheduler of the bidder

    How [Bidder] ([bidder.ts]) runs refreshes: one loop per job, requests that
    arrive while it runs coalesced into one more run, at most [maxConcurrentJobs]
    loops past the semaphore, one strategy at a time per job behind its mutex,
    immediate refreshes for commands and overrides, cancellations, and shutdown.

    Every [await] ends a step.  Mutex and semaphore are the ones of async-mutex:
    a waiter may proceed when the lock is free; in which order waiters proceed is
    left open.  A completion callback is named by a number; [r_answered] logs the
    calls.  [r_requested] and [r_dropped] record, for the theorems, the callbacks
    handed in and those forgotten; no operation reads them. *)

From S2P Require Import Prelude JsValue Domain.

Open Scope Z_scope.

Module Refresh.

Inductive BidderRefreshTrigger : Type :=
  | FullScan | HotStream | UserCommand | RuntimeActivation | Internal.

#[global] Instance BidderRefreshTrigger_eq_dec : EqDecision BidderRefreshTrigger.
Proof. solve_decision. Defined.

Record ProgressContext := { sequence : Z; total : Z }.

(** [JobExecutionOptions]; the callbacks of [onCompleted] in order. *)
Record Options := {
  throwOnFailure : bool;
  requestContext : option RequestContext;
  trigger : BidderRefreshTrigger;
  requestedAt : Z;
  onCompleted : list Z;
}.

Record JobExecutionState := {
  running : bool;
  executing : bool;
  pending : bool;
  pendingContext : option ProgressContext;
  pendingThrowOnFailure : option bool;
  pendingRequestContext : option RequestContext;
  pendingRequestedAt : option Z;
  pendingTrigger : option BidderRefreshTrigger;
  pendingCompletionObservers : option (list Z);
}.

Definition idleState : JobExecutionState := {|
  running := false; executing := false; pending := false; pendingContext := None;
  pendingThrowOnFailure := None; pendingRequestContext := None; pendingRequestedAt := None;
  pendingTrigger := None; pendingCompletionObservers := None |}.

(** Where a loop is: waiting for the semaphore, holding it and waiting for the
    mutex, holding both and executing, holding both when the strategy is over
    (and whether it threw), or returned, its [finally] callback still queued. *)
Inductive LoopPhase : Type :=
  | WaitSemaphore | WaitMutex | Executing | Finished (threw : bool) | Returned.

Record Loop := {
  lp_job : string;
  lp_phase : LoopPhase;
  lp_context : option ProgressContext;
  lp_options : Options;
}.

Record Immediate := { im_job : string; im_executing : bool; im_options : Options }.

Record Cancellation := { ca_job : string; ca_holding : bool }.

Record RS := {
  r_states : list (string * JobExecutionState);
  r_loops : list (Z * Loop);
  r_immediates : list (Z * Immediate);
  r_cancellations : list (Z * Cancellation);
  r_nextTask : Z;
  r_active : Z;
  r_waiting : Z;
  r_pending : Z;
  r_acceptingRefreshes : bool;
  r_acceptingBackground : bool;
  r_answered : list (Z * bool);
  r_requested : list Z;
  r_dropped : list Z;
}.

Definition initial : RS := {|
  r_states := []; r_loops := []; r_immediates := []; r_cancellations := []; r_nextTask := 0;
  r_active := 0; r_waiting := 0; r_pending := 0; r_acceptingRefreshes := true;
  r_acceptingBackground := true; r_answered := []; r_requested := []; r_dropped := [] |}.

(** ** Updates *)

Definition with_states v s := {| r_states := v; r_loops := r_loops s; r_immediates := r_immediates s;
  r_cancellations := r_cancellations s; r_nextTask := r_nextTask s; r_active := r_active s;
  r_waiting := r_waiting s; r_pending := r_pending s; r_acceptingRefreshes := r_acceptingRefreshes s;
  r_acceptingBackground := r_acceptingBackground s; r_answered := r_answered s;
  r_requested := r_requested s; r_dropped := r_dropped s |}.

Definition with_loops v s := {| r_states := r_states s; r_loops := v; r_immediates := r_immediates s;
  r_cancellations := r_cancellations s; r_nextTask := r_nextTask s; r_active := r_active s;
  r_waiting := r_waiting s; r_pending := r_pending s; r_acceptingRefreshes := r_acceptingRefreshes s;
  r_acceptingBackground := r_acceptingBackground s; r_answered := r_answered s;
  r_requested := r_requested s; r_dropped := r_dropped s |}.

Definition with_immediates v s := {| r_states := r_states s; r_loops := r_loops s; r_immediates := v;
  r_cancellations := r_cancellations s; r_nextTask := r_nextTask s; r_active := r_active s;
  r_waiting := r_waiting s; r_pending := r_pending s; r_acceptingRefreshes := r_acceptingRefreshes s;
  r_acceptingBackground := r_acceptingBackground s; r_answered := r_answered s;
  r_requested := r_requested s; r_dropped := r_dropped s |}.

Definition with_cancellations v s := {| r_states := r_states s; r_loops := r_loops s;
  r_immediates := r_immediates s; r_cancellations := v; r_nextTask := r_nextTask s;
  r_active := r_active s; r_waiting := r_waiting s; r_pending := r_pending s;
  r_acceptingRefreshes := r_acceptingRefreshes s; r_acceptingBackground := r_acceptingBackground s;
  r_answered := r_answered s; r_requested := r_requested s; r_dropped := r_dropped s |}.

Definition with_counts active waiting pending s := {| r_states := r_states s; r_loops := r_loops s;
  r_immediates := r_immediates s; r_cancellations := r_cancellations s; r_nextTask := r_nextTask s;
  r_active := active; r_waiting := waiting; r_pending := pending;
  r_acceptingRefreshes := r_acceptingRefreshes s; r_acceptingBackground := r_acceptingBackground s;
  r_answered := r_answered s; r_requested := r_requested s; r_dropped := r_dropped s |}.

Definition with_admission refreshes background s := {| r_states := r_states s; r_loops := r_loops s;
  r_immediates := r_immediates s; r_cancellations := r_cancellations s; r_nextTask := r_nextTask s;
  r_active := r_active s; r_waiting := r_waiting s; r_pending := r_pending s;
  r_acceptingRefreshes := refreshes; r_acceptingBackground := background;
  r_answered := r_answered s; r_requested := r_requested s; r_dropped := r_dropped s |}.

(** Calls completion callbacks. *)
Definition answer (ids : list Z) (succeeded : bool) s := {| r_states := r_states s;
  r_loops := r_loops s; r_immediates := r_immediates s; r_cancellations := r_cancellations s;
  r_nextTask := r_nextTask s; r_active := r_active s; r_waiting := r_waiting s; r_pending := r_pending s;
  r_acceptingRefreshes := r_acceptingRefreshes s; r_acceptingBackground := r_acceptingBackground s;
  r_answered := r_answered s ++ map (fun i => (i, succeeded)) ids;
  r_requested := r_requested s; r_dropped := r_dropped s |}.

Definition record_request (ids : list Z) s := {| r_states := r_states s; r_loops := r_loops s;
  r_immediates := r_immediates s; r_cancellations := r_cancellations s; r_nextTask := r_nextTask s;
  r_active := r_active s; r_waiting := r_waiting s; r_pending := r_pending s;
  r_acceptingRefreshes := r_acceptingRefreshes s; r_acceptingBackground := r_acceptingBackground s;
  r_answered := r_answered s; r_requested := r_requested s ++ ids; r_dropped := r_dropped s |}.

Definition record_drop (ids : list Z) s := {| r_states := r_states s; r_loops := r_loops s;
  r_immediates := r_immediates s; r_cancellations := r_cancellations s; r_nextTask := r_nextTask s;
  r_active := r_active s; r_waiting := r_waiting s; r_pending := r_pending s;
  r_acceptingRefreshes := r_acceptingRefreshes s; r_acceptingBackground := r_acceptingBackground s;
  r_answered := r_answered s; r_requested := r_requested s; r_dropped := r_dropped s ++ ids |}.

Definition with_next n s := {| r_states := r_states s; r_loops := r_loops s;
  r_immediates := r_immediates s; r_cancellations := r_cancellations s; r_nextTask := n;
  r_active := r_active s; r_waiting := r_waiting s; r_pending := r_pending s;
  r_acceptingRefreshes := r_acceptingRefreshes s; r_acceptingBackground := r_acceptingBackground s;
  r_answered := r_answered s; r_requested := r_requested s; r_dropped := r_dropped s |}.

Definition addWaiting (d : Z) s := with_counts (r_active s) (r_waiting s + d) (r_pending s) s.

(** [this.waitingRefreshCount = Math.max(0, this.waitingRefreshCount - 1)] *)
Definition leaveWaiting s := with_counts (r_active s) (Z.max 0 (r_waiting s - 1)) (r_pending s) s.

Definition enterActive s := with_counts (r_active s + 1) (r_waiting s) (r_pending s) s.

Definition leaveActive s := with_counts (Z.max 0 (r_active s - 1)) (r_waiting s) (r_pending s) s.

(** ** Execution states *)

Definition getJobExecutionState (jobId : string) s : JobExecutionState :=
  default idleState (jm_get jobId (r_states s)).

Definition putState (jobId : string) (e : JobExecutionState) s : RS :=
  with_states (jm_set jobId e (r_states s)) s.

(** [setRefreshPending] on the state [e] and the count. *)
Definition setPendingFlag (v : bool) (e : JobExecutionState) : JobExecutionState := {|
  running := running e; executing := executing e; pending := v; pendingContext := pendingContext e;
  pendingThrowOnFailure := pendingThrowOnFailure e; pendingRequestContext := pendingRequestContext e;
  pendingRequestedAt := pendingRequestedAt e; pendingTrigger := pendingTrigger e;
  pendingCompletionObservers := pendingCompletionObservers e |}.

Definition setRefreshPending (jobId : string) (v : bool) s : RS :=
  let e := getJobExecutionState jobId s in
  if Bool.eqb (pending e) v then s
  else putState jobId (setPendingFlag v e)
         (with_counts (r_active s) (r_waiting s) (Z.max 0 (r_pending s + (if v then 1 else -1))) s).

Definition clearFields (e : JobExecutionState) : JobExecutionState := {|
  running := running e; executing := executing e; pending := pending e; pendingContext := None;
  pendingThrowOnFailure := None; pendingRequestContext := None; pendingRequestedAt := None;
  pendingTrigger := None; pendingCompletionObservers := None |}.

Definition clearPendingRefresh (jobId : string) s : RS :=
  let s := setRefreshPending jobId false s in
  putState jobId (clearFields (getJobExecutionState jobId s)) s.

Definition setRunning (v : bool) (e : JobExecutionState) : JobExecutionState := {|
  running := v; executing := executing e; pending := pending e; pendingContext := pendingContext e;
  pendingThrowOnFailure := pendingThrowOnFailure e; pendingRequestContext := pendingRequestContext e;
  pendingRequestedAt := pendingRequestedAt e; pendingTrigger := pendingTrigger e;
  pendingCompletionObservers := pendingCompletionObservers e |}.

Definition setExecuting (v : bool) (e : JobExecutionState) : JobExecutionState := {|
  running := running e; executing := v; pending := pending e; pendingContext := pendingContext e;
  pendingThrowOnFailure := pendingThrowOnFailure e; pendingRequestContext := pendingRequestContext e;
  pendingRequestedAt := pendingRequestedAt e; pendingTrigger := pendingTrigger e;
  pendingCompletionObservers := pendingCompletionObservers e |}.

Definition firstOf {A} (a b : option A) : option A := match a with Some _ => a | None => b end.

(** The request [options] merged into the pending one. *)
Definition coalesce (context : option ProgressContext) (options : Options) (e : JobExecutionState)
    : JobExecutionState := {|
  running := running e; executing := executing e; pending := pending e;
  pendingContext := firstOf context (pendingContext e);
  pendingThrowOnFailure := Some (default false (pendingThrowOnFailure e) || throwOnFailure options);
  pendingRequestContext := firstOf (requestContext options) (pendingRequestContext e);
  pendingRequestedAt :=
    Some (Z.min (default (requestedAt options) (pendingRequestedAt e)) (requestedAt options));
  pendingTrigger := Some (trigger options);
  pendingCompletionObservers :=
    match onCompleted options with
    | [] => pendingCompletionObservers e
    | observers => Some (default [] (pendingCompletionObservers e) ++ observers)
    end |}.

(** ** Background refreshes *)

Definition startLoop (jobId : string) (context : option ProgressContext) (options : Options) s : RS :=
  let id := r_nextTask s in
  with_next (id + 1) (with_loops (jm_set id {| lp_job := jobId; lp_phase := WaitSemaphore;
    lp_context := context; lp_options := options |} (r_loops s)) s).

Definition refreshJobWithOptions (jobId : string) (context : option ProgressContext)
    (options : Options) s : RS :=
  let s := record_request (onCompleted options) s in
  if negb (r_acceptingBackground s) then answer (onCompleted options) false s
  else if running (getJobExecutionState jobId s) then
    let s := setRefreshPending jobId true s in
    putState jobId (coalesce context options (getJobExecutionState jobId s)) s
  else
    let s := putState jobId (setRunning true (getJobExecutionState jobId s)) s in
    let s := clearPendingRefresh jobId s in
    let s := addWaiting 1 s in
    startLoop jobId context options s.

(** ** Locks *)

Definition holdsSemaphore (l : Loop) : bool :=
  match lp_phase l with WaitMutex | Executing | Finished _ => true | _ => false end.

Definition holdsMutex (l : Loop) : bool :=
  match lp_phase l with Executing | Finished _ => true | _ => false end.

Definition one (b : bool) : Z := if b then 1 else 0.

Definition semaphoreUse s : Z := jm_sum (fun l => one (holdsSemaphore l)) (r_loops s).

(** Holders of a job's mutex. *)
Definition mutexUse (jobId : string) s : Z :=
  jm_sum (fun l => one (String.eqb (lp_job l) jobId && holdsMutex l)) (r_loops s) +
  jm_sum (fun i => one (String.eqb (im_job i) jobId && im_executing i)) (r_immediates s) +
  jm_sum (fun c => one (String.eqb (ca_job c) jobId && ca_holding c)) (r_cancellations s).

Definition setLoop (id : Z) (l : Loop) s : RS := with_loops (jm_set id l (r_loops s)) s.

Definition setPhase (p : LoopPhase) (l : Loop) : Loop :=
  {| lp_job := lp_job l; lp_phase := p; lp_context := lp_context l; lp_options := lp_options l |}.

(** ** The steps of [runJobRefreshLoop]; [None] when the step is not enabled *)

Definition acquireSemaphore (maxConcurrentJobs id : Z) s : option RS :=
  match jm_get id (r_loops s) with
  | Some l =>
      match lp_phase l with
      | WaitSemaphore =>
          if semaphoreUse s <? maxConcurrentJobs then Some (setLoop id (setPhase WaitMutex l) s) else None
      | _ => None
      end
  | None => None
  end.

Definition acquireMutex (id : Z) s : option RS :=
  match jm_get id (r_loops s) with
  | Some l =>
      match lp_phase l with
      | WaitMutex =>
          if mutexUse (lp_job l) s =? 0 then
            let s := leaveWaiting s in
            if negb (r_acceptingBackground s) then
              let s := answer (onCompleted (lp_options l)) false s in
              Some (setLoop id (setPhase (Finished false) l) s)
            else
              let s := enterActive s in
              let s := putState (lp_job l) (setExecuting true (getJobExecutionState (lp_job l) s)) s in
              Some (setLoop id (setPhase Executing l) s)
          else None
      | _ => None
      end
  | None => None
  end.

(** [executeJob] is over. *)
Definition finishRun (id : Z) (succeeded : bool) s : option RS :=
  match jm_get id (r_loops s) with
  | Some l =>
      match lp_phase l with
      | Executing =>
          let s := answer (onCompleted (lp_options l)) succeeded s in
          let s := putState (lp_job l) (setExecuting false (getJobExecutionState (lp_job l) s)) s in
          let s := leaveActive s in
          let threw := negb succeeded && throwOnFailure (lp_options l) in
          Some (setLoop id (setPhase (Finished threw) l) s)
      | _ => None
      end
  | None => None
  end.

(** Both locks are released; the loop looks for a pending request. *)
Definition releaseRun (id : Z) (now : Z) s : option RS :=
  match jm_get id (r_loops s) with
  | Some l =>
      match lp_phase l with
      | Finished threw =>
          let e := getJobExecutionState (lp_job l) s in
          if threw || negb (pending e) then Some (setLoop id (setPhase Returned l) s)
          else
            let nextOptions := {|
              throwOnFailure := default false (pendingThrowOnFailure e);
              requestContext := pendingRequestContext e;
              trigger := default Internal (pendingTrigger e);
              requestedAt := default now (pendingRequestedAt e);
              onCompleted := default [] (pendingCompletionObservers e) |} in
            let s := clearPendingRefresh (lp_job l) s in
            let s := addWaiting 1 s in
            Some (setLoop id {| lp_job := lp_job l; lp_phase := WaitSemaphore;
                                lp_context := pendingContext e; lp_options := nextOptions |} s)
      | _ => None
      end
  | None => None
  end.

(** The [finally] callback of [refreshJobWithOptions]. *)
Definition settleLoop (id : Z) s : option RS :=
  match jm_get id (r_loops s) with
  | Some l =>
      match lp_phase l with
      | Returned =>
          let e := getJobExecutionState (lp_job l) s in
          let s := putState (lp_job l) (setRunning false e) s in
          let s := clearPendingRefresh (lp_job l) s in
          let s := record_drop (default [] (pendingCompletionObservers e)) s in
          Some (with_loops (jm_del id (r_loops s)) s)
      | _ => None
      end
  | None => None
  end.

(** ** Immediate refreshes *)

Definition isUserCommand (o : Options) : bool := bool_decide (trigger o = UserCommand).

Definition refreshJobImmediately (jobId : string) (options : Options) s : result RS :=
  if negb (r_acceptingRefreshes s) then
    if isUserCommand options
    then Err "Cannot refresh a bidding job after the bidder has stopped"
    else Ok s
  else if negb (r_acceptingBackground s) && negb (isUserCommand options) then Ok s
  else
    let s := record_request (onCompleted options) s in
    let s := addWaiting 1 s in
    let id := r_nextTask s in
    Ok (with_next (id + 1) (with_immediates
      (jm_set id {| im_job := jobId; im_executing := false; im_options := options |} (r_immediates s)) s)).

Definition acquireImmediate (id : Z) s : option RS :=
  match jm_get id (r_immediates s) with
  | Some i =>
      if im_executing i then None
      else if mutexUse (im_job i) s =? 0 then
        let s := leaveWaiting s in
        if negb (r_acceptingBackground s) && negb (isUserCommand (im_options i)) then
          Some (record_drop (onCompleted (im_options i)) (with_immediates (jm_del id (r_immediates s)) s))
        else
          let s := enterActive s in
          Some (with_immediates (jm_set id {| im_job := im_job i; im_executing := true;
            im_options := im_options i |} (r_immediates s)) s)
      else None
  | None => None
  end.

Definition finishImmediate (id : Z) (succeeded : bool) s : option RS :=
  match jm_get id (r_immediates s) with
  | Some i =>
      if im_executing i then
        let s := answer (onCompleted (im_options i)) succeeded s in
        let s := leaveActive s in
        Some (with_immediates (jm_del id (r_immediates s)) s)
      else None
  | None => None
  end.

(** ** Cancellations hold the job's mutex *)

Definition requestCancellation (jobId : string) s : RS :=
  let id := r_nextTask s in
  with_next (id + 1) (with_cancellations
    (jm_set id {| ca_job := jobId; ca_holding := false |} (r_cancellations s)) s).

Definition acquireCancellation (id : Z) s : option RS :=
  match jm_get id (r_cancellations s) with
  | Some c =>
      if ca_holding c then None
      else if mutexUse (ca_job c) s =? 0 then
        Some (with_cancellations (jm_set id {| ca_job := ca_job c; ca_holding := true |} (r_cancellations s)) s)
      else None
  | None => None
  end.

Definition finishCancellation (id : Z) s : option RS :=
  match jm_get id (r_cancellations s) with
  | Some c => if ca_holding c then Some (with_cancellations (jm_del id (r_cancellations s)) s) else None
  | None => None
  end.

(** ** Shutdown *)

(** Answers and clears the pending request of each job in turn. *)
Fixpoint clearAll (jobIds : list string) s : RS :=
  match jobIds with
  | [] => s
  | jobId :: rest =>
      let s := answer (default [] (pendingCompletionObservers (getJobExecutionState jobId s))) false s in
      clearAll rest (clearPendingRefresh jobId s)
  end.

Definition closeBackgroundRefreshAdmission s : RS :=
  let s := with_admission (r_acceptingRefreshes s) false s in
  clearAll (jm_keys (r_states s)) s.

(** [stop()] up to its wait for the refreshes in flight. *)
Definition stop s : RS := closeBackgroundRefreshAdmission (with_admission false (r_acceptingBackground s) s).

(** ** The event loop *)

Inductive step (maxConcurrentJobs : Z) : RS -> RS -> Prop :=
  | step_request s jobId context options :
      step maxConcurrentJobs s (refreshJobWithOptions jobId context options s)
  | step_semaphore s id s' : acquireSemaphore maxConcurrentJobs id s = Some s' -> step maxConcurrentJobs s s'
  | step_mutex s id s' : acquireMutex id s = Some s' -> step maxConcurrentJobs s s'
  | step_finish s id ok s' : finishRun id ok s = Some s' -> step maxConcurrentJobs s s'
  | step_release s id now s' : releaseRun id now s = Some s' -> step maxConcurrentJobs s s'
  | step_settle s id s' : settleLoop id s = Some s' -> step maxConcurrentJobs s s'
  | step_immediate s jobId options s' : refreshJobImmediately jobId options s = Ok s' -> step maxConcurrentJobs s s'
  | step_immediate_mutex s id s' : acquireImmediate id s = Some s' -> step maxConcurrentJobs s s'
  | step_immediate_finish s id ok s' : finishImmediate id ok s = Some s' -> step maxConcurrentJobs s s'
  | step_cancel s jobId : step maxConcurrentJobs s (requestCancellation jobId s)
  | step_cancel_mutex s id s' : acquireCancellation id s = Some s' -> step maxConcurrentJobs s s'
  | step_cancel_finish s id s' : finishCancellation id s = Some s' -> step maxConcurrentJobs s s'
  | step_close s : step maxConcurrentJobs s (closeBackgroundRefreshAdmission s)
  | step_stop s : step maxConcurrentJobs s (stop s).

Inductive reachable (maxConcurrentJobs : Z) : RS -> Prop :=
  | reachable_initial : reachable maxConcurrentJobs initial
  | reachable_step s s' : reachable maxConcurrentJobs s -> step maxConcurrentJobs s s' ->
      reachable maxConcurrentJobs s'.

End Refresh.
