(* ===== verification/RefreshInv.v ===== *)
(** * The invariant of the refresh scheduler

    Gauges equal to what they count, one loop per running job, one holder per
    mutex, the semaphore's bound, and an account of every completion callback. *)

From S2P Require Import Prelude JsValue Domain Refresh.

Open Scope Z_scope.

Module RefreshInv.
Import Refresh.

(** Occurrences of a callback. *)
Fixpoint occ (x : Z) (l : list Z) : Z :=
  match l with
  | [] => 0
  | y :: l' => one (x =? y) + occ x l'
  end.

Lemma occ_app x l1 l2 : occ x (l1 ++ l2) = occ x l1 + occ x l2.
Proof. induction l1 as [|y l IH]; simpl; lia. Qed.

Lemma occ_nonneg x l : 0 <= occ x l.
Proof. induction l as [|y l IH]; simpl; [lia|]. unfold one. destruct (x =? y); lia. Qed.

Definition isWaiting (l : Loop) : bool :=
  match lp_phase l with WaitSemaphore | WaitMutex => true | _ => false end.

Definition isExecuting (l : Loop) : bool :=
  match lp_phase l with Executing => true | _ => false end.

(** The callbacks a loop has still to call. *)
Definition carried (l : Loop) : list Z :=
  if isWaiting l || isExecuting l then onCompleted (lp_options l) else [].

Definition pendingObservers (e : JobExecutionState) : list Z :=
  default [] (pendingCompletionObservers e).

Definition ofJob (jobId : string) (l : Loop) : bool := String.eqb (lp_job l) jobId.

Record refresh_wf (maxConcurrentJobs : Z) (s : RS) : Prop := {
  w_loops : jm_wf (r_loops s);
  w_immediates : jm_wf (r_immediates s);
  w_cancellations : jm_wf (r_cancellations s);
  w_states : jm_wf (r_states s);
  w_fresh_loops : forall id, r_nextTask s <= id -> jm_get id (r_loops s) = None;
  w_fresh_immediates : forall id, r_nextTask s <= id -> jm_get id (r_immediates s) = None;
  w_fresh_cancellations : forall id, r_nextTask s <= id -> jm_get id (r_cancellations s) = None;
  w_running : forall j, jm_sum (fun l => one (ofJob j l)) (r_loops s) = one (running (getJobExecutionState j s));
  w_executing : forall j, jm_sum (fun l => one (ofJob j l && isExecuting l)) (r_loops s) =
                  one (executing (getJobExecutionState j s));
  w_pending : forall j, pending (getJobExecutionState j s) = true -> running (getJobExecutionState j s) = true;
  w_clear : forall j, pending (getJobExecutionState j s) = false ->
              clearFields (getJobExecutionState j s) = getJobExecutionState j s;
  w_waiting : r_waiting s = jm_sum (fun l => one (isWaiting l)) (r_loops s) +
                            jm_sum (fun i => one (negb (im_executing i))) (r_immediates s);
  w_active : r_active s = jm_sum (fun l => one (isExecuting l)) (r_loops s) +
                          jm_sum (fun i => one (im_executing i)) (r_immediates s);
  w_pendingCount : r_pending s = jm_sum (fun e => one (pending e)) (r_states s);
  w_mutex : forall j, mutexUse j s <= 1;
  w_semaphore : semaphoreUse s <= maxConcurrentJobs;
  w_account : forall x, occ x (r_requested s) =
    occ x (map fst (r_answered s)) + occ x (r_dropped s) +
    jm_sum (fun l => occ x (carried l)) (r_loops s) +
    jm_sum (fun i => occ x (onCompleted (im_options i))) (r_immediates s) +
    jm_sum (fun e => occ x (pendingObservers e)) (r_states s);
}.

(** ** Normal forms of the updates *)

Lemma getState_put j j' e s : getJobExecutionState j (putState j' e s) =
  if decide (j' = j) then e else getJobExecutionState j s.
Proof. unfold getJobExecutionState. simpl. rewrite jm_get_set. by case_decide. Qed.

(** A state after [clearPendingRefresh]. *)
Definition cleared (e : JobExecutionState) : JobExecutionState := clearFields (setPendingFlag false e).

Lemma putState_putState j e1 e2 s : putState j e2 (putState j e1 s) = putState j e2 s.
Proof. unfold putState, with_states. simpl. by rewrite jm_set_set. Qed.

Lemma clearPendingRefresh_eq j s : 0 <= r_pending s - one (pending (getJobExecutionState j s)) ->
  clearPendingRefresh j s = putState j (cleared (getJobExecutionState j s))
    (with_counts (r_active s) (r_waiting s) (r_pending s - one (pending (getJobExecutionState j s))) s).
Proof.
  intros Hpos. unfold clearPendingRefresh, setRefreshPending.
  destruct (pending (getJobExecutionState j s)) eqn:Ep; simpl in *.
  - rewrite getState_put, decide_True, putState_putState by done.
    replace (Z.max 0 (r_pending s + -1)) with (r_pending s - 1) by lia. done.
  - replace (r_pending s - 0) with (r_pending s) by lia.
    assert (cleared (getJobExecutionState j s) = clearFields (getJobExecutionState j s)) as ->
      by (unfold cleared, clearFields, setPendingFlag; simpl; by rewrite Ep).
    by destruct s.
Qed.

(** The pending count covers the flag of each state. *)
Lemma pending_le m s j : refresh_wf m s -> 0 <= r_pending s - one (pending (getJobExecutionState j s)).
Proof.
  intros Hwf. rewrite (w_pendingCount _ _ Hwf). unfold getJobExecutionState.
  pose proof (jm_sum_del (fun e => one (pending e)) j (r_states s) (w_states _ _ Hwf)) as Hd.
  assert (0 <= jm_sum (fun e => one (pending e)) (jm_del j (r_states s)))
    by (apply jm_sum_nonneg; intros e; unfold one; destruct (pending e); lia).
  destruct (jm_get j (r_states s)); simpl in *; [lia|]. lia.
Qed.

(** ** Arithmetic of sums *)

Lemma one_nonneg b : 0 <= one b.
Proof. unfold one. destruct b; lia. Qed.

(** A sum over the states when one of them is written. *)
Lemma states_sum f j e s : f idleState = 0 ->
  jm_sum f (jm_set j e (r_states s)) = jm_sum f (r_states s) - f (getJobExecutionState j s) + f e.
Proof.
  intros Hf. rewrite jm_sum_set. unfold getJobExecutionState.
  destruct (jm_get j (r_states s)); simpl; lia.
Qed.

Lemma loops_sum (f : Loop -> Z) id l l' s : jm_get id (r_loops s) = Some l ->
  jm_sum f (jm_set id l' (r_loops s)) = jm_sum f (r_loops s) - f l + f l'.
Proof. intros E. by rewrite jm_sum_set, E. Qed.

(** A loop is one of those counted. *)
Lemma loop_counted (f : Loop -> Z) id l s : (forall k, 0 <= f k) -> jm_get id (r_loops s) = Some l ->
  f l <= jm_sum f (r_loops s).
Proof.
  intros Hf. induction (r_loops s) as [|[k v] m IH]; simpl; [done|]. case_decide.
  - intros [= ->]. pose proof (jm_sum_nonneg f m Hf). lia.
  - intros E. specialize (IH E). specialize (Hf v). lia.
Qed.

Lemma loop_running m id l s : refresh_wf m s -> jm_get id (r_loops s) = Some l ->
  running (getJobExecutionState (lp_job l) s) = true.
Proof.
  intros Hwf E. pose proof (w_running _ _ Hwf (lp_job l)) as Hr.
  pose proof (loop_counted (fun k => one (ofJob (lp_job l) k)) id l s (fun k => one_nonneg _) E) as Hc.
  simpl in Hc. unfold ofJob in Hc at 1. rewrite String.eqb_refl in Hc.
  destruct (running _); [done|]. unfold one in *. lia.
Qed.

(** ** A step of one loop

    What a step of the loop [id] of job [j] changes: the loop itself, from [old] to
    [new] ([None] when it starts or ends), and the job's state, to [e']. *)
Record loop_step (m : Z) (s s' : RS) (id : Z) (j : string) (old new : option Loop)
    (e' : JobExecutionState) : Prop := {
  ls_old : jm_get id (r_loops s) = old;
  ls_loops : r_loops s' = match new with
                          | Some l => jm_set id l (r_loops s)
                          | None => jm_del id (r_loops s)
                          end;
  ls_states : (r_states s' = r_states s /\ e' = getJobExecutionState j s) \/
              r_states s' = jm_set j e' (r_states s);
  ls_immediates : r_immediates s' = r_immediates s;
  ls_cancellations : r_cancellations s' = r_cancellations s;
  ls_next : r_nextTask s <= r_nextTask s' /\ (old = None -> new = None \/ id < r_nextTask s');
  ls_old_job : forall l, old = Some l -> lp_job l = j;
  ls_new_job : forall l, new = Some l -> lp_job l = j;
  ls_running : one (running e') = one (running (getJobExecutionState j s)) -
                 of_opt (fun _ => 1) old + of_opt (fun _ => 1) new;
  ls_executing : one (executing e') = one (executing (getJobExecutionState j s)) -
                   of_opt (fun l => one (isExecuting l)) old + of_opt (fun l => one (isExecuting l)) new;
  ls_pending : pending e' = true -> running e' = true;
  ls_clear : pending e' = false -> clearFields e' = e';
  ls_waiting : r_waiting s' = r_waiting s - of_opt (fun l => one (isWaiting l)) old +
                 of_opt (fun l => one (isWaiting l)) new;
  ls_active : r_active s' = r_active s - of_opt (fun l => one (isExecuting l)) old +
                of_opt (fun l => one (isExecuting l)) new;
  ls_pendingCount : r_pending s' = r_pending s - one (pending (getJobExecutionState j s)) + one (pending e');
  ls_mutex : of_opt (fun l => one (holdsMutex l)) new <= of_opt (fun l => one (holdsMutex l)) old \/
             mutexUse j s = 0;
  ls_semaphore : of_opt (fun l => one (holdsSemaphore l)) new <= of_opt (fun l => one (holdsSemaphore l)) old \/
                 semaphoreUse s < m;
  ls_account : forall x, occ x (r_requested s') - occ x (r_requested s) =
    occ x (map fst (r_answered s')) - occ x (map fst (r_answered s)) +
    (occ x (r_dropped s') - occ x (r_dropped s)) +
    (of_opt (fun l => occ x (carried l)) new - of_opt (fun l => occ x (carried l)) old) +
    (occ x (pendingObservers e') - occ x (pendingObservers (getJobExecutionState j s)));
}.

Section LoopStep.
Context m s s' id j old new e' (Hwf : refresh_wf m s) (Hs : loop_step m s s' id j old new e').

Lemma step_loops_sum f : jm_sum f (r_loops s') = jm_sum f (r_loops s) - of_opt f old + of_opt f new.
Proof.
  rewrite (ls_loops _ _ _ _ _ _ _ _ Hs). destruct new as [l|].
  - by rewrite jm_sum_set, (ls_old _ _ _ _ _ _ _ _ Hs).
  - rewrite jm_sum_del, (ls_old _ _ _ _ _ _ _ _ Hs) by apply Hwf. simpl. lia.
Qed.

Lemma step_states_sum f : f idleState = 0 ->
  jm_sum f (r_states s') = jm_sum f (r_states s) - f (getJobExecutionState j s) + f e'.
Proof.
  intros Hf. destruct (ls_states _ _ _ _ _ _ _ _ Hs) as [[-> ->]| ->]; [lia|]. by apply states_sum.
Qed.

Lemma step_getState j' : getJobExecutionState j' s' = if decide (j = j') then e' else getJobExecutionState j' s.
Proof.
  unfold getJobExecutionState. destruct (ls_states _ _ _ _ _ _ _ _ Hs) as [[-> ->]| ->].
  - by case_decide; subst.
  - rewrite jm_get_set. by case_decide.
Qed.

Lemma step_job_sum (g : Loop -> Z) j' :
  jm_sum (fun l => one (ofJob j' l) * g l) (r_loops s') =
  jm_sum (fun l => one (ofJob j' l) * g l) (r_loops s) -
  (if decide (j = j') then of_opt g old - of_opt g new else 0).
Proof.
  rewrite step_loops_sum.
  assert (forall o, (forall l, o = Some l -> lp_job l = j) ->
    of_opt (fun l => one (ofJob j' l) * g l) o = if decide (j = j') then of_opt g o else 0) as Ho.
  { intros [l|] Hl; simpl; [|by case_decide]. unfold ofJob. rewrite (Hl l eq_refl).
    case_decide as E; [subst j'; rewrite String.eqb_refl; simpl; lia|].
    destruct (String.eqb_spec j j'); [done|]. simpl. lia. }
  rewrite (Ho old) by apply Hs. rewrite (Ho new) by apply Hs. case_decide; lia.
Qed.

Lemma one_and a b : one (a && b) = one a * one b.
Proof. by destruct a, b. Qed.

Lemma wf_loop_step : refresh_wf m s'.
Proof.
  assert (forall b l, one (ofJob b l) = one (ofJob b l) * 1) as Hone by (intros; lia).
  pose proof Hwf as [W1 W2 W3 W4 F1 F2 F3 Wr We Wp Wc Ww Wa Wn Wm Ws Wo].
  pose proof Hs as [S1 S2 S3 S4 S5 [S6 S7] _ _ Sr Se Sp Sc Sw Sa Sn Sm Ss So].
  constructor; rewrite ?S4, ?S5; try done.
  - rewrite S2. destruct new; [by apply jm_wf_set|by apply jm_wf_del].
  - destruct S3 as [[-> _]| ->]; [done|]. by apply jm_wf_set.
  - intros i Hi. rewrite S2. assert (jm_get i (r_loops s) = None) as Hn by (apply F1; lia).
    destruct new as [l|].
    + rewrite jm_get_set. case_decide; [subst i|done]. destruct old as [l0|]; [congruence|].
      destruct (S7 eq_refl); [done|]. lia.
    + rewrite jm_get_del. by case_decide.
  - intros i Hi. apply F2. lia.
  - intros i Hi. apply F3. lia.
  - intros j'. rewrite step_getState. rewrite (jm_sum_ext_all _ _ _ (Hone j')), step_job_sum.
    rewrite <- (jm_sum_ext_all _ _ _ (Hone j')), (Wr j'). case_decide; [subst j'|]; lia.
  - intros j'. rewrite step_getState. rewrite (jm_sum_ext_all _ _ _ (fun l => one_and (ofJob j' l) _)), step_job_sum.
    rewrite <- (jm_sum_ext_all _ _ _ (fun l => one_and (ofJob j' l) _)), (We j'). case_decide; [subst j'|]; lia.
  - intros j'. rewrite step_getState. case_decide; [exact Sp|apply Wp].
  - intros j'. rewrite step_getState. case_decide; [exact Sc|apply Wc].
  - rewrite step_loops_sum. lia.
  - rewrite step_loops_sum. lia.
  - rewrite step_states_sum by done. lia.
  - intros j'. unfold mutexUse in *. rewrite S4, S5.
    rewrite (jm_sum_ext_all _ _ _ (fun l => one_and (ofJob j' l) _)), step_job_sum.
    rewrite <- (jm_sum_ext_all _ _ _ (fun l => one_and (ofJob j' l) _)).
    specialize (Wm j'). unfold ofJob. case_decide; [subst j'|lia].
    assert (forall o, 0 <= of_opt (fun l => one (holdsMutex l)) o <= 1) as Hb
      by (intros [l|]; simpl; [unfold one; destruct (holdsMutex l)|]; lia).
    pose proof (Hb old). pose proof (Hb new). destruct Sm; lia.
  - unfold semaphoreUse in *. rewrite step_loops_sum.
    assert (forall o, 0 <= of_opt (fun l => one (holdsSemaphore l)) o <= 1) as Hb
      by (intros [l|]; simpl; [unfold one; destruct (holdsSemaphore l)|]; lia).
    pose proof (Hb old). pose proof (Hb new). destruct Ss; lia.
  - intros x. rewrite step_loops_sum, (step_states_sum (fun e => occ x (pendingObservers e))) by done.
    specialize (Wo x). specialize (So x). lia.
Qed.

End LoopStep.

Lemma initialRefresh_wf m : 0 <= m -> refresh_wf m initial.
Proof. intros Hm. split; try done; simpl; intros; try (apply NoDup_nil_2); unfold semaphoreUse, mutexUse; simpl; lia. Qed.

(** ** Every step of a loop keeps the invariant *)

Lemma getState_put_eq j e s : getJobExecutionState j (putState j e s) = e.
Proof. by rewrite getState_put, decide_True. Qed.

Lemma fresh_loop m s : refresh_wf m s -> jm_get (r_nextTask s) (r_loops s) = None.
Proof. intros Hwf. apply (w_fresh_loops _ _ Hwf). lia. Qed.

(** A step that writes the state of one job and no loop. *)
Lemma wf_state_step m s s' j e' : refresh_wf m s ->
  r_states s' = jm_set j e' (r_states s) -> r_loops s' = r_loops s ->
  r_immediates s' = r_immediates s -> r_cancellations s' = r_cancellations s ->
  r_nextTask s' = r_nextTask s -> r_waiting s' = r_waiting s -> r_active s' = r_active s ->
  r_pending s' = r_pending s - one (pending (getJobExecutionState j s)) + one (pending e') ->
  running e' = running (getJobExecutionState j s) ->
  executing e' = executing (getJobExecutionState j s) ->
  (pending e' = true -> running e' = true) -> (pending e' = false -> clearFields e' = e') ->
  (forall x, occ x (r_requested s') - occ x (r_requested s) =
     occ x (map fst (r_answered s')) - occ x (map fst (r_answered s)) +
     (occ x (r_dropped s') - occ x (r_dropped s)) +
     (occ x (pendingObservers e') - occ x (pendingObservers (getJobExecutionState j s)))) ->
  refresh_wf m s'.
Proof.
  intros Hwf Es El Ei Ec En Ew Ea Ep Er Ee Hp Hc Ho.
  assert (jm_get (r_nextTask s) (r_loops s) = None) as Hf by by eapply fresh_loop.
  apply (wf_loop_step m s s' (r_nextTask s) j None None e'); [done|].
  split; simpl; try done; rewrite ?Er, ?Ee; try lia.
  - by rewrite jm_del_absent.
  - by right.
  - split; [lia|]. by left.
  - intros x. rewrite (Ho x). lia.
Qed.

End RefreshInv.
