(* ===== verification/RefreshSteps.v ===== *)
(** * Every step of the refresh scheduler keeps its invariant

    One lemma per operation of [Refresh], and [reachable_wf] for every state the
    event loop can reach. *)

From S2P Require Import Prelude JsValue Domain Refresh RefreshInv.

Open Scope Z_scope.

Module RefreshSteps.
Import Refresh RefreshInv.

Lemma map_fst_answer (ids : list Z) (b : bool) : map fst (map (fun i => (i, b)) ids) = ids.
Proof. induction ids as [|i l IH]; simpl; congruence. Qed.

Lemma occ_answer x s ids b : occ x (map fst (r_answered (answer ids b s))) = occ x (map fst (r_answered s)) + occ x ids.
Proof. simpl. by rewrite map_app, occ_app, map_fst_answer. Qed.

(** Splits the side conditions of a step and closes the plain ones. *)
Ltac step_fields :=
  simpl; rewrite ?String.eqb_refl; unfold carried, isWaiting, isExecuting, holdsMutex, holdsSemaphore in *;
  simpl in *; try done; try lia.

Ltac account := intros x; simpl; rewrite ?map_app, ?occ_app, ?map_fst_answer; simpl.

Lemma idle_clear m s j : refresh_wf m s -> running (getJobExecutionState j s) = false ->
  pending (getJobExecutionState j s) = false /\
  clearFields (getJobExecutionState j s) = getJobExecutionState j s.
Proof.
  intros Hwf Er.
  assert (pending (getJobExecutionState j s) = false) as Ep.
  { destruct (pending _) eqn:Ep; [|done]. apply (w_pending _ _ Hwf) in Ep. congruence. }
  split; [done|]. by apply (w_clear _ _ Hwf).
Qed.

(** The loop of a job is its only one. *)
Lemma sole_loop m s id l (g : Loop -> bool) : refresh_wf m s -> jm_get id (r_loops s) = Some l ->
  jm_sum (fun k => one (ofJob (lp_job l) k && g k)) (r_loops s) = one (g l).
Proof.
  intros Hwf El.
  pose proof (fun f : Loop -> Z => jm_sum_del f id (r_loops s) (w_loops _ _ Hwf)) as Hd. rewrite El in Hd. simpl in Hd.
  pose proof (w_running _ _ Hwf (lp_job l)) as Hr.
  assert (ofJob (lp_job l) l = true) as Ho by (unfold ofJob; apply String.eqb_refl).
  pose proof (Hd (fun k => one (ofJob (lp_job l) k))) as H1.
  pose proof (Hd (fun k => one (ofJob (lp_job l) k && g k))) as H2. simpl in H1, H2. rewrite Ho in H1, H2.
  rewrite (loop_running m id l s Hwf El) in Hr.
  assert (jm_sum (fun k => one (ofJob (lp_job l) k && g k)) (jm_del id (r_loops s)) <=
          jm_sum (fun k => one (ofJob (lp_job l) k)) (jm_del id (r_loops s)))
    by (apply jm_sum_le_all; intros v; unfold one; destruct (ofJob _ v), (g v); simpl; lia).
  pose proof (jm_sum_nonneg (fun k => one (ofJob (lp_job l) k && g k)) (jm_del id (r_loops s)) (fun k => one_nonneg _)).
  simpl in *. lia.
Qed.

(** Its job executes exactly while the loop does. *)
Lemma executing_loop m s id l : refresh_wf m s -> jm_get id (r_loops s) = Some l ->
  executing (getJobExecutionState (lp_job l) s) = isExecuting l.
Proof.
  intros Hwf El. pose proof (sole_loop m s id l isExecuting Hwf El) as H. rewrite (w_executing _ _ Hwf) in H.
  by destruct (executing _), (isExecuting l).
Qed.

(** Handing callbacks in and answering them at once. *)
Lemma wf_answer_request m s ids b : refresh_wf m s -> refresh_wf m (answer ids b (record_request ids s)).
Proof.
  intros [W1 W2 W3 W4 F1 F2 F3 Wr We Wp Wc Ww Wa Wn Wm Ws Wo]. constructor; try done.
  account. rewrite (Wo x). simpl. lia.
Qed.

Definition coalesced (context : option ProgressContext) (options : Options) (e : JobExecutionState) :=
  coalesce context options (setPendingFlag true e).

(** A request for a running job only writes the job's state. *)
Lemma coalesce_eq m s j context options : refresh_wf m s ->
  running (getJobExecutionState j s) = true -> r_acceptingBackground s = true ->
  refreshJobWithOptions j context options s =
  putState j (coalesced context options (getJobExecutionState j s))
    (with_counts (r_active s) (r_waiting s)
       (r_pending s - one (pending (getJobExecutionState j s)) + 1)
       (record_request (onCompleted options) s)).
Proof.
  intros Hwf Er Ea. unfold refreshJobWithOptions. simpl. rewrite Ea. simpl.
  assert (getJobExecutionState j (record_request (onCompleted options) s) = getJobExecutionState j s) as Eg by done.
  rewrite Eg, Er. unfold setRefreshPending. rewrite Eg. pose proof (pending_le m s j Hwf) as Hp.
  destruct (pending (getJobExecutionState j s)) eqn:Ep; simpl in *.
  - rewrite Eg. unfold coalesced. replace (setPendingFlag true (getJobExecutionState j s)) with (getJobExecutionState j s)
      by (unfold setPendingFlag; rewrite <- Ep; by destruct (getJobExecutionState j s)).
    replace (r_pending s - 1 + 1) with (r_pending s) by lia. by destruct s.
  - rewrite getState_put_eq, putState_putState.
    replace (Z.max 0 (r_pending s + 1)) with (r_pending s - 0 + 1) by lia. done.
Qed.

Lemma coalesced_observers context options e x :
  occ x (pendingObservers (coalesced context options e)) = occ x (pendingObservers e) + occ x (onCompleted options).
Proof.
  unfold pendingObservers. simpl. destruct (onCompleted options) as [|y l]; simpl; [lia|].
  rewrite occ_app. done.
Qed.

Lemma coalesce_wf m s j context options : refresh_wf m s ->
  running (getJobExecutionState j s) = true -> r_acceptingBackground s = true ->
  refresh_wf m (refreshJobWithOptions j context options s).
Proof.
  intros Hwf Er Ea. rewrite (coalesce_eq m) by done.
  apply (wf_state_step m s _ j (coalesced context options (getJobExecutionState j s))); try done.
  intros x. rewrite coalesced_observers. simpl. rewrite occ_app. lia.
Qed.

(** The loop a request starts. *)
Definition startedLoop (j : string) context options : Loop :=
  {| lp_job := j; lp_phase := WaitSemaphore; lp_context := context; lp_options := options |}.

(** A request for an idle job marks it running and starts its loop. *)
Lemma start_eq m s j context options : refresh_wf m s ->
  running (getJobExecutionState j s) = false -> r_acceptingBackground s = true ->
  refreshJobWithOptions j context options s =
  with_next (r_nextTask s + 1) (setLoop (r_nextTask s) (startedLoop j context options)
    (putState j (setRunning true (getJobExecutionState j s))
       (with_counts (r_active s) (r_waiting s + 1) (r_pending s) (record_request (onCompleted options) s)))).
Proof.
  intros Hwf Er Ea. unfold refreshJobWithOptions. simpl. rewrite Ea. simpl.
  assert (getJobExecutionState j (record_request (onCompleted options) s) = getJobExecutionState j s) as Eg by done.
  rewrite Eg, Er. destruct (idle_clear m s j Hwf Er) as [Ep Ec].
  unfold clearPendingRefresh, setRefreshPending. rewrite getState_put_eq. simpl. rewrite Ep. simpl.
  rewrite getState_put_eq, putState_putState.
  replace (clearFields (setRunning true (getJobExecutionState j s))) with (setRunning true (getJobExecutionState j s)); [done|].
  transitivity (setRunning true (clearFields (getJobExecutionState j s))); [by rewrite Ec|done].
Qed.

Lemma start_wf m s j context options : refresh_wf m s ->
  running (getJobExecutionState j s) = false -> r_acceptingBackground s = true ->
  refresh_wf m (refreshJobWithOptions j context options s).
Proof.
  intros Hwf Er Ea. rewrite (start_eq m) by done. destruct (idle_clear m s j Hwf Er) as [Ep Ec].
  apply (wf_loop_step m s _ (r_nextTask s) j None (Some (startedLoop j context options))
           (setRunning true (getJobExecutionState j s))); [done|].
  split; try done; step_fields.
  - by eapply fresh_loop.
  - by right.
  - by intros l [= <-].
  - rewrite Er. simpl. lia.
  - intros _. transitivity (setRunning true (clearFields (getJobExecutionState j s))); [done|by rewrite Ec].
  - account. unfold pendingObservers. simpl. lia.
Qed.

Lemma refreshJobWithOptions_wf m s j context options : refresh_wf m s ->
  refresh_wf m (refreshJobWithOptions j context options s).
Proof.
  intros Hwf. destruct (r_acceptingBackground s) eqn:Ea.
  - destruct (running (getJobExecutionState j s)) eqn:Er; [by apply coalesce_wf|by apply start_wf].
  - unfold refreshJobWithOptions. simpl. rewrite Ea. simpl. by apply wf_answer_request.
Qed.

(** ** The steps of the loop *)

Lemma setExecuting_clear v e : (pending e = false -> clearFields e = e) ->
  pending (setExecuting v e) = false -> clearFields (setExecuting v e) = setExecuting v e.
Proof. simpl. intros H Hp. transitivity (setExecuting v (clearFields e)); [done|by rewrite H]. Qed.

(** Discharges the fields of a [loop_step] of the loop [l] in phase [Ep]. *)
Ltac loop_fields Hwf Ep :=
  split; try done; step_fields; rewrite ?Ep; simpl in *; try lia;
  lazymatch goal with
  | |- _ \/ _ => first [by left | by right]
  | |- forall l, Some _ = Some l -> _ => by intros ? [= <-]
  | |- _ -> running _ = true => apply (w_pending _ _ Hwf)
  | |- forall x, occ _ _ - _ = _ => account; unfold pendingObservers, carried, isWaiting, isExecuting; rewrite ?Ep; simpl; lia
  | |- _ => try first [apply (w_clear _ _ Hwf) | apply setExecuting_clear, (w_clear _ _ Hwf)]
  end.

Lemma acquireSemaphore_wf m s id s' : refresh_wf m s -> acquireSemaphore m id s = Some s' -> refresh_wf m s'.
Proof.
  unfold acquireSemaphore. intros Hwf E. destruct (jm_get id (r_loops s)) as [l|] eqn:El; [|done].
  destruct (lp_phase l) eqn:Ep; try done. destruct (semaphoreUse s <? m) eqn:Em; [|done].
  apply Z.ltb_lt in Em. injection E as <-.
  apply (wf_loop_step m s _ id (lp_job l) (Some l) (Some (setPhase WaitMutex l)) (getJobExecutionState (lp_job l) s)); [done|].
  loop_fields Hwf Ep.
Qed.

(** The waiting gauge covers a waiting loop, the active gauge an executing one. *)
Lemma waiting_pos m s id l : refresh_wf m s -> jm_get id (r_loops s) = Some l ->
  one (isWaiting l) <= r_waiting s.
Proof.
  intros Hwf El. rewrite (w_waiting _ _ Hwf).
  pose proof (loop_counted (fun l => one (isWaiting l)) id l s (fun k => one_nonneg _) El).
  pose proof (jm_sum_nonneg (fun i => one (negb (im_executing i))) (r_immediates s) (fun k => one_nonneg _)).
  simpl in *. lia.
Qed.

Lemma active_pos m s id l : refresh_wf m s -> jm_get id (r_loops s) = Some l ->
  one (isExecuting l) <= r_active s.
Proof.
  intros Hwf El. rewrite (w_active _ _ Hwf).
  pose proof (loop_counted (fun l => one (isExecuting l)) id l s (fun k => one_nonneg _) El).
  pose proof (jm_sum_nonneg (fun i => one (im_executing i)) (r_immediates s) (fun k => one_nonneg _)).
  simpl in *. lia.
Qed.

(** [job] is waiting for its mutex: when the mutex is free it executes, or gives
    up when the background admission has closed. *)
Lemma acquireMutex_wf m s id s' : refresh_wf m s -> acquireMutex id s = Some s' -> refresh_wf m s'.
Proof.
  unfold acquireMutex. intros Hwf E. destruct (jm_get id (r_loops s)) as [l|] eqn:El; [|done].
  destruct (lp_phase l) eqn:Ep; try done. destruct (Z.eqb_spec (mutexUse (lp_job l) s) 0) as [Em|]; [|done].
  pose proof (waiting_pos m s id l Hwf El) as Hw. unfold isWaiting in Hw. rewrite Ep in Hw.
  change (r_acceptingBackground (leaveWaiting s)) with (r_acceptingBackground s) in E.
  destruct (r_acceptingBackground s); simpl in E; injection E as <-.
  - apply (wf_loop_step m s _ id (lp_job l) (Some l) (Some (setPhase Executing l))
             (setExecuting true (getJobExecutionState (lp_job l) s))); [done|].
    pose proof (executing_loop m s id l Hwf El) as He. unfold isExecuting in He. rewrite Ep in He.
    loop_fields Hwf Ep. by rewrite He.
  - apply (wf_loop_step m s _ id (lp_job l) (Some l) (Some (setPhase (Finished false) l))
             (getJobExecutionState (lp_job l) s)); [done|].
    loop_fields Hwf Ep.
Qed.

Lemma finishRun_wf m s id ok s' : refresh_wf m s -> finishRun id ok s = Some s' -> refresh_wf m s'.
Proof.
  unfold finishRun. intros Hwf E. destruct (jm_get id (r_loops s)) as [l|] eqn:El; [|done].
  destruct (lp_phase l) eqn:Ep; try done. injection E as <-.
  pose proof (active_pos m s id l Hwf El) as Ha. unfold isExecuting in Ha. rewrite Ep in Ha.
  pose proof (executing_loop m s id l Hwf El) as He. unfold isExecuting in He. rewrite Ep in He.
  apply (wf_loop_step m s _ id (lp_job l) (Some l) (Some (setPhase (Finished (negb ok && throwOnFailure (lp_options l))) l))
           (setExecuting false (getJobExecutionState (lp_job l) s))); [done|].
  loop_fields Hwf Ep. by rewrite He.
Qed.

(** The run [releaseRun] starts for the pending request. *)
Definition pendingRun (l : Loop) (e : JobExecutionState) (now : Z) : Loop := {|
  lp_job := lp_job l; lp_phase := WaitSemaphore; lp_context := pendingContext e;
  lp_options := {|
    throwOnFailure := default false (pendingThrowOnFailure e);
    requestContext := pendingRequestContext e;
    trigger := default Internal (pendingTrigger e);
    requestedAt := default now (pendingRequestedAt e);
    onCompleted := default [] (pendingCompletionObservers e) |} |}.

Lemma releaseRun_eq m s id now l threw : refresh_wf m s -> jm_get id (r_loops s) = Some l ->
  lp_phase l = Finished threw ->
  releaseRun id now s = Some (
    let e := getJobExecutionState (lp_job l) s in
    if threw || negb (pending e) then setLoop id (setPhase Returned l) s
    else setLoop id (pendingRun l e now) (putState (lp_job l) (cleared e)
           (with_counts (r_active s) (r_waiting s + 1) (r_pending s - 1) s))).
Proof.
  intros Hwf El Ep. unfold releaseRun. rewrite El, Ep. simpl.
  destruct (threw || negb (pending (getJobExecutionState (lp_job l) s))) eqn:Eb; [done|].
  apply orb_false_iff in Eb as [-> Epe%negb_false_iff].
  rewrite clearPendingRefresh_eq by by apply (pending_le m). rewrite Epe. done.
Qed.

Lemma cleared_clear e : pending (cleared e) = false -> clearFields (cleared e) = cleared e.
Proof. done. Qed.

Lemma releaseRun_wf m s id now s' : refresh_wf m s -> releaseRun id now s = Some s' -> refresh_wf m s'.
Proof.
  intros Hwf E. assert (E' := E). unfold releaseRun in E'.
  destruct (jm_get id (r_loops s)) as [l|] eqn:El; [|done].
  destruct (lp_phase l) eqn:Ep; try done. clear E'.
  rewrite (releaseRun_eq m s id now l threw) in E by done. simpl in E.
  pose proof (executing_loop m s id l Hwf El) as He. unfold isExecuting in He. rewrite Ep in He.
  destruct (threw || _) eqn:Eb; injection E as <-.
  - apply (wf_loop_step m s _ id (lp_job l) (Some l) (Some (setPhase Returned l)) (getJobExecutionState (lp_job l) s)); [done|].
    loop_fields Hwf Ep.
  - apply orb_false_iff in Eb as [-> Epe%negb_false_iff].
    pose proof (loop_running m id l s Hwf El) as Hr.
    apply (wf_loop_step m s _ id (lp_job l) (Some l) (Some (pendingRun l (getJobExecutionState (lp_job l) s) now))
             (cleared (getJobExecutionState (lp_job l) s))); [done|].
    loop_fields Hwf Ep. rewrite Epe. simpl. lia.
Qed.

Lemma setRefreshPending_loops j v s : r_loops (setRefreshPending j v s) = r_loops s.
Proof. unfold setRefreshPending. by case_match. Qed.

(** The loop of a settled job ends, and a request that is still pending is dropped. *)
Lemma settleLoop_eq m s id l : refresh_wf m s -> jm_get id (r_loops s) = Some l -> lp_phase l = Returned ->
  settleLoop id s = Some (
    let e := getJobExecutionState (lp_job l) s in
    record_drop (pendingObservers e) (with_loops (jm_del id (r_loops s)) (putState (lp_job l) (cleared (setRunning false e))
      (with_counts (r_active s) (r_waiting s) (r_pending s - one (pending e)) s)))).
Proof.
  intros Hwf El Ep. unfold settleLoop. rewrite El, Ep. simpl.
  rewrite clearPendingRefresh_eq; rewrite getState_put_eq; simpl; [|by apply (pending_le m)].
  f_equal. unfold putState, with_counts, with_states, with_loops, record_drop. simpl. by rewrite jm_set_set, setRefreshPending_loops.
Qed.

Lemma settleLoop_wf m s id s' : refresh_wf m s -> settleLoop id s = Some s' -> refresh_wf m s'.
Proof.
  intros Hwf E. assert (E' := E). unfold settleLoop in E'.
  destruct (jm_get id (r_loops s)) as [l|] eqn:El; [|done].
  destruct (lp_phase l) eqn:Ep; try done. clear E'.
  rewrite (settleLoop_eq m s id l) in E by done. injection E as <-.
  pose proof (executing_loop m s id l Hwf El) as He. unfold isExecuting in He. rewrite Ep in He.
  pose proof (loop_running m id l s Hwf El) as Hr.
  apply (wf_loop_step m s _ id (lp_job l) (Some l) None (cleared (setRunning false (getJobExecutionState (lp_job l) s)))); [done|].
  loop_fields Hwf Ep. by rewrite Hr.
Qed.

(** ** Immediate refreshes

    What a step of the immediate refresh [id] of job [j] changes. *)
Record immediate_step (s s' : RS) (id : Z) (j : string) (old new : option Immediate) : Prop := {
  is_old : jm_get id (r_immediates s) = old;
  is_immediates : r_immediates s' = match new with
                                    | Some i => jm_set id i (r_immediates s)
                                    | None => jm_del id (r_immediates s)
                                    end;
  is_states : r_states s' = r_states s;
  is_loops : r_loops s' = r_loops s;
  is_cancellations : r_cancellations s' = r_cancellations s;
  is_next : r_nextTask s <= r_nextTask s';
  is_id : old = None -> id < r_nextTask s';
  is_old_job : forall i, old = Some i -> im_job i = j;
  is_new_job : forall i, new = Some i -> im_job i = j;
  is_waiting : r_waiting s' = r_waiting s - of_opt (fun i => one (negb (im_executing i))) old +
                 of_opt (fun i => one (negb (im_executing i))) new;
  is_active : r_active s' = r_active s - of_opt (fun i => one (im_executing i)) old +
                of_opt (fun i => one (im_executing i)) new;
  is_pending : r_pending s' = r_pending s;
  is_mutex : of_opt (fun i => one (im_executing i)) new <= of_opt (fun i => one (im_executing i)) old \/
             mutexUse j s = 0;
  is_account : forall x, occ x (r_requested s') - occ x (r_requested s) =
    occ x (map fst (r_answered s')) - occ x (map fst (r_answered s)) +
    (occ x (r_dropped s') - occ x (r_dropped s)) +
    (of_opt (fun i => occ x (onCompleted (im_options i))) new -
     of_opt (fun i => occ x (onCompleted (im_options i))) old);
}.

Lemma wf_immediate_step m s s' id j old new : refresh_wf m s -> immediate_step s s' id j old new -> refresh_wf m s'.
Proof.
  intros [W1 W2 W3 W4 F1 F2 F3 Wr We Wp Wc Ww Wa Wn Wm Ws Wo] [S1 S2 S3 S4 S5 S6 S7 Jo Jn Sw Sa Sp Sm So].
  assert (forall f, jm_sum f (r_immediates s') = jm_sum f (r_immediates s) - of_opt f old + of_opt f new) as Hsum.
  { intros f. rewrite S2. destruct new; [by rewrite jm_sum_set, S1|].
    rewrite jm_sum_del, S1 by done. simpl. lia. }
  unfold getJobExecutionState in *. constructor; unfold getJobExecutionState; rewrite ?S3, ?S4, ?S5; try done.
  - rewrite S2. destruct new; [by apply jm_wf_set|by apply jm_wf_del].
  - intros k Hk. apply F1. lia.
  - intros k Hk. rewrite S2. assert (jm_get k (r_immediates s) = None) as Hn by (apply F2; lia).
    destruct new as [i|]; [rewrite jm_get_set|rewrite jm_get_del]; case_decide; try done. subst k.
    rewrite Hn in S1. specialize (S7 (eq_sym S1)). lia.
  - intros k Hk. apply F3. lia.
  - rewrite Hsum. lia.
  - rewrite Hsum. lia.
  - lia.
  - intros j'. unfold mutexUse in *. rewrite S4, S5, Hsum. specialize (Wm j').
    assert (forall o, (forall i, o = Some i -> im_job i = j) ->
      of_opt (fun i => one (String.eqb (im_job i) j' && im_executing i)) o =
      if decide (j = j') then of_opt (fun i => one (im_executing i)) o else 0) as Ho.
    { intros [i|] Hi; simpl; [|by case_decide]. rewrite (Hi i eq_refl).
      case_decide as E; [subst j'; by rewrite String.eqb_refl|]. by destruct (String.eqb_spec j j'). }
    rewrite !Ho by done. case_decide; [subst j'|lia].
    destruct old as [i|], new as [i'|]; simpl in *; unfold one in *; repeat case_match; lia.
  - unfold semaphoreUse in *. rewrite S4. done.
  - intros x. rewrite Hsum. specialize (Wo x). specialize (So x). lia.
Qed.

(** The waiting gauge covers a waiting immediate refresh, the active gauge an executing one. *)
Lemma immediate_pos m s id i : refresh_wf m s -> jm_get id (r_immediates s) = Some i ->
  one (negb (im_executing i)) <= r_waiting s /\ one (im_executing i) <= r_active s.
Proof.
  intros Hwf Ei. rewrite (w_waiting _ _ Hwf), (w_active _ _ Hwf).
  pose proof (jm_sum_nonneg (fun l => one (isWaiting l)) (r_loops s) (fun k => one_nonneg _)).
  pose proof (jm_sum_nonneg (fun l => one (isExecuting l)) (r_loops s) (fun k => one_nonneg _)).
  pose proof (fun f : Immediate -> Z => jm_sum_del f id (r_immediates s) (w_immediates _ _ Hwf)) as Hd.
  rewrite Ei in Hd. simpl in Hd.
  pose proof (Hd (fun i => one (negb (im_executing i)))). pose proof (Hd (fun i => one (im_executing i))).
  pose proof (jm_sum_nonneg (fun i => one (negb (im_executing i))) (jm_del id (r_immediates s)) (fun k => one_nonneg _)).
  pose proof (jm_sum_nonneg (fun i => one (im_executing i)) (jm_del id (r_immediates s)) (fun k => one_nonneg _)).
  simpl in *. lia.
Qed.

Lemma refreshJobImmediately_wf m s j options s' : refresh_wf m s ->
  refreshJobImmediately j options s = Ok s' -> refresh_wf m s'.
Proof.
  unfold refreshJobImmediately. intros Hwf. destruct (negb (r_acceptingRefreshes s)).
  - destruct (isUserCommand options); [done|]. by intros [= <-].
  - destruct (_ && _); intros [= <-]; [done|].
    apply (wf_immediate_step m s _ (r_nextTask s) j None
             (Some {| im_job := j; im_executing := false; im_options := options |})); [done|].
    split; simpl; try done; try lia.
    + apply (w_fresh_immediates _ _ Hwf). lia.
    + by intros i [= <-].
    + account. lia.
Qed.

Lemma acquireImmediate_wf m s id s' : refresh_wf m s -> acquireImmediate id s = Some s' -> refresh_wf m s'.
Proof.
  unfold acquireImmediate. intros Hwf. destruct (jm_get id (r_immediates s)) as [i|] eqn:Ei; [|done].
  destruct (immediate_pos m s id i Hwf Ei) as [Hw _].
  destruct (im_executing i) eqn:Ee; [done|]. simpl in Hw.
  destruct (Z.eqb_spec (mutexUse (im_job i) s) 0) as [Em|]; [|done].
  destruct (_ && _); intros [= <-].
  - apply (wf_immediate_step m s _ id (im_job i) (Some i) None); [done|].
    split; simpl; rewrite ?Ee; simpl; try done; try lia.
    + by intros ? [= <-].
    + account. lia.
  - apply (wf_immediate_step m s _ id (im_job i) (Some i)
             (Some {| im_job := im_job i; im_executing := true; im_options := im_options i |})); [done|].
    split; simpl; rewrite ?Ee; simpl; try done; try lia; by intros ? [= <-].
Qed.

Lemma finishImmediate_wf m s id ok s' : refresh_wf m s -> finishImmediate id ok s = Some s' -> refresh_wf m s'.
Proof.
  unfold finishImmediate. intros Hwf. destruct (jm_get id (r_immediates s)) as [i|] eqn:Ei; [|done].
  destruct (immediate_pos m s id i Hwf Ei) as [_ Ha].
  destruct (im_executing i) eqn:Ee; [|done]. simpl in Ha. intros [= <-].
  apply (wf_immediate_step m s _ id (im_job i) (Some i) None); [done|].
  split; simpl; rewrite ?Ee; simpl; try done; try lia.
  - by intros ? [= <-].
  - account. lia.
Qed.

(** ** Cancellations *)

Lemma wf_cancellation_step m s id old new next : refresh_wf m s ->
  jm_get id (r_cancellations s) = old -> r_nextTask s <= next -> (old = None -> id < next) ->
  (forall c c', old = Some c -> new = Some c' -> ca_job c = ca_job c') ->
  of_opt (fun c => one (ca_holding c)) new <= of_opt (fun c => one (ca_holding c)) old \/
    (forall c, new = Some c -> mutexUse (ca_job c) s = 0) ->
  refresh_wf m (with_next next (with_cancellations
    (match new with
     | Some c => jm_set id c (r_cancellations s)
     | None => jm_del id (r_cancellations s)
     end) s)).
Proof.
  intros [W1 W2 W3 W4 F1 F2 F3 Wr We Wp Wc Ww Wa Wn Wm Ws Wo] Eo Hn Hid Hj Hm.
  constructor; try done; simpl.
  - destruct new; [by apply jm_wf_set|by apply jm_wf_del].
  - intros k Hk. apply F1. lia.
  - intros k Hk. apply F2. lia.
  - intros k Hk. assert (jm_get k (r_cancellations s) = None) as Hc by (apply F3; lia).
    destruct new as [c|]; [rewrite jm_get_set|rewrite jm_get_del]; case_decide; try done. subst k.
    rewrite Hc in Eo. specialize (Hid (eq_sym Eo)). lia.
  - intros j'. unfold mutexUse in *. simpl. specialize (Wm j').
    set (f := fun c => one (String.eqb (ca_job c) j' && ca_holding c)) in *.
    assert (jm_sum f match new with Some c => jm_set id c (r_cancellations s) | None => jm_del id (r_cancellations s) end =
            jm_sum f (r_cancellations s) - of_opt f old + of_opt f new) as ->.
    { destruct new; [by rewrite jm_sum_set, Eo|]. rewrite jm_sum_del, Eo by done. simpl. lia. }
    assert (0 <= of_opt f old) by (destruct old; simpl; [apply one_nonneg|lia]).
    destruct new as [c'|]; simpl; [|lia]. unfold f at 3. 
    destruct (String.eqb_spec (ca_job c') j') as [Ej|]; simpl; [|lia].
    destruct Hm as [Hm|Hm].
    + destruct old as [c|]; simpl in *; [|unfold one in *; destruct (ca_holding c'); lia].
      unfold f at 2. rewrite (Hj c c' eq_refl eq_refl), Ej, String.eqb_refl. simpl. lia.
    + specialize (Hm c' eq_refl). rewrite Ej in Hm. fold f in Hm. destruct (ca_holding c'); simpl; lia.
Qed.

Lemma with_next_id s : with_next (r_nextTask s) s = s.
Proof. by destruct s. Qed.

Lemma requestCancellation_wf m s j : refresh_wf m s -> refresh_wf m (requestCancellation j s).
Proof.
  intros Hwf. apply (wf_cancellation_step m s (r_nextTask s) None (Some {| ca_job := j; ca_holding := false |})); try done; try lia.
  - apply (w_fresh_cancellations _ _ Hwf). lia.
  - left. simpl. lia.
Qed.

Lemma acquireCancellation_wf m s id s' : refresh_wf m s -> acquireCancellation id s = Some s' -> refresh_wf m s'.
Proof.
  unfold acquireCancellation. intros Hwf. destruct (jm_get id (r_cancellations s)) as [c|] eqn:Ec; [|done].
  destruct (ca_holding c) eqn:Eh; [done|]. destruct (Z.eqb_spec (mutexUse (ca_job c) s) 0); [|done]. intros [= <-].
  apply (wf_cancellation_step m s id (Some c) (Some {| ca_job := ca_job c; ca_holding := true |}) (r_nextTask s)); try done; try lia.
  - by intros ? ? [= <-] [= <-].
  - right. by intros ? [= <-].
Qed.

Lemma finishCancellation_wf m s id s' : refresh_wf m s -> finishCancellation id s = Some s' -> refresh_wf m s'.
Proof.
  unfold finishCancellation. intros Hwf. destruct (jm_get id (r_cancellations s)) as [c|] eqn:Ec; [|done].
  destruct (ca_holding c) eqn:Eh; [|done]. intros [= <-].
  apply (wf_cancellation_step m s id (Some c) None (r_nextTask s)); try done; try lia.
  left. simpl. rewrite Eh. simpl. lia.
Qed.

(** ** Shutdown *)

Lemma clearOne_wf m s j : refresh_wf m s ->
  refresh_wf m (clearPendingRefresh j (answer (pendingObservers (getJobExecutionState j s)) false s)).
Proof.
  intros Hwf. rewrite clearPendingRefresh_eq by exact (pending_le m s j Hwf).
  apply (wf_state_step m s _ j (cleared (getJobExecutionState j s))); try done.
  - simpl. replace (getJobExecutionState j (answer _ false s)) with (getJobExecutionState j s) by done. lia.
  - account. unfold pendingObservers. simpl. lia.
Qed.

Lemma clearAll_wf m l s : refresh_wf m s -> refresh_wf m (clearAll l s).
Proof. revert s. induction l as [|j l IH]; intros s Hwf; [done|]. simpl. by apply IH, clearOne_wf. Qed.

Lemma with_admission_wf m a b s : refresh_wf m s -> refresh_wf m (with_admission a b s).
Proof. intros [W1 W2 W3 W4 F1 F2 F3 Wr We Wp Wc Ww Wa Wn Wm Ws Wo]. by constructor. Qed.

Lemma close_wf m s : refresh_wf m s -> refresh_wf m (closeBackgroundRefreshAdmission s).
Proof. intros Hwf. by apply clearAll_wf, with_admission_wf. Qed.

Lemma stop_wf m s : refresh_wf m s -> refresh_wf m (stop s).
Proof. intros Hwf. by apply close_wf, with_admission_wf. Qed.

(** ** Every reachable state *)

Lemma step_wf m s s' : refresh_wf m s -> step m s s' -> refresh_wf m s'.
Proof.
  intros Hwf Hs. destruct Hs as [| | | | | | | | | | | | |].
  - by apply refreshJobWithOptions_wf.
  - by eapply acquireSemaphore_wf.
  - by eapply acquireMutex_wf.
  - by eapply finishRun_wf.
  - by eapply releaseRun_wf.
  - by eapply settleLoop_wf.
  - by eapply refreshJobImmediately_wf.
  - by eapply acquireImmediate_wf.
  - by eapply finishImmediate_wf.
  - by apply requestCancellation_wf.
  - by eapply acquireCancellation_wf.
  - by eapply finishCancellation_wf.
  - by apply close_wf.
  - by apply stop_wf.
Qed.

Lemma reachable_wf m s : 0 <= m -> reachable m s -> refresh_wf m s.
Proof. intros Hm. induction 1; [by apply initialRefresh_wf|by eapply step_wf]. Qed.

End RefreshSteps.
