(* ===== verification/RefreshDrain.v ===== *)
(** * Shutdown of the refresh scheduler

    Closing the background admission is final and leaves no pending request; from
    then on nothing starts, the tasks left can always go on, and each of their
    steps brings the end closer. *)

From S2P Require Import Prelude JsValue Domain Refresh RefreshInv RefreshSteps.

Open Scope Z_scope.

Module RefreshDrain.
Import Refresh RefreshInv RefreshSteps.

(** The steps of the tasks themselves, as opposed to those of their callers. *)
Inductive work (m : Z) (s s' : RS) : Prop :=
  | work_semaphore id : acquireSemaphore m id s = Some s' -> work m s s'
  | work_mutex id : acquireMutex id s = Some s' -> work m s s'
  | work_finish id ok : finishRun id ok s = Some s' -> work m s s'
  | work_release id now : releaseRun id now s = Some s' -> work m s s'
  | work_settle id : settleLoop id s = Some s' -> work m s s'
  | work_immediate_mutex id : acquireImmediate id s = Some s' -> work m s s'
  | work_immediate_finish id ok : finishImmediate id ok s = Some s' -> work m s s'
  | work_cancel_mutex id : acquireCancellation id s = Some s' -> work m s s'
  | work_cancel_finish id : finishCancellation id s = Some s' -> work m s s'.

Inductive works (m : Z) : nat -> RS -> RS -> Prop :=
  | works_0 s : works m 0 s s
  | works_S n s s' s'' : work m s s' -> works m n s' s'' -> works m (S n) s s''.

Lemma work_step m s s' : work m s s' -> step m s s'.
Proof.
  destruct 1; [by eapply step_semaphore|by eapply step_mutex|by eapply step_finish|by eapply step_release
    |by eapply step_settle|by eapply step_immediate_mutex|by eapply step_immediate_finish
    |by eapply step_cancel_mutex|by eapply step_cancel_finish].
Qed.

(** No task is left. *)
Definition quiescent (s : RS) : Prop := r_loops s = [] /\ r_immediates s = [] /\ r_cancellations s = [].

(** ** Progress: while a task is left, some task can go on *)

Lemma jm_head {K V} `{EqDecision K} (l : list (K * V)) : l <> [] -> exists k v, jm_get k l = Some v.
Proof. destruct l as [|[k v] l]; [done|]. intros _. exists k, v. simpl. by case_decide. Qed.

(** A sum that is not zero has an element that counts. *)
Lemma jm_sum_pick {K V} `{EqDecision K} (p : V -> bool) (l : list (K * V)) : jm_wf l ->
  0 < jm_sum (fun v => one (p v)) l -> exists k v, jm_get k l = Some v /\ p v = true.
Proof.
  induction l as [|[k v] l IH]; simpl; [lia|]. intros Hwf Hs. destruct (p v) eqn:Ep.
  - exists k, v. by rewrite decide_True.
  - apply NoDup_cons_1_2 in Hwf as Hl. destruct IH as (k' & v' & E & Ep'); [done|simpl in Hs; lia|].
    exists k', v'. rewrite decide_False; [done|]. intros ->.
    apply NoDup_cons_1_1 in Hwf. apply Hwf, list_elem_of_In. by eapply jm_get_Some_key.
Qed.

(** A holder of a mutex can go on. *)
Lemma mutex_holder_works m s j : refresh_wf m s -> mutexUse j s <> 0 -> exists s', work m s s'.
Proof.
  intros Hwf Hm. unfold mutexUse in Hm.
  pose proof (jm_sum_nonneg (fun l => one (String.eqb (lp_job l) j && holdsMutex l)) (r_loops s) (fun k => one_nonneg _)).
  pose proof (jm_sum_nonneg (fun i => one (String.eqb (im_job i) j && im_executing i)) (r_immediates s) (fun k => one_nonneg _)).
  pose proof (jm_sum_nonneg (fun c => one (String.eqb (ca_job c) j && ca_holding c)) (r_cancellations s) (fun k => one_nonneg _)).
  destruct (decide (0 < jm_sum (fun l => one (String.eqb (lp_job l) j && holdsMutex l)) (r_loops s))) as [Hl|Hl].
  - apply jm_sum_pick in Hl as (id & l & El & [_ Hh]%andb_true_iff); [|apply Hwf].
    unfold holdsMutex in Hh. destruct (lp_phase l) eqn:Ep; try done.
    + eexists. apply (work_finish _ _ _ id true). unfold finishRun. by rewrite El, Ep.
    + eexists. apply (work_release _ _ _ id 0). by eapply releaseRun_eq.
  - destruct (decide (0 < jm_sum (fun i => one (String.eqb (im_job i) j && im_executing i)) (r_immediates s))) as [Hi|Hi].
    + apply jm_sum_pick in Hi as (id & i & Ei & [_ Hh]%andb_true_iff); [|apply Hwf].
      eexists. apply (work_immediate_finish _ _ _ id true). unfold finishImmediate. by rewrite Ei, Hh.
    + assert (0 < jm_sum (fun c => one (String.eqb (ca_job c) j && ca_holding c)) (r_cancellations s)) as Hc by lia.
      apply jm_sum_pick in Hc as (id & c & Ec & [_ Hh]%andb_true_iff); [|apply Hwf].
      eexists. apply (work_cancel_finish _ _ _ id). unfold finishCancellation. by rewrite Ec, Hh.
Qed.

(** A loop past the semaphore can go on, or the holder of its mutex can. *)
Lemma semaphore_holder_works m s : refresh_wf m s -> 0 < semaphoreUse s -> exists s', work m s s'.
Proof.
  intros Hwf Hs. apply jm_sum_pick in Hs as (id & l & El & Hh); [|apply Hwf].
  destruct (decide (mutexUse (lp_job l) s = 0)) as [Em|Em]; [|by eapply mutex_holder_works].
  unfold holdsSemaphore in Hh. destruct (lp_phase l) eqn:Ep; try done.
  - destruct (r_acceptingBackground s) eqn:Ea; eexists; apply (work_mutex _ _ _ id);
      unfold acquireMutex; rewrite El, Ep, Em; simpl; rewrite Ea; done.
  - eexists. apply (work_finish _ _ _ id true). unfold finishRun. by rewrite El, Ep.
  - eexists. apply (work_release _ _ _ id 0). by eapply releaseRun_eq.
Qed.

Lemma progress m s : 0 < m -> refresh_wf m s -> ~ quiescent s -> exists s', work m s s'.
Proof.
  intros Hm Hwf Hq.
  destruct (decide (0 < semaphoreUse s)); [by apply semaphore_holder_works|].
  destruct (decide (r_loops s = [])) as [El|(id & l & El)%jm_head].
  - destruct (decide (r_immediates s = [])) as [Ei|(id & i & Ei)%jm_head].
    + destruct (decide (r_cancellations s = [])) as [Ec|(id & c & Ec)%jm_head]; [by destruct Hq|].
      destruct (ca_holding c) eqn:Eh.
      * eexists. apply (work_cancel_finish _ _ _ id). unfold finishCancellation. by rewrite Ec, Eh.
      * destruct (decide (mutexUse (ca_job c) s = 0)) as [Em|Em]; [|by eapply mutex_holder_works].
        eexists. apply (work_cancel_mutex _ _ _ id). unfold acquireCancellation. by rewrite Ec, Eh, Em.
    + destruct (im_executing i) eqn:Eh.
      * eexists. apply (work_immediate_finish _ _ _ id true). unfold finishImmediate. by rewrite Ei, Eh.
      * destruct (decide (mutexUse (im_job i) s = 0)) as [Em|Em]; [|by eapply mutex_holder_works].
        destruct (negb (r_acceptingBackground s) && negb (isUserCommand (im_options i))) eqn:Eb;
          eexists; apply (work_immediate_mutex _ _ _ id); unfold acquireImmediate;
          rewrite Ei, Eh, Em; simpl; rewrite Eb; done.
  - destruct (lp_phase l) eqn:Ep.
    + eexists. apply (work_semaphore _ _ _ id). unfold acquireSemaphore. rewrite El, Ep.
      destruct (Z.ltb_spec (semaphoreUse s) m); [done|lia].
    + pose proof (loop_counted (fun k => one (holdsSemaphore k)) id l s (fun k => one_nonneg _) El) as Hc.
      unfold semaphoreUse in *. unfold holdsSemaphore at 1 in Hc. rewrite Ep in Hc. simpl in Hc. lia.
    + eexists. apply (work_finish _ _ _ id true). unfold finishRun. by rewrite El, Ep.
    + eexists. apply (work_release _ _ _ id 0). by eapply releaseRun_eq.
    + eexists. apply (work_settle _ _ _ id). by eapply settleLoop_eq.
Qed.

(** ** A closed admission stays closed and leaves nothing pending *)

Definition noPending (s : RS) : Prop := forall j, pending (getJobExecutionState j s) = false.

Definition closed (s : RS) : Prop := r_acceptingBackground s = false /\ noPending s.

Lemma setRefreshPending_pending v j s j' :
  pending (getJobExecutionState j' (setRefreshPending j v s)) =
  if decide (j = j') then v else pending (getJobExecutionState j' s).
Proof.
  unfold setRefreshPending. case_match eqn:E.
  - apply eqb_prop in E. case_decide; [by subst|done].
  - rewrite getState_put. by case_decide.
Qed.

Lemma clear_pending j s j' :
  pending (getJobExecutionState j' (clearPendingRefresh j s)) =
  if decide (j = j') then false else pending (getJobExecutionState j' s).
Proof.
  unfold clearPendingRefresh. rewrite getState_put. case_decide as E.
  - simpl. rewrite setRefreshPending_pending. by rewrite decide_True.
  - rewrite setRefreshPending_pending. by rewrite decide_False.
Qed.

Lemma clear_admission j s : r_acceptingBackground (clearPendingRefresh j s) = r_acceptingBackground s.
Proof. unfold clearPendingRefresh, setRefreshPending. simpl. by case_match. Qed.

Lemma clear_loops j s : r_loops (clearPendingRefresh j s) = r_loops s.
Proof. unfold clearPendingRefresh. simpl. apply setRefreshPending_loops. Qed.

Lemma clearAll_spec l s :
  r_acceptingBackground (clearAll l s) = r_acceptingBackground s /\
  r_loops (clearAll l s) = r_loops s /\
  forall j, pending (getJobExecutionState j (clearAll l s)) =
            if decide (j ∈ l) then false else pending (getJobExecutionState j s).
Proof.
  revert s. induction l as [|k l IH]; intros s; simpl.
  - split_and!; try done.
  - destruct (IH (clearPendingRefresh k (answer (default [] (pendingCompletionObservers (getJobExecutionState k s))) false s)))
      as (-> & -> & Hp). rewrite clear_admission, clear_loops. split_and!; try done.
    intros j. rewrite Hp, clear_pending.
    rewrite (decide_ext (j ∈ k :: l) (j = k \/ j ∈ l)) by apply elem_of_cons.
    repeat case_decide; naive_solver.
Qed.

Lemma close_closed s : closed (closeBackgroundRefreshAdmission s).
Proof.
  unfold closeBackgroundRefreshAdmission. pose proof (clearAll_spec (jm_keys (r_states (with_admission (r_acceptingRefreshes s) false s)))
    (with_admission (r_acceptingRefreshes s) false s)) as (Ha & _ & Hp). split; [done|].
  intros j. rewrite Hp. case_decide as Hj; [done|]. unfold getJobExecutionState. simpl in *.
  assert (jm_get j (r_states s) = None) as -> by (apply jm_get_None; by rewrite <- list_elem_of_In). done.
Qed.

(** The executing loops of [s'] were executing in [s]. *)
Definition startsNothing (s s' : RS) : Prop :=
  forall id l', jm_get id (r_loops s') = Some l' -> isExecuting l' = true ->
    exists l, jm_get id (r_loops s) = Some l /\ isExecuting l = true.

Lemma startsNothing_same s s' : r_loops s' = r_loops s -> startsNothing s s'.
Proof. intros E id l' El Hx. rewrite E in El. by exists l'. Qed.

Lemma startsNothing_set s s' id l : r_loops s' = jm_set id l (r_loops s) -> isExecuting l = false -> startsNothing s s'.
Proof.
  intros E Hn k l' El Hx. rewrite E, jm_get_set in El. case_decide; [congruence|]. by exists l'.
Qed.

Lemma startsNothing_del s s' id : r_loops s' = jm_del id (r_loops s) -> startsNothing s s'.
Proof. intros E k l' El Hx. rewrite E, jm_get_del in El. case_decide; [done|]. by exists l'. Qed.

Lemma noPending_same s s' : r_states s' = r_states s -> noPending s -> noPending s'.
Proof. intros E H j. unfold getJobExecutionState. rewrite E. apply H. Qed.

Lemma noPending_put s s' j e : r_states s' = jm_set j e (r_states s) -> pending e = false -> noPending s -> noPending s'.
Proof.
  intros E He H j'. specialize (H j'). unfold getJobExecutionState in *. rewrite E, jm_get_set. by case_decide.
Qed.

Lemma closed_step m s s' : refresh_wf m s -> closed s -> step m s s' -> closed s' /\ startsNothing s s'.
Proof.
  intros Hwf [Ha Hp] Hs.
  assert (r_acceptingBackground s' = false -> noPending s' -> startsNothing s s' -> closed s' /\ startsNothing s s') as Hc by done.
  destruct Hs as [s j c o|s id s' E|s id s' E|s id ok s' E|s id now s' E|s id s' E|s j o s' E|s id s' E|s id ok s' E|s j|s id s' E|s id s' E|s|s].
  - apply Hc; unfold refreshJobWithOptions; simpl; rewrite Ha; simpl; [done|done|by apply startsNothing_same].
  - unfold acquireSemaphore in E. repeat case_match; try done. injection E as <-.
    apply Hc; [done|done|]. by eapply startsNothing_set.
  - unfold acquireMutex in E. simpl in E. rewrite Ha in E. simpl in E. repeat case_match; try done. injection E as <-.
    apply Hc; [done|done|]. by eapply startsNothing_set.
  - unfold finishRun in E. repeat case_match; try done. injection E as <-.
    apply Hc; [done| |by eapply startsNothing_set]. eapply noPending_put; [done| |done]. apply Hp.
  - assert (E' := E). unfold releaseRun in E'. destruct (jm_get id (r_loops s)) as [l|] eqn:El; [|done].
    destruct (lp_phase l) eqn:Ep; try done. rewrite (releaseRun_eq m s id now l threw) in E by done. simpl in E.
    rewrite Hp, orb_true_r in E. injection E as <-. apply Hc; [done|done|by eapply startsNothing_set].
  - assert (E' := E). unfold settleLoop in E'. destruct (jm_get id (r_loops s)) as [l|] eqn:El; [|done].
    destruct (lp_phase l) eqn:Ep; try done. rewrite (settleLoop_eq m s id l) in E by done. injection E as <-.
    apply Hc; [done|by eapply noPending_put|by eapply startsNothing_del].
  - unfold refreshJobImmediately in E. repeat case_match; try done; injection E as <-;
      (apply Hc; [done|done|by apply startsNothing_same]).
  - unfold acquireImmediate in E. repeat case_match; try done; injection E as <-;
      (apply Hc; [done|done|by apply startsNothing_same]).
  - unfold finishImmediate in E. repeat case_match; try done; injection E as <-;
      (apply Hc; [done|done|by apply startsNothing_same]).
  - apply Hc; [done|done|by apply startsNothing_same].
  - unfold acquireCancellation in E. repeat case_match; try done; injection E as <-;
      (apply Hc; [done|done|by apply startsNothing_same]).
  - unfold finishCancellation in E. repeat case_match; try done; injection E as <-;
      (apply Hc; [done|done|by apply startsNothing_same]).
  - split; [apply close_closed|]. apply startsNothing_same. unfold closeBackgroundRefreshAdmission.
    edestruct clearAll_spec as (_ & -> & _). done.
  - split; [apply close_closed|]. apply startsNothing_same. unfold stop, closeBackgroundRefreshAdmission.
    edestruct clearAll_spec as (_ & -> & _). done.
Qed.

(** ** The steps left to a stopped scheduler *)

Definition loopRank (l : Loop) : Z :=
  match lp_phase l with WaitSemaphore => 5 | WaitMutex => 4 | Executing => 3 | Finished _ => 2 | Returned => 1 end.

Definition immediateRank (i : Immediate) : Z := if im_executing i then 1 else 2.

Definition cancellationRank (c : Cancellation) : Z := if ca_holding c then 1 else 2.

(** A bound on the steps the tasks of [s] have left. *)
Definition stepsLeft (s : RS) : Z :=
  jm_sum loopRank (r_loops s) + jm_sum immediateRank (r_immediates s) + jm_sum cancellationRank (r_cancellations s).

Lemma stepsLeft_nonneg s : 0 <= stepsLeft s.
Proof.
  unfold stepsLeft.
  pose proof (jm_sum_nonneg loopRank (r_loops s)). pose proof (jm_sum_nonneg immediateRank (r_immediates s)).
  pose proof (jm_sum_nonneg cancellationRank (r_cancellations s)).
  assert (forall l, 0 <= loopRank l) by (intros l; unfold loopRank; case_match; lia).
  assert (forall i, 0 <= immediateRank i) by (intros i; unfold immediateRank; case_match; lia).
  assert (forall c, 0 <= cancellationRank c) by (intros c; unfold cancellationRank; case_match; lia).
  specialize (H ltac:(done)). specialize (H0 ltac:(done)). specialize (H1 ltac:(done)). lia.
Qed.

Lemma rank_set {V} (f : V -> Z) k v v' (l : list (Z * V)) : jm_get k l = Some v -> f v' < f v ->
  jm_sum f (jm_set k v' l) < jm_sum f l.
Proof. intros E H. rewrite jm_sum_set, E. simpl. lia. Qed.

Lemma rank_del {V} (f : V -> Z) k v (l : list (Z * V)) : jm_wf l -> jm_get k l = Some v -> 0 < f v ->
  jm_sum f (jm_del k l) < jm_sum f l.
Proof. intros Hwf E H. rewrite jm_sum_del, E by done. simpl. lia. Qed.

Lemma work_loses m s s' : refresh_wf m s -> closed s -> work m s s' -> stepsLeft s' < stepsLeft s.
Proof.
  intros Hwf [Ha Hp] Hw. unfold stepsLeft.
  destruct Hw as [id E|id E|id ok E|id now E|id E|id E|id ok E|id E|id E].
  - unfold acquireSemaphore in E. repeat case_match; try done. injection E as <-. simpl.
    apply Z.add_lt_mono_r, Z.add_lt_mono_r. eapply rank_set; [done|]. unfold loopRank. simpl. by rewrite H0.
  - unfold acquireMutex in E. simpl in E. rewrite Ha in E. simpl in E. repeat case_match; try done. injection E as <-. simpl.
    apply Z.add_lt_mono_r, Z.add_lt_mono_r. eapply rank_set; [done|]. unfold loopRank. simpl. by rewrite H0.
  - unfold finishRun in E. repeat case_match; try done. injection E as <-. simpl.
    apply Z.add_lt_mono_r, Z.add_lt_mono_r. eapply rank_set; [done|]. unfold loopRank. simpl. by rewrite H0.
  - assert (E' := E). unfold releaseRun in E'. destruct (jm_get id (r_loops s)) as [l|] eqn:El; [|done].
    destruct (lp_phase l) eqn:Ep; try done. rewrite (releaseRun_eq m s id now l threw) in E by done. simpl in E.
    rewrite Hp, orb_true_r in E. injection E as <-. simpl.
    apply Z.add_lt_mono_r, Z.add_lt_mono_r. eapply rank_set; [done|]. unfold loopRank. simpl. by rewrite Ep.
  - assert (E' := E). unfold settleLoop in E'. destruct (jm_get id (r_loops s)) as [l|] eqn:El; [|done].
    destruct (lp_phase l) eqn:Ep; try done. rewrite (settleLoop_eq m s id l) in E by done. injection E as <-. simpl.
    apply Z.add_lt_mono_r, Z.add_lt_mono_r. eapply rank_del; [apply Hwf|done|]. unfold loopRank. by rewrite Ep.
  - unfold acquireImmediate in E. repeat case_match; try done; injection E as <-; simpl;
      apply Z.add_lt_mono_r, Z.add_lt_mono_l.
    + eapply rank_del; [apply Hwf|done|]. unfold immediateRank. by rewrite H0.
    + eapply rank_set; [done|]. unfold immediateRank. simpl. by rewrite H0.
  - unfold finishImmediate in E. repeat case_match; try done; injection E as <-; simpl.
    apply Z.add_lt_mono_r, Z.add_lt_mono_l. eapply rank_del; [apply Hwf|done|]. unfold immediateRank. by rewrite H0.
  - unfold acquireCancellation in E. repeat case_match; try done; injection E as <-; simpl.
    apply Z.add_lt_mono_l. eapply rank_set; [done|]. unfold cancellationRank. simpl. by rewrite H0.
  - unfold finishCancellation in E. repeat case_match; try done; injection E as <-; simpl.
    apply Z.add_lt_mono_l. eapply rank_del; [apply Hwf|done|]. unfold cancellationRank. by rewrite H0.
Qed.

Lemma works_closed m n s s' : refresh_wf m s -> closed s -> works m n s s' ->
  refresh_wf m s' /\ closed s' /\ Z.of_nat n + stepsLeft s' <= stepsLeft s.
Proof.
  intros Hwf Hc Hw. induction Hw as [s|n s s1 s' Hw _ IH]; [split_and!; try done; lia|].
  pose proof (work_loses m s s1 Hwf Hc Hw). apply work_step in Hw.
  destruct IH as (? & ? & ?); [by eapply step_wf|by eapply (closed_step m s s1)|]. split_and!; try done. lia.
Qed.

Lemma reachable_closed m s : 0 <= m -> reachable m s -> r_acceptingBackground s = false -> closed s.
Proof.
  intros Hm Hr. induction Hr as [|s s' Hr IH Hs]; [done|]. intros Ha'.
  pose proof (reachable_wf m s Hm Hr) as Hwf.
  destruct (r_acceptingBackground s) eqn:Ha; [|by eapply (closed_step m s s'), Hs; [|apply IH]].
  destruct Hs as [s j c o|s id s' E|s id s' E|s id ok s' E|s id now s' E|s id s' E|s j o s' E|s id s' E|s id ok s' E|s j|s id s' E|s id s' E|s|s];
    try apply close_closed; exfalso.
  - destruct (running (getJobExecutionState j s)) eqn:Er;
      [rewrite (coalesce_eq m) in Ha' by done|rewrite (start_eq m) in Ha' by done]; simpl in Ha'; congruence.
  - unfold acquireSemaphore in E. repeat case_match; try done. injection E as <-. simpl in *. congruence.
  - unfold acquireMutex in E. repeat case_match; try done; injection E as <-; simpl in *; congruence.
  - unfold finishRun in E. repeat case_match; try done. injection E as <-. simpl in *. congruence.
  - assert (E' := E). unfold releaseRun in E'. destruct (jm_get id (r_loops s)) as [l|] eqn:El; [|done].
    destruct (lp_phase l) eqn:Ep; try done. rewrite (releaseRun_eq m s id now l threw) in E by done.
    injection E as <-. revert Ha'. simpl. case_match; simpl; congruence.
  - assert (E' := E). unfold settleLoop in E'. destruct (jm_get id (r_loops s)) as [l|] eqn:El; [|done].
    destruct (lp_phase l) eqn:Ep; try done. rewrite (settleLoop_eq m s id l) in E by done. injection E as <-.
    simpl in Ha'. congruence.
  - unfold refreshJobImmediately in E. repeat case_match; try done; injection E as <-; simpl in *; congruence.
  - unfold acquireImmediate in E. repeat case_match; try done; injection E as <-; simpl in *; congruence.
  - unfold finishImmediate in E. repeat case_match; try done; injection E as <-; simpl in *; congruence.
  - simpl in *. congruence.
  - unfold acquireCancellation in E. repeat case_match; try done; injection E as <-; simpl in *; congruence.
  - unfold finishCancellation in E. repeat case_match; try done; injection E as <-; simpl in *; congruence.
Qed.

End RefreshDrain.
