(* ===== verification/RefreshClaims.v ===== *)
(** * What the refresh scheduler guarantees

    Exclusion and bounds in every reachable state, coalesced requests served by one
    more run, the account of completion callbacks, and shutdown. *)

From S2P Require Import Prelude JsValue Domain Refresh RefreshInv RefreshSteps RefreshDrain.
From stdpp Require Import relations.

Open Scope Z_scope.

Module RefreshClaims.
Import Refresh RefreshInv RefreshSteps RefreshDrain.

(** ** Runs as lists of events *)

Inductive Event : Type :=
  | Request (jobId : string) (context : option ProgressContext) (options : Options)
  | TakeSemaphore (id : Z) | TakeMutex (id : Z) | Finish (id : Z) (ok : bool) | Release (id : Z) (now : Z)
  | Settle (id : Z) | RequestImmediately (jobId : string) (options : Options) | TakeImmediate (id : Z)
  | FinishImmediate (id : Z) (ok : bool) | Stop.

Definition play (m : Z) (e : Event) (s : RS) : option RS :=
  match e with
  | Request j c o => Some (refreshJobWithOptions j c o s)
  | TakeSemaphore id => acquireSemaphore m id s
  | TakeMutex id => acquireMutex id s
  | Finish id ok => finishRun id ok s
  | Release id now => releaseRun id now s
  | Settle id => settleLoop id s
  | RequestImmediately j o => match refreshJobImmediately j o s with Ok s' => Some s' | Err _ => None end
  | TakeImmediate id => acquireImmediate id s
  | FinishImmediate id ok => finishImmediate id ok s
  | Stop => Some (stop s)
  end.

Fixpoint playAll (m : Z) (es : list Event) (s : RS) : option RS :=
  match es with
  | [] => Some s
  | e :: es' => match play m e s with Some s' => playAll m es' s' | None => None end
  end.

Lemma play_step m e s s' : play m e s = Some s' -> step m s s'.
Proof.
  destruct e; simpl; intros E; [injection E as <-; apply step_request|by eapply step_semaphore|by eapply step_mutex
    |by eapply step_finish|by eapply step_release|by eapply step_settle| |by eapply step_immediate_mutex
    |by eapply step_immediate_finish|injection E as <-; apply step_stop].
  destruct (refreshJobImmediately _ _ s) eqn:Er; [|done]. injection E as <-. by eapply step_immediate.
Qed.

Lemma playAll_reachable m es s s' : reachable m s -> playAll m es s = Some s' -> reachable m s'.
Proof.
  revert s. induction es as [|e es IH]; intros s Hr; simpl; [by intros [= <-]|].
  destruct (play m e s) eqn:E; [|done]. apply IH. eapply reachable_step; [done|by eapply play_step].
Qed.

(** ** Coalescing, specified on the whole list of requests *)

Definition RequestOf : Type := option ProgressContext * Options.

Definition lastSome {A} (l : list (option A)) : option A := foldl (fun acc o => firstOf o acc) None l.

(** One run that stands for all of [reqs]: it throws if one of them asked for it,
    dates from the earliest, carries the last context and trigger and answers all. *)
Definition mergedOptions (t0 : Z) (reqs : list RequestOf) : Options := {|
  throwOnFailure := existsb (fun r => throwOnFailure (snd r)) reqs;
  requestContext := lastSome (map (fun r => requestContext (snd r)) reqs);
  trigger := default Internal (last (map (fun r => trigger (snd r)) reqs));
  requestedAt := foldr Z.min t0 (map (fun r => requestedAt (snd r)) reqs);
  onCompleted := concat (map (fun r => onCompleted (snd r)) reqs) |}.

Definition requestAll (j : string) (reqs : list RequestOf) (s : RS) : RS :=
  foldl (fun s r => refreshJobWithOptions j (fst r) (snd r) s) s reqs.

Lemma foldr_min_min t0 a l : foldr Z.min (Z.min a t0) l = Z.min (foldr Z.min t0 l) a.
Proof. induction l as [|x l IH]; simpl; [lia|]. rewrite IH. lia. Qed.

(** The state of the job once [reqs] have arrived during a run. *)
Definition holdsMerged (e : JobExecutionState) (reqs : list RequestOf) : Prop :=
  pending e = true /\ pendingContext e = lastSome (map fst reqs) /\
  exists t0, In t0 (map (fun r => requestedAt (snd r)) reqs) /\
    default false (pendingThrowOnFailure e) = throwOnFailure (mergedOptions t0 reqs) /\
    pendingRequestContext e = requestContext (mergedOptions t0 reqs) /\
    pendingTrigger e = Some (trigger (mergedOptions t0 reqs)) /\
    pendingRequestedAt e = Some (requestedAt (mergedOptions t0 reqs)) /\
    pendingObservers e = onCompleted (mergedOptions t0 reqs).

Lemma coalesced_pendingObservers c o e : pendingObservers (coalesced c o e) = pendingObservers e ++ onCompleted o.
Proof. unfold pendingObservers. simpl. destruct (onCompleted o); simpl; [by rewrite app_nil_r|done]. Qed.

Lemma holdsMerged_first c o e : clearFields e = e -> holdsMerged (coalesced c o e) [(c, o)].
Proof.
  intros He. split; [done|].
  assert (pendingContext e = None /\ pendingThrowOnFailure e = None /\ pendingRequestContext e = None /\
    pendingRequestedAt e = None /\ pendingCompletionObservers e = None) as (E1 & E2 & E3 & E4 & E5) by (rewrite <- He; done).
  split; [simpl; unfold lastSome; simpl; by rewrite E1|]. exists (requestedAt o).
  rewrite coalesced_pendingObservers. unfold pendingObservers. simpl. rewrite E2, E3, E4, E5. simpl.
  rewrite orb_false_r, app_nil_r. unfold lastSome. simpl. split_and!; try done. by left.
Qed.

Lemma holdsMerged_snoc c o e reqs : holdsMerged e reqs -> reqs <> [] -> holdsMerged (coalesced c o e) (reqs ++ [(c, o)]).
Proof.
  intros (_ & Ec & t0 & Hin & E2 & E3 & E4 & E5 & E6) Hne. split; [done|]. unfold lastSome.
  split; [rewrite map_app, foldl_app; simpl; by rewrite Ec|].
  exists t0. rewrite map_app. split; [apply in_or_app; by left|].
  unfold mergedOptions. rewrite coalesced_pendingObservers, E6. simpl. rewrite E2, E3, E5. simpl.
  rewrite existsb_app, !map_app, concat_app, last_app. simpl. unfold lastSome. rewrite foldl_app, foldr_app. simpl.
  rewrite orb_false_r, app_nil_r. split_and!; try done. f_equal.
  by rewrite foldr_min_min.
Qed.

Lemma requestAll_spec m s j reqs : refresh_wf m s -> r_acceptingBackground s = true ->
  running (getJobExecutionState j s) = true -> pending (getJobExecutionState j s) = false ->
  let s' := requestAll j reqs s in
  refresh_wf m s' /\ r_acceptingBackground s' = true /\ running (getJobExecutionState j s') = true /\
  r_loops s' = r_loops s /\ r_answered s' = r_answered s /\ r_dropped s' = r_dropped s /\
  (reqs <> [] -> holdsMerged (getJobExecutionState j s') reqs) /\
  (reqs = [] -> getJobExecutionState j s' = getJobExecutionState j s).
Proof.
  intros Hwf Ha Hr Hp. induction reqs as [|[c o] reqs IH] using rev_ind; [by split_and!|].
  unfold requestAll. rewrite foldl_app. simpl. fold (requestAll j reqs s).
  destruct IH as (Hw & Ha' & Hr' & El & Ean & Ed & Hm & Hnil).
  split_and!; [by apply refreshJobWithOptions_wf|..]; rewrite ?(coalesce_eq m) by done; try done.
  - by rewrite getState_put_eq.
  - intros _. rewrite getState_put_eq. destruct (decide (reqs = [])) as [->|Hne].
    + rewrite Hnil by done. apply holdsMerged_first. by apply (w_clear _ _ Hwf).
    + by apply holdsMerged_snoc; [apply Hm|].
  - intros E. by destruct reqs.
Qed.

(** Requests that arrive while a job's refresh runs are not lost and do not
    multiply.  Whatever list of them arrives after a run with nothing pending, at the
    run's end the same loop goes round exactly once more, from the semaphore on,
    with one request that stands for all of them: it throws on failure if one of
    them did, dates from the earliest, carries the last trigger, the last progress
    and request context given, and will answer every one of their callbacks in
    order; nothing stays pending and no callback is dropped. *)
Theorem coalesced_requests_served m s id l now reqs : 0 <= m -> reachable m s ->
  r_acceptingBackground s = true -> jm_get id (r_loops s) = Some l -> lp_phase l = Finished false ->
  pending (getJobExecutionState (lp_job l) s) = false -> reqs <> [] ->
  exists s' t0, releaseRun id now (requestAll (lp_job l) reqs s) = Some s' /\
    In t0 (map (fun r => requestedAt (snd r)) reqs) /\
    jm_get id (r_loops s') = Some {| lp_job := lp_job l; lp_phase := WaitSemaphore;
      lp_context := lastSome (map fst reqs); lp_options := mergedOptions t0 reqs |} /\
    pending (getJobExecutionState (lp_job l) s') = false /\
    r_answered s' = r_answered s /\ r_dropped s' = r_dropped s.
Proof.
  intros Hm Hr Ha El Ep Epe Hne. pose proof (reachable_wf m s Hm Hr) as Hwf.
  pose proof (loop_running m id l s Hwf El) as Hrun.
  destruct (requestAll_spec m s (lp_job l) reqs Hwf Ha Hrun Epe) as (Hwf' & _ & _ & Els & Ean & Ed & Hmer & _).
  destruct (Hmer Hne) as (Hpe & Hc & t0 & Hin & E2 & E3 & E4 & E5 & E6).
  eexists _, t0. split; [eapply releaseRun_eq; [done|by rewrite Els|done]|].
  simpl. rewrite Hpe. simpl. split_and!; try done.
  - rewrite jm_get_set_eq. f_equal. unfold pendingRun. f_equal; [done|].
    unfold pendingObservers in E6. rewrite E2, E3, E4, E5, E6. done.
  - unfold getJobExecutionState. simpl. by rewrite jm_get_set_eq.
Qed.

(** A request for one job, answered through [callback]. *)
Definition someOptions (t : Z) (callback : Z) : Options := {|
  throwOnFailure := false; requestContext := None; trigger := HotStream; requestedAt := t;
  onCompleted := [callback] |}.

(** The state after [es]. *)
Definition after (m : Z) (es : list Event) : RS := default initial (playAll m es initial).

Lemma after_reachable m es : reachable m (after m es).
Proof.
  unfold after. destruct (playAll m es initial) eqn:E; simpl; [|apply reachable_initial].
  eapply playAll_reachable; [apply reachable_initial|done].
Qed.

(** One refresh that has run and still holds its locks. *)
Definition afterOneRun : RS :=
  after 1 [Request "a" None (someOptions 5 1); TakeSemaphore 0; TakeMutex 0; Finish 0 true].

Lemma coalesced_requests_served_witness :
  exists s' t0, releaseRun 0 9 (requestAll "a"
      [(None, someOptions 7 2); (Some {| sequence := 3; total := 4 |}, someOptions 6 3)] afterOneRun) = Some s' /\
    In t0 [7; 6] /\
    jm_get 0 (r_loops s') = Some {| lp_job := "a"; lp_phase := WaitSemaphore;
      lp_context := Some {| sequence := 3; total := 4 |};
      lp_options := {| throwOnFailure := false; requestContext := None; trigger := HotStream;
                       requestedAt := 6; onCompleted := [2; 3] |} |}.
Proof.
  destruct (coalesced_requests_served 1 afterOneRun 0
    {| lp_job := "a"; lp_phase := Finished false; lp_context := None; lp_options := someOptions 5 1 |} 9
    [(None, someOptions 7 2); (Some {| sequence := 3; total := 4 |}, someOptions 6 3)]
    ltac:(lia) (after_reachable _ _) eq_refl eq_refl eq_refl eq_refl ltac:(done))
    as (s' & t0 & Es & Hin & El & _).
  exists s', t0. split; [exact Es|]. split; [exact Hin|]. rewrite El. destruct Hin as [<-|[<-|[]]]; vm_compute; reflexivity.
Defined.

(** ** Exclusion, bounds and gauges *)

(** C32: In every state the scheduler can reach: at most one task (background loop,
    immediate refresh or cancellation) holds a job's mutex, a job has at most one
    background loop, at most [maxConcurrentJobs] loops are past the semaphore, and
    the three pressure gauges reported to observability are exactly the number of
    executing refreshes, of refreshes waiting for a lock, and of jobs with a
    coalesced request pending. *)
Theorem exclusive_bounded_refreshes m s : 0 <= m -> reachable m s ->
  (forall j, mutexUse j s <= 1) /\
  (forall j, jm_sum (fun l => one (ofJob j l)) (r_loops s) <= 1) /\
  semaphoreUse s <= m /\
  r_active s = jm_sum (fun l => one (isExecuting l)) (r_loops s) +
               jm_sum (fun i => one (im_executing i)) (r_immediates s) /\
  r_waiting s = jm_sum (fun l => one (isWaiting l)) (r_loops s) +
                jm_sum (fun i => one (negb (im_executing i))) (r_immediates s) /\
  r_pending s = jm_sum (fun e => one (pending e)) (r_states s).
Proof.
  intros Hm Hr%reachable_wf; [|done]. split_and!; try apply Hr. intros j. rewrite (w_running _ _ Hr j).
  unfold one. case_match; lia.
Qed.

Definition twoJobs : RS := after 2
  [Request "a" None (someOptions 5 1); Request "b" None (someOptions 6 2); TakeSemaphore 0; TakeSemaphore 1;
   RequestImmediately "a" {| throwOnFailure := true; requestContext := None; trigger := UserCommand;
                             requestedAt := 7; onCompleted := [3] |};
   TakeImmediate 2; TakeMutex 1; Request "b" None (someOptions 8 4)].

Lemma exclusive_bounded_refreshes_witness :
  (r_active twoJobs, r_waiting twoJobs, r_pending twoJobs) = (2, 1, 1) /\ mutexUse "a" twoJobs = 1 /\
  semaphoreUse twoJobs <= 2.
Proof.
  destruct (exclusive_bounded_refreshes 2 twoJobs ltac:(lia) (after_reachable _ _)) as (_ & _ & Hs & _).
  split; [by vm_compute|]. split; [by vm_compute|exact Hs].
Defined.

(** ** Completion callbacks *)

Lemma quiescent_pendingObservers m s : refresh_wf m s -> quiescent s ->
  forall x, jm_sum (fun e => occ x (pendingObservers e)) (r_states s) = 0.
Proof.
  intros Hwf (El & _ & _) x.
  assert (forall l : list (string * JobExecutionState), (forall k e, In (k, e) l -> jm_get k (r_states s) = Some e) ->
    jm_sum (fun e => occ x (pendingObservers e)) l = 0) as H.
  { induction l as [|[k e] l IH]; intros Hl; simpl; [done|]. rewrite IH by (intros; apply Hl; by right).
    assert (getJobExecutionState k s = e) as He by (unfold getJobExecutionState; by rewrite (Hl k e (or_introl eq_refl))).
    destruct (idle_clear m s k Hwf) as [_ Hc].
    - pose proof (w_running _ _ Hwf k) as Hr. rewrite El in Hr. simpl in Hr. by destruct (running _).
    - rewrite He in Hc. rewrite <- Hc. done. }
  apply H. intros k e. apply jm_In_get. apply Hwf.
Qed.

(** The two events that forget a callback. *)
Definition forgets (s s' : RS) : Prop :=
  (exists id l, jm_get id (r_loops s) = Some l /\ lp_phase l = Returned /\ settleLoop id s = Some s' /\
     pending (getJobExecutionState (lp_job l) s) = true) \/
  (exists id i, jm_get id (r_immediates s) = Some i /\ acquireImmediate id s = Some s' /\
     isUserCommand (im_options i) = false /\ r_acceptingBackground s = false).

Lemma clear_dropped j s : r_dropped (clearPendingRefresh j s) = r_dropped s.
Proof. unfold clearPendingRefresh, setRefreshPending. simpl. by case_match. Qed.

Lemma clearAll_dropped l s : r_dropped (clearAll l s) = r_dropped s.
Proof. revert s. induction l as [|j l IH]; intros s; simpl; [done|]. by rewrite IH, clear_dropped. Qed.

Lemma step_forgets m s s' : refresh_wf m s -> step m s s' -> r_dropped s' = r_dropped s \/ forgets s s'.
Proof.
  intros Hwf Hs. destruct Hs as [s j c o|s id s' E|s id s' E|s id ok s' E|s id now s' E|s id s' E|s j o s' E|s id s' E|s id ok s' E|s j|s id s' E|s id s' E|s|s].
  - left. destruct (r_acceptingBackground s) eqn:Ha; [|unfold refreshJobWithOptions; simpl; by rewrite Ha].
    destruct (running (getJobExecutionState j s)) eqn:Er; [by rewrite (coalesce_eq m)|by rewrite (start_eq m)].
  - left. unfold acquireSemaphore in E. repeat case_match; try done. by injection E as <-.
  - left. unfold acquireMutex in E. repeat case_match; try done; by injection E as <-.
  - left. unfold finishRun in E. repeat case_match; try done. by injection E as <-.
  - left. unfold releaseRun in E. repeat case_match; try done; injection E as <-; [done|]. simpl.
    exact (clear_dropped _ s).
  - assert (E' := E). unfold settleLoop in E'. destruct (jm_get id (r_loops s)) as [l|] eqn:El; [|done].
    destruct (lp_phase l) eqn:Ep; try done. clear E'. assert (E' := E).
    rewrite (settleLoop_eq m s id l) in E' by done. injection E' as E'.
    destruct (pending (getJobExecutionState (lp_job l) s)) eqn:Epe; [right; left; by exists id, l|left].
    rewrite <- E'. simpl. unfold pendingObservers. rewrite <- (w_clear _ _ Hwf _ Epe). simpl. by rewrite app_nil_r.
  - left. unfold refreshJobImmediately in E. repeat case_match; try done; by injection E as <-.
  - assert (E' := E). unfold acquireImmediate in E'. destruct (jm_get id (r_immediates s)) as [i|] eqn:Ei; [|done].
    destruct (im_executing i); [done|]. destruct (mutexUse (im_job i) s =? 0); [|done].
    destruct (_ && _) eqn:Eb; [|left; by injection E' as <-]. right. right. exists id, i.
    apply andb_true_iff in Eb as [Ha%negb_true_iff Hu%negb_true_iff]. by split_and!.
  - left. unfold finishImmediate in E. repeat case_match; try done; by injection E as <-.
  - by left.
  - left. unfold acquireCancellation in E. repeat case_match; try done; by injection E as <-.
  - left. unfold finishCancellation in E. repeat case_match; try done; by injection E as <-.
  - left. unfold closeBackgroundRefreshAdmission. by rewrite clearAll_dropped.
  - left. unfold stop, closeBackgroundRefreshAdmission. by rewrite clearAll_dropped.
Qed.

(** Completion callbacks are accounted for.  No callback is ever called more
    often than it was handed in; once no task is left, each has been called exactly
    once per request, apart from those forgotten; and a step forgets callbacks only
    in two situations: the [finally] callback of a loop that finds a request still
    pending, and an immediate refresh that is not a user command and gets its mutex
    after the background admission has closed. *)
Theorem callbacks_accounted_for m s : 0 <= m -> reachable m s ->
  (forall x, occ x (map fst (r_answered s)) <= occ x (r_requested s)) /\
  (quiescent s -> forall x, occ x (r_requested s) = occ x (map fst (r_answered s)) + occ x (r_dropped s)) /\
  (forall s', step m s s' -> r_dropped s' = r_dropped s \/ forgets s s').
Proof.
  intros Hm Hr%reachable_wf; [|done]. split_and!.
  - intros x. rewrite (w_account _ _ Hr x).
    pose proof (occ_nonneg x (r_dropped s)).
    pose proof (jm_sum_nonneg (fun l => occ x (carried l)) (r_loops s) (fun l => occ_nonneg x _)).
    pose proof (jm_sum_nonneg (fun i => occ x (onCompleted (im_options i))) (r_immediates s) (fun l => occ_nonneg x _)).
    pose proof (jm_sum_nonneg (fun e => occ x (pendingObservers e)) (r_states s) (fun l => occ_nonneg x _)).
    simpl in *. lia.
  - intros Hq x. pose proof (w_account _ _ Hr x) as Ho. rewrite (quiescent_pendingObservers m s Hr Hq x) in Ho.
    destruct Hq as (El & Ei & _). rewrite El, Ei in Ho. simpl in Ho. lia.
  - intros s' Hs. by apply (step_forgets m).
Qed.

(** Two requests for one job, the second while the first runs, until all is done. *)
Definition twoRequests : RS := after 1
  [Request "a" None (someOptions 5 1); TakeSemaphore 0; TakeMutex 0; Request "a" None (someOptions 6 2);
   Finish 0 true; Release 0 7; TakeSemaphore 0; TakeMutex 0; Finish 0 false; Release 0 9; Settle 0].

Lemma callbacks_accounted_for_witness :
  occ 2 (r_requested twoRequests) = occ 2 (map fst (r_answered twoRequests)) + occ 2 (r_dropped twoRequests) /\
  r_answered twoRequests = [(1, true); (2, false)].
Proof.
  destruct (callbacks_accounted_for 1 twoRequests ltac:(lia) (after_reachable _ _)) as (_ & Hq & _).
  split; [|by vm_compute]. apply Hq. by vm_compute.
Defined.

(** ** Shutdown *)

(** C34: Shutdown drains.  From any reachable state whose background admission has
    closed (by [stop] or [closeBackgroundRefreshAdmission]), with at least one slot:
    the tasks left take at most [stepsLeft] steps in whatever order they proceed;
    they are never stuck; and the state they end in has no loop, no immediate
    refresh and no cancellation left. *)
Theorem shutdown_drains m s : 0 < m -> reachable m s -> r_acceptingBackground s = false ->
  forall n s', works m n s s' ->
    Z.of_nat n <= stepsLeft s /\ (~ quiescent s' -> exists s'', work m s' s'').
Proof.
  intros Hm Hr Ha n s' Hw. assert (0 <= m) as Hm0 by lia.
  pose proof (reachable_wf m s Hm0 Hr) as Hwf. pose proof (reachable_closed m s Hm0 Hr Ha) as Hc.
  destruct (works_closed m n s s' Hwf Hc Hw) as (Hwf' & _ & Hn).
  pose proof (stepsLeft_nonneg s'). split; [lia|]. by apply progress.
Qed.

(** Stopped while one refresh runs, one waits for its slot and a command for its mutex. *)
Definition stoppedBusy : RS := after 1
  [Request "a" None (someOptions 5 1); TakeSemaphore 0; TakeMutex 0; Request "b" None (someOptions 6 2);
   RequestImmediately "a" {| throwOnFailure := true; requestContext := None; trigger := UserCommand;
                             requestedAt := 7; onCompleted := [3] |}; Stop].

Lemma shutdown_drains_witness : exists s', finishRun 0 true stoppedBusy = Some s' /\
  1 <= stepsLeft stoppedBusy /\ exists s'', work 1 s' s''.
Proof.
  destruct (finishRun 0 true stoppedBusy) as [s'|] eqn:E; [|by vm_compute in E]. exists s'.
  destruct (shutdown_drains 1 stoppedBusy ltac:(lia) (after_reachable _ _) eq_refl 1 s'
              (works_S 1 0 _ _ _ (work_finish _ _ _ 0 true E) (works_0 _ _))) as [Hn Hp].
  split; [done|]. split; [exact Hn|]. apply Hp. vm_compute in E. injection E as <-. by intros [H _].
Defined.

(** Closing the background admission is final.  Whatever happens afterwards,
    the admission stays closed, no job has a request pending, and every background
    loop that executes was executing when it closed: none starts. *)
Theorem closed_admission_starts_nothing m s s' : 0 <= m -> reachable m s ->
  r_acceptingBackground s = false -> rtc (step m) s s' ->
  r_acceptingBackground s' = false /\ noPending s' /\ startsNothing s s'.
Proof.
  intros Hm Hr Ha Hs. pose proof (reachable_wf m s Hm Hr) as Hwf.
  pose proof (reachable_closed m s Hm Hr Ha) as Hc. clear Hr Ha.
  induction Hs as [s|s s1 s' H1 _ IH]; [destruct Hc; by split_and!; [..|apply startsNothing_same]|].
  destruct (closed_step m s s1 Hwf Hc H1) as [Hc1 Hn1].
  destruct IH as (? & ? & Hn); [by eapply step_wf|done|]. split_and!; try done.
  intros id l' El Hx. destruct (Hn id l' El Hx) as (l1 & E1 & Hx1). by apply (Hn1 id l1).
Qed.

(** Stopped while a loop past the semaphore waits for its mutex. *)
Definition stoppedWaiting : RS := after 2
  [Request "a" None (someOptions 5 1); Request "b" None (someOptions 6 2); TakeSemaphore 1; Stop].

Lemma closed_admission_starts_nothing_witness :
  exists s', acquireMutex 1 stoppedWaiting = Some s' /\ startsNothing stoppedWaiting s'.
Proof.
  destruct (acquireMutex 1 stoppedWaiting) as [s'|] eqn:E; [|by vm_compute in E]. exists s'. split; [done|].
  by destruct (closed_admission_starts_nothing 2 stoppedWaiting s' ltac:(lia) (after_reachable _ _) eq_refl
    (rtc_once _ _ (step_mutex 2 _ 1 s' E))) as (_ & _ & Hn).
Defined.

(** A request can be forgotten while the bidder accepts refreshes.  A loop that
    found nothing pending has returned, but its job still counts as running until
    its [finally] callback runs; a request that arrives in between is coalesced into
    a run that will not happen, and the callback clears it: at the end no task is
    left, the request has been neither run nor answered. *)
Theorem late_request_dropped :
  let s := after 1 [Request "a" None (someOptions 5 1); TakeSemaphore 0; TakeMutex 0; Finish 0 true; Release 0 7;
                    Request "a" None (someOptions 8 2); Settle 0] in
  reachable 1 s /\ quiescent s /\ r_acceptingBackground s = true /\
  r_requested s = [1; 2] /\ r_answered s = [(1, true)] /\ r_dropped s = [2].
Proof. split; [apply after_reachable|]. by vm_compute. Qed.

End RefreshClaims.
