(* ===== verification/CommandQueue.v ===== *)
(** * The durable queue of job commands

    [SqliteBiddingJobCommandRepository] (sqlite-bidding-job-command-repository.ts)
    and the batch loop of [BiddingJobCommandReconciler]
    (bidding-job-command-reconciler.ts: [processPendingCommands], [processCommand],
    [markTerminalCancellationFailure]).  The table is the list of its rows and each
    SQL statement is translated; the transaction of [claimNextBatch] keeps the old
    rows when it throws.  What a command does is an argument [apply] here and the
    subject of [Commands].  [JSON.parse] and [Date.parse] are arguments; the
    statements themselves are assumed not to fail, and logs and observers are left
    out. *)

From S2P Require Import Prelude JsValue.

Open Scope Z_scope.

Module CommandQueue.

(** [TRADING_JOB_COMMAND_KIND]; the column is a text. *)
Inductive CommandKind : Type :=
  | JobCreated | JobUpdated | JobPaused | JobArchived | CancelActiveOffer | OtherKind (text : string).

(** [TRADING_JOB_COMMAND_STATUS] *)
Inductive CommandStatus : Type := Pending | Processing | Completed | FailedRetry | FailedTerminal.

#[global] Instance CommandStatus_eq_dec : EqDecision CommandStatus.
Proof. solve_decision. Defined.

#[global] Instance CommandKind_eq_dec : EqDecision CommandKind.
Proof. solve_decision. Defined.

Record Row := {
  command_id : Z;
  bot_kind : string;
  job_id : string;
  command_kind : CommandKind;
  status : CommandStatus;
  requested_revision : Z;
  payload_json : string;
  attempts : Z;
  created_at : option string;
  claimed_at : option string;
  completed_at : option string;
  last_error : option string;
}.

Record Command := {
  c_commandId : Z;
  c_jobId : string;
  c_kind : CommandKind;
  c_status : CommandStatus;
  c_requestedRevision : Z;
  c_payload : list (string * jsval);
  c_attempts : Z;
  c_createdAtMs : Z;
  c_claimedAtMs : Z;
  c_reclaimed : bool;
}.

(** ** Times as texts *)

(** The text with its T replaced by a space. *)
Fixpoint spaceForT (s : string) : string :=
  match s with
  | EmptyString => EmptyString
  | String c s' => if Ascii.eqb c "T" then String " " s' else String c (spaceForT s')
  end.

Fixpoint tForSpace (s : string) : string :=
  match s with
  | EmptyString => EmptyString
  | String c s' => if Ascii.eqb c " " then String "T" s' else String c (tForSpace s')
  end.

(** [formatSqliteTimestamp]: to the second. *)
Definition formatSqliteTimestamp (ms : Z) : string := substring 0 19 (spaceForT (toISOString ms)).

(** [STRFTIME('%Y-%m-%d %H:%M:%f', 'now')]: to the millisecond. *)
Definition strftimeNow (ms : Z) : string := substring 0 23 (spaceForT (toISOString ms)).

(** SQLite's order of texts; a comparison with NULL does not hold. *)
Definition textBefore (a : option string) (b : string) : bool :=
  match a with Some a => String.ltb a b | None => false end.

(** ** Statements *)

Definition updateRow (id : Z) (f : Row -> Row) (rows : list Row) : list Row :=
  map (fun r => if command_id r =? id then f r else r) rows.

(** The WHERE clause of [selectClaimableCommands]. *)
Definition claimable (claimCutoff : string) (r : Row) : bool :=
  String.eqb (bot_kind r) "bidding" &&
  match completed_at r with None => true | Some _ => false end &&
  match status r with
  | Pending | FailedRetry => true
  | Processing => textBefore (claimed_at r) claimCutoff
  | _ => false
  end.

Fixpoint insertById (r : Row) (l : list Row) : list Row :=
  match l with
  | [] => [r]
  | r' :: l' => if command_id r <=? command_id r' then r :: l else r' :: insertById r l'
  end.

(** [ORDER BY command_id ASC] *)
Definition orderById (l : list Row) : list Row := foldr insertById [] l.

Definition selectClaimableCommands (claimCutoff : string) (limit : nat) (rows : list Row) : list Row :=
  firstn limit (orderById (List.filter (claimable claimCutoff) rows)).

(** [claimCommandById] *)
Definition claimRow (nowText : string) (r : Row) : Row := {|
  command_id := command_id r; bot_kind := bot_kind r; job_id := job_id r; command_kind := command_kind r;
  status := Processing; requested_revision := requested_revision r; payload_json := payload_json r;
  attempts := attempts r + 1; created_at := created_at r; claimed_at := Some nowText;
  completed_at := completed_at r; last_error := None |}.

(** [completeCommandById] *)
Definition completeRow (nowText : string) (r : Row) : Row := {|
  command_id := command_id r; bot_kind := bot_kind r; job_id := job_id r; command_kind := command_kind r;
  status := Completed; requested_revision := requested_revision r; payload_json := payload_json r;
  attempts := attempts r; created_at := created_at r; claimed_at := claimed_at r;
  completed_at := Some nowText; last_error := None |}.

(** [failCommandById] *)
Definition failRow (s : CommandStatus) (lastError : string) (r : Row) : Row := {|
  command_id := command_id r; bot_kind := bot_kind r; job_id := job_id r; command_kind := command_kind r;
  status := s; requested_revision := requested_revision r; payload_json := payload_json r;
  attempts := attempts r; created_at := created_at r; claimed_at := claimed_at r;
  completed_at := completed_at r; last_error := Some lastError |}.

Definition selectCommandById (id : Z) (rows : list Row) : option Row :=
  List.find (fun r => command_id r =? id) rows.

(** ** Rows as commands *)

Section Repository.
Context (jsonParse : string -> result jsval) (dateParse : string -> option Z).

Definition parsePayload (r : Row) : result (list (string * jsval)) :=
  match jsonParse (payload_json r) with
  | Ok (VObj fields) => Ok fields
  (* an array is an object without the fields a payload is read for *)
  | Ok (VArr _) => Ok []
  | Ok _ => Ok []
  | Err message => Err (String.append (String.append
      "Invalid trading job command payload for commandId=" (Z_toString (command_id r)))
      (String.append ": " message))
  end.

Definition parseSqliteTimestampMs (value : string) (commandId : Z) (field : string) : result Z :=
  match dateParse (String.append (tForSpace value) "Z") with
  | Some t => Ok t
  | None => Err (String.append (String.append "Claimed trading job command " (Z_toString commandId))
                   (String.append " has invalid " field))
  end.

Definition mapRow (reclaimed : bool) (r : Row) : result Command :=
  match created_at r, claimed_at r with
  | Some createdAt, Some claimedAt =>
      if truthy createdAt && truthy claimedAt then
        try payload <- parsePayload r;
        try createdAtMs <- parseSqliteTimestampMs createdAt (command_id r) "created_at";
        try claimedAtMs <- parseSqliteTimestampMs claimedAt (command_id r) "claimed_at";
        Ok {| c_commandId := command_id r; c_jobId := job_id r; c_kind := command_kind r;
              c_status := status r; c_requestedRevision := requested_revision r; c_payload := payload;
              c_attempts := attempts r; c_createdAtMs := createdAtMs; c_claimedAtMs := claimedAtMs;
              c_reclaimed := reclaimed |}
      else Err (String.append (String.append "Claimed trading job command " (Z_toString (command_id r)))
                  " is missing lifecycle timestamps")
  | _, _ => Err (String.append (String.append "Claimed trading job command " (Z_toString (command_id r)))
                   " is missing lifecycle timestamps")
  end.

(** The body of the transaction over the selected rows. *)
Fixpoint claimRows (nowText : string) (selected : list Row) (rows : list Row)
    : result (list Command) * list Row :=
  match selected with
  | [] => (Ok [], rows)
  | r :: selected' =>
      let rows := updateRow (command_id r) (claimRow nowText) rows in
      match selectCommandById (command_id r) rows with
      | None => (Err (String.append "Failed to reload claimed trading job command "
                        (Z_toString (command_id r))), rows)
      | Some claimed =>
          match mapRow (bool_decide (status r = Processing)) claimed with
          | Err e => (Err e, rows)
          | Ok command =>
              match claimRows nowText selected' rows with
              | (Ok commands, rows) => (Ok (command :: commands), rows)
              | (Err e, rows) => (Err e, rows)
              end
          end
      end
  end.

(** A transaction that throws leaves the table as it was. *)
Definition claimNextBatch (limit : nat) (claimTimeoutMs now : Z) (rows : list Row)
    : result (list Command) * list Row :=
  let claimCutoff := formatSqliteTimestamp (now - claimTimeoutMs) in
  match claimRows (strftimeNow now) (selectClaimableCommands claimCutoff limit rows) rows with
  | (Ok commands, rows') => (Ok commands, rows')
  | (Err e, _) => (Err e, rows)
  end.

(** [BiddingCommandQueueHealth] *)
Record QueueHealth := {
  h_pending : Z; h_retrying : Z; h_processing : Z; h_failedTerminal : Z;
  h_oldestPendingAtMs : option Z;
  h_staleProcessing : Z;
}.

(** The rows of one group of the query [selectQueueHealth]. *)
Definition healthGroup (s : CommandStatus) (rows : list Row) : list Row :=
  List.filter (fun r => String.eqb (bot_kind r) "bidding" &&
    match completed_at r with None => true | Some _ => false end && bool_decide (status r = s)) rows.

(** [MIN(created_at)]: the least of the texts that are not NULL. *)
Definition minText (rows : list Row) : option string :=
  foldr (fun r acc =>
    match created_at r, acc with
    | Some t, Some best => Some (if String.ltb best t then best else t)
    | Some t, None => Some t
    | None, _ => acc
    end) None rows.

(** The time of a group's oldest row, merged into that of the groups before it. *)
Definition oldestOf (group : list Row) (oldest : option Z) : result (option Z) :=
  match minText group with
  | Some text =>
      if truthy text then
        match dateParse (String.append (tForSpace text) "Z") with
        | Some t => Ok (Some (match oldest with Some o => Z.min o t | None => t end))
        | None => Err "Invalid durable command queue creation timestamp"
        end
      else Ok oldest
  | None => Ok oldest
  end.

Definition readQueueHealth (claimTimeoutMs now : Z) (rows : list Row) : result QueueHealth :=
  let claimCutoff := formatSqliteTimestamp (now - claimTimeoutMs) in
  let count := fun s => Z.of_nat (length (healthGroup s rows)) in
  try pendingOldest <- oldestOf (healthGroup Pending rows) None;
  try oldest <- oldestOf (healthGroup FailedRetry rows) pendingOldest;
  Ok {| h_pending := count Pending; h_retrying := count FailedRetry; h_processing := count Processing;
        h_failedTerminal := count FailedTerminal; h_oldestPendingAtMs := oldest;
        h_staleProcessing := Z.of_nat (length
          (List.filter (fun r => textBefore (claimed_at r) claimCutoff) (healthGroup Processing rows))) |}.

End Repository.

Definition markCompleted (nowText : string) (commandId : Z) (rows : list Row) : list Row :=
  updateRow commandId (completeRow nowText) rows.

Definition markFailedRetry (commandId : Z) (error : string) (rows : list Row) : list Row :=
  updateRow commandId (failRow FailedRetry error) rows.

Definition markFailedTerminal (commandId : Z) (error : string) (rows : list Row) : list Row :=
  updateRow commandId (failRow FailedTerminal error) rows.

(** ** The batch loop *)

Record Options := { batchSize : Z; claimTimeoutMs : Z; maxAttempts : Z }.

(** The queue, the admission flag and the world the commands act on. *)
Record Queue (W : Type) := { q_rows : list Row; q_acceptingCommands : bool; q_world : W }.
Arguments q_rows {W}.
Arguments q_acceptingCommands {W}.
Arguments q_world {W}.

(** What happens while a command is being processed: rows are enqueued, and the
    admission may be closed. *)
Record Interference := { i_enqueued : list Row; i_closes : bool }.

Definition quiet : Interference := {| i_enqueued := []; i_closes := false |}.

Inductive ReconciliationResult : Type := Success | CompletedWithFailures | Stopped.

Section Reconciler.
Context {W : Type} (jsonParse : string -> result jsval) (dateParse : string -> option Z).
Context (dateNow : W -> Z) (apply : Command -> M W unit).
(** [cancellationLifecyclePort?.markOfferCancellationFailed] *)
Context (markOfferCancellationFailed : option (string -> string -> string -> M W unit)).
Context (options : Options).

Local Open Scope artgod_scope.

Definition set_rows (rows : list Row) (q : Queue W) : Queue W :=
  {| q_rows := rows; q_acceptingCommands := q_acceptingCommands q; q_world := q_world q |}.

Definition onRows (f : list Row -> list Row) : M (Queue W) unit := mmodify (fun q => set_rows (f (q_rows q)) q).

Definition inWorld {A} (m : M W A) : M (Queue W) A := fun q =>
  let '(r, w) := m (q_world q) in
  (r, {| q_rows := q_rows q; q_acceptingCommands := q_acceptingCommands q; q_world := w |}).

Definition nowQ (q : Queue W) : Z := dateNow (q_world q).

Definition closeAdmission : M (Queue W) unit := mmodify (fun q =>
  {| q_rows := q_rows q; q_acceptingCommands := false; q_world := q_world q |}).

Definition parseOptionalPayloadString (value : jsval) : option string :=
  match value with
  | VStr s => if truthy (trim s) then Some s else None
  | _ => None
  end.

Definition markTerminalCancellationFailure (command : Command) (message : string) : M (Queue W) unit :=
  match markOfferCancellationFailed with
  | None => mret tt
  | Some port =>
      if bool_decide (c_kind command = CancelActiveOffer) then
        match parseOptionalPayloadString (obj_get "activeOrderId" (c_payload command)) with
        | None => mret tt
        | Some orderId => mcatch (inWorld (port (c_jobId command) orderId message)) (fun _ => mret tt)
        end
      else mret tt
  end.

Definition processCommand (command : Command) : M (Queue W) bool :=
  mcatch
    (do! inWorld (apply command) in
     do! (fun q => onRows (markCompleted (formatSqliteTimestamp (nowQ q)) (c_commandId command)) q) in
     mret true)
    (fun message =>
       if maxAttempts options <=? c_attempts command then
         do! onRows (markFailedTerminal (c_commandId command) message) in
         do! markTerminalCancellationFailure command message in
         mret false
       else
         do! onRows (markFailedRetry (c_commandId command) message) in
         mret false).

Definition interfere (e : Interference) (q : Queue W) : Queue W := {|
  q_rows := q_rows q ++ i_enqueued e;
  q_acceptingCommands := q_acceptingCommands q && negb (i_closes e);
  q_world := q_world q |}.

(** The loop of a pass; [remaining] is [batchSize - processed], and [env] says what
    happens during each command. *)
Fixpoint processLoop (remaining processed : nat) (env : nat -> Interference) (q : Queue W)
    : result (nat * bool) * Queue W :=
  match remaining with
  | O => (Ok (processed, false), q)
  | S remaining' =>
      if negb (q_acceptingCommands q) then (Ok (processed, false), q)
      else match claimNextBatch jsonParse dateParse 1 (claimTimeoutMs options) (nowQ q) (q_rows q) with
           | (Err e, rows) => (Err e, set_rows rows q)
           | (Ok [], rows) => (Ok (processed, false), set_rows rows q)
           | (Ok (command :: _), rows) =>
               match processCommand command (set_rows rows q) with
               | (Ok true, q') => processLoop remaining' (S processed) env (interfere (env (S processed)) q')
               | (Ok false, q') => (Ok (S processed, true), interfere (env (S processed)) q')
               | (Err e, q') => (Err e, interfere (env (S processed)) q')
               end
           end
  end.

(** The number of commands processed and the result reported. *)
Definition processPendingCommands (env : nat -> Interference) (q : Queue W)
    : result (nat * ReconciliationResult) * Queue W :=
  match processLoop (Z.to_nat (batchSize options)) 0 env q with
  | (Ok (processed, completedWithFailures), q') =>
      (Ok (processed, if completedWithFailures then CompletedWithFailures
                      else if q_acceptingCommands q' then Success else Stopped), q')
  | (Err e, q') => (Err e, q')
  end.

(** The passes of [startBiddingCommandReconciliationLoop]: a pass that throws is
    logged and the next one is scheduled all the same. *)
Fixpoint passes (n : nat) (env : nat -> nat -> Interference) (q : Queue W) : Queue W :=
  match n with
  | O => q
  | S n' => passes n' (fun k => env (S k)) (snd (processPendingCommands (env O) q))
  end.

End Reconciler.

End CommandQueue.
