(* ===== verification/CommandQueueClaims.v ===== *)
(** * What the command queue guarantees

    Which row a claim takes, that retries end, and what a row that cannot be read
    does to the queue. *)

From S2P Require Import Prelude JsValue CommandQueue.

Open Scope Z_scope.

Module CommandQueueClaims.
Import CommandQueue.

(** ** Statements *)

Lemma insertById_In r r' l : In r' (insertById r l) <-> r' = r \/ In r' l.
Proof. induction l as [|x l IH]; simpl; [naive_solver|]. case_match; simpl; naive_solver. Qed.

Lemma orderById_In r l : In r (orderById l) <-> In r l.
Proof. induction l as [|x l IH]; simpl; [done|]. rewrite insertById_In. naive_solver. Qed.

(** The first row of an ordered selection has the least id. *)
Lemma insertById_head r l x t : insertById r l = x :: t ->
  (forall y t', l = y :: t' -> forall z, In z l -> command_id y <= command_id z) ->
  forall z, In z (r :: l) -> command_id x <= command_id z.
Proof.
  destruct l as [|y l]; simpl.
  - intros [= <- <-] _ z [<-|[]]. lia.
  - intros E Hl. specialize (Hl y l eq_refl). destruct (Z.leb_spec (command_id r) (command_id y)).
    + injection E as <- <-. intros z [<-|Hz]; [lia|]. specialize (Hl z Hz). lia.
    + injection E as <- <-. intros z [<-|Hz]; [lia|]. by apply Hl.
Qed.

Lemma orderById_head l x t : orderById l = x :: t -> forall z, In z l -> command_id x <= command_id z.
Proof.
  revert x t. induction l as [|r l IH]; simpl; [done|]. intros x t E z Hz.
  eapply insertById_head; [exact E| |].
  - intros y t' Ey w Hw. rewrite orderById_In in Hw. by eapply IH.
  - destruct Hz as [<-|Hz]; [by left|]. right. by apply orderById_In.
Qed.

Lemma select_one cutoff rows : selectClaimableCommands cutoff 1 rows =
  match orderById (List.filter (claimable cutoff) rows) with r :: _ => [r] | [] => [] end.
Proof. unfold selectClaimableCommands. by destruct (orderById _). Qed.

(** The rows a claim may take first. *)
Definition nextClaimable (cutoff : string) (rows : list Row) (r : Row) : Prop :=
  In r rows /\ claimable cutoff r = true /\
  forall r', In r' rows -> claimable cutoff r' = true -> command_id r <= command_id r'.

Lemma select_one_spec cutoff rows :
  match selectClaimableCommands cutoff 1 rows with
  | [] => forall r, In r rows -> claimable cutoff r = false
  | r :: l => l = [] /\ nextClaimable cutoff rows r
  end.
Proof.
  rewrite select_one. destruct (orderById _) as [|r l] eqn:E.
  - intros r Hr. destruct (claimable cutoff r) eqn:Ec; [|done].
    assert (In r (orderById (List.filter (claimable cutoff) rows))) as Hin
      by (apply orderById_In; apply List.filter_In; by split). by rewrite E in Hin.
  - split; [done|]. assert (In r (List.filter (claimable cutoff) rows)) as [Hr Hc]%List.filter_In.
    { apply orderById_In. rewrite E. by left. }
    split_and!; try done. intros r' Hr' Hc'. eapply orderById_head; [exact E|]. by apply List.filter_In.
Qed.

Lemma updateRow_ids id f rows : (forall r, command_id (f r) = command_id r) ->
  map command_id (updateRow id f rows) = map command_id rows.
Proof.
  intros Hf. unfold updateRow. rewrite map_map. apply map_ext. intros r. by case_match.
Qed.

Lemma updateRow_In id f rows r' : In r' (updateRow id f rows) ->
  exists r, In r rows /\ r' = (if command_id r =? id then f r else r).
Proof. intros (r & <- & Hr)%in_map_iff. by exists r. Qed.

Lemma unique_id rows r r' : NoDup (map command_id rows) -> In r rows -> In r' rows ->
  command_id r = command_id r' -> r = r'.
Proof.
  induction rows as [|x rows IH]; simpl; [done|]. intros Hn Hr Hr' E.
  apply NoDup_cons in Hn as [Hx Hn].
  assert (forall y, In y rows -> command_id y <> command_id x) as Hd.
  { intros y Hy Ey. apply Hx, list_elem_of_In. rewrite <- Ey. by apply in_map. }
  destruct Hr as [->|Hr], Hr' as [->|Hr']; [done| | |by apply IH].
  - exfalso. by eapply (Hd r').
  - exfalso. by eapply (Hd r).
Qed.

(** The row found under an id that was just updated. *)
Lemma select_updated id f rows r : NoDup (map command_id rows) -> (forall r, command_id (f r) = command_id r) ->
  In r rows -> command_id r = id -> selectCommandById id (updateRow id f rows) = Some (f r).
Proof.
  intros Hn Hf Hr Hid. unfold selectCommandById. destruct (List.find _ _) as [x|] eqn:E.
  - apply find_some in E as [Hx Ex%Z.eqb_eq]. apply updateRow_In in Hx as (y & Hy & ->).
    f_equal. destruct (Z.eqb_spec (command_id y) id); [|congruence]. f_equal.
    eapply unique_id; [done..|]. congruence.
  - eapply find_none in E; [|apply in_map, Hr]. exfalso. simpl in E.
    rewrite Hid, Z.eqb_refl in E. rewrite Hf, Hid, Z.eqb_refl in E. done.
Qed.

(** ** Claims *)

Section Claims.
Context (jsonParse : string -> result jsval) (dateParse : string -> option Z).

Definition cutoffAt (claimTimeoutMs now : Z) : string := formatSqliteTimestamp (now - claimTimeoutMs).

(** The command a row becomes when it is claimed at [now]. *)
Definition claimedCommand (now : Z) (r : Row) : result Command :=
  mapRow jsonParse dateParse (bool_decide (status r = Processing)) (claimRow (strftimeNow now) r).

Lemma claimNextBatch_spec timeout now rows : NoDup (map command_id rows) ->
  match claimNextBatch jsonParse dateParse 1 timeout now rows with
  | (Ok [], rows') => rows' = rows /\ forall r, In r rows -> claimable (cutoffAt timeout now) r = false
  | (Ok (c :: l), rows') => l = [] /\ exists r, nextClaimable (cutoffAt timeout now) rows r /\
      claimedCommand now r = Ok c /\ rows' = updateRow (command_id r) (claimRow (strftimeNow now)) rows
  | (Err e, rows') => rows' = rows /\ exists r, nextClaimable (cutoffAt timeout now) rows r /\
      claimedCommand now r = Err e
  end.
Proof.
  intros Hn. unfold claimNextBatch. pose proof (select_one_spec (cutoffAt timeout now) rows) as Hs.
  unfold cutoffAt in *. destruct (selectClaimableCommands _ 1 rows) as [|r l]; simpl; [done|].
  destruct Hs as [-> Hr]. simpl.
  rewrite (select_updated _ _ _ r) by (done || apply Hr).
  fold (claimedCommand now r). destruct (claimedCommand now r) as [c|e] eqn:Ec; simpl.
  - split; [done|]. by exists r.
  - split; [done|]. by exists r.
Qed.

(** The row [r] is over, or another claim on it has not expired. *)
Definition notNext (cutoff : string) (r : Row) : Prop :=
  completed_at r <> None \/ status r = Completed \/ status r = FailedTerminal \/
  status r = Processing /\ textBefore (claimed_at r) cutoff = false.

Lemma not_claimable cutoff r : bot_kind r = "bidding"%string -> claimable cutoff r = false -> notNext cutoff r.
Proof.
  unfold claimable, notNext. intros -> . simpl. destruct (completed_at r); [by left|].
  destruct (status r) eqn:E; simpl; try done; naive_solver.
Qed.

Lemma mapRow_fields reclaimed r c : mapRow jsonParse dateParse reclaimed r = Ok c ->
  c_commandId c = command_id r /\ c_jobId c = job_id r /\ c_kind c = command_kind r /\
  c_attempts c = attempts r /\ c_reclaimed c = reclaimed.
Proof.
  unfold mapRow. destruct (created_at r), (claimed_at r); try done. destruct (_ && _); [|done].
  destruct (parsePayload _ r); [|done]. simpl.
  destruct (parseSqliteTimestampMs _ _ _ "created_at"); [|done]. simpl.
  destruct (parseSqliteTimestampMs _ _ _ "claimed_at"); [|done]. simpl. by intros [= <-].
Qed.

(** A claim takes the earliest command that may be taken, once.  When
    [claimNextBatch] with limit 1 yields a command, it is that of the row with the
    least id among the claimable ones; every earlier row of the bidding bot is
    completed, failed terminally, or processed under a claim that has not expired;
    and in the new table only that row changed: it is processing with one attempt
    more, so that it can be taken again only once the cutoff has passed this
    claim's text or the attempt has been recorded as failed. *)
Theorem claim_takes_earliest timeout now rows command rows' : NoDup (map command_id rows) ->
  claimNextBatch jsonParse dateParse 1 timeout now rows = (Ok [command], rows') ->
  exists r, In r rows /\ claimable (cutoffAt timeout now) r = true /\
    c_commandId command = command_id r /\ c_attempts command = attempts r + 1 /\
    c_reclaimed command = bool_decide (status r = Processing) /\
    (forall r', In r' rows -> bot_kind r' = "bidding"%string -> command_id r' < command_id r ->
       notNext (cutoffAt timeout now) r') /\
    rows' = map (fun r' => if command_id r' =? command_id r then claimRow (strftimeNow now) r else r') rows /\
    (forall cutoff, claimable cutoff (claimRow (strftimeNow now) r) = String.ltb (strftimeNow now) cutoff).
Proof.
  intros Hn E. pose proof (claimNextBatch_spec timeout now rows Hn) as Hs. rewrite E in Hs.
  destruct Hs as (_ & r & (Hr & Hc & Hmin) & Hcom & ->). exists r.
  destruct (mapRow_fields _ _ _ Hcom) as (E1 & _ & _ & E4 & E5). simpl in *.
  assert (bot_kind r = "bidding"%string /\ completed_at r = None) as [Hb Hnone].
  { unfold claimable in Hc. apply andb_true_iff in Hc as [[Hb%String.eqb_eq Hd]%andb_true_iff _].
    by destruct (completed_at r). }
  split_and!; try done.
  - intros r' Hr' Hb' Hlt. apply not_claimable; [done|].
    destruct (claimable _ r') eqn:Ec; [|done]. specialize (Hmin r' Hr' Ec). lia.
  - apply map_ext_in. intros r' Hr'. destruct (Z.eqb_spec (command_id r') (command_id r)); [|done].
    f_equal. by eapply unique_id.
  - intros cutoff. unfold claimable. simpl. by rewrite Hb, Hnone.
Qed.

End Claims.

(** A table and parsers for examples. *)
Definition someRow (id : Z) (st : CommandStatus) (tries : Z) (claimed : option string) (json : string) : Row := {|
  command_id := id; bot_kind := "bidding"; job_id := "a"; command_kind := JobUpdated; status := st;
  requested_revision := 1; payload_json := json; attempts := tries; created_at := Some "2024-01-01 00:00:00"%string;
  claimed_at := claimed; completed_at := None; last_error := None |}.

Definition someJson (text : string) : result jsval :=
  if String.eqb text "{}" then Ok (VObj []) else Err "Unexpected end of JSON input".

Definition someDate (text : string) : option Z := Some 0.

(** 12:00:00.500 on the second of January 2024, and a claim from before and one from within the timeout. *)
Definition someRows : list Row :=
  [someRow 4 Pending 0 None "{}"; someRow 1 FailedTerminal 3 (Some "2024-01-01 00:00:01.000"%string) "{}";
   someRow 2 Processing 1 (Some "2024-01-02 11:59:59.900"%string) "{}";
   someRow 3 Processing 1 (Some "2024-01-01 09:00:00.000"%string) "{}"].

Definition someNow : Z := 1704196800500.

Lemma someRows_ids : NoDup (map command_id someRows).
Proof. apply (bool_decide_unpack _). by vm_compute. Qed.

Lemma claim_takes_earliest_witness : exists command rows',
  claimNextBatch someJson someDate 1 60000 someNow someRows = (Ok [command], rows') /\
  c_commandId command = 3 /\ c_attempts command = 2 /\ c_reclaimed command = true /\
  exists r, In r someRows /\ c_commandId command = command_id r.
Proof.
  destruct (claimNextBatch someJson someDate 1 60000 someNow someRows) as [[[|command l]|e] rows'] eqn:E;
    [by vm_compute in E| |by vm_compute in E].
  assert (l = []) as -> by (vm_compute in E; by injection E).
  destruct (claim_takes_earliest someJson someDate 60000 someNow someRows command rows'
    someRows_ids E) as (r & Hr & _ & Hid & _).
  exists command, rows'. vm_compute in E. injection E as <- <-. split_and!; try done. by exists r.
Defined.

(** ** Passes *)

Section Passes.
Context {W : Type} (jsonParse : string -> result jsval) (dateParse : string -> option Z).
Context (dateNow : W -> Z) (apply : Command -> M W unit).
Context (markOfferCancellationFailed : option (string -> string -> string -> M W unit)).
Context (options : Options).

Abbreviation process := (processCommand dateNow apply markOfferCancellationFailed options).
Abbreviation loop := (processLoop jsonParse dateParse dateNow apply markOfferCancellationFailed options).
Abbreviation pass := (processPendingCommands jsonParse dateParse dateNow apply markOfferCancellationFailed options).
Abbreviation run := (passes jsonParse dateParse dateNow apply markOfferCancellationFailed options).

(** What processing does to the row of its command. *)
Inductive outcome (c : Command) : bool -> (Row -> Row) -> Prop :=
  | out_completed t : outcome c true (completeRow t)
  | out_terminal e : maxAttempts options <= c_attempts c -> outcome c false (failRow FailedTerminal e)
  | out_retry e : c_attempts c < maxAttempts options -> outcome c false (failRow FailedRetry e).

Lemma markTerminal_rows c e q : exists w, markTerminalCancellationFailure markOfferCancellationFailed c e q =
  (Ok tt, {| q_rows := q_rows q; q_acceptingCommands := q_acceptingCommands q; q_world := w |}).
Proof.
  unfold markTerminalCancellationFailure. destruct q as [rows a w]. simpl.
  destruct markOfferCancellationFailed as [port|]; [|by exists w].
  case_bool_decide; [|by exists w]. destruct (parseOptionalPayloadString _); [|by exists w].
  unfold mcatch, inWorld. simpl. destruct (port _ _ _ w) as [[[]|e'] w']; by exists w'.
Qed.

Lemma processCommand_spec c q : exists ok f q', process c q = (Ok ok, q') /\ outcome c ok f /\
  q_rows q' = updateRow (c_commandId c) f (q_rows q) /\ q_acceptingCommands q' = q_acceptingCommands q.
Proof.
  unfold processCommand, mcatch. unfold mbind at 1, inWorld. destruct (apply c (q_world q)) as [[[]|e] w'] eqn:Ea.
  - eexists true, _, _. split; [done|]. split; [apply out_completed|done].
  - destruct (Z.leb_spec (maxAttempts options) (c_attempts c)).
    + edestruct markTerminal_rows as [w2 E2]. unfold mbind, onRows, mmodify. simpl. rewrite E2.
      eexists false, _, _. split; [done|]. split; [by apply (out_terminal _ e)|done].
    + eexists false, _, _. split; [done|]. split; [by apply (out_retry _ e)|done].
Qed.

(** A row that is not over. *)
Definition isOpen (r : Row) : bool :=
  String.eqb (bot_kind r) "bidding" &&
  match completed_at r with None => true | Some _ => false end &&
  match status r with Pending | FailedRetry | Processing => true | _ => false end.

(** An open row waits for its next attempt, has one left, and can be read. *)
Definition ready (r : Row) : Prop := isOpen r = true ->
  status r <> Processing /\ attempts r < maxAttempts options /\
  forall now, is_ok (claimedCommand jsonParse dateParse now r) = true.

(** The attempts the open rows have left. *)
Definition attemptsLeft (rows : list Row) : nat :=
  list_sum (map (fun r => if isOpen r then Z.to_nat (maxAttempts options - attempts r) else 0%nat) rows).

Definition readyTable (rows : list Row) : Prop := NoDup (map command_id rows) /\ forall r, In r rows -> ready r.

Lemma ready_claimable r cutoff : ready r -> claimable cutoff r = isOpen r.
Proof.
  intros Hr. unfold ready, claimable, isOpen in *. destruct (String.eqb _ _); [|done]. simpl in *.
  destruct (completed_at r); [done|]. simpl in *. destruct (status r); try done. by destruct Hr.
Qed.

(** Updating the one row with an id changes the sum by that row's share. *)
Lemma attemptsLeft_update r f rows : NoDup (map command_id rows) -> In r rows ->
  (attemptsLeft (updateRow (command_id r) f rows) + attemptsLeft [r] = attemptsLeft rows + attemptsLeft [f r])%nat.
Proof.
  unfold attemptsLeft. induction rows as [|x rows IH]; simpl; [done|]. intros [Hx Hn]%NoDup_cons Hr.
  destruct Hr as [->|Hr].
  - rewrite Z.eqb_refl. replace (updateRow (command_id r) f rows) with rows; [lia|].
    unfold updateRow. rewrite <- (map_id rows) at 1. apply map_ext_in. intros y Hy.
    destruct (Z.eqb_spec (command_id y) (command_id r)) as [E|]; [|done].
    exfalso. apply Hx, list_elem_of_In. rewrite <- E. by apply in_map.
  - destruct (Z.eqb_spec (command_id x) (command_id r)) as [E|].
    + exfalso. apply Hx, list_elem_of_In. rewrite E. by apply in_map.
    + specialize (IH Hn Hr). simpl in *. lia.
Qed.

Lemma updateRow_updateRow id f g rows : (forall r, command_id (g r) = command_id r) ->
  updateRow id f (updateRow id g rows) = updateRow id (fun r => f (g r)) rows.
Proof.
  intros Hg. unfold updateRow. rewrite map_map. apply map_ext. intros r.
  destruct (Z.eqb_spec (command_id r) id) as [E|E]; [rewrite Hg|]; destruct (Z.eqb_spec (command_id r) id); congruence.
Qed.

Lemma outcome_id c ok f r : outcome c ok f -> command_id (f r) = command_id r.
Proof. by destruct 1. Qed.

(** Whether a row can be read does not depend on its status. *)
Lemma readable_ext b b' r r' : created_at r = created_at r' -> claimed_at r = claimed_at r' ->
  payload_json r = payload_json r' -> command_id r = command_id r' ->
  is_ok (mapRow jsonParse dateParse b r) = is_ok (mapRow jsonParse dateParse b' r').
Proof.
  intros E1 E2 E3 E4. unfold mapRow, parsePayload. rewrite E1, E2, E3, E4.
  destruct (created_at r'), (claimed_at r'); try done. destruct (_ && _); [|done].
  destruct (jsonParse (payload_json r')) as [[]|]; try done;
    (destruct (parseSqliteTimestampMs _ s _ _); [|done]; destruct (parseSqliteTimestampMs _ s0 _ _); done).
Qed.

(** What passes do to a row: nothing once it is over; and an open row ends completed, or
    failed terminally at its last attempt and not before. *)
Record progressed (r r' : Row) : Prop := {
  pr_id : command_id r' = command_id r;
  pr_over : isOpen r = false -> r' = r;
  pr_attempts : attempts r <= attempts r';
  pr_ended : isOpen r = true -> isOpen r' = false ->
    attempts r < attempts r' <= maxAttempts options
    /\ (status r' = Completed \/ status r' = FailedTerminal /\ attempts r' = maxAttempts options);
}.

Lemma progressed_refl r : progressed r r.
Proof. constructor; try done; congruence. Qed.

Lemma progressed_trans r r1 r2 : progressed r r1 -> progressed r1 r2 -> progressed r r2.
Proof.
  intros [I1 O1 A1 E1] [I2 O2 A2 E2]. constructor; [congruence| |lia|].
  - intros Ho. rewrite O2; [by apply O1|]. by rewrite O1.
  - intros Ho He. destruct (isOpen r1) eqn:E; [destruct (E2 eq_refl He) as [? ?]; split; [lia|done]|]. rewrite O2 by done. by apply E1.
Qed.

#[global] Instance progressed_preorder : PreOrder (Forall2 progressed).
Proof.
  split; intros l; [induction l; constructor; [apply progressed_refl|done]|].
  intros l1 l2 H1. revert l2. induction H1 as [|a b l l1 Hab H1 IH]; intros l2 H2; inversion H2; subst; constructor;
    first [by eapply progressed_trans|by apply IH].
Qed.

Lemma outcome_progressed now r c ok f : isOpen r = true -> attempts r < maxAttempts options ->
  c_attempts c = attempts r + 1 -> outcome c ok f -> progressed r (f (claimRow now r)).
Proof.
  intros Ho Hlt Hc Hf. assert (isOpen r = false -> forall r' : Row, r' = r) as Hno by congruence.
  destruct Hf as [t|e|e He]; (constructor; [done|intros Hover; by apply Hno|simpl; lia|]); simpl.
  - intros _ _. split; [lia|by left].
  - intros _ _. split; [lia|]. right. split; [done|lia].
  - intros _. unfold isOpen in *. simpl. destruct (String.eqb _ _); [|done]. simpl in *. by destruct (completed_at r).
Qed.

(** One command of a ready table: the table stays ready and one attempt is used up. *)
Lemma attempt_ready rows cutoff now r c ok f : readyTable rows -> nextClaimable cutoff rows r ->
  claimedCommand jsonParse dateParse now r = Ok c -> outcome c ok f ->
  let rows' := updateRow (c_commandId c) f (updateRow (command_id r) (claimRow (strftimeNow now)) rows) in
  readyTable rows' /\ (attemptsLeft rows' < attemptsLeft rows)%nat /\ Forall2 progressed rows rows'.
Proof.
  intros [Hn Hall] (Hr & Hc & _) Hcom Hf. simpl.
  destruct (mapRow_fields _ _ _ _ _ Hcom) as (-> & _ & _ & Eat & _). simpl in Eat.
  change (command_id (claimRow _ r)) with (command_id r). rewrite updateRow_updateRow by done.
  set (g := fun r => f (claimRow (strftimeNow now) r)).
  assert (forall x, command_id (g x) = command_id x) as Hg by (intros x; unfold g; by rewrite (outcome_id _ _ _ _ Hf)).
  assert (map command_id (updateRow (command_id r) g rows) = map command_id rows) as Hids by by apply updateRow_ids.
  rewrite (ready_claimable r cutoff (Hall r Hr)) in Hc. destruct (Hall r Hr Hc) as (_ & Hlt & Hread).
  split_and!; [split; [by rewrite Hids|]| |].
  3: { unfold updateRow. apply Forall2_fmap_r, Forall_Forall2_diag, Forall_forall. intros y Hy%list_elem_of_In.
       unfold compose. destruct (Z.eqb_spec (command_id y) (command_id r)) as [E|]; [|apply progressed_refl].
       rewrite (unique_id rows y r) by done. by eapply outcome_progressed. }
  - intros x (y & Hy & ->)%updateRow_In. destruct (Z.eqb_spec (command_id y) (command_id r)) as [E|]; [|by apply Hall].
    rewrite (unique_id rows y r) by done. intros Ho. unfold g in *.
    destruct Hf as [t|e|e He]; [| |].
    + unfold isOpen in Ho. simpl in Ho. by rewrite andb_false_r in Ho.
    + unfold isOpen in Ho. simpl in Ho. by rewrite andb_false_r in Ho.
    + simpl. split_and!; [done|lia|]. intros now'. rewrite <- (Hread now'). by apply readable_ext.
  - pose proof (attemptsLeft_update r g rows Hn Hr) as Hsum.
    assert (attemptsLeft [g r] < attemptsLeft [r])%nat; [|lia].
    unfold attemptsLeft. simpl. rewrite Hc. unfold g.
    destruct Hf as [t|e|e He]; unfold isOpen; simpl; rewrite ?andb_false_r; try case_match; lia.
Qed.

Lemma loop_ready k n q : readyTable (q_rows q) -> q_acceptingCommands q = true ->
  let q' := snd (loop k n (fun _ => quiet) q) in
  readyTable (q_rows q') /\ q_acceptingCommands q' = true /\ Forall2 progressed (q_rows q) (q_rows q') /\
  (attemptsLeft (q_rows q') <= attemptsLeft (q_rows q))%nat /\
  ((0 < k)%nat -> attemptsLeft (q_rows q') < attemptsLeft (q_rows q) \/
                  forall r, In r (q_rows q') -> isOpen r = false)%nat.
Proof.
  revert n q. induction k as [|k IH]; intros n q Hr Ha; simpl; [split_and!; try done; lia|].
  rewrite Ha. simpl.
  pose proof (claimNextBatch_spec jsonParse dateParse (claimTimeoutMs options) (nowQ dateNow q) (q_rows q) (proj1 Hr)) as Hs.
  destruct (claimNextBatch _ _ _ _ _ _) as [[[|c l]|e] rows]; simpl.
  - destruct Hs as [-> Hnone]. split_and!; try done. intros _. right. intros r Hin.
    erewrite <- ready_claimable by by apply Hr. by apply Hnone.
  - destruct Hs as (-> & r & Hnext & Hcom & ->).
    destruct (processCommand_spec c (set_rows (updateRow (command_id r) (claimRow (strftimeNow (nowQ dateNow q))) (q_rows q)) q))
      as (ok & f & q1 & -> & Hf & Hrows & Ha1). simpl in Hrows, Ha1.
    destruct (attempt_ready _ _ _ _ _ _ _ Hr Hnext Hcom Hf) as (Hr1 & Hlt & Hids).
    rewrite <- Hrows in Hr1, Hlt, Hids.
    assert (interfere quiet q1 = q1) as Hq by (destruct q1 as [rs a w]; unfold interfere; simpl; by rewrite app_nil_r, andb_true_r).
    destruct ok; rewrite Hq; simpl.
    + destruct (IH (S n) q1 Hr1 ltac:(congruence)) as (? & ? & Hids' & ? & _).
      split_and!; try done; [by etransitivity|lia|]. intros _. left. lia.
    + split_and!; try done; [congruence|lia|]. intros _. by left.
  - destruct Hs as (-> & r & (Hin & Hc & _) & Hcom). destruct Hr as [Hn Hall].
    rewrite (ready_claimable r _ (Hall r Hin)) in Hc. destruct (Hall r Hin Hc) as (_ & _ & Hread).
    specialize (Hread (nowQ dateNow q)). by rewrite Hcom in Hread.
Qed.

Lemma pass_snd env q : snd (pass env q) = snd (loop (Z.to_nat (batchSize options)) 0 env q).
Proof. unfold processPendingCommands. by destruct (loop _ _ _ _) as [[[]|] ]. Qed.

Lemma none_open_settled rows r : attemptsLeft rows = 0%nat -> readyTable rows -> In r rows -> isOpen r = false.
Proof.
  intros H0 [_ Hall] Hr. destruct (isOpen r) eqn:Eo; [|done].
  destruct (Hall r Hr Eo) as (_ & Hlt & _). exfalso.
  assert (0 < attemptsLeft rows)%nat; [|lia]. clear H0 Hall. unfold attemptsLeft.
  induction rows as [|x rows IH]; simpl; [done|]. destruct Hr as [->|Hr]; [rewrite Eo; lia|].
  specialize (IH Hr). lia.
Qed.

End Passes.

(** C29: Retries end when no row is stuck.  From a table whose open rows of the bidding bot
    all wait for an attempt (none is under a claim), can all be read and have attempts
    left below [maxAttempts], with open admission, a positive batch size and nobody else
    writing to the table, and whatever the commands do: after as many passes as there are
    attempts left (or more), no row is open any more; each has been completed, or has
    failed terminally at exactly its [maxAttempts]-th attempt; and the rows that were over
    are as they were, none added, removed or reordered.  ([unreadable_row_blocks_queue]
    says what one row that cannot be read does.) *)
Theorem retries_end {W} jsonParse dateParse (dateNow : W -> Z) apply port options n q :
  readyTable jsonParse dateParse options (q_rows q) -> q_acceptingCommands q = true -> 0 < batchSize options ->
  (attemptsLeft options (q_rows q) <= n)%nat ->
  let q' := passes jsonParse dateParse dateNow apply port options n (fun _ _ => quiet) q in
  (forall r, In r (q_rows q') -> isOpen r = false) /\ Forall2 (progressed options) (q_rows q) (q_rows q').
Proof.
  intros Hr Ha Hb. revert q Hr Ha. induction n as [|n IH]; intros q Hr Ha Hn; simpl.
  - split; [|done]. intros r Hin. eapply none_open_settled; [|done..]. lia.
  - rewrite pass_snd.
    destruct (loop_ready jsonParse dateParse dateNow apply port options (Z.to_nat (batchSize options)) 0 q Hr Ha)
      as (Hr' & Ha' & Hids & Hle & Hlt).
    match goal with |- context [passes _ _ _ _ _ _ n _ ?p] => destruct (IH p) as [H1 H2]; [done..| |split; [exact H1|by etransitivity]] end.
    destruct Hlt as [Hlt|Hnone]; [lia|lia|].
    assert (attemptsLeft options (q_rows (snd (processLoop jsonParse dateParse dateNow apply port options
      (Z.to_nat (batchSize options)) 0 (fun _ => quiet) q))) = 0)%nat as ->; [|lia].
    clear -Hnone. unfold attemptsLeft. induction (q_rows _) as [|x l IH]; simpl; [done|].
    rewrite (Hnone x) by by left. apply IH. intros r Hr. apply Hnone. by right.
Qed.

(** Two commands: one always fails, the other fails at its first attempt only.  The
    world counts the calls. *)
Definition flakyApply (c : Command) : M Z unit := fun w =>
  (if (c_commandId c =? 1) || (c_attempts c =? 1) then Err "down" else Ok tt, w + 1).

Definition flakyQueue : Queue Z := {|
  q_rows := [someRow 1 Pending 0 None "{}"; someRow 2 FailedRetry 0 None "{}"];
  q_acceptingCommands := true; q_world := 0 |}.

Definition someOptions : Options := {| batchSize := 10; claimTimeoutMs := 60000; maxAttempts := 2 |}.

Lemma append_truthy a b : truthy b = true -> truthy (String.append a b) = true.
Proof. by destruct a. Qed.

(** The text of a claim is never empty. *)
Lemma strftimeNow_truthy now : truthy (strftimeNow now) = true.
Proof.
  unfold strftimeNow.
  assert (truthy (spaceForT (toISOString now)) = true) as H.
  { assert (truthy (toISOString now) = true) as H.
    { unfold toISOString. destruct (civilFromDays _) as [[y m] d]. cbn [String.concat]. by apply append_truthy. }
    destruct (toISOString now) as [|c s]; [done|]. simpl. by case_match. }
  by destruct (spaceForT _).
Qed.

Lemma retries_end_witness :
  let q' := passes someJson someDate (fun w => w) flakyApply None someOptions 4 (fun _ _ => quiet) flakyQueue in
  (forall r, In r (q_rows q') -> isOpen r = false) /\
  map status (q_rows q') = [FailedTerminal; Completed] /\ q_world q' = 4.
Proof.
  assert (readyTable someJson someDate someOptions (q_rows flakyQueue)) as Hr.
  { split; [apply (bool_decide_unpack _); by vm_compute|].
    intros r [<-|[<-|[]]]; intros _; (split; [done|]); (split; [done|]); intros now;
      unfold claimedCommand, mapRow; simpl; by rewrite strftimeNow_truthy. }
  destruct (retries_end someJson someDate (fun w => w) flakyApply None someOptions 4 flakyQueue
    Hr eq_refl eq_refl ltac:(vm_compute; lia)) as [Hdone _].
  intros q'. split; [exact Hdone|]. by vm_compute.
Defined.

(** ** A row that cannot be read *)

Lemma unparsed_row {jsonParse dateParse} now r e : jsonParse (payload_json r) = Err e ->
  is_ok (claimedCommand jsonParse dateParse now r) = false.
Proof.
  intros E. unfold claimedCommand, mapRow, parsePayload. simpl. rewrite E.
  destruct (created_at r); [|done]. by destruct (_ && _).
Qed.

Lemma open_claimable cutoff r : isOpen r = true -> status r <> Processing -> claimable cutoff r = true.
Proof. unfold claimable, isOpen. by destruct (String.eqb _ _), (completed_at r), (status r). Qed.

Lemma claimable_open cutoff r : claimable cutoff r = true -> isOpen r = true.
Proof. unfold claimable, isOpen. by destruct (String.eqb _ _), (completed_at r), (status r). Qed.

(** One unreadable row stops the queue for good.  When the earliest open command
    waits for an attempt and its payload is not valid JSON, the error is thrown inside
    the claiming transaction, which is rolled back: no pass, with any number of rows
    enqueued behind it, any batch size and any [maxAttempts], changes the table or
    reaches a command, and the row's attempts are never counted. *)
Theorem unreadable_row_blocks_queue {W} jsonParse dateParse (dateNow : W -> Z) apply port options n env q r e :
  NoDup (map command_id (q_rows q)) -> In r (q_rows q) -> isOpen r = true -> status r <> Processing ->
  jsonParse (payload_json r) = Err e ->
  (forall r', In r' (q_rows q) -> command_id r' < command_id r -> isOpen r' = false) ->
  passes jsonParse dateParse dateNow apply port options n env q = q.
Proof.
  intros Hn Hr Ho Hs He Hmin. revert env. induction n as [|n IH]; intros env; simpl; [done|].
  rewrite pass_snd. destruct (Z.to_nat (batchSize options)) as [|k]; simpl; [apply IH|].
  destruct (q_acceptingCommands q) eqn:Ea; simpl; [|apply IH].
  pose proof (claimNextBatch_spec jsonParse dateParse (claimTimeoutMs options) (nowQ dateNow q) (q_rows q) Hn) as Hc.
  assert (forall cutoff r', nextClaimable cutoff (q_rows q) r' -> r' = r) as Hnext.
  { intros cutoff r' (Hr' & Hc' & Hmin'). eapply unique_id; [done..|].
    assert (command_id r' <= command_id r) by (apply Hmin'; [done|by apply open_claimable]).
    destruct (decide (command_id r' < command_id r)) as [Hlt|]; [|lia]. specialize (Hmin r' Hr' Hlt).
    by rewrite (claimable_open _ _ Hc') in Hmin. }
  destruct (claimNextBatch _ _ _ _ _ _) as [[[|c l]|e'] rows]; simpl.
  - destruct Hc as [_ Hnone]. specialize (Hnone r Hr). by rewrite open_claimable in Hnone.
  - destruct Hc as (_ & r' & Hr' & Hcom & _). rewrite (Hnext _ _ Hr') in Hcom.
    pose proof (unparsed_row (dateParse := dateParse) (nowQ dateNow q) r e He) as Hf. by rewrite Hcom in Hf.
  - destruct Hc as [-> _]. replace (set_rows (q_rows q) q) with q by (by destruct q). apply IH.
Qed.

(** A cut-off payload in front of a command that would succeed. *)
Definition blockedQueue : Queue Z := {|
  q_rows := [someRow 1 Pending 0 None "{"; someRow 2 Pending 0 None "{}"];
  q_acceptingCommands := true; q_world := 0 |}.

Lemma unreadable_row_blocks_queue_witness :
  passes someJson someDate (fun w => w) (fun _ w => (Ok tt, w + 1)) None someOptions 50 (fun _ _ => quiet) blockedQueue =
  blockedQueue.
Proof.
  apply (unreadable_row_blocks_queue someJson someDate (fun w => w) (fun _ w => (Ok tt, w + 1)) None someOptions 50
    (fun _ _ => quiet) blockedQueue (someRow 1 Pending 0 None "{") "Unexpected end of JSON input").
  - apply (bool_decide_unpack _). by vm_compute.
  - by left.
  - done.
  - done.
  - done.
  - intros r' [<-|[<-|[]]]; simpl; lia.
Defined.

End CommandQueueClaims.
