(* ===== verification/Commands.v ===== *)
(** * Applying job commands to the live bidder

    [BiddingJobCommandReconciler] (bidding-job-command-reconciler.ts) below the
    batch loop of [CommandQueue]: [applyCommand], [applyDesiredJob],
    [removeJobFromScheduling], [cancelActiveOffer] with the payload it merges, and
    [reconcileEnabledJobs]; and the two entry points of [Bidder] they use,
    [refreshJobForCommand] and [cancelActiveOffersForCommand].

    The job object a cancellation works on may be the one in the schedule: [Target]
    says which, and work on it is written back.  The cancellation waits for the
    job's mutex after it has already written to the object; [meanwhile] is what the
    holder of the mutex does to the job until then.  The mutex, admission and gauges
    of an immediate refresh are those of [Refresh]. *)

From S2P Require Import Prelude JsValue Domain TraitCriteria BiddingService Strategy Schedule CommandQueue.

Open Scope Z_scope.

Module Commands.
Import TraitCriteria Strategy Schedule.
Import CommandQueue(CommandKind, JobCreated, JobUpdated, JobPaused, JobArchived, CancelActiveOffer, OtherKind,
  Command, c_commandId, c_jobId, c_kind, c_payload, parseOptionalPayloadString).

(** [TRADING_JOB_STATUS] *)
Inductive JobStatus : Type := Enabled | Paused | Archived.

#[global] Instance JobStatus_eq_dec : EqDecision JobStatus.
Proof. solve_decision. Defined.

Record BiddingJobSourceRecord := {
  sr_job : BidderJob;
  sr_status : JobStatus;
  sr_revision : Z;
  sr_activeOrderJobRevision : option Z;
}.

(** [BiddingJobSource]; an enabled declaration comes with the own properties of its
    state object. *)
Class JobSource (X : Type) := {
  loadEnabledJobs : M X (list BidderJob);
  loadJobById : string -> M X (option BiddingJobSourceRecord);
  loadEnabledJobById : string -> M X (option (BidderJob * StateOverlay));
}.

(** [BiddingRuntimeJobPreparationPort] *)
Class JobPreparation (X : Type) := {
  prepareEnabledJob : BidderJob -> M X unit;
  reconcileEnabledJobsPort : list BidderJob -> M X unit;
}.

(** ** Payload fields *)

(** The digits of a text in a base. *)
Definition digitValue (c : ascii) : option Z :=
  let n := Z.of_N (N_of_ascii c) in
  if (48 <=? n) && (n <=? 57) then Some (n - 48)
  else if (97 <=? n) && (n <=? 102) then Some (n - 87)
  else if (65 <=? n) && (n <=? 70) then Some (n - 55)
  else None.

Fixpoint digitsFrom (base acc : Z) (s : string) : option Z :=
  match s with
  | EmptyString => Some acc
  | String c s' =>
      match digitValue c with
      | Some d => if d <? base then digitsFrom base (acc * base + d) s' else None
      | None => None
      end
  end.

Definition digits (base : Z) (s : string) : option Z :=
  match s with EmptyString => None | _ => digitsFrom base 0 s end.

(** [BigInt(text)]: a decimal with an optional sign or an unsigned literal with a
    base prefix, white space around it; the blank text is zero. *)
Definition bigIntOf (text : string) : option Z :=
  match trim text with
  | EmptyString => Some 0
  | String "-" s => Z.opp <$> digits 10 s
  | String "+" s => digits 10 s
  | String "0" (String "x" s) | String "0" (String "X" s) => digits 16 s
  | String "0" (String "o" s) | String "0" (String "O" s) => digits 8 s
  | String "0" (String "b" s) | String "0" (String "B" s) => digits 2 s
  | s => digits 10 s
  end.

Definition parseOptionalPayloadBigInt (value : jsval) : option Z :=
  match value with
  | VStr s => if truthy (trim s) then bigIntOf s else None
  | _ => None
  end.

(** A finite number; the times and revisions of a payload are whole, and a fraction
    would be taken at its floor. *)
Definition parseOptionalPayloadNumber (value : jsval) : option Z :=
  match value with
  | VNum n => if isFiniteNum n then Some (floorNum n) else None
  | _ => None
  end.

Definition hasTrackedActiveOrder (job : BidderJob) : bool :=
  match activeOrderId (state job) with Some id => truthy (trim id) | None => false end.

(** [if (!old) { if (given) old = given }] *)
Definition fillText (old given : option string) : option string :=
  if otruthy old then old else match given with Some _ => given | None => old end.

Definition fill {A} (old given : option A) : option A :=
  match old with Some _ => old | None => given end.

Definition applyCancellationPayload (payload : list (string * jsval)) (s : BidderState) : BidderState := {|
  lastRun := lastRun s;
  activeOrderId := fillText (activeOrderId s) (parseOptionalPayloadString (obj_get "activeOrderId" payload));
  activeProtocolAddress := fillText (activeProtocolAddress s)
    (parseOptionalPayloadString (obj_get "activeProtocolAddress" payload));
  activeOrderPlacedAt := fillText (activeOrderPlacedAt s)
    (parseOptionalPayloadString (obj_get "activeOrderPlacedAt" payload));
  activeOrderVerifiedAt := activeOrderVerifiedAt s;
  currentPrice := fill (currentPrice s) (parseOptionalPayloadBigInt (obj_get "currentPriceWei" payload));
  activeExpirationTimeMs := fill (activeExpirationTimeMs s)
    (parseOptionalPayloadNumber (obj_get "activeExpirationTimeMs" payload));
  bidPosition := bidPosition s;
  bidConstraints := bidConstraints s;
  competitorPrice := competitorPrice s |}.

(** ** The bidder as the commands use it *)

(** The schedule, and the effects of the strategy in order. *)
Record Live (X : Type) := { l_sched : Sched X; l_trace : list Effect }.
Arguments l_sched {X}.
Arguments l_trace {X}.

Section Commands.
Context {X : Type} `{BiddingService X} `{RuntimeStatePort X} `{MarketReads X} `{JobSource X} `{JobPreparation X}.
Context (localeCompare : keyItem -> keyItem -> Z).
Context (env : BidderEnv) (hasBalanceService acceptingRefreshes : bool).

Local Open Scope artgod_scope.

Definition BIDDING_COMMAND_REQUEST_CONTEXT : RequestContext := Some PriorityUserCommand.

Definition onSched {A} (m : M (Sched X) A) : M (Live X) A := fun l =>
  let '(r, s) := m (l_sched l) in (r, {| l_sched := s; l_trace := l_trace l |}).

Definition service {A} (m : M X A) : M (Live X) A := onSched (callExt m).

Definition readSched {A} (f : Sched X -> A) : M (Live X) A := fun l => (Ok (f (l_sched l)), l).

(** The strategy's view of a job. *)
Definition worldOf (job : BidderJob) (scheduled : bool) (l : Live X) : World X := {|
  w_job := job; w_scheduled := scheduled;
  w_override := jm_get (job_id job) (s_overrides (l_sched l));
  w_balance := s_balance (l_sched l); w_ext := s_ext (l_sched l); w_trace := l_trace l |}.

(** The schedule after work on a job: the services' state, and the override when it
    was found expired. *)
Definition afterWork (jobId : string) (w : World X) (s : Sched X) : Sched X :=
  let s := set_balance (s_balance s) (w_ext w) s in
  match w_override w with
  | None => snd (clearRuntimeOverride jobId s)
  | Some _ => s
  end.

(** Work on a job of the schedule: the object is shared, so the schedule sees it. *)
Definition onScheduledJob {A} (jobId : string) (whenAbsent : A) (m : M (World X) A) : M (Live X) A := fun l =>
  match getJob jobId (l_sched l) with
  | None => (Ok whenAbsent, l)
  | Some job =>
      let '(r, w) := m (worldOf job true l) in
      let s := afterWork jobId w (l_sched l) in
      (r, {| l_sched := set_jobs (jm_set jobId (w_job w) (s_jobs s)) s; l_trace := w_trace w |})
  end.

(** Work on a job object that is not in the schedule. *)
Definition onDetachedJob {A} (job : BidderJob) (m : M (World X) A) : M (Live X) A := fun l =>
  let '(r, w) := m (worldOf job false l) in
  (r, {| l_sched := afterWork (job_id job) w (l_sched l); l_trace := w_trace w |}).

Definition refreshJobForCommand (jobId : string) : M (Live X) unit :=
  do! onSched (refreshCachedMakerWethBalance hasBalanceService (makerAddress env)) in
  if negb acceptingRefreshes
  then mthrow "Cannot refresh a bidding job after the bidder has stopped"
  else onScheduledJob jobId tt (executeJob localeCompare env
         {| throwOnFailure := true; requestContext := BIDDING_COMMAND_REQUEST_CONTEXT |}).

Definition cancelActiveOffersForCommand : M (World X) Z :=
  cancelActiveOffersForJob localeCompare env BIDDING_COMMAND_REQUEST_CONTEXT.

(** ** Commands *)

(** Whether the runtime state already satisfies the declaration. *)
Definition completeAlreadySatisfiedJobCommand (job : BidderJob) : M (Live X) bool :=
  readSched (fun s => match getSatisfiedRuntimeSnapshot localeCompare job s with Some _ => true | None => false end).

Definition applyDesiredJob (command : Command) : M (Live X) unit :=
  let! declared := service (loadEnabledJobById (c_jobId command)) in
  match declared with
  | None => do! onSched (removeJob (c_jobId command)) in mret tt
  | Some (job, overlay) =>
      let! satisfied := completeAlreadySatisfiedJobCommand job in
      if satisfied : bool then mret tt
      else
        do! service (prepareEnabledJob job) in
        do! onSched (addJob localeCompare job overlay) in
        let! satisfied := completeAlreadySatisfiedJobCommand job in
        if satisfied : bool then mret tt
        else refreshJobForCommand (job_id job)
  end.

Definition removeJobFromScheduling (command : Command) : M (Live X) unit :=
  do! onSched (removeJob (c_jobId command)) in mret tt.

Inductive Target : Type :=
  | InSchedule (jobId : string)
  | Detached (job : BidderJob).

(** Cancels on the job object at hand: the payload is merged and the revision set
    before the mutex is waited for, and the revision put back whatever happens. *)
Definition cancelOnJob (meanwhile : M (World X) unit) (payload : list (string * jsval))
    (record : option BiddingJobSourceRecord) : M (World X) Z :=
  do! updateState (applyCancellationPayload payload) in
  let! job := thisJob in
  if negb (hasTrackedActiveOrder job) then mret 0
  else
    let originalRevision := revision job in
    let activeOrderJobRevision :=
      match parseOptionalPayloadNumber (obj_get "activeOrderJobRevision" payload) with
      | Some r => Some r
      | None =>
          match record with
          | Some rec =>
              if bool_decide (activeOrderId (state (sr_job rec)) = activeOrderId (state job))
              then sr_activeOrderJobRevision rec else None
          | None => None
          end
      end in
    do! mmodify (fun w => match activeOrderJobRevision with
                          | Some r => set_job (set_revision (w_job w) r) w
                          | None => w
                          end) in
    fun w =>
      (* the holder of the mutex answers its own caller *)
      let '(_, w) := meanwhile w in
      let '(result, w) := cancelActiveOffersForCommand w in
      (result, set_job (set_revision (w_job w) originalRevision) w).

Definition cancelActiveOffer (meanwhile : M (World X) unit) (command : Command) : M (Live X) unit :=
  let! inMemoryJob := readSched (getJob (c_jobId command)) in
  let! record := service (loadJobById (c_jobId command)) in
  let enabled := match record with Some rec => bool_decide (sr_status rec = Enabled) | None => false end in
  let! removed := if enabled then mret None else onSched (removeJob (c_jobId command)) in
  let target :=
    match removed, inMemoryJob, record with
    | Some job, _, _ => Some (Detached job)
    | None, Some _, _ => Some (InSchedule (c_jobId command))
    | None, None, Some rec => Some (Detached (sr_job rec))
    | None, None, None => None
    end in
  match target with
  | None => mret tt
  | Some (InSchedule jobId) =>
      do! onScheduledJob jobId 0 (cancelOnJob meanwhile (c_payload command) record) in mret tt
  | Some (Detached job) =>
      do! onDetachedJob job (cancelOnJob meanwhile (c_payload command) record) in mret tt
  end.

(** The text of a kind, for a message. *)
Definition kindText (k : CommandKind) : string :=
  match k with
  | JobCreated => "job_created"
  | JobUpdated => "job_updated"
  | JobPaused => "job_paused"
  | JobArchived => "job_archived"
  | CancelActiveOffer => "cancel_active_offer"
  | OtherKind text => text
  end.

Definition applyCommand (meanwhile : M (World X) unit) (command : Command) : M (Live X) unit :=
  match c_kind command with
  | JobCreated | JobUpdated => applyDesiredJob command
  | JobPaused | JobArchived => removeJobFromScheduling command
  | CancelActiveOffer => cancelActiveOffer meanwhile command
  | OtherKind _ => mthrow (String.append "Unsupported bidding job command kind: " (kindText (c_kind command)))
  end.

Definition reconcileEnabledJobs : M (Live X) unit :=
  let! jobs := service loadEnabledJobs in
  service (reconcileEnabledJobsPort jobs).

(** What [processCommand] does before it marks the command completed. *)
Definition applyAndReconcile (meanwhile : M (World X) unit) (command : Command) : M (Live X) unit :=
  do! applyCommand meanwhile command in reconcileEnabledJobs.

End Commands.
End Commands.
