(* ===== verification/CommandsClaims.v ===== *)
(** * What applying a command guarantees

    The declaration in the database decides what is scheduled, a cancellation leaves
    the declaration of the live job alone, and what its early write to the shared job
    does to a refresh in flight. *)

From S2P Require Import Prelude JsValue Domain TraitCriteria BiddingService Strategy StrategyEffects StrategyClaims.
From S2P Require Import Schedule ScheduleInv CommandQueue Commands.

Open Scope Z_scope.

Module CommandsClaims.
Import TraitCriteria Strategy StrategyEffects Schedule ScheduleInv Commands.
Import CommandQueue(JobCreated, JobUpdated, JobPaused, JobArchived, CancelActiveOffer, OtherKind,
  Command, c_commandId, c_jobId, c_kind, c_payload, parseOptionalPayloadString).

Section Claims.
Context {X : Type} `{BiddingService X} `{RuntimeStatePort X} `{MarketReads X} `{JobSource X} `{JobPreparation X}.
Context (localeCompare : keyItem -> keyItem -> Z).
Context (env : BidderEnv) (hasBalanceService acceptingRefreshes : bool).

Abbreviation apply := (applyCommand localeCompare env hasBalanceService acceptingRefreshes).

(** ** What the strategy leaves alone *)

Definition anything (e : Effect) : Prop := True.

Lemma cancelMakerOffers_effects (P : Effect -> Prop) l keep context :
  (forall e, silent e -> P e) -> (forall o b, P (ECancel o b)) ->
  effects P (cancelMakerOffers (X := X) env l keep context).
Proof.
  intros Hs Hc. induction l as [|o l IH]; simpl; [apply effects_ret|].
  apply effects_bind; [|intros []; apply IH]. destruct (match keep with Some _ => _ | None => _ end); [apply effects_ret|].
  unfold cancelAndTrack, performCancelAndTrack. destruct (isDryRun env); [apply effects_ret|].
  apply effects_bind; [apply effects_now|]. intros t.
  apply effects_bind; [eapply effects_weaken; [exact Hs|apply recordCancellation_silent]|]. intros [].
  apply effects_bind; [apply effects_thisJob|]. intros job.
  apply effects_bind; [apply effects_catch; [by apply effects_logged|]|].
  - intros e. apply effects_bind; [eapply effects_weaken; [exact Hs|apply recordCancellation_silent]|].
    intros []. apply effects_throw.
  - intros []. apply effects_bind; [apply effects_now|]. intros t'.
    eapply effects_weaken; [exact Hs|apply recordCancellation_silent].
Qed.

Lemma place_effects amount decision context : effects anything (placeAndTrack (X := X) env amount decision context).
Proof.
  unfold placeAndTrack, performPlaceAndTrack. apply effects_bind; [apply effects_now|]. intros t.
  apply effects_bind; [apply effects_updateState|]. intros []. destruct (isDryRun env); [apply effects_ret|].
  apply effects_bind; [apply effects_thisJob|]. intros job. apply effects_bind; [by apply effects_logged|]. intros p.
  apply effects_bind; [eapply effects_weaken; [done|apply verifiedNow_silent]|]. intros v.
  apply effects_bind; [apply effects_updateState|]. intros [].
  apply effects_bind; [eapply effects_weaken; [done|apply trackDecision_silent]|]. intros [].
  eapply effects_weaken; [done|apply persist_silent].
Qed.

Lemma any_silent {A} (m : M (World X) A) : effects silent m -> effects anything m.
Proof. by apply effects_weaken. Qed.

Lemma actOnPrice_effects own price decision context : effects anything (actOnPrice (X := X) env own price decision context).
Proof.
  assert (forall l k, effects anything (cancelMakerOffers (X := X) env l k context)) as Hc
    by (intros l k; by apply cancelMakerOffers_effects).
  assert (forall d, effects anything (emit (X := X) (EDecision d))) as Hd by (intros d; by apply effects_emit).
  pose proof (place_effects price decision context) as Hp.
  pose proof (any_silent _ (clearDecision_silent (X := X))) as Hcd.
  unfold actOnPrice. apply effects_bind.
  { destruct own; [apply effects_ret|apply any_silent, renewal_silent]. }
  intros renew. destruct (price <=? 0).
  - apply effects_bind; [done|]. intros []. destruct own.
    + apply effects_bind; [done|]. intros []. apply any_silent, persist_silent.
    + apply effects_bind; [done|]. intros []. apply any_silent, clearTrackedOrder_silent.
  - destruct own as [|o own].
    + apply effects_bind; [done|]. intros []. apply effects_bind; [done|]. by intros [].
    + destruct renew; [|destruct (List.find _ _)].
      * apply effects_bind; [done|]. intros []. apply effects_bind; [done|]. intros [].
        apply effects_bind; [done|]. by intros [].
      * apply effects_bind; [done|]. intros []. apply effects_bind; [apply any_silent, trackDecision_silent|]. intros [].
        apply effects_bind; [apply any_silent, trackCurrentOrder_silent|]. by intros [].
      * apply effects_bind; [done|]. intros []. apply effects_bind; [done|]. intros [].
        apply effects_bind; [done|]. by intros [].
Qed.

(** A refresh changes nothing of its job but the state. *)
Lemma executeJob_effects options : effects anything (executeJob localeCompare env options).
Proof.
  intros w r w'. unfold executeJob. destruct (negb (w_scheduled w)); [intros [= <- <-]; by exists []; rewrite app_nil_r|].
  revert w r w'. apply effects_catch.
  - unfold strategyBody. apply effects_bind; [apply any_silent, getRuntimeOverride_silent|]. intros o.
    apply effects_bind; [apply any_silent, readOffers_silent|]. intros offers.
    apply effects_bind; [apply effects_thisJob|]. intros job. apply effects_bind; [|intros []; apply actOnPrice_effects].
    intros w r w'. unfold ofResult. intros [= <- <-]. by exists []; rewrite app_nil_r.
  - intros e. apply effects_bind; [|intros []; destruct (throwOnFailure options); [apply effects_throw|apply effects_ret]].
    intros w r w'. destruct (w_scheduled w); [|intros [= <- <-]; by exists []; rewrite app_nil_r].
    revert w r w'. apply any_silent, persist_silent.
Qed.

Lemma cancelActive_effects (P : Effect -> Prop) context :
  (forall e, silent e -> P e) -> (forall o b, P (ECancel o b)) ->
  effects P (cancelActiveOffersForJob localeCompare env context).
Proof.
  intros Hs Hc.
  assert (forall A (m : M (World X) A), effects silent m -> effects P m) as Hq by (intros A m; by apply effects_weaken).
  unfold cancelActiveOffersForJob. apply effects_bind; [apply effects_thisJob|]. intros job.
  apply effects_bind; [apply effects_call|]. intros offers. apply effects_bind; [apply effects_thisJob|]. intros tj.
  apply effects_bind; [apply Hq, resolveTracked_silent|]. intros tracked. unfold withdrawOffers. destruct (List.filter _ _).
  - destruct (otruthy _).
    + apply effects_bind; [apply effects_now|]. intros t. apply effects_bind; [apply Hq, recordTracked_silent|]. intros [].
      apply effects_bind; [apply Hq, clearTrackedOrder_silent|]. intros []. apply effects_ret.
    + apply effects_bind; [apply Hq, clearTrackedOrder_silent|]. intros []. apply effects_ret.
  - apply effects_bind; [by apply cancelMakerOffers_effects|]. intros [].
    apply effects_bind; [apply Hq, clearTrackedOrder_silent|]. intros []. apply effects_ret.
Qed.

(** ** Work on a job object *)

(** What a command may not change of a job: all but its state. *)
Definition declared (job : BidderJob) : BidderJob := set_state job emptyState.

Lemma cancelOnJob_effects (P : Effect -> Prop) meanwhile payload record :
  (forall e, silent e -> P e) -> (forall o b, P (ECancel o b)) -> effects P meanwhile ->
  effects P (cancelOnJob localeCompare env meanwhile payload record).
Proof.
  intros Hs Hc Hm w r w'. unfold cancelOnJob, mbind at 1, updateState, mmodify at 1.
  set (w1 := set_job _ w). unfold mbind at 1, thisJob.
  assert (same_static w w1) as H01 by done.
  destruct (negb _); [intros [= <- <-]; exists []; by rewrite app_nil_r|].
  set (rev := match parseOptionalPayloadNumber _ with Some _ => _ | None => _ end). unfold mbind, mmodify.
  set (w2 := match rev with Some _ => _ | None => _ end).
  assert (w_trace w2 = w_trace w /\ w_scheduled w2 = w_scheduled w /\ w_balance w2 = w_balance w /\
          forall n, set_revision (declared (w_job w2)) n = set_revision (declared (w_job w)) n) as (Et & Esch & Eb & Ej)
    by (unfold w2; by destruct rev).
  destruct (meanwhile w2) as [r3 w3] eqn:E3. destruct (Hm _ _ _ E3) as (T1 & G1 & G2 & (G3 & G4 & G5)).
  destruct (cancelActiveOffersForCommand localeCompare env w3) as [r4 w4] eqn:E4.
  destruct (cancelActive_effects P _ Hs Hc _ _ _ E4) as (T2 & F1 & F2 & (F3 & F4 & F5)).
  intros [= <- <-]. exists (T1 ++ T2). simpl. rewrite F1, G1, Et, app_assoc. split_and!; [done|by apply Forall_app|].
  split_and!; simpl; [|congruence|congruence].
  transitivity (set_revision (declared (w_job w4)) (revision (w_job w1))); [done|].
  unfold declared at 1. rewrite F3, G3. fold (declared (w_job w2)). by rewrite Ej.
Qed.

Lemma afterWork_jobs id (w : World X) s : s_jobs (afterWork id w s) = s_jobs s.
Proof.
  unfold afterWork. destruct (w_override w); [done|].
  destruct (clearRuntimeOverride_eq id (set_balance (s_balance s) (w_ext w) s)) as (o & t & ->). done.
Qed.

Lemma onScheduledJob_spec {A} (P : Effect -> Prop) id (a : A) m (l : Live X) r l' : effects P m ->
  onScheduledJob id a m l = (r, l') ->
  (exists T, l_trace l' = l_trace l ++ T /\ Forall P T) /\
  (forall i, i <> id -> getJob i (l_sched l') = getJob i (l_sched l)) /\
  declared <$> getJob id (l_sched l') = declared <$> getJob id (l_sched l).
Proof.
  intros Hm. unfold onScheduledJob. destruct (getJob id (l_sched l)) as [job|] eqn:Ej.
  - destruct (m (worldOf job true l)) as [r1 w1] eqn:E. destruct (Hm _ _ _ E) as (T & F1 & F2 & (F3 & _)).
    intros [= <- <-]. split; [by exists T|]. unfold getJob. simpl. rewrite afterWork_jobs. split.
    + intros i Hi. by rewrite jm_get_set_ne.
    + rewrite jm_get_set_eq. simpl. f_equal. exact F3.
  - intros [= <- <-]. split_and!; [exists []; by rewrite app_nil_r|done|by rewrite Ej].
Qed.

Lemma onDetachedJob_spec {A} (P : Effect -> Prop) job (m : M (World X) A) (l : Live X) r l' : effects P m ->
  onDetachedJob job m l = (r, l') ->
  (exists T, l_trace l' = l_trace l ++ T /\ Forall P T) /\ s_jobs (l_sched l') = s_jobs (l_sched l).
Proof.
  intros Hm. unfold onDetachedJob. destruct (m (worldOf job false l)) as [r1 w1] eqn:E.
  destruct (Hm _ _ _ E) as (T & F1 & F2 & _). intros [= <- <-]. split; [by exists T|]. apply afterWork_jobs.
Qed.

(** Work on a detached job, if there is one. *)
Lemma onTarget_spec (P : Effect -> Prop) (t : option BidderJob) (m : M (World X) Z) (l : Live X) r l' :
  effects P m ->
  match t with
  | None => mret tt
  | Some job => do! onDetachedJob job m in mret tt
  end l = (r, l') ->
  (exists T, l_trace l' = l_trace l ++ T /\ Forall P T) /\ s_jobs (l_sched l') = s_jobs (l_sched l).
Proof.
  intros Hm. destruct t as [job|]; [|intros [= <- <-]; split; [exists []; by rewrite app_nil_r|done]].
  unfold mbind. destruct (onDetachedJob _ _ l) as [r1 l1] eqn:E1.
  destruct (onDetachedJob_spec P _ _ _ _ _ Hm E1) as (HT & Ejs).
  intros E. assert (l' = l1) as -> by (destruct r1; by injection E). done.
Qed.

Lemma service_eq {A} (m : M X A) (l : Live X) a x : m (s_ext (l_sched l)) = (Ok a, x) ->
  exists l1, service m l = (Ok a, l1) /\ s_jobs (l_sched l1) = s_jobs (l_sched l) /\ l_trace l1 = l_trace l /\
             l1 = {| l_sched := set_balance (s_balance (l_sched l)) x (l_sched l); l_trace := l_trace l |}.
Proof. intros E. unfold service, onSched, callExt. rewrite E. by eexists. Qed.

Lemma set_balance_wf b x (s : Sched X) : schedule_wf s -> schedule_wf (set_balance b x s).
Proof. by intros []. Qed.

(** A cancellation leaves the live declaration alone and places nothing of its
    own.  Whatever the outcome, errors included: a job whose saved declaration is
    enabled stays scheduled with the same declaration and revision (only its runtime
    state changes), any other job named by the command leaves the schedule, and no
    other job is touched.  Its effects, beyond those of the refresh it may have to wait
    for ([meanwhile]), are cancellations, records and saves of state. *)
Lemma cancellation_effects (P : Effect -> Prop) meanwhile c (l : Live X) r l' record x :
  schedule_wf (l_sched l) -> c_kind c = CancelActiveOffer ->
  loadJobById (c_jobId c) (s_ext (l_sched l)) = (Ok record, x) ->
  (forall e, silent e -> P e) -> (forall o b, P (ECancel o b)) -> effects P meanwhile ->
  apply meanwhile c l = (r, l') ->
  (exists T, l_trace l' = l_trace l ++ T /\ Forall P T) /\
  (forall i, i <> c_jobId c -> getJob i (l_sched l') = getJob i (l_sched l)) /\
  (if match record with Some rec => bool_decide (sr_status rec = Enabled) | None => false end
   then declared <$> getJob (c_jobId c) (l_sched l') = declared <$> getJob (c_jobId c) (l_sched l)
   else getJob (c_jobId c) (l_sched l') = None).
Proof.
  intros Hwf Hk Hload Hs Hc Hm. unfold applyCommand. rewrite Hk. unfold cancelActiveOffer.
  unfold mbind at 1, readSched. unfold mbind at 1.
  destruct (service_eq _ _ _ _ Hload) as (l1 & -> & Ej1 & Et1 & El1).
  pose proof (cancelOnJob_effects P meanwhile (c_payload c) record Hs Hc Hm) as Hco.
  assert (forall i, getJob i (l_sched l1) = getJob i (l_sched l)) as Hg1 by (intros i; unfold getJob; by rewrite Ej1).
  destruct (match record with Some rec => bool_decide (sr_status rec = Enabled) | None => false end) eqn:En.
  - unfold mbind at 1, mret at 1. destruct (getJob (c_jobId c) (l_sched l)) as [job|] eqn:Ej.
    + unfold mbind. destruct (onScheduledJob _ _ _ l1) as [r2 l2] eqn:E2.
      destruct (onScheduledJob_spec P _ _ _ _ _ _ Hco E2) as (HT & Ho & Hd).
      rewrite Et1 in HT. rewrite Hg1, Ej in Hd.
      intros E. assert (l' = l2) as -> by (destruct r2; by injection E). split_and!; [done| |done].
      intros i Hi. by rewrite Ho, Hg1.
    + destruct record as [rec|]; [|done].
      unfold mbind. destruct (onDetachedJob _ _ l1) as [r2 l2] eqn:E2.
      destruct (onDetachedJob_spec P _ _ _ _ _ Hco E2) as (HT & Ejs). rewrite Et1 in HT.
      intros E. assert (l' = l2) as -> by (destruct r2; by injection E).
      assert (forall i, getJob i (l_sched l2) = getJob i (l_sched l)) as Hg by (intros i; unfold getJob; by rewrite Ejs, Ej1).
      split_and!; [done|done|]. by rewrite Hg, Ej.
  - unfold mbind at 1, onSched. destruct (removeJob (c_jobId c) (l_sched l1)) as [r2 s2] eqn:E2.
    destruct (removeJob_spec (c_jobId c) (l_sched l1) r2 s2) as (Hwf2 & -> & Hg2); [|done|].
    { rewrite El1. by apply set_balance_wf. }
    assert (forall i, i <> c_jobId c -> getJob i s2 = getJob i (l_sched l)) as Ho
      by (intros i Hi; rewrite Hg2; unfold without; by rewrite decide_False, Hg1 by done).
    assert (getJob (c_jobId c) s2 = None) as Hnone by (rewrite Hg2; unfold without; by rewrite decide_True).
    rewrite Hg1. set (l2 := {| l_sched := s2; l_trace := l_trace l1 |}).
    intros E. destruct (onTarget_spec P (match getJob (c_jobId c) (l_sched l), record with
                              | Some job, _ => Some job
                              | None, Some rec => Some (sr_job rec)
                              | None, None => None
                              end) _ l2 r l' Hco) as (HT & Ejs).
    { revert E. destruct (getJob (c_jobId c) (l_sched l)); [done|]. by destruct record. }
    simpl in HT. rewrite Et1 in HT. unfold getJob in *. rewrite Ejs. split_and!; [done|exact Ho|exact Hnone].
Qed.

(** ** Declarations *)

Lemma balance_jobs b a (s : Sched X) r s' : refreshCachedMakerWethBalance b a s = (r, s') ->
  is_ok r = true /\ s_jobs s' = s_jobs s.
Proof.
  unfold refreshCachedMakerWethBalance. destruct b; [|by intros [= <- <-]].
  simpl. destruct (getWethBalance a (s_ext s)) as [[]]; by intros [= <- <-].
Qed.

Lemma refreshForCommand_spec id (l : Live X) r l' :
  refreshJobForCommand localeCompare env hasBalanceService acceptingRefreshes id l = (r, l') ->
  (forall i, i <> id -> getJob i (l_sched l') = getJob i (l_sched l)) /\
  declared <$> getJob id (l_sched l') = declared <$> getJob id (l_sched l).
Proof.
  unfold refreshJobForCommand, mbind, onSched.
  destruct (refreshCachedMakerWethBalance _ _ (l_sched l)) as [r1 s1] eqn:E1.
  apply balance_jobs in E1 as [Hr Ejs]. destruct r1; [|done].
  assert (forall i, getJob i s1 = getJob i (l_sched l)) as Hg by (intros i; unfold getJob; by rewrite Ejs).
  destruct (negb acceptingRefreshes).
  { unfold mthrow. intros [= <- <-]. split; [intros i _; apply Hg|]. simpl. by rewrite Hg. }
  intros E. destruct (onScheduledJob_spec anything _ _ _ _ _ _ (executeJob_effects _) E) as (_ & Ho & Hd).
  simpl in Ho, Hd. split; [|by rewrite <- Hg]. intros i Hi. by rewrite Ho, Hg.
Qed.

(** A job of the schedule as declared by [job]. *)
Definition scheduledAs (job : BidderJob) (s : Sched X) : Prop :=
  declared <$> getJob (job_id job) s = Some (declared job).

(** The same asset to bid on; the trait criteria of a collection target in any order. *)
Definition sameTarget (t t' : BidderTarget) : Prop :=
  match t, t' with
  | TokenTarget a, TokenTarget b => a = b
  | CollectionTarget _ a, CollectionTarget _ b => forall c, In c (default_traits a) <-> In c (default_traits b)
  | CompetitiveTraitTarget _ a _, CompetitiveTraitTarget _ b _ => a = b
  | _, _ => False
  end.

(** The job of the schedule already does what [job] declares: it was declared by the same
    revision with the same prices and competition, for the same target, and has an offer
    that was verified. *)
Record satisfiedBy (current job : BidderJob) : Prop := {
  sb_revision : revision current = revision job;
  sb_floor : floor (config current) = floor (config job);
  sb_ceiling : ceiling (config current) = ceiling (config job);
  sb_delta : delta (config current) = delta (config job);
  sb_extra : default_traits (extraCompetitionTraits (config current)) = default_traits (extraCompetitionTraits (config job));
  sb_address : collectionAddress current = collectionAddress job;
  sb_slug : collectionSlug current = collectionSlug job;
  sb_target : sameTarget (target current) (target job);
  sb_order : exists id, activeOrderId (state current) = Some id /\ id <> ""%string;
  sb_verified : exists at_, activeOrderVerifiedAt (state current) = Some at_ /\ at_ <> ""%string;
  sb_price : is_Some (currentPrice (state current));
}.

Lemma exactCriteria_same a b :
  matchesExactTraitTargets localeCompare (map exactCriterion a) (map exactCriterion b) = true ->
  forall c, In c a <-> In c b.
Proof.
  intros Hh c. pose proof (exact_match_same_criteria localeCompare _ _ Hh (criterionItem (exactCriterion c))) as Hi.
  rewrite !map_map in Hi.
  assert (forall l, criterionItem (exactCriterion c) ∈ map (fun x => criterionItem (exactCriterion x)) l <-> In c l) as Hl.
  { intros l. rewrite list_elem_of_In, in_map_iff. split; [|intros Hc; by exists c].
    intros ([ty v] & E & Hin). destruct c. injection E as -> ->. done. }
  by rewrite !Hl in Hi.
Qed.

Lemma sameIdentity_same current job : hasSameTargetIdentity localeCompare current job = true ->
  collectionAddress current = collectionAddress job /\ collectionSlug current = collectionSlug job
  /\ sameTarget (target current) (target job).
Proof.
  unfold hasSameTargetIdentity. destruct (String.eqb_spec (collectionAddress current) (collectionAddress job)); [|done].
  destruct (String.eqb_spec (collectionSlug current) (collectionSlug job)); [|done].
  destruct (negb _ || _ || _) eqn:E; [done|]. intros Hh. split_and!; [done..|].
  destruct (target current), (target job); try done; simpl in *.
  - by apply String.eqb_eq.
  - by apply exactCriteria_same.
  - destruct (exactCriteria_same [targetTrait] [targetTrait0] Hh targetTrait) as [Hin _].
    by destruct (Hin ltac:(by left)) as [->|[]].
Qed.

Lemma satisfied_spec job (s : Sched X) : is_Some (getSatisfiedRuntimeSnapshot localeCompare job s) ->
  exists current, getJob (job_id job) s = Some current /\ satisfiedBy current job.
Proof.
  intros [snap Hh]. unfold getSatisfiedRuntimeSnapshot in Hh. destruct (getJob _ s) as [current|]; [|done].
  exists current. split; [done|]. destruct (hasSameSatisfiedDeclaration localeCompare current job) eqn:Eh; [|done].
  simpl in Hh. repeat (case_match; [|done]). zbool. unfold hasSameSatisfiedDeclaration in Eh. zbool.
  destruct (sameIdentity_same current job) as (? & ? & ?); [done|].
  assert (forall t, truthy t = true -> t <> ""%string) as Ht by (by intros [|]).
  constructor; eauto; try done. eapply bool_decide_eq_true_1; eassumption.
Qed.

(** ** Other jobs *)

Lemma addJobToIndexes_jobs job (s : Sched X) r s' : addJobToIndexes job s = (r, s') -> s_jobs s' = s_jobs s.
Proof. unfold addJobToIndexes. destruct (target job); [|by intros [= <- <-]..]. cbv zeta. case_match; by intros [= <- <-]. Qed.

(** Whether or not the job is taken, no other is. *)
Lemma addJob_others job overlay (s : Sched X) r s' : schedule_wf s -> addJob localeCompare job overlay s = (r, s') ->
  forall i, i <> job_id job -> getJob i s' = getJob i s.
Proof.
  intros Hwf E i Hi. destruct (addJob_taken localeCompare job overlay s Hwf) as (t & c & n & Eq & _). rewrite Eq in E.
  assert (s_jobs s' = jm_set (job_id job) (mergedJob localeCompare job overlay s) (s_jobs s)) as Ejs.
  { unfold mbind in E. destruct (addJobToIndexes _ _) as [r1 s1] eqn:E1. apply addJobToIndexes_jobs in E1.
    destruct r1 as [[]|]; [|by injection E as _ <-]. unfold adjustJobTargetCount, mmodify in E.
    injection E as _ <-. by destruct (target_type _). }
  unfold getJob. rewrite Ejs. by apply jm_get_set_ne.
Qed.

(** What [applyDesiredJob] does with a declaration. *)
Definition followsDeclaration (job : BidderJob) (l l' : Live X) : Prop :=
  (exists current, getJob (job_id job) (l_sched l) = Some current /\ satisfiedBy current job /\
     s_jobs (l_sched l') = s_jobs (l_sched l) /\ l_trace l' = l_trace l) \/
  scheduledAs job (l_sched l').

(** The part of [applyDesiredJob] that has a declaration. *)
Lemma applyDeclared_spec job overlay (l l' : Live X) r : schedule_wf (l_sched l) -> truthy (job_id job) = true ->
  (let! satisfied := completeAlreadySatisfiedJobCommand localeCompare job in
   if satisfied : bool then mret tt
   else
     do! service (prepareEnabledJob job) in
     do! onSched (addJob localeCompare job overlay) in
     let! satisfied := completeAlreadySatisfiedJobCommand localeCompare job in
     if satisfied : bool then mret tt
     else refreshJobForCommand localeCompare env hasBalanceService acceptingRefreshes (job_id job)) l = (r, l') ->
  (forall i, i <> job_id job -> getJob i (l_sched l') = getJob i (l_sched l)) /\
  (r = Ok tt -> followsDeclaration job l l').
Proof.
  intros Hwf Htr. unfold mbind at 1, completeAlreadySatisfiedJobCommand at 1, readSched.
  destruct (getSatisfiedRuntimeSnapshot localeCompare job (l_sched l)) as [snap|] eqn:Esat.
  { intros [= <- <-]. split; [done|]. intros _. left.
    destruct (satisfied_spec job (l_sched l)) as (current & Hc & Hs); [by rewrite Esat|]. by exists current. }
  unfold mbind at 1, service, onSched at 1, callExt. destruct (prepareEnabledJob job _) as [[[]|] x1]; [|by intros [= <- <-]].
  unfold mbind at 1, onSched at 1. simpl.
  destruct (addJob localeCompare job overlay _) as [r2 s2] eqn:E2.
  pose proof (addJob_others _ _ _ _ _ (set_balance_wf _ _ _ Hwf) E2) as Ho2.
  destruct r2 as [[]|]; [|by intros [= <- <-]].
  destruct (addJob_spec localeCompare job overlay (set_balance (s_balance (l_sched l)) x1 (l_sched l)) s2)
    as (_ & Hj & _ & _); [by apply set_balance_wf|done|done|].
  assert (scheduledAs job s2) as Hd by (unfold scheduledAs; by rewrite Hj).
  unfold mbind, completeAlreadySatisfiedJobCommand, readSched. simpl.
  destruct (getSatisfiedRuntimeSnapshot localeCompare job s2); [intros [= <- <-]; split; [done|by right]|].
  intros E. apply refreshForCommand_spec in E as [Ho3 Hd3]. simpl in *.
  split; [intros i Hi; by rewrite Ho3, Ho2|]. right. unfold scheduledAs. by rewrite Hd3.
Qed.

(** A call of a service, whatever its answer. *)
Lemma service_run {A} (m : M X A) (l : Live X) a x : m (s_ext (l_sched l)) = (a, x) ->
  service m l = (a, {| l_sched := set_balance (s_balance (l_sched l)) x (l_sched l); l_trace := l_trace l |}).
Proof. intros E. unfold service, onSched, callExt. by rewrite E. Qed.

(** The schedule without the job of a command. *)
Definition takenOut (jobId : string) (l l' : Live X) : Prop :=
  l_trace l' = l_trace l /\
  forall i, getJob i (l_sched l') = if decide (i = jobId) then None else getJob i (l_sched l).

Lemma removed_takenOut jobId (l l1 l' : Live X) r : schedule_wf (l_sched l1) -> l_trace l1 = l_trace l ->
  (forall i, getJob i (l_sched l1) = getJob i (l_sched l)) ->
  (do! onSched (removeJob jobId) in mret tt) l1 = (r, l') -> r = Ok tt /\ takenOut jobId l l'.
Proof.
  intros Hwf1 Et1 Hg1. unfold mbind, onSched. destruct (removeJob jobId (l_sched l1)) as [r2 s2] eqn:E2.
  destruct (removeJob_spec _ _ _ _ Hwf1 E2) as (_ & -> & Hg2). intros [= <- <-]. split; [done|]. split; [done|].
  intros i. simpl. rewrite Hg2. unfold without. case_decide as E; [by rewrite decide_True|].
  rewrite decide_False by done. apply Hg1.
Qed.

(** C28: The saved declaration decides what is scheduled.  A pause or archive command
    takes the job out of the schedule and does nothing else.  A create or update
    command whose job has no enabled and authorised declaration does the same; with
    one, when it returns, the job is scheduled exactly as declared, unless the live job
    already has a verified offer and the same revision, prices, competition and target,
    and then nothing is done.  A cancellation keeps the declaration of a job that is
    enabled, takes any other out, and its effects, beyond those of the refresh it may wait
    for ([meanwhile]), are cancellations, records and saves of state.  An unknown kind
    has no effect.  Whatever fails, no command touches another job of the schedule. *)
Theorem declaration_decides_schedule (P : Effect -> Prop) meanwhile c (l : Live X) r l' found x record y :
  schedule_wf (l_sched l) ->
  loadEnabledJobById (c_jobId c) (s_ext (l_sched l)) = (found, x) ->
  loadJobById (c_jobId c) (s_ext (l_sched l)) = (record, y) ->
  (forall job overlay, found = Ok (Some (job, overlay)) -> job_id job = c_jobId c /\ truthy (c_jobId c) = true) ->
  (forall e, silent e -> P e) -> (forall o b, P (ECancel o b)) -> effects P meanwhile ->
  apply meanwhile c l = (r, l') ->
  (forall i, i <> c_jobId c -> getJob i (l_sched l') = getJob i (l_sched l)) /\
  match c_kind c with
  | JobPaused | JobArchived => r = Ok tt /\ takenOut (c_jobId c) l l'
  | JobCreated | JobUpdated =>
      match found with
      | Ok None => r = Ok tt /\ takenOut (c_jobId c) l l'
      | Ok (Some (job, _)) => r = Ok tt -> followsDeclaration job l l'
      | Err e => r = Err e /\ s_jobs (l_sched l') = s_jobs (l_sched l) /\ l_trace l' = l_trace l
      end
  | CancelActiveOffer =>
      match record with
      | Ok found =>
          (exists T, l_trace l' = l_trace l ++ T /\ Forall P T) /\
          if match found with Some rec => bool_decide (sr_status rec = Enabled) | None => false end
          then declared <$> getJob (c_jobId c) (l_sched l') = declared <$> getJob (c_jobId c) (l_sched l)
          else getJob (c_jobId c) (l_sched l') = None
      | Err e => r = Err e /\ s_jobs (l_sched l') = s_jobs (l_sched l) /\ l_trace l' = l_trace l
      end
  | OtherKind _ => is_ok r = false /\ l' = l
  end.
Proof.
  intros Hwf Hload Hrec Hid Hs Hc Hm Hh.
  assert (forall r', r' = Ok tt /\ takenOut (c_jobId c) l l' ->
    (forall i, i <> c_jobId c -> getJob i (l_sched l') = getJob i (l_sched l)) /\ r' = Ok tt /\ takenOut (c_jobId c) l l') as Hout.
  { intros r' (-> & Et & Hg). split; [intros i Hi; by rewrite Hg, decide_False|done]. }
  destruct (c_kind c) eqn:Ek.
  5: { destruct record as [found'|e].
       - destruct (cancellation_effects P meanwhile c l r l' found' y Hwf Ek Hrec Hs Hc Hm Hh) as (Hc1 & Hc2 & Hc3). split_and!; assumption.
       - unfold applyCommand in Hh. rewrite Ek in Hh. unfold cancelActiveOffer, mbind at 1, readSched, mbind at 1 in Hh.
         rewrite (service_run _ _ _ _ Hrec) in Hh. by injection Hh as <- <-. }
  3-4: unfold applyCommand in Hh; rewrite Ek in Hh; apply Hout; by eapply removed_takenOut.
  3: unfold applyCommand in Hh; rewrite Ek in Hh; by injection Hh as <- <-.
  all: unfold applyCommand in Hh; rewrite Ek in Hh; unfold applyDesiredJob, mbind at 1 in Hh;
    rewrite (service_run _ _ _ _ Hload) in Hh; destruct found as [[[job overlay]|]|e];
    [|apply (removed_takenOut (c_jobId c) l) in Hh; [by apply Hout|by apply set_balance_wf|done|done]|by injection Hh as <- <-].
  all: destruct (Hid job overlay eq_refl) as [Ejid Htr]; rewrite <- Ejid in *;
    eapply applyDeclared_spec in Hh; [exact Hh|by apply set_balance_wf|done].
Qed.

End Claims.
(** ** A concrete bidder

    The market of [StrategyClaims] and a table with one enabled job. *)
Section Example.
Import StrategyClaims.
#[local] Existing Instances marketService marketState.

#[local] Instance marketReads : MarketReads Market := {|
  getTraits _ _ x := (Ok [], x);
  getWethBalance _ x := (Ok (milliEth 800), x);
  getActiveTokenOfferByMaker _ _ x := (Ok None, x);
|}.

#[local] Instance marketJobs : JobSource Market := {|
  loadEnabledJobs x := (Ok [exampleJob emptyState], x);
  loadJobById _ x := (Ok (Some {| sr_job := exampleJob (trackedState "mine"); sr_status := Enabled;
                                  sr_revision := 1; sr_activeOrderJobRevision := Some 0 |}), x);
  loadEnabledJobById _ x := (Ok (Some (exampleJob emptyState, noOverlay)), x);
|}.

#[local] Instance marketPreparation : JobPreparation Market := {|
  prepareEnabledJob _ x := (Ok tt, x);
  reconcileEnabledJobsPort _ x := (Ok tt, x);
|}.

Definition exampleCommand (k : CommandQueue.CommandKind) (payload : list (string * jsval)) : Command := {|
  c_commandId := 1; c_jobId := "job"; c_kind := k; CommandQueue.c_status := CommandQueue.Processing;
  CommandQueue.c_requestedRevision := 1; c_payload := payload; CommandQueue.c_attempts := 1;
  CommandQueue.c_createdAtMs := 0; CommandQueue.c_claimedAtMs := 0; CommandQueue.c_reclaimed := false |}.

Definition applyExample := applyCommand collate exampleEnv true true.

(** Nothing scheduled, a rival's offer in the book. *)
Definition live0 : Live Market := {|
  l_sched := initialSchedule None (w_ext (exampleWorld true [] emptyState)); l_trace := [] |}.

Lemma applied_declaration : fst (applyExample (mret tt) (exampleCommand JobCreated []) live0) = Ok tt.
Proof. by vm_compute. Qed.

(** Creating the job on a schedule that has none: it is scheduled and bids at once. *)
Lemma declaration_decides_schedule_witness :
  let l' := snd (applyExample (mret tt) (exampleCommand JobCreated []) live0) in
  scheduledAs (exampleJob emptyState) (l_sched l') /\ market (l_trace l') = [EPlace (milliEth 501) true].
Proof.
  intros l'.
  pose proof (declaration_decides_schedule collate exampleEnv true true anything (mret tt) (exampleCommand JobCreated [])
    live0 (fst (applyExample (mret tt) (exampleCommand JobCreated []) live0)) l' (Ok (Some (exampleJob emptyState, noOverlay))) (s_ext (l_sched live0)) _ _ (initialSchedule_wf _ _)
    eq_refl (surjective_pairing _)
    ltac:(intros job overlay [= <- <-]; done) ltac:(done) ltac:(done) (effects_ret _ _) (surjective_pairing _)) as [_ H].
  assert (followsDeclaration (exampleJob emptyState) live0 l') as [(current & Hcurrent & _)|Hs] by exact (H applied_declaration).
  - by vm_compute in Hcurrent.
  - split; [exact Hs|]. by vm_compute.
Defined.

(** The job with the tracked offer "mine" scheduled, its offer in the book. *)
Definition live1 : Live Market := {|
  l_sched := snd (addJob collate (exampleJob emptyState)
    {| ov_lastRun := None; ov_activeOrderId := Some (Some "mine"%string);
       ov_activeProtocolAddress := Some (Some "0xproto"%string); ov_activeOrderPlacedAt := None;
       ov_activeOrderVerifiedAt := None; ov_currentPrice := None; ov_activeExpirationTimeMs := None;
       ov_bidPosition := None; ov_bidConstraints := None; ov_competitorPrice := None |}
    (initialSchedule (Some (milliEth 800)) (w_ext world0)));
  l_trace := [] |}.

Definition cancelCommand : Command :=
  exampleCommand CancelActiveOffer [("activeOrderId", VStr "mine"); ("activeOrderJobRevision", VNum (NInt 0))].

Lemma live1_wf : schedule_wf (l_sched live1).
Proof.
  unfold live1. cbn [l_sched].
  destruct (addJob collate (exampleJob emptyState) _ _) as [[[]|e] s'] eqn:E; [|by vm_compute in E].
  eapply addJob_spec; [apply initialSchedule_wf| |exact E]. done.
Qed.

Definition record1 : BiddingJobSourceRecord := {|
  sr_job := exampleJob (trackedState "mine"); sr_status := Enabled; sr_revision := 1;
  sr_activeOrderJobRevision := Some 0 |}.

Lemma live1_loads : loadJobById "job" (s_ext (l_sched live1)) = (Ok (Some record1), s_ext (l_sched live1)).
Proof. vm_compute. reflexivity. Qed.

(** A command cancels the offer of an enabled job, which stays as declared. *)
Lemma cancellation_effects_example :
  let l' := snd (applyExample (mret tt) cancelCommand live1) in
  declared <$> getJob "job" (l_sched l') = Some (exampleJob emptyState) /\
  exists T, l_trace l' = T /\ Forall (fun e => match e with EPlace _ _ => False | _ => True end) T.
Proof.
  intros l'.
  destruct (cancellation_effects collate exampleEnv true true
    (fun e => match e with EPlace _ _ => False | _ => True end) (mret tt) cancelCommand live1
    (fst (applyExample (mret tt) cancelCommand live1)) l'
    (Some record1) (s_ext (l_sched live1)) live1_wf eq_refl live1_loads
    ltac:(by intros []) ltac:(done) (effects_ret _ _) (surjective_pairing _)) as ((T & ET & HT) & _ & Hd).
  split; [by vm_compute in Hd|]. by exists T.
Defined.

(** The orders saved, each with the revision saved beside it. *)
Definition savedRevisions (T : list Effect) : list (option string * Z) :=
  flat_map (fun e => match e with
                     | EPersist snapshot true => [(js_activeOrderId snapshot, js_jobRevision snapshot)]
                     | _ => []
                     end) T.

(** A cancellation lends its revision to a refresh in flight.  The command sets the
    revision of the cancelled order on the job object before it waits for the job's
    mutex; when the job is enabled that object is the scheduled one, so a refresh
    that holds the mutex meanwhile saves the offer it places for the current
    declaration (revision 1) under the revision of the offer to be cancelled (0). *)
Theorem waiting_cancellation_mislabels_refresh :
  let l' := snd (applyExample (executeJob collate exampleEnv exampleOptions) cancelCommand live1) in
  revision <$> getJob "job" (l_sched live1) = Some 1 /\ revision <$> getJob "job" (l_sched l') = Some 1 /\
  In (Some "42"%string, 0) (savedRevisions (l_trace l')) /\
  ~ In (Some "42"%string, 1) (savedRevisions (l_trace l')).
Proof. vm_compute. split_and!; [done|done|by left|]. intros H. by repeat destruct H as [H|H]. Qed.


End Example.
End CommandsClaims.
