(* ===== verification/RateLimiter.v ===== *)
(** * The token-bucket rate limiter of the OpenSea adapter

    [TokenBucketRateLimiter] (token-bucket-rate-limiter.ts): two buckets, one for
    reads and one for writes, refilled with time, and a queue of waiting requests
    served by priority and then by age.  Token amounts are rational numbers, where the
    code has floating point.  The clock is read by each operation and need not move
    forward.  A waiting request is known by its sequence number, and [admitted] logs
    the requests let through; observers are left out. *)

From Stdlib Require Import QArith Qminmax Qround Lqa.
From S2P Require Import Prelude.

Open Scope Z_scope.

Module RateLimiter.

Record TokenBucketRateLimiterConfig := {
  cf_getMax : Q;
  cf_getRefillPerSecond : Q;
  cf_postMax : Q;
  cf_postRefillPerSecond : Q;
}.

Record PendingRateLimitRequest := {
  getCost : Q;
  postCost : Q;
  priority : Z;
  sequence : Z;
  requestedAt : Z;
}.

Record Admission := { ad_getCost : Q; ad_postCost : Q; ad_request : option PendingRateLimitRequest }.

Record Limiter := {
  getMax : Q;
  postMax : Q;
  getRefillPerMs : Q;
  postRefillPerMs : Q;
  getTokens : Q;
  postTokens : Q;
  lastRefillAt : Z;
  pendingRequests : list PendingRateLimitRequest;
  nextSequence : Z;
  drainTimerAt : option Z;
  admitted : list Admission;
}.

(** [TOKEN_BUCKET_RATE_LIMIT_PRIORITY] *)
Definition Background : Z := 0.
Definition UserCommand : Z := 1.

Definition create (config : TokenBucketRateLimiterConfig) (now : Z) : Limiter :=
  let getMax := Qmax 1 (cf_getMax config) in
  let postMax := Qmax 1 (cf_postMax config) in
  {| getMax := getMax; postMax := postMax;
     getRefillPerMs := (Qmax 0 (cf_getRefillPerSecond config) / 1000)%Q;
     postRefillPerMs := (Qmax 0 (cf_postRefillPerSecond config) / 1000)%Q;
     getTokens := getMax; postTokens := postMax; lastRefillAt := now; pendingRequests := [];
     nextSequence := 1; drainTimerAt := None; admitted := [] |}.

(** ** Updates *)

Definition set_tokens (g p : Q) (at_ : Z) (l : Limiter) : Limiter := {|
  getMax := getMax l; postMax := postMax l; getRefillPerMs := getRefillPerMs l;
  postRefillPerMs := postRefillPerMs l; getTokens := g; postTokens := p; lastRefillAt := at_;
  pendingRequests := pendingRequests l; nextSequence := nextSequence l; drainTimerAt := drainTimerAt l;
  admitted := admitted l |}.

Definition set_pending (r : list PendingRateLimitRequest) (next : Z) (l : Limiter) : Limiter := {|
  getMax := getMax l; postMax := postMax l; getRefillPerMs := getRefillPerMs l;
  postRefillPerMs := postRefillPerMs l; getTokens := getTokens l; postTokens := postTokens l;
  lastRefillAt := lastRefillAt l; pendingRequests := r; nextSequence := next;
  drainTimerAt := drainTimerAt l; admitted := admitted l |}.

Definition set_timer (t : option Z) (l : Limiter) : Limiter := {|
  getMax := getMax l; postMax := postMax l; getRefillPerMs := getRefillPerMs l;
  postRefillPerMs := postRefillPerMs l; getTokens := getTokens l; postTokens := postTokens l;
  lastRefillAt := lastRefillAt l; pendingRequests := pendingRequests l; nextSequence := nextSequence l;
  drainTimerAt := t; admitted := admitted l |}.

Definition letThrough (a : Admission) (l : Limiter) : Limiter := {|
  getMax := getMax l; postMax := postMax l; getRefillPerMs := getRefillPerMs l;
  postRefillPerMs := postRefillPerMs l; getTokens := getTokens l; postTokens := postTokens l;
  lastRefillAt := lastRefillAt l; pendingRequests := pendingRequests l; nextSequence := nextSequence l;
  drainTimerAt := drainTimerAt l; admitted := admitted l ++ [a] |}.

(** ** Buckets *)

Definition refill (now : Z) (l : Limiter) : Limiter :=
  let deltaMs := now - lastRefillAt l in
  if deltaMs <=? 0 then l
  else set_tokens (Qmin (getMax l) (getTokens l + inject_Z deltaMs * getRefillPerMs l)%Q)
         (Qmin (postMax l) (postTokens l + inject_Z deltaMs * postRefillPerMs l)%Q) now l.

Definition canSatisfy (g p : Q) (l : Limiter) : bool :=
  Qle_bool g (getTokens l) && Qle_bool p (postTokens l).

Definition consume (g p : Q) (l : Limiter) : Limiter :=
  set_tokens (getTokens l - g)%Q (postTokens l - p)%Q (lastRefillAt l) l.

(** ** The timer *)

(** Keeps an armed timer that is not later. *)
Definition scheduleDrain (now : Z) (delayMs : Q) (l : Limiter) : Limiter :=
  let runAt := now + Z.max 0 (Qceiling delayMs) in
  match drainTimerAt l with
  | Some t => if t <=? runAt then l else set_timer (Some runAt) l
  | None => set_timer (Some runAt) l
  end.

(** ** The queue *)

Definition highestPriority (rs : list PendingRateLimitRequest) : option Z :=
  match map priority rs with
  | [] => None
  | p :: ps => Some (foldr Z.max p ps)
  end.

Definition ofHighestPriority (rs : list PendingRateLimitRequest) : list PendingRateLimitRequest :=
  match highestPriority rs with
  | None => []
  | Some p => List.filter (fun r => priority r =? p) rs
  end.

(** The oldest of some requests. *)
Definition oldest (rs : list PendingRateLimitRequest) : option PendingRateLimitRequest :=
  match rs with
  | [] => None
  | r :: rs => Some (foldl (fun best r => if sequence r <? sequence best then r else best) r rs)
  end.

(** [findNextSatisfiableRequestIndex]: the request it points to. *)
Definition findNextSatisfiableRequest (l : Limiter) : option PendingRateLimitRequest :=
  oldest (List.filter (fun r => canSatisfy (getCost r) (postCost r) l) (ofHighestPriority (pendingRequests l))).

(** Takes the request with a sequence number out of the queue. *)
Fixpoint spliceOut (seq : Z) (rs : list PendingRateLimitRequest) : list PendingRateLimitRequest :=
  match rs with
  | [] => []
  | r :: rs' => if sequence r =? seq then rs' else r :: spliceOut seq rs'
  end.

Definition waitFor (needed perMs : Q) : Q :=
  if Qeq_bool needed 0 || Qeq_bool perMs 0 then 0%Q else (needed / perMs)%Q.

Definition computeWaitMs (g p : Q) (l : Limiter) : Q :=
  let neededGet := Qmax 0 (g - getTokens l)%Q in
  let neededPost := Qmax 0 (p - postTokens l)%Q in
  Qmax (Qmax (waitFor neededGet (getRefillPerMs l)) (waitFor neededPost (postRefillPerMs l))) 25.

Definition computeNextWaitMs (l : Limiter) : Q :=
  match oldest (ofHighestPriority (pendingRequests l)) with
  | Some r => computeWaitMs (getCost r) (postCost r) l
  | None => 0%Q
  end.

(** The loop of [drainQueue]; the queue gets shorter each time round, so its length
    is fuel enough. *)
Fixpoint drainLoop (fuel : nat) (now : Z) (l : Limiter) : Limiter :=
  match fuel with
  | O => l
  | S fuel' =>
      match pendingRequests l with
      | [] => l
      | _ :: _ =>
          match findNextSatisfiableRequest l with
          | None => scheduleDrain now (computeNextWaitMs l) l
          | Some r =>
              let l := set_pending (spliceOut (sequence r) (pendingRequests l)) (nextSequence l) l in
              let l := consume (getCost r) (postCost r) l in
              drainLoop fuel' now
                (letThrough {| ad_getCost := getCost r; ad_postCost := postCost r; ad_request := Some r |} l)
          end
      end
  end.

Definition drainQueue (now : Z) (l : Limiter) : Limiter :=
  let l := refill now l in
  drainLoop (S (length (pendingRequests l))) now l.

(** ** Operations *)

(** [wait]; [true] when it returns at once. *)
Definition wait (now : Z) (g p : Q) (prio : Z) (l : Limiter) : bool * Limiter :=
  if Qle_bool g 0 && Qle_bool p 0 then (true, l)
  else
    let l := refill now l in
    if match pendingRequests l with [] => true | _ :: _ => false end && canSatisfy g p l then
      (true, letThrough {| ad_getCost := g; ad_postCost := p; ad_request := None |} (consume g p l))
    else
      let r := {| getCost := g; postCost := p; priority := prio; sequence := nextSequence l;
                  requestedAt := now |} in
      (false, scheduleDrain now 0 (set_pending (pendingRequests l ++ [r]) (nextSequence l + 1) l)).

(** The timer fires once its time has come. *)
Definition timerFires (now : Z) (l : Limiter) : option Limiter :=
  match drainTimerAt l with
  | Some t => if t <=? now then Some (drainQueue now (set_timer None l)) else None
  | None => None
  end.

(** A call with costs that are not negative, or the timer, at any clock reading. *)
Inductive step : Limiter -> Limiter -> Prop :=
  | step_wait l now g p prio : (0 <= g)%Q -> (0 <= p)%Q -> step l (snd (wait now g p prio l))
  | step_timer l now l' : timerFires now l = Some l' -> step l l'.

Inductive steps : Limiter -> Limiter -> Prop :=
  | steps_refl l : steps l l
  | steps_step l l1 l2 : steps l l1 -> step l1 l2 -> steps l l2.

End RateLimiter.
