(* ===== verification/RateLimiterClaims.v ===== *)
(** * What the rate limiter guarantees

    Traffic in any window stays within the buckets, the queue is served by priority
    and age, and it drains. *)

From Stdlib Require Import QArith Qminmax Qround Lqa.
From S2P Require Import Prelude RateLimiter.

Open Scope Z_scope.

Module RateLimiterClaims.
Import RateLimiter.

(** ** The invariant *)

Record limiter_wf (l : Limiter) : Prop := {
  lw_get : (0 <= getTokens l <= getMax l)%Q;
  lw_post : (0 <= postTokens l <= postMax l)%Q;
  lw_rates : (0 <= getRefillPerMs l /\ 0 <= postRefillPerMs l)%Q;
  lw_costs : forall r, In r (pendingRequests l) -> (0 <= getCost r /\ 0 <= postCost r)%Q;
  lw_unique : NoDup (map sequence (pendingRequests l));
  lw_next : forall r, In r (pendingRequests l) -> sequence r < nextSequence l;
}.

Lemma Qmax_bounds a b : (a <= Qmax a b /\ b <= Qmax a b)%Q.
Proof. split; [apply Q.le_max_l|apply Q.le_max_r]. Qed.

Lemma Qmin_bounds a b : (Qmin a b <= a /\ Qmin a b <= b)%Q.
Proof. split; [apply Q.le_min_l|apply Q.le_min_r]. Qed.

Lemma create_wf config now : limiter_wf (create config now).
Proof.
  pose proof (Qmax_bounds 1 (cf_getMax config)) as [? _]. pose proof (Qmax_bounds 1 (cf_postMax config)) as [? _].
  pose proof (Qmax_bounds 0 (cf_getRefillPerSecond config)) as [? _].
  pose proof (Qmax_bounds 0 (cf_postRefillPerSecond config)) as [? _].
  split; simpl; try done; try lra.
  - unfold Qdiv. split; apply Qmult_le_0_compat; done.
  - apply NoDup_nil_2.
Qed.

Lemma canSatisfy_spec g p l : canSatisfy g p l = true <-> (g <= getTokens l /\ p <= postTokens l)%Q.
Proof. unfold canSatisfy. rewrite andb_true_iff, !Qle_bool_iff. done. Qed.

Lemma product_nonneg d q : 0 <= d -> (0 <= q)%Q -> (0 <= inject_Z d * q)%Q.
Proof. intros Hd Hq. apply Qmult_le_0_compat; [|done]. change 0%Q with (inject_Z 0). by rewrite <- Zle_Qle. Qed.

Lemma min_nonneg a b : (0 <= a -> 0 <= b -> 0 <= Qmin a b)%Q.
Proof. intros Ha Hb. by apply Q.min_glb. Qed.

Lemma refill_wf now l : limiter_wf l -> limiter_wf (refill now l).
Proof.
  intros [W1 W2 [W3 W3'] W4 W5 W6]. unfold refill. destruct (Z.leb_spec (now - lastRefillAt l) 0); [done|].
  pose proof (product_nonneg (now - lastRefillAt l) _ ltac:(lia) W3).
  pose proof (product_nonneg (now - lastRefillAt l) _ ltac:(lia) W3').
  split; try done; simpl; (split; [apply min_nonneg; lra|apply Qmin_bounds]).
Qed.

Lemma consume_wf g p l : limiter_wf l -> canSatisfy g p l = true -> (0 <= g)%Q -> (0 <= p)%Q -> limiter_wf (consume g p l).
Proof.
  intros [W1 W2 W3 W4 W5 W6] [H1 H2]%canSatisfy_spec Hg Hp. split; simpl; try done; lra.
Qed.

(** Operations that touch neither buckets nor queue. *)
Lemma set_timer_wf t l : limiter_wf l -> limiter_wf (set_timer t l).
Proof. intros [W1 W2 W3 W4 W5 W6]. by split. Qed.

Lemma scheduleDrain_set now d l : exists t, scheduleDrain now d l = set_timer (Some t) l.
Proof.
  unfold scheduleDrain. destruct (drainTimerAt l) as [t|] eqn:E; [|by eexists].
  destruct (t <=? _); [|by eexists]. exists t. by destruct l; simpl in *; subst.
Qed.

Lemma letThrough_wf a l : limiter_wf l -> limiter_wf (letThrough a l).
Proof. intros [W1 W2 W3 W4 W5 W6]. by split. Qed.

(** ** The queue *)

Lemma spliceOut_In s rs r : In r (spliceOut s rs) -> In r rs.
Proof. induction rs as [|x rs IH]; simpl; [done|]. case_match; simpl; naive_solver. Qed.

Lemma spliceOut_length r rs : In r rs -> length rs = S (length (spliceOut (sequence r) rs)).
Proof.
  induction rs as [|x rs IH]; simpl; [done|]. destruct (Z.eqb_spec (sequence x) (sequence r)); [done|].
  intros [->|Hr]; [done|]. simpl. by rewrite <- IH.
Qed.

Lemma spliceOut_unique s rs : NoDup (map sequence rs) -> NoDup (map sequence (spliceOut s rs)).
Proof.
  induction rs as [|x rs IH]; simpl; [done|]. intros [Hx Hn]%NoDup_cons. case_match; [done|]. simpl.
  apply NoDup_cons. split; [|by apply IH]. intros (r & E & Hr)%list_elem_of_In%in_map_iff.
  apply Hx, list_elem_of_In. rewrite <- E. apply in_map. by eapply spliceOut_In.
Qed.

Lemma splice_wf s l : limiter_wf l -> limiter_wf (set_pending (spliceOut s (pendingRequests l)) (nextSequence l) l).
Proof.
  intros [W1 W2 W3 W4 W5 W6]. split; simpl; try done.
  - intros r Hr. by apply W4, (spliceOut_In s).
  - by apply spliceOut_unique.
  - intros r Hr. by apply W6, (spliceOut_In s).
Qed.

Lemma foldl_oldest (best : PendingRateLimitRequest) (rs : list PendingRateLimitRequest) :
  let r := foldl (fun b r : PendingRateLimitRequest => if sequence r <? sequence b then r else b) best rs in
  In r (best :: rs) /\ forall r', In r' (best :: rs) -> sequence r <= sequence r'.
Proof.
  revert best. induction rs as [|x rs IH]; intros best; simpl.
  - split; [by left|]. intros r' [->|[]]. lia.
  - destruct (IH (if sequence x <? sequence best then x else best)) as [Hin Hmin].
    set (b := if sequence x <? sequence best then x else best) in *. assert (b = x \/ b = best) as Hb by (unfold b; case_match; [by left|by right]).
    assert (sequence b <= sequence x /\ sequence b <= sequence best) as [H1 H2]
      by (unfold b; destruct (Z.ltb_spec (sequence x) (sequence best)); lia).
    split; [destruct Hin as [<-|Hin]; naive_solver|].
    intros r' [<-|[<-|Hr]]; [|specialize (Hmin b (or_introl eq_refl)); lia|apply Hmin; by right].
    specialize (Hmin b (or_introl eq_refl)). lia.
Qed.

Lemma oldest_spec rs :
  match oldest rs with
  | Some r => In r rs /\ forall r', In r' rs -> sequence r <= sequence r'
  | None => rs = []
  end.
Proof. destruct rs as [|x rs]; simpl; [done|]. apply foldl_oldest. Qed.

Lemma foldr_max p ps : In (foldr Z.max p ps) (p :: ps) /\ forall x, In x (p :: ps) -> x <= foldr Z.max p ps.
Proof.
  induction ps as [|y ps [IH1 IH2]]; simpl; [split; [by left|]; intros x [->|[]]; lia|].
  split.
  - destruct (Z.max_spec y (foldr Z.max p ps)) as [[_ ->]|[_ ->]]; [destruct IH1 as [<-|H]; [by left|by right; right]|by right; left].
  - intros x [<-|[<-|Hx]]; [specialize (IH2 p (or_introl eq_refl)); lia|lia|specialize (IH2 x (or_intror Hx)); lia].
Qed.

(** The requests of the highest priority there is. *)
Lemma ofHighestPriority_spec rs r :
  In r (ofHighestPriority rs) <-> In r rs /\ forall r', In r' rs -> priority r' <= priority r.
Proof.
  unfold ofHighestPriority, highestPriority. destruct rs as [|x rs]; simpl; [naive_solver|].
  destruct (foldr_max (priority x) (map priority rs)) as [Hin Hmax]. set (m := foldr _ _ _) in *.
  change (if priority x =? m then x :: List.filter (fun r => priority r =? m) rs else List.filter (fun r => priority r =? m) rs)
    with (List.filter (fun r => priority r =? m) (x :: rs)).
  change (priority x :: map priority rs) with (map priority (x :: rs)) in *.
  rewrite List.filter_In, Z.eqb_eq. split.
  - intros [Hr ->]. split; [done|]. intros r' Hr'. apply Hmax. by apply in_map.
  - intros [Hr Hm]. split; [done|]. apply in_map_iff in Hin as (y & Ey & Hy).
    specialize (Hm y Hy). pose proof (Hmax (priority r) (in_map priority (x :: rs) r Hr)). lia.
Qed.

Lemma ofHighestPriority_nil rs : ofHighestPriority rs = [] -> rs = [].
Proof.
  destruct rs as [|x rs]; [done|]. unfold ofHighestPriority, highestPriority. simpl. intros E. exfalso.
  destruct (foldr_max (priority x) (map priority rs)) as [Hin _].
  apply (in_map_iff priority (x :: rs)) in Hin as (y & Ey & Hy).
  assert (In y []) as []. rewrite <- E. 
  change (In y (List.filter (fun r => priority r =? foldr Z.max (priority x) (map priority rs)) (x :: rs))).
  apply List.filter_In. split; [done|]. by apply Z.eqb_eq.
Qed.

(** ** Traffic *)

Definition sumGet (a : list Admission) : Q := foldr (fun x acc => ad_getCost x + acc)%Q 0%Q a.
Definition sumPost (a : list Admission) : Q := foldr (fun x acc => ad_postCost x + acc)%Q 0%Q a.

(** Both limiters are the same one at two times, with the admissions [new] between. *)
Record window (l l' : Limiter) (new : list Admission) : Prop := {
  wi_log : admitted l' = admitted l ++ new;
  wi_static : getMax l' = getMax l /\ postMax l' = postMax l /\
              getRefillPerMs l' = getRefillPerMs l /\ postRefillPerMs l' = postRefillPerMs l;
  wi_time : lastRefillAt l <= lastRefillAt l';
  wi_get : (sumGet new + getTokens l' <=
            getTokens l + inject_Z (lastRefillAt l' - lastRefillAt l) * getRefillPerMs l)%Q;
  wi_post : (sumPost new + postTokens l' <=
             postTokens l + inject_Z (lastRefillAt l' - lastRefillAt l) * postRefillPerMs l)%Q;
}.

Lemma sumGet_app a b : (sumGet (a ++ b) == sumGet a + sumGet b)%Q.
Proof. induction a as [|x a IH]; simpl; [lra|]. rewrite IH. lra. Qed.

Lemma sumPost_app a b : (sumPost (a ++ b) == sumPost a + sumPost b)%Q.
Proof. induction a as [|x a IH]; simpl; [lra|]. rewrite IH. lra. Qed.

Lemma elapsed_add a b c : (inject_Z (c - a) == inject_Z (b - a) + inject_Z (c - b))%Q.
Proof. rewrite <- inject_Z_plus. by replace (c - a) with (b - a + (c - b)) by lia. Qed.

Lemma elapsed_none a q : (inject_Z (a - a) * q == 0)%Q.
Proof. rewrite Z.sub_diag. change (inject_Z 0) with 0%Q. ring. Qed.

Lemma window_trans l1 l2 l3 n1 n2 : window l1 l2 n1 -> window l2 l3 n2 -> window l1 l3 (n1 ++ n2).
Proof.
  intros [L1 (S1 & S2 & S3 & S4) T1 G1 P1] [L2 (R1 & R2 & R3 & R4) T2 G2 P2]. split.
  - by rewrite L2, L1, app_assoc.
  - split_and!; congruence.
  - lia.
  - rewrite sumGet_app, (elapsed_add _ (lastRefillAt l2)), Qmult_plus_distr_l. rewrite S3 in G2. lra.
  - rewrite sumPost_app, (elapsed_add _ (lastRefillAt l2)), Qmult_plus_distr_l. rewrite S4 in P2. lra.
Qed.

(** An operation that leaves buckets, clock and log alone. *)
Lemma window_same l l' : getTokens l' = getTokens l -> postTokens l' = postTokens l ->
  lastRefillAt l' = lastRefillAt l -> admitted l' = admitted l -> getMax l' = getMax l -> postMax l' = postMax l ->
  getRefillPerMs l' = getRefillPerMs l -> postRefillPerMs l' = postRefillPerMs l -> window l l' [].
Proof.
  intros E1 E2 E3 E4 E5 E6 E7 E8. split; rewrite ?E1, ?E2, ?E3, ?app_nil_r; try done; try lia;
    rewrite elapsed_none; simpl; lra.
Qed.

Lemma window_refill now l : window l (refill now l) [].
Proof.
  unfold refill. destruct (Z.leb_spec (now - lastRefillAt l) 0); [by apply window_same|]. split; simpl; try done.
  - by rewrite app_nil_r.
  - lia.
  - pose proof (Qmin_bounds (getMax l) (getTokens l + inject_Z (now - lastRefillAt l) * getRefillPerMs l)). lra.
  - pose proof (Qmin_bounds (postMax l) (postTokens l + inject_Z (now - lastRefillAt l) * postRefillPerMs l)). lra.
Qed.

Lemma window_consume g p r l :
  window l (letThrough {| ad_getCost := g; ad_postCost := p; ad_request := r |} (consume g p l))
    [{| ad_getCost := g; ad_postCost := p; ad_request := r |}].
Proof. split; simpl; try done; try lia; rewrite elapsed_none; lra. Qed.

Lemma window_timer t l : window l (set_timer t l) [].
Proof. by apply window_same. Qed.

Lemma window_pending rs n l : window l (set_pending rs n l) [].
Proof. by apply window_same. Qed.

Lemma find_spec l : match findNextSatisfiableRequest l with
  | Some r => In r (pendingRequests l) /\ canSatisfy (getCost r) (postCost r) l = true /\
      (forall r', In r' (pendingRequests l) -> priority r' <= priority r) /\
      (forall r', In r' (pendingRequests l) -> priority r' = priority r ->
         canSatisfy (getCost r') (postCost r') l = true -> sequence r <= sequence r')
  | None => forall r, In r (pendingRequests l) -> (forall r', In r' (pendingRequests l) -> priority r' <= priority r) ->
      canSatisfy (getCost r) (postCost r) l = false
  end.
Proof.
  unfold findNextSatisfiableRequest.
  pose proof (oldest_spec (List.filter (fun r => canSatisfy (getCost r) (postCost r) l)
                             (ofHighestPriority (pendingRequests l)))) as H.
  destruct (oldest _) as [r|].
  - destruct H as [[[Hr Hp]%ofHighestPriority_spec Hs]%List.filter_In Hmin]. split_and!; try done.
    intros r' Hr' Ep Hs'. apply Hmin, List.filter_In. split; [|done]. apply ofHighestPriority_spec.
    split; [done|]. intros x Hx. rewrite Ep. by apply Hp.
  - intros r Hr Hp. destruct (canSatisfy _ _ l) eqn:Ec; [|done].
    assert (In r []) as []. rewrite <- H. apply List.filter_In. split; [|done]. by apply ofHighestPriority_spec.
Qed.

Lemma drainLoop_window fuel now l : limiter_wf l ->
  limiter_wf (drainLoop fuel now l) /\ exists new, window l (drainLoop fuel now l) new.
Proof.
  revert l. induction fuel as [|fuel IH]; intros l Hwf; simpl; [split; [done|]; exists []; by apply window_same|].
  destruct (pendingRequests l) as [|x rs] eqn:Ers; [split; [done|]; exists []; by apply window_same|]. rewrite <- Ers.
  pose proof (find_spec l) as Hf. destruct (findNextSatisfiableRequest l) as [r|].
  - destruct Hf as (Hr & Hs & _ & _). destruct (lw_costs _ Hwf r Hr) as [Hg Hp].
    set (l1 := set_pending (spliceOut (sequence r) (pendingRequests l)) (nextSequence l) l).
    assert (limiter_wf l1) as Hwf1 by by apply splice_wf.
    set (a := {| ad_getCost := getCost r; ad_postCost := postCost r; ad_request := Some r |}).
    destruct (IH (letThrough a (consume (getCost r) (postCost r) l1))) as (Hwf2 & new & Hw).
    { apply letThrough_wf, consume_wf; done. }
    split; [done|]. exists ([] ++ [a] ++ new). eapply window_trans; [apply window_pending|].
    eapply window_trans; [apply window_consume|exact Hw].
  - destruct (scheduleDrain_set now (computeNextWaitMs l) l) as [t ->].
    split; [by apply set_timer_wf|]. exists []. apply window_timer.
Qed.

Lemma step_window l l' : limiter_wf l -> step l l' -> limiter_wf l' /\ exists new, window l l' new.
Proof.
  intros Hwf Hs. destruct Hs as [l now g p prio Hg Hp|l now l' E].
  - unfold wait. destruct (Qle_bool g 0 && Qle_bool p 0); [simpl; split; [done|]; exists []; by apply window_same|].
    pose proof (refill_wf now l Hwf) as Hwf1. pose proof (window_refill now l) as Hw1.
    destruct (_ && canSatisfy g p (refill now l)) eqn:Ec; simpl.
    + apply andb_true_iff in Ec as [_ Ec]. split; [by apply letThrough_wf, consume_wf|].
      eexists. eapply window_trans; [exact Hw1|apply window_consume].
    + edestruct scheduleDrain_set as [t ->]. split.
      * apply set_timer_wf. destruct Hwf1 as [V1 V2 V3 V4 V5 V6]. split; simpl; try done.
        -- intros r [Hr|[<-|[]]]%in_app_or; [by apply V4|done].
        -- rewrite map_app. apply NoDup_app. split_and!; [done| |simpl; apply NoDup_singleton].
           intros x (r & Ex & Hr)%list_elem_of_In%in_map_iff. simpl. rewrite list_elem_of_singleton. intros ->.
           specialize (V6 r Hr). lia.
        -- intros r [Hr|[<-|[]]]%in_app_or; [specialize (V6 r Hr); lia|simpl; lia].
      * exists ([] ++ [] ++ []). eapply window_trans; [exact Hw1|].
        eapply window_trans; [apply window_pending|apply window_timer].
  - unfold timerFires in E. destruct (drainTimerAt l) as [t|]; [|done]. destruct (t <=? now); [|done].
    injection E as <-. unfold drainQueue.
    destruct (drainLoop_window (S (length (pendingRequests (refill now (set_timer None l))))) now (refill now (set_timer None l)))
      as (Hwf2 & new & Hw); [by apply refill_wf, set_timer_wf|].
    split; [done|]. exists ([] ++ [] ++ new). eapply window_trans; [apply (window_timer None)|].
    eapply window_trans; [apply window_refill|exact Hw].
Qed.

Lemma steps_window l l' : limiter_wf l -> steps l l' -> limiter_wf l' /\ exists new, window l l' new.
Proof.
  intros Hwf Hs. induction Hs as [l|l l1 l2 _ IH H2]; [split; [done|]; exists []; by apply window_same|].
  destruct (IH Hwf) as (Hwf1 & n1 & Hw1). destruct (step_window _ _ Hwf1 H2) as (Hwf2 & n2 & Hw2).
  split; [done|]. exists (n1 ++ n2). by eapply window_trans.
Qed.

(** C33: The configured rate is never exceeded.  Between any two moments of a limiter's
    life the reads let through cost at most the read bucket's capacity plus the
    refill for the time that passed (up to the latest clock reading used), and the
    same for writes, whatever the clock does and however calls and timers interleave;
    the token counts stay between zero and the capacities. *)
Theorem rate_never_exceeded config t0 l l' :
  steps (create config t0) l -> steps l l' ->
  exists new, admitted l' = admitted l ++ new /\
    (sumGet new <= getMax l + inject_Z (lastRefillAt l' - lastRefillAt l) * getRefillPerMs l)%Q /\
    (sumPost new <= postMax l + inject_Z (lastRefillAt l' - lastRefillAt l) * postRefillPerMs l)%Q /\
    (0 <= getTokens l' <= getMax l)%Q /\ (0 <= postTokens l' <= postMax l)%Q.
Proof.
  intros H1 H2. destruct (steps_window _ _ (create_wf config t0) H1) as (Hwf & _).
  destruct (steps_window _ _ Hwf H2) as (Hwf' & new & [HL (E1 & E2 & _) _ HG HP]). exists new.
  destruct Hwf as [[? ?] [? ?] _ _ _ _], Hwf' as [[? ?] [? ?] _ _ _ _]. rewrite E1, E2 in *.
  split_and!; try done; lra.
Qed.

(** ** Draining *)

(** How a drain ends: with an empty queue, or at a limiter [l1] whose next request is
    not affordable, with the timer set for it. *)
Lemma drainLoop_end fuel now l : limiter_wf l -> (length (pendingRequests l) < fuel)%nat ->
  let l' := drainLoop fuel now l in
  (length (pendingRequests l') + match findNextSatisfiableRequest l with Some _ => 1 | None => 0 end <= length (pendingRequests l))%nat /\
  (pendingRequests l' = [] \/ exists l1, l' = scheduleDrain now (computeNextWaitMs l1) l1 /\
     pendingRequests l1 = pendingRequests l' /\ drainTimerAt l1 = drainTimerAt l /\ lastRefillAt l1 = lastRefillAt l /\
     limiter_wf l1).
Proof.
  revert l. induction fuel as [|fuel IH]; intros l Hwf Hl; [lia|]. cbn [drainLoop].
  destruct (pendingRequests l) as [|x rs] eqn:Ers.
  - split; [|left; exact Ers]. rewrite Ers. unfold findNextSatisfiableRequest. rewrite Ers. simpl. lia.
  - rewrite <- Ers in *. pose proof (find_spec l) as Hf. destruct (findNextSatisfiableRequest l) as [r|].
    + destruct Hf as (Hr & Hs & _ & _). destruct (lw_costs _ Hwf r Hr) as [Hg Hp].
      pose proof (spliceOut_length r _ Hr) as Hlen.
      set (l1 := letThrough _ _). assert (limiter_wf l1) as Hwf1 by (apply letThrough_wf, consume_wf; [by apply splice_wf|done..]).
      destruct (IH l1 Hwf1) as [IH1 IH2]; [simpl; lia|]. simpl in IH1. split.
      * destruct (findNextSatisfiableRequest l1); simpl in *; lia.
      * destruct IH2 as [?|(l2 & ?)]; [by left|right; by exists l2].
    + destruct (scheduleDrain_set now (computeNextWaitMs l) l) as [t Et]. rewrite Et. simpl. split; [lia|].
      right. exists l. by rewrite Et.
Qed.

(** The timer of a drain waits long enough for the next request to be affordable. *)
Definition rested (l : Limiter) : Prop := pendingRequests l = [] \/
  exists r t, In r (pendingRequests l) /\ (forall r', In r' (pendingRequests l) -> priority r' <= priority r) /\
    drainTimerAt l = Some t /\ lastRefillAt l < t /\
    (getCost r - getTokens l <= inject_Z (t - lastRefillAt l) * getRefillPerMs l)%Q /\
    (postCost r - postTokens l <= inject_Z (t - lastRefillAt l) * postRefillPerMs l)%Q.

Lemma waitFor_enough needed perMs d : (0 < perMs)%Q -> (waitFor needed perMs <= d)%Q -> (needed <= d * perMs)%Q.
Proof.
  intros Hr. unfold waitFor. destruct (Qeq_bool needed 0) eqn:E0; simpl.
  - apply Qeq_bool_eq in E0. intros Hd. rewrite E0. apply Qmult_le_0_compat; lra.
  - destruct (Qeq_bool perMs 0) eqn:E1; [apply Qeq_bool_eq in E1; lra|]. intros Hd.
    apply (Qmult_le_compat_r _ _ perMs) in Hd; [|lra]. unfold Qdiv in Hd.
    rewrite <- Qmult_assoc, (Qmult_comm (/ perMs)), Qmult_inv_r in Hd by lra. lra.
Qed.

Lemma schedule_rested now l : limiter_wf l -> (0 < getRefillPerMs l)%Q -> (0 < postRefillPerMs l)%Q ->
  lastRefillAt l = now -> drainTimerAt l = None -> rested (scheduleDrain now (computeNextWaitMs l) l).
Proof.
  intros Hwf Hg Hp Et En. unfold rested, scheduleDrain. rewrite En. simpl. rewrite Et.
  unfold computeNextWaitMs. pose proof (oldest_spec (ofHighestPriority (pendingRequests l))) as Ho.
  destruct (oldest _) as [r|]; [|left; by apply ofHighestPriority_nil].
  destruct Ho as [[Hr Hmax]%ofHighestPriority_spec _]. right. set (w := computeWaitMs _ _ l).
  exists r, (now + Z.max 0 (Qceiling w)).
  assert (25 <= w)%Q as H25 by apply Qmax_bounds.
  assert (w <= inject_Z (Qceiling w))%Q as Hc by apply Qle_ceiling.
  assert (25 <= Qceiling w) as Hc25.
  { rewrite Zle_Qle. change (inject_Z 25) with 25%Q. lra. }
  replace (now + Z.max 0 (Qceiling w) - now) with (Qceiling w) by lia.
  assert (waitFor (Qmax 0 (getCost r - getTokens l)) (getRefillPerMs l) <= w /\
          waitFor (Qmax 0 (postCost r - postTokens l)) (postRefillPerMs l) <= w)%Q as [H1 H2].
  { unfold w, computeWaitMs. set (a := waitFor _ _). set (b := waitFor _ _).
    pose proof (Qmax_bounds (Qmax a b) 25). pose proof (Qmax_bounds a b). lra. }
  assert (waitFor (Qmax 0 (getCost r - getTokens l)) (getRefillPerMs l) <= inject_Z (Qceiling w))%Q as H1' by lra.
  assert (waitFor (Qmax 0 (postCost r - postTokens l)) (postRefillPerMs l) <= inject_Z (Qceiling w))%Q as H2' by lra.
  apply waitFor_enough in H1'; [|done]. apply waitFor_enough in H2'; [|done].
  pose proof (Qmax_bounds 0 (getCost r - getTokens l)). pose proof (Qmax_bounds 0 (postCost r - postTokens l)).
  split_and!; try done; try lia; lra.
Qed.

Lemma refill_pending now l : pendingRequests (refill now l) = pendingRequests l /\ drainTimerAt (refill now l) = drainTimerAt l /\
  getMax (refill now l) = getMax l /\ postMax (refill now l) = postMax l /\
  getRefillPerMs (refill now l) = getRefillPerMs l /\ postRefillPerMs (refill now l) = postRefillPerMs l.
Proof. unfold refill. by case_match. Qed.

Lemma drainLoop_time fuel now l : lastRefillAt (drainLoop fuel now l) = lastRefillAt l.
Proof.
  revert l. induction fuel as [|fuel IH]; intros l; cbn [drainLoop]; [done|].
  destruct (pendingRequests l); [done|]. destruct (findNextSatisfiableRequest l); [by rewrite IH|].
  by destruct (scheduleDrain_set now (computeNextWaitMs l) l) as [t ->].
Qed.

(** Every waiting request fits into the buckets. *)
Definition affordable (l : Limiter) : Prop :=
  forall r, In r (pendingRequests l) -> (getCost r <= getMax l /\ postCost r <= postMax l)%Q.

Definition refills (l : Limiter) : Prop := (0 < getRefillPerMs l /\ 0 < postRefillPerMs l)%Q.

Lemma drainLoop_static fuel now l : pendingRequests (drainLoop fuel now l) ⊆ pendingRequests l.
Proof.
  revert l. induction fuel as [|fuel IH]; intros l; cbn [drainLoop]; [done|].
  destruct (pendingRequests l) as [|x rs] eqn:Ers; [by rewrite Ers|]. rewrite <- Ers.
  destruct (findNextSatisfiableRequest l) as [r|].
  - etransitivity; [apply IH|]. simpl. intros y Hy. apply list_elem_of_In in Hy. apply list_elem_of_In.
    by eapply spliceOut_In.
  - by destruct (scheduleDrain_set now (computeNextWaitMs l) l) as [t ->].
Qed.

(** The next request of a rested limiter is affordable once its timer fires. *)
Lemma rested_satisfiable now t l : limiter_wf l -> affordable l -> rested l -> pendingRequests l <> [] ->
  drainTimerAt l = Some t -> t <= now -> findNextSatisfiableRequest (refill now (set_timer None l)) <> None.
Proof.
  intros Hwf Haff [?|(r & t' & Hr & Hmax & Et' & Hlt & Hg & Hp)] Hne Et Htn Hf; [done|].
  assert (t' = t) as -> by congruence.
  set (l0 := set_timer None l) in *. pose proof (find_spec (refill now l0)) as Hs. rewrite Hf in Hs.
  destruct (refill_pending now l0) as (Ep & _). rewrite Ep in Hs. specialize (Hs r Hr Hmax).
  assert (canSatisfy (getCost r) (postCost r) (refill now l0) = true) as Hc; [|congruence].
  apply canSatisfy_spec. unfold refill. simpl. destruct (Z.leb_spec (now - lastRefillAt l) 0); [lia|]. simpl.
  destruct (Haff r Hr) as [Hgm Hpm]. destruct (lw_rates _ Hwf) as [R1 R2].
  assert (inject_Z (t - lastRefillAt l) <= inject_Z (now - lastRefillAt l))%Q as Hd by (rewrite <- Zle_Qle; lia).
  pose proof (Qmult_le_compat_r _ _ (getRefillPerMs l) Hd R1). pose proof (Qmult_le_compat_r _ _ (postRefillPerMs l) Hd R2).
  split; apply Q.min_glb; try done; lra.
Qed.

Lemma fire_spec now l l' : limiter_wf l -> refills l -> affordable l -> lastRefillAt l <= now ->
  timerFires now l = Some l' ->
  rested l' /\ lastRefillAt l' = now /\ affordable l' /\ refills l' /\
  (length (pendingRequests l') <= length (pendingRequests l))%nat /\
  (rested l -> pendingRequests l <> [] -> (length (pendingRequests l') < length (pendingRequests l))%nat).
Proof.
  intros Hwf [R1 R2] Haff Hnow E. unfold timerFires in E. destruct (drainTimerAt l) as [t|] eqn:Et; [|done].
  destruct (Z.leb_spec t now) as [Htn|]; [|done]. injection E as <-. unfold drainQueue.
  set (l0 := set_timer None l). destruct (refill_pending now l0) as (Ep & Et0 & M1 & M2 & S1 & S2).
  assert (lastRefillAt (refill now l0) = now) as Elast
    by (unfold refill; destruct (Z.leb_spec (now - lastRefillAt l0) 0); simpl in *; lia).
  assert (limiter_wf (refill now l0)) as Hwf0 by by apply refill_wf, set_timer_wf.
  set (fuel := S _). destruct (drainLoop_end fuel now (refill now l0) Hwf0) as [Hlen Hend]; [unfold fuel; lia|].
  destruct (drainLoop_window fuel now (refill now l0) Hwf0) as (Hwf' & new & [_ (Q1 & Q2 & Q3 & Q4) _ _ _]).
  rewrite Ep in Hlen. change (pendingRequests l0) with (pendingRequests l) in *. split_and!.
  - destruct Hend as [?|(l1 & El & Ep1 & Et1 & Ela & Hwf1)]; [by left|].
    destruct (scheduleDrain_set now (computeNextWaitMs l1) l1) as [t' Es].
    assert (getRefillPerMs l1 = getRefillPerMs l /\ postRefillPerMs l1 = postRefillPerMs l) as [F1 F2].
    { rewrite El, Es in Q3, Q4. simpl in Q3, Q4. rewrite Q3, Q4. done. }
    rewrite El. apply schedule_rested; [done|by rewrite F1|by rewrite F2|congruence|]. rewrite Et1, Et0. done.
  - by rewrite drainLoop_time.
  - intros r Hr. rewrite Q1, Q2, M1, M2. apply Haff.
    apply list_elem_of_In. rewrite <- Ep.
    apply (drainLoop_static fuel now). by apply list_elem_of_In.
  - unfold refills. rewrite Q3, Q4, S1, S2. done.
  - lia.
  - intros Hrest Hne. pose proof (rested_satisfiable now t l Hwf Haff Hrest Hne Et Htn) as Hs. fold l0 in Hs.
    destruct (findNextSatisfiableRequest (refill now l0)); [lia|done].
Qed.

(** While requests wait, the timer is armed. *)
Definition armed (l : Limiter) : Prop := pendingRequests l <> [] -> is_Some (drainTimerAt l).

Lemma step_armed l l' : limiter_wf l -> armed l -> step l l' -> armed l'.
Proof.
  intros Hwf Ha Hs. destruct Hs as [l now g p prio Hg Hp|l now l' E].
  - unfold wait. destruct (_ && _); [done|]. destruct (refill_pending now l) as (Ep & Et & _).
    destruct (_ && canSatisfy _ _ _); simpl.
    + unfold armed. simpl. by rewrite Ep, Et.
    + edestruct scheduleDrain_set as [t ->]. by intros _.
  - unfold timerFires in E. destruct (drainTimerAt l) as [t|]; [|done]. destruct (t <=? now); [|done]. injection E as <-.
    unfold drainQueue. destruct (drainLoop_end (S (length (pendingRequests (refill now (set_timer None l))))) now
      (refill now (set_timer None l))) as [_ [Hnil|(l1 & -> & _)]]; [by apply refill_wf, set_timer_wf|lia|by intros Hne; destruct Hne|].
    destruct (scheduleDrain_set now (computeNextWaitMs l1) l1) as [t' ->]. by intros _.
Qed.

Lemma steps_armed config t0 l : steps (create config t0) l -> limiter_wf l /\ armed l.
Proof.
  intros Hs. remember (create config t0) as l0 eqn:E0. induction Hs as [l|l l1 l2 _ IH H2].
  - subst. split; [apply create_wf|]. by intros Hne.
  - destruct (IH E0) as [Hwf1 Ha1]. split; [by eapply step_window|by eapply step_armed].
Qed.

(** [n] firings of the timer in turn, by a clock that does not run backwards. *)
Inductive fires : nat -> Limiter -> Limiter -> Prop :=
  | fires_0 l : fires 0 l l
  | fires_S n l l1 l2 now : lastRefillAt l <= now -> timerFires now l = Some l1 -> fires n l1 l2 -> fires (S n) l l2.

Lemma fires_progress n l l' : limiter_wf l -> refills l -> affordable l -> rested l -> fires n l l' ->
  pendingRequests l' <> [] -> (n + length (pendingRequests l') <= length (pendingRequests l))%nat.
Proof.
  intros Hwf Hr Haff Hrest Hf Hne. induction Hf as [l|n l l1 l2 now Hnow E Hf IH]; [lia|].
  destruct (fire_spec now l l1 Hwf Hr Haff Hnow E) as (Hrest1 & _ & Haff1 & Hr1 & Hle & Hlt).
  assert (limiter_wf l1) as Hwf1 by (eapply (step_window l l1); [done|by eapply step_timer]).
  specialize (IH Hwf1 Hr1 Haff1 Hrest1 Hne).
  destruct (decide (pendingRequests l = [])) as [Hnil|Hn]; [rewrite Hnil in Hle; simpl in Hle; destruct (pendingRequests l2); [done|simpl in *; lia]|].
  specialize (Hlt Hrest Hn). lia.
Qed.

Lemma steps_trans l l1 l2 : steps l l1 -> steps l1 l2 -> steps l l2.
Proof. intros H1 H2. induction H2 as [|l1 l2 l3 _ IH H3]; [done|]. eapply steps_step; [by apply IH|done]. Qed.

Lemma fires_steps n l l' : fires n l l' -> steps l l'.
Proof.
  induction 1 as [l|n l l1 l2 now _ E _ IH]; [constructor|].
  eapply steps_trans; [|exact IH]. eapply steps_step; [constructor|]. by eapply step_timer.
Qed.

(** Waiting requests are served.  In any state of a limiter that refills, in which
    every waiting request fits into the buckets, and with no new request and a clock
    that does not run backwards: as long as a request waits the timer is armed and
    may fire from its time on, and it fires at most once more than there are requests
    waiting before the queue is empty; no request is starved. *)
Theorem waiting_requests_served config t0 l n l' :
  steps (create config t0) l -> refills l -> affordable l -> fires n l l' -> pendingRequests l' <> [] ->
  (n <= length (pendingRequests l))%nat /\
  exists t, drainTimerAt l' = Some t /\ forall now, t <= now -> is_Some (timerFires now l').
Proof.
  intros Hs Hr Haff Hf Hne. destruct (steps_armed _ _ _ Hs) as [Hwf _]. split.
  - inversion Hf as [|k ? l1 ? now Hnow E Hf1]; subst; [lia|].
    destruct (fire_spec now l l1 Hwf Hr Haff Hnow E) as (Hrest1 & _ & Haff1 & Hr1 & Hle & _).
    assert (limiter_wf l1) as Hwf1 by (eapply (step_window l l1); [done|by eapply step_timer]).
    pose proof (fires_progress k l1 l' Hwf1 Hr1 Haff1 Hrest1 Hf1 Hne).
    destruct (pendingRequests l') as [|]; [done|]. simpl in *. lia.
  - destruct (steps_armed config t0 l') as [_ Ha]; [by eapply steps_trans, fires_steps|].
    destruct (Ha Hne) as [t Et]. exists t. split; [done|]. intros now Hnow. unfold timerFires. rewrite Et.
    destruct (Z.leb_spec t now); [by eexists|lia].
Qed.

(** Requests are let through by priority, then by age.  The request [drainQueue] takes next is
    the one that can be paid for among those of the highest priority waiting, and the
    oldest of these; there is none exactly when no request of the highest priority
    can be paid for, whatever waits below it; and a call that has to wait for tokens
    or finds others waiting never returns at once. *)
Theorem served_by_priority_and_age config t0 l : steps (create config t0) l ->
  (forall r, findNextSatisfiableRequest l = Some r <->
     In r (pendingRequests l) /\ canSatisfy (getCost r) (postCost r) l = true /\
     (forall r', In r' (pendingRequests l) -> priority r' <= priority r) /\
     (forall r', In r' (pendingRequests l) -> priority r' = priority r -> r' <> r ->
        canSatisfy (getCost r') (postCost r') l = true -> sequence r < sequence r')) /\
  (forall now g p prio, (0 < g \/ 0 < p)%Q -> fst (wait now g p prio l) = true ->
     pendingRequests l = [] /\ canSatisfy g p (refill now l) = true).
Proof.
  intros Hs. destruct (steps_armed _ _ _ Hs) as [Hwf _]. split.
  - intros r. pose proof (find_spec l) as Hf.
    assert (forall x y, In x (pendingRequests l) -> In y (pendingRequests l) -> sequence x = sequence y -> x = y) as Huniq.
    { pose proof (lw_unique _ Hwf) as Hu. intros x y Hx Hy E.
      apply list_elem_of_In, list_elem_of_lookup in Hx as [i Hi]. apply list_elem_of_In, list_elem_of_lookup in Hy as [j Hj].
      assert (i = j) as -> by (eapply (NoDup_lookup (map sequence (pendingRequests l)));
        [done|by rewrite list_lookup_fmap, Hi|rewrite list_lookup_fmap, Hj; simpl; by rewrite E]). congruence. }
    destruct (findNextSatisfiableRequest l) as [x|].
    + destruct Hf as (Hx & Hc & Hm & Ho). split.
      * intros [= <-]. split_and!; try done. intros r' Hr' Ep Hne Hc'. specialize (Ho r' Hr' Ep Hc').
        assert (sequence x <> sequence r'); [|lia]. intros E. apply Hne. symmetry. by apply Huniq.
      * intros (Hr & Hcr & Hmr & Hor). f_equal. destruct (decide (sequence x = sequence r)) as [E|Hne]; [by apply Huniq|].
        assert (priority r = priority x) as Ep by (specialize (Hm r Hr); specialize (Hmr x Hx); lia).
        specialize (Ho r Hr Ep Hcr). specialize (Hor x Hx (eq_sym Ep)). 
        assert (x <> r) as Hd by congruence. specialize (Hor Hd Hc). lia.
    + split; [done|]. intros (Hr & Hcr & Hmr & _). by rewrite (Hf r Hr Hmr) in Hcr.
  - intros now g p prio Hpos. unfold wait.
    assert (Qle_bool g 0 && Qle_bool p 0 = false) as ->.
    { apply not_true_iff_false. rewrite andb_true_iff, !Qle_bool_iff. intros [? ?]. destruct Hpos; lra. }
    destruct (refill_pending now l) as (Ep & _). rewrite Ep. destruct (pendingRequests l); [|done]. simpl.
    destruct (canSatisfy g p (refill now l)); [done|]. done.
Qed.

(** ** A concrete limiter *)

Inductive Act : Type := Call (now : Z) (g p : Q) (prio : Z) | Fire (now : Z).

Definition perform (a : Act) (l : Limiter) : option Limiter :=
  match a with
  | Call now g p prio =>
      if Qle_bool 0 g && Qle_bool 0 p then Some (snd (wait now g p prio l)) else None
  | Fire now => timerFires now l
  end.

Fixpoint performAll (acts : list Act) (l : Limiter) : option Limiter :=
  match acts with
  | [] => Some l
  | a :: rest => match perform a l with Some l' => performAll rest l' | None => None end
  end.

Lemma performAll_steps acts l l0 l' : steps l0 l -> performAll acts l = Some l' -> steps l0 l'.
Proof.
  revert l. induction acts as [|a rest IH]; intros l Hs; cbn [performAll]; [by intros [= <-]|].
  destruct (perform a l) as [l1|] eqn:E; [|done]. apply IH. eapply steps_step; [exact Hs|].
  destruct a as [now g p prio|now]; cbn [perform] in E; [|by eapply step_timer].
  destruct (Qle_bool 0 g && Qle_bool 0 p) eqn:Ec; [|done]. apply andb_true_iff in Ec as [H1%Qle_bool_iff H2%Qle_bool_iff].
  injection E as <-. by apply step_wait.
Qed.

Definition someConfig : TokenBucketRateLimiterConfig := {|
  cf_getMax := 2; cf_getRefillPerSecond := 1; cf_postMax := 1; cf_postRefillPerSecond := 1 |}.

Definition limiter0 : Limiter := create someConfig 0.

(** Two reads pass, a third and a command's read wait. *)
Definition limiter1 : Limiter := default limiter0 (performAll
  [Call 0 1 0 Background; Call 0 1 0 Background; Call 5 1 0 Background; Call 6 1 0 UserCommand; Fire 6] limiter0).

Definition limiter2 : Limiter := default limiter0 (performAll [Fire 1000; Fire 2000] limiter1).

Lemma limiter1_steps : steps limiter0 limiter1.
Proof.
  apply (performAll_steps [Call 0 1 0 Background; Call 0 1 0 Background; Call 5 1 0 Background;
    Call 6 1 0 UserCommand; Fire 6] limiter0); [constructor|vm_compute; reflexivity].
Qed.

Lemma limiter2_steps : steps limiter1 limiter2.
Proof. apply (performAll_steps [Fire 1000; Fire 2000] limiter1); [constructor|vm_compute; reflexivity]. Qed.

(** In two seconds four reads: two from the full bucket, two refilled. *)
Lemma rate_never_exceeded_witness :
  exists new, admitted limiter2 = admitted limiter0 ++ new /\ length new = 4%nat /\
    (sumGet new <= getMax limiter0 + inject_Z (lastRefillAt limiter2 - lastRefillAt limiter0) * getRefillPerMs limiter0)%Q.
Proof.
  destruct (rate_never_exceeded someConfig 0 limiter0 limiter2 (steps_refl _) (steps_trans _ _ _ limiter1_steps limiter2_steps))
    as (new & E & Hg & _). exists new. split; [exact E|]. split; [|exact Hg].
  apply (f_equal length) in E. by vm_compute in E.
Defined.

Definition limiter1b : Limiter := default limiter0 (performAll [Fire 1000] limiter1).

Lemma limiter1_affordable : affordable limiter1.
Proof.
  intros r Hr. assert (Forall (fun r => getCost r = 1%Q /\ postCost r = 0%Q) (pendingRequests limiter1)) as Hf
    by (vm_compute; repeat constructor).
  rewrite List.Forall_forall in Hf. destruct (Hf r Hr) as [-> ->]. split; apply Qle_bool_iff; vm_compute; reflexivity.
Qed.

Lemma limiter1_refills : refills limiter1.
Proof. by vm_compute. Qed.

Lemma limiter1_fires : fires 1 limiter1 limiter1b.
Proof.
  apply (fires_S 0 limiter1 limiter1b limiter1b 1000); [by vm_compute|vm_compute; reflexivity|constructor].
Qed.

Lemma limiter1b_waits : pendingRequests limiter1b <> [].
Proof. by vm_compute. Qed.

Lemma waiting_requests_served_witness :
  (1 <= length (pendingRequests limiter1))%nat /\ exists t, drainTimerAt limiter1b = Some t.
Proof.
  destruct (waiting_requests_served someConfig 0 limiter1 1 limiter1b limiter1_steps limiter1_refills
    limiter1_affordable limiter1_fires limiter1b_waits) as [Hn (t & Et & _)].
  split; [exact Hn|]. exists t. exact Et.
Defined.

(** The command came last and is served first. *)
Definition limiter1c : Limiter := default limiter0 (performAll [Call 2500 1 0 Background] limiter1).

Lemma limiter1c_steps : steps limiter0 limiter1c.
Proof. apply (performAll_steps [Call 2500 1 0 Background] limiter1); [apply limiter1_steps|vm_compute; reflexivity]. Qed.

Lemma served_by_priority_and_age_witness :
  map sequence (pendingRequests limiter1c) = [1; 2; 3] /\
  exists r, findNextSatisfiableRequest limiter1c = Some r /\ sequence r = 2 /\
    forall r', In r' (pendingRequests limiter1c) -> priority r' <= priority r.
Proof.
  destruct (served_by_priority_and_age someConfig 0 limiter1c limiter1c_steps) as [H _].
  split; [vm_compute; reflexivity|].
  destruct (findNextSatisfiableRequest limiter1c) as [r|] eqn:E; [|by vm_compute in E].
  exists r. split; [reflexivity|]. destruct (proj1 (H r) eq_refl) as (_ & _ & Hm & _).
  split; [vm_compute in E; by injection E as <-|exact Hm].
Defined.

End RateLimiterClaims.
