(* ===== verification/Recovery.v ===== *)
(** * Recovery of failed offer cancellations

    [FailedOfferCancellationReconciler] (failed-offer-cancellation-reconciler.ts):
    one pass over the cancellation records that did not settle.  The repository and
    the one call of the bidding service that [BiddingService] does not have are a
    class; [v_trace] logs each call of them, with its arguments and outcome, and the
    clock an expiry is tested against.  Admission may
    close while the list is read or while a record is settled.  Logs are left out.
    [RecoveryClaims] has the theorems. *)

From S2P Require Import Prelude JsValue Domain BiddingService.

Open Scope Z_scope.

Module Recovery.

Record RecoverableOfferCancellationRecord := {
  rc_jobId : string;
  rc_orderId : string;
  rc_protocolAddress : option string;
  rc_placedAt : option string;
  rc_expirationTimeMs : option Z;
  rc_collectionAddress : string;
  rc_collectionSlug : string;
  rc_tokenId : option string;
  rc_cancellationError : option string;
  rc_terminalCommandError : option string;
  rc_hasTerminalCommand : bool;
}.

Record FailedOfferCancellationReconcilerConfig := {
  chainId : Z;
  batchSize : Z;
  cancellationRetryMs : Z;
  dryRun : bool;
}.

Class RecoveryPorts (X : Type) := {
  listRecoverableOfferCancellations : Z -> Z -> string -> M X (list RecoverableOfferCancellationRecord);
  markOfferCancellationCompleted : string -> string -> string -> M X unit;
  markOfferCancellationFailed : string -> string -> string -> M X unit;
  cancelRecoveredOrder : Order -> RequestContext -> M X unit;
}.

(** What a pass learns and does, in order. *)
Inductive Fact : Type :=
  | FOrder (orderId : string) (protocolAddress : option string) (collectionAddress : string) (tokenId : option string)
      (collectionSlug : string) (answer : option BiddingOrderRecoveryResult)
  | FClock (now : Z)
  | FCancel (order : Order) (succeeded : bool)
  | FCompleted (jobId orderId : string) (succeeded : bool)
  | FFailed (jobId orderId error : string) (succeeded : bool).

Record Pass (X : Type) := { v_ext : X; v_acceptingRecords : bool; v_trace : list Fact }.
Arguments v_ext {X}.
Arguments v_acceptingRecords {X}.
Arguments v_trace {X}.

Definition UNSETTLED_TERMINAL_CANCELLATION_ERROR : string :=
  "Cancellation command finished before the offer cancellation was settled".

Section Recovery.
Context {X : Type} `{BiddingService X} `{RuntimeStatePort X} `{RecoveryPorts X}.
Context (config : FailedOfferCancellationReconcilerConfig).

Local Open Scope artgod_scope.

(** A call of a port, logged with its outcome. *)
Definition told {A} (f : result A -> Fact) (m : M X A) : M (Pass X) A := fun v =>
  let '(r, x) := m (v_ext v) in
  (r, {| v_ext := x; v_acceptingRecords := v_acceptingRecords v; v_trace := v_trace v ++ [f r] |}).

Definition nowText : M (Pass X) string := fun v => (Ok (toISOString (dateNow (v_ext v))), v).

Definition closeAdmission : M (Pass X) unit := mmodify (fun v =>
  {| v_ext := v_ext v; v_acceptingRecords := false; v_trace := v_trace v |}).

Definition answerOf (r : result BiddingOrderRecoveryResult) : option BiddingOrderRecoveryResult :=
  match r with Ok a => Some a | Err _ => None end.

(** The calls of the ports: the arguments given are the ones logged. *)
Definition askOrder (orderId : string) (protocolAddress : option string) (collectionAddress : string)
    (tokenId : option string) (collectionSlug : string) : M (Pass X) BiddingOrderRecoveryResult :=
  told (fun r => FOrder orderId protocolAddress collectionAddress tokenId collectionSlug (answerOf r))
    (getOrder orderId protocolAddress collectionAddress tokenId collectionSlug None).

Definition sendCancellation (order : Order) : M (Pass X) unit :=
  told (fun r => FCancel order (is_ok r)) (cancelRecoveredOrder order (Some PriorityBackground)).

Definition tellCompleted (jobId orderId completedAt : string) : M (Pass X) unit :=
  told (fun r => FCompleted jobId orderId (is_ok r)) (markOfferCancellationCompleted jobId orderId completedAt).

Definition tellFailed (jobId orderId error : string) : M (Pass X) unit :=
  told (fun r => FFailed jobId orderId error (is_ok r)) (markOfferCancellationFailed jobId orderId error).

Definition readClock : M (Pass X) Z := fun v =>
  let now := dateNow (v_ext v) in
  (Ok now, {| v_ext := v_ext v; v_acceptingRecords := v_acceptingRecords v; v_trace := v_trace v ++ [FClock now] |}).

Definition markCompleted (record : RecoverableOfferCancellationRecord) : M (Pass X) unit :=
  let! completedAt := nowText in
  tellCompleted (rc_jobId record) (rc_orderId record) completedAt.

Definition markFailed (record : RecoverableOfferCancellationRecord) (error : string) : M (Pass X) unit :=
  tellFailed (rc_jobId record) (rc_orderId record) error.

Definition shouldRetryCancellation (record : RecoverableOfferCancellationRecord) (now : Z) : bool :=
  match rc_expirationTimeMs record with
  | None => true
  | Some t => now <? t
  end.

Definition orElse {A} (a b : option A) : option A := match a with Some _ => a | None => b end.

Definition mergeRecoveredOrder (record : RecoverableOfferCancellationRecord) (o : Order) : Order := {|
  ord_id := ord_id o; ord_price := ord_price o; ord_maker := ord_maker o;
  ord_protocolAddress := orElse (ord_protocolAddress o) (rc_protocolAddress record);
  ord_placedAt := orElse (ord_placedAt o) (rc_placedAt record);
  ord_expirationTime := orElse (ord_expirationTime o)
    ((fun t => NInt (t / 1000)) <$> rc_expirationTimeMs record);
  ord_offerScope := ord_offerScope o; ord_criteria := ord_criteria o; ord_quantity := ord_quantity o |}.

Definition restoreTerminalFailureIfAvailable (record : RecoverableOfferCancellationRecord) : M (Pass X) unit :=
  if otruthy (rc_cancellationError record) || negb (rc_hasTerminalCommand record) then mret tt
  else markFailed record
         (default UNSETTLED_TERMINAL_CANCELLATION_ERROR (rc_terminalCommandError record)).

Definition retryActiveCancellation (record : RecoverableOfferCancellationRecord) (recoveredOrder : Order)
    : M (Pass X) bool :=
  let order := mergeRecoveredOrder record recoveredOrder in
  mcatch
    (do! sendCancellation order in
     do! markCompleted record in
     mret true)
    (fun cancellationError => do! markFailed record cancellationError in mret false).

(** The body of the loop for one record: whether it was completed. *)
Definition settleRecord (record : RecoverableOfferCancellationRecord) : M (Pass X) bool :=
  mcatch
    (let! result := askOrder (rc_orderId record) (rc_protocolAddress record) (rc_collectionAddress record)
                      (rc_tokenId record) (rc_collectionSlug record) in
     match result with
     | RecoveryInactiveOrMissing => do! markCompleted record in mret true
     | RecoveryActive order =>
         if dryRun config then do! restoreTerminalFailureIfAvailable record in mret false
         else
           let! now := readClock in
           if shouldRetryCancellation record now
           then retryActiveCancellation record order
           else do! restoreTerminalFailureIfAvailable record in mret false
     | RecoveryInconclusive _ => do! restoreTerminalFailureIfAvailable record in mret false
     end)
    (fun _ => mret false).

(** The loop; [closes k] says whether the admission closes while the record [k] is
    being settled. *)
Fixpoint settleRecords (closes : nat -> bool) (k : nat) (records : list RecoverableOfferCancellationRecord)
    (completedCount : Z) : M (Pass X) Z := fun v =>
  match records with
  | [] => (Ok completedCount, v)
  | record :: rest =>
      if negb (v_acceptingRecords v) then (Ok completedCount, v)
      else
        (let! completed := settleRecord record in
         do! (if closes k then closeAdmission else mret tt) in
         settleRecords closes (S k) rest (if completed : bool then completedCount + 1 else completedCount)) v
  end.

(** [closesEarly]: the admission closes while the list is being read. *)
Definition reconcileFailedCancellations (closesEarly : bool) (closes : nat -> bool) : M (Pass X) Z := fun v =>
  if negb (v_acceptingRecords v) then (Ok 0, v)
  else
    let retryCutoff := toISOString (dateNow (v_ext v) - cancellationRetryMs config) in
    match listRecoverableOfferCancellations (chainId config) (batchSize config) retryCutoff (v_ext v) with
    | (Ok records, x) =>
        (do! (if closesEarly then closeAdmission else mret tt) in settleRecords closes 0 records 0)
          {| v_ext := x; v_acceptingRecords := v_acceptingRecords v; v_trace := v_trace v |}
    | (Err e, x) => (Err e, {| v_ext := x; v_acceptingRecords := v_acceptingRecords v; v_trace := v_trace v |})
    end.

(** ** One record *)

(** The question of a record, with its answer. *)
Definition asked (record : RecoverableOfferCancellationRecord) (answer : option BiddingOrderRecoveryResult) : Fact :=
  FOrder (rc_orderId record) (rc_protocolAddress record) (rc_collectionAddress record) (rc_tokenId record)
    (rc_collectionSlug record) answer.

(** The stored expiry is still to come; without one it never comes. *)
Definition unexpired (record : RecoverableOfferCancellationRecord) (now : Z) : Prop :=
  forall t, rc_expirationTimeMs record = Some t -> now < t.

(** The order the service has answered, under the stored protocol address if it has none. *)
Record recoveredAs (record : RecoverableOfferCancellationRecord) (o sent : Order) : Prop := {
  ra_id : ord_id sent = ord_id o;
  ra_protocol : forall p, ord_protocolAddress o = Some p -> ord_protocolAddress sent = Some p;
  ra_fallback : ord_protocolAddress o = None -> ord_protocolAddress sent = rc_protocolAddress record;
}.

(** The failure of a terminal command is put back when nothing is recorded. *)
Inductive restores (record : RecoverableOfferCancellationRecord) : list Fact -> Prop :=
  | rs_kept : otruthy (rc_cancellationError record) = true \/ rc_hasTerminalCommand record = false -> restores record []
  | rs_restored b : otruthy (rc_cancellationError record) = false -> rc_hasTerminalCommand record = true ->
      restores record [FFailed (rc_jobId record) (rc_orderId record)
        (default UNSETTLED_TERMINAL_CANCELLATION_ERROR (rc_terminalCommandError record)) b].

(** What may be told of a record: the state of its order is asked first; that order is
    cancelled only when it was found active, in live mode and before its stored expiry; the
    record is completed only when the order was found gone or the cancellation went
    through; and a failure is recorded for no other record.  [done] is whether the
    completion was recorded. *)
Inductive settled (record : RecoverableOfferCancellationRecord) : list Fact -> bool -> Prop :=
  | st_unknown : settled record [asked record None] false
  | st_gone b : settled record [asked record (Some RecoveryInactiveOrMissing);
                                FCompleted (rc_jobId record) (rc_orderId record) b] b
  | st_inconclusive reason T : restores record T ->
      settled record (asked record (Some (RecoveryInconclusive reason)) :: T) false
  | st_dry o T : dryRun config = true -> restores record T -> settled record (asked record (Some (RecoveryActive o)) :: T) false
  | st_expired o now T : dryRun config = false -> ~ unexpired record now -> restores record T ->
      settled record (asked record (Some (RecoveryActive o)) :: FClock now :: T) false
  | st_cancelled o now sent : dryRun config = false -> unexpired record now -> recoveredAs record o sent ->
      settled record [asked record (Some (RecoveryActive o)); FClock now; FCancel sent true;
                      FCompleted (rc_jobId record) (rc_orderId record) true] true
  | st_unrecorded o now sent e b : dryRun config = false -> unexpired record now -> recoveredAs record o sent ->
      settled record [asked record (Some (RecoveryActive o)); FClock now; FCancel sent true;
                      FCompleted (rc_jobId record) (rc_orderId record) false;
                      FFailed (rc_jobId record) (rc_orderId record) e b] false
  | st_refused o now sent e b : dryRun config = false -> unexpired record now -> recoveredAs record o sent ->
      settled record [asked record (Some (RecoveryActive o)); FClock now; FCancel sent false;
                      FFailed (rc_jobId record) (rc_orderId record) e b] false.

(** Whether a record was counted as completed. *)
Definition completedOf (r : result bool) : bool := match r with Ok b => b | Err _ => false end.

(** [m] logs [T] and leaves the admission as it is. *)
Definition logs (v v' : Pass X) (T : list Fact) : Prop :=
  v_acceptingRecords v' = v_acceptingRecords v /\ v_trace v' = v_trace v ++ T.

Lemma logs_trans v v1 v2 T T' : logs v v1 T -> logs v1 v2 T' -> logs v v2 (T ++ T').
Proof. intros [A1 T1] [A2 T2]. split; [congruence|]. by rewrite T2, T1, <- app_assoc. Qed.

Lemma told_inv {A} (f : result A -> Fact) (m : M X A) v r v' : told f m v = (r, v') -> logs v v' [f r].
Proof. unfold told. destruct (m (v_ext v)) as [r1 x1]. by intros [= <- <-]. Qed.

Lemma markCompleted_inv record v r v' : markCompleted record v = (r, v') ->
  logs v v' [FCompleted (rc_jobId record) (rc_orderId record) (is_ok r)].
Proof. unfold markCompleted, mbind, nowText. intros E%told_inv. exact E. Qed.

Lemma shouldRetry_iff record now : shouldRetryCancellation record now = true <-> unexpired record now.
Proof.
  unfold shouldRetryCancellation, unexpired. destruct (rc_expirationTimeMs record) as [t|]; [|done].
  rewrite Z.ltb_lt. split; [by intros ? ? [= <-]|auto].
Qed.

Lemma mergeRecoveredOrder_as record o : recoveredAs record o (mergeRecoveredOrder record o).
Proof. constructor; simpl; [done|by intros p ->|by intros ->]. Qed.

Lemma restore_inv record v r v' : restoreTerminalFailureIfAvailable record v = (r, v') ->
  exists T, logs v v' T /\ restores record T.
Proof.
  unfold restoreTerminalFailureIfAvailable. assert (logs v v []) as Hnil by (split; [done|by rewrite app_nil_r]).
  destruct (otruthy (rc_cancellationError record)) eqn:E1; simpl.
  { intros [= <- <-]. exists []. split; [done|by constructor; left]. }
  destruct (rc_hasTerminalCommand record) eqn:E2; simpl.
  2:{ intros [= <- <-]. exists []. split; [done|by constructor; right]. }
  intros Hl%told_inv. eexists. split; [exact Hl|by constructor].
Qed.

Lemma retry_inv record o now v r v' : dryRun config = false -> unexpired record now ->
  retryActiveCancellation record o v = (r, v') ->
  exists T, logs v v' T /\ settled record (asked record (Some (RecoveryActive o)) :: FClock now :: T) (completedOf r).
Proof.
  intros Hd Hu. pose proof (mergeRecoveredOrder_as record o) as Hm.
  unfold retryActiveCancellation, mcatch, mbind, markFailed, mret.
  destruct (sendCancellation _ v) as [[[]|e] v1] eqn:E1; apply told_inv in E1; simpl in E1.
  - destruct (markCompleted record v1) as [[[]|e] v2] eqn:E2; apply markCompleted_inv in E2; simpl in E2;
      pose proof (logs_trans _ _ _ _ _ E1 E2) as E12.
    + intros [= <- <-]. eexists. split; [exact E12|by apply st_cancelled].
    + destruct (tellFailed _ _ _ v2) as [[[]|e'] v3] eqn:E3; apply told_inv in E3; intros [= <- <-];
        eexists; (split; [exact (logs_trans _ _ _ _ _ E12 E3)|by apply st_unrecorded]).
  - destruct (tellFailed _ _ _ v1) as [[[]|e'] v3] eqn:E3; apply told_inv in E3; intros [= <- <-];
      eexists; (split; [exact (logs_trans _ _ _ _ _ E1 E3)|by apply st_refused]).
Qed.

(** Restoring, when the record is left as it is. *)
Lemma left_inv record prefix v v1 r v' :
  logs v v1 prefix -> (forall T, restores record T -> settled record (prefix ++ T) false) ->
  mcatch (do! restoreTerminalFailureIfAvailable record in mret false) (fun _ => mret false) v1 = (r, v') ->
  exists T b, r = Ok b /\ logs v v' T /\ settled record T b.
Proof.
  intros Hl Hs. unfold mcatch, mbind, mret. destruct (restoreTerminalFailureIfAvailable record v1) as [rr w] eqn:E.
  apply restore_inv in E as (T & HT & Hr). intros Er.
  assert (v' = w /\ r = Ok false) as [-> ->] by (destruct rr; by simplify_eq).
  exists (prefix ++ T), false. split; [done|]. split; [by eapply logs_trans|by apply Hs].
Qed.

Lemma settleRecord_spec record v r v' : settleRecord record v = (r, v') ->
  exists T b, r = Ok b /\ logs v v' T /\ settled record T b.
Proof.
  unfold settleRecord. intros Hrun. unfold mcatch, mbind at 1 in Hrun.
  destruct (askOrder _ _ _ _ _ v) as [[answer|e] v1] eqn:E1; apply told_inv in E1; simpl in E1; fold (asked record) in E1.
  2:{ injection Hrun as <- <-. exists [asked record None], false. split_and!; [done|apply E1..|constructor]. }
  destruct answer as [o| |reason].
  - destruct (dryRun config) eqn:Ed.
    { eapply (left_inv record _ v v1); [exact E1| |exact Hrun]. intros T HT. by apply st_dry. }
    unfold mbind at 1, readClock at 1 in Hrun. set (now := dateNow (v_ext v1)) in Hrun. set (v2 := {| v_ext := _; v_trace := _ |}) in Hrun.
    assert (logs v v2 [asked record (Some (RecoveryActive o)); FClock now]) as E2
      by (apply (logs_trans _ _ _ [_] [_] E1); by split).
    pose proof (shouldRetry_iff record now) as Hu. destruct (shouldRetryCancellation record now).
    + destruct (retryActiveCancellation record o v2) as [rr w] eqn:E3. destruct (retry_inv record o now v2 rr w Ed (proj1 Hu eq_refl) E3) as (T & HT & Hs).
      assert (v' = w /\ r = Ok (completedOf rr)) as [-> ->] by (destruct rr as [[]|e]; by injection Hrun as <- <-).
      eexists _, _. split; [done|]. split; [exact (logs_trans _ _ _ _ _ E2 HT)|exact Hs].
    + eapply (left_inv record _ v v2); [exact E2| |exact Hrun]. intros T HT. apply st_expired; [done| |done].
      intros Hn. by apply Hu in Hn.
  - unfold mbind in Hrun. destruct (markCompleted record v1) as [rr w] eqn:E2. apply markCompleted_inv in E2.
    pose proof (logs_trans _ _ _ _ _ E1 E2) as E12.
    destruct rr as [[]|e]; injection Hrun as <- <-; eexists _, _; (split; [done|]); (split; [exact E12|apply st_gone]).
  - eapply (left_inv record _ v v1); [exact E1| |exact Hrun]. intros T HT. by apply st_inconclusive.
Qed.

End Recovery.
End Recovery.

(** * Theorems about the recovery of failed offer cancellations *)

Module RecoveryClaims.
Import Recovery.

Section Claims.
Context {X : Type} `{BiddingService X} `{RuntimeStatePort X} `{RecoveryPorts X}.
Context (config : FailedOfferCancellationReconcilerConfig).

(** A record as it was handled: what was told of it and whether it was completed. *)
Definition handled (record : RecoverableOfferCancellationRecord) (h : list Fact * bool) : Prop :=
  settled config record h.1 h.2.

Definition completions (hs : list (list Fact * bool)) : Z :=
  Z.of_nat (length (filter (fun h => h.2 = true) hs)).

Lemma restores_sends_nothing record T o b : restores record T -> FCancel o b ∉ T.
Proof.
  intros HT Hin. destruct HT; [by apply elem_of_nil in Hin|].
  apply elem_of_cons in Hin as [Hin|Hin]; [discriminate Hin|by apply elem_of_nil in Hin].
Qed.

(** The records a pass starts: up to and with the first one during which the
    admission closes. *)
Fixpoint startedBefore (closes : nat -> bool) (k : nat) (records : list RecoverableOfferCancellationRecord)
    : list RecoverableOfferCancellationRecord :=
  match records with
  | [] => []
  | record :: rest => record :: if closes k then [] else startedBefore closes (S k) rest
  end.

Lemma settleRecords_closed closes k records n v : v_acceptingRecords v = false ->
  settleRecords config closes k records n v = (Ok n, v).
Proof. intros Ha. destruct records; simpl; [done|]. by rewrite Ha. Qed.

Lemma settleRecords_spec closes records : forall k n v r v', v_acceptingRecords v = true ->
  settleRecords config closes k records n v = (r, v') ->
  exists hs, Forall2 handled (startedBefore closes k records) hs /\
    v_trace v' = v_trace v ++ concat hs.*1 /\ r = Ok (n + completions hs).
Proof.
  induction records as [|record rest IH]; intros k n v r v' Ha.
  { intros [= <- <-]. exists []. simpl. rewrite app_nil_r. split_and!; [constructor|done|unfold completions; simpl; f_equal; lia]. }
  cbn [settleRecords]. rewrite Ha. cbn [negb]. unfold mbind.
  destruct (settleRecord config record v) as [r1 v1] eqn:E1.
  apply settleRecord_spec in E1 as (T & b & -> & [A1 T1] & Hs).
  assert (forall hs : list (list Fact * bool), completions ((T, b) :: hs) = (if b then 1 else 0) + completions hs) as Hc.
  { intros hs. unfold completions. rewrite filter_cons. destruct b; simpl; lia. }
  cbn [startedBefore]. destruct (closes k) eqn:Ec.
  - unfold closeAdmission, mmodify. rewrite settleRecords_closed by done. intros [= <- <-].
    exists [(T, b)]. split_and!; [by repeat constructor|simpl; by rewrite T1, app_nil_r|].
    rewrite Hc. change (completions []) with 0. f_equal. destruct b; lia.
  - unfold mret. intros E2. apply IH in E2 as (hs & Hhs & T2 & ->); [|congruence].
    exists ((T, b) :: hs). split_and!; [by constructor|simpl; by rewrite T2, T1, <- app_assoc|].
    rewrite Hc. f_equal. destruct b; lia.
Qed.

(** C36: A pass of the recovery asks of every listed record, in order and up to the
    one during which its admission closed, what became of its order, by the record's order
    id, addresses, token and collection, and whatever goes wrong with one record the next is
    still handled: what the pass does of each is one of the sequences of [settled].  So a
    record is completed only when that order was found inactive or missing or the
    cancellation of the order answered, under the record's protocol address if it came
    without one, has just succeeded; no order is cancelled in a dry run, nor one past its
    stored expiry; a failure is recorded only for an order not proved gone; and the pass
    returns the number of records completed.  When the list cannot be read the pass fails
    and does nothing; once the admission is closed it does nothing. *)
Theorem recovery_completes_only_proved closesEarly closes v r v' :
  reconcileFailedCancellations config closesEarly closes v = (r, v') ->
  match v_acceptingRecords v,
        listRecoverableOfferCancellations (chainId config) (batchSize config)
          (toISOString (dateNow (v_ext v) - cancellationRetryMs config)) (v_ext v) with
  | true, (Ok records, _) =>
      exists hs,
        Forall2 handled (if closesEarly then [] else startedBefore closes 0 records) hs /\
        v_trace v' = v_trace v ++ concat hs.*1 /\
        r = Ok (completions hs) /\
        (dryRun config = true -> forall o b, FCancel o b ∉ concat hs.*1)
  | true, (Err e, _) => r = Err e /\ v_trace v' = v_trace v
  | false, _ => r = Ok 0 /\ v' = v
  end.
Proof.
  assert (forall l hs, Forall2 handled l hs -> dryRun config = true -> forall o b, FCancel o b ∉ concat hs.*1) as Hdry.
  { intros l hs Hhs Hd o b. induction Hhs as [|rec [T b'] l hs Hh _ IH]; simpl; [apply not_elem_of_nil|].
    intros [Hin|Hin]%elem_of_app; [|done]. red in Hh; simpl in Hh, Hin.
    destruct Hh; try congruence; (apply elem_of_cons in Hin as [Hin|Hin]; [discriminate Hin|]);
      try (by eapply restores_sends_nothing);
      (repeat (apply elem_of_cons in Hin as [Hin|Hin]; [discriminate Hin|]); by apply elem_of_nil in Hin). }
  unfold reconcileFailedCancellations. destruct (v_acceptingRecords v) eqn:Ha; simpl.
  2:{ by intros [= <- <-]. }
  destruct (listRecoverableOfferCancellations _ _ _ (v_ext v)) as [[records|e] x]; [|by intros [= <- <-]].
  unfold mbind. destruct closesEarly.
  - unfold closeAdmission, mmodify. rewrite settleRecords_closed by done. intros [= <- <-].
    exists []. simpl. rewrite app_nil_r. split_and!; [constructor|done|done|intros _ o b; apply not_elem_of_nil].
  - unfold mret. intros (hs & Hhs & T & ->)%settleRecords_spec; [|done].
    exists hs. split_and!; [done|done|by rewrite Z.add_0_l|by apply (Hdry _ _ Hhs)].
Qed.

End Claims.

(** ** A small desk *)

(** The stored records, the orders still active on the market, those whose
    cancellation is refused and the ones whose state cannot be read. *)
Record Desk := {
  dk_records : list RecoverableOfferCancellationRecord;
  dk_active : list string;
  dk_refused : list string;
  dk_unknown : list string;
}.

Definition deskOrder (id : string) : Order := {|
  ord_id := id; ord_price := 5; ord_maker := "0xme"; ord_protocolAddress := None; ord_placedAt := None;
  ord_expirationTime := None; ord_offerScope := None; ord_criteria := []; ord_quantity := None |}.

#[local] Instance deskService : BiddingService Desk := {|
  roundOfferPriceDown := Ok;
  roundOfferPriceUp := Ok;
  getActiveOffers _ _ x := (Ok [], x);
  getOrder id _ _ _ _ _ x :=
    (if bool_decide (id ∈ dk_unknown x) then Err "timeout"
     else if bool_decide (id ∈ dk_active x) then Ok (RecoveryActive (deskOrder id))
     else Ok RecoveryInactiveOrMissing, x);
  placeOffer _ _ _ x := (Err "unused", x);
  cancelOffer _ _ _ x := (Err "unused", x);
|}.

#[local] Instance deskState : RuntimeStatePort Desk := {|
  persistJobRuntimeState _ x := (Ok tt, x);
  recordJobOfferCancellation _ x := (Ok tt, x);
  dateNow _ := 1000;
|}.

#[local] Instance deskRecovery : RecoveryPorts Desk := {|
  listRecoverableOfferCancellations _ limit _ x := (Ok (take (Z.to_nat limit) (dk_records x)), x);
  markOfferCancellationCompleted _ _ _ x := (Ok tt, x);
  markOfferCancellationFailed _ _ _ x := (Ok tt, x);
  cancelRecoveredOrder o _ x := (if bool_decide (ord_id o ∈ dk_refused x) then Err "refused" else Ok tt, x);
|}.

Definition deskRecord (id : string) (expiration : option Z) : RecoverableOfferCancellationRecord := {|
  rc_jobId := "job"; rc_orderId := id; rc_protocolAddress := Some "0xp"%string; rc_placedAt := None;
  rc_expirationTimeMs := expiration; rc_collectionAddress := "0xc"; rc_collectionSlug := "slug";
  rc_tokenId := None; rc_cancellationError := None; rc_terminalCommandError := None;
  rc_hasTerminalCommand := true |}.

Definition deskConfig (dry : bool) : FailedOfferCancellationReconcilerConfig :=
  {| chainId := 1; batchSize := 10; cancellationRetryMs := 0; dryRun := dry |}.

Definition deskPass : Pass Desk := {|
  v_ext := {| dk_records := [deskRecord "unknown" None; deskRecord "gone" None; deskRecord "live" None;
                             deskRecord "expired" (Some 1000); deskRecord "refused" None; deskRecord "late" None];
              dk_active := ["live"; "expired"; "refused"]; dk_refused := ["refused"]; dk_unknown := ["unknown"] |};
  v_acceptingRecords := true; v_trace := [] |}.

Definition liveDesk := reconcileFailedCancellations (deskConfig false) false (fun k => k =? 4)%nat deskPass.
Definition dryDesk := reconcileFailedCancellations (deskConfig true) false (fun _ => false) deskPass.

(** The order of [expired] is past its expiry: its failure is restored and nothing is
    sent; [late] is not reached, the admission closed during [refused]. *)
Lemma recovery_completes_only_proved_witness :
  (liveDesk.1 = Ok 2 /\
   exists hs, Forall2 (handled (deskConfig false)) (take 5 (dk_records (v_ext deskPass))) hs /\
      v_trace liveDesk.2 = concat hs.*1 /\ liveDesk.1 = Ok (completions hs)) /\
  dryDesk.1 = Ok 2 /\ (forall o b, FCancel o b ∉ v_trace dryDesk.2).
Proof.
  split; (split; [vm_compute; reflexivity|]).
  - destruct (recovery_completes_only_proved (deskConfig false) false (fun k => k =? 4)%nat deskPass _ _
      (surjective_pairing _)) as (hs & Hhs & T & Hr & _).
    exists hs. split; [exact Hhs|]. split; [exact T|exact Hr].
  - destruct (recovery_completes_only_proved (deskConfig true) false (fun _ => false) deskPass _ _
      (surjective_pairing _)) as (hs & Hhs & T & Hr & Hd).
    intros o b. unfold dryDesk. rewrite T. by apply Hd.
Defined.

End RecoveryClaims.
