(* ===== verification/Snapshots.v ===== *)
(** * Snapshots of collection offers

    [CollectionOfferSnapshotService] (collection-offer-snapshot-service.ts): the
    authoritative book of offers of every watched collection, fetched by at most one
    refresh per collection at a time, with freshness, back-off and coalescing.

    Every [await] ends a step.  A refresh in flight is a [Loop], a call of
    [refreshAndWait] that waits for one is a [Caller], and both are known by a number;
    [s_settled] says how the promise of a loop ended.  [s_fetches], [s_fetchedBy],
    [c_since], [s_returned] and [s_notified] number the calls of the source, the
    fetch a snapshot came from, the fetches made before a call, how calls returned and
    what the observer was told; no operation reads them.  The clock moves forward; the
    duration multiplier is a rational number, where the code has floating point.  Logs
    are left out. *)

From Stdlib Require Import QArith Qround.
From S2P Require Import Prelude JsValue.

Open Scope Z_scope.

Module Snapshots.

Record CollectionOfferSnapshotMetrics := {
  durationMs : Z;
  pageCount : Z;
  offerCount : Z;
  complete : bool;
  firstPriceWei : option string;
  lastPriceWei : option string;
  minPriceWei : option string;
  maxPriceWei : option string;
  finalCursor : option string;
}.

Record CollectionOfferSnapshot := {
  sn_collectionSlug : string;
  sn_offers : list jsval;
  sn_refreshedAt : Z;
  sn_metrics : CollectionOfferSnapshotMetrics;
}.

Record CollectionOfferSourceResult := {
  sr_offers : list jsval;
  sr_metrics : CollectionOfferSnapshotMetrics;
}.

Record PendingRefreshRequest := { pr_reason : string; pr_respectTtl : bool }.

(** [inFlight] is the number of the loop behind [inFlightPromise]. *)
Record CollectionRefreshState := {
  refreshing : bool;
  pendingRequest : option PendingRefreshRequest;
  inFlight : option Z;
  failureCount : Z;
  lastStartedAt : option Z;
  lastError : option string;
  nextEligibleRefreshAt : option Z;
}.

Inductive CollectionOfferRefreshOutcome : Type :=
  | Started | Coalesced | FreshSkipped | JoinedInFlight | BackoffSkipped | Unwatched | Stopped.

(** How a call of [refreshAndWait] returned. *)
Inductive Return : Type :=
  | Skipped (outcome : CollectionOfferRefreshOutcome)
  | Refreshed
  | Failed (error : string).

Record Loop := { l_slug : string; l_reason : string; l_seq : Z }.

(** What a call waits for: [waitForFreshInFlightRefresh] returning [false]; the promise
    of a loop inside [waitForFreshInFlightRefresh]; that of the loop which serves it. *)
Inductive Wait : Type :=
  | Probed
  | Joined (loop : Z)
  | Following (loop : Z).

Record Caller := {
  c_slug : string;
  c_reason : string;
  c_respectTtl : bool;
  c_since : Z;
  c_wait : Wait;
}.

Record Config := {
  pollIntervalMs : Z;
  refreshTtlMs : Z;
  refreshMaxTtlMs : Z;
  refreshDurationMultiplier : Q;
}.

Record Svc := {
  s_watched : list string;
  s_snapshots : list (string * CollectionOfferSnapshot);
  s_states : list (string * CollectionRefreshState);
  s_activeRefreshCount : Z;
  s_pendingRefreshCount : Z;
  s_started : bool;
  s_stopped : bool;
  s_pollTimer : option Z;
  s_loops : list (Z * Loop);
  s_callers : list (Z * Caller);
  s_settled : list (Z * result unit);
  s_nextId : Z;
  s_now : Z;
  s_fetches : Z;
  s_fetchedBy : list (string * Z);
  s_returned : list (Caller * Return);
  s_notified : list (CollectionOfferSnapshot * string);
}.

Definition createConfig (poll ttl : Z) (maxTtlMs : option Z) (durationMultiplier : option Q) : Config := {|
  pollIntervalMs := poll;
  refreshTtlMs := ttl;
  refreshMaxTtlMs := Z.max ttl (default ttl maxTtlMs);
  refreshDurationMultiplier :=
    match durationMultiplier with
    | Some q => if Qle_bool q 0 then 1%Q else q
    | None => 1%Q
    end |}.

Definition hasSlug (slug : string) (l : list string) : bool := existsb (String.eqb slug) l.

(** [new Set(l)] *)
Definition toSet (l : list string) : list string :=
  fold_left (fun acc x => if hasSlug x acc then acc else acc ++ [x]) l [].

Definition create (collectionSlugs : list string) (now : Z) : Svc := {|
  s_watched := toSet collectionSlugs; s_snapshots := []; s_states := []; s_activeRefreshCount := 0;
  s_pendingRefreshCount := 0; s_started := false; s_stopped := false; s_pollTimer := None;
  s_loops := []; s_callers := []; s_settled := []; s_nextId := 0; s_now := now; s_fetches := 0;
  s_fetchedBy := []; s_returned := []; s_notified := [] |}.

(** ** Updates *)

Definition with_watch watched timer s := {| s_watched := watched; s_snapshots := s_snapshots s;
  s_states := s_states s; s_activeRefreshCount := s_activeRefreshCount s;
  s_pendingRefreshCount := s_pendingRefreshCount s; s_started := s_started s; s_stopped := s_stopped s;
  s_pollTimer := timer; s_loops := s_loops s; s_callers := s_callers s; s_settled := s_settled s;
  s_nextId := s_nextId s; s_now := s_now s; s_fetches := s_fetches s; s_fetchedBy := s_fetchedBy s;
  s_returned := s_returned s; s_notified := s_notified s |}.

Definition with_run started stopped s := {| s_watched := s_watched s; s_snapshots := s_snapshots s;
  s_states := s_states s; s_activeRefreshCount := s_activeRefreshCount s;
  s_pendingRefreshCount := s_pendingRefreshCount s; s_started := started; s_stopped := stopped;
  s_pollTimer := s_pollTimer s; s_loops := s_loops s; s_callers := s_callers s; s_settled := s_settled s;
  s_nextId := s_nextId s; s_now := s_now s; s_fetches := s_fetches s; s_fetchedBy := s_fetchedBy s;
  s_returned := s_returned s; s_notified := s_notified s |}.

Definition with_now now s := {| s_watched := s_watched s; s_snapshots := s_snapshots s;
  s_states := s_states s; s_activeRefreshCount := s_activeRefreshCount s;
  s_pendingRefreshCount := s_pendingRefreshCount s; s_started := s_started s; s_stopped := s_stopped s;
  s_pollTimer := s_pollTimer s; s_loops := s_loops s; s_callers := s_callers s; s_settled := s_settled s;
  s_nextId := s_nextId s; s_now := now; s_fetches := s_fetches s; s_fetchedBy := s_fetchedBy s;
  s_returned := s_returned s; s_notified := s_notified s |}.

Definition with_state slug st active pending s := {| s_watched := s_watched s; s_snapshots := s_snapshots s;
  s_states := jm_set slug st (s_states s); s_activeRefreshCount := active;
  s_pendingRefreshCount := pending; s_started := s_started s; s_stopped := s_stopped s;
  s_pollTimer := s_pollTimer s; s_loops := s_loops s; s_callers := s_callers s; s_settled := s_settled s;
  s_nextId := s_nextId s; s_now := s_now s; s_fetches := s_fetches s; s_fetchedBy := s_fetchedBy s;
  s_returned := s_returned s; s_notified := s_notified s |}.

(** The refresh numbered [id] calls the source (once more). *)
Definition callSource id slug reason s := {| s_watched := s_watched s; s_snapshots := s_snapshots s;
  s_states := s_states s; s_activeRefreshCount := s_activeRefreshCount s;
  s_pendingRefreshCount := s_pendingRefreshCount s; s_started := s_started s; s_stopped := s_stopped s;
  s_pollTimer := s_pollTimer s;
  s_loops := jm_set id {| l_slug := slug; l_reason := reason; l_seq := s_fetches s + 1 |} (s_loops s);
  s_callers := s_callers s; s_settled := s_settled s;
  s_nextId := s_nextId s; s_now := s_now s; s_fetches := s_fetches s + 1; s_fetchedBy := s_fetchedBy s;
  s_returned := s_returned s; s_notified := s_notified s |}.

(** The promise of the loop [id] settles. *)
Definition settleLoop id (r : result unit) s := {| s_watched := s_watched s; s_snapshots := s_snapshots s;
  s_states := s_states s; s_activeRefreshCount := s_activeRefreshCount s;
  s_pendingRefreshCount := s_pendingRefreshCount s; s_started := s_started s; s_stopped := s_stopped s;
  s_pollTimer := s_pollTimer s; s_loops := jm_del id (s_loops s); s_callers := s_callers s;
  s_settled := jm_set id r (s_settled s);
  s_nextId := s_nextId s; s_now := s_now s; s_fetches := s_fetches s; s_fetchedBy := s_fetchedBy s;
  s_returned := s_returned s; s_notified := s_notified s |}.

Definition storeSnapshot snapshot seq reason s := {| s_watched := s_watched s;
  s_snapshots := jm_set (sn_collectionSlug snapshot) snapshot (s_snapshots s);
  s_states := s_states s; s_activeRefreshCount := s_activeRefreshCount s;
  s_pendingRefreshCount := s_pendingRefreshCount s; s_started := s_started s; s_stopped := s_stopped s;
  s_pollTimer := s_pollTimer s; s_loops := s_loops s; s_callers := s_callers s; s_settled := s_settled s;
  s_nextId := s_nextId s; s_now := s_now s; s_fetches := s_fetches s;
  s_fetchedBy := jm_set (sn_collectionSlug snapshot) seq (s_fetchedBy s);
  s_returned := s_returned s; s_notified := s_notified s ++ [(snapshot, reason)] |}.

Definition with_callers callers s := {| s_watched := s_watched s; s_snapshots := s_snapshots s;
  s_states := s_states s; s_activeRefreshCount := s_activeRefreshCount s;
  s_pendingRefreshCount := s_pendingRefreshCount s; s_started := s_started s; s_stopped := s_stopped s;
  s_pollTimer := s_pollTimer s; s_loops := s_loops s; s_callers := callers; s_settled := s_settled s;
  s_nextId := s_nextId s; s_now := s_now s; s_fetches := s_fetches s; s_fetchedBy := s_fetchedBy s;
  s_returned := s_returned s; s_notified := s_notified s |}.

Definition takeId s := {| s_watched := s_watched s; s_snapshots := s_snapshots s;
  s_states := s_states s; s_activeRefreshCount := s_activeRefreshCount s;
  s_pendingRefreshCount := s_pendingRefreshCount s; s_started := s_started s; s_stopped := s_stopped s;
  s_pollTimer := s_pollTimer s; s_loops := s_loops s; s_callers := s_callers s; s_settled := s_settled s;
  s_nextId := s_nextId s + 1; s_now := s_now s; s_fetches := s_fetches s; s_fetchedBy := s_fetchedBy s;
  s_returned := s_returned s; s_notified := s_notified s |}.

Definition returns (c : Caller) (r : Return) s := {| s_watched := s_watched s; s_snapshots := s_snapshots s;
  s_states := s_states s; s_activeRefreshCount := s_activeRefreshCount s;
  s_pendingRefreshCount := s_pendingRefreshCount s; s_started := s_started s; s_stopped := s_stopped s;
  s_pollTimer := s_pollTimer s; s_loops := s_loops s; s_callers := s_callers s; s_settled := s_settled s;
  s_nextId := s_nextId s; s_now := s_now s; s_fetches := s_fetches s; s_fetchedBy := s_fetchedBy s;
  s_returned := s_returned s ++ [(c, r)]; s_notified := s_notified s |}.

Definition st_set_running b loop started st := {| refreshing := b; pendingRequest := pendingRequest st;
  inFlight := loop; failureCount := failureCount st; lastStartedAt := started; lastError := lastError st;
  nextEligibleRefreshAt := nextEligibleRefreshAt st |}.

Definition st_set_pending p st := {| refreshing := refreshing st; pendingRequest := p;
  inFlight := inFlight st; failureCount := failureCount st; lastStartedAt := lastStartedAt st;
  lastError := lastError st; nextEligibleRefreshAt := nextEligibleRefreshAt st |}.

Definition st_set_failures n error next st := {| refreshing := refreshing st;
  pendingRequest := pendingRequest st; inFlight := inFlight st; failureCount := n;
  lastStartedAt := lastStartedAt st; lastError := error; nextEligibleRefreshAt := next |}.

Section Service.
Context (config : Config).

(** ** Freshness and back-off *)

Definition getSnapshotFreshnessTtlMs (snapshot : CollectionOfferSnapshot) : Z :=
  let adaptiveTtlMs :=
    Qceiling (inject_Z (durationMs (sn_metrics snapshot)) * refreshDurationMultiplier config) in
  Z.min (refreshMaxTtlMs config) (Z.max (refreshTtlMs config) adaptiveTtlMs).

Definition isSnapshotFresh (slug : string) (s : Svc) : bool :=
  if refreshTtlMs config <=? 0 then false
  else match jm_get slug (s_snapshots s) with
       | None => false
       | Some snapshot => s_now s - sn_refreshedAt snapshot <? getSnapshotFreshnessTtlMs snapshot
       end.

Definition isRefreshBackoffActive (slug : string) (s : Svc) : bool :=
  match jm_get slug (s_states s) ≫= nextEligibleRefreshAt with
  | Some t => s_now s <? t
  | None => false
  end.

Definition COLLECTION_OFFER_SNAPSHOT_FAILURE_BACKOFF_MULTIPLIER : Z := 2.
Definition COLLECTION_OFFER_SNAPSHOT_FAILURE_BACKOFF_MAX_EXPONENT : Z := 6.
Definition COLLECTION_OFFER_SNAPSHOT_FAILURE_BACKOFF_JITTER_RATIO : Q := 1 # 5.

Definition recordRefreshSuccess (st : CollectionRefreshState) : CollectionRefreshState :=
  st_set_failures 0 None None st.

(** [random] is what [Math.random()] gives. *)
Definition recordRefreshFailure (random : Q) (now : Z) (error : string) (st : CollectionRefreshState)
    : CollectionRefreshState :=
  let count := failureCount st + 1 in
  let exponent := Z.min (count - 1) COLLECTION_OFFER_SNAPSHOT_FAILURE_BACKOFF_MAX_EXPONENT in
  let rawBackoffMs := refreshTtlMs config * COLLECTION_OFFER_SNAPSHOT_FAILURE_BACKOFF_MULTIPLIER ^ exponent in
  let jitterMs :=
    Qfloor (inject_Z rawBackoffMs * COLLECTION_OFFER_SNAPSHOT_FAILURE_BACKOFF_JITTER_RATIO * random) in
  let backoffMs := Z.min (refreshMaxTtlMs config) (rawBackoffMs + jitterMs) in
  st_set_failures count (Some error) (Some (now + backoffMs)) st.

(** ** Pending requests *)

(** [existing.split(" || ")], for the test of membership. *)
Definition separator : string := " || ".

Definition mergeRefreshReasons (existing incoming : string) : string :=
  if negb (truthy existing) then incoming
  else if hasSlug incoming (splitOn separator existing) then existing
  else (existing ++ separator ++ incoming)%string.

Definition mergePendingRefreshRequest (existing : option PendingRefreshRequest)
    (incoming : PendingRefreshRequest) : PendingRefreshRequest :=
  match existing with
  | None => incoming
  | Some e => {| pr_reason := mergeRefreshReasons (pr_reason e) (pr_reason incoming);
                 pr_respectTtl := pr_respectTtl e && pr_respectTtl incoming |}
  end.

Definition getRefreshState (slug : string) (s : Svc) : CollectionRefreshState :=
  default {| refreshing := false; pendingRequest := None; inFlight := None; failureCount := 0;
             lastStartedAt := None; lastError := None; nextEligibleRefreshAt := None |}
    (jm_get slug (s_states s)).

Definition pendingCount (p : option PendingRefreshRequest) : Z :=
  match p with Some _ => 1 | None => 0 end.

Definition clearPendingRequest (slug : string) (st : CollectionRefreshState) (s : Svc) : Svc :=
  with_state slug (st_set_pending None st) (s_activeRefreshCount s)
    (s_pendingRefreshCount s - pendingCount (pendingRequest st)) s.

(** ** Calls *)

(** The call waits. *)
Definition waitFor (c : Caller) (w : Wait) (s : Svc) : Svc :=
  takeId (with_callers (jm_set (s_nextId s)
    {| c_slug := c_slug c; c_reason := c_reason c; c_respectTtl := c_respectTtl c;
       c_since := c_since c; c_wait := w |} (s_callers s)) s).

Definition refreshCollection (c : Caller) (s : Svc) : Svc :=
  let slug := c_slug c in
  let st := getRefreshState slug s in
  if refreshing st then
    let p := mergePendingRefreshRequest (pendingRequest st)
               {| pr_reason := c_reason c; pr_respectTtl := c_respectTtl c |} in
    let s := with_state slug (st_set_pending (Some p) st) (s_activeRefreshCount s)
               (s_pendingRefreshCount s + (1 - pendingCount (pendingRequest st))) s in
    match inFlight st with
    | Some loop => waitFor c (Following loop) s
    | None => returns c Refreshed s
    end
  else
    let loop := s_nextId s in
    let s := with_state slug (st_set_running true (Some loop) (Some (s_now s)) st)
               (s_activeRefreshCount s + 1) (s_pendingRefreshCount s) s in
    waitFor c (Following loop) (callSource loop slug (c_reason c) (takeId s)).

(** [refreshAndWait] after the wait for a refresh in flight. *)
Definition afterJoin (c : Caller) (s : Svc) : Svc :=
  if s_stopped s then returns c (Skipped Stopped) s
  else if c_respectTtl c && isRefreshBackoffActive (c_slug c) s then returns c (Skipped BackoffSkipped) s
  else refreshCollection c s.

Definition refreshAndWait (slug reason : string) (respectTtl : bool) (s : Svc) : Svc :=
  let c := {| c_slug := slug; c_reason := reason; c_respectTtl := respectTtl;
              c_since := s_fetches s; c_wait := Probed |} in
  if s_stopped s then returns c (Skipped Stopped) s
  else if negb (hasSlug slug (s_watched s)) then returns c (Skipped Unwatched) s
  else if respectTtl && isSnapshotFresh slug s then returns c (Skipped FreshSkipped) s
  else if negb respectTtl then afterJoin c s
  else
    let st := getRefreshState slug s in
    match (if refreshing st then inFlight st else None) with
    | Some loop => waitFor c (Joined loop) s
    | None => waitFor c Probed s
    end.

(** A waiting call goes on, once the promise it waits for has settled. *)
Definition resume (id : Z) (s : Svc) : option Svc :=
  match jm_get id (s_callers s) with
  | None => None
  | Some c =>
      let s' := with_callers (jm_del id (s_callers s)) s in
      match c_wait c with
      | Probed => Some (afterJoin c s')
      | Joined loop =>
          match jm_get loop (s_settled s) with
          | None => None
          | Some (Err e) => Some (returns c (Failed e) s')
          | Some (Ok _) =>
              Some (if isSnapshotFresh (c_slug c) s then returns c (Skipped FreshSkipped) s'
                    else waitFor c Probed s')
          end
      | Following loop =>
          match jm_get loop (s_settled s) with
          | None => None
          | Some (Err e) => Some (returns c (Failed e) s')
          | Some (Ok _) => Some (returns c Refreshed s')
          end
      end
  end.

Definition requestRefresh (slug reason : string) (s : Svc) : Svc :=
  if s_stopped s then s
  else if negb (hasSlug slug (s_watched s)) then s
  else refreshAndWait slug reason true s.

(** ** The loop of a refresh *)

(** [finally]: the loop ends, and its promise settles. *)
Definition finishLoop (id : Z) (l : Loop) (r : result unit) (s : Svc) : Svc :=
  let st := getRefreshState (l_slug l) s in
  let s := with_state (l_slug l) (st_set_running false (inFlight st) (lastStartedAt st) st)
             (s_activeRefreshCount s - 1) (s_pendingRefreshCount s) s in
  let s := clearPendingRequest (l_slug l) (getRefreshState (l_slug l) s) s in
  let st := getRefreshState (l_slug l) s in
  let s := with_state (l_slug l) (st_set_running (refreshing st) None (lastStartedAt st) st)
             (s_activeRefreshCount s) (s_pendingRefreshCount s) s in
  settleLoop id r s.

Definition fail (id : Z) (l : Loop) (random : Q) (error : string) (s : Svc) : Svc :=
  let st := recordRefreshFailure random (s_now s) error (getRefreshState (l_slug l) s) in
  finishLoop id l (Err error) (with_state (l_slug l) st (s_activeRefreshCount s) (s_pendingRefreshCount s) s).

Definition PARTIAL_ERROR : string := "OpenSea returned a partial collection offer snapshot".

(** The source answers the refresh [id]. *)
Definition settleFetch (id : Z) (random : Q) (answer : result CollectionOfferSourceResult) (s : Svc)
    : option Svc :=
  match jm_get id (s_loops s) with
  | None => None
  | Some l =>
      let slug := l_slug l in
      Some match answer with
      | Err e => fail id l random e s
      | Ok res =>
          if negb (complete (sr_metrics res)) then fail id l random PARTIAL_ERROR s
          else
            let s := with_state slug (recordRefreshSuccess (getRefreshState slug s))
                       (s_activeRefreshCount s) (s_pendingRefreshCount s) s in
            let s := storeSnapshot {| sn_collectionSlug := slug; sn_offers := sr_offers res;
                                      sn_refreshedAt := s_now s; sn_metrics := sr_metrics res |}
                       (l_seq l) (l_reason l) s in
            let st := getRefreshState slug s in
            match pendingRequest st with
            | None => finishLoop id l (Ok tt) s
            | Some p =>
                let s := clearPendingRequest slug st s in
                if pr_respectTtl p && isSnapshotFresh slug s then finishLoop id l (Ok tt) s
                else
                  let st := getRefreshState slug s in
                  callSource id slug (pr_reason p)
                    (with_state slug (st_set_running (refreshing st) (inFlight st) (Some (s_now s)) st)
                       (s_activeRefreshCount s) (s_pendingRefreshCount s) s)
            end
      end
  end.

(** ** Polling, watching and shutdown *)

Definition scheduleNextPoll (s : Svc) : Svc :=
  if negb (s_started s) || (match s_watched s with [] => true | _ => false end)
  then with_watch (s_watched s) None s
  else with_watch (s_watched s) (Some (s_now s + pollIntervalMs config)) s.

Definition start (s : Svc) : Svc :=
  if s_started s || s_stopped s then s
  else
    let s := with_run true (s_stopped s) s in
    match s_watched s with [] => s | _ => scheduleNextPoll s end.

(** The poll timer fires. *)
Definition firePoll (s : Svc) : option Svc :=
  match s_pollTimer s with
  | Some due =>
      if due <=? s_now s then
        let s := with_watch (s_watched s) None s in
        Some (if negb (s_started s) then s
              else scheduleNextPoll
                     (fold_left (fun s slug => requestRefresh slug "poll cadence" s) (s_watched s) s))
      else None
  | None => None
  end.

Definition stop (s : Svc) : Svc :=
  if s_stopped s then s
  else
    let s := with_watch (s_watched s) None (with_run false true s) in
    fold_left (fun s slug => clearPendingRequest slug (getRefreshState slug s) s) (jm_keys (s_states s)) s.

Definition watchCollection (slug : string) (s : Svc) : bool * Svc :=
  if hasSlug slug (s_watched s) then (false, s)
  else
    let s := with_watch (s_watched s ++ [slug]) (s_pollTimer s) s in
    (true, if s_started s && negb (match s_pollTimer s with Some _ => true | None => false end)
           then scheduleNextPoll s else s).

Definition unwatchCollection (slug : string) (s : Svc) : bool * Svc :=
  if negb (hasSlug slug (s_watched s)) then (false, s)
  else
    let watched := List.filter (fun x => negb (String.eqb slug x)) (s_watched s) in
    (true, with_watch watched (match watched with [] => None | _ => s_pollTimer s end) s).

Definition reconcileWatchedCollections (collectionSlugs : list string) (s : Svc) : (Z * Z) * Svc :=
  let next := toSet collectionSlugs in
  let '(removed, s) := fold_left (fun '(n, s) slug =>
      if hasSlug slug next then (n, s)
      else let '(b, s') := unwatchCollection slug s in ((if b : bool then n + 1 else n), s'))
    (s_watched s) (0, s) in
  let '(added, s) := fold_left (fun '(n, s) slug =>
      let '(b, s') := watchCollection slug s in ((if b : bool then n + 1 else n), s'))
    next (0, s) in
  ((added, removed), s).

(** [bootstrap]: the calls it makes and waits for. *)
Definition bootstrap (s : Svc) : Svc :=
  fold_left (fun s slug => refreshAndWait slug "bootstrap" false s) (s_watched s) s.

Definition getSnapshot (slug : string) (s : Svc) : option CollectionOfferSnapshot :=
  jm_get slug (s_snapshots s).

Record CollectionOfferFreshnessHealth := {
  fresh : Z; stale : Z; missing : Z; backoffCollections : Z; oldestCompleteAtMs : option Z }.

Definition readFreshness (nowMs : Z) (s : Svc) : CollectionOfferFreshnessHealth :=
  fold_left (fun h slug =>
      let backoff := match jm_get slug (s_states s) ≫= nextEligibleRefreshAt with
                     | Some t => if nowMs <? t then 1 else 0 | None => if nowMs <? 0 then 1 else 0 end in
      match jm_get slug (s_snapshots s) with
      | None => {| fresh := fresh h; stale := stale h; missing := missing h + 1;
                   backoffCollections := backoffCollections h + backoff;
                   oldestCompleteAtMs := oldestCompleteAtMs h |}
      | Some snapshot =>
          let b := (0 <? refreshTtlMs config)
                   && (nowMs - sn_refreshedAt snapshot <? getSnapshotFreshnessTtlMs snapshot) in
          {| fresh := fresh h + (if b then 1 else 0); stale := stale h + (if b then 0 else 1);
             missing := missing h; backoffCollections := backoffCollections h + backoff;
             oldestCompleteAtMs := Some match oldestCompleteAtMs h with
                                        | None => sn_refreshedAt snapshot
                                        | Some t => Z.min t (sn_refreshedAt snapshot)
                                        end |}
      end)
    (s_watched s)
    {| fresh := 0; stale := 0; missing := 0; backoffCollections := 0; oldestCompleteAtMs := None |}.

(** ** What may happen next *)

Inductive step : Svc -> Svc -> Prop :=
  | s_call slug reason respectTtl s : step s (refreshAndWait slug reason respectTtl s)
  | s_request slug reason s : step s (requestRefresh slug reason s)
  | s_resume id s s' : resume id s = Some s' -> step s s'
  | s_answer id random answer s s' : (0 <= random < 1)%Q -> settleFetch id random answer s = Some s' -> step s s'
  | s_poll s s' : firePoll s = Some s' -> step s s'
  | s_start s : step s (start s)
  | s_stop s : step s (stop s)
  | s_watch slug s : step s (watchCollection slug s).2
  | s_unwatch slug s : step s (unwatchCollection slug s).2
  | s_reconcile slugs s : step s (reconcileWatchedCollections slugs s).2
  | s_bootstrap s : step s (bootstrap s)
  | s_tick d s : 0 <= d -> step s (with_now (s_now s + d) s).

Inductive reachable : Svc -> Prop :=
  | r_create slugs now : reachable (create slugs now)
  | r_step s s' : reachable s -> step s s' -> reachable s'.

End Service.
End Snapshots.
