(* ===== verification/SnapshotsInv.v ===== *)
(** * The invariant of the snapshot service

    [svc_wf] ties the refresh states to the loops in flight, the counters to the
    states, and every waiting call to the loop that will wake it; each operation
    keeps it. *)

From Stdlib Require Import QArith Qround.
From S2P Require Import Prelude JsValue Snapshots.

Open Scope Z_scope.

Module SnapshotsInv.
Import Snapshots.

Definition idle (st : CollectionRefreshState) : Prop :=
  refreshing st = false /\ pendingRequest st = None /\ inFlight st = None.

Definition forcedPending (p : option PendingRefreshRequest) : Prop :=
  exists q, p = Some q /\ pr_respectTtl q = false.

(** The snapshot stored for [slug] comes from a fetch made after [since]. *)
Definition newerThan (since : Z) (slug : string) (s : Svc) : Prop :=
  exists seq, jm_get slug (s_fetchedBy s) = Some seq /\ since < seq.

Definition waitLoop (w : Wait) : option Z :=
  match w with Probed => None | Joined loop | Following loop => Some loop end.

(** What a call that forces a refresh may count on while it follows a loop. *)
Definition forced_ok (c : Caller) (s : Svc) : Prop :=
  forall loop, c_respectTtl c = false -> c_wait c = Following loop -> s_stopped s = false ->
    (forall l, jm_get loop (s_loops s) = Some l ->
       c_since c < l_seq l \/ forcedPending (pendingRequest (getRefreshState (c_slug c) s))) /\
    (jm_get loop (s_settled s) = Some (Ok tt) -> newerThan (c_since c) (c_slug c) s).

Definition caller_ok (c : Caller) (s : Svc) : Prop :=
  c_since c <= s_fetches s /\
  (forall loop, waitLoop (c_wait c) = Some loop ->
     is_Some (jm_get loop (s_settled s)) \/
     exists l, jm_get loop (s_loops s) = Some l /\ l_slug l = c_slug c) /\
  forced_ok c s.

(** The last snapshot of [slug] among those announced. *)
Definition lastOf (slug : string) (l : list (CollectionOfferSnapshot * string)) : option CollectionOfferSnapshot :=
  fold_left (fun acc p => if decide (sn_collectionSlug p.1 = slug) then Some p.1 else acc) l None.

Record svc_wf (s : Svc) : Prop := {
  w_states : jm_wf (s_states s);
  w_active : s_activeRefreshCount s = jm_sum (fun st => if refreshing st then 1 else 0) (s_states s);
  w_pending : s_pendingRefreshCount s = jm_sum (fun st => pendingCount (pendingRequest st)) (s_states s);
  w_running : forall slug st, jm_get slug (s_states s) = Some st ->
    idle st \/ refreshing st = true /\
      exists id l, inFlight st = Some id /\ jm_get id (s_loops s) = Some l /\ l_slug l = slug;
  w_loops : forall id l, jm_get id (s_loops s) = Some l ->
    exists st, jm_get (l_slug l) (s_states s) = Some st /\ refreshing st = true /\ inFlight st = Some id;
  w_drained : s_stopped s = true -> forall slug st, jm_get slug (s_states s) = Some st -> pendingRequest st = None;
  w_snapshots : forall slug sn, jm_get slug (s_snapshots s) = Some sn ->
    sn_collectionSlug sn = slug /\ complete (sn_metrics sn) = true /\ sn_refreshedAt sn <= s_now s /\
    (exists reason, In (sn, reason) (s_notified s)) /\ is_Some (jm_get slug (s_fetchedBy s));
  w_fetched : forall slug seq, jm_get slug (s_fetchedBy s) = Some seq ->
    seq <= s_fetches s /\ is_Some (jm_get slug (s_snapshots s));
  w_fresher : forall id l, jm_get id (s_loops s) = Some l -> l_seq l <= s_fetches s /\
    forall seq, jm_get (l_slug l) (s_fetchedBy s) = Some seq -> seq < l_seq l;
  w_ids : forall id, s_nextId s <= id ->
    jm_get id (s_loops s) = None /\ jm_get id (s_settled s) = None /\ jm_get id (s_callers s) = None;
  w_once : forall id r, jm_get id (s_settled s) = Some r -> jm_get id (s_loops s) = None;
  w_callers : forall id c, jm_get id (s_callers s) = Some c -> caller_ok c s;
  w_returned : forall c, In (c, Refreshed) (s_returned s) -> c_respectTtl c = false -> s_stopped s = false ->
    newerThan (c_since c) (c_slug c) s;
  w_failures : forall slug st, jm_get slug (s_states s) = Some st -> 0 <= failureCount st /\
    (failureCount st = 0 <-> nextEligibleRefreshAt st = None);
  w_notified : forall sn reason, In (sn, reason) (s_notified s) -> complete (sn_metrics sn) = true;
  w_last : forall slug, jm_get slug (s_snapshots s) = lastOf slug (s_notified s);
}.

Lemma svc_create_wf slugs now : svc_wf (create slugs now).
Proof. split; simpl; try done. apply jm_wf_nil. Qed.

(** ** Closed forms *)

Lemma getRefreshState_set slug st a p s : getRefreshState slug (with_state slug st a p s) = st.
Proof. unfold getRefreshState. simpl. by rewrite jm_get_set_eq. Qed.

Lemma getRefreshState_get slug s st : jm_get slug (s_states s) = Some st -> getRefreshState slug s = st.
Proof. intros H. unfold getRefreshState. by rewrite H. Qed.

Lemma svc_with_state_twice slug st st' a a' p p' s :
  with_state slug st a p (with_state slug st' a' p' s) = with_state slug st a p s.
Proof. unfold with_state. simpl. by rewrite jm_set_set. Qed.

Definition ended (st : CollectionRefreshState) : CollectionRefreshState := {|
  refreshing := false; pendingRequest := None; inFlight := None; failureCount := failureCount st;
  lastStartedAt := lastStartedAt st; lastError := lastError st;
  nextEligibleRefreshAt := nextEligibleRefreshAt st |}.

Lemma finishLoop_eq id l r s : let st := getRefreshState (l_slug l) s in
  finishLoop id l r s =
    settleLoop id r (with_state (l_slug l) (ended st) (s_activeRefreshCount s - 1)
                       (s_pendingRefreshCount s - pendingCount (pendingRequest st)) s).
Proof.
  intros st. unfold finishLoop, clearPendingRequest. rewrite !getRefreshState_set.
  rewrite !svc_with_state_twice. done.
Qed.

(** ** Calls and waits *)

Lemma returns_wf c r s : svc_wf s ->
  (r = Refreshed -> c_respectTtl c = false -> s_stopped s = false -> newerThan (c_since c) (c_slug c) s) ->
  svc_wf (returns c r s).
Proof.
  intros [] Hr. split; try done. simpl. intros c' [Hin|[Hin|[]]]%in_app_or; [by apply w_returned0|].
  simplify_eq. by apply Hr.
Qed.

Lemma forget_wf id s : svc_wf s -> svc_wf (with_callers (jm_del id (s_callers s)) s).
Proof.
  intros []. split; try done; simpl.
  - intros id' Hid. destruct (w_ids0 id' Hid) as (?&?&?). split_and!; try done.
    rewrite jm_get_del. by case_decide.
  - intros id' c. rewrite jm_get_del. case_decide; [done|]. by apply w_callers0.
Qed.

Lemma waitFor_wf c w s : svc_wf s ->
  caller_ok {| c_slug := c_slug c; c_reason := c_reason c; c_respectTtl := c_respectTtl c;
               c_since := c_since c; c_wait := w |} s ->
  svc_wf (waitFor c w s).
Proof.
  intros [] Hc. split; try done; simpl.
  - intros id Hid. destruct (w_ids0 id ltac:(lia)) as (?&?&?). split_and!; try done.
    rewrite jm_get_set. case_decide; [lia|done].
  - intros id c'. rewrite jm_get_set. case_decide; [intros [= <-]; exact Hc|]. by apply w_callers0.
Qed.

(** ** The state of a collection *)

(** Bookkeeping of failures and times leaves the rest alone. *)
Lemma retouch_wf slug st st' s : svc_wf s -> jm_get slug (s_states s) = Some st ->
  refreshing st' = refreshing st -> pendingRequest st' = pendingRequest st -> inFlight st' = inFlight st ->
  0 <= failureCount st' /\ (failureCount st' = 0 <-> nextEligibleRefreshAt st' = None) ->
  svc_wf (with_state slug st' (s_activeRefreshCount s) (s_pendingRefreshCount s) s).
Proof.
  intros [] E E1 E2 E3 Hf. split; try done; simpl.
  - by apply jm_wf_set.
  - rewrite jm_sum_set, E. simpl. rewrite E1. lia.
  - rewrite jm_sum_set, E. simpl. rewrite E2. lia.
  - intros slug' st1. rewrite jm_get_set. case_decide; [|by apply w_running0].
    intros [= <-]. subst. unfold idle. rewrite E1, E2, E3. by apply w_running0.
  - intros id l Hl. destruct (w_loops0 id l Hl) as (st1 & H1 & H2 & H3).
    rewrite jm_get_set. case_decide; [|by exists st1]. subst. exists st'. simplify_eq. by rewrite E1, E3.
  - intros Hs slug' st1. rewrite jm_get_set. case_decide; [|by apply w_drained0].
    intros [= <-]. rewrite E2. by apply (w_drained0 Hs slug).
  - intros id c Hc. destruct (w_callers0 id c Hc) as (Ha & Hb & Hd). split_and!; [done|done|].
    intros loop H1 H2 H3. destruct (Hd loop H1 H2 H3) as [Hl Hs]. split; [|done].
    intros l Hg. destruct (Hl l Hg) as [?|Hp]; [by left|right].
    unfold getRefreshState in *. simpl. rewrite jm_get_set. case_decide; [|done]. subst.
    simpl. rewrite E2. by rewrite E in Hp.
  - intros slug' st1. rewrite jm_get_set. case_decide; [by intros [= <-]|by apply w_failures0].
Qed.

(** A request joins the pending one of a refresh in flight. *)
Lemma svc_coalesce_wf slug st p s : svc_wf s -> jm_get slug (s_states s) = Some st -> refreshing st = true ->
  s_stopped s = false -> (forcedPending (pendingRequest st) -> pr_respectTtl p = false) ->
  svc_wf (with_state slug (st_set_pending (Some p) st) (s_activeRefreshCount s)
            (s_pendingRefreshCount s + (1 - pendingCount (pendingRequest st))) s).
Proof.
  intros [] E Er Hs Hp. split; try done; simpl.
  - by apply jm_wf_set.
  - rewrite jm_sum_set, E. simpl. lia.
  - rewrite jm_sum_set, E. simpl. lia.
  - intros slug' st1. rewrite jm_get_set. case_decide; [|by apply w_running0].
    intros [= <-]. subst. right. split; [done|].
    destruct (w_running0 _ _ E) as [[? _]|[_ Hl]]; [congruence|exact Hl].
  - intros id l Hl. destruct (w_loops0 id l Hl) as (st1 & H1 & H2 & H3).
    rewrite jm_get_set. case_decide; [|by exists st1]. subst. simplify_eq. eexists. split; [done|]. done.
  - congruence.
  - intros id c Hc. destruct (w_callers0 id c Hc) as (Ha & Hb & Hd). split_and!; [done|done|].
    intros loop H1 H2 H3. destruct (Hd loop H1 H2 H3) as [Hl Hset]. split; [|done].
    intros l Hg. destruct (Hl l Hg) as [?|Hf]; [by left|right].
    unfold getRefreshState in *. simpl. rewrite jm_get_set. case_decide; [|done]. subst.
    rewrite E in Hf. exists p. split; [done|]. by apply Hp.
  - intros slug' st1. rewrite jm_get_set. case_decide; [|by apply w_failures0].
    intros [= <-]. by apply (w_failures0 slug st).
Qed.

Definition begun (loop now : Z) (st : CollectionRefreshState) : CollectionRefreshState :=
  st_set_running true (Some loop) (Some now) st.

(** A refresh starts. *)
Lemma startLoop_wf slug reason s : svc_wf s -> refreshing (getRefreshState slug s) = false ->
  svc_wf (callSource (s_nextId s) slug reason (takeId
    (with_state slug (begun (s_nextId s) (s_now s) (getRefreshState slug s)) (s_activeRefreshCount s + 1)
       (s_pendingRefreshCount s) s))).
Proof.
  intros [] Er. set (st := getRefreshState slug s) in *.
  assert (idle st /\ 0 <= failureCount st /\ (failureCount st = 0 <-> nextEligibleRefreshAt st = None)) as [Hi Hf].
  { unfold st, getRefreshState in *. destruct (jm_get slug (s_states s)) as [st0|] eqn:E; simpl in *.
    - split; [|by apply (w_failures0 slug)]. destruct (w_running0 _ _ E) as [?|[? _]]; [done|congruence].
    - split; [done|]. simpl. split; [lia|done]. }
  assert (of_opt (fun st => if refreshing st then 1 else 0) (jm_get slug (s_states s)) = 0 /\
    of_opt (fun st => pendingCount (pendingRequest st)) (jm_get slug (s_states s)) = 0) as [Ho1 Ho2].
  { unfold st, getRefreshState in Hi. destruct (jm_get slug (s_states s)) as [st0|]; simpl in *; [|done].
    destruct Hi as (-> & -> & _). done. }
  destruct Hi as (Hi1 & Hi2 & Hi3). destruct (w_ids0 (s_nextId s) ltac:(lia)) as (Hn1 & Hn2 & Hn3).
  split; try done; simpl.
  - by apply jm_wf_set.
  - rewrite jm_sum_set. simpl. lia.
  - rewrite jm_sum_set. simpl. rewrite Hi2. simpl. lia.
  - intros slug' st1. rewrite jm_get_set. case_decide; subst.
    + intros [= <-]. right. split; [done|]. eexists _, _. split; [done|]. by rewrite jm_get_set_eq.
    + intros Hg. destruct (w_running0 _ _ Hg) as [?|(? & id & l & ? & Hl & ?)]; [by left|right].
      split; [done|]. exists id, l. split_and!; [done| |done]. rewrite jm_get_set. case_decide; [congruence|done].
  - intros id l. rewrite jm_get_set. case_decide; subst.
    + intros [= <-]. simpl. rewrite jm_get_set_eq. eexists. by split.
    + intros Hl. destruct (w_loops0 id l Hl) as (st1 & H1 & H2 & H3). exists st1. split_and!; [|done|done].
      rewrite jm_get_set. case_decide; [|done]. subst. unfold st in Hi1.
      rewrite (getRefreshState_get _ _ _ H1) in Hi1. congruence.
  - intros Hs slug' st1. rewrite jm_get_set. case_decide; [|by apply w_drained0]. by intros [= <-].
  - intros slug' seq Hq. destruct (w_fetched0 _ _ Hq). split; [lia|done].
  - intros id l. rewrite jm_get_set. case_decide; subst.
    + intros [= <-]. simpl. split; [lia|]. intros seq Hq. destruct (w_fetched0 _ _ Hq). lia.
    + intros Hl. destruct (w_fresher0 id l Hl). split; [lia|done].
  - intros id Hid. destruct (w_ids0 id ltac:(lia)) as (?&?&?). split_and!; try done.
    rewrite jm_get_set. case_decide; [lia|done].
  - intros id r Hr. rewrite jm_get_set. case_decide; [congruence|by apply (w_once0 id r)].
  - intros id c Hc. destruct (w_callers0 id c Hc) as (Ha & Hb & Hd). unfold caller_ok. simpl.
    assert (forall loop, waitLoop (c_wait c) = Some loop -> loop <> s_nextId s) as Hold.
    { intros loop Hw ->. destruct (Hb _ Hw) as [[? ?]|(l & Hl & _)]; congruence. }
    split_and!; [lia| |].
    + intros loop Hw. destruct (Hb loop Hw) as [?|(l & Hl & ?)]; [by left|right]. exists l. split; [|done].
      rewrite jm_get_set. case_decide; [by destruct (Hold loop)|done].
    + intros loop H1 H2 H3. destruct (Hd loop H1 H2 H3) as [Hl Hset]. split; [|done].
      intros l. simpl. rewrite jm_get_set. case_decide; [by destruct (Hold loop); [rewrite H2|]|].
      intros Hg. destruct (Hl l Hg) as [?|Hp]; [by left|right].
      unfold getRefreshState. simpl. rewrite jm_get_set. case_decide; [|done]. subst.
      unfold st in Hi2. destruct Hp as (q & Hq & _). congruence.
  - intros slug' st1. rewrite jm_get_set. case_decide; [by intros [= <-]|by apply w_failures0].
Qed.

(** ** The end of a fetch *)

Lemma loop_state id l s : svc_wf s -> jm_get id (s_loops s) = Some l ->
  let st := getRefreshState (l_slug l) s in
  jm_get (l_slug l) (s_states s) = Some st /\ refreshing st = true /\ inFlight st = Some id.
Proof.
  intros W Hl. destruct (w_loops _ W _ _ Hl) as (st & E & H1 & H2).
  rewrite (getRefreshState_get _ _ _ E). done.
Qed.

Lemma loops_unique id id' l l' s : svc_wf s -> jm_get id (s_loops s) = Some l ->
  jm_get id' (s_loops s) = Some l' -> l_slug l = l_slug l' -> id = id'.
Proof.
  intros W H1 H2 E. apply (loop_state _ _ _ W) in H1 as (H1 & _ & F1). apply (loop_state _ _ _ W) in H2 as (H2 & _ & F2).
  rewrite E in *. congruence.
Qed.

(** A complete book of the collection, fetched by the loop. *)
Definition book_of (l : Loop) (sn : CollectionOfferSnapshot) (s : Svc) : Prop :=
  sn_collectionSlug sn = l_slug l /\ complete (sn_metrics sn) = true /\ sn_refreshedAt sn <= s_now s.

Lemma newer_store id l sn reason since slug s : svc_wf s -> jm_get id (s_loops s) = Some l -> book_of l sn s ->
  newerThan since slug s -> newerThan since slug (storeSnapshot sn (l_seq l) reason s).
Proof.
  intros W Hl (E & _ & _) (seq & Hs & Hlt). unfold newerThan. simpl. rewrite E, jm_get_set.
  case_decide; [|by exists seq]. subst. eexists. split; [done|].
  destruct (w_fresher _ W _ _ Hl) as [_ Hf]. specialize (Hf _ Hs). lia.
Qed.

Lemma store_snapshots id l sn reason s : svc_wf s -> jm_get id (s_loops s) = Some l -> book_of l sn s ->
  forall slug sn', jm_get slug (s_snapshots (storeSnapshot sn (l_seq l) reason s)) = Some sn' ->
    sn_collectionSlug sn' = slug /\ complete (sn_metrics sn') = true /\ sn_refreshedAt sn' <= s_now s /\
    (exists reason', In (sn', reason') (s_notified s ++ [(sn, reason)])) /\
    is_Some (jm_get slug (s_fetchedBy (storeSnapshot sn (l_seq l) reason s))).
Proof.
  intros W Hl (E & Hc & Hn) slug sn'. simpl. rewrite !jm_get_set. case_decide.
  - intros [= <-]. split_and!; [done|done|done| |done]. exists reason. apply in_or_app. right. by left.
  - intros Hg. destruct (w_snapshots _ W _ _ Hg) as (?&?&?&(r&Hr)&?). split_and!; try done.
    exists r. apply in_or_app. by left.
Qed.

Lemma store_fetched id l sn reason s : svc_wf s -> jm_get id (s_loops s) = Some l ->
  forall slug seq, jm_get slug (s_fetchedBy (storeSnapshot sn (l_seq l) reason s)) = Some seq ->
    seq <= s_fetches s /\ is_Some (jm_get slug (s_snapshots (storeSnapshot sn (l_seq l) reason s))).
Proof.
  intros W Hl slug seq. simpl. rewrite !jm_get_set. case_decide; [|by apply w_fetched].
  intros [= <-]. split; [|done]. by apply (w_fresher _ W _ _ Hl).
Qed.

Lemma store_notified l sn reason s : svc_wf s -> book_of l sn s ->
  (forall sn' r, In (sn', r) (s_notified (storeSnapshot sn (l_seq l) reason s)) -> complete (sn_metrics sn') = true) /\
  (forall slug, jm_get slug (s_snapshots (storeSnapshot sn (l_seq l) reason s)) =
                lastOf slug (s_notified (storeSnapshot sn (l_seq l) reason s))).
Proof.
  intros W (E & Hc & Hn). simpl. split.
  - intros sn' r [Hin|[Hin|[]]]%in_app_or; [by apply (w_notified _ W sn' r)|by simplify_eq].
  - intros slug. rewrite jm_get_set, (w_last _ W). unfold lastOf. by rewrite fold_left_app.
Qed.

(** The refresh ends, with its book stored or with an error. *)
Lemma svc_finish_wf id l r s s1 : svc_wf s -> jm_get id (s_loops s) = Some l ->
  s1 = s /\ r <> Ok tt \/
    (exists sn reason, s1 = storeSnapshot sn (l_seq l) reason s /\ book_of l sn s /\
       ~ forcedPending (pendingRequest (getRefreshState (l_slug l) s))) ->
  svc_wf (settleLoop id r (with_state (l_slug l) (ended (getRefreshState (l_slug l) s)) (s_activeRefreshCount s - 1)
    (s_pendingRefreshCount s - pendingCount (pendingRequest (getRefreshState (l_slug l) s))) s1)).
Proof.
  intros W Hl Hs1. destruct (loop_state _ _ _ W Hl) as (E & Er & Ei). pose proof (loops_unique id) as Hu.
  set (st := getRefreshState (l_slug l) s) in *.
  assert (s_states s1 = s_states s /\ s_loops s1 = s_loops s /\ s_settled s1 = s_settled s /\ s_callers s1 = s_callers s /\
    s_returned s1 = s_returned s /\ s_nextId s1 = s_nextId s /\ s_fetches s1 = s_fetches s /\ s_now s1 = s_now s /\
    s_stopped s1 = s_stopped s /\
    (forall since slug, newerThan since slug s -> newerThan since slug s1)) as (F1&F2&F3&F4&F5&F6&F7&F8&F9&Hnew).
  { destruct Hs1 as [[-> _]|(sn & reason & -> & Hb & _)]; [by split_and!|]. split_and!; try done.
    intros since slug. by apply (newer_store id). }
  split; simpl; rewrite ?F1, ?F2, ?F3, ?F4, ?F5, ?F6, ?F7, ?F8, ?F9.
  - apply jm_wf_set, W.
  - rewrite jm_sum_set, E, (w_active _ W). simpl. rewrite Er. lia.
  - rewrite jm_sum_set, E, (w_pending _ W). simpl. lia.
  - intros slug st1. rewrite jm_get_set. case_decide as Hd; [intros [= <-]; by left|].
    intros Hg. destruct (w_running _ W _ _ Hg) as [?|(? & id' & l' & ? & Hl' & ?)]; [by left|right].
    split; [done|]. exists id', l'. split_and!; [done| |done]. rewrite jm_get_del.
    case_decide; [|done]. by simplify_eq.
  - intros id' l'. rewrite jm_get_del. case_decide as Hd; [done|]. intros Hg.
    destruct (w_loops _ W _ _ Hg) as (st1 & H1 & H2 & H3). exists st1. split_and!; [|done|done].
    rewrite jm_get_set. case_decide as Hd'; [|done]. exfalso. by apply Hd, (Hu id' l l' s).
  - intros Hst slug st1. rewrite jm_get_set. case_decide; [by intros [= <-]|by apply (w_drained _ W)].
  - destruct Hs1 as [[-> _]|(sn & reason & -> & Hb & _)]; [apply W|]. by apply (store_snapshots id).
  - destruct Hs1 as [[-> _]|(sn & reason & -> & Hb & _)]; [apply W|]. by apply (store_fetched id).
  - intros id' l'. rewrite jm_get_del. case_decide as Hd; [done|]. intros Hg.
    destruct (w_fresher _ W _ _ Hg) as [? Hf]. split; [done|].
    destruct Hs1 as [[-> _]|(sn & reason & -> & Hb & _)]; [done|]. simpl. destruct Hb as (-> & _ & _).
    rewrite jm_get_set. case_decide as Hd'; [|done]. exfalso. by apply Hd, (Hu id' l l' s).
  - intros id' Hid. destruct (w_ids _ W id' Hid) as (H1&H2&H3). rewrite jm_get_del, jm_get_set.
    case_decide; [congruence|done].
  - intros id' r'. rewrite jm_get_set, jm_get_del. case_decide; [done|]. apply (w_once _ W).
  - intros id' c Hc. destruct (w_callers _ W id' c Hc) as (Ha & Hb & Hd). unfold caller_ok. simpl.
    rewrite F2, F3, F7. split_and!; [done| |].
    + intros loop Hw. rewrite jm_get_set, jm_get_del. case_decide; [left; by eexists|]. by apply Hb.
    + intros loop H1 H2. simpl. rewrite F9, F3, F2, jm_get_set, jm_get_del. intros H3.
      destruct (Hd loop H1 H2 H3) as [Hlive Hset]. case_decide as Hd'; subst; (split; [try done|]).
      * intros [= ->]. destruct Hs1 as [[-> Hne]|(sn & reason & -> & Hbk & Hnf)]; [done|].
        destruct (Hb loop) as [[? Hx]|(l2 & Hl2 & E2)]; [by rewrite H2|by rewrite (w_once _ W _ _ Hx) in Hl|].
        simplify_eq. unfold newerThan. simpl. destruct Hbk as (-> & _ & _). rewrite <- E2, jm_get_set_eq.
        eexists. split; [done|]. destruct (Hlive _ Hl) as [?|Hf]; [done|]. by rewrite <- E2 in Hf.
      * intros l2 Hg. destruct (Hlive _ Hg) as [?|Hf]; [by left|right].
        unfold getRefreshState in *. simpl. rewrite F1, jm_get_set. case_decide as Hd2; [|done].
        exfalso. destruct (Hb loop) as [[? Hx]|(l3 & Hl3 & E3)]; [by rewrite H2|by rewrite (w_once _ W _ _ Hx) in Hg|].
        apply Hd'. apply (Hu loop l l3 s); congruence.
      * intros Hx. by apply Hnew, Hset.
  - intros c Hin H1 H2. by apply Hnew, (w_returned _ W).
  - intros slug st1. rewrite jm_get_set. case_decide; [intros [= <-]; by apply (w_failures _ W (l_slug l) st)|apply (w_failures _ W)].
  - destruct Hs1 as [[-> _]|(sn & reason & -> & Hb & _)]; [apply W|]. by apply (store_notified l sn reason s W Hb).
  - destruct Hs1 as [[-> _]|(sn & reason & -> & Hb & _)]; [apply W|]. by apply (store_notified l sn reason s W Hb).
Qed.

(** The refresh stores its book and fetches once more for the pending request. *)
Lemma continue_wf id l sn reason reason' s : svc_wf s -> jm_get id (s_loops s) = Some l -> book_of l sn s ->
  let st := getRefreshState (l_slug l) s in
  svc_wf (callSource id (l_slug l) reason' (with_state (l_slug l)
    (st_set_running (refreshing st) (inFlight st) (Some (s_now s)) (st_set_pending None st))
    (s_activeRefreshCount s) (s_pendingRefreshCount s - pendingCount (pendingRequest st))
    (storeSnapshot sn (l_seq l) reason s))).
Proof.
  intros W Hl Hb. destruct (loop_state _ _ _ W Hl) as (E & Er & Ei). pose proof (loops_unique id) as Hu.
  set (st := getRefreshState (l_slug l) s) in *. intros st0. subst st0. fold st.
  assert (forall since slug, newerThan since slug s -> newerThan since slug (storeSnapshot sn (l_seq l) reason s)) as Hnew.
  { intros since slug. by apply (newer_store id). }
  split; simpl.
  - apply jm_wf_set, W.
  - rewrite jm_sum_set, E, (w_active _ W). simpl. rewrite Er. lia.
  - rewrite jm_sum_set, E, (w_pending _ W). simpl. lia.
  - intros slug st1. rewrite jm_get_set. case_decide as Hd; subst.
    { intros [= <-]. right. split; [done|]. exists id. eexists. split; [exact Ei|]. by rewrite jm_get_set_eq. }
    intros Hg. destruct (w_running _ W _ _ Hg) as [?|(? & id' & l' & ? & Hl' & ?)]; [by left|right].
    split; [done|]. exists id', l'. split_and!; [done| |done]. rewrite jm_get_set.
    case_decide; [|done]. by simplify_eq.
  - intros id' l'. rewrite jm_get_set. case_decide as Hd; subst.
    { intros [= <-]. simpl. rewrite jm_get_set_eq. by eexists. }
    intros Hg. destruct (w_loops _ W _ _ Hg) as (st1 & H1 & H2 & H3). exists st1. split_and!; [|done|done].
    rewrite jm_get_set. case_decide as Hd'; [|done]. exfalso. by apply Hd, (Hu id' l l' s).
  - intros Hst slug st1. rewrite jm_get_set. case_decide; [by intros [= <-]|by apply (w_drained _ W)].
  - by apply (store_snapshots id).
  - intros slug seq Hs. destruct (store_fetched id l sn reason s W Hl slug seq Hs). split; [lia|done].
  - intros id' l'. rewrite jm_get_set. case_decide as Hd; subst.
    + intros [= <-]. simpl. split; [lia|]. intros seq Hs.
      destruct (store_fetched id' l sn reason s W Hl (l_slug l) seq Hs). lia.
    + intros Hg. destruct (w_fresher _ W _ _ Hg) as [? Hf]. split; [lia|].
      destruct Hb as (-> & _ & _). rewrite jm_get_set. case_decide as Hd'; [|done].
      exfalso. by apply Hd, (Hu id' l l' s).
  - intros id' Hid. destruct (w_ids _ W id' Hid) as (H1&H2&H3). rewrite jm_get_set. case_decide; [congruence|done].
  - intros id' r' Hr. rewrite jm_get_set. pose proof (w_once _ W _ _ Hr). case_decide; [congruence|done].
  - intros id' c Hc. destruct (w_callers _ W id' c Hc) as (Ha & Hw & Hd). unfold caller_ok. simpl. split_and!; [lia| |].
    + intros loop H1. destruct (Hw loop H1) as [?|(l2 & Hl2 & E2)]; [by left|right].
      rewrite jm_get_set. case_decide; [|by exists l2]. subst. eexists. split; [done|]. simpl. congruence.
    + intros loop H1 H2. simpl. intros H3. destruct (Hd loop H1 H2 H3) as [Hlive Hset].
      split; [|intros Hx; by apply Hnew, Hset].
      intros l2. rewrite jm_get_set. case_decide as Hd'; [intros [= <-]; left; simpl; lia|].
      intros Hg. destruct (Hlive _ Hg) as [?|Hf]; [by left|right].
      unfold getRefreshState in *. simpl. rewrite jm_get_set. case_decide as Hd2; [|done].
      exfalso. destruct (Hw loop) as [[? Hx]|(l3 & Hl3 & E3)]; [by rewrite H2|by rewrite (w_once _ W _ _ Hx) in Hg|].
      apply Hd'. apply (Hu loop l l3 s); congruence.
  - intros c Hin H1 H2. by apply Hnew, (w_returned _ W).
  - intros slug st1. rewrite jm_get_set. case_decide; [intros [= <-]; by apply (w_failures _ W (l_slug l) st)|apply (w_failures _ W)].
  - by apply (store_notified l sn reason s W Hb).
  - by apply (store_notified l sn reason s W Hb).
Qed.

(** ** Stop *)

Definition with_pending states p (s : Svc) : Svc := {| s_watched := s_watched s; s_snapshots := s_snapshots s;
  s_states := states; s_activeRefreshCount := s_activeRefreshCount s;
  s_pendingRefreshCount := p; s_started := s_started s; s_stopped := s_stopped s;
  s_pollTimer := s_pollTimer s; s_loops := s_loops s; s_callers := s_callers s; s_settled := s_settled s;
  s_nextId := s_nextId s; s_now := s_now s; s_fetches := s_fetches s; s_fetchedBy := s_fetchedBy s;
  s_returned := s_returned s; s_notified := s_notified s |}.

Definition clearAll (slugs : list string) (s : Svc) : Svc :=
  fold_left (fun s slug => clearPendingRequest slug (getRefreshState slug s) s) slugs s.

(** Clearing the pending requests of [slugs] changes nothing else. *)
Lemma svc_clearAll_spec slugs : forall s, jm_wf (s_states s) ->
  s_activeRefreshCount s = jm_sum (fun st => if refreshing st then 1 else 0) (s_states s) ->
  s_pendingRefreshCount s = jm_sum (fun st => pendingCount (pendingRequest st)) (s_states s) ->
  (forall slug, In slug slugs -> is_Some (jm_get slug (s_states s))) ->
  exists X p, clearAll slugs s = with_pending X p s /\ jm_wf X /\
    jm_sum (fun st => if refreshing st then 1 else 0) X = s_activeRefreshCount s /\
    jm_sum (fun st => pendingCount (pendingRequest st)) X = p /\
    forall slug, jm_get slug X =
      (if bool_decide (slug ∈ slugs) then st_set_pending None else fun st => st) <$> jm_get slug (s_states s).
Proof.
  induction slugs as [|x slugs IH] using rev_ind; intros s W1 W2 W3 Hin.
  { exists (s_states s), (s_pendingRefreshCount s). split_and!; [by destruct s|done|done|done|].
    intros slug. rewrite bool_decide_eq_false_2 by apply not_elem_of_nil. by destruct (jm_get slug _). }
  destruct (IH s W1 W2 W3) as (X & p & E & Hwf & Ha & Hp & Hg).
  { intros slug Hs. apply Hin, in_or_app. by left. }
  unfold clearAll in *. rewrite fold_left_app, E. simpl.
  destruct (Hin x) as [st Hst]; [apply in_or_app; right; by left|].
  specialize (Hg x) as Hx. rewrite Hst in Hx. simpl in Hx.
  set (st' := (if bool_decide (x ∈ slugs) then st_set_pending None else fun st => st) st) in *.
  assert (refreshing st' = refreshing st) as Er by (unfold st'; by case_bool_decide).
  eexists _, _. unfold clearPendingRequest. rewrite (getRefreshState_get _ _ st') by exact Hx.
  split_and!; [reflexivity|by apply jm_wf_set| | |].
  - simpl. rewrite jm_sum_set, Hx. simpl. lia.
  - simpl. rewrite jm_sum_set, Hx. simpl. lia.
  - intros slug. simpl. rewrite jm_get_set. case_decide as Hd.
    + subst. rewrite Hst, bool_decide_eq_true_2 by set_solver. simpl. f_equal. unfold st'. by case_bool_decide.
    + rewrite Hg. destruct (bool_decide (slug ∈ slugs)) eqn:Eb.
      * apply bool_decide_eq_true in Eb. by rewrite bool_decide_eq_true_2 by set_solver.
      * apply bool_decide_eq_false in Eb. by rewrite bool_decide_eq_false_2 by set_solver.
Qed.

Lemma svc_stop_wf s : svc_wf s -> svc_wf (stop s).
Proof.
  intros W. unfold stop. destruct (s_stopped s) eqn:Es; [done|].
  set (s0 := with_watch _ _ _).
  change (fold_left _ _ s0) with (clearAll (jm_keys (s_states s0)) s0).
  destruct (svc_clearAll_spec (jm_keys (s_states s0)) s0) as (X & p & -> & Hwf & Ha & Hp & Hg); [apply W..| |].
  { intros slug Hin. destruct (jm_get slug (s_states s0)) eqn:E; [done|]. by apply jm_get_None in E. }
  assert (forall slug, jm_get slug X = st_set_pending None <$> jm_get slug (s_states s)) as HX.
  { intros slug. rewrite Hg. change (s_states s0) with (s_states s). case_bool_decide as Hk; [done|].
    assert (jm_get slug (s_states s) = None) as ->; [|done].
    apply jm_get_None. by rewrite <- list_elem_of_In. }
  clear Hg. destruct W. split; try done; simpl.
  - intros slug st. rewrite HX. destruct (jm_get slug (s_states s)) as [st0|] eqn:E; [|done]. intros [= <-].
    destruct (w_running0 _ _ E) as [(?&?&?)|?]; [by left|by right].
  - intros id l Hl. destruct (w_loops0 id l Hl) as (st & E & ?). rewrite HX, E. by eexists.
  - intros _ slug st. rewrite HX. destruct (jm_get slug (s_states s)); [|done]. by intros [= <-].
  - intros id c Hc. destruct (w_callers0 id c Hc) as (?&?&_). split_and!; [done|done|]. by intros loop _ _ ?.
  - intros slug st. rewrite HX. destruct (jm_get slug (s_states s)) as [st0|] eqn:E; [|done]. intros [= <-].
    by apply (w_failures0 slug st0).
Qed.

(** ** Operations *)

Lemma waiting_ok c w s : c_since c <= s_fetches s ->
  (forall loop, waitLoop w = Some loop ->
     is_Some (jm_get loop (s_settled s)) \/ exists l, jm_get loop (s_loops s) = Some l /\ l_slug l = c_slug c) ->
  (forall loop, w <> Following loop) ->
  caller_ok {| c_slug := c_slug c; c_reason := c_reason c; c_respectTtl := c_respectTtl c;
               c_since := c_since c; c_wait := w |} s.
Proof. intros H1 H2 H3. split_and!; [done|done|]. intros loop _ E. by destruct (H3 loop). Qed.

Lemma refreshCollection_wf c s : svc_wf s -> c_since c <= s_fetches s -> s_stopped s = false ->
  svc_wf (refreshCollection c s).
Proof.
  intros W Hc Hs. unfold refreshCollection. destruct (refreshing _) eqn:Er.
  - set (st := getRefreshState (c_slug c) s) in *.
    assert (jm_get (c_slug c) (s_states s) = Some st) as E.
    { unfold st, getRefreshState in *. by destruct (jm_get _ _). }
    set (p := mergePendingRefreshRequest _ _).
    assert (svc_wf (with_state (c_slug c) (st_set_pending (Some p) st) (s_activeRefreshCount s)
      (s_pendingRefreshCount s + (1 - pendingCount (pendingRequest st))) s)) as W'.
    { apply svc_coalesce_wf; try done. intros (q & E1 & Hq). unfold p. rewrite E1. simpl. by rewrite Hq. }
    destruct (w_running _ W _ _ E) as [(?&?&?)|(_ & id & l & -> & Hl & El)]; [congruence|].
    apply waitFor_wf; [exact W'|]. split_and!; simpl; [done| |].
    + intros loop [= <-]. right. by exists l.
    + intros loop; simpl. intros Ht [= <-] _. split.
      * intros l' _. right. rewrite getRefreshState_set. exists p. split; [done|].
        unfold p. rewrite Ht. simpl. destruct (pendingRequest st) as [q|]; simpl; [by rewrite andb_false_r|done].
      * intros Hx. by rewrite (w_once _ W _ _ Hx) in Hl.
  - pose proof (startLoop_wf (c_slug c) (c_reason c) s W Er) as W'.
    apply waitFor_wf; [exact W'|]. split_and!; simpl; [lia| |].
    + intros loop [= <-]. right. rewrite jm_get_set_eq. by eexists.
    + intros loop; simpl. intros Ht [= <-] _. split.
      * intros l'. rewrite jm_get_set_eq. intros [= <-]. left. simpl. lia.
      * intros Hx. destruct (w_ids _ W (s_nextId s) ltac:(lia)) as (_ & Hx' & _). simpl in Hx. congruence.
Qed.

Lemma svc_watch_wf watched timer s : svc_wf s -> svc_wf (with_watch watched timer s).
Proof. intros []. by split. Qed.

Lemma started_wf b s : svc_wf s -> svc_wf (with_run b (s_stopped s) s).
Proof. intros []. by split. Qed.

Lemma svc_tick_wf d s : 0 <= d -> svc_wf s -> svc_wf (with_now (s_now s + d) s).
Proof.
  intros Hd []. split; try done; simpl. intros slug sn Hs.
  destruct (w_snapshots0 _ _ Hs) as (?&?&?&?&?). split_and!; try done. lia.
Qed.

Section Service.
Context (config : Config).

Lemma afterJoin_wf c s : svc_wf s -> c_since c <= s_fetches s -> svc_wf (afterJoin c s).
Proof.
  intros W Hc. unfold afterJoin. destruct (s_stopped s) eqn:Es; [by apply returns_wf|].
  destruct (_ && _); [by apply returns_wf|by apply refreshCollection_wf].
Qed.

Lemma probe_wf c s : svc_wf s -> c_since c <= s_fetches s -> svc_wf (waitFor c Probed s).
Proof. intros W Hc. apply waitFor_wf; [done|]. by apply waiting_ok. Qed.

Lemma refreshAndWait_wf slug reason respectTtl s : svc_wf s -> svc_wf (refreshAndWait config slug reason respectTtl s).
Proof.
  intros W. unfold refreshAndWait. destruct (s_stopped s); [by apply returns_wf|].
  destruct (negb _); [by apply returns_wf|]. destruct (_ && _); [by apply returns_wf|].
  destruct (negb respectTtl); [apply afterJoin_wf; simpl; [done|lia]|].
  destruct (refreshing (getRefreshState slug s)) eqn:Er; [|apply probe_wf; simpl; [done|lia]].
  destruct (inFlight (getRefreshState slug s)) as [loop|] eqn:Ei; [|apply probe_wf; simpl; [done|lia]].
  assert (jm_get slug (s_states s) = Some (getRefreshState slug s)) as E.
  { unfold getRefreshState in *. by destruct (jm_get slug _). }
  apply waitFor_wf; [done|]. apply waiting_ok; simpl; [lia| |done].
  intros loop' [= <-]. right.
  destruct (w_running _ W _ _ E) as [(?&?&?)|(_ & id & l & Hi & Hl & El)]; [congruence|].
  exists l. split; [congruence|done].
Qed.

Lemma resume_wf id s s' : svc_wf s -> resume config id s = Some s' -> svc_wf s'.
Proof.
  intros W. unfold resume. destruct (jm_get id (s_callers s)) as [c|] eqn:Ec; [|done].
  pose proof (forget_wf id s W) as W'. destruct (w_callers _ W _ _ Ec) as (Hc & Hw & Hf).
  destruct (c_wait c) as [|loop|loop] eqn:Ew.
  - intros [= <-]. by apply afterJoin_wf.
  - destruct (jm_get loop (s_settled s)) as [[[]|e]|] eqn:Es; [| |done]; intros [= <-]; [|by apply returns_wf].
    destruct (isSnapshotFresh _ _ _); [by apply returns_wf|by apply probe_wf].
  - destruct (jm_get loop (s_settled s)) as [[[]|e]|] eqn:Es; [| |done]; intros [= <-]; [|by apply returns_wf].
    apply returns_wf; [done|]. intros _ Ht Hs. by apply (Hf loop).
Qed.

Lemma requestRefresh_wf slug reason s : svc_wf s -> svc_wf (requestRefresh config slug reason s).
Proof.
  intros W. unfold requestRefresh. destruct (s_stopped s); [done|]. destruct (negb _); [done|].
  by apply refreshAndWait_wf.
Qed.

Lemma scheduleNextPoll_wf s : svc_wf s -> svc_wf (scheduleNextPoll config s).
Proof. intros W. unfold scheduleNextPoll. destruct (_ || _); by apply svc_watch_wf. Qed.

Lemma svc_start_wf s : svc_wf s -> svc_wf (start config s).
Proof.
  intros W. unfold start. destruct (_ || _); [done|]. case_match; [by apply started_wf|].
  by apply scheduleNextPoll_wf, started_wf.
Qed.

Lemma fold_wf {A} (f : Svc -> A -> Svc) l s : (forall s x, svc_wf s -> svc_wf (f s x)) -> svc_wf s -> svc_wf (fold_left f l s).
Proof. intros Hf. revert s. induction l as [|x l IH]; intros s W; simpl; [done|]. by apply IH, Hf. Qed.

Lemma firePoll_wf s s' : svc_wf s -> firePoll config s = Some s' -> svc_wf s'.
Proof.
  intros W. unfold firePoll. destruct (s_pollTimer s) as [due|]; [|done]. destruct (due <=? s_now s); [|done].
  intros [= <-]. destruct (negb _); [by apply svc_watch_wf|]. apply scheduleNextPoll_wf, fold_wf; [|by apply svc_watch_wf].
  intros s1 x W1. by apply requestRefresh_wf.
Qed.

Lemma watchCollection_wf slug s : svc_wf s -> svc_wf (watchCollection config slug s).2.
Proof.
  intros W. unfold watchCollection. destruct (hasSlug _ _); [done|]. simpl.
  destruct (_ && _); [apply scheduleNextPoll_wf|]; by apply svc_watch_wf.
Qed.

Lemma unwatchCollection_wf slug s : svc_wf s -> svc_wf (unwatchCollection slug s).2.
Proof. intros W. unfold unwatchCollection. destruct (negb _); [done|]. by apply svc_watch_wf. Qed.

Lemma fold_pair_wf {A} (f : Z * Svc -> A -> Z * Svc) l p : (forall p x, svc_wf p.2 -> svc_wf (f p x).2) -> svc_wf p.2 ->
  svc_wf (fold_left f l p).2.
Proof. intros Hf. revert p. induction l as [|x l IH]; intros p W; simpl; [done|]. by apply IH, Hf. Qed.

Lemma reconcile_wf slugs s : svc_wf s -> svc_wf (reconcileWatchedCollections config slugs s).2.
Proof.
  intros W. unfold reconcileWatchedCollections.
  destruct (fold_left _ (s_watched s) (0, s)) as [removed s1] eqn:E1.
  assert (svc_wf s1) as W1.
  { change s1 with (removed, s1).2. rewrite <- E1. apply fold_pair_wf; [|done]. intros [n s2] x W2. simpl in *.
    destruct (hasSlug _ _); [done|]. pose proof (unwatchCollection_wf x s2 W2). by destruct (unwatchCollection x s2). }
  destruct (fold_left _ (toSet slugs) (0, s1)) as [added s2] eqn:E2. simpl.
  change s2 with (added, s2).2. rewrite <- E2. apply fold_pair_wf; [|done]. intros [n s3] x W3. simpl in *.
  pose proof (watchCollection_wf x s3 W3). by destruct (watchCollection config x s3).
Qed.

Lemma bootstrap_wf s : svc_wf s -> svc_wf (bootstrap config s).
Proof. intros W. apply fold_wf; [|done]. intros s1 x W1. by apply refreshAndWait_wf. Qed.

(** ** The answer of the source *)

Lemma fail_wf id l random error s : svc_wf s -> jm_get id (s_loops s) = Some l -> svc_wf (fail config id l random error s).
Proof.
  intros W Hl. destruct (loop_state _ _ _ W Hl) as (E & Er & Ei). unfold fail. rewrite finishLoop_eq.
  rewrite getRefreshState_set. set (st := getRefreshState (l_slug l) s) in *.
  destruct (w_failures _ W _ _ E) as [Hf _].
  set (s1 := with_state _ _ _ _ s).
  assert (svc_wf s1) as W1 by (apply (retouch_wf _ st); simpl; try done; split; [lia|split; [lia|done]]).
  assert (Err (A := unit) error <> Ok tt) as Hne by done.
  pose proof (svc_finish_wf id l (Err error) s1 s1 W1 Hl (or_introl (conj eq_refl Hne))) as Hfin.
  unfold s1 in Hfin. rewrite getRefreshState_set in Hfin. exact Hfin.
Qed.

Lemma finish_cleared id l r st s : st = getRefreshState (l_slug l) s ->
  finishLoop id l r (clearPendingRequest (l_slug l) st s) = finishLoop id l r s.
Proof.
  intros ->. rewrite !finishLoop_eq. unfold clearPendingRequest. rewrite getRefreshState_set, svc_with_state_twice.
  simpl. by rewrite Z.sub_0_r.
Qed.

(** What a complete answer leaves: the book stored, and the refresh ended or fetching
    once more. *)
Inductive answered (id : Z) (l : Loop) (sn : CollectionOfferSnapshot) (s : Svc) : Svc -> Prop :=
  | an_ended st p : st = getRefreshState (l_slug l) s -> ~ forcedPending (pendingRequest st) ->
      p = s_pendingRefreshCount s - pendingCount (pendingRequest st) ->
      answered id l sn s (settleLoop id (Ok tt) (with_state (l_slug l) (ended st) (s_activeRefreshCount s - 1) p
        (storeSnapshot sn (l_seq l) (l_reason l) s)))
  | an_again st p : st = getRefreshState (l_slug l) s -> pendingRequest st = Some p ->
      answered id l sn s (callSource id (l_slug l) (pr_reason p) (with_state (l_slug l)
        (st_set_running (refreshing st) (inFlight st) (Some (s_now s)) (st_set_pending None st))
        (s_activeRefreshCount s) (s_pendingRefreshCount s - pendingCount (pendingRequest st))
        (storeSnapshot sn (l_seq l) (l_reason l) s))).

Definition healthy (slug : string) (s : Svc) : Svc :=
  with_state slug (recordRefreshSuccess (getRefreshState slug s)) (s_activeRefreshCount s) (s_pendingRefreshCount s) s.

Lemma settleFetch_inv id random answer s s' : settleFetch config id random answer s = Some s' ->
  exists l, jm_get id (s_loops s) = Some l /\
    ((exists e, s' = fail config id l random e s) \/
     exists res, answer = Ok res /\ complete (sr_metrics res) = true /\
       answered id l {| sn_collectionSlug := l_slug l; sn_offers := sr_offers res; sn_refreshedAt := s_now s;
                        sn_metrics := sr_metrics res |} (healthy (l_slug l) s) s').
Proof.
  unfold settleFetch. destruct (jm_get id (s_loops s)) as [l|]; [|done]. intros [= <-]. exists l. split; [done|].
  destruct answer as [res|e]; [|left; by eexists]. destruct (complete (sr_metrics res)) eqn:Ec; simpl; [|left; by eexists].
  right. exists res. split_and!; [done|done|]. fold (healthy (l_slug l) s).
  set (s1 := healthy (l_slug l) s). set (sn := {| sn_collectionSlug := _ |}).
  change (getRefreshState (l_slug l) (storeSnapshot sn (l_seq l) (l_reason l) s1)) with (getRefreshState (l_slug l) s1).
  destruct (pendingRequest (getRefreshState (l_slug l) s1)) as [p|] eqn:Ep.
  - destruct (_ && _) eqn:Ef.
    + rewrite finish_cleared, finishLoop_eq by done. apply (an_ended id l sn s1 (getRefreshState (l_slug l) s1)); [done| |done].
      rewrite Ep. intros (q & [= <-] & Hq). by rewrite Hq in Ef.
    + unfold clearPendingRequest. rewrite svc_with_state_twice, getRefreshState_set. 
      pose proof (an_again id l sn s1 _ p eq_refl Ep) as Ha. rewrite Ep in Ha. exact Ha.
  - rewrite finishLoop_eq. apply (an_ended id l sn s1 (getRefreshState (l_slug l) s1)); [done| |done]. rewrite Ep. by intros (q & ? & _).
Qed.

Lemma healthy_wf id l s : svc_wf s -> jm_get id (s_loops s) = Some l -> svc_wf (healthy (l_slug l) s).
Proof.
  intros W Hl. destruct (loop_state _ _ _ W Hl) as (E & _). by apply (retouch_wf _ _ _ _ W E).
Qed.

Lemma settleFetch_wf id random answer s s' : svc_wf s -> settleFetch config id random answer s = Some s' -> svc_wf s'.
Proof.
  intros W (l & Hl & [(e & ->)|(res & _ & Hc & Ha)])%settleFetch_inv; [by apply fail_wf|].
  pose proof (healthy_wf id l s W Hl) as W1.
  set (sn := {| sn_collectionSlug := _ |}) in Ha.
  assert (book_of l sn (healthy (l_slug l) s)) as Hb by (split_and!; [done|done|simpl; lia]).
  destruct Ha as [st p -> Hnf ->|st p -> _].
  - apply svc_finish_wf; [done|done|]. right. by eexists _, _.
  - by apply continue_wf.
Qed.

Lemma svc_step_wf s s' : svc_wf s -> step config s s' -> svc_wf s'.
Proof.
  intros W Hs. revert W. destruct Hs; intros W; [by apply refreshAndWait_wf|by apply requestRefresh_wf|by eapply resume_wf|by eapply settleFetch_wf|
    by eapply firePoll_wf|by apply svc_start_wf|by apply svc_stop_wf|by apply watchCollection_wf|by apply unwatchCollection_wf|
    by apply reconcile_wf|by apply bootstrap_wf|by apply svc_tick_wf].
Qed.

Lemma svc_reachable_wf s : reachable config s -> svc_wf s.
Proof. induction 1 as [slugs now|s s' _ IH Hs]; [apply svc_create_wf|by apply (svc_step_wf s)]. Qed.

End Service.

End SnapshotsInv.
