(* ===== verification/SnapshotsClaims.v ===== *)
(** * Theorems about the snapshot service *)

From Stdlib Require Import QArith Qround Lqa.
From S2P Require Import Prelude JsValue Snapshots SnapshotsInv.

Open Scope Z_scope.

Module SnapshotsClaims.
Import Snapshots SnapshotsInv.

Section Claims.
Context (config : Config).

(** In every reachable state at most one refresh of a collection is in flight, and
    exactly the collections marked as refreshing have one; the reported gauges count
    the refreshing and the pending ones; a request is pending only beside a refresh in
    flight and never after [stop]; every stored snapshot is complete, belongs
    to its collection, is dated no later than now and has been announced to the
    observer; and no waiting call is stuck: it may go on, or the refresh of its
    collection that it waits for is in flight. *)
Theorem snapshot_service_consistent s : reachable config s ->
  (forall id id' l l', jm_get id (s_loops s) = Some l -> jm_get id' (s_loops s) = Some l' ->
     l_slug l = l_slug l' -> id = id') /\
  (forall slug, (exists st, jm_get slug (s_states s) = Some st /\ refreshing st = true) <->
     exists id l, jm_get id (s_loops s) = Some l /\ l_slug l = slug) /\
  s_activeRefreshCount s = jm_sum (fun st => if refreshing st then 1 else 0) (s_states s) /\
  s_pendingRefreshCount s = jm_sum (fun st => pendingCount (pendingRequest st)) (s_states s) /\
  (forall slug st, jm_get slug (s_states s) = Some st -> pendingRequest st <> None ->
     refreshing st = true /\ s_stopped s = false) /\
  (forall slug sn, jm_get slug (s_snapshots s) = Some sn ->
     sn_collectionSlug sn = slug /\ complete (sn_metrics sn) = true /\ sn_refreshedAt sn <= s_now s /\
     exists reason, In (sn, reason) (s_notified s)) /\
  (forall id c, jm_get id (s_callers s) = Some c ->
     (exists s', resume config id s = Some s') \/
     exists loop l, waitLoop (c_wait c) = Some loop /\ jm_get loop (s_loops s) = Some l /\ l_slug l = c_slug c).
Proof.
  intros W%svc_reachable_wf. split_and!.
  - intros id id' l l' H1 H2. by apply (loops_unique _ _ _ _ s).
  - intros slug. split.
    + intros (st & E & Er). destruct (w_running _ W _ _ E) as [[? _]|(_ & id & l & _ & Hl & El)]; [congruence|].
      by exists id, l.
    + intros (id & l & Hl & <-). destruct (w_loops _ W _ _ Hl) as (st & E & Er & _). by exists st.
  - apply W.
  - apply W.
  - intros slug st E Hp. destruct (w_running _ W _ _ E) as [(_ & ? & _)|[Er _]]; [done|]. split; [done|].
    destruct (s_stopped s) eqn:Es; [|done]. by rewrite (w_drained _ W Es _ _ E) in Hp.
  - intros slug sn Hs. destruct (w_snapshots _ W _ _ Hs) as (?&?&?&?&_). done.
  - intros id c Hc. destruct (w_callers _ W _ _ Hc) as (_ & Hw & _).
    unfold resume. rewrite Hc. destruct (c_wait c) as [|loop|loop]; simpl in Hw; [left; by eexists|..].
    all: destruct (Hw loop eq_refl) as [[[[]|e] ->]|(l & Hl & El)]; [left; by eexists..|right; by exists loop, l].
Qed.

(** A caller that forces a refresh and is told it succeeded can rely on it: while
    the service runs, the snapshot stored for the collection is complete and comes from
    a call of the source made after the caller asked, whichever refresh was in
    flight then and however the requests were merged. *)
Theorem forced_refresh_is_newer s c : reachable config s -> s_stopped s = false ->
  In (c, Refreshed) (s_returned s) -> c_respectTtl c = false ->
  exists snapshot seq, getSnapshot (c_slug c) s = Some snapshot /\ complete (sn_metrics snapshot) = true /\
    jm_get (c_slug c) (s_fetchedBy s) = Some seq /\ c_since c < seq <= s_fetches s.
Proof.
  intros W%svc_reachable_wf Hs Hin Ht. destruct (w_returned _ W c Hin Ht Hs) as (seq & Hq & Hlt).
  destruct (w_fetched _ W _ _ Hq) as [Hle [sn Hsn]]. exists sn, seq.
  split_and!; try done. by apply (w_snapshots _ W _ _ Hsn).
Qed.

(** ** Back-off *)

Definition rawBackoff (failures : Z) : Z := refreshTtlMs config * 2 ^ Z.min failures 6.

(** The pause before the next unforced refresh: doubled with every failure up to
    six times, at most a fifth longer, and within the longest lifetime. *)
Definition is_backoff (failures b : Z) : Prop :=
  Z.min (refreshMaxTtlMs config) (rawBackoff failures) <= b <=
  Z.min (refreshMaxTtlMs config) (rawBackoff failures + rawBackoff failures / 5).

Lemma jitter_bounds raw random : 0 <= raw -> (0 <= random < 1)%Q ->
  0 <= Qfloor (inject_Z raw * (1 # 5) * random) <= raw / 5.
Proof.
  intros Hr [H0 H1]. assert (0 <= inject_Z raw)%Q as Hq by (change 0%Q with (inject_Z 0); by rewrite <- Zle_Qle).
  assert (0 <= inject_Z raw * (1 # 5))%Q as H5 by (apply Qmult_le_0_compat; [done|by apply Qle_bool_iff]).
  split.
  - change 0 with (Qfloor 0). by apply Qfloor_resp_le, Qmult_le_0_compat.
  - transitivity (Qfloor (inject_Z raw * (1 # 5))).
    + apply Qfloor_resp_le. set (q := (inject_Z raw * (1 # 5))%Q) in *.
      assert (random * q <= 1 * q)%Q as Hm by (apply Qmult_le_compat_r; lra).
      assert (q * random == random * q)%Q by ring. lra.
    + apply Z.eq_le_incl. unfold Qmult, inject_Z. simpl. by rewrite Z.mul_1_r.
Qed.

Lemma recordRefreshFailure_spec random now error st : 0 <= refreshTtlMs config -> (0 <= random < 1)%Q ->
  0 <= failureCount st ->
  exists b, recordRefreshFailure config random now error st =
              st_set_failures (failureCount st + 1) (Some error) (Some (now + b)) st /\
    is_backoff (failureCount st) b.
Proof.
  intros Ht Hr Hf. unfold recordRefreshFailure.
  unfold COLLECTION_OFFER_SNAPSHOT_FAILURE_BACKOFF_MULTIPLIER, COLLECTION_OFFER_SNAPSHOT_FAILURE_BACKOFF_MAX_EXPONENT.
  replace (failureCount st + 1 - 1) with (failureCount st) by lia. fold (rawBackoff (failureCount st)).
  eexists. split; [reflexivity|].
  assert (0 <= rawBackoff (failureCount st)) as Hraw by (apply Z.mul_nonneg_nonneg; [done|apply Z.pow_nonneg; lia]).
  pose proof (jitter_bounds _ _ Hraw Hr) as [? ?]. unfold is_backoff, COLLECTION_OFFER_SNAPSHOT_FAILURE_BACKOFF_JITTER_RATIO. lia.
Qed.

(** Requests that respect freshness do not call the source synchronously. *)
Lemma requestRefresh_fetches slug reason s : s_fetches (requestRefresh config slug reason s) = s_fetches s.
Proof.
  unfold requestRefresh, refreshAndWait. destruct (s_stopped s); [done|]. destruct (negb _); [done|].
  destruct (_ && _); [done|]. simpl. by repeat case_match.
Qed.

Lemma firePoll_fetches s s' : firePoll config s = Some s' -> s_fetches s' = s_fetches s.
Proof.
  unfold firePoll. destruct (s_pollTimer s) as [due|]; [|done]. destruct (due <=? s_now s); [|done].
  intros [= <-]. destruct (negb _); [done|].
  assert (forall l s1, s_fetches (fold_left (fun s slug => requestRefresh config slug "poll cadence" s) l s1) = s_fetches s1) as Hl.
  { induction l as [|x l IH]; intros s1; simpl; [done|]. by rewrite IH, requestRefresh_fetches. }
  unfold scheduleNextPoll. destruct (_ || _); simpl; by rewrite Hl.
Qed.

(** When the source fails, or answers with an incomplete book, no stored snapshot
    changes, the callers of the refresh are told, and the collection backs off: its
    next unforced refresh waits for the base lifetime doubled with every failure in a row
    up to six times, plus at most a fifth of it, and never longer than the longest
    lifetime.  Until then neither a poll, nor a request, nor a waiting call that
    respects freshness calls the source for it. *)
Theorem failures_back_off s : reachable config s -> 0 <= refreshTtlMs config ->
  (forall id l random answer s', jm_get id (s_loops s) = Some l -> (0 <= random < 1)%Q ->
     (forall res, answer = Ok res -> complete (sr_metrics res) = false) ->
     settleFetch config id random answer s = Some s' ->
     s_snapshots s' = s_snapshots s /\ s_fetches s' = s_fetches s /\
     (exists e, jm_get id (s_settled s') = Some (Err e)) /\ jm_get id (s_loops s') = None /\
     exists b, is_backoff (failureCount (getRefreshState (l_slug l) s)) b /\
       failureCount (getRefreshState (l_slug l) s') = failureCount (getRefreshState (l_slug l) s) + 1 /\
       nextEligibleRefreshAt (getRefreshState (l_slug l) s') = Some (s_now s + b)) /\
  (forall slug, isRefreshBackoffActive slug s = true ->
     (forall reason, s_fetches (requestRefresh config slug reason s) = s_fetches s) /\
     (forall s', firePoll config s = Some s' -> s_fetches s' = s_fetches s) /\
     (forall id c s', jm_get id (s_callers s) = Some c -> c_slug c = slug -> c_respectTtl c = true ->
        resume config id s = Some s' -> s_fetches s' = s_fetches s)).
Proof.
  intros W%svc_reachable_wf Ht. split.
  - intros id l random answer s' Hl Hr Hans. intros (l' & Hl' & [(e & ->)|(res & -> & Hc & _)])%settleFetch_inv.
    2:{ rewrite (Hans res eq_refl) in Hc. done. }
    simplify_eq. destruct (loop_state _ _ _ W Hl) as (E & _ & _).
    destruct (w_failures _ W _ _ E) as [Hf _].
    destruct (recordRefreshFailure_spec random (s_now s) e _ Ht Hr Hf) as (b & Eb & Hb).
    unfold fail. rewrite finishLoop_eq, getRefreshState_set, svc_with_state_twice, Eb. simpl.
    rewrite jm_get_set_eq, jm_get_del_eq. split_and!; [done|done|by eexists|done|]. exists b.
    split_and!; [done|..]; unfold getRefreshState; simpl; by rewrite jm_get_set_eq.
  - intros slug Hb. split_and!.
    + intros reason. apply requestRefresh_fetches.
    + intros s'. apply firePoll_fetches.
    + intros id c s' Hc <- Htt. unfold resume. rewrite Hc. destruct (c_wait c) as [|loop|loop].
      * intros [= <-]. unfold afterJoin. simpl. destruct (s_stopped s); [done|].
        assert (isRefreshBackoffActive (c_slug c) (with_callers (jm_del id (s_callers s)) s) = true) as -> by exact Hb.
        by rewrite Htt.
      * destruct (jm_get loop (s_settled s)) as [[[]|e]|]; [|by intros [= <-]|done]. intros [= <-]. by destruct (isSnapshotFresh _ _ _).
      * destruct (jm_get loop (s_settled s)) as [[[]|e]|]; [by intros [= <-]..|done].
Qed.

(** ** Draining *)

(** A call goes on, or the source answers; nobody asks for anything new. *)
Inductive drain (s s' : Svc) : Prop :=
  | d_resume id : resume config id s = Some s' -> drain s s'
  | d_answer id random answer : (0 <= random < 1)%Q -> settleFetch config id random answer s = Some s' -> drain s s'.

Definition weight (c : Caller) : Z :=
  match c_wait c with Probed => 4 | Joined _ => 5 | Following _ => 1 end.

(** The work left: every waiting call, refresh in flight and pending request. *)
Definition work (s : Svc) : Z :=
  jm_sum weight (s_callers s) + jm_sum (fun _ => 1) (s_loops s) + s_pendingRefreshCount s.

Lemma weight_pos c : 0 < weight c.
Proof. unfold weight. by case_match. Qed.

Lemma svc_work_nonneg s : svc_wf s -> 0 <= work s.
Proof.
  intros W. unfold work. rewrite (w_pending _ W).
  assert (0 <= jm_sum weight (s_callers s)) by (apply jm_sum_nonneg; intros c; pose proof (weight_pos c); lia).
  assert (0 <= jm_sum (fun _ => 1) (s_loops s)) by (apply jm_sum_nonneg; intros; lia).
  assert (0 <= jm_sum (fun st => pendingCount (pendingRequest st)) (s_states s)); [|lia].
  apply jm_sum_nonneg. intros st. unfold pendingCount. case_match; lia.
Qed.

Lemma work_returns c r s : work (returns c r s) = work s.
Proof. done. Qed.

(** The number a waiting call gets is new. *)
Lemma work_wait c w s : svc_wf s ->
  work (waitFor c w s) = work s + match w with Probed => 4 | Joined _ => 5 | Following _ => 1 end.
Proof.
  intros W. destruct (w_ids _ W (s_nextId s) ltac:(lia)) as (_ & _ & Hn).
  unfold work, waitFor. simpl. rewrite jm_sum_set, Hn. unfold weight. destruct w; simpl; lia.
Qed.

Lemma work_afterJoin c s : svc_wf s -> work (afterJoin c s) <= work s + 2.
Proof.
  intros W. unfold afterJoin. destruct (s_stopped s); [rewrite work_returns; lia|].
  destruct (_ && _); [rewrite work_returns; lia|]. unfold refreshCollection.
  destruct (w_ids _ W (s_nextId s) ltac:(lia)) as (Hn1 & _ & Hn).
  destruct (w_ids _ W (s_nextId s + 1) ltac:(lia)) as (_ & _ & Hn').
  destruct (refreshing _) eqn:Er.
  - assert (0 <= pendingCount (pendingRequest (getRefreshState (c_slug c) s))) as Hp.
    { unfold pendingCount. case_match; lia. }
    destruct (inFlight _); unfold work, waitFor; simpl; [rewrite jm_sum_set, Hn; unfold weight; simpl|]; lia.
  - unfold work, waitFor. simpl. rewrite !jm_sum_set, Hn', Hn1. unfold weight. simpl. lia.
Qed.

Lemma work_forget id c s : jm_get id (s_callers s) = Some c ->
  work (with_callers (jm_del id (s_callers s)) s) <= work s - weight c.
Proof.
  intros E. unfold work. simpl. pose proof (jm_sum_del_le weight id (s_callers s) (fun c => Z.lt_le_incl _ _ (weight_pos c))) as H.
  rewrite E in H. simpl in H. lia.
Qed.

Lemma drain_work s s' : svc_wf s -> drain s s' -> work s' < work s.
Proof.
  intros W [id Hr|id random answer Hq Ha].
  - revert Hr. unfold resume. destruct (jm_get id (s_callers s)) as [c|] eqn:Ec; [|done].
    pose proof (work_forget id c s Ec) as Hw. pose proof (forget_wf id s W) as W'.
    unfold weight in Hw. destruct (c_wait c) as [|loop|loop].
    + intros [= <-]. pose proof (work_afterJoin c _ W'). lia.
    + destruct (jm_get loop (s_settled s)) as [[[]|e]|]; [| |done]; intros [= <-]; [|rewrite work_returns; lia].
      destruct (isSnapshotFresh _ _ _); [rewrite work_returns; lia|]. rewrite work_wait by done. lia.
    + destruct (jm_get loop (s_settled s)) as [[[]|e]|]; [| |done]; intros [= <-]; rewrite work_returns; lia.
  - apply settleFetch_inv in Ha as (l & Hl & Ha).
    pose proof (jm_sum_del_le (fun _ => 1) id (s_loops s) ltac:(intros; lia)) as Hdel. rewrite Hl in Hdel. simpl in Hdel.
    assert (forall p, 0 <= pendingCount p) as Hp by (intros p; unfold pendingCount; case_match; lia).
    destruct Ha as [(e & ->)|(res & _ & _ & Ha)].
    + unfold fail. rewrite finishLoop_eq, svc_with_state_twice. unfold work. simpl.
      specialize (Hp (pendingRequest (getRefreshState (l_slug l) (with_state (l_slug l)
        (recordRefreshFailure config random (s_now s) e (getRefreshState (l_slug l) s))
        (s_activeRefreshCount s) (s_pendingRefreshCount s) s)))). lia.
    + destruct (loop_state _ _ _ W Hl) as (E & _ & _).
      destruct Ha as [st p -> Hnf ->|st p -> Ep]; unfold work; simpl.
      * specialize (Hp (pendingRequest (getRefreshState (l_slug l) (healthy (l_slug l) s)))). lia.
      * rewrite jm_sum_set, Hl, Ep. simpl. lia.
Qed.

Lemma drain_step s s' : drain s s' -> step config s s'.
Proof. intros [id H|id random answer Hq H]; [exact (s_resume _ id _ _ H)|exact (s_answer _ id random answer _ _ Hq H)]. Qed.

Lemma drain_progress s (answer : result CollectionOfferSourceResult) : svc_wf s -> s_callers s <> [] \/ s_loops s <> [] -> exists s', drain s s'.
Proof.
  intros W Hne. destruct (s_loops s) as [|[id l] loops] eqn:El.
  - destruct (s_callers s) as [|[id c] callers] eqn:Ec; [tauto|].
    assert (jm_get id (s_callers s) = Some c) as Hc by (rewrite Ec; simpl; by rewrite decide_True).
    destruct (w_callers _ W _ _ Hc) as (_ & Hw & _).
    assert (is_Some (resume config id s)) as [s' Hs']; [|exists s'; by apply (d_resume _ _ id)].
    unfold resume. rewrite Hc. destruct (c_wait c) as [|loop|loop]; simpl in Hw; [done|..].
    all: destruct (Hw loop eq_refl) as [[[[]|e] ->]|(l & Hl & _)]; [done..|by rewrite El in Hl].
  - assert (is_Some (settleFetch config id 0 answer s)) as [s' Hs'].
    { unfold settleFetch. rewrite El. simpl. by rewrite decide_True. }
    exists s'. apply (d_answer _ _ id 0 answer); [split; [by apply Qle_refl|reflexivity]|done].
Qed.

(** Every call returns.  From any reachable state, as long as nothing new is
    asked, waiting calls going on and answers of the source, in any order and with
    any content, are at most [work s] in number, and one of them is possible until no
    call waits and no refresh is in flight. *)
Theorem snapshot_calls_return s n s' : reachable config s -> nsteps drain n s s' ->
  Z.of_nat n <= work s /\
  ((exists s'', drain s' s'') \/ s_callers s' = [] /\ s_loops s' = []).
Proof.
  intros W%svc_reachable_wf Hn.
  assert (svc_wf s' /\ Z.of_nat n <= work s - work s') as [W' Hle].
  { induction Hn as [s|n s s1 s' Hd Hn IH]; [split; [done|lia]|].
    pose proof (drain_work _ _ W Hd). destruct IH as [? ?]; [|split; [done|lia]].
    by apply (svc_step_wf config s), drain_step. }
  pose proof (svc_work_nonneg _ W'). split; [lia|].
  destruct (s_callers s') eqn:Ec, (s_loops s') eqn:El; [by right|left..];
    apply (drain_progress s' (Err "")); try done; rewrite ?Ec, ?El; auto.
Qed.

End Claims.

(** ** An example run

    A polled refresh is in flight when a caller forces another one: the second fetch
    serves it. *)

Definition exampleConfig : Config := createConfig 1000 100 (Some 1000) (Some 2%Q).

Definition metricsOf (ok : bool) : CollectionOfferSnapshotMetrics := {|
  durationMs := 30; pageCount := 1; offerCount := 0; complete := ok; firstPriceWei := None;
  lastPriceWei := None; minPriceWei := None; maxPriceWei := None; finalCursor := None |}.

Definition answerOf (ok : bool) : result CollectionOfferSourceResult :=
  Ok {| sr_offers := []; sr_metrics := metricsOf ok |}.

Definition orSame (o : option Svc) (s : Svc) : Svc := default s o.

Definition x0 : Svc := create ["a"; "b"; "a"] 5.
Definition x1 : Svc := refreshAndWait exampleConfig "a" "polled" true x0.
Definition x2 : Svc := orSame (resume exampleConfig 0 x1) x1.
Definition x3 : Svc := refreshAndWait exampleConfig "a" "forced" false x2.
Definition x4 : Svc := orSame (settleFetch exampleConfig 1 0 (answerOf true) x3) x3.
Definition x5 : Svc := orSame (settleFetch exampleConfig 1 0 (answerOf true) x4) x4.
Definition x6 : Svc := orSame (resume exampleConfig 3 x5) x5.

(** The second fetch is refused instead. *)
Definition y5 : Svc := orSame (settleFetch exampleConfig 1 0 (answerOf false) x4) x4.

Definition forcedCaller : Caller := {| c_slug := "a"; c_reason := "forced"; c_respectTtl := false;
  c_since := 1; c_wait := Following 1 |}.

Lemma zero_random : (0 <= 0 < 1)%Q.
Proof. split; [apply Qle_refl|reflexivity]. Qed.

Lemma step2 : resume exampleConfig 0 x1 = Some x2.
Proof. vm_compute. reflexivity. Qed.

Lemma step4 : settleFetch exampleConfig 1 0 (answerOf true) x3 = Some x4.
Proof. vm_compute. reflexivity. Qed.

Lemma step5 : settleFetch exampleConfig 1 0 (answerOf true) x4 = Some x5.
Proof. vm_compute. reflexivity. Qed.

Lemma step6 : resume exampleConfig 3 x5 = Some x6.
Proof. vm_compute. reflexivity. Qed.

Lemma step5' : settleFetch exampleConfig 1 0 (answerOf false) x4 = Some y5.
Proof. vm_compute. reflexivity. Qed.

Lemma x3_reachable : reachable exampleConfig x3.
Proof.
  apply (r_step _ x2); [|apply s_call]. apply (r_step _ x1); [|exact (s_resume _ 0 _ _ step2)].
  apply (r_step _ x0); [apply (r_create _ ["a"; "b"; "a"] 5)|apply s_call].
Qed.

Lemma x4_reachable : reachable exampleConfig x4.
Proof. apply (r_step _ x3); [apply x3_reachable|]. exact (s_answer _ 1 0 (answerOf true) _ _ zero_random step4). Qed.

Lemma x6_reachable : reachable exampleConfig x6.
Proof.
  apply (r_step _ x5); [|exact (s_resume _ 3 _ _ step6)]. apply (r_step _ x4); [apply x4_reachable|].
  exact (s_answer _ 1 0 (answerOf true) _ _ zero_random step5).
Qed.

Lemma snapshot_service_consistent_witness :
  s_pendingRefreshCount x3 = 1 /\ s_activeRefreshCount x3 = 1 /\
  (forall id id' l l', jm_get id (s_loops x3) = Some l -> jm_get id' (s_loops x3) = Some l' ->
     l_slug l = l_slug l' -> id = id').
Proof. split; [vm_compute; reflexivity|]. split; [vm_compute; reflexivity|]. exact (proj1 (snapshot_service_consistent _ _ x3_reachable)). Defined.

Lemma forced_refresh_is_newer_witness :
  s_returned x6 = [(forcedCaller, Refreshed)] /\
  exists snapshot seq, getSnapshot "a" x6 = Some snapshot /\ complete (sn_metrics snapshot) = true /\
    jm_get "a"%string (s_fetchedBy x6) = Some seq /\ 1 < seq <= s_fetches x6.
Proof.
  split; [vm_compute; reflexivity|].
  apply (forced_refresh_is_newer _ x6 forcedCaller x6_reachable); [vm_compute; reflexivity|by left|vm_compute; reflexivity].
Defined.

Lemma failures_back_off_witness :
  s_snapshots y5 = s_snapshots x4 /\ jm_get 1 (s_settled y5) = Some (Err PARTIAL_ERROR) /\
  exists b, is_backoff exampleConfig 0 b /\ nextEligibleRefreshAt (getRefreshState "a" y5) = Some (5 + b).
Proof.
  destruct (proj1 (failures_back_off exampleConfig x4 x4_reachable ltac:(by vm_compute)) 1
    {| l_slug := "a"; l_reason := "forced"; l_seq := 2 |} 0%Q (answerOf false) y5 ltac:(vm_compute; reflexivity)
    zero_random ltac:(by intros res [= <-]) step5') as (Hs & _ & _ & _ & b & Hb & _ & Hn).
  split; [exact Hs|]. split; [vm_compute; reflexivity|]. exists b. split; [exact Hb|exact Hn].
Defined.

Lemma snapshot_calls_return_witness :
  work x3 = 4 /\ exists s', nsteps (drain exampleConfig) 3 x3 s' /\ Z.of_nat 3 <= work x3.
Proof.
  split; [vm_compute; reflexivity|]. exists x6.
  assert (nsteps (drain exampleConfig) 3 x3 x6) as Hn.
  { apply (nsteps_l _ _ x3 x4); [exact (d_answer _ _ _ 1 0 (answerOf true) zero_random step4)|].
    apply (nsteps_l _ _ x4 x5); [exact (d_answer _ _ _ 1 0 (answerOf true) zero_random step5)|].
    apply nsteps_once. exact (d_resume _ _ _ 3 step6). }
  split; [exact Hn|]. exact (proj1 (snapshot_calls_return _ _ _ _ x3_reachable Hn)).
Defined.

End SnapshotsClaims.
