(* ===== verification/Projection.v ===== *)
(** * Projection of snapshots into the bid book

    [BiddingBidBookProjectionScheduler] (bidding-bid-book-projection.ts): each
    collection's latest snapshot is written by at most one run at a time, no more often
    than the throttle allows.

    Every [await] ends a step.  A run in flight is a [Run]; it is known by a number, and
    it writes until its write settles and then, if that failed, records the error.
    [p_requests] and [p_started] log the snapshots requested and the runs started; no
    operation reads them.  The clock starts after 0 and moves forward, and a timer fires
    no earlier than its delay.  Logs and observers are left out. *)

From S2P Require Import Prelude JsValue Snapshots.

Open Scope Z_scope.

Module Projection.
Import Snapshots.

(** What [replaceCollectionBidBook] answers: [published] or [skipped]. *)
Inductive WriteOutcome : Type := Published | NotPublished.

Record ProjectionState := {
  running : bool;
  latestSnapshot : option CollectionOfferSnapshot;
  pendingReason : option string;
  timer : option Z;
  lastCompletedAt : Z;
  firstRequestedAt : option Z;
  requestedVersion : Z;
  publishedVersion : Z;
  publishedAt : option Z;
  publishedSnapshotAt : option Z;
}.

Record Run := {
  run_slug : string;
  run_snapshot : CollectionOfferSnapshot;
  run_version : Z;
  run_reason : string;
  run_startedAt : Z;
  run_after : Z;
  run_recording : bool;
}.

Record Proj := {
  p_states : list (string * ProjectionState);
  p_runs : list (Z * Run);
  p_activeProjectionCount : Z;
  p_pendingProjectionCount : Z;
  p_stopped : bool;
  p_watchedCollections : list string;
  p_nextId : Z;
  p_now : Z;
  p_requests : list CollectionOfferSnapshot;
  p_started : list Run;
}.

Definition create (watched : list string) (now : Z) : Proj := {|
  p_states := []; p_runs := []; p_activeProjectionCount := 0; p_pendingProjectionCount := 0;
  p_stopped := false; p_watchedCollections := toSet watched; p_nextId := 0; p_now := now;
  p_requests := []; p_started := [] |}.

Definition reconcileWatchedCollections (collections : list string) (p : Proj) : Proj := {|
  p_states := p_states p; p_runs := p_runs p; p_activeProjectionCount := p_activeProjectionCount p;
  p_pendingProjectionCount := p_pendingProjectionCount p; p_stopped := p_stopped p;
  p_watchedCollections := toSet collections; p_nextId := p_nextId p; p_now := p_now p;
  p_requests := p_requests p; p_started := p_started p |}.

Definition with_now now (p : Proj) : Proj := {|
  p_states := p_states p; p_runs := p_runs p; p_activeProjectionCount := p_activeProjectionCount p;
  p_pendingProjectionCount := p_pendingProjectionCount p; p_stopped := p_stopped p;
  p_watchedCollections := p_watchedCollections p; p_nextId := p_nextId p; p_now := now;
  p_requests := p_requests p; p_started := p_started p |}.

Definition with_state slug st active pending (p : Proj) : Proj := {|
  p_states := jm_set slug st (p_states p); p_runs := p_runs p; p_activeProjectionCount := active;
  p_pendingProjectionCount := pending; p_stopped := p_stopped p;
  p_watchedCollections := p_watchedCollections p; p_nextId := p_nextId p; p_now := p_now p;
  p_requests := p_requests p; p_started := p_started p |}.

Definition with_runs runs (p : Proj) : Proj := {|
  p_states := p_states p; p_runs := runs; p_activeProjectionCount := p_activeProjectionCount p;
  p_pendingProjectionCount := p_pendingProjectionCount p; p_stopped := p_stopped p;
  p_watchedCollections := p_watchedCollections p; p_nextId := p_nextId p; p_now := p_now p;
  p_requests := p_requests p; p_started := p_started p |}.

Definition log_request snapshot (p : Proj) : Proj := {|
  p_states := p_states p; p_runs := p_runs p; p_activeProjectionCount := p_activeProjectionCount p;
  p_pendingProjectionCount := p_pendingProjectionCount p; p_stopped := p_stopped p;
  p_watchedCollections := p_watchedCollections p; p_nextId := p_nextId p; p_now := p_now p;
  p_requests := p_requests p ++ [snapshot]; p_started := p_started p |}.

(** A run enters [activeRuns]. *)
Definition launch (r : Run) (p : Proj) : Proj := {|
  p_states := p_states p; p_runs := jm_set (p_nextId p) r (p_runs p);
  p_activeProjectionCount := p_activeProjectionCount p;
  p_pendingProjectionCount := p_pendingProjectionCount p; p_stopped := p_stopped p;
  p_watchedCollections := p_watchedCollections p; p_nextId := p_nextId p + 1; p_now := p_now p;
  p_requests := p_requests p; p_started := p_started p ++ [r] |}.

Definition st_request snapshot reason now (st : ProjectionState) : ProjectionState := {|
  running := running st; latestSnapshot := Some snapshot; pendingReason := Some reason; timer := timer st;
  lastCompletedAt := lastCompletedAt st;
  firstRequestedAt := match firstRequestedAt st with Some t => Some t | None => Some now end;
  requestedVersion := requestedVersion st + 1; publishedVersion := publishedVersion st;
  publishedAt := publishedAt st; publishedSnapshotAt := publishedSnapshotAt st |}.

Definition st_timer t (st : ProjectionState) : ProjectionState := {|
  running := running st; latestSnapshot := latestSnapshot st; pendingReason := pendingReason st; timer := t;
  lastCompletedAt := lastCompletedAt st; firstRequestedAt := firstRequestedAt st;
  requestedVersion := requestedVersion st; publishedVersion := publishedVersion st;
  publishedAt := publishedAt st; publishedSnapshotAt := publishedSnapshotAt st |}.

Definition st_running b (st : ProjectionState) : ProjectionState := {|
  running := b; latestSnapshot := latestSnapshot st; pendingReason := pendingReason st; timer := timer st;
  lastCompletedAt := lastCompletedAt st; firstRequestedAt := firstRequestedAt st;
  requestedVersion := requestedVersion st; publishedVersion := publishedVersion st;
  publishedAt := publishedAt st; publishedSnapshotAt := publishedSnapshotAt st |}.

(** The snapshot, reason and request time are taken or dropped. *)
Definition st_taken (st : ProjectionState) : ProjectionState := {|
  running := running st; latestSnapshot := None; pendingReason := None; timer := timer st;
  lastCompletedAt := lastCompletedAt st; firstRequestedAt := None;
  requestedVersion := requestedVersion st; publishedVersion := publishedVersion st;
  publishedAt := publishedAt st; publishedSnapshotAt := publishedSnapshotAt st |}.

Definition st_completed now (st : ProjectionState) : ProjectionState := {|
  running := running st; latestSnapshot := latestSnapshot st; pendingReason := pendingReason st; timer := timer st;
  lastCompletedAt := now; firstRequestedAt := firstRequestedAt st;
  requestedVersion := requestedVersion st; publishedVersion := publishedVersion st;
  publishedAt := publishedAt st; publishedSnapshotAt := publishedSnapshotAt st |}.

Definition st_published now snapshotAt version (st : ProjectionState) : ProjectionState := {|
  running := running st; latestSnapshot := latestSnapshot st; pendingReason := pendingReason st; timer := timer st;
  lastCompletedAt := lastCompletedAt st; firstRequestedAt := firstRequestedAt st;
  requestedVersion := requestedVersion st; publishedVersion := version;
  publishedAt := Some now; publishedSnapshotAt := Some snapshotAt |}.

Definition mergeReasons (existing : option string) (incoming : string) : string :=
  if negb (otruthy existing) then incoming
  else
    let e := default EmptyString existing in
    if hasSlug incoming (splitOn separator e) then e else (e ++ separator ++ incoming)%string.

Section Scheduler.
Context (throttleMs : Z).

Definition getState (slug : string) (p : Proj) : ProjectionState :=
  default {| running := false; latestSnapshot := None; pendingReason := None; timer := None;
             lastCompletedAt := 0; firstRequestedAt := None; requestedVersion := 0;
             publishedVersion := 0; publishedAt := None; publishedSnapshotAt := None |}
    (jm_get slug (p_states p)).

Definition is_some {A} (o : option A) : bool := match o with Some _ => true | None => false end.

Definition schedule (slug : string) (p : Proj) : Proj :=
  let st := getState slug p in
  let elapsedSinceLastRun := p_now p - lastCompletedAt st in
  let delayMs := if lastCompletedAt st =? 0 then 0 else Z.max 0 (throttleMs - elapsedSinceLastRun) in
  with_state slug (st_timer (Some (p_now p + delayMs)) st)
    (p_activeProjectionCount p) (p_pendingProjectionCount p) p.

Definition requestProjection (snapshot : CollectionOfferSnapshot) (reason : string) (p : Proj) : Proj :=
  if p_stopped p then p
  else
    let slug := sn_collectionSlug snapshot in
    let st := getState slug p in
    let pending := p_pendingProjectionCount p + (if is_some (latestSnapshot st) then 0 else 1) in
    let p := log_request snapshot (with_state slug
               (st_request snapshot (mergeReasons (pendingReason st) reason) (p_now p) st)
               (p_activeProjectionCount p) pending p) in
    if running st || is_some (timer st) then p else schedule slug p.

(** The timer of [slug] fires: [startRun], and [run] up to its first [await]. *)
Definition fireTimer (slug : string) (p : Proj) : option Proj :=
  let st := getState slug p in
  match timer st with
  | None => None
  | Some due =>
      if due <=? p_now p then
        let st := st_timer None st in
        let p := with_state slug st (p_activeProjectionCount p) (p_pendingProjectionCount p) p in
        Some match latestSnapshot st with
             | Some snapshot =>
                 if p_stopped p || running st then p
                 else
                   let r := {| run_slug := slug; run_snapshot := snapshot;
                               run_version := requestedVersion st;
                               run_reason := default "unspecified" (pendingReason st);
                               run_startedAt := p_now p; run_after := lastCompletedAt st;
                               run_recording := false |} in
                   launch r (with_state slug (st_running true (st_taken st))
                     (p_activeProjectionCount p + 1) (Z.max 0 (p_pendingProjectionCount p - 1)) p)
             | None => p
             end
      else None
  end.

(** [finally], and what follows it. *)
Definition finishRun (id : Z) (slug : string) (p : Proj) : Proj :=
  let p := with_runs (jm_del id (p_runs p))
             (with_state slug (st_running false (getState slug p))
                (Z.max 0 (p_activeProjectionCount p - 1)) (p_pendingProjectionCount p) p) in
  let st := getState slug p in
  if negb (p_stopped p) && is_some (latestSnapshot st) && negb (is_some (timer st)) then schedule slug p else p.

(** The write of the run [id] settles: with an outcome, or with an error that is then
    to be recorded. *)
Definition writeSettles (id : Z) (outcome : result WriteOutcome) (p : Proj) : option Proj :=
  match jm_get id (p_runs p) with
  | None => None
  | Some r =>
      if run_recording r then None
      else
        let slug := run_slug r in
        let st := st_completed (p_now p) (getState slug p) in
        let set st p := with_state slug st (p_activeProjectionCount p) (p_pendingProjectionCount p) p in
        Some match outcome with
             | Ok Published =>
                 finishRun id slug
                   (set (st_published (p_now p) (sn_refreshedAt (run_snapshot r)) (run_version r) st) p)
             | Ok NotPublished => finishRun id slug (set st p)
             | Err _ =>
                 let r' := {| run_slug := slug; run_snapshot := run_snapshot r; run_version := run_version r;
                              run_reason := run_reason r; run_startedAt := run_startedAt r;
                              run_after := run_after r; run_recording := true |} in
                 with_runs (jm_set id r' (p_runs p)) (set st p)
             end
  end.

(** The record of an error settles, either way. *)
Definition recordSettles (id : Z) (p : Proj) : option Proj :=
  match jm_get id (p_runs p) with
  | None => None
  | Some r => if run_recording r then Some (finishRun id (run_slug r) p) else None
  end.

Definition stop (p : Proj) : Proj := {|
  p_states := map (fun '(slug, st) => (slug, st_taken (st_timer None st))) (p_states p);
  p_runs := p_runs p; p_activeProjectionCount := p_activeProjectionCount p;
  p_pendingProjectionCount := 0; p_stopped := true;
  p_watchedCollections := p_watchedCollections p; p_nextId := p_nextId p; p_now := p_now p;
  p_requests := p_requests p; p_started := p_started p |}.

Record BiddingPublicationHealth := {
  watchedCollections : Z;
  missingCollections : Z;
  laggingCollections : Z;
  oldestPublishedAtMs : option Z;
  oldestPublishedSnapshotAtMs : option Z;
}.

Definition earliest (old : option Z) (t : Z) : option Z :=
  Some match old with None => t | Some o => Z.min o t end.

Definition readPublicationHealth (p : Proj) : BiddingPublicationHealth :=
  fold_left (fun h slug =>
      let state := jm_get slug (p_states p) in
      let lag := match state with
                 | Some st => if publishedVersion st <? requestedVersion st then 1 else 0
                 | None => 0
                 end in
      match state ≫= publishedAt, state ≫= publishedSnapshotAt with
      | Some at_, Some snapshotAt =>
          {| watchedCollections := watchedCollections h; missingCollections := missingCollections h;
             laggingCollections := laggingCollections h + lag;
             oldestPublishedAtMs := earliest (oldestPublishedAtMs h) at_;
             oldestPublishedSnapshotAtMs := earliest (oldestPublishedSnapshotAtMs h) snapshotAt |}
      | _, _ =>
          {| watchedCollections := watchedCollections h; missingCollections := missingCollections h + 1;
             laggingCollections := laggingCollections h + lag;
             oldestPublishedAtMs := oldestPublishedAtMs h;
             oldestPublishedSnapshotAtMs := oldestPublishedSnapshotAtMs h |}
      end)
    (p_watchedCollections p)
    {| watchedCollections := Z.of_nat (length (p_watchedCollections p)); missingCollections := 0;
       laggingCollections := 0; oldestPublishedAtMs := None; oldestPublishedSnapshotAtMs := None |}.

(** ** What may happen next *)

Inductive step : Proj -> Proj -> Prop :=
  | s_request snapshot reason p : step p (requestProjection snapshot reason p)
  | s_fire slug p p' : fireTimer slug p = Some p' -> step p p'
  | s_write id outcome p p' : writeSettles id outcome p = Some p' -> step p p'
  | s_record id p p' : recordSettles id p = Some p' -> step p p'
  | s_stop p : step p (stop p)
  | s_watch collections p : step p (reconcileWatchedCollections collections p)
  | s_tick d p : 0 <= d -> step p (with_now (p_now p + d) p).

Inductive reachable : Proj -> Prop :=
  | r_create watched now : 0 < now -> reachable (create watched now)
  | r_step p p' : reachable p -> step p p' -> reachable p'.

End Scheduler.
End Projection.
