(* ===== verification/ProjectionInv.v ===== *)
(** * The invariant of the projection scheduler

    [proj_wf] ties the states of the collections to the runs in flight, the timers
    and the log of requests; each operation keeps it.  [ProjectionClaims] draws the
    consequences. *)

From S2P Require Import Prelude JsValue Snapshots Projection.
From Stdlib Require Import Sorted.

Open Scope Z_scope.

Module ProjectionInv.
Import Snapshots Projection.

(** The snapshots requested for [slug], in order. *)
Definition requestsOf (slug : string) (p : Proj) : list CollectionOfferSnapshot :=
  filter (fun sn => sn_collectionSlug sn = slug) (p_requests p).

Definition versionOf (slug : string) (p : Proj) : Z := Z.of_nat (length (requestsOf slug p)).

(** The [n]-th snapshot requested for [slug]. *)
Definition requested (slug : string) (n : Z) (p : Proj) : option CollectionOfferSnapshot :=
  if n <=? 0 then None else requestsOf slug p !! Z.to_nat (n - 1).

Definition writing (r : Run) : Run := {|
  run_slug := run_slug r; run_snapshot := run_snapshot r; run_version := run_version r;
  run_reason := run_reason r; run_startedAt := run_startedAt r; run_after := run_after r;
  run_recording := false |}.

Section Inv.
Context (throttleMs : Z).

Definition throttled (after at_ : Z) : Prop := after = 0 \/ after + throttleMs <= at_.

Record run_ok (r : Run) (p : Proj) : Prop := {
  k_snapshot : requested (run_slug r) (run_version r) p = Some (run_snapshot r);
  k_version : 1 <= run_version r <= versionOf (run_slug r) p;
  k_throttled : throttled (run_after r) (run_startedAt r);
  k_started : run_startedAt r <= p_now p;
}.

Record state_ok (slug : string) (st : ProjectionState) (p : Proj) : Prop := {
  t_running : running st = true -> exists id r, jm_get id (p_runs p) = Some r /\ run_slug r = slug;
  t_timer : forall due, timer st = Some due ->
    running st = false /\ is_Some (latestSnapshot st) /\ p_stopped p = false /\ throttled (lastCompletedAt st) due;
  t_latest : forall sn, latestSnapshot st = Some sn ->
    p_stopped p = false /\ (running st = true \/ is_Some (timer st)) /\
    requested slug (requestedVersion st) p = Some sn /\
    forall r, In r (p_started p) -> run_slug r = slug -> run_version r < requestedVersion st;
  t_version : requestedVersion st = versionOf slug p;
  t_published : 0 <= publishedVersion st <= requestedVersion st /\
    (publishedVersion st = 0 \/ exists r, In r (p_started p) /\ run_slug r = slug /\
       run_version r = publishedVersion st /\ publishedSnapshotAt st = Some (sn_refreshedAt (run_snapshot r)));
  t_taken : p_stopped p = false -> latestSnapshot st = None -> 0 < requestedVersion st ->
    exists r, In r (p_started p) /\ run_slug r = slug /\ run_version r = requestedVersion st;
}.

Record proj_wf (p : Proj) : Prop := {
  v_states : jm_wf (p_states p);
  v_active : p_activeProjectionCount p = jm_sum (fun st => if running st then 1 else 0) (p_states p);
  v_pending : p_pendingProjectionCount p =
    jm_sum (fun st => if is_some (latestSnapshot st) then 1 else 0) (p_states p);
  v_ok : forall slug st, jm_get slug (p_states p) = Some st -> state_ok slug st p;
  v_absent : forall slug, jm_get slug (p_states p) = None -> requestsOf slug p = [];
  v_runs : forall id r, jm_get id (p_runs p) = Some r -> In (writing r) (p_started p) /\
    exists st, jm_get (run_slug r) (p_states p) = Some st /\ running st = true /\ publishedVersion st < run_version r;
  v_unique : forall id id' r r', jm_get id (p_runs p) = Some r -> jm_get id' (p_runs p) = Some r' ->
    run_slug r = run_slug r' -> id = id';
  v_started : forall r, In r (p_started p) -> run_ok r p;
  v_ids : forall id, p_nextId p <= id -> jm_get id (p_runs p) = None;
  v_now : 0 < p_now p;
}.

Lemma proj_create_wf watched now : 0 < now -> proj_wf (create watched now).
Proof. intros Hn. split; simpl; try done. apply jm_wf_nil. Qed.

(** ** States *)

Lemma getState_get slug p st : jm_get slug (p_states p) = Some st -> getState slug p = st.
Proof. intros H. unfold getState. by rewrite H. Qed.

Lemma getState_set slug st a n p : getState slug (with_state slug st a n p) = st.
Proof. unfold getState. simpl. by rewrite jm_get_set_eq. Qed.

Lemma proj_with_state_twice slug st st' a a' n n' p :
  with_state slug st a n (with_state slug st' a' n' p) = with_state slug st a n p.
Proof. unfold with_state. simpl. by rewrite jm_set_set. Qed.

(** The state a collection has, or starts with. *)
Lemma getState_ok slug p : proj_wf p -> state_ok slug (getState slug p) p.
Proof.
  intros W. unfold getState. destruct (jm_get slug (p_states p)) as [st|] eqn:E; [by apply W|].
  pose proof (v_absent _ W _ E) as Ha. split; simpl; try done.
  - unfold versionOf. by rewrite Ha.
  - split; [lia|by left].
Qed.

Lemma sums_set f slug st p : proj_wf p -> f (getState slug p) = of_opt f (jm_get slug (p_states p)) ->
  jm_sum f (jm_set slug st (p_states p)) = jm_sum f (p_states p) - f (getState slug p) + f st.
Proof. intros W E. by rewrite jm_sum_set, E. Qed.

Lemma of_state (f : ProjectionState -> Z) slug p :
  (jm_get slug (p_states p) = None -> f (getState slug p) = 0) ->
  of_opt f (jm_get slug (p_states p)) = f (getState slug p).
Proof. unfold getState. destruct (jm_get slug (p_states p)); simpl; intros H; [done|by rewrite H]. Qed.

Lemma requestsOf_log slug sn p :
  requestsOf slug (log_request sn p) =
    requestsOf slug p ++ (if decide (sn_collectionSlug sn = slug) then [sn] else []).
Proof.
  unfold requestsOf. simpl. by rewrite filter_app.
Qed.

Lemma requested_log slug n sn sn' p : requested slug n p = Some sn' ->
  requested slug n (log_request sn p) = Some sn'.
Proof.
  unfold requested. destruct (n <=? 0); [done|]. rewrite requestsOf_log. apply lookup_app_l_Some.
Qed.

Lemma versionOf_log slug sn p : versionOf slug (log_request sn p) =
  versionOf slug p + (if decide (sn_collectionSlug sn = slug) then 1 else 0).
Proof. unfold versionOf. rewrite requestsOf_log, length_app. case_decide; simpl; lia. Qed.

Lemma requested_new sn p : requested (sn_collectionSlug sn) (versionOf (sn_collectionSlug sn) p + 1) (log_request sn p) = Some sn.
Proof.
  unfold requested, versionOf. destruct (Z.leb_spec (Z.of_nat (length (requestsOf (sn_collectionSlug sn) p)) + 1) 0); [lia|].
  rewrite requestsOf_log, decide_True by done. rewrite lookup_app_r by lia.
  replace (Z.to_nat _ - _)%nat with 0%nat by lia. done.
Qed.

Lemma run_ok_log sn r p : run_ok r p -> run_ok r (log_request sn p).
Proof.
  intros []. split; [by apply requested_log| |done|done]. rewrite versionOf_log. case_decide; lia.
Qed.

Definition delayed (p : Proj) (st : ProjectionState) : Z :=
  p_now p + (if lastCompletedAt st =? 0 then 0 else Z.max 0 (throttleMs - (p_now p - lastCompletedAt st))).

Lemma delayed_throttled p st : throttled (lastCompletedAt st) (delayed p st).
Proof. unfold throttled, delayed. destruct (Z.eqb_spec (lastCompletedAt st) 0); [by left|right; lia]. Qed.

Definition asked (sn : CollectionOfferSnapshot) (reason : string) (p : Proj) : ProjectionState :=
  let st := getState (sn_collectionSlug sn) p in
  let st1 := st_request sn (mergeReasons (pendingReason st) reason) (p_now p) st in
  if running st || is_some (timer st) then st1 else st_timer (Some (delayed p st)) st1.

Lemma requestProjection_eq sn reason p : p_stopped p = false ->
  requestProjection throttleMs sn reason p =
    log_request sn (with_state (sn_collectionSlug sn) (asked sn reason p) (p_activeProjectionCount p)
      (p_pendingProjectionCount p + (if is_some (latestSnapshot (getState (sn_collectionSlug sn) p)) then 0 else 1)) p).
Proof.
  intros Hs. unfold requestProjection, asked. rewrite Hs.
  destruct (_ || _); [done|]. unfold schedule.
  assert (forall st a n, getState (sn_collectionSlug sn) (log_request sn (with_state (sn_collectionSlug sn) st a n p)) = st) as E.
  { intros st a n. exact (getState_set _ st a n p). }
  rewrite E. unfold log_request, with_state. simpl. by rewrite jm_set_set.
Qed.

Lemma asked_fields sn reason p : let st := getState (sn_collectionSlug sn) p in
  let st' := asked sn reason p in
  running st' = running st /\ latestSnapshot st' = Some sn /\ lastCompletedAt st' = lastCompletedAt st /\
  requestedVersion st' = requestedVersion st + 1 /\ publishedVersion st' = publishedVersion st /\
  publishedSnapshotAt st' = publishedSnapshotAt st /\
  timer st' = (if running st || is_some (timer st) then timer st else Some (delayed p st)).
Proof. simpl. unfold asked. by destruct (_ || _). Qed.

Lemma state_ok_log slug st sn p : sn_collectionSlug sn <> slug -> state_ok slug st p -> state_ok slug st (log_request sn p).
Proof.
  intros Hne []. split; simpl; try done.
  - intros sn' Hl. destruct (t_latest0 sn' Hl) as (?&?&?&?). split_and!; try done. by apply requested_log.
  - rewrite versionOf_log, decide_False by done. lia.
Qed.

Lemma request_wf sn reason p : proj_wf p -> proj_wf (requestProjection throttleMs sn reason p).
Proof.
  intros W. destruct (p_stopped p) eqn:Hs; [unfold requestProjection; by rewrite Hs|].
  rewrite requestProjection_eq by done. pose proof (getState_ok (sn_collectionSlug sn) p W) as Hok.
  destruct (asked_fields sn reason p) as (F1&F2&F3&F4&F5&F6&F7).
  set (slug := sn_collectionSlug sn) in *. set (st := getState slug p) in *. set (st' := asked sn reason p) in *.
  split; simpl.
  - apply jm_wf_set, W.
  - rewrite jm_sum_set, (of_state (fun st => if running st then 1 else 0)), (v_active _ W); [fold st; rewrite F1; lia|].
    intros E. unfold getState. by rewrite E.
  - rewrite jm_sum_set, (of_state (fun st => if is_some (latestSnapshot st) then 1 else 0)), (v_pending _ W).
    { simpl. fold st. rewrite F2. simpl. destruct (latestSnapshot st); simpl; lia. }
    intros E. unfold getState. by rewrite E.
  - intros slug' st1. rewrite jm_get_set. case_decide as Hd.
    2:{ intros Hg. apply state_ok_log; [done|]. destruct (v_ok _ W _ _ Hg). by split. }
    intros [= <-]. subst slug'. destruct Hok. split; simpl; rewrite ?F1, ?F2, ?F3, ?F4, ?F5, ?F6, ?F7.
    + done.
    + intros due. destruct (running st) eqn:Er; simpl; [intros Hd; by destruct (t_timer0 due Hd)|].
      destruct (timer st) as [d|] eqn:Et; simpl; intros [= <-].
      * destruct (t_timer0 d eq_refl) as (_&_&?&?). by split_and!.
      * split_and!; try done. apply delayed_throttled.
    + intros sn' [= <-]. split_and!; [done| | |].
      * destruct (running st); [by left|right]. by destruct (timer st).
      * rewrite t_version0. exact (requested_new sn p).
      * intros r Hin Hr. destruct (v_started _ W r Hin). rewrite t_version0, <- Hr. lia.
    + pose proof (versionOf_log slug sn p) as E. rewrite decide_True in E by done. rewrite t_version0. symmetry. exact E.
    + destruct t_published0 as [? ?]. split; [lia|done].
    + done.
  - intros slug'. rewrite jm_get_set. case_decide as Hd; [done|]. intros Hg. rewrite requestsOf_log, decide_False by done.
    rewrite app_nil_r. by apply (v_absent _ W).
  - intros id r Hr. destruct (v_runs _ W id r Hr) as (Hin & st1 & Hst & Hrun & Hv). split; [done|].
    rewrite jm_get_set. case_decide as Hd; [|by exists st1]. exists st'. rewrite <- Hd in Hst.
    apply getState_get in Hst. fold st in Hst. subst st1. by rewrite F1, F5.
  - apply W.
  - intros r Hin. apply run_ok_log. destruct (v_started _ W r Hin). by split.
  - apply W.
  - apply W.
Qed.

(** ** A run starts *)

Definition startedRun (slug : string) (sn : CollectionOfferSnapshot) (p : Proj) : Run :=
  let st := getState slug p in
  {| run_slug := slug; run_snapshot := sn; run_version := requestedVersion st;
     run_reason := default "unspecified" (pendingReason st); run_startedAt := p_now p;
     run_after := lastCompletedAt st; run_recording := false |}.

Definition startRun (slug : string) (sn : CollectionOfferSnapshot) (p : Proj) : Proj :=
  launch (startedRun slug sn p)
    (with_state slug (st_running true (st_taken (st_timer None (getState slug p))))
       (p_activeProjectionCount p + 1) (p_pendingProjectionCount p - 1) p).

Lemma latest_counted slug st p : proj_wf p -> jm_get slug (p_states p) = Some st -> is_Some (latestSnapshot st) ->
  1 <= p_pendingProjectionCount p.
Proof.
  intros W E [sn Hl]. rewrite (v_pending _ W).
  pose proof (jm_sum_del_le (fun st => if is_some (latestSnapshot st) then 1 else 0) slug (p_states p)) as H.
  rewrite E in H. simpl in H. rewrite Hl in H. simpl in H.
  assert (0 <= jm_sum (fun st => if is_some (latestSnapshot st) then 1 else 0) (jm_del slug (p_states p))).
  { apply jm_sum_nonneg. intros v. by case_match. }
  specialize (H ltac:(intros v; by case_match)). lia.
Qed.

Lemma fireTimer_inv slug p p' : proj_wf p -> fireTimer slug p = Some p' ->
  exists st due sn, jm_get slug (p_states p) = Some st /\ timer st = Some due /\ due <= p_now p /\
    latestSnapshot st = Some sn /\ running st = false /\ p_stopped p = false /\ throttled (lastCompletedAt st) due /\
    p' = startRun slug sn p.
Proof.
  intros W. unfold fireTimer. destruct (timer (getState slug p)) as [due|] eqn:Et; [|done].
  destruct (Z.leb_spec due (p_now p)) as [Hdue|]; [|done]. intros [= <-].
  assert (jm_get slug (p_states p) = Some (getState slug p)) as E.
  { unfold getState in *. by destruct (jm_get slug _). }
  pose proof (getState_ok slug p W) as Hok. destruct (t_timer _ _ _ Hok due Et) as (Hr & [sn Hl] & Hs & Hth).
  exists (getState slug p), due, sn. split_and!; try done. simpl. rewrite Hl, Hs, Hr. simpl.
  unfold startRun. rewrite proj_with_state_twice. do 3 f_equal.
  pose proof (latest_counted slug _ p W E ltac:(by rewrite Hl)). lia.
Qed.

Lemma startRun_wf slug st due sn p : proj_wf p -> jm_get slug (p_states p) = Some st -> timer st = Some due ->
  due <= p_now p -> latestSnapshot st = Some sn -> proj_wf (startRun slug sn p).
Proof.
  intros W E Et Hdue Hl. destruct (v_ok _ W _ _ E).
  destruct (t_timer0 due Et) as (Hr & _ & Hs & Hth). destruct (t_latest0 sn Hl) as (_ & _ & Hreq & Hnew).
  unfold startRun, startedRun. rewrite (getState_get _ _ _ E). set (r := {| run_slug := slug |}).
  assert (1 <= requestedVersion st) as Hpos.
  { unfold requested in Hreq. destruct (Z.leb_spec (requestedVersion st) 0); [done|lia]. }
  assert (run_ok r p) as Hrun.
  { split; simpl; [done|lia| |lia]. unfold throttled in *. lia. }
  assert (forall q r', run_ok r' p -> p_requests q = p_requests p -> p_now q = p_now p -> run_ok r' q) as Hsame.
  { intros q r' [K1 K2 K3 K4] Eq En. split; [..|by rewrite En]; unfold requested, versionOf, requestsOf in *; rewrite ?Eq; done. }
  split; simpl.
  - apply jm_wf_set, W.
  - rewrite jm_sum_set, E, (v_active _ W). simpl. rewrite Hr. lia.
  - rewrite jm_sum_set, E, (v_pending _ W). simpl. rewrite Hl. simpl. lia.
  - intros slug' st1. rewrite jm_get_set. case_decide as Hd.
    + intros [= <-]. subst slug'. split; simpl; try done.
      * intros _. exists (p_nextId p), r. by rewrite jm_get_set_eq.
      * destruct t_published0 as [? [?|(r0 & ?&?&?&?)]]; (split; [done|]); [by left|right].
        exists r0. split_and!; try done. apply in_or_app. by left.
      * intros _ _ _. exists r. split_and!; try done. apply in_or_app. right. by left.
    + intros Hg. destruct (v_ok _ W _ _ Hg). split; simpl; try done.
      * intros Hrn. destruct (t_running1 Hrn) as (id & r1 & Hid & Hsl). exists id, r1. split; [|done].
        rewrite jm_get_set. case_decide; [|done]. subst id. by rewrite (v_ids _ W) in Hid by lia.
      * intros sn' Hl'. destruct (t_latest1 sn' Hl') as (?&?&?&Hn). split_and!; try done.
        intros r1 [Hin|[<-|[]]]%in_app_or; [by apply Hn|done].
      * destruct t_published1 as [? [?|(r0 & ?&?&?&?)]]; (split; [done|]); [by left|right].
        exists r0. split_and!; try done. apply in_or_app. by left.
      * intros H1 H2 H3. destruct (t_taken1 H1 H2 H3) as (r0 & ?&?&?). exists r0. split_and!; try done.
        apply in_or_app. by left.
  - intros slug'. rewrite jm_get_set. case_decide; [done|]. apply (v_absent _ W).
  - intros id r1. rewrite jm_get_set. case_decide as Hd.
    + intros [= <-]. split; [apply in_or_app; right; by left|]. simpl. rewrite jm_get_set_eq. eexists. split; [done|].
      split; [done|]. simpl. destruct t_published0 as [? [?|(r0 & Hin & Hsl & <- & _)]]; [lia|]. by apply Hnew.
    + intros Hg. destruct (v_runs _ W _ _ Hg) as (Hin & st1 & H1 & H2 & H3). split; [apply in_or_app; by left|].
      rewrite jm_get_set. case_decide; [|by exists st1]. subst slug. simplify_eq. congruence.
  - assert (forall id r1, jm_get id (p_runs p) = Some r1 -> run_slug r1 <> slug) as Hno.
    { intros id r1 Hg Heq. destruct (v_runs _ W _ _ Hg) as (_ & st1 & H1 & H2 & _). rewrite Heq in H1. congruence. }
    intros id id' r1 r2. rewrite !jm_get_set. repeat case_decide; subst; try done.
    + intros [= <-] Hg Heq. by destruct (Hno _ _ Hg).
    + intros Hg [= <-] Heq. by destruct (Hno _ _ Hg).
    + apply (v_unique _ W).
  - intros r1 [Hin|[<-|[]]]%in_app_or; [by apply Hsame; [apply (v_started _ W)|..]|by apply Hsame].
  - intros id Hid. rewrite jm_get_set. case_decide; [lia|]. apply (v_ids _ W). lia.
  - apply W.
Qed.

(** ** A run ends *)

Definition finished (st : ProjectionState) (p : Proj) : ProjectionState :=
  let st' := st_running false st in
  if negb (p_stopped p) && is_some (latestSnapshot st) && negb (is_some (timer st))
  then st_timer (Some (delayed p st)) st' else st'.

Lemma running_counted slug st p : proj_wf p -> jm_get slug (p_states p) = Some st -> running st = true ->
  1 <= p_activeProjectionCount p.
Proof.
  intros W E Hr. rewrite (v_active _ W).
  pose proof (jm_sum_del_le (fun st => if running st then 1 else 0) slug (p_states p)) as H.
  rewrite E in H. simpl in H. rewrite Hr in H.
  assert (0 <= jm_sum (fun st => if running st then 1 else 0) (jm_del slug (p_states p))).
  { apply jm_sum_nonneg. intros v. by case_match. }
  specialize (H ltac:(intros v; by case_match)). lia.
Qed.

Lemma finishRun_eq id slug st2 p : 1 <= p_activeProjectionCount p ->
  finishRun throttleMs id slug (with_state slug st2 (p_activeProjectionCount p) (p_pendingProjectionCount p) p) =
    with_runs (jm_del id (p_runs p)) (with_state slug (finished st2 p) (p_activeProjectionCount p - 1)
      (p_pendingProjectionCount p) p).
Proof.
  intros Ha. unfold finishRun. rewrite getState_set, proj_with_state_twice.
  replace (Z.max 0 (p_activeProjectionCount (with_state slug st2 (p_activeProjectionCount p)
    (p_pendingProjectionCount p) p) - 1)) with (p_activeProjectionCount p - 1) by (simpl; lia).
  simpl p_runs. simpl p_pendingProjectionCount.
  assert (forall st a n R, getState slug (with_runs R (with_state slug st a n p)) = st) as E.
  { intros st a n R. exact (getState_set slug st a n p). }
  unfold finished. rewrite E. simpl. destruct (_ && _); [|done].
  unfold schedule. rewrite E. unfold with_runs, with_state. simpl. by rewrite jm_set_set.
Qed.

(** What a run may leave in the state of its collection. *)
Definition left_by (r : Run) (st st2 : ProjectionState) : Prop :=
  latestSnapshot st2 = latestSnapshot st /\ timer st2 = timer st /\ requestedVersion st2 = requestedVersion st /\
  (publishedVersion st2 = publishedVersion st /\ publishedSnapshotAt st2 = publishedSnapshotAt st \/
   publishedVersion st2 = run_version r /\ publishedSnapshotAt st2 = Some (sn_refreshedAt (run_snapshot r))).

Lemma finished_fields st2 p : running (finished st2 p) = false /\
  latestSnapshot (finished st2 p) = latestSnapshot st2 /\ lastCompletedAt (finished st2 p) = lastCompletedAt st2 /\
  requestedVersion (finished st2 p) = requestedVersion st2 /\ publishedVersion (finished st2 p) = publishedVersion st2 /\
  publishedSnapshotAt (finished st2 p) = publishedSnapshotAt st2 /\
  timer (finished st2 p) = (if negb (p_stopped p) && is_some (latestSnapshot st2) && negb (is_some (timer st2))
                            then Some (delayed p st2) else timer st2).
Proof. unfold finished. by destruct (_ && _). Qed.

Lemma run_state id r p : proj_wf p -> jm_get id (p_runs p) = Some r ->
  let st := getState (run_slug r) p in
  jm_get (run_slug r) (p_states p) = Some st /\ running st = true /\ timer st = None /\ publishedVersion st < run_version r.
Proof.
  intros W Hr. destruct (v_runs _ W _ _ Hr) as (_ & st & E & Hrun & Hv). rewrite (getState_get _ _ _ E).
  split_and!; try done. destruct (timer st) as [due|] eqn:Et; [|done].
  destruct (t_timer _ _ _ (v_ok _ W _ _ E) due Et) as [? _]. congruence.
Qed.

Lemma proj_finish_wf id r st2 p : proj_wf p -> jm_get id (p_runs p) = Some r ->
  left_by r (getState (run_slug r) p) st2 ->
  proj_wf (with_runs (jm_del id (p_runs p)) (with_state (run_slug r) (finished st2 p) (p_activeProjectionCount p - 1)
    (p_pendingProjectionCount p) p)).
Proof.
  intros W Hr. destruct (run_state id r p W Hr) as (E & Hrun & Ht & Hv).
  destruct (finished_fields st2 p) as (F1&F2&F3&F4&F5&F6&F7).
  set (st := getState (run_slug r) p) in *. set (st3 := finished st2 p) in *.
  intros (L1 & L2 & L3 & L4). destruct (v_ok _ W _ _ E).
  destruct (v_runs _ W _ _ Hr) as (Hwr & _). pose proof (v_started _ W _ Hwr) as Hok.
  split; simpl.
  - apply jm_wf_set, W.
  - rewrite jm_sum_set, E, (v_active _ W). simpl. rewrite Hrun, F1. lia.
  - rewrite jm_sum_set, E, (v_pending _ W). simpl. rewrite F2, L1. lia.
  - intros slug' st1. rewrite jm_get_set. case_decide as Hd.
    + intros [= <-]. subst slug'. split; rewrite ?F1, ?F2, ?F3, ?F4, ?F5, ?F6, ?F7, ?L1, ?L2, ?L3; simpl.
      * done.
      * intros due. rewrite Ht. simpl. rewrite andb_true_r. destruct (p_stopped p) eqn:Es; [done|]. simpl.
        destruct (latestSnapshot st) as [sn|] eqn:El; [|done]. simpl. intros [= <-].
        split_and!; try done. apply delayed_throttled.
      * intros sn Hl. destruct (t_latest0 sn Hl) as (Hs & _ & Hq & Hn). split_and!; try done.
        right. rewrite Hs, Hl, Ht. done.
      * done.
      * destruct t_published0 as [Hb Hp]. destruct L4 as [[-> ->]|[-> ->]]; [done|].
        pose proof (k_version _ _ Hok) as Hkv. simpl in Hkv. split; [rewrite t_version0; lia|].
        right. by exists (writing r).
      * done.
    + intros Hg. destruct (v_ok _ W _ _ Hg). split; simpl; try done.
      intros Hrn. destruct (t_running1 Hrn) as (id1 & r1 & Hid & Hsl). exists id1, r1. split; [|done].
      rewrite jm_get_del. case_decide; [|done]. congruence.
  - intros slug'. rewrite jm_get_set. case_decide; [done|]. apply (v_absent _ W).
  - intros id1 r1. rewrite jm_get_del. case_decide as Hd; [done|]. intros Hg.
    destruct (v_runs _ W _ _ Hg) as (Hin & st1 & H1 & H2 & H3). split; [done|].
    rewrite jm_get_set. case_decide as Hd'; [|by exists st1].
    exfalso. apply Hd. by apply (v_unique _ W _ _ r r1).
  - intros id1 id2 r1 r2. rewrite !jm_get_del. repeat case_decide; try done. apply (v_unique _ W).
  - intros r1 Hin. destruct (v_started _ W _ Hin). by split.
  - intros id1 Hid. rewrite jm_get_del. case_decide; [done|]. by apply (v_ids _ W).
  - apply W.
Qed.

(** The error of a write is about to be recorded. *)
Lemma recording_wf id r p : proj_wf p -> jm_get id (p_runs p) = Some r ->
  let r' := {| run_slug := run_slug r; run_snapshot := run_snapshot r; run_version := run_version r;
               run_reason := run_reason r; run_startedAt := run_startedAt r; run_after := run_after r;
               run_recording := true |} in
  proj_wf (with_runs (jm_set id r' (p_runs p)) (with_state (run_slug r) (st_completed (p_now p) (getState (run_slug r) p))
    (p_activeProjectionCount p) (p_pendingProjectionCount p) p)).
Proof.
  intros W Hr r'. destruct (run_state id r p W Hr) as (E & Hrun & Ht & Hv).
  set (st := getState (run_slug r) p) in *. destruct (v_ok _ W _ _ E).
  split; simpl.
  - apply jm_wf_set, W.
  - rewrite jm_sum_set, E, (v_active _ W). simpl. lia.
  - rewrite jm_sum_set, E, (v_pending _ W). simpl. lia.
  - assert (forall slug, (exists id1 r1, jm_get id1 (p_runs p) = Some r1 /\ run_slug r1 = slug) ->
      exists id1 r1, jm_get id1 (jm_set id r' (p_runs p)) = Some r1 /\ run_slug r1 = slug) as Hruns.
    { intros slug (id1 & r1 & H1 & H2). destruct (decide (id = id1)) as [->|Hne].
      - exists id1, r'. rewrite jm_get_set_eq. simplify_eq. done.
      - exists id1, r1. by rewrite jm_get_set_ne. }
    intros slug' st1. rewrite jm_get_set. case_decide as Hd.
    + intros [= <-]. subst slug'. split; simpl; try done; [by intros ?; apply Hruns, t_running0|].
      intros due. by rewrite Ht.
    + intros Hg. destruct (v_ok _ W _ _ Hg). split; simpl; try done. intros ?. by apply Hruns, t_running1.
  - intros slug'. rewrite jm_get_set. case_decide; [done|]. apply (v_absent _ W).
  - intros id1 r1. rewrite jm_get_set. case_decide as Hd.
    + intros [= <-]. split; [exact (proj1 (v_runs _ W _ _ Hr))|]. simpl. rewrite jm_get_set_eq. by eexists.
    + intros Hg. destruct (v_runs _ W _ _ Hg) as (Hin & st1 & H1 & H2 & H3). split; [done|].
      rewrite jm_get_set. case_decide as Hd'; [|by exists st1].
      exfalso. apply Hd. by apply (v_unique _ W _ _ r r1).
  - intros id1 id2 r1 r2. rewrite !jm_get_set. repeat case_decide; subst; try done.
    + intros [= <-] Hg Heq. by apply (v_unique _ W _ _ r r2).
    + intros Hg [= <-] Heq. by apply (v_unique _ W _ _ r1 r).
    + apply (v_unique _ W).
  - intros r1 Hin. destruct (v_started _ W _ Hin). by split.
  - intros id1 Hid. rewrite jm_get_set. case_decide; [|by apply (v_ids _ W)]. subst. by rewrite (v_ids _ W) in Hr.
  - apply W.
Qed.

(** A write that settles ends its run, or leaves the error to be recorded. *)
Lemma writeSettles_inv id outcome p p' : proj_wf p -> writeSettles throttleMs id outcome p = Some p' ->
  exists r, jm_get id (p_runs p) = Some r /\ run_recording r = false /\
    ((exists st2, outcome <> Ok Published /\ left_by r (getState (run_slug r) p) st2 /\
        publishedVersion st2 = publishedVersion (getState (run_slug r) p) /\
        p' = with_runs (jm_del id (p_runs p)) (with_state (run_slug r) (finished st2 p)
               (p_activeProjectionCount p - 1) (p_pendingProjectionCount p) p)) \/
     (outcome = Ok Published /\ exists st2, left_by r (getState (run_slug r) p) st2 /\
        publishedVersion st2 = run_version r /\
        p' = with_runs (jm_del id (p_runs p)) (with_state (run_slug r) (finished st2 p)
               (p_activeProjectionCount p - 1) (p_pendingProjectionCount p) p)) \/
     (exists e, outcome = Err e /\
        p' = with_runs (jm_set id {| run_slug := run_slug r; run_snapshot := run_snapshot r;
               run_version := run_version r; run_reason := run_reason r; run_startedAt := run_startedAt r;
               run_after := run_after r; run_recording := true |} (p_runs p))
             (with_state (run_slug r) (st_completed (p_now p) (getState (run_slug r) p))
               (p_activeProjectionCount p) (p_pendingProjectionCount p) p))).
Proof.
  intros W. unfold writeSettles. destruct (jm_get id (p_runs p)) as [r|] eqn:Hr; [|done].
  destruct (run_recording r) eqn:Erec; [done|]. intros [= <-]. exists r. split; [done|]. split; [done|].
  destruct (run_state id r p W Hr) as (E & Hrun & _). pose proof (running_counted _ _ _ W E Hrun) as Ha.
  destruct outcome as [[]|e].
  - right; left. split; [done|].
    exists (st_published (p_now p) (sn_refreshedAt (run_snapshot r)) (run_version r)
              (st_completed (p_now p) (getState (run_slug r) p))).
    rewrite finishRun_eq by done. split; [|done]. do 3 (split; [done|]). by right.
  - left. exists (st_completed (p_now p) (getState (run_slug r) p)).
    rewrite finishRun_eq by done. split; [done|]. split; [|done]. do 3 (split; [done|]). by left.
  - right; right. by exists e.
Qed.

Lemma writeSettles_wf id outcome p p' : proj_wf p -> writeSettles throttleMs id outcome p = Some p' -> proj_wf p'.
Proof.
  intros W (r & Hr & _ & [(st2 & _ & Hl & _ & ->)|[(_ & st2 & Hl & _ & ->)|(e & _ & ->)]])%writeSettles_inv;
    [by apply proj_finish_wf..|by apply recording_wf|done].
Qed.

Lemma recordSettles_inv id p p' : proj_wf p -> recordSettles throttleMs id p = Some p' ->
  exists r, jm_get id (p_runs p) = Some r /\
    p' = with_runs (jm_del id (p_runs p)) (with_state (run_slug r) (finished (getState (run_slug r) p) p)
           (p_activeProjectionCount p - 1) (p_pendingProjectionCount p) p).
Proof.
  intros W. unfold recordSettles. destruct (jm_get id (p_runs p)) as [r|] eqn:Hr; [|done].
  destruct (run_recording r); [|done]. intros [= <-]. exists r. split; [done|].
  destruct (run_state id r p W Hr) as (E & Hrun & _). pose proof (running_counted _ _ _ W E Hrun) as Ha.
  rewrite <- finishRun_eq by done. f_equal.
  destruct p as [S R a n s w i now q z]. unfold with_state. simpl in *. f_equal.
  clear -E. revert E. unfold getState. simpl. generalize (run_slug r). intros slug.
  destruct (jm_get slug S) as [st|] eqn:Es; simpl; [intros _|done].
  induction S as [|[k v] S IH]; simpl in *; [done|]. case_decide; subst; [by simplify_eq|]. by rewrite <- IH.
Qed.

Lemma recordSettles_wf id p p' : proj_wf p -> recordSettles throttleMs id p = Some p' -> proj_wf p'.
Proof.
  intros W (r & Hr & ->)%recordSettles_inv; [|done]. apply proj_finish_wf; [done|done|]. split_and!; try done. by left.
Qed.

Lemma proj_stop_wf p : proj_wf p -> proj_wf (stop p).
Proof.
  intros W. set (cleared := fun st => st_taken (st_timer None st)).
  assert (p_states (stop p) = map (fun '(k, st) => (k, cleared st)) (p_states p)) as Es by done.
  assert (forall slug, jm_get slug (p_states (stop p)) = cleared <$> jm_get slug (p_states p)) as Hg.
  { intros slug. rewrite Es. apply jm_get_values. }
  split; rewrite ?Es.
  - apply jm_wf_values, W.
  - rewrite jm_sum_values. apply W.
  - rewrite jm_sum_values. simpl. symmetry. clear. induction (p_states p) as [|[k st] m IH]; simpl; [done|]. exact IH.
  - intros slug st. rewrite jm_get_values. destruct (jm_get slug (p_states p)) as [st0|] eqn:E; [|done]. intros [= <-].
    destruct (v_ok _ W _ _ E). by split.
  - intros slug. rewrite jm_get_values. destruct (jm_get slug (p_states p)) eqn:E; [done|]. intros _. by apply (v_absent _ W).
  - intros id r Hr. destruct (v_runs _ W _ _ Hr) as (Hin & st & E & H1 & H2). split; [done|].
    exists (cleared st). by rewrite jm_get_values, E.
  - apply W.
  - intros r Hin. destruct (v_started _ W r Hin). by split.
  - apply W.
  - apply W.
Qed.

Lemma proj_watch_wf collections p : proj_wf p -> proj_wf (reconcileWatchedCollections collections p).
Proof.
  intros []. split; try done; simpl.
  - intros slug st E. destruct (v_ok0 _ _ E). by split.
  - intros r Hin. destruct (v_started0 r Hin). by split.
Qed.

Lemma proj_tick_wf d p : 0 <= d -> proj_wf p -> proj_wf (with_now (p_now p + d) p).
Proof.
  intros Hd []. split; try done; simpl.
  - intros slug st E. destruct (v_ok0 _ _ E). by split.
  - intros r Hin. destruct (v_started0 r Hin). split; try done. simpl. lia.
  - lia.
Qed.

Lemma fireTimer_wf slug p p' : proj_wf p -> fireTimer slug p = Some p' -> proj_wf p'.
Proof.
  intros W (st & due & sn & E & Et & Hd & Hl & _ & _ & _ & ->)%fireTimer_inv; [|done]. by apply (startRun_wf slug st due).
Qed.

Lemma proj_step_wf p p' : proj_wf p -> step throttleMs p p' -> proj_wf p'.
Proof.
  intros W Hs. revert W. destruct Hs; intros W; [by apply request_wf|by eapply fireTimer_wf|by eapply writeSettles_wf|
    by eapply recordSettles_wf|by apply proj_stop_wf|by apply proj_watch_wf|by apply proj_tick_wf].
Qed.

Lemma proj_reachable_wf p : reachable throttleMs p -> proj_wf p.
Proof. induction 1 as [watched now Hn|p p' _ IH Hs]; [by apply proj_create_wf|by apply (proj_step_wf p)]. Qed.

End Inv.
End ProjectionInv.

(** * Theorems about the projection of snapshots *)

Module ProjectionClaims.
Import Snapshots Projection ProjectionInv.

Section Claims.
Context (throttleMs : Z).

(** A run starts, settles or records its error; nothing new is requested. *)
Inductive move (p p' : Proj) : Prop :=
  | m_fire slug : fireTimer slug p = Some p' -> move p p'
  | m_write id outcome : writeSettles throttleMs id outcome p = Some p' -> move p p'
  | m_record id : recordSettles throttleMs id p = Some p' -> move p p'.

(** [n] moves, and any time between them. *)
Inductive moves : nat -> Proj -> Proj -> Prop :=
  | ms_end p : moves 0 p p
  | ms_wait d n p p' : 0 <= d -> moves n (with_now (p_now p + d) p) p' -> moves n p p'
  | ms_move n p p1 p' : move p p1 -> moves n p1 p' -> moves (S n) p p'.

Definition runWork (r : Run) : Z := if run_recording r then 1 else 2.

Definition stateWork (st : ProjectionState) : Z := if is_some (latestSnapshot st) then 3 else 0.

Definition work (p : Proj) : Z := jm_sum stateWork (p_states p) + jm_sum runWork (p_runs p).

Lemma stateWork_nonneg st : 0 <= stateWork st.
Proof. unfold stateWork. case_match; lia. Qed.

Lemma runWork_pos r : 0 < runWork r.
Proof. unfold runWork. case_match; lia. Qed.

Lemma runWork_nonneg r : 0 <= runWork r.
Proof. pose proof (runWork_pos r). lia. Qed.

Lemma proj_work_nonneg p : 0 <= work p.
Proof.
  pose proof (jm_sum_nonneg stateWork (p_states p) stateWork_nonneg).
  pose proof (jm_sum_nonneg runWork (p_runs p) runWork_nonneg). unfold work. lia.
Qed.

Lemma finish_work id r st2 p : proj_wf throttleMs p -> jm_get id (p_runs p) = Some r ->
  left_by r (getState (run_slug r) p) st2 ->
  work (with_runs (jm_del id (p_runs p)) (with_state (run_slug r) (finished throttleMs st2 p) (p_activeProjectionCount p - 1)
    (p_pendingProjectionCount p) p)) < work p.
Proof.
  intros W Hr (L1 & _). destruct (run_state throttleMs id r p W Hr) as (E & _).
  destruct (finished_fields throttleMs st2 p) as (_ & F2 & _).
  pose proof (jm_sum_del_le runWork id (p_runs p) runWork_nonneg) as Hd. rewrite Hr in Hd. simpl in Hd.
  pose proof (runWork_pos r). unfold work. simpl. rewrite jm_sum_set, E. simpl.
  assert (stateWork (finished throttleMs st2 p) = stateWork (getState (run_slug r) p)) as ->; [|lia].
  unfold stateWork. by rewrite F2, L1.
Qed.

Lemma move_work p p' : proj_wf throttleMs p -> move p p' -> work p' < work p.
Proof.
  intros W [slug H|id outcome H|id H].
  - apply (fireTimer_inv throttleMs) in H as (st & due & sn & E & _ & _ & Hl & _ & _ & _ & ->); [|done].
    unfold work, startRun, startedRun. simpl. rewrite (getState_get _ _ _ E), !jm_sum_set, E, (v_ids _ _ W) by lia. simpl.
    unfold stateWork at 2 3, runWork at 2. simpl. rewrite Hl. simpl. lia.
  - destruct (writeSettles_inv _ _ _ _ _ W H) as (r & Hr & Hrec & [(st2 & _ & Hl & _ & ->)|[(_ & st2 & Hl & _ & ->)|(e & _ & ->)]]).
    1,2: by apply finish_work.
    destruct (run_state throttleMs id r p W Hr) as (E & _).
    unfold work. simpl. rewrite !jm_sum_set, E, Hr. simpl. unfold stateWork at 2 3, runWork at 2 3. simpl. rewrite Hrec. lia.
  - destruct (recordSettles_inv _ _ _ _ W H) as (r & Hr & ->). apply finish_work; [done|done|]. split_and!; try done. by left.
Qed.

Lemma move_step p p' : move p p' -> step throttleMs p p'.
Proof.
  intros [slug H|id outcome H|id H]; [exact (s_fire _ _ _ _ H)|exact (s_write _ _ _ _ _ H)|exact (s_record _ _ _ _ H)].
Qed.

Lemma moves_wf n p p' : proj_wf throttleMs p -> moves n p p' -> proj_wf throttleMs p' /\ Z.of_nat n <= work p - work p'.
Proof.
  intros W Hm. induction Hm as [p|d n p p' Hd Hm IH|n p p1 p' Hmv Hm IH].
  - split; [done|lia].
  - destruct IH as [? Hle]; [by apply proj_tick_wf|]. split; [done|exact Hle].
  - pose proof (move_work _ _ W Hmv). destruct IH as [? ?]; [|split; [done|lia]].
    by apply (proj_step_wf throttleMs p), move_step.
Qed.

(** Something can happen after some time unless every collection is settled. *)
Lemma proj_progress p : proj_wf throttleMs p ->
  (exists d p', 0 <= d /\ move (with_now (p_now p + d) p) p') \/
  p_runs p = [] /\ forall slug st, jm_get slug (p_states p) = Some st -> latestSnapshot st = None.
Proof.
  intros W. destruct (p_runs p) as [|[id r] runs] eqn:Er.
  - destruct (decide (Forall (fun kv => latestSnapshot kv.2 = None) (p_states p))) as [Hall|Hex].
    { right. split; [done|]. intros slug st E%jm_get_In. rewrite Forall_forall in Hall.
      by apply (Hall (slug, st)), list_elem_of_In. }
    left. apply not_Forall_Exists in Hex; [|apply _]. apply Exists_exists in Hex as ((slug & st) & Hin & Hne). simpl in Hne.
    apply list_elem_of_In in Hin. assert (jm_get slug (p_states p) = Some st) as E by (apply jm_In_get; [apply W|done]).
    destruct (latestSnapshot st) as [sn|] eqn:El; [|done].
    destruct (t_latest _ _ _ _ (v_ok _ _ W _ _ E) sn El) as (Hs & [Hrun|[due Ht]] & _).
    { destruct (t_running _ _ _ _ (v_ok _ _ W _ _ E) Hrun) as (id & r & Hg & _). by rewrite Er in Hg. }
    exists (Z.max 0 (due - p_now p)).
    assert (is_Some (fireTimer slug (with_now (p_now p + Z.max 0 (due - p_now p)) p))) as [p' Hp'].
    { unfold fireTimer. assert (getState slug (with_now (p_now p + Z.max 0 (due - p_now p)) p) = st) as ->.
      { exact (getState_get _ _ _ E). }
      rewrite Ht. simpl. destruct (Z.leb_spec due (p_now p + Z.max 0 (due - p_now p))); [done|lia]. }
    exists p'. split; [lia|]. by apply (m_fire _ _ slug).
  - left. exists 0. assert (jm_get id (p_runs p) = Some r) as Hr by (rewrite Er; simpl; by rewrite decide_True).
    destruct (run_recording r) eqn:Erec.
    + assert (is_Some (recordSettles throttleMs id (with_now (p_now p + 0) p))) as [p' Hp'].
      { unfold recordSettles. simpl. by rewrite Hr, Erec. }
      exists p'. split; [lia|]. by apply (m_record _ _ id).
    + assert (is_Some (writeSettles throttleMs id (Ok Published) (with_now (p_now p + 0) p))) as [p' Hp'].
      { unfold writeSettles. simpl. by rewrite Hr, Erec. }
      exists p'. split; [lia|]. by apply (m_write _ _ id (Ok Published)).
Qed.

(** With nothing left to do, the last request of every collection has been taken. *)
Lemma quiet_written p slug sn : proj_wf throttleMs p -> p_stopped p = false ->
  (forall slug st, jm_get slug (p_states p) = Some st -> latestSnapshot st = None) ->
  last (requestsOf slug p) = Some sn ->
  exists r, In r (p_started p) /\ run_slug r = slug /\ run_snapshot r = sn.
Proof.
  intros W Hs Hidle Hlast. destruct (jm_get slug (p_states p)) as [st|] eqn:E.
  2:{ by rewrite (v_absent _ _ W _ E) in Hlast. }
  destruct (v_ok _ _ W _ _ E). assert (0 < versionOf slug p) as Hpos.
  { unfold versionOf. destruct (requestsOf slug p); simpl in *; [done|lia]. }
  destruct (t_taken0 Hs (Hidle _ _ E) ltac:(lia)) as (r & Hin & Hsl & Hv). exists r. split_and!; [done|done|].
  pose proof (k_snapshot _ _ _ (v_started _ _ W r Hin)) as Hk. rewrite Hsl, Hv, t_version0 in Hk.
  rewrite last_lookup in Hlast. unfold requested in Hk. destruct (versionOf slug p <=? 0); [done|].
  unfold versionOf in Hk. replace (Z.to_nat (Z.of_nat (length (requestsOf slug p)) - 1)) with
    (pred (length (requestsOf slug p))) in Hk by lia. congruence.
Qed.

(** ** The order of the writes *)

(** The runs started for a collection, in order. *)
Definition startedFor (slug : string) (p : Proj) : list Run := filter (fun r => run_slug r = slug) (p_started p).

(** Each is of a later request than the ones before. *)
Definition ordered (p : Proj) : Prop :=
  forall slug, StronglySorted (fun r r' => run_version r < run_version r') (startedFor slug p).

Lemma ordered_same p p' : p_started p' = p_started p -> ordered p -> ordered p'.
Proof. intros E Ho slug. unfold startedFor. rewrite E. apply Ho. Qed.

Lemma move_ordered p p' : proj_wf throttleMs p -> move p p' -> ordered p -> ordered p'.
Proof.
  intros W [slug H|id outcome H|id H] Ho.
  - apply (fireTimer_inv throttleMs) in H as (st & due & sn & E & _ & _ & Hl & _ & _ & _ & ->); [|done].
    intros slug'. unfold startedFor, startRun. simpl. rewrite filter_app, filter_cons, filter_nil. simpl.
    apply StronglySorted_app. split_and!; [|apply Ho|case_decide; repeat constructor].
    intros x y [Hx Hin%list_elem_of_In]%list_elem_of_filter Hy. case_decide as Es; [|by apply elem_of_nil in Hy].
    apply list_elem_of_singleton in Hy as ->. simpl. rewrite (getState_get _ _ _ E).
    apply (t_latest _ _ _ _ (v_ok _ _ W _ _ E) sn Hl); [done|congruence].
  - apply (ordered_same p); [|done].
    by destruct (writeSettles_inv _ _ _ _ _ W H) as (r & _ & _ & [(st2 & _ & _ & _ & ->)|[(_ & st2 & _ & _ & ->)|(e & _ & ->)]]).
  - apply (ordered_same p); [|done]. by destruct (recordSettles_inv _ _ _ _ W H) as (r & _ & ->).
Qed.

Lemma moves_ordered n p p' : proj_wf throttleMs p -> moves n p p' -> ordered p -> ordered p'.
Proof.
  intros W Hm. induction Hm as [p|d n p p' Hd Hm IH|n p p1 p' Hmv Hm IH]; intros Ho; [done| |].
  - apply IH; [by apply proj_tick_wf|by apply (ordered_same p)].
  - apply IH; [by apply (proj_step_wf throttleMs p), move_step|by apply (move_ordered p)].
Qed.

(** With nothing left to do, the last run started for a collection wrote its last request. *)
Lemma quiet_last p slug sn : proj_wf throttleMs p -> ordered p -> p_stopped p = false ->
  (forall slug st, jm_get slug (p_states p) = Some st -> latestSnapshot st = None) ->
  last (requestsOf slug p) = Some sn ->
  exists r, last (startedFor slug p) = Some r /\ run_snapshot r = sn.
Proof.
  intros W Ho Hs Hidle Hlast. destruct (jm_get slug (p_states p)) as [st|] eqn:E.
  2:{ by rewrite (v_absent _ _ W _ E) in Hlast. }
  destruct (v_ok _ _ W _ _ E). assert (0 < versionOf slug p) as Hpos.
  { unfold versionOf. destruct (requestsOf slug p); simpl in *; [done|lia]. }
  destruct (t_taken0 Hs (Hidle _ _ E) ltac:(lia)) as (r & Hin & Hsl & Hv).
  assert (r ∈ startedFor slug p) as Hr by (apply list_elem_of_filter; by rewrite list_elem_of_In).
  specialize (Ho slug). destruct (last (startedFor slug p)) as [rl|] eqn:El.
  2:{ apply last_None in El. rewrite El in Hr. by apply elem_of_nil in Hr. }
  exists rl. split; [done|]. apply last_Some in El as [l El].
  assert (rl ∈ startedFor slug p) as [Hsl' Hin']%list_elem_of_filter by (rewrite El; apply elem_of_app; right; by apply list_elem_of_singleton).
  pose proof (v_started _ _ W rl ltac:(by apply list_elem_of_In)) as [Hk Hver _ _]. rewrite Hsl' in Hk, Hver.
  assert (run_version rl = versionOf slug p) as Ev.
  { rewrite El in Hr, Ho. apply elem_of_app in Hr as [Hr|Hr%list_elem_of_singleton]; [|subst; lia].
    apply StronglySorted_app in Ho as [Ho _]. specialize (Ho r rl Hr ltac:(by apply list_elem_of_singleton)). lia. }
  rewrite Ev in Hk. rewrite last_lookup in Hlast. unfold requested in Hk. destruct (versionOf slug p <=? 0); [done|].
  unfold versionOf in Hk. replace (Z.to_nat (Z.of_nat (length (requestsOf slug p)) - 1)) with
    (pred (length (requestsOf slug p))) in Hk by lia. congruence.
Qed.

(** The latest snapshot of every collection reaches the bid book.  Once requests
    pause, at most [work p] runs start, settle or record an error, whatever their
    outcomes; and until the service stops, either one of these happens after some
    time, or for every collection a write of exactly the snapshot requested last has
    been started, however many requests it absorbed. *)
Theorem latest_snapshot_written n p p' : reachable throttleMs p -> moves n p p' ->
  Z.of_nat n <= work p /\
  (p_stopped p' = false ->
     (exists d p'', 0 <= d /\ move (with_now (p_now p' + d) p') p'') \/
     forall slug sn, last (requestsOf slug p') = Some sn ->
       exists r, In r (p_started p') /\ run_slug r = slug /\ run_snapshot r = sn).
Proof.
  intros W%proj_reachable_wf Hm. destruct (moves_wf _ _ _ W Hm) as [W' Hle]. pose proof (proj_work_nonneg p').
  split; [lia|]. intros Hs. destruct (proj_progress p' W') as [?|[_ Hidle]]; [by left|right].
  intros slug sn. by apply quiet_written.
Qed.

(** Writes of a collection are serialized, throttled and never go back: when its
    timer starts a run, none is in flight for it, at least [throttleMs] have passed
    since its previous write settled (if any), the run writes the snapshot requested
    last, and every write started before was of an earlier request.  In every reachable
    state a collection has at most one run, the gauges count the running and the
    pending collections, and what is published was written by a run that started. *)
Theorem writes_serialized_and_throttled p : reachable throttleMs p ->
  (forall slug p', fireTimer slug p = Some p' -> exists r sn,
     p_started p' = p_started p ++ [r] /\ run_slug r = slug /\ run_snapshot r = sn /\
     last (requestsOf slug p) = Some sn /\ run_version r = versionOf slug p /\
     (forall id r', jm_get id (p_runs p) = Some r' -> run_slug r' <> slug) /\
     (lastCompletedAt (getState slug p) = 0 \/ lastCompletedAt (getState slug p) + throttleMs <= p_now p) /\
     (forall r', In r' (p_started p) -> run_slug r' = slug -> run_version r' < run_version r)) /\
  (forall id id' r r', jm_get id (p_runs p) = Some r -> jm_get id' (p_runs p) = Some r' ->
     run_slug r = run_slug r' -> id = id') /\
  p_activeProjectionCount p = jm_sum (fun st => if running st then 1 else 0) (p_states p) /\
  p_pendingProjectionCount p = jm_sum (fun st => if is_some (latestSnapshot st) then 1 else 0) (p_states p) /\
  (forall slug st, jm_get slug (p_states p) = Some st ->
     publishedVersion st <= requestedVersion st /\ requestedVersion st = versionOf slug p /\
     (publishedVersion st = 0 \/ exists r, In r (p_started p) /\ run_slug r = slug /\
        run_version r = publishedVersion st /\ publishedSnapshotAt st = Some (sn_refreshedAt (run_snapshot r)))).
Proof.
  intros W%proj_reachable_wf. split_and!.
  - intros slug p' H. destruct (fireTimer_inv _ _ _ _ W H) as (st & due & sn & E & Et & Hdue & Hl & Hrun & Hs & Hth & ->).
    destruct (v_ok _ _ W _ _ E). destruct (t_latest0 sn Hl) as (_ & _ & Hreq & Hnew).
    exists (startedRun slug sn p), sn. unfold startedRun. rewrite (getState_get _ _ _ E). simpl. split_and!; try done.
    + unfold startedRun. by rewrite (getState_get _ _ _ E).
    + rewrite last_lookup. unfold requested in Hreq. destruct (Z.leb_spec (requestedVersion st) 0); [done|].
      rewrite t_version0 in Hreq. unfold versionOf in Hreq.
      by replace (pred (length (requestsOf slug p))) with (Z.to_nat (Z.of_nat (length (requestsOf slug p)) - 1)) by lia.
    + intros id r' Hr Heq. destruct (v_runs _ _ W _ _ Hr) as (_ & st1 & H1 & H2 & _). rewrite Heq in H1. congruence.
    + unfold throttled in Hth. lia.
  - apply (v_unique _ _ W).
  - apply W.
  - apply W.
  - intros slug st E. destruct (v_ok _ _ W _ _ E). destruct t_published0 as [? ?]. split_and!; [lia|done|done].
Qed.

End Claims.

(** ** An example run

    A second snapshot arrives while the first is being written, and that write fails. *)

Definition bookAt (slug : string) (t : Z) : CollectionOfferSnapshot := {|
  sn_collectionSlug := slug; sn_offers := []; sn_refreshedAt := t;
  sn_metrics := {| durationMs := 1; pageCount := 1; offerCount := 0; complete := true; firstPriceWei := None;
    lastPriceWei := None; minPriceWei := None; maxPriceWei := None; finalCursor := None |} |}.

Definition orSame (o : option Proj) (p : Proj) : Proj := default p o.

Definition q1 : Proj := requestProjection 100 (bookAt "a" 4) "poll" (create ["a"] 5).
Definition q2 : Proj := orSame (fireTimer "a" q1) q1.
Definition q3 : Proj := requestProjection 100 (bookAt "a" 5) "poll" q2.
Definition q4 : Proj := orSame (writeSettles 100 0 (Err "busy") q3) q3.
Definition q5 : Proj := orSame (recordSettles 100 0 q4) q4.
Definition q6 : Proj := with_now (p_now q5 + 100) q5.
Definition q7 : Proj := orSame (fireTimer "a" q6) q6.

Lemma fire2 : fireTimer "a" q1 = Some q2.
Proof. vm_compute. reflexivity. Qed.

Lemma write4 : writeSettles 100 0 (Err "busy") q3 = Some q4.
Proof. vm_compute. reflexivity. Qed.

Lemma record5 : recordSettles 100 0 q4 = Some q5.
Proof. vm_compute. reflexivity. Qed.

Lemma fire7 : fireTimer "a" q6 = Some q7.
Proof. vm_compute. reflexivity. Qed.

Lemma q3_reachable : reachable 100 q3.
Proof.
  apply (r_step _ q2); [|apply s_request]. apply (r_step _ q1); [|exact (s_fire _ _ _ _ fire2)].
  apply (r_step _ (create ["a"] 5)); [by apply r_create|apply s_request].
Qed.

Lemma q6_reachable : reachable 100 q6.
Proof.
  apply (r_step _ q5); [|by apply s_tick]. apply (r_step _ q4); [|exact (s_record _ _ _ _ record5)].
  apply (r_step _ q3); [apply q3_reachable|exact (s_write _ _ _ _ _ write4)].
Qed.

Lemma q3_moves : moves 100 3 q3 q7.
Proof.
  apply (ms_move _ 2 q3 q4); [exact (m_write _ _ _ _ _ write4)|].
  apply (ms_move _ 1 q4 q5); [exact (m_record _ _ _ _ record5)|].
  apply (ms_wait _ 100 1 q5); [done|]. apply (ms_move _ 0 q6 q7); [exact (m_fire _ _ _ _ fire7)|]. apply ms_end.
Qed.

Lemma latest_snapshot_written_witness :
  work q3 = 5 /\ last (requestsOf "a" q7) = Some (bookAt "a" 5) /\ Z.of_nat 3 <= work q3.
Proof.
  split; [vm_compute; reflexivity|]. split; [vm_compute; reflexivity|].
  exact (proj1 (latest_snapshot_written 100 3 q3 q7 q3_reachable q3_moves)).
Defined.

Lemma writes_serialized_and_throttled_witness :
  exists r sn, p_started q7 = p_started q6 ++ [r] /\ run_snapshot r = sn /\ last (requestsOf "a" q6) = Some sn /\
    run_version r = 2 /\ lastCompletedAt (getState "a" q6) = 5 /\ p_now q6 = 105.
Proof.
  destruct (proj1 (writes_serialized_and_throttled 100 q6 q6_reachable) "a"%string q7 fire7)
    as (r & sn & H1 & _ & H2 & H3 & H4 & _).
  exists r, sn. split; [exact H1|]. split; [exact H2|]. split; [exact H3|].
  split; [rewrite H4; vm_compute; reflexivity|]. split; vm_compute; reflexivity.
Defined.

End ProjectionClaims.
