(* ===== verification/Pipeline.v ===== *)
(** * From the source of offers to the bid book

    The snapshot service and the projection as [bidding-runtime.ts] wires them: the
    observer of the service requests a projection of every snapshot it stores, within
    the same step. *)

From S2P Require Import Prelude JsValue Snapshots SnapshotsInv SnapshotsClaims Projection ProjectionInv.

Open Scope Z_scope.

Module Pipeline.

Record Pipe := { g_svc : Snapshots.Svc; g_proj : Projection.Proj }.

Section Pipeline.
Context (config : Snapshots.Config) (throttleMs : Z).

(** [onSnapshotRefreshed] *)
Definition deliver (l : list (Snapshots.CollectionOfferSnapshot * string)) (p : Projection.Proj) : Projection.Proj :=
  fold_left (fun p x => Projection.requestProjection throttleMs x.1 x.2 p) l p.

Definition news (s s' : Snapshots.Svc) : list (Snapshots.CollectionOfferSnapshot * string) :=
  drop (length (Snapshots.s_notified s)) (Snapshots.s_notified s').

Inductive pipe_step : Pipe -> Pipe -> Prop :=
  | g_service s s' p : Snapshots.step config s s' -> Snapshots.s_now s' = Snapshots.s_now s ->
      pipe_step {| g_svc := s; g_proj := p |} {| g_svc := s'; g_proj := deliver (news s s') p |}
  | g_move s p p' : ProjectionClaims.move throttleMs p p' ->
      pipe_step {| g_svc := s; g_proj := p |} {| g_svc := s; g_proj := p' |}
  | g_stop s p : pipe_step {| g_svc := s; g_proj := p |} {| g_svc := s; g_proj := Projection.stop p |}
  | g_watch slugs s p :
      pipe_step {| g_svc := s; g_proj := p |}
           {| g_svc := s; g_proj := Projection.reconcileWatchedCollections slugs p |}
  | g_tick d s p : 0 <= d ->
      pipe_step {| g_svc := s; g_proj := p |}
           {| g_svc := Snapshots.with_now (Snapshots.s_now s + d) s;
              g_proj := Projection.with_now (Projection.p_now p + d) p |}.

Inductive pipe_reachable : Pipe -> Prop :=
  | g_create slugs now : 0 < now ->
      pipe_reachable {| g_svc := Snapshots.create slugs now; g_proj := Projection.create slugs now |}
  | g_step g g' : pipe_reachable g -> pipe_step g g' -> pipe_reachable g'.

(** ** The service only adds to what it announced *)

Import Snapshots SnapshotsInv.

Definition announces (s s' : Svc) : Prop := exists l, s_notified s' = s_notified s ++ l.

Lemma announces_refl s : announces s s.
Proof. exists []. by rewrite app_nil_r. Qed.

Lemma announces_trans s s1 s' : announces s s1 -> announces s1 s' -> announces s s'.
Proof. intros [l E] [l' E']. exists (l ++ l'). by rewrite E', E, app_assoc. Qed.

Lemma announces_same s s' : s_notified s' = s_notified s -> announces s s'.
Proof. intros E. exists []. by rewrite app_nil_r. Qed.

Lemma afterJoin_notified c s : s_notified (afterJoin c s) = s_notified s.
Proof.
  unfold afterJoin, refreshCollection. destruct (s_stopped s); [done|]. destruct (_ && _); [done|].
  destruct (refreshing _); [|done]. by destruct (inFlight _).
Qed.

Lemma refreshAndWait_notified slug reason ttl s : s_notified (refreshAndWait config slug reason ttl s) = s_notified s.
Proof.
  unfold refreshAndWait. destruct (s_stopped s); [done|]. destruct (negb _); [done|]. destruct (_ && _); [done|].
  destruct (negb ttl); [apply afterJoin_notified|]. by case_match.
Qed.

Lemma resume_notified id s s' : resume config id s = Some s' -> s_notified s' = s_notified s.
Proof.
  unfold resume. destruct (jm_get id (s_callers s)) as [c|]; [|done]. destruct (c_wait c).
  - intros [= <-]. by rewrite afterJoin_notified.
  - destruct (jm_get loop (s_settled s)) as [[]|]; [|by intros [= <-]|done]. intros [= <-]. by destruct (isSnapshotFresh _ _ _).
  - by destruct (jm_get loop (s_settled s)) as [[]|]; [intros [= <-]..|].
Qed.

Lemma requestRefresh_notified slug reason s : s_notified (requestRefresh config slug reason s) = s_notified s.
Proof. unfold requestRefresh. destruct (s_stopped s); [done|]. destruct (negb _); [done|]. apply refreshAndWait_notified. Qed.

Lemma fold_notified {A} (f : Svc -> A -> Svc) l s : (forall s x, s_notified (f s x) = s_notified s) ->
  s_notified (fold_left f l s) = s_notified s.
Proof. intros Hf. revert s. induction l as [|x l IH]; intros s; simpl; [done|]. by rewrite IH, Hf. Qed.

Lemma fold_pair_notified {A} (f : Z * Svc -> A -> Z * Svc) l p : (forall p x, s_notified (f p x).2 = s_notified p.2) ->
  s_notified (fold_left f l p).2 = s_notified p.2.
Proof. intros Hf. revert p. induction l as [|x l IH]; intros p; simpl; [done|]. by rewrite IH, Hf. Qed.

Lemma scheduleNextPoll_notified s : s_notified (scheduleNextPoll config s) = s_notified s.
Proof. unfold scheduleNextPoll. by destruct (_ || _). Qed.

Lemma firePoll_notified s s' : firePoll config s = Some s' -> s_notified s' = s_notified s.
Proof.
  unfold firePoll. destruct (s_pollTimer s); [|done]. destruct (_ <=? _); [|done]. intros [= <-].
  destruct (negb _); [done|]. rewrite scheduleNextPoll_notified, fold_notified; [done|].
  intros s1 x. apply requestRefresh_notified.
Qed.

Lemma start_notified s : s_notified (start config s) = s_notified s.
Proof. unfold start. destruct (_ || _); [done|]. case_match; [done|]. by rewrite scheduleNextPoll_notified. Qed.

Lemma stop_notified s : s_notified (stop s) = s_notified s.
Proof. unfold stop. destruct (s_stopped s); [done|]. by rewrite fold_notified. Qed.

Lemma watch_notified slug s : s_notified (watchCollection config slug s).2 = s_notified s.
Proof.
  unfold watchCollection. destruct (hasSlug _ _); [done|]. simpl. destruct (_ && _); [|done].
  by rewrite scheduleNextPoll_notified.
Qed.

Lemma unwatch_notified slug s : s_notified (unwatchCollection slug s).2 = s_notified s.
Proof. unfold unwatchCollection. by destruct (negb _). Qed.

Lemma reconcile_notified slugs s : s_notified (reconcileWatchedCollections config slugs s).2 = s_notified s.
Proof.
  unfold reconcileWatchedCollections.
  pose proof (fold_pair_notified (fun '(n, s) slug => if hasSlug slug (toSet slugs) then (n, s)
      else let '(b, s') := unwatchCollection slug s in ((if b : bool then n + 1 else n), s')) (s_watched s) (0, s)) as H1.
  destruct (fold_left _ (s_watched s) (0, s)) as [removed s1].
  pose proof (fold_pair_notified (fun '(n, s) slug =>
      let '(b, s') := watchCollection config slug s in ((if b : bool then n + 1 else n), s')) (toSet slugs) (0, s1)) as H2.
  destruct (fold_left _ (toSet slugs) (0, s1)) as [added s2]. simpl in *. rewrite H2, H1; [done|..].
  - intros [n s3] x. simpl. destruct (hasSlug _ _); [done|]. pose proof (unwatch_notified x s3). by destruct (unwatchCollection x s3).
  - intros [n s3] x. simpl. pose proof (watch_notified x s3). by destruct (watchCollection config x s3).
Qed.

Lemma settleFetch_announces id random answer s s' : settleFetch config id random answer s = Some s' -> announces s s'.
Proof.
  intros (l & _ & [(e & ->)|(res & _ & _ & [st p _ _ _|st p _ _])])%settleFetch_inv.
  - apply announces_same. unfold fail. by rewrite finishLoop_eq.
  - by eexists.
  - by eexists.
Qed.

Lemma step_announces s s' : Snapshots.step config s s' -> announces s s'.
Proof.
  intros [| |id s0 s1 H|id random answer s0 s1 _ H|s0 s1 H|s0|s0|slug s0|slug s0|slugs s0|s0|d s0 _];
    [apply announces_same|apply announces_same|apply announces_same|by apply (settleFetch_announces id random answer)|
     apply announces_same..].
  - apply refreshAndWait_notified.
  - apply requestRefresh_notified.
  - by apply (resume_notified id).
  - by apply firePoll_notified.
  - apply start_notified.
  - apply stop_notified.
  - apply watch_notified.
  - apply unwatch_notified.
  - apply reconcile_notified.
  - apply fold_notified. intros s1 x. apply refreshAndWait_notified.
  - done.
Qed.

(** ** What the projection was asked *)

Lemma deliver_spec l : forall p, ProjectionInv.proj_wf throttleMs p ->
  ProjectionInv.proj_wf throttleMs (deliver l p) /\
  Projection.p_stopped (deliver l p) = Projection.p_stopped p /\
  Projection.p_requests (deliver l p) = Projection.p_requests p ++ (if Projection.p_stopped p then [] else l.*1) /\
  Projection.p_started (deliver l p) = Projection.p_started p.
Proof.
  induction l as [|x l IH]; intros p W; simpl; [split_and!; [done|done|by case_match; rewrite app_nil_r|done]|].
  pose proof (ProjectionInv.request_wf throttleMs x.1 x.2 p W) as W1. destruct (IH _ W1) as (W2 & Hs & Hr & Ht).
  unfold deliver in *. simpl. rewrite Hs, Hr, Ht. split; [done|]. destruct (Projection.p_stopped p) eqn:Es.
  - assert (Projection.requestProjection throttleMs x.1 x.2 p = p) as -> by (unfold Projection.requestProjection; by rewrite Es).
    by rewrite Es.
  - rewrite ProjectionInv.requestProjection_eq by done. simpl. by rewrite Es, <- app_assoc.
Qed.

Lemma move_requests p p' : ProjectionInv.proj_wf throttleMs p -> ProjectionClaims.move throttleMs p p' ->
  Projection.p_requests p' = Projection.p_requests p /\ Projection.p_stopped p' = Projection.p_stopped p.
Proof.
  intros W [slug H|id outcome H|id H].
  - apply (ProjectionInv.fireTimer_inv throttleMs) in H as (st & due & sn & _ & _ & _ & _ & _ & _ & _ & ->); done.
  - by destruct (ProjectionInv.writeSettles_inv _ _ _ _ _ W H) as (r & _ & _ & [(st2 & _ & _ & _ & ->)|[(_ & st2 & _ & _ & ->)|(e & _ & ->)]]).
  - by destruct (ProjectionInv.recordSettles_inv _ _ _ _ W H) as (r & _ & ->).
Qed.

Record pipe_wf (g : Pipe) : Prop := {
  g_svc_wf : svc_wf (g_svc g);
  g_proj_wf : ProjectionInv.proj_wf throttleMs (g_proj g);
  g_asked : Projection.p_stopped (g_proj g) = false ->
    Projection.p_requests (g_proj g) = (s_notified (g_svc g)).*1;
  g_ordered : ProjectionClaims.ordered (g_proj g);
  g_announced : forall sn, In sn (Projection.p_requests (g_proj g)) -> In sn (s_notified (g_svc g)).*1;
}.

Lemma pipe_step_wf g g' : pipe_wf g -> pipe_step g g' -> pipe_wf g'.
Proof.
  intros W Hstep. destruct Hstep as [s s' p Hs _|s p p' Hm|s p|slugs s p|d s p Hd]; destruct W as [W1 W2 W3 Wo W4]; simpl in *.
  - destruct (step_announces _ _ Hs) as [l El].
    assert (news s s' = l) as -> by (unfold news; by rewrite El, drop_app_length).
    destruct (deliver_spec l p W2) as (W2' & Es & Er & Et).
    split; simpl; [by apply (SnapshotsInv.svc_step_wf config s)|done| |by apply (ProjectionClaims.ordered_same p)|].
    + intros Hp. rewrite Es in Hp. by rewrite Er, Hp, (W3 Hp), El, fmap_app.
    + intros sn. rewrite Er, El, fmap_app. intros [Hin|Hin]%in_app_or; apply in_or_app; [left; by apply W4|right].
      by destruct (Projection.p_stopped p).
  - destruct (move_requests p p' W2 Hm) as [Er Es]. split; simpl; [done| | |by apply (ProjectionClaims.move_ordered throttleMs p)|].
    + by apply (ProjectionInv.proj_step_wf throttleMs p), ProjectionClaims.move_step.
    + by rewrite Er, Es.
    + by rewrite Er.
  - split; simpl; [done|by apply ProjectionInv.proj_stop_wf|done|by apply (ProjectionClaims.ordered_same p)|done].
  - split; simpl; [done|by apply ProjectionInv.proj_watch_wf|done|by apply (ProjectionClaims.ordered_same p)|done].
  - split; simpl; [by apply SnapshotsInv.svc_tick_wf|by apply ProjectionInv.proj_tick_wf|done|
      by apply (ProjectionClaims.ordered_same p)|done].
Qed.

Lemma pipe_reachable_wf g : pipe_reachable g -> pipe_wf g.
Proof.
  induction 1 as [slugs now Hn|g g' _ IH Hs]; [|by apply (pipe_step_wf g)].
  split; simpl; [apply SnapshotsInv.svc_create_wf|by apply ProjectionInv.proj_create_wf|done|intros slug; constructor|done].
Qed.

Lemma lastOf_requests slug l : lastOf slug l = last (filter (fun sn => sn_collectionSlug sn = slug) l.*1).
Proof.
  unfold lastOf. induction l as [|x l IH] using rev_ind; [done|].
  rewrite fold_left_app, fmap_app, filter_app. simpl. rewrite filter_cons, filter_nil.
  case_decide; [by rewrite last_snoc|by rewrite app_nil_r].
Qed.

Lemma moves_requests n p p' : ProjectionInv.proj_wf throttleMs p -> ProjectionClaims.moves throttleMs n p p' ->
  Projection.p_requests p' = Projection.p_requests p /\ Projection.p_stopped p' = Projection.p_stopped p.
Proof.
  intros W Hm. induction Hm as [p|d n p p' Hd Hm IH|n p p1 p' Hmv Hm IH]; [done| |].
  - apply IH. by apply ProjectionInv.proj_tick_wf.
  - destruct (move_requests p p1 W Hmv) as [<- <-]. apply IH.
    by apply (ProjectionInv.proj_step_wf throttleMs p), ProjectionClaims.move_step.
Qed.

(** C37: The bid book follows the source.  The pipeline only ever writes complete books
    of offers.  And from any reachable state in which the projection runs, once the
    source pauses the projection comes to rest within a computed number of moves: no
    write is in flight then, and for every collection that has a snapshot the last write
    started was of exactly the snapshot that the service holds. *)
Theorem bid_book_follows_source g n p' : pipe_reachable g -> ProjectionClaims.moves throttleMs n (g_proj g) p' ->
  Z.of_nat n <= ProjectionClaims.work (g_proj g) /\
  (forall r, In r (Projection.p_started p') -> complete (sn_metrics (Projection.run_snapshot r)) = true) /\
  (Projection.p_stopped (g_proj g) = false ->
    (exists d p'', 0 <= d /\
       ProjectionClaims.move throttleMs (Projection.with_now (Projection.p_now p' + d) p') p'') \/
    Projection.p_runs p' = [] /\
    forall slug sn, getSnapshot slug (g_svc g) = Some sn ->
      exists r, last (filter (fun r => Projection.run_slug r = slug) (Projection.p_started p')) = Some r
        /\ Projection.run_snapshot r = sn).
Proof.
  intros [W1 W2 W3 Wo W4]%pipe_reachable_wf Hm. destruct (ProjectionClaims.moves_wf _ _ _ _ W2 Hm) as [W2' Hle].
  pose proof (ProjectionClaims.moves_ordered _ _ _ _ W2 Hm Wo) as Wo'.
  destruct (moves_requests _ _ _ W2 Hm) as [Er Es]. pose proof (ProjectionClaims.proj_work_nonneg p'). split_and!; [lia| |].
  - intros r Hin. pose proof (ProjectionInv.k_snapshot _ _ _ (ProjectionInv.v_started _ _ W2' r Hin)) as Hk.
    unfold ProjectionInv.requested in Hk. destruct (_ <=? 0); [done|]. apply list_elem_of_lookup_2 in Hk.
    unfold ProjectionInv.requestsOf in Hk. apply list_elem_of_filter in Hk as [_ Hk].
    rewrite Er, list_elem_of_In in Hk. apply W4, list_elem_of_In, list_elem_of_fmap in Hk as ([sn reason] & -> & Hk).
    apply (w_notified _ W1 sn reason). by apply list_elem_of_In.
  - intros Hs. destruct (ProjectionClaims.proj_progress throttleMs p' W2') as [?|[Hruns Hidle]]; [by left|right].
    split; [done|]. intros slug sn Hsn. apply (ProjectionClaims.quiet_last throttleMs); [done|done|by rewrite Es|done|].
    unfold ProjectionInv.requestsOf. rewrite Er, (W3 Hs), <- lastOf_requests, <- (w_last _ W1). exact Hsn.
Qed.

End Pipeline.
(** ** An example run *)

Import Snapshots SnapshotsInv SnapshotsClaims.

Definition advance (s' : Svc) (g : Pipe) : Pipe :=
  {| g_svc := s'; g_proj := deliver 50 (news (g_svc g) s') (g_proj g) |}.

Definition g0 : Pipe := {| g_svc := x0; g_proj := Projection.create ["a"; "b"; "a"] 5 |}.
Definition g4 : Pipe := advance x4 (advance x3 (advance x2 (advance x1 g0))).
Definition p5 : Projection.Proj := default (g_proj g4) (Projection.fireTimer "a" (g_proj g4)).

Lemma g4_reachable : pipe_reachable exampleConfig 50 g4.
Proof.
  apply (g_step _ _ (advance x3 (advance x2 (advance x1 g0)))).
  2:{ apply g_service; [exact (s_answer _ 1 _ (answerOf true) _ _ zero_random step4)|vm_compute; reflexivity]. }
  apply (g_step _ _ (advance x2 (advance x1 g0))).
  2:{ apply g_service; [exact (s_call _ "a" "forced" false x2)|vm_compute; reflexivity]. }
  apply (g_step _ _ (advance x1 g0)).
  2:{ apply g_service; [exact (s_resume _ 0 _ _ step2)|vm_compute; reflexivity]. }
  apply (g_step _ _ g0).
  2:{ apply g_service; [exact (s_call _ "a" "polled" true x0)|vm_compute; reflexivity]. }
  by apply g_create.
Qed.

Lemma p5_moves : ProjectionClaims.moves 50 1 (g_proj g4) p5.
Proof.
  apply (ProjectionClaims.ms_move _ 0 _ p5); [|apply ProjectionClaims.ms_end].
  apply (ProjectionClaims.m_fire _ _ _ "a"). vm_compute. reflexivity.
Qed.

Lemma bid_book_follows_source_witness :
  getSnapshot "a" (g_svc g4) <> None /\ length (Projection.p_started p5) = 1%nat /\
  (forall r, In r (Projection.p_started p5) -> complete (sn_metrics (Projection.run_snapshot r)) = true).
Proof.
  split; [vm_compute; discriminate|]. split; [vm_compute; reflexivity|].
  exact (proj1 (proj2 (bid_book_follows_source exampleConfig 50 g4 1 p5 g4_reachable p5_moves))).
Defined.

End Pipeline.
