(* ===== verification/OrderBy.v ===== *)
(** * Ordered queries

    [ORDER BY] and [Array.prototype.sort] as one insertion sort, stable as both the
    latter and an index scan are, with the lemmas of the statements that use them:
    the result is a permutation, it is sorted, a strict order determines it, and
    paging by key ([WHERE key > last ORDER BY key LIMIT n]) visits it in full. *)

From S2P Require Import Prelude.
From Stdlib Require Import Sorted Permutation.

Section OrderBy.
Context {A : Type} (before : A -> A -> bool).

Fixpoint insertBy (x : A) (l : list A) : list A :=
  match l with
  | [] => [x]
  | y :: l' => if before y x then y :: insertBy x l' else x :: y :: l'
  end.

Definition orderBy (l : list A) : list A := fold_right insertBy [] l.

Lemma insertBy_perm x l : Permutation (insertBy x l) (x :: l).
Proof.
  induction l as [|y l IH]; simpl; [done|]. destruct (before y x); [|done].
  rewrite IH. apply perm_swap.
Qed.

Lemma orderBy_perm l : Permutation (orderBy l) l.
Proof. induction l as [|x l IH]; simpl; [done|]. by rewrite insertBy_perm, IH. Qed.

Lemma orderBy_length l : length (orderBy l) = length l.
Proof. apply Permutation_length, orderBy_perm. Qed.

Lemma orderBy_In x l : In x (orderBy l) <-> In x l.
Proof. split; apply Permutation_in; [|symmetry]; apply orderBy_perm. Qed.

Lemma orderBy_elem_of x l : x ∈ orderBy l <-> x ∈ l.
Proof. by rewrite orderBy_perm. Qed.

(** Sorted, when what is not before is ordered. *)
Lemma insertBy_sorted (le : A -> A -> Prop) x l :
  (forall a b, before a b = true -> le a b) -> (forall a b, before a b = false -> le b a) ->
  Transitive le -> StronglySorted le l -> StronglySorted le (insertBy x l).
Proof.
  intros Ht Hf Htr. induction l as [|y l IH]; intros Hs; simpl; [repeat constructor|].
  apply StronglySorted_inv in Hs as [Hs Hy]. destruct (before y x) eqn:E.
  - constructor; [auto|]. apply Forall_forall. intros z Hz.
    rewrite insertBy_perm in Hz. apply elem_of_cons in Hz as [->|Hz]; [auto|].
    rewrite Forall_forall in Hy. auto.
  - constructor; [by constructor|]. constructor; [auto|].
    rewrite Forall_forall in Hy |- *. intros z Hz. transitivity y; auto.
Qed.

Lemma orderBy_sorted (le : A -> A -> Prop) l :
  (forall a b, before a b = true -> le a b) -> (forall a b, before a b = false -> le b a) ->
  Transitive le -> StronglySorted le (orderBy l).
Proof. intros Ht Hf Htr. induction l as [|x l IH]; simpl; [constructor|]. by apply insertBy_sorted. Qed.

(** A strict order, total on the elements that occur. *)
Section Strict.
Context (Hirr : forall a, before a a = false).
Context (Htr : forall a b c, before a b = true -> before b c = true -> before a c = true).

Definition totalOn (l : list A) : Prop :=
  forall a b, In a l -> In b l -> a = b \/ before a b = true \/ before b a = true.

Lemma insertBy_strict x l :
  StronglySorted (fun a b => before a b = true) l ->
  (forall y, In y l -> before x y = true \/ before y x = true) ->
  StronglySorted (fun a b => before a b = true) (insertBy x l).
Proof.
  induction l as [|y l IH]; intros Hs Hx; simpl; [repeat constructor|].
  apply StronglySorted_inv in Hs as [Hs Hy]. rewrite Forall_forall in Hy. destruct (before y x) eqn:E.
  - constructor; [apply IH; [done|intros; apply Hx; by right]|].
    apply Forall_forall. intros z Hz. rewrite insertBy_perm in Hz.
    apply elem_of_cons in Hz as [->|Hz]; auto.
  - destruct (Hx y (or_introl eq_refl)) as [Hxy|Hxy]; [|congruence].
    constructor; [constructor; [done|by apply Forall_forall]|].
    constructor; [done|]. apply Forall_forall. intros z Hz. eapply Htr; eauto.
Qed.

Lemma orderBy_strict l : NoDup l -> totalOn l -> StronglySorted (fun a b => before a b = true) (orderBy l).
Proof.
  induction l as [|x l IH]; intros Hnd Hto; simpl; [constructor|].
  apply NoDup_cons in Hnd as [Hx Hnd]. apply insertBy_strict.
  - apply IH; [done|]. intros a b Ha Hb. apply Hto; by right.
  - intros y Hy. apply (proj1 (orderBy_In _ _)) in Hy. destruct (Hto x y (or_introl eq_refl) (or_intror Hy)) as [->|?]; [|done].
    exfalso. by apply Hx, list_elem_of_In.
Qed.

Lemma strict_unique l1 l2 :
  StronglySorted (fun a b => before a b = true) l1 -> StronglySorted (fun a b => before a b = true) l2 ->
  Permutation l1 l2 -> l1 = l2.
Proof.
  revert l2. induction l1 as [|x l1 IH]; intros l2 H1 H2 Hp.
  - by apply Permutation_nil in Hp.
  - destruct l2 as [|y l2]; [by symmetry in Hp; apply Permutation_nil_cons in Hp|].
    apply StronglySorted_inv in H1 as [H1 Hx]. apply StronglySorted_inv in H2 as [H2 Hy].
    rewrite Forall_forall in Hx, Hy.
    assert (x = y) as ->.
    { assert (x ∈ y :: l2) as Hin by (rewrite <- Hp; left).
      apply elem_of_cons in Hin as [|Hin]; [done|].
      assert (y ∈ x :: l1) as Hin' by (rewrite Hp; left).
      apply elem_of_cons in Hin' as [|Hin']; [done|].
      specialize (Hx _ Hin'). specialize (Hy _ Hin). pose proof (Htr _ _ _ Hx Hy) as Hc.
      rewrite Hirr in Hc. discriminate. }
    f_equal. apply IH; [done..|]. by apply Permutation_cons_inv in Hp.
Qed.

Lemma strict_filter p l :
  StronglySorted (fun a b => before a b = true) l ->
  StronglySorted (fun a b => before a b = true) (List.filter p l).
Proof.
  induction l as [|x l IH]; intros Hs; simpl; [constructor|].
  apply StronglySorted_inv in Hs as [Hs Hx]. destruct (p x); [|auto].
  constructor; [auto|]. rewrite Forall_forall in Hx |- *. intros z Hz.
  apply list_elem_of_In, filter_In in Hz as [Hz _]. apply Hx. by apply list_elem_of_In.
Qed.

Lemma NoDup_lfilter (p : A -> bool) l : NoDup l -> NoDup (List.filter p l).
Proof.
  induction l as [|x l IH]; simpl; [done|]. intros [Hx Hnd]%NoDup_cons.
  destruct (p x); [|auto]. constructor; [|auto].
  intros Hin. apply list_elem_of_In, filter_In in Hin as [Hin _]. by apply Hx, list_elem_of_In.
Qed.

Lemma Permutation_lfilter (p : A -> bool) l1 l2 :
  Permutation l1 l2 -> Permutation (List.filter p l1) (List.filter p l2).
Proof.
  induction 1 as [|x l1 l2 _ IH|x y l|l1 l2 l3 _ IH1 _ IH2]; simpl; [done| | |etransitivity; eauto].
  - destruct (p x); by rewrite ?IH.
  - destruct (p x), (p y); try reflexivity. apply perm_swap.
Qed.

(** Filtering and ordering commute. *)
Lemma orderBy_filter p l : NoDup l -> totalOn l ->
  orderBy (List.filter p l) = List.filter p (orderBy l).
Proof.
  intros Hnd Hto. apply strict_unique.
  - apply orderBy_strict; [by apply NoDup_lfilter|].
    intros a b [Ha _]%filter_In [Hb _]%filter_In. auto.
  - by apply strict_filter, orderBy_strict.
  - rewrite orderBy_perm. apply Permutation_lfilter. symmetry. apply orderBy_perm.
Qed.

(** After the last row of a page come exactly the rows of the later pages. *)
Lemma after_page l n a :
  StronglySorted (fun a b => before a b = true) l -> last (firstn n l) = Some a ->
  List.filter (before a) l = skipn n l.
Proof.
  revert n. induction l as [|x l IH]; intros n Hs Hl; [by rewrite firstn_nil in Hl|].
  destruct n as [|n]; [done|]. simpl firstn in Hl. simpl skipn.
  apply StronglySorted_inv in Hs as [Hs Hx]. rewrite Forall_forall in Hx.
  assert (forall b, b ∈ l -> before x b = true) as Hx' by done.
  destruct (firstn n l) as [|b t] eqn:Ef.
  - simpl in Hl. injection Hl as <-. simpl. rewrite Hirr.
    assert (n = O \/ l = []) as Hn by (destruct n, l; simpl in Ef; [by left|by left|by right|done]).
    assert (skipn n l = l) as -> by (destruct Hn as [->| ->]; [done|by rewrite skipn_nil]).
    clear -Hx'. induction l as [|y l IHl]; simpl; [done|]. rewrite Hx' by left. f_equal.
    apply IHl. intros b Hb. apply Hx'. by right.
  - rewrite last_cons_cons in Hl. rewrite <- Ef in Hl. simpl.
    assert (a ∈ l) as Ha by (apply last_Some_elem_of in Hl; apply (subseteq_take n l), Hl).
    destruct (before a x) eqn:E.
    + specialize (Hx' _ Ha). pose proof (Htr _ _ _ E Hx') as Hc. by rewrite Hirr in Hc.
    + auto.
Qed.

End Strict.

End OrderBy.

(** ** Byte order of texts *)

Lemma string_compare_refl s : String.compare s s = Eq.
Proof.
  induction s as [|c s IH]; simpl; [done|]. unfold Ascii.compare. by rewrite N.compare_refl.
Qed.

Lemma string_ltb_lt s t : String.ltb s t = true <-> String.compare s t = Lt.
Proof. unfold String.ltb. destruct (String.compare s t); intuition congruence. Qed.

Lemma string_ltb_irrefl s : String.ltb s s = false.
Proof. unfold String.ltb. by rewrite string_compare_refl. Qed.

Lemma string_ltb_trans s t u : String.ltb s t = true -> String.ltb t u = true -> String.ltb s u = true.
Proof.
  rewrite !string_ltb_lt. revert t u. induction s as [|c s IH]; intros [|d t] [|e u]; simpl; try done.
  unfold Ascii.compare.
  destruct (N.compare_spec (N_of_ascii c) (N_of_ascii d)) as [E1|E1|E1]; [| |done];
    destruct (N.compare_spec (N_of_ascii d) (N_of_ascii e)) as [E2|E2|E2]; try done;
    destruct (N.compare_spec (N_of_ascii c) (N_of_ascii e)) as [E3|E3|E3]; try done; try lia.
  apply IH.
Qed.

Lemma string_ltb_total s t : s = t \/ String.ltb s t = true \/ String.ltb t s = true.
Proof.
  rewrite !string_ltb_lt, (String.compare_antisym t s). destruct (String.compare s t) eqn:E; simpl; auto.
  left. by apply String.compare_eq_iff.
Qed.
