(* ===== verification/Chain.v ===== *)
(** * The chain as the indexer sees it

    The types and rules the parts of the indexer share: collections and their
    bootstrap anchor (domain/collections.ts), block headers, checkpoints and the
    automatic window (domain/chain-sync.ts), the delayed check of recent blocks
    (domain/canonical-check.ts) and the checks of an acquired range
    (domain/sync-result.ts).  A block number is an integer of type [Z]; the checks
    [Number.isSafeInteger] of the code are written out. *)

From S2P Require Import Prelude JsValue.

Open Scope Z_scope.

Module Chain.

Definition isSafeInteger (z : Z) : bool := (- maxSafeInteger <=? z) && (z <=? maxSafeInteger).

(** ** Collections *)

Inductive CollectionStatus := Prepared | Bootstrapping | Live | Paused | Disabled.

#[export] Instance CollectionStatus_eq : EqDecision CollectionStatus.
Proof. solve_decision. Defined.

Inductive CollectionStandard := Erc721 | Erc1155.

#[export] Instance CollectionStandard_eq : EqDecision CollectionStandard.
Proof. solve_decision. Defined.

(** The fields of a collection that synchronisation reads. *)
Record CollectionRecord := {
  col_chainId : Z;
  col_id : Z;
  col_address : string;
  col_standard : CollectionStandard;
  col_status : CollectionStatus;
  col_bootstrapAnchorBlock : option Z;
}.

Record Range := { fromBlock : Z; toBlock : Z }.

#[export] Instance Range_eq : EqDecision Range.
Proof. solve_decision. Defined.

Definition gapRepairWindow (c : CollectionRecord) (headBlock : Z) : option Range :=
  match col_bootstrapAnchorBlock c with
  | None => None
  | Some anchor =>
      if negb (bool_decide (col_status c = Live)) || negb (isSafeInteger anchor) || (anchor <? 1)
         || negb (isSafeInteger headBlock) || (headBlock <? anchor)
      then None
      else Some {| fromBlock := anchor; toBlock := headBlock |}
  end.

Definition canRollbackFromBlock (bootstrapAnchorBlock : option Z) (from : Z) : bool :=
  match bootstrapAnchorBlock with
  | None => true
  | Some a => a <? from
  end.

Definition canProjectCurrentStateAtBlock (bootstrapAnchorBlock : option Z) (blockNumber : option Z) : bool :=
  match blockNumber, bootstrapAnchorBlock with
  | None, _ => true
  | Some _, None => false
  | Some b, Some a => a <? b
  end.

(** The part of a range above the anchor. *)
Definition intersectCurrentStateWindowForAnchor (bootstrapAnchorBlock : option Z) (from to : Z) : option Range :=
  match bootstrapAnchorBlock with
  | None => None
  | Some a =>
      let intersectFrom := Z.max from (a + 1) in
      if to <? intersectFrom then None else Some {| fromBlock := intersectFrom; toBlock := to |}
  end.

(** ** Headers, checkpoints and windows *)

Record SyncBlockHeader := { h_number : Z; h_hash : string; h_parentHash : string; h_timestamp : Z }.

#[export] Instance SyncBlockHeader_eq : EqDecision SyncBlockHeader.
Proof. solve_decision. Defined.

Record ChainSyncCheckpoint := { cp_chainId : Z; cp_revision : Z }.

#[export] Instance ChainSyncCheckpoint_eq : EqDecision ChainSyncCheckpoint.
Proof. solve_decision. Defined.

Definition automaticGapUpperBound (head reorgDepth : Z) : Z := Z.max 0 (head - reorgDepth).

Definition realtimeWindowStart (head reorgDepth : Z) : Z := Z.max 1 (head - reorgDepth + 1).

(** ** The delayed check of a recent block *)

Record PendingCanonicalCheck := {
  pc_chainId : Z;
  pc_blockNumber : Z;
  pc_blockHash : string;
  pc_checkpoint : ChainSyncCheckpoint;
}.

Record CanonicalCheckPolicy := { observedHeadBlock : Z; reorgDepth : Z }.

Definition canonicalCheckUpperBound (head reorgDepth : Z) : Z := Z.max 0 (head - reorgDepth + 1).

Definition assertCanonicalCheckPolicy (policy : CanonicalCheckPolicy) : result unit :=
  if negb (isSafeInteger (observedHeadBlock policy)) || (observedHeadBlock policy <? 0)
     || negb (isSafeInteger (reorgDepth policy)) || (reorgDepth policy <? 1)
  then Err "Invalid canonical check policy"
  else Ok tt.

Local Open Scope artgod_scope.

Definition needsDelayedCanonicalCheck (blockNumber : Z) (policy : CanonicalCheckPolicy) : result bool :=
  try _ <- assertCanonicalCheckPolicy policy;
  Ok (canonicalCheckUpperBound (observedHeadBlock policy) (reorgDepth policy) <? blockNumber).

(** ** Checks of an acquired range *)

Definition sameHeader (a b : SyncBlockHeader) : bool :=
  bool_decide (h_hash a = h_hash b) && bool_decide (h_parentHash a = h_parentHash b)
  && (h_timestamp a =? h_timestamp b).

(** The first loop of [assertSyncBlockHeaders]: the headers by number. *)
Fixpoint headersByNumber (blocks : list SyncBlockHeader) (byNumber : list (Z * SyncBlockHeader))
    : result (list (Z * SyncBlockHeader)) :=
  match blocks with
  | [] => Ok byNumber
  | block :: rest =>
      if negb (isSafeInteger (h_number block)) || (h_number block <? 0)
      then Err "Sync returned an invalid block number"
      else match jm_get (h_number block) byNumber with
           | Some previous =>
               if sameHeader previous block
               then headersByNumber rest (jm_set (h_number block) block byNumber)
               else Err ("Sync returned conflicting headers for block " ++ Z_toString (h_number block))%string
           | None => headersByNumber rest (jm_set (h_number block) block byNumber)
           end
  end.

(** The second loop: every header whose predecessor is given links to it. *)
Fixpoint parentLinks (byNumber : list (Z * SyncBlockHeader)) (blocks : list SyncBlockHeader) : result unit :=
  match blocks with
  | [] => Ok tt
  | block :: rest =>
      match jm_get (h_number block - 1) byNumber with
      | Some parent =>
          if bool_decide (h_parentHash block = h_hash parent) then parentLinks byNumber rest
          else Err ("Sync returned a broken parent link at block " ++ Z_toString (h_number block))%string
      | None => parentLinks byNumber rest
      end
  end.

Definition assertSyncBlockHeaders (blocks : list SyncBlockHeader) : result unit :=
  try byNumber <- headersByNumber blocks [];
  parentLinks byNumber (jm_values byNumber).

(** [blocks[index].number = from + index] for every index. *)
Fixpoint numberedFrom (from : Z) (blocks : list SyncBlockHeader) : bool :=
  match blocks with
  | [] => true
  | b :: rest => (h_number b =? from) && numberedFrom (from + 1) rest
  end.

Definition coversRange (blocks : list SyncBlockHeader) (from to : Z) : bool :=
  (Z.of_nat (length blocks) =? to - from + 1) && numberedFrom from blocks.

Definition assertSyncBlocksCoverRange (blocks : list SyncBlockHeader) (from to : Z) : result unit :=
  if coversRange blocks from to then Ok tt
  else Err "Sync acquisition does not cover its completion range".

(** What [assertSyncResultMatchesBlocks] reads of a fact. *)
Record Attribution := { at_blockNumber : Z; at_blockHash : string }.

Fixpoint factsMatch (blocks : list SyncBlockHeader) (facts : list Attribution) : result unit :=
  match facts with
  | [] => Ok tt
  | fact :: rest =>
      match jm_get (at_blockNumber fact)
              (fold_left (fun m b => jm_set (h_number b) b m) blocks []) with
      | Some block =>
          if bool_decide (at_blockHash fact = h_hash block) then factsMatch blocks rest
          else Err ("Sync fact does not match its header at block " ++ Z_toString (at_blockNumber fact))%string
      | None => Err ("Sync fact does not match its header at block " ++ Z_toString (at_blockNumber fact))%string
      end
  end.

Definition assertSyncResultMatchesBlocks (blocks : list SyncBlockHeader) (facts : list Attribution) : result unit :=
  try _ <- assertSyncBlockHeaders blocks;
  factsMatch blocks facts.

(** ** Lemmas *)

Lemma coversRange_length blocks from to :
  coversRange blocks from to = true -> Z.of_nat (length blocks) = to - from + 1.
Proof. unfold coversRange. intros [H _]%andb_true_iff. by zbool. Qed.

Lemma numberedFrom_lookup blocks from i b :
  numberedFrom from blocks = true -> blocks !! i = Some b -> h_number b = from + Z.of_nat i.
Proof.
  revert from i. induction blocks as [|c rest IH]; intros from i Hn Hl; [done|]. simpl in Hn. zbool.
  destruct i as [|i]; simpl in Hl; [injection Hl as <-; lia|].
  rewrite (IH _ _ H0 Hl). lia.
Qed.

Lemma numberedFrom_at blocks from n :
  numberedFrom from blocks = true -> from <= n < from + Z.of_nat (length blocks) ->
  exists b, In b blocks /\ h_number b = n.
Proof.
  intros Hn Hr. destruct (lookup_lt_is_Some_2 blocks (Z.to_nat (n - from))) as [b Hb]; [lia|].
  exists b. split; [by apply list_elem_of_lookup_2, list_elem_of_In in Hb|].
  rewrite (numberedFrom_lookup _ _ _ _ Hn Hb). lia.
Qed.

Lemma numberedFrom_range blocks from b :
  numberedFrom from blocks = true -> In b blocks -> from <= h_number b < from + Z.of_nat (length blocks).
Proof.
  intros Hn (i & Hi)%list_elem_of_In%list_elem_of_lookup. rewrite (numberedFrom_lookup _ _ _ _ Hn Hi).
  apply lookup_lt_Some in Hi. lia.
Qed.

(** The blocks of a covered range are exactly its numbers. *)
Lemma coversRange_numbers blocks from to n :
  coversRange blocks from to = true ->
  (exists b, In b blocks /\ h_number b = n) <-> from <= n <= to.
Proof.
  intros Hc. pose proof (coversRange_length _ _ _ Hc) as Hl. unfold coversRange in Hc.
  apply andb_true_iff in Hc as [_ Hn]. split.
  - intros (b & Hb & <-). pose proof (numberedFrom_range _ _ _ Hn Hb). lia.
  - intros Hr. apply (numberedFrom_at _ from); [done|lia].
Qed.

Lemma gapRepairWindow_spec c head w :
  gapRepairWindow c head = Some w ->
  col_status c = Live /\ col_bootstrapAnchorBlock c = Some (fromBlock w) /\ toBlock w = head
  /\ 1 <= fromBlock w <= head.
Proof.
  unfold gapRepairWindow. destruct (col_bootstrapAnchorBlock c) as [a|] eqn:E; [|done].
  destruct (_ || _) eqn:Eb; [done|]. intros [= <-]. simpl. zbool.
  apply bool_decide_eq_true in H. split_and!; [done..|lia|lia].
Qed.

End Chain.
