(* ===== verification/Ledger.v ===== *)
(** * The ledger of NFT transfers and balances

    The tables [nft_transfer_events], [nft_balances] and [erc721_ownership_checkpoints]
    of one chain and the statements of infra/storage/sqlite.ts that write them: a
    range is persisted ([persistTransfers], [applyBalanceUpdatesFromEvents]) and
    blocks are rolled back ([rollbackLedger], the part of [rollbackFromBlock] over
    these tables), with domain/ownership.ts.  Transfers are kept in the order of
    insertion; amounts, decimal texts in the table, are integers.  The other fact
    tables (transactions, fills, activities, metadata, orders) are left out. *)

From S2P Require Import Prelude JsValue OrderBy Chain.
Import Chain.

Open Scope Z_scope.

Module Ledger.

Definition ZERO_ADDRESS : string := "0x0000000000000000000000000000000000000000".
Definition zeroHash : string := "0x0000000000000000000000000000000000000000000000000000000000000000".
Definition ROLLBACK_TRANSFER_PAGE_SIZE : nat := 256.

Record NftTransferEvent := {
  ev_collectionId : Z; ev_contract : string; ev_from : string; ev_to : string;
  ev_tokenId : string; ev_amount : Z; ev_blockNumber : Z; ev_blockHash : string;
  ev_txHash : string; ev_logIndex : Z; ev_kind : CollectionStandard;
}.

Record TransferRow := {
  t_collectionId : Z; t_contract : string; t_from : string; t_to : string;
  t_tokenId : string; t_amount : Z; t_blockNumber : Z; t_blockHash : string;
  t_blockTimestamp : Z; t_txHash : string; t_logIndex : Z; t_kind : CollectionStandard;
}.

Record BalanceContext := {
  bc_blockNumber : Z; bc_blockHash : string; bc_blockTimestamp : Z; bc_txHash : string; bc_logIndex : Z;
}.

Record BalanceRow := { bal_contract : string; bal_amount : Z; bal_last : BalanceContext }.

Record OwnershipCheckpointRow := {
  oc_contract : string; oc_owner : option string; oc_blockNumber : Z; oc_blockHash : string;
  oc_blockTimestamp : Z; oc_bootstrapAnchorBlock : option Z;
}.

Record Erc721TokenReference := { tok_collectionId : Z; tok_contract : string; tok_tokenId : string }.

Record Erc721OwnershipState := { os_owner : option string; os_context : BalanceContext }.

Record Erc721RollbackSnapshot := {
  sn_block : SyncBlockHeader;
  sn_owners : list (Erc721TokenReference * option string);
}.

Record Ledger := {
  transfers : list TransferRow;
  balances : gmap (Z * string * string) BalanceRow;
  checkpoints : gmap (Z * string) OwnershipCheckpointRow;
}.

Definition emptyLedger : Ledger := {| transfers := []; balances := ∅; checkpoints := ∅ |}.

Definition setTransfers (l : Ledger) (ts : list TransferRow) : Ledger :=
  {| transfers := ts; balances := balances l; checkpoints := checkpoints l |}.
Definition setBalances (l : Ledger) (bs : gmap (Z * string * string) BalanceRow) : Ledger :=
  {| transfers := transfers l; balances := bs; checkpoints := checkpoints l |}.
Definition setCheckpoints (l : Ledger) (cs : gmap (Z * string) OwnershipCheckpointRow) : Ledger :=
  {| transfers := transfers l; balances := balances l; checkpoints := cs |}.

Section Statements.
(** The table of collections, and the time stamps of the blocks being persisted. *)
Context (collections : gmap Z CollectionRecord).

(** ** Balances *)

(** [upsertBalance]: the contract of an existing row stays. *)
Definition upsertBalance (k : Z * string * string) (contract : string) (amount : Z) (context : BalanceContext)
    (l : Ledger) : Ledger :=
  setBalances l (<[k := {| bal_contract := match balances l !! k with
                                           | Some b => bal_contract b
                                           | None => contract
                                           end;
                           bal_amount := amount; bal_last := context |}]> (balances l)).

Definition balanceOf (l : Ledger) (k : Z * string * string) : Z :=
  match balances l !! k with Some b => bal_amount b | None => 0 end.

Definition applyBalanceDelta (collectionId : Z) (contract tokenId owner : string) (delta : Z)
    (context : BalanceContext) (l : Ledger) : Ledger :=
  let k := (collectionId, tokenId, owner) in
  let nextAmount := balanceOf l k + delta in
  if nextAmount =? 0 then setBalances l (delete k (balances l))
  else upsertBalance k contract nextAmount context l.

Definition applyErc1155Transfer (collectionId : Z) (contract tokenId from to : string) (amount : Z)
    (context : BalanceContext) (l : Ledger) : Ledger :=
  let l := if bool_decide (from = ZERO_ADDRESS) then l
           else applyBalanceDelta collectionId contract tokenId from (- amount) context l in
  if bool_decide (to = ZERO_ADDRESS) then l
  else applyBalanceDelta collectionId contract tokenId to amount context l.

(** [deleteTokenBalances] *)
Definition deleteTokenBalances (collectionId : Z) (tokenId : string) (l : Ledger) : Ledger :=
  setBalances l (filter (fun '((c, t, _), _) => ~ (c = collectionId /\ t = tokenId)) (balances l)).

Definition replaceErc721Ownership (collectionId : Z) (contract tokenId : string) (owner : option string)
    (context : BalanceContext) (l : Ledger) : Ledger :=
  let l := deleteTokenBalances collectionId tokenId l in
  match owner with
  | Some o => upsertBalance (collectionId, tokenId, o) contract 1 context l
  | None => l
  end.

(** ** Transfers *)

Definition transferKey (r : TransferRow) : string * Z * Z * string :=
  (t_txHash r, t_logIndex r, t_collectionId r, t_tokenId r).

(** [INSERT OR IGNORE]: whether the row was new. *)
Definition insertTransfer (r : TransferRow) (l : Ledger) : bool * Ledger :=
  if bool_decide (transferKey r ∈ map transferKey (transfers l)) then (false, l)
  else (true, setTransfers l (transfers l ++ [r])).

Definition resolveBlockTimestamp (blocks : list SyncBlockHeader) (blockNumber : Z) : result Z :=
  match jm_get blockNumber (fold_left (fun m b => jm_set (h_number b) (h_timestamp b) m) blocks []) with
  | Some t => Ok t
  | None => Err ("Missing block timestamp for block " ++ Z_toString blockNumber)%string
  end.

Definition rowOf (event : NftTransferEvent) (timestamp : Z) : TransferRow := {|
  t_collectionId := ev_collectionId event; t_contract := toLowerCase (ev_contract event);
  t_from := toLowerCase (ev_from event); t_to := toLowerCase (ev_to event);
  t_tokenId := ev_tokenId event; t_amount := ev_amount event; t_blockNumber := ev_blockNumber event;
  t_blockHash := ev_blockHash event; t_blockTimestamp := timestamp; t_txHash := ev_txHash event;
  t_logIndex := ev_logIndex event; t_kind := ev_kind event |}.

Local Open Scope artgod_scope.

(** [persistTransfers]: the events whose rows were new. *)
Fixpoint persistTransfers (blocks : list SyncBlockHeader) (events : list NftTransferEvent)
    : M Ledger (list NftTransferEvent) :=
  match events with
  | [] => mret []
  | event :: rest => fun l =>
      match resolveBlockTimestamp blocks (ev_blockNumber event) with
      | Err e => (Err e, l)
      | Ok ts =>
          let '(isNew, l) := insertTransfer (rowOf event ts) l in
          (let! inserted := persistTransfers blocks rest in
           mret (if isNew then event :: inserted else inserted)) l
      end
  end.

(** ** ERC721 ownership *)

Definition newer (a b : TransferRow) : bool :=
  (t_blockNumber b <? t_blockNumber a)
  || (t_blockNumber b =? t_blockNumber a) && (t_logIndex b <? t_logIndex a).

Definition newest (rows : list TransferRow) : option TransferRow :=
  fold_left (fun best r => match best with
                           | None => Some r
                           | Some b => if newer r b then Some r else Some b
                           end) rows None.

Definition ofToken (collectionId : Z) (tokenId : string) (r : TransferRow) : bool :=
  (t_collectionId r =? collectionId) && bool_decide (t_tokenId r = tokenId).

Definition selectLatestTransfer (collectionId : Z) (tokenId : string) (l : Ledger) : option TransferRow :=
  newest (List.filter (ofToken collectionId tokenId) (transfers l)).

(** Only a checkpoint made under the present anchor of the collection counts. *)
Definition selectOwnershipCheckpoint (collectionId : Z) (tokenId : string) (l : Ledger)
    : option OwnershipCheckpointRow :=
  match checkpoints l !! (collectionId, tokenId), collections !! collectionId with
  | Some p, Some c =>
      if bool_decide (oc_bootstrapAnchorBlock p = col_bootstrapAnchorBlock c) then Some p else None
  | _, _ => None
  end.

Definition resolveErc721Ownership (latestTransfer checkpoint : option Erc721OwnershipState)
    : result Erc721OwnershipState :=
  match checkpoint, latestTransfer with
  | Some p, Some t =>
      if bc_blockNumber (os_context t) <=? bc_blockNumber (os_context p) then Ok p else Ok t
  | Some p, None => Ok p
  | None, Some t => Ok t
  | None, None => Err "Missing persisted ERC721 ownership"
  end.

Definition stateOfTransfer (r : TransferRow) : Erc721OwnershipState := {|
  os_owner := if bool_decide (t_to r = ZERO_ADDRESS) then None else Some (t_to r);
  os_context := {| bc_blockNumber := t_blockNumber r; bc_blockHash := t_blockHash r;
                   bc_blockTimestamp := t_blockTimestamp r; bc_txHash := t_txHash r;
                   bc_logIndex := t_logIndex r |} |}.

Definition stateOfCheckpoint (p : OwnershipCheckpointRow) : Erc721OwnershipState := {|
  os_owner := oc_owner p;
  os_context := {| bc_blockNumber := oc_blockNumber p; bc_blockHash := oc_blockHash p;
                   bc_blockTimestamp := oc_blockTimestamp p; bc_txHash := zeroHash; bc_logIndex := 0 |} |}.

Definition projectedOwnership (collectionId : Z) (tokenId : string) (l : Ledger) : result Erc721OwnershipState :=
  resolveErc721Ownership (stateOfTransfer <$> selectLatestTransfer collectionId tokenId l)
    (stateOfCheckpoint <$> selectOwnershipCheckpoint collectionId tokenId l).

(** The body of the loop of [applyBalanceUpdatesFromEvents]. *)
Definition applyBalanceUpdate (blocks : list SyncBlockHeader) (event : NftTransferEvent) (l : Ledger)
    : result Ledger :=
  match ev_kind event with
  | Erc721 =>
      try state <- projectedOwnership (ev_collectionId event) (ev_tokenId event) l;
      Ok (replaceErc721Ownership (ev_collectionId event) (toLowerCase (ev_contract event)) (ev_tokenId event)
            (os_owner state) (os_context state) l)
  | Erc1155 =>
      try ts <- resolveBlockTimestamp blocks (ev_blockNumber event);
      Ok (applyErc1155Transfer (ev_collectionId event) (toLowerCase (ev_contract event)) (ev_tokenId event)
            (toLowerCase (ev_from event)) (toLowerCase (ev_to event)) (ev_amount event)
            {| bc_blockNumber := ev_blockNumber event; bc_blockHash := ev_blockHash event;
               bc_blockTimestamp := ts; bc_txHash := ev_txHash event; bc_logIndex := ev_logIndex event |} l)
  end.

Fixpoint applyBalanceUpdatesFromEvents (blocks : list SyncBlockHeader) (events : list NftTransferEvent)
    (l : Ledger) : result Ledger :=
  match events with
  | [] => Ok l
  | event :: rest => try l <- applyBalanceUpdate blocks event l; applyBalanceUpdatesFromEvents blocks rest l
  end.

(** The collections of the range, as the map of [persistSyncResult] holds them. *)
Definition projectsNow (cols : list CollectionRecord) (event : NftTransferEvent) : bool :=
  match jm_get (ev_collectionId event) (fold_left (fun m c => jm_set (col_id c) c m) cols []) with
  | Some c => canProjectCurrentStateAtBlock (col_bootstrapAnchorBlock c) (Some (ev_blockNumber event))
  | None => false
  end.

(** The transfers of a range: the part of [persistSyncResult] over the ledger. *)
Definition persistLedger (blocks : list SyncBlockHeader) (events : list NftTransferEvent)
    (cols : list CollectionRecord) (l : Ledger) : result Ledger :=
  match persistTransfers blocks events l with
  | (Err e, _) => Err e
  | (Ok inserted, l) => applyBalanceUpdatesFromEvents blocks (List.filter (projectsNow cols) inserted) l
  end.

(** ** Rollback *)

Definition rollbackErc1155Transfer (event : TransferRow) (l : Ledger) : Ledger :=
  applyErc1155Transfer (t_collectionId event) (toLowerCase (t_contract event)) (t_tokenId event)
    (toLowerCase (t_to event)) (toLowerCase (t_from event)) (t_amount event)
    {| bc_blockNumber := t_blockNumber event; bc_blockHash := t_blockHash event;
       bc_blockTimestamp := t_blockTimestamp event; bc_txHash := t_txHash event;
       bc_logIndex := t_logIndex event |} l.

Definition textBefore (a b : string) : bool := String.ltb a b.

(** [(collection_id, token_id, tx_hash) > (@afterCollection, @afterToken, @afterTx)] *)
Definition rowValuesAfter (r after : TransferRow) : bool :=
  (t_collectionId after <? t_collectionId r)
  || (t_collectionId after =? t_collectionId r)
     && (textBefore (t_tokenId after) (t_tokenId r)
         || bool_decide (t_tokenId after = t_tokenId r) && textBefore (t_txHash after) (t_txHash r)).

(** [r] comes after [after] in the order of the pages: blocks and logs downwards. *)
Definition pageAfter (after r : TransferRow) : bool :=
  (t_blockNumber r <? t_blockNumber after)
  || (t_blockNumber r =? t_blockNumber after) && (t_logIndex r <? t_logIndex after)
  || (t_blockNumber r =? t_blockNumber after) && (t_logIndex r =? t_logIndex after)
     && rowValuesAfter r after.

Definition selectTransfersFromBlock (from : Z) (after : option TransferRow) (limit : nat) (l : Ledger)
    : list TransferRow :=
  firstn limit
    (orderBy pageAfter (List.filter (fun r => (from <=? t_blockNumber r)
                                     && match after with None => true | Some a => pageAfter a r end)
                 (transfers l))).

Definition rollbackEvents (events : list TransferRow) (l : Ledger) : Ledger :=
  fold_left (fun l event => if bool_decide (t_kind event = Erc1155) then rollbackErc1155Transfer event l else l)
    events l.

(** The [while (true)] over pages; [fuel] counts pages. *)
Fixpoint rollbackPages (fuel : nat) (from : Z) (after : option TransferRow) (l : Ledger) : option Ledger :=
  match fuel with
  | O => None
  | S fuel =>
      let events := selectTransfersFromBlock from after ROLLBACK_TRANSFER_PAGE_SIZE l in
      let l := rollbackEvents events l in
      if (length events <? ROLLBACK_TRANSFER_PAGE_SIZE)%nat then Some l
      else rollbackPages fuel from (last events) l
  end.

Definition isHexUnit (c : ascii) : bool :=
  let n := N_of_ascii c in
  ((48 <=? n) && (n <=? 57) || (97 <=? n) && (n <=? 102) || (65 <=? n) && (n <=? 70))%N.

Fixpoint allHex (s : string) : bool :=
  match s with EmptyString => true | String c s => isHexUnit c && allHex s end.

Definition normalizeErc721Owner (owner : string) : result string :=
  if String.prefix "0x" owner && (String.length owner =? 42)%nat
     && allHex (substring 2 40 owner) && negb (bool_decide (toLowerCase owner = ZERO_ADDRESS))
  then Ok (toLowerCase owner)
  else Err "ERC721 ownerOf returned an invalid owner".

(** [upsertOwnershipCheckpoint]: nothing is written for a collection that is gone. *)
Definition upsertOwnershipCheckpoint (token : Erc721TokenReference) (owner : option string)
    (block : SyncBlockHeader) (l : Ledger) : Ledger :=
  match collections !! tok_collectionId token with
  | None => l
  | Some c =>
      setCheckpoints l (<[(tok_collectionId token, tok_tokenId token) := {|
        oc_contract := tok_contract token; oc_owner := owner; oc_blockNumber := h_number block;
        oc_blockHash := h_hash block; oc_blockTimestamp := h_timestamp block;
        oc_bootstrapAnchorBlock := col_bootstrapAnchorBlock c |}]> (checkpoints l))
  end.

Definition restoreOwner (block : SyncBlockHeader) (token : Erc721TokenReference) (answer : option string)
    (l : Ledger) : result Ledger :=
  try owner <- (match answer with
                | None => Ok None
                | Some o => try n <- normalizeErc721Owner o; Ok (Some n)
                end);
  let l := upsertOwnershipCheckpoint token owner block l in
  Ok (replaceErc721Ownership (tok_collectionId token) (tok_contract token) (tok_tokenId token) owner
        {| bc_blockNumber := h_number block; bc_blockHash := h_hash block; bc_blockTimestamp := h_timestamp block;
           bc_txHash := zeroHash; bc_logIndex := 0 |} l).

Fixpoint restoreOwners (block : SyncBlockHeader) (owners : list (Erc721TokenReference * option string))
    (l : Ledger) : result Ledger :=
  match owners with
  | [] => Ok l
  | (token, answer) :: rest => try l <- restoreOwner block token answer l; restoreOwners block rest l
  end.

(** ** The tokens a rollback touches *)

Definition tokenBefore (a b : Z * string) : bool := (a.1 <? b.1) || (a.1 =? b.1) && textBefore a.2 b.2.

Definition rollbackTokenKeys (from : Z) (l : Ledger) : list (Z * string) :=
  map (fun r => (t_collectionId r, t_tokenId r))
    (List.filter (fun r => (from <=? t_blockNumber r) && bool_decide (t_kind r = Erc721)) (transfers l))
  ++ map (fun '((c, t, _), _) => (c, t))
       (List.filter (fun '(_, b) => from <=? bc_blockNumber (bal_last b)) (map_to_list (balances l)))
  ++ map fst (List.filter (fun '(_, p) => from <=? oc_blockNumber p) (map_to_list (checkpoints l))).

Definition selectRollbackTokens (from : Z) (l : Ledger) : list Erc721TokenReference :=
  omap (fun '(c, t) =>
          match collections !! c with
          | Some col =>
              if bool_decide (col_standard col = Erc721) && bool_decide (col_bootstrapAnchorBlock col <> None)
              then Some {| tok_collectionId := c; tok_contract := col_address col; tok_tokenId := t |}
              else None
          | None => None
          end)
    (orderBy tokenBefore (remove_dups (rollbackTokenKeys from l))).

Definition tokenKey (t : Erc721TokenReference) : string :=
  (Z_toString (tok_collectionId t) ++ ":" ++ tok_tokenId t)%string.

Fixpoint sameTokens (expected : list (string * string)) (actual : list Erc721TokenReference) : result unit :=
  match actual with
  | [] => Ok tt
  | token :: rest =>
      if bool_decide (jm_get (tokenKey token) expected = Some (toLowerCase (tok_contract token)))
      then sameTokens (jm_del (tokenKey token) expected) rest
      else Err "Rollback token scope changed"
  end.

Definition assertSameErc721Tokens (expected actual : list Erc721TokenReference) : result unit :=
  let m := fold_left (fun m t => jm_set (tokenKey t) (toLowerCase (tok_contract t)) m) expected [] in
  if (length m =? length expected)%nat && (length actual =? length m)%nat
  then sameTokens m actual
  else Err "Rollback token scope changed".

(** The part of [rollbackFromBlock] over the ledger; [tokens] is the plan's. *)
Definition rollbackLedger (from : Z) (tokens : list Erc721TokenReference) (snapshot : Erc721RollbackSnapshot)
    (l : Ledger) : result Ledger :=
  try _ <- assertSameErc721Tokens tokens (selectRollbackTokens from l);
  try _ <- assertSameErc721Tokens tokens (map fst (sn_owners snapshot));
  match rollbackPages (S (length (transfers l))) from None l with
  | None => Err "unreachable: the pages of a table end"
  | Some l =>
      try l <- restoreOwners (sn_block snapshot) (sn_owners snapshot) l;
      Ok (setTransfers l (List.filter (fun r => t_blockNumber r <? from) (transfers l)))
  end.

End Statements.

End Ledger.
