(* ===== verification/LedgerProof.v ===== *)
(** * The ledger: its pages, its amounts and its owners

    The lemmas behind [LedgerClaims]: the pages of a rollback visit every transfer
    from the fork on exactly once; what each operation does to the balance of one
    account; what it does to the owner of one token. *)

From S2P Require Import Prelude JsValue OrderBy Chain Ledger.
From Stdlib Require Import Sorted Permutation DecimalString.
Import Chain Ledger.

Open Scope Z_scope.

Module LedgerProof.

(** ** The order of the pages *)

Lemma pageAfter_spec a r : pageAfter a r = true <->
  t_blockNumber r < t_blockNumber a \/
  t_blockNumber r = t_blockNumber a /\
    (t_logIndex r < t_logIndex a \/
     t_logIndex r = t_logIndex a /\
       (t_collectionId a < t_collectionId r \/
        t_collectionId a = t_collectionId r /\
          (String.ltb (t_tokenId a) (t_tokenId r) = true \/
           t_tokenId a = t_tokenId r /\ String.ltb (t_txHash a) (t_txHash r) = true))).
Proof.
  unfold pageAfter, rowValuesAfter, textBefore.
  rewrite !orb_true_iff, !andb_true_iff, !orb_true_iff, !andb_true_iff, !orb_true_iff, !andb_true_iff,
    !Z.ltb_lt, !Z.eqb_eq, bool_decide_eq_true. tauto.
Qed.

Lemma pageAfter_irrefl a : pageAfter a a = false.
Proof.
  apply not_true_is_false. rewrite pageAfter_spec, !string_ltb_irrefl. lia.
Qed.

Lemma pageAfter_trans a b c : pageAfter a b = true -> pageAfter b c = true -> pageAfter a c = true.
Proof.
  rewrite !pageAfter_spec. intros Hab Hbc.
  destruct Hab as [?|[? [?|[? [?|[? [K1|[K1 K1']]]]]]]], Hbc as [?|[? [?|[? [?|[? [K2|[K2 K2']]]]]]]];
    try (left; lia); right; (split; [lia|]); try (left; lia); right; (split; [lia|]); try (left; lia);
    right; (split; [lia|]);
    first [left; by eapply string_ltb_trans; eauto; congruence
          |left; congruence
          |right; split; [congruence|eapply string_ltb_trans; eauto]].
Qed.

Lemma NoDup_map_inj {A B} (f : A -> B) l a b :
  NoDup (map f l) -> In a l -> In b l -> f a = f b -> a = b.
Proof.
  induction l as [|x l IH]; simpl; [done|]. intros [Hx Hnd]%NoDup_cons [->|Ha] [->|Hb] E; auto.
  - exfalso. apply Hx, list_elem_of_In. rewrite E. by apply in_map.
  - exfalso. apply Hx, list_elem_of_In. rewrite <- E. by apply in_map.
Qed.

Lemma pageAfter_total l : NoDup (map transferKey l) -> totalOn pageAfter l.
Proof.
  intros Hnd a b Ha Hb. rewrite !pageAfter_spec.
  destruct (Z.lt_trichotomy (t_blockNumber a) (t_blockNumber b)) as [?|[?|?]]; [intuition congruence| |intuition congruence].
  destruct (Z.lt_trichotomy (t_logIndex a) (t_logIndex b)) as [?|[?|?]]; [intuition congruence| |intuition congruence].
  destruct (Z.lt_trichotomy (t_collectionId a) (t_collectionId b)) as [?|[?|?]]; [intuition congruence| |intuition congruence].
  destruct (string_ltb_total (t_tokenId a) (t_tokenId b)) as [?|[?|?]]; [|intuition congruence|intuition congruence].
  destruct (string_ltb_total (t_txHash a) (t_txHash b)) as [?|[?|?]]; [|intuition congruence|intuition congruence].
  left. apply (NoDup_map_inj transferKey l); [done..|]. unfold transferKey. congruence.
Qed.

(** ** Every page of a rollback, in one list *)

Lemma rollbackEvents_transfers events l : transfers (rollbackEvents events l) = transfers l.
Proof.
  unfold rollbackEvents. revert l. induction events as [|e events IH]; intros l; simpl; [done|].
  rewrite IH. case_bool_decide; [|done].
  unfold rollbackErc1155Transfer, applyErc1155Transfer, applyBalanceDelta, upsertBalance, setBalances.
  repeat case_match; done.
Qed.

Lemma rollbackEvents_checkpoints events l : checkpoints (rollbackEvents events l) = checkpoints l.
Proof.
  unfold rollbackEvents. revert l. induction events as [|e events IH]; intros l; simpl; [done|].
  rewrite IH. case_bool_decide; [|done].
  unfold rollbackErc1155Transfer, applyErc1155Transfer, applyBalanceDelta, upsertBalance, setBalances.
  repeat case_match; done.
Qed.

Lemma rollbackEvents_app e1 e2 l : rollbackEvents (e1 ++ e2) l = rollbackEvents e2 (rollbackEvents e1 l).
Proof. unfold rollbackEvents. apply fold_left_app. Qed.

(** The rows a page query can still return. *)
Definition remaining (from : Z) (after : option TransferRow) (rows : list TransferRow) : list TransferRow :=
  orderBy pageAfter (List.filter (fun r => (from <=? t_blockNumber r)
     && match after with None => true | Some a => pageAfter a r end) rows).

Lemma NoDup_of_keys rows : NoDup (map transferKey rows) -> NoDup rows.
Proof. intros H. by apply NoDup_fmap_1 in H. Qed.

Lemma remaining_strict from after rows :
  NoDup (map transferKey rows) ->
  StronglySorted (fun a b => pageAfter a b = true) (remaining from after rows).
Proof.
  intros Hnd. apply orderBy_strict; [apply pageAfter_trans| |].
  - apply NoDup_lfilter. by apply NoDup_of_keys.
  - intros a b [Ha _]%filter_In [Hb _]%filter_In. by apply (pageAfter_total rows).
Qed.

Lemma lfilter_lfilter {A} (p q : A -> bool) l :
  List.filter p (List.filter q l) = List.filter (fun x => q x && p x) l.
Proof.
  induction l as [|x l IH]; simpl; [done|]. destruct (q x); simpl; [|done]. destruct (p x); by rewrite IH.
Qed.

Lemma lfilter_ext_In {A} (p q : A -> bool) l :
  (forall x, In x l -> p x = q x) -> List.filter p l = List.filter q l.
Proof. intros H. apply filter_ext_in, H. Qed.

(** The next page starts where this one ended. *)
Lemma remaining_next from after rows n a :
  NoDup (map transferKey rows) -> last (firstn n (remaining from after rows)) = Some a ->
  remaining from (Some a) rows = skipn n (remaining from after rows).
Proof.
  intros Hnd Hl. pose proof (remaining_strict from after rows Hnd) as Hs.
  rewrite <- (after_page pageAfter pageAfter_irrefl pageAfter_trans _ _ _ Hs Hl).
  unfold remaining. rewrite <- orderBy_filter;
    [|apply pageAfter_irrefl|apply pageAfter_trans|by eapply NoDup_lfilter, NoDup_of_keys
     |intros x y [Hx _]%filter_In [Hy _]%filter_In; by apply (pageAfter_total rows)].
  f_equal. rewrite lfilter_lfilter. apply lfilter_ext_In. intros r _.
  destruct (from <=? t_blockNumber r); simpl; [|done].
  destruct after as [b|]; simpl; [|done]. destruct (pageAfter a r) eqn:E; [|by rewrite andb_false_r].
  assert (pageAfter b a = true) as Hba.
  { assert (a ∈ remaining from (Some b) rows) as Ha.
    { apply last_Some_elem_of in Hl. by apply (subseteq_take n) in Hl. }
    unfold remaining in Ha. apply orderBy_elem_of, list_elem_of_In, filter_In in Ha as [_ Ha].
    by apply andb_true_iff in Ha as [_ Ha]. }
  by rewrite (pageAfter_trans _ _ _ Hba E).
Qed.

Lemma rollbackPages_all fuel from after l :
  NoDup (map transferKey (transfers l)) ->
  (length (remaining from after (transfers l)) < fuel)%nat ->
  rollbackPages fuel from after l = Some (rollbackEvents (remaining from after (transfers l)) l).
Proof.
  revert after l. induction fuel as [|fuel IH]; intros after l Hnd Hf; [lia|]. simpl.
  unfold selectTransfersFromBlock. fold (remaining from after (transfers l)).
  remember (remaining from after (transfers l)) as S eqn:ES.
  destruct (Nat.ltb_spec (length (firstn ROLLBACK_TRANSFER_PAGE_SIZE S)) ROLLBACK_TRANSFER_PAGE_SIZE) as [Hlt|Hge].
  - rewrite firstn_all2; [done|]. rewrite length_firstn in Hlt. lia.
  - destruct (last (firstn ROLLBACK_TRANSFER_PAGE_SIZE S)) as [a|] eqn:El.
    2:{ apply last_None in El. rewrite El in Hge. unfold ROLLBACK_TRANSFER_PAGE_SIZE in Hge. simpl in Hge. lia. }
    rewrite IH; rewrite rollbackEvents_transfers; [|done|].
    + rewrite ES in El. rewrite (remaining_next _ _ _ _ _ Hnd El), <- ES, <- rollbackEvents_app, firstn_skipn. done.
    + rewrite ES in El. rewrite (remaining_next _ _ _ _ _ Hnd El), <- ES, length_skipn.
      rewrite length_firstn in Hge. unfold ROLLBACK_TRANSFER_PAGE_SIZE in *. lia.
Qed.

(** The rows of all pages: those from the fork on, newest first. *)
Definition rolledBack (from : Z) (rows : list TransferRow) : list TransferRow := remaining from None rows.

Lemma rolledBack_perm from rows :
  Permutation (rolledBack from rows) (List.filter (fun r => from <=? t_blockNumber r) rows).
Proof.
  unfold rolledBack, remaining. rewrite orderBy_perm.
  erewrite lfilter_ext_In; [done|]. intros r _. by rewrite andb_true_r.
Qed.

Lemma rollbackPages_total from l :
  NoDup (map transferKey (transfers l)) ->
  rollbackPages (S (length (transfers l))) from None l = Some (rollbackEvents (rolledBack from (transfers l)) l).
Proof.
  intros Hnd. apply rollbackPages_all; [done|]. fold (rolledBack from (transfers l)).
  rewrite (Permutation_length (rolledBack_perm from (transfers l))).
  pose proof (filter_length_le (fun r => from <=? t_blockNumber r) (transfers l)). lia.
Qed.

(** ** Sums over rows *)

Definition sumOver {A} (f : A -> Z) (l : list A) : Z := fold_right (fun x acc => f x + acc) 0 l.

Lemma sumOver_app {A} (f : A -> Z) l1 l2 : sumOver f (l1 ++ l2) = sumOver f l1 + sumOver f l2.
Proof. induction l1 as [|x l1 IH]; simpl; [lia|]. rewrite IH. lia. Qed.

Lemma sumOver_perm {A} (f : A -> Z) l1 l2 : Permutation l1 l2 -> sumOver f l1 = sumOver f l2.
Proof. induction 1; simpl in *; lia. Qed.

Lemma sumOver_ext {A} (f g : A -> Z) l : (forall x, In x l -> f x = g x) -> sumOver f l = sumOver g l.
Proof. induction l as [|x l IH]; simpl; intros H; [done|]. rewrite (H x), IH; auto. Qed.

Lemma sumOver_opp {A} (f : A -> Z) l : sumOver (fun x => - f x) l = - sumOver f l.
Proof. induction l as [|x l IH]; simpl; lia. Qed.

Lemma sumOver_zero {A} (f : A -> Z) l : (forall x, In x l -> f x = 0) -> sumOver f l = 0.
Proof. induction l as [|x l IH]; simpl; intros H; [done|]. rewrite (H x), IH; auto. Qed.

(** The rows that satisfy [p], by whether they also satisfy [q]. *)
Lemma sumOver_split {A} (f : A -> Z) (p q : A -> bool) l :
  sumOver f (List.filter p l)
  = sumOver f (List.filter p (List.filter q l)) + sumOver f (List.filter p (List.filter (fun x => negb (q x)) l)).
Proof.
  induction l as [|x l IH]; simpl; [done|].
  destruct (q x); simpl; destruct (p x); simpl; lia.
Qed.

(** ** Amounts *)

(** What a transfer adds to an account. *)
Definition accountDelta (collectionId : Z) (tokenId from to : string) (amount : Z) (k : Z * string * string) : Z :=
  (if bool_decide (from <> ZERO_ADDRESS /\ k = (collectionId, tokenId, from)) then - amount else 0)
  + (if bool_decide (to <> ZERO_ADDRESS /\ k = (collectionId, tokenId, to)) then amount else 0).

Definition rowDelta (k : Z * string * string) (r : TransferRow) : Z :=
  accountDelta (t_collectionId r) (t_tokenId r) (toLowerCase (t_from r)) (toLowerCase (t_to r)) (t_amount r) k.

Lemma accountDelta_swap c t from to a k : accountDelta c t to from a k = - accountDelta c t from to a k.
Proof. unfold accountDelta. repeat case_bool_decide; lia. Qed.

Lemma accountDelta_other c t from to a c' t' o : c <> c' -> accountDelta c t from to a (c', t', o) = 0.
Proof. intros Hne. unfold accountDelta. rewrite !bool_decide_eq_false_2; [done| |]; intros [_ ?]; congruence. Qed.

Lemma balanceOf_applyBalanceDelta c ct t o d ctx l k :
  balanceOf (applyBalanceDelta c ct t o d ctx l) k = balanceOf l k + (if bool_decide (k = (c, t, o)) then d else 0).
Proof.
  unfold applyBalanceDelta. destruct (Z.eqb_spec (balanceOf l (c, t, o) + d) 0) as [E|E].
  - unfold balanceOf at 1, setBalances. simpl. case_bool_decide as Hk; [subst; rewrite lookup_delete_eq; lia|].
    rewrite lookup_delete_ne by congruence. unfold balanceOf. lia.
  - unfold balanceOf at 1, upsertBalance, setBalances. simpl.
    case_bool_decide as Hk; [subst; by rewrite lookup_insert_eq|].
    rewrite lookup_insert_ne by congruence. unfold balanceOf. lia.
Qed.

Lemma balanceOf_applyErc1155Transfer c ct t from to a ctx l k :
  balanceOf (applyErc1155Transfer c ct t from to a ctx l) k = balanceOf l k + accountDelta c t from to a k.
Proof.
  unfold applyErc1155Transfer, accountDelta.
  repeat (case_bool_decide; rewrite ?balanceOf_applyBalanceDelta); intuition (subst; try congruence; try lia).
Qed.

Lemma balanceOf_rollbackEvents events l k :
  balanceOf (rollbackEvents events l) k
  = balanceOf l k - sumOver (fun r => if bool_decide (t_kind r = Erc1155) then rowDelta k r else 0) events.
Proof.
  unfold rollbackEvents. revert l. induction events as [|r events IH]; intros l; simpl; [lia|].
  rewrite IH. case_bool_decide; [|lia].
  unfold rollbackErc1155Transfer. rewrite balanceOf_applyErc1155Transfer, accountDelta_swap.
  unfold rowDelta. lia.
Qed.

(** Replacing the owner of a token touches the accounts of that token only. *)
Lemma replaceErc721Ownership_other c ct t o ctx l c' t' o' : (c, t) <> (c', t') ->
  balances (replaceErc721Ownership c ct t o ctx l) !! (c', t', o') = balances l !! (c', t', o').
Proof.
  intros Hne. assert (balances (deleteTokenBalances c t l) !! (c', t', o') = balances l !! (c', t', o')) as Hd.
  { unfold deleteTokenBalances, setBalances. simpl.
    destruct (balances l !! (c', t', o')) as [b|] eqn:E.
    - apply map_lookup_filter_Some. split; [done|]. intros [-> ->]. done.
    - apply map_lookup_filter_None. by left. }
  unfold replaceErc721Ownership. destruct o as [o|]; [|done].
  unfold upsertBalance, setBalances. simpl. rewrite lookup_insert_ne by congruence. exact Hd.
Qed.

Lemma replaceErc721Ownership_transfers c ct t o ctx l :
  transfers (replaceErc721Ownership c ct t o ctx l) = transfers l
  /\ checkpoints (replaceErc721Ownership c ct t o ctx l) = checkpoints l.
Proof. by destruct o. Qed.

(** The accounts of a token after its owner was replaced. *)
Lemma replaceErc721Ownership_same c ct t o ctx l o' :
  balanceOf (replaceErc721Ownership c ct t o ctx l) (c, t, o') = (if bool_decide (o = Some o') then 1 else 0).
Proof.
  assert (balances (deleteTokenBalances c t l) !! (c, t, o') = None) as Hd.
  { unfold deleteTokenBalances, setBalances. simpl. apply map_lookup_filter_None. right.
    intros b _ Hn. by apply Hn. }
  unfold balanceOf, replaceErc721Ownership. cbv zeta.
  destruct o as [o|]; [|rewrite bool_decide_false by done; by rewrite Hd].
  unfold upsertBalance. change (balances (setBalances ?a ?b)) with b.
  destruct (decide (o = o')) as [->|Hne].
  - by rewrite lookup_insert_eq, bool_decide_true.
  - rewrite lookup_insert_ne by congruence. rewrite bool_decide_false by congruence. by rewrite Hd.
Qed.

(** ** Persisting a range *)

Definition rowFor (ev : NftTransferEvent) (r : TransferRow) : Prop := exists ts, r = rowOf ev ts.

Lemma insertTransfer_keys r l isNew l' :
  insertTransfer r l = (isNew, l') -> NoDup (map transferKey (transfers l)) ->
  NoDup (map transferKey (transfers l')).
Proof.
  unfold insertTransfer. case_bool_decide as Hin; intros [= <- <-] Hnd; [done|]. simpl.
  rewrite map_app. apply NoDup_app. split_and!; [done| |apply NoDup_singleton].
  intros k Hk ->%list_elem_of_singleton. done.
Qed.

Lemma persistTransfers_spec blocks events l res l' :
  persistTransfers blocks events l = (res, l') ->
  balances l' = balances l /\ checkpoints l' = checkpoints l /\
  (NoDup (map transferKey (transfers l)) -> NoDup (map transferKey (transfers l'))) /\
  forall inserted, res = Ok inserted ->
    exists rows, transfers l' = transfers l ++ rows /\ Forall2 rowFor inserted rows
                 /\ forall ev, In ev inserted -> In ev events.
Proof.
  revert l res l'. induction events as [|ev events IH]; intros l res l' Hp; simpl in Hp.
  - injection Hp as <- <-. split_and!; [done..|]. intros ? [= <-]. exists []. by rewrite app_nil_r.
  - destruct (resolveBlockTimestamp blocks (ev_blockNumber ev)) as [ts|e];
      [|injection Hp as <- <-; by split_and!].
    destruct (insertTransfer (rowOf ev ts) l) as [isNew l1] eqn:Ei.
    unfold mbind in Hp. destruct (persistTransfers blocks events l1) as [r1 l2] eqn:E1.
    specialize (IH _ _ _ E1) as (Hb & Hc & Hnd & Hin).
    assert (balances l1 = balances l /\ checkpoints l1 = checkpoints l /\
            transfers l1 = transfers l ++ (if isNew then [rowOf ev ts] else [])) as (Hb1 & Hc1 & Ht1).
    { revert Ei. unfold insertTransfer. case_bool_decide; intros [= <- <-]; simpl; rewrite ?app_nil_r; done. }
    destruct r1 as [ins|e]; injection Hp as <- <-;
      (split_and!; [congruence|congruence|eauto using insertTransfer_keys|]); [|done].
    intros inserted [= <-]. destruct (Hin ins eq_refl) as (rows & Hr & HF & Hsub).
    exists ((if isNew then [rowOf ev ts] else []) ++ rows). rewrite Hr, Ht1, <- app_assoc.
    split; [done|]. destruct isNew; simpl; (split; [|intros e [?|?]%in_inv || intros e ?; simpl; auto]).
    + constructor; [by exists ts|done].
    + done.
Qed.

Section Apply.
Context (collections : gmap Z CollectionRecord) (blocks : list SyncBlockHeader).

Definition evDelta (k : Z * string * string) (ev : NftTransferEvent) : Z :=
  accountDelta (ev_collectionId ev) (ev_tokenId ev) (toLowerCase (ev_from ev)) (toLowerCase (ev_to ev))
    (ev_amount ev) k.

Lemma applyErc1155Transfer_tables c ct t from to a ctx l :
  transfers (applyErc1155Transfer c ct t from to a ctx l) = transfers l
  /\ checkpoints (applyErc1155Transfer c ct t from to a ctx l) = checkpoints l.
Proof.
  unfold applyErc1155Transfer, applyBalanceDelta, upsertBalance, setBalances. repeat case_match; done.
Qed.

Lemma applyBalanceUpdate_tables ev l l' :
  applyBalanceUpdate collections blocks ev l = Ok l' ->
  transfers l' = transfers l /\ checkpoints l' = checkpoints l.
Proof.
  unfold applyBalanceUpdate. destruct (ev_kind ev); intros H; inv_try; simplify_eq.
  - apply replaceErc721Ownership_transfers.
  - apply applyErc1155Transfer_tables.
Qed.

Lemma projectedOwnership_ext c t l l' :
  transfers l' = transfers l -> checkpoints l' = checkpoints l ->
  projectedOwnership collections c t l' = projectedOwnership collections c t l.
Proof.
  unfold projectedOwnership, selectLatestTransfer, selectOwnershipCheckpoint. by intros -> ->.
Qed.

Lemma applyUpdates_tables events l l' :
  applyBalanceUpdatesFromEvents collections blocks events l = Ok l' ->
  transfers l' = transfers l /\ checkpoints l' = checkpoints l.
Proof.
  revert l. induction events as [|ev events IH]; simpl; intros l H; [by simplify_eq|].
  inv_try. apply applyBalanceUpdate_tables in Ha as [<- <-]. auto.
Qed.

(** The accounts of a collection whose transfers are ERC1155 transfers. *)
Lemma applyUpdates_amounts c t o events l l' :
  (forall ev, In ev events -> ev_collectionId ev = c -> ev_kind ev = Erc1155) ->
  applyBalanceUpdatesFromEvents collections blocks events l = Ok l' ->
  balanceOf l' (c, t, o) = balanceOf l (c, t, o) + sumOver (evDelta (c, t, o)) events.
Proof.
  revert l. induction events as [|ev events IH]; simpl; intros l Hk H; [simplify_eq; lia|].
  inv_try. rewrite (IH a) by auto. enough (balanceOf a (c, t, o) = balanceOf l (c, t, o) + evDelta (c, t, o) ev) by lia.
  unfold applyBalanceUpdate in Ha. destruct (ev_kind ev) eqn:E; inv_try; simplify_eq.
  - destruct (decide (ev_collectionId ev = c)) as [Hc|Hc]; [rewrite Hk in E; [done|by left|done]|].
    unfold balanceOf at 1. rewrite replaceErc721Ownership_other by congruence.
    unfold evDelta. rewrite accountDelta_other by done. unfold balanceOf. lia.
  - by rewrite balanceOf_applyErc1155Transfer.
Qed.

(** The token has exactly the owner the stored facts give it. *)
Definition Owned (c : Z) (t : string) (l : Ledger) : Prop :=
  exists st, projectedOwnership collections c t l = Ok st /\
             forall o, balanceOf l (c, t, o) = if bool_decide (os_owner st = Some o) then 1 else 0.

Lemma applyUpdates_owner c t events l l' :
  (forall ev, In ev events -> ev_collectionId ev = c -> ev_kind ev = Erc721) ->
  applyBalanceUpdatesFromEvents collections blocks events l = Ok l' ->
  Owned c t l \/ (exists ev, In ev events /\ ev_collectionId ev = c /\ ev_tokenId ev = t) ->
  Owned c t l'.
Proof.
  revert l. induction events as [|ev events IH]; simpl; intros l Hk H Ho.
  - simplify_eq. by destruct Ho as [?|(? & [] & _)].
  - inv_try. apply (IH a); [auto|done|].
    pose proof (applyBalanceUpdate_tables _ _ _ Ha) as [Ht Hc].
    destruct (decide ((ev_collectionId ev, ev_tokenId ev) = (c, t))) as [Heq|Hne].
    + left. injection Heq as Ec Et. unfold applyBalanceUpdate in Ha. rewrite (Hk ev) in Ha by auto. inv_try.
      simplify_eq. exists a0. rewrite (projectedOwnership_ext _ _ l) by done. split; [done|].
      apply replaceErc721Ownership_same.
    + destruct Ho as [(st & Hp & Hb)|(ev' & [->|Hin] & Hc' & Ht')];
        [|exfalso; apply Hne; congruence|right; eauto].
      left. exists st. rewrite (projectedOwnership_ext _ _ l) by done. split; [done|].
      intros o. rewrite <- Hb. unfold applyBalanceUpdate in Ha. destruct (ev_kind ev) eqn:E; inv_try; simplify_eq.
      * unfold balanceOf. by rewrite replaceErc721Ownership_other.
      * rewrite balanceOf_applyErc1155Transfer.
        destruct (decide (ev_collectionId ev = c)) as [Hcc|Hcc]; [rewrite Hk in E; [done|by left|done]|].
        rewrite accountDelta_other by done. lia.
Qed.

End Apply.

(** The key under which an event is stored. *)
Definition eventKey (ev : NftTransferEvent) : string * Z * Z * string :=
  (ev_txHash ev, ev_logIndex ev, ev_collectionId ev, ev_tokenId ev).

Lemma persistTransfers_stored blocks events l inserted l' :
  persistTransfers blocks events l = (Ok inserted, l') ->
  (forall k, In k (map transferKey (transfers l)) -> In k (map transferKey (transfers l')))
  /\ forall ev, In ev events -> In (eventKey ev) (map transferKey (transfers l')).
Proof.
  revert l inserted l'. induction events as [|ev events IH]; intros l inserted l' Hp; simpl in Hp.
  - by injection Hp as _ <-.
  - destruct (resolveBlockTimestamp blocks (ev_blockNumber ev)) as [ts|e]; [|done].
    destruct (insertTransfer (rowOf ev ts) l) as [isNew l1] eqn:Ei.
    unfold mbind in Hp. destruct (persistTransfers blocks events l1) as [[ins|e] l2] eqn:E1; [|done]. injection Hp as _ <-.
    destruct (IH _ _ _ E1) as [Hkeep Hin].
    assert (forall k, k = eventKey ev \/ In k (map transferKey (transfers l)) -> In k (map transferKey (transfers l1))) as H1.
    { unfold insertTransfer in Ei. change (transferKey (rowOf ev ts)) with (eventKey ev) in Ei.
      case_bool_decide as Hk; injection Ei as _ <-; simpl; intros k Hor.
      - destruct Hor as [->|]; [by apply list_elem_of_In|done].
      - rewrite map_app, in_app_iff. destruct Hor as [->|]; [right; by left|by left]. }
    split; [auto|]. intros e [<-|He]; auto.
Qed.

(** What a range leaves in the table of transfers: every event of it under its key, and
    beside the rows of before only rows of its events. *)
Lemma persistLedger_stored collections blocks events cols l l' :
  persistLedger collections blocks events cols l = Ok l' ->
  (forall ev, In ev events -> In (eventKey ev) (map transferKey (transfers l')))
  /\ exists rows, transfers l' = transfers l ++ rows /\ forall r, In r rows -> exists ev, In ev events /\ rowFor ev r.
Proof.
  unfold persistLedger. destruct (persistTransfers blocks events l) as [[inserted|e] l1] eqn:E; [|done].
  intros [Ht _]%applyUpdates_tables. rewrite Ht. destruct (persistTransfers_stored _ _ _ _ _ E) as [_ Hin].
  destruct (persistTransfers_spec _ _ _ _ _ E) as (_ & _ & _ & H). destruct (H inserted eq_refl) as (rows & Hr & HF & Hsub).
  split; [done|]. exists rows. split; [done|]. intros r [i Hi]%list_elem_of_In%list_elem_of_lookup.
  destruct (Forall2_lookup_r _ _ _ _ _ HF Hi) as (ev & Hev & Hfor). exists ev. split; [|done].
  apply Hsub, list_elem_of_In. by eapply list_elem_of_lookup_2.
Qed.

(** ** The newest transfer of a token *)

#[export] Instance TransferRow_eq : EqDecision TransferRow.
Proof. solve_decision. Defined.

Lemma newer_false a b : newer a b = false <->
  t_blockNumber a < t_blockNumber b \/ t_blockNumber a = t_blockNumber b /\ t_logIndex a <= t_logIndex b.
Proof.
  unfold newer. rewrite orb_false_iff, andb_false_iff, !Z.ltb_ge, Z.eqb_neq. lia.
Qed.

Lemma newest_app rows r : newest (rows ++ [r]) = match newest rows with
                                                 | None => Some r
                                                 | Some b => if newer r b then Some r else Some b
                                                 end.
Proof. unfold newest. by rewrite fold_left_app. Qed.

Lemma newest_spec rows b : newest rows = Some b -> In b rows /\ forall r, In r rows -> newer r b = false.
Proof.
  revert b. induction rows as [|r rows IH] using rev_ind; intros b; [done|]. rewrite newest_app.
  destruct (newest rows) as [b'|] eqn:E.
  - destruct (IH _ eq_refl) as [Hin Hmax]. destruct (newer r b') eqn:En; intros [= <-]; split;
      rewrite ?in_app_iff; simpl; auto; intros r' [Hr'|[<-|[]]]%in_app_iff; auto.
    + apply Hmax in Hr'. apply newer_false in Hr'. apply newer_false.
      unfold newer in En. apply orb_true_iff in En. rewrite andb_true_iff, !Z.ltb_lt, Z.eqb_eq in En. lia.
    + apply newer_false. lia.
  - intros [= <-]. rewrite in_app_iff. split; [simpl; auto|].
    assert (rows = []) as ->.
    { destruct rows as [|x rows] using rev_ind; [done|]. rewrite newest_app in E. by repeat case_match. }
    intros r' [<-|[]]. apply newer_false. lia.
Qed.

Lemma newest_extend rows more b :
  newest rows = Some b -> (forall r, In r more -> newer r b = false) -> newest (rows ++ more) = Some b.
Proof.
  intros Hb Hm. induction more as [|r more IH] using rev_ind; [by rewrite app_nil_r|].
  rewrite app_assoc, newest_app, IH by (intros x Hx; apply Hm, in_app_iff; auto).
  rewrite Hm; [done|]. apply in_app_iff. right. by left.
Qed.

Lemma newest_some rows r : In r rows -> exists b, newest rows = Some b.
Proof.
  destruct rows as [|x rows] using rev_ind; [done|]. intros _. rewrite newest_app. repeat case_match; eauto.
Qed.

(** A transfer newer than all others of its token is the one selected. *)
Lemma newest_unique rows r :
  In r rows -> (forall r', In r' rows -> r' <> r -> newer r r' = true) -> newest rows = Some r.
Proof.
  intros Hin Hmax. destruct (newest_some _ _ Hin) as [b Hb].
  destruct (newest_spec _ _ Hb) as [Hbin Hbmax]. rewrite Hb. f_equal.
  destruct (newer r b) eqn:E; [by rewrite Hbmax in E|].
  destruct (decide (t_blockNumber b = t_blockNumber r /\ t_logIndex b = t_logIndex r)) as [Heq|Hne].
  - destruct (decide (b = r)) as [|Hn]; [done|]. by rewrite Hmax in E.
  - apply newer_false in E. pose proof (Hbmax _ Hin) as Hr. apply newer_false in Hr.
    exfalso. apply Hne. destruct (decide (b = r)) as [->|Hn]; [done|].
    pose proof (Hmax _ Hbin Hn) as Hc. unfold newer in Hc. apply orb_true_iff in Hc.
    rewrite andb_true_iff, !Z.ltb_lt, Z.eqb_eq in Hc. lia.
Qed.

End LedgerProof.

(** * The ledger: the tokens and the effect of a rollback

    The checks of a rollback compare token scopes by text; [tokenKey_inj] and
    [assertSame_keys] show what they establish.  The rest follows one rollback
    through its three loops. *)

Import LedgerProof.

Module LedgerRollback.

(** ** Keys of tokens *)

Fixpoint noColon (s : string) : bool :=
  match s with EmptyString => true | String c s => negb (bool_decide (c = ":"%char)) && noColon s end.

Lemma noColon_uint d : noColon (NilEmpty.string_of_uint d) = true.
Proof. induction d; simpl; rewrite ?IHd; reflexivity. Qed.

Lemma noColon_Z z : noColon (Z_toString z) = true.
Proof. unfold Z_toString, N_toString. destruct (z <? 0); simpl; apply noColon_uint. Qed.

Lemma colon_split a b x y :
  noColon a = true -> noColon b = true -> (a ++ ":" ++ x)%string = (b ++ ":" ++ y)%string -> a = b /\ x = y.
Proof.
  revert b. induction a as [|c a IH]; intros [|d b]; simpl; intros Ha Hb E.
  - injection E as E. split; [done|exact E].
  - injection E as <- _. simpl in Hb. done.
  - injection E as -> _. simpl in Ha. done.
  - apply andb_true_iff in Ha as [_ Ha], Hb as [_ Hb]. injection E as -> E.
    destruct (IH b Ha Hb E) as [-> ->]. done.
Qed.

Lemma parseDigits_minus s : parseDigits (append "-" s) = None.
Proof.
  change (append "-" s) with (String "-" s). unfold parseDigits. simpl.
  by destruct (NilEmpty.uint_of_string s).
Qed.

Lemma Z_toString_inj a b : Z_toString a = Z_toString b -> a = b.
Proof.
  intros E. destruct (Z.ltb_spec a 0) as [Ha|Ha], (Z.ltb_spec b 0) as [Hb|Hb].
  - unfold Z_toString in E. apply Z.ltb_lt in Ha as Ha', Hb as Hb'. rewrite Ha', Hb' in E.
    injection E as E. assert (N_toString (Z.to_N (- a)) = N_toString (Z.to_N (- b))) as E' by exact E.
    clear E. rename E' into E. apply (f_equal parseDigits) in E. rewrite !parse_N_toString in E.
    injection E as E. lia.
  - exfalso. pose proof (parse_Z_toString b Hb) as Hp. rewrite <- E in Hp.
    unfold Z_toString in Hp. apply Z.ltb_lt in Ha as Ha'. by rewrite Ha', parseDigits_minus in Hp.
  - exfalso. pose proof (parse_Z_toString a Ha) as Hp. rewrite E in Hp.
    unfold Z_toString in Hp. apply Z.ltb_lt in Hb as Hb'. by rewrite Hb', parseDigits_minus in Hp.
  - by apply Z_toString_nonneg_inj.
Qed.

Lemma tokenKey_inj a b : tokenKey a = tokenKey b ->
  tok_collectionId a = tok_collectionId b /\ tok_tokenId a = tok_tokenId b.
Proof.
  unfold tokenKey. intros E. destruct (colon_split _ _ _ _ (noColon_Z _) (noColon_Z _) E) as [Ec Et].
  split; [by apply Z_toString_inj|done].
Qed.

(** ** The comparison of scopes *)

Lemma sameTokens_keys m actual :
  jm_wf m -> sameTokens m actual = Ok tt -> length actual = length m ->
  forall k, In k (jm_keys m) <-> In k (map tokenKey actual).
Proof.
  revert m. induction actual as [|t actual IH]; intros m Hwf Hs Hl k; simpl in *.
  - destruct m; [done|simpl in Hl; lia].
  - case_bool_decide as Hg; [|done].
    specialize (IH (jm_del (tokenKey t) m) (jm_wf_del _ _ Hwf) Hs).
    rewrite jm_length_del, Hg in IH by done. rewrite <- IH by lia.
    rewrite jm_keys_del, <- !list_elem_of_In, list_elem_of_filter, !list_elem_of_In.
    apply jm_get_Some_key in Hg. destruct (decide (tokenKey t = k)) as [<-|Hne]; intuition congruence.
Qed.

Lemma expected_keys expected m k :
  In k (jm_keys (fold_left (fun m t => jm_set (tokenKey t) (toLowerCase (tok_contract t)) m) expected m))
  <-> In k (jm_keys m) \/ In k (map tokenKey expected).
Proof.
  revert m. induction expected as [|t expected IH]; intros m; simpl; [tauto|].
  rewrite IH, jm_keys_set. destruct (jm_get (tokenKey t) m) eqn:E.
  - apply jm_get_Some_key in E. intuition congruence.
  - rewrite in_app_iff. simpl. intuition.
Qed.

Lemma expected_wf expected m :
  jm_wf m -> jm_wf (fold_left (fun m t => jm_set (tokenKey t) (toLowerCase (tok_contract t)) m) expected m).
Proof. revert m. induction expected as [|t expected IH]; intros m Hwf; simpl; auto using jm_wf_set. Qed.

(** Scopes that pass name the same tokens. *)
Lemma assertSame_keys expected actual :
  assertSameErc721Tokens expected actual = Ok tt ->
  forall k, In k (map tokenKey expected) <-> In k (map tokenKey actual).
Proof.
  unfold assertSameErc721Tokens. destruct (_ && _) eqn:E; [|done]. intros Hs k.
  apply andb_true_iff in E as [_ El]. apply Nat.eqb_eq in El.
  rewrite <- (sameTokens_keys _ _ (expected_wf _ _ jm_wf_nil) Hs El k), expected_keys. simpl. tauto.
Qed.

Section Rollback.
Context (collections : gmap Z CollectionRecord).

(** ** The tokens selected *)

Lemma selectRollbackTokens_spec from l tok :
  In tok (selectRollbackTokens collections from l) ->
  exists col, collections !! tok_collectionId tok = Some col /\ col_standard col = Erc721
              /\ In (tok_collectionId tok, tok_tokenId tok) (rollbackTokenKeys from l).
Proof.
  unfold selectRollbackTokens. rewrite <- list_elem_of_In, list_elem_of_omap.
  intros ([c t] & Hin & Ht). apply orderBy_elem_of in Hin. rewrite elem_of_remove_dups in Hin.
  destruct (collections !! c) as [col|] eqn:Ec; [|done].
  destruct (_ && _) eqn:Es; [|done]. injection Ht as <-. simpl. exists col.
  apply andb_true_iff in Es as [Es%bool_decide_eq_true _]. split_and!; [done..|]. by apply list_elem_of_In.
Qed.

Lemma selectRollbackTokens_all from l c t col :
  collections !! c = Some col -> col_standard col = Erc721 -> col_bootstrapAnchorBlock col <> None ->
  In (c, t) (rollbackTokenKeys from l) ->
  In (tokenKey {| tok_collectionId := c; tok_contract := col_address col; tok_tokenId := t |})
    (map tokenKey (selectRollbackTokens collections from l)).
Proof.
  intros Hc Hs Ha Hin. apply in_map. unfold selectRollbackTokens.
  apply list_elem_of_In, list_elem_of_omap. exists (c, t). split.
  - apply orderBy_elem_of. rewrite elem_of_remove_dups. by apply list_elem_of_In.
  - rewrite Hc, Hs. destruct (col_bootstrapAnchorBlock col) eqn:E; [|done]. by rewrite bool_decide_true.
Qed.

(** ** The owners restored *)

Lemma restoreOwners_transfers block owners l l' :
  restoreOwners collections block owners l = Ok l' -> transfers l' = transfers l.
Proof.
  revert l. induction owners as [|[tok ans] owners IH]; simpl; intros l H; [by simplify_eq|].
  inv_try. rewrite (IH _ H). unfold restoreOwner in Ha. inv_try. simplify_eq.
  rewrite (proj1 (replaceErc721Ownership_transfers _ _ _ _ _ _)).
  unfold upsertOwnershipCheckpoint. by destruct (collections !! _).
Qed.

(** A token that is not restored keeps its accounts and its checkpoint. *)
Lemma restoreOwners_other block owners l l' c t :
  restoreOwners collections block owners l = Ok l' ->
  (forall tok, In tok (map fst owners) -> (tok_collectionId tok, tok_tokenId tok) <> (c, t)) ->
  (forall o, balances l' !! (c, t, o) = balances l !! (c, t, o)) /\ checkpoints l' !! (c, t) = checkpoints l !! (c, t).
Proof.
  revert l. induction owners as [|[tok ans] owners IH]; simpl; intros l H Hne; [by simplify_eq|].
  inv_try. destruct (IH _ H) as [Hb Hc]; [auto|]. unfold restoreOwner in Ha. inv_try. simplify_eq.
  assert ((tok_collectionId tok, tok_tokenId tok) <> (c, t)) as Hn by (apply Hne; by left).
  split.
  - intros o. rewrite Hb, replaceErc721Ownership_other by done.
    unfold upsertOwnershipCheckpoint. by destruct (collections !! _).
  - rewrite Hc, (proj2 (replaceErc721Ownership_transfers _ _ _ _ _ _)).
    unfold upsertOwnershipCheckpoint. destruct (collections !! _); [|done]. simpl. by rewrite lookup_insert_ne.
Qed.

(** What a restored token has: a checkpoint at the fork, and its owner. *)
Definition Restored (block : SyncBlockHeader) (col : CollectionRecord) (c : Z) (t : string) (l : Ledger) : Prop :=
  exists p, checkpoints l !! (c, t) = Some p /\ oc_blockNumber p = h_number block
            /\ oc_bootstrapAnchorBlock p = col_bootstrapAnchorBlock col
            /\ forall o, balanceOf l (c, t, o) = if bool_decide (oc_owner p = Some o) then 1 else 0.

Lemma restoreOwner_same block tok ans l l' col :
  collections !! tok_collectionId tok = Some col -> restoreOwner collections block tok ans l = Ok l' ->
  Restored block col (tok_collectionId tok) (tok_tokenId tok) l'.
Proof.
  intros Hc H. unfold restoreOwner in H. inv_try. simplify_eq.
  unfold upsertOwnershipCheckpoint. rewrite Hc. eexists. split_and!.
  - rewrite (proj2 (replaceErc721Ownership_transfers _ _ _ _ _ _)). simpl. apply lookup_insert_eq.
  - done.
  - done.
  - intros o. apply replaceErc721Ownership_same.
Qed.

Lemma restoreOwners_same block owners l l' col c t :
  collections !! c = Some col -> restoreOwners collections block owners l = Ok l' ->
  Restored block col c t l \/ (exists tok, In tok (map fst owners) /\ (tok_collectionId tok, tok_tokenId tok) = (c, t)) ->
  Restored block col c t l'.
Proof.
  intros Hc. revert l. induction owners as [|[tok ans] owners IH]; simpl; intros l H Ho.
  - simplify_eq. by destruct Ho as [?|(? & [] & _)].
  - inv_try. apply (IH a); [done|].
    destruct (decide ((tok_collectionId tok, tok_tokenId tok) = (c, t))) as [Heq|Hne].
    + left. injection Heq as Ec Et. subst. by eapply restoreOwner_same.
    + destruct Ho as [(p & Hp & Hn & Han & Hb)|(tok' & [<-|Hin] & Heq)]; [|done|right; eauto].
      left. assert (restoreOwners collections block [(tok, ans)] l = Ok a) as H1 by (simpl; by rewrite Ha).
      destruct (restoreOwners_other _ _ _ _ c t H1) as [Hb' Hc'].
      { intros tok' [<-|[]]. done. }
      exists p. rewrite Hc'. split_and!; [done..|]. intros o. unfold balanceOf. rewrite Hb'. apply Hb.
Qed.

(** ** A whole rollback, loop by loop *)

Lemma rollbackLedger_inv from tokens snapshot l l' :
  NoDup (map transferKey (transfers l)) ->
  rollbackLedger collections from tokens snapshot l = Ok l' ->
  exists l2, restoreOwners collections (sn_block snapshot) (sn_owners snapshot)
               (rollbackEvents (rolledBack from (transfers l)) l) = Ok l2
    /\ l' = setTransfers l2 (List.filter (fun r => t_blockNumber r <? from) (transfers l))
    /\ forall k, In k (map tokenKey (map fst (sn_owners snapshot)))
                 <-> In k (map tokenKey (selectRollbackTokens collections from l)).
Proof.
  intros Hnd H. unfold rollbackLedger in H. rewrite rollbackPages_total in H by done.
  inv_try. destruct a, a0. eexists. split_and!; [done| |].
  - simplify_eq. by rewrite (restoreOwners_transfers _ _ _ _ Ha1), rollbackEvents_transfers.
  - intros k. by rewrite <- (assertSame_keys _ _ Ha0), <- (assertSame_keys _ _ Ha).
Qed.

Lemma owners_of_erc721 from snapshot l tok :
  (forall k, In k (map tokenKey (map fst (sn_owners snapshot)))
             <-> In k (map tokenKey (selectRollbackTokens collections from l))) ->
  In tok (map fst (sn_owners snapshot)) ->
  exists col, collections !! tok_collectionId tok = Some col /\ col_standard col = Erc721.
Proof.
  intros Hk Hin. apply (in_map tokenKey) in Hin. apply Hk, in_map_iff in Hin as (tok' & E & Hin).
  apply tokenKey_inj in E as [Ec _]. apply selectRollbackTokens_spec in Hin as (col & Hc & Hs & _).
  exists col. by rewrite <- Ec.
Qed.

End Rollback.

End LedgerRollback.
