(* ===== verification/LedgerClaims.v ===== *)
(** * The ledger: its theorems

    A ledger changes by persisting ranges and by rollbacks, in any order.  The
    amounts of ERC1155 accounts are the sums of the stored transfers above the
    anchor, so a rollback leaves what the remaining blocks alone would have given;
    the owner of an ERC721 token is the one its newest stored fact gives, however
    late older ranges arrive. *)

From S2P Require Import Prelude JsValue OrderBy Chain Ledger LedgerProof.
From stdpp Require Import relations.
From Stdlib Require Import Permutation.
Import Chain Ledger LedgerProof LedgerRollback.

Open Scope Z_scope.

Module LedgerClaims.

Section Claims.
Context (collections : gmap Z CollectionRecord).

(** The events of a range belong to the collections it was acquired for, and are
    of their standard. *)
Definition scoped (cols : list CollectionRecord) (events : list NftTransferEvent) : Prop :=
  forall ev, In ev events -> exists col,
    collections !! ev_collectionId ev = Some col
    /\ jm_get (ev_collectionId ev) (fold_left (fun m c => jm_set (col_id c) c m) cols []) = Some col
    /\ ev_kind ev = col_standard col.

(** What [rollbackFromBlock] checks before it calls on the ledger. *)
Definition rollbackAllowed (from : Z) (snapshot : Erc721RollbackSnapshot) : Prop :=
  h_number (sn_block snapshot) = from - 1 /\
  forall c col, collections !! c = Some col -> canRollbackFromBlock (col_bootstrapAnchorBlock col) from = true.

Inductive ledgerStep : Ledger -> Ledger -> Prop :=
  | step_persist blocks events cols l l' :
      scoped cols events -> persistLedger collections blocks events cols l = Ok l' -> ledgerStep l l'
  | step_rollback from tokens snapshot l l' :
      rollbackAllowed from snapshot -> rollbackLedger collections from tokens snapshot l = Ok l' ->
      ledgerStep l l'.

(** The stored transfers are distinct and of the standard of their collection. *)
Definition RowsOk (l : Ledger) : Prop :=
  NoDup (map transferKey (transfers l)) /\
  forall r, In r (transfers l) -> exists col,
    collections !! t_collectionId r = Some col /\ t_kind r = col_standard col.

Definition projected (anchor : Z) (r : TransferRow) : bool := anchor <? t_blockNumber r.

Definition AmountsOk (l0 l : Ledger) : Prop :=
  forall c col a t o, collections !! c = Some col -> col_standard col = Erc1155 ->
    col_bootstrapAnchorBlock col = Some a ->
    balanceOf l (c, t, o)
    = balanceOf l0 (c, t, o) + sumOver (rowDelta (c, t, o)) (List.filter (projected a) (transfers l)).

Definition OwnersOk (l : Ledger) : Prop :=
  forall c col a t r, collections !! c = Some col -> col_standard col = Erc721 ->
    col_bootstrapAnchorBlock col = Some a ->
    In r (transfers l) -> t_collectionId r = c -> t_tokenId r = t -> a < t_blockNumber r ->
    Owned collections c t l.

(** ** Persisting keeps them *)

Section Persist.
Context (blocks : list SyncBlockHeader) (events : list NftTransferEvent) (cols : list CollectionRecord).
Context (l l1 l' : Ledger) (inserted : list NftTransferEvent) (rows : list TransferRow).
Context (Hsc : scoped cols events).
Context (Hrows : transfers l1 = transfers l ++ rows) (HF : Forall2 rowFor inserted rows).
Context (Hsub : forall ev, In ev inserted -> In ev events).
Context (Hbal : balances l1 = balances l) (Hchk : checkpoints l1 = checkpoints l).
Context (Hnd : NoDup (map transferKey (transfers l1))).
Context (Happ : applyBalanceUpdatesFromEvents collections blocks (List.filter (projectsNow cols) inserted) l1 = Ok l').

Lemma row_event r : In r rows -> exists ev, In ev inserted /\ rowFor ev r.
Proof.
  clear -HF. induction HF as [|ev r' ins rows' Hf HF' IH]; [done|].
  intros [<-|Hin]; [exists ev; simpl; auto|]. destruct (IH HF' Hin) as (e & He & Hr). exists e. simpl. auto.
Qed.

Lemma event_kind c col ev : In ev (List.filter (projectsNow cols) inserted) ->
  collections !! c = Some col -> ev_collectionId ev = c -> ev_kind ev = col_standard col.
Proof.
  intros [Hin _]%filter_In Hc <-. destruct (Hsc ev (Hsub _ Hin)) as (col' & Hc' & _ & Hk). congruence.
Qed.

Lemma event_projected c col a ev : In ev inserted -> collections !! c = Some col -> ev_collectionId ev = c ->
  col_bootstrapAnchorBlock col = Some a -> projectsNow cols ev = (a <? ev_blockNumber ev).
Proof.
  intros Hin Hc <- Ha. destruct (Hsc ev (Hsub _ Hin)) as (col' & Hc' & Hm & _).
  assert (col' = col) as -> by congruence. unfold projectsNow. by rewrite Hm, Ha.
Qed.

Lemma persist_transfers : transfers l' = transfers l ++ rows.
Proof. rewrite <- Hrows. by destruct (applyUpdates_tables _ _ _ _ _ Happ). Qed.

Lemma persist_rows : RowsOk l -> RowsOk l'.
Proof.
  intros [_ Hk]. destruct (applyUpdates_tables _ _ _ _ _ Happ) as [Ht _]. split; [by rewrite Ht|].
  rewrite persist_transfers. intros r [Hr|Hr]%in_app_iff; [auto|].
  destruct (row_event _ Hr) as (ev & Hin & ts & ->). destruct (Hsc ev (Hsub _ Hin)) as (col & Hc & _ & Hkd).
  by exists col.
Qed.

(** The events projected and the rows stored above the anchor add the same. *)
Lemma projected_sum c col a t o :
  collections !! c = Some col -> col_bootstrapAnchorBlock col = Some a ->
  sumOver (evDelta (c, t, o)) (List.filter (projectsNow cols) inserted)
  = sumOver (rowDelta (c, t, o)) (List.filter (projected a) rows).
Proof.
  intros Hc Ha. clear Hrows Happ Hnd.
  assert (forall ev, In ev inserted -> ev_collectionId ev = c -> projectsNow cols ev = (a <? ev_blockNumber ev)) as Hp.
  { intros ev Hin E. by apply (event_projected c col). }
  clear Hsub. induction HF as [|ev r ins rows' Hf HF' IH]; [done|].
  specialize (IH HF' (fun e He => Hp e (or_intror He))).
  destruct Hf as [ts ->]. simpl. unfold projected at 1. simpl.
  destruct (decide (ev_collectionId ev = c)) as [E|E].
  - rewrite (Hp ev (or_introl eq_refl) E). destruct (a <? ev_blockNumber ev); simpl; [|exact IH].
    rewrite IH. unfold evDelta, rowDelta. simpl. by rewrite !toLowerCase_idemp.
  - assert (forall k, evDelta (c, t, o) ev = 0 /\ rowDelta (c, t, o) (rowOf ev k) = 0) as H0.
    { intros k. unfold evDelta, rowDelta. simpl. by rewrite !accountDelta_other. }
    destruct (H0 ts) as [H1 H2]. destruct (projectsNow cols ev), (a <? ev_blockNumber ev); simpl; lia.
Qed.

Lemma persist_amounts l0 : AmountsOk l0 l -> AmountsOk l0 l'.
Proof.
  intros HA c col a t o Hc Hs Ha. rewrite persist_transfers, List.filter_app, sumOver_app.
  rewrite (applyUpdates_amounts collections blocks c t o _ _ _) by
    first [exact Happ | intros ev Hin E; rewrite (event_kind c col ev); done].
  unfold balanceOf at 1. rewrite Hbal. fold (balanceOf l (c, t, o)).
  rewrite (HA c col a) by done. rewrite (projected_sum c col a) by done. lia.
Qed.

Lemma persist_owners : OwnersOk l -> OwnersOk l'.
Proof.
  intros HO c col a t r Hc Hs Ha Hr Hrc Hrt Hb.
  apply (applyUpdates_owner collections blocks c t (List.filter (projectsNow cols) inserted) l1); [|done|].
  { intros ev Hin E. by rewrite (event_kind c col ev). }
  destruct (existsb (fun ev => (ev_collectionId ev =? c) && bool_decide (ev_tokenId ev = t))
              (List.filter (projectsNow cols) inserted)) eqn:Eex.
  - right. apply existsb_exists in Eex as (ev & Hin & E). apply andb_true_iff in E as [E1 E2].
    apply Z.eqb_eq in E1. apply bool_decide_eq_true in E2. eauto.
  - left. assert (forall r', In r' rows -> ofToken c t r' = true -> t_blockNumber r' <= a) as Hold.
    { intros r' Hr' Hof. destruct (row_event _ Hr') as (ev & Hin & ts & ->).
      unfold ofToken in Hof. simpl in Hof. apply andb_true_iff in Hof as [E1 E2].
      apply Z.eqb_eq in E1. apply bool_decide_eq_true in E2. simpl.
      destruct (Z.leb_spec (ev_blockNumber ev) a) as [|Hgt]; [done|exfalso].
      apply not_true_iff_false in Eex. apply Eex. apply existsb_exists. exists ev. split.
      - apply filter_In. split; [done|]. rewrite (event_projected c col a) by done. by apply Z.ltb_lt.
      - by rewrite E1, Z.eqb_refl, bool_decide_true. }
    rewrite persist_transfers in Hr. apply in_app_iff in Hr as [Hr|Hr].
    2:{ exfalso. assert (t_blockNumber r <= a); [|lia]. apply Hold; [done|].
        unfold ofToken. by rewrite Hrc, Hrt, Z.eqb_refl, bool_decide_true. }
    destruct (HO c col a t r Hc Hs Ha Hr Hrc Hrt Hb) as (st & Hst & Hbo).
    exists st. split; [|intros o; unfold balanceOf; rewrite Hbal; apply Hbo].
    rewrite <- Hst. unfold projectedOwnership, selectOwnershipCheckpoint. rewrite Hchk. do 2 f_equal.
    unfold selectLatestTransfer. rewrite Hrows, List.filter_app.
    assert (In r (List.filter (ofToken c t) (transfers l))) as Hin.
    { apply filter_In. split; [done|]. unfold ofToken. by rewrite Hrc, Hrt, Z.eqb_refl, bool_decide_true. }
    destruct (newest_some _ _ Hin) as [b Hnew]. rewrite Hnew. apply newest_extend; [done|].
    intros r' [Hr' Hof]%filter_In. apply newer_false. left.
    destruct (newest_spec _ _ Hnew) as [_ Hmax]. specialize (Hmax _ Hin). apply newer_false in Hmax.
    specialize (Hold r' Hr' Hof). lia.
Qed.

End Persist.

(** ** Rolling back keeps them *)

Section Rollback.
Context (from : Z) (tokens : list Erc721TokenReference) (snapshot : Erc721RollbackSnapshot) (l l' l2 : Ledger).
Context (Hallow : rollbackAllowed from snapshot).
Context (HR : RowsOk l).
Context (Hres : restoreOwners collections (sn_block snapshot) (sn_owners snapshot)
                  (rollbackEvents (rolledBack from (transfers l)) l) = Ok l2).
Context (Hl' : l' = setTransfers l2 (List.filter (fun r => t_blockNumber r <? from) (transfers l))).
Context (Hkeys : forall k, In k (map tokenKey (map fst (sn_owners snapshot)))
                           <-> In k (map tokenKey (selectRollbackTokens collections from l))).

Lemma rollback_rows : RowsOk l'.
Proof.
  destruct HR as [Hnd Hk]. subst l'. split; simpl.
  - clear -Hnd. induction (transfers l) as [|r rows IH]; [done|]. simpl in *.
    apply NoDup_cons in Hnd as [Hr Hnd]. destruct (t_blockNumber r <? from); [|auto].
    simpl. constructor; [|auto]. intros Hin. apply Hr.
    apply list_elem_of_In in Hin. apply list_elem_of_In.
    apply in_map_iff in Hin as (r' & E & Hin'). apply filter_In in Hin' as [Hin' _].
    apply in_map_iff. eauto.
  - intros r [Hr _]%filter_In. auto.
Qed.

Lemma rolledBack_In r : In r (rolledBack from (transfers l)) <-> In r (transfers l) /\ from <= t_blockNumber r.
Proof.
  rewrite <- list_elem_of_In, rolledBack_perm, list_elem_of_In, filter_In, Z.leb_le. done.
Qed.

(** What the second loop takes from an account: the transfers rolled back, when
    the transfers of the collection are ERC1155 transfers, and nothing otherwise. *)
Lemma rolledBack_sum c col t o : collections !! c = Some col ->
  sumOver (fun r => if bool_decide (t_kind r = Erc1155) then rowDelta (c, t, o) r else 0) (rolledBack from (transfers l))
  = if bool_decide (col_standard col = Erc1155)
    then sumOver (rowDelta (c, t, o)) (List.filter (fun r => from <=? t_blockNumber r) (transfers l))
    else 0.
Proof.
  intros Hc. assert (forall r, In r (rolledBack from (transfers l)) -> t_collectionId r = c -> t_kind r = col_standard col) as Hk.
  { intros r [Hr _]%rolledBack_In E. destruct (proj2 HR r Hr) as (col' & Hc' & Hkd). congruence. }
  case_bool_decide as Hs.
  - rewrite <- (sumOver_perm _ _ _ (rolledBack_perm from (transfers l))). apply sumOver_ext. intros r Hr.
    destruct (decide (t_collectionId r = c)) as [E|E]; [by rewrite (Hk r Hr E), Hs, bool_decide_true|].
    unfold rowDelta. rewrite accountDelta_other by done. by case_bool_decide.
  - apply sumOver_zero. intros r Hr.
    destruct (decide (t_collectionId r = c)) as [E|E]; [by rewrite (Hk r Hr E), bool_decide_false|].
    unfold rowDelta. rewrite accountDelta_other by done. by case_bool_decide.
Qed.

Lemma restored_other_collection c col : collections !! c = Some col -> col_standard col <> Erc721 ->
  forall tok t, In tok (map fst (sn_owners snapshot)) -> (tok_collectionId tok, tok_tokenId tok) <> (c, t).
Proof.
  intros Hc Hs tok t Hin E. injection E as E1 _.
  destruct (owners_of_erc721 _ _ _ _ _ Hkeys Hin) as (col' & Hc' & Hs'). congruence.
Qed.

Lemma rollback_amounts l0 : AmountsOk l0 l -> AmountsOk l0 l'.
Proof.
  intros HA c col a t o Hc Hs Ha.
  assert (a < from) as Hlt.
  { destruct Hallow as [_ Hall]. specialize (Hall c col Hc). rewrite Ha in Hall. simpl in Hall. by apply Z.ltb_lt. }
  destruct (restoreOwners_other _ _ _ _ _ c t Hres) as [Hb _].
  { intros tok Hin. apply (restored_other_collection c col); [done|by rewrite Hs|done]. }
  subst l'. unfold balanceOf at 1. simpl. rewrite Hb.
  fold (balanceOf (rollbackEvents (rolledBack from (transfers l)) l) (c, t, o)).
  rewrite balanceOf_rollbackEvents, (rolledBack_sum c col), Hs, bool_decide_true by done.
  rewrite (HA c col a) by done.
  rewrite (sumOver_split (rowDelta (c, t, o)) (projected a) (fun r => from <=? t_blockNumber r) (transfers l)).
  rewrite (lfilter_lfilter (projected a) (fun r => from <=? t_blockNumber r)).
  rewrite (lfilter_ext_In (fun x => (from <=? t_blockNumber x) && projected a x) (fun x => from <=? t_blockNumber x)).
  2:{ intros r _. unfold projected. destruct (Z.leb_spec from (t_blockNumber r)); [|done]. simpl. apply Z.ltb_lt. lia. }
  rewrite (lfilter_ext_In (fun x => negb (from <=? t_blockNumber x)) (fun x => t_blockNumber x <? from));
    [lia|]. intros r _. by rewrite Z.leb_antisym, negb_involutive.
Qed.

Lemma rollback_owners : OwnersOk l -> OwnersOk l'.
Proof.
  intros HO c col a t r Hc Hs Ha Hr Hrc Hrt Hb. rewrite Hl' in Hr. simpl in Hr.
  apply filter_In in Hr as [Hr Hrf]. apply Z.ltb_lt in Hrf.
  destruct (decide ((c, t) ∈ rollbackTokenKeys from l)) as [Hin|Hnin]; rewrite list_elem_of_In in *.
  - (* restored *)
    destruct (restoreOwners_same collections (sn_block snapshot) (sn_owners snapshot) _ l2 col c t Hc Hres)
      as (p & Hp & Hpn & Hpa & Hpb).
    { right. apply (selectRollbackTokens_all collections from l c t col) in Hin; [|done..|by rewrite Ha].
      apply Hkeys, in_map_iff in Hin as (tok & E & Htok). exists tok. split; [done|].
      apply tokenKey_inj in E as [E1 E2]. simpl in *. congruence. }
    exists (stateOfCheckpoint p). split; [|intros o; subst l'; apply Hpb].
    unfold projectedOwnership, selectOwnershipCheckpoint. subst l'. simpl. rewrite Hp, Hc, bool_decide_true by done.
    simpl. destruct (selectLatestTransfer c t _) as [b|] eqn:Eb; simpl; [|done].
    rewrite (proj2 (Z.leb_le _ _)); [done|].
    apply newest_spec in Eb as [Eb _]. apply filter_In in Eb as [Eb _]. simpl in Eb.
    apply filter_In in Eb as [_ Eb]. apply Z.ltb_lt in Eb. destruct Hallow as [Hh _]. lia.
  - (* untouched *)
    destruct (HO c col a t r Hc Hs Ha Hr Hrc Hrt Hb) as (st & Hst & Hbo).
    destruct (restoreOwners_other _ _ _ _ _ c t Hres) as [Hb2 Hc2].
    { intros tok Htok [= E1 E2]. apply Hnin. apply (in_map tokenKey) in Htok. apply Hkeys in Htok.
      apply in_map_iff in Htok as (tok' & E & Htok'). apply tokenKey_inj in E as [E3 E4].
      apply selectRollbackTokens_spec in Htok' as (_ & _ & _ & Hk). congruence. }
    exists st. split.
    + rewrite <- Hst. unfold projectedOwnership, selectOwnershipCheckpoint. subst l'. simpl.
      rewrite Hc2, rollbackEvents_checkpoints. do 2 f_equal.
      unfold selectLatestTransfer. simpl. f_equal. rewrite lfilter_lfilter. apply lfilter_ext_In.
      intros r' Hr'. destruct (ofToken c t r') eqn:Eof; [|by rewrite andb_false_r]. rewrite andb_true_r.
      apply Z.ltb_lt. destruct (Z.ltb_spec (t_blockNumber r') from) as [|Hge]; [done|].
      exfalso. apply Hnin. unfold rollbackTokenKeys. apply in_app_iff. left.
      unfold ofToken in Eof. apply andb_true_iff in Eof as [E1 E2]. apply Z.eqb_eq in E1.
      apply bool_decide_eq_true in E2. rewrite <- E1, <- E2.
      apply (in_map (fun r => (t_collectionId r, t_tokenId r))). apply filter_In. split; [done|].
      rewrite (proj2 (Z.leb_le _ _)) by lia. simpl. apply bool_decide_eq_true.
      destruct (proj2 HR r' Hr') as (col' & Hc' & Hk'). congruence.
    + intros o. rewrite <- Hbo. unfold balanceOf at 1. subst l'. simpl. rewrite Hb2.
      fold (balanceOf (rollbackEvents (rolledBack from (transfers l)) l) (c, t, o)).
      rewrite balanceOf_rollbackEvents, (rolledBack_sum c col), bool_decide_false by (done || by rewrite Hs). lia.
Qed.

End Rollback.

(** ** In every reachable ledger *)

Definition LedgerOk (l0 l : Ledger) : Prop := RowsOk l /\ AmountsOk l0 l /\ OwnersOk l.

Lemma ledgerStep_ok l0 l l' : ledgerStep l l' -> LedgerOk l0 l -> LedgerOk l0 l'.
Proof.
  intros [blocks events cols l1 l2 Hsc Hp|from tokens snapshot l1 l2 Hal Hr] (HR & HA & HO).
  - unfold persistLedger in Hp. destruct (persistTransfers blocks events l1) as [[ins|e] l3] eqn:E; [|done].
    destruct (persistTransfers_spec _ _ _ _ _ E) as (Hb & Hc & Hnd & Hin).
    destruct (Hin ins eq_refl) as (rows & Hrows & HF & Hsub). specialize (Hnd (proj1 HR)).
    split_and!.
    + eapply persist_rows; eauto.
    + eapply persist_amounts; eauto.
    + eapply persist_owners; eauto.
  - destruct (rollbackLedger_inv _ _ _ _ _ _ (proj1 HR) Hr) as (l3 & Hres & -> & Hkeys). split_and!.
    + eapply rollback_rows; eauto.
    + eapply rollback_amounts; eauto.
    + eapply rollback_owners; eauto.
Qed.

Lemma reachable_ok l0 l : transfers l0 = [] -> rtc ledgerStep l0 l -> LedgerOk l0 l.
Proof.
  intros H0 Hr. assert (LedgerOk l0 l0) as Hok.
  { split_and!.
    - split; [rewrite H0; apply NoDup_nil; done|]. intros r. by rewrite H0.
    - intros c col a t o _ _ _. rewrite H0. simpl. lia.
    - intros c col a t r _ _ _ Hin. by rewrite H0 in Hin. }
  assert (forall x, rtc ledgerStep x l -> LedgerOk l0 x -> LedgerOk l0 l) as Hgo.
  { intros x Hx. induction Hx; eauto using ledgerStep_ok. }
  by apply (Hgo l0).
Qed.

End Claims.

(** ** Theorems *)

(** C12: In every ledger reached by persisting ranges and rolling back, the balance of
    an account of an ERC1155 collection is its balance before any transfer was stored
    plus what the stored transfers above the collection's anchor add to it; and a
    rollback from a block leaves exactly the transfers below the block and the balance
    these alone give, whatever was synchronised above it and in whatever order. *)
Theorem rollback_undoes_sync collections l0 l c col a t o :
  transfers l0 = [] -> rtc (ledgerStep collections) l0 l ->
  collections !! c = Some col -> col_standard col = Erc1155 -> col_bootstrapAnchorBlock col = Some a ->
  balanceOf l (c, t, o)
  = balanceOf l0 (c, t, o)
    + sumOver (rowDelta (c, t, o)) (List.filter (fun r => a <? t_blockNumber r) (transfers l))
  /\ forall from tokens snapshot l',
       rollbackAllowed collections from snapshot ->
       rollbackLedger collections from tokens snapshot l = Ok l' ->
       transfers l' = List.filter (fun r => t_blockNumber r <? from) (transfers l) /\
       balanceOf l' (c, t, o)
       = balanceOf l0 (c, t, o)
         + sumOver (rowDelta (c, t, o))
             (List.filter (fun r => (a <? t_blockNumber r) && (t_blockNumber r <? from)) (transfers l)).
Proof.
  intros H0 Hr Hc Hs Ha. destruct (reachable_ok _ _ _ H0 Hr) as (HR & HA & HO).
  split; [exact (HA c col a t o Hc Hs Ha)|]. intros from tokens snapshot l' Hal Hroll.
  assert (LedgerOk collections l0 l') as (_ & HA' & _).
  { eapply ledgerStep_ok; [by eapply step_rollback|by split_and!]. }
  destruct (rollbackLedger_inv _ _ _ _ _ _ (proj1 HR) Hroll) as (l3 & _ & -> & _).
  split; [done|]. rewrite (HA' c col a t o Hc Hs Ha). simpl. f_equal. f_equal.
  rewrite lfilter_lfilter. apply lfilter_ext_In. intros r _. apply andb_comm.
Qed.

(** C23: In every ledger reached by persisting ranges and rolling back, in any order of
    arrival, a token of an ERC721 collection with a transfer above the anchor is held
    by the receiver of its newest stored transfer and by nobody else (by nobody after a
    burn); only an ownership verified at a fork at or above that transfer overrides it. *)
Theorem owner_is_newest_fact collections l0 l c col a t r :
  transfers l0 = [] -> rtc (ledgerStep collections) l0 l ->
  collections !! c = Some col -> col_standard col = Erc721 -> col_bootstrapAnchorBlock col = Some a ->
  In r (transfers l) -> t_collectionId r = c -> t_tokenId r = t -> a < t_blockNumber r ->
  (forall r', In r' (transfers l) -> t_collectionId r' = c -> t_tokenId r' = t -> r' <> r -> newer r r' = true) ->
  forall o, balanceOf l (c, t, o) =
    match selectOwnershipCheckpoint collections c t l with
    | Some p => if t_blockNumber r <=? oc_blockNumber p
                then (if bool_decide (oc_owner p = Some o) then 1 else 0)
                else (if bool_decide (t_to r <> ZERO_ADDRESS /\ t_to r = o) then 1 else 0)
    | None => if bool_decide (t_to r <> ZERO_ADDRESS /\ t_to r = o) then 1 else 0
    end.
Proof.
  intros H0 Hr Hc Hs Ha Hin Hrc Hrt Hb Hmax o. destruct (reachable_ok _ _ _ H0 Hr) as (_ & _ & HO).
  destruct (HO c col a t r Hc Hs Ha Hin Hrc Hrt Hb) as (st & Hst & Hbo). rewrite Hbo.
  assert (selectLatestTransfer c t l = Some r) as Hsel.
  { apply newest_unique.
    - apply filter_In. split; [done|]. unfold ofToken. by rewrite Hrc, Hrt, Z.eqb_refl, bool_decide_true.
    - intros r' [Hr' Hof]%filter_In Hne. unfold ofToken in Hof. apply andb_true_iff in Hof as [E1 E2].
      apply Z.eqb_eq in E1. apply bool_decide_eq_true in E2. auto. }
  assert ((if bool_decide (os_owner (stateOfTransfer r) = Some o) then 1 else 0)
          = (if bool_decide (t_to r <> ZERO_ADDRESS /\ t_to r = o) then 1 else 0)) as Ht.
  { unfold stateOfTransfer. simpl. destruct (bool_decide_reflect (t_to r = ZERO_ADDRESS)) as [E|E].
    - rewrite (bool_decide_false (None = Some o)), (bool_decide_false (_ /\ _)); [done|by intros [? _]|done].
    - destruct (decide (t_to r = o)) as [Eo|Eo].
      + rewrite (bool_decide_true (Some _ = _)) by (by f_equal).
        rewrite (bool_decide_true (_ /\ _)) by (by split). done.
      + rewrite (bool_decide_false (Some _ = _)) by congruence.
        rewrite (bool_decide_false (_ /\ _)) by (by intros [_ ?]). done. }
  unfold projectedOwnership in Hst. rewrite Hsel in Hst.
  destruct (selectOwnershipCheckpoint collections c t l) as [p|]; simpl in Hst.
  - destruct (t_blockNumber r <=? oc_blockNumber p); injection Hst as <-; [done|exact Ht].
  - injection Hst as <-. exact Ht.
Qed.

(** *** Witnesses *)

Section Witnesses.

Definition col1155 : CollectionRecord := {|
  col_chainId := 1; col_id := 1; col_address := "0xa"; col_standard := Erc1155; col_status := Live;
  col_bootstrapAnchorBlock := Some 10 |}.
Definition col721 : CollectionRecord := {|
  col_chainId := 1; col_id := 2; col_address := "0xb"; col_standard := Erc721; col_status := Live;
  col_bootstrapAnchorBlock := Some 10 |}.
Definition cols0 : gmap Z CollectionRecord := <[1 := col1155]> {[2 := col721]}.

Definition hdr (n : Z) : SyncBlockHeader := {|
  h_number := n; h_hash := "0xh" ++ Z_toString n; h_parentHash := "0xh" ++ Z_toString (n - 1);
  h_timestamp := 1000 + n |}.

Definition alice : string := "0xaaaaaaaaaaaaaaaaaaaaaaaaaaaaaaaaaaaaaaaa".
Definition bob : string := "0xbbbbbbbbbbbbbbbbbbbbbbbbbbbbbbbbbbbbbbbb".
Definition carol : string := "0xcccccccccccccccccccccccccccccccccccccccc".

Definition moves (c : Z) (kind : CollectionStandard) (from to : string) (amount block log : Z) : NftTransferEvent := {|
  ev_collectionId := c; ev_contract := "0xA"; ev_from := from; ev_to := to; ev_tokenId := "7";
  ev_amount := amount; ev_blockNumber := block; ev_blockHash := "0xh" ++ Z_toString block;
  ev_txHash := "0xt" ++ Z_toString block; ev_logIndex := log; ev_kind := kind |}.

(** Block 12 arrives before block 11. *)
Definition late : list NftTransferEvent :=
  [moves 1 Erc1155 alice bob 5 12 0; moves 2 Erc721 bob carol 1 12 1].
Definition early : list NftTransferEvent :=
  [moves 1 Erc1155 ZERO_ADDRESS alice 9 11 0; moves 2 Erc721 alice bob 1 11 1].

Definition l12 : result Ledger := persistLedger cols0 [hdr 12] late [col1155; col721] emptyLedger.
Definition l11 : result Ledger :=
  match l12 with Ok l => persistLedger cols0 [hdr 11] early [col1155; col721] l | Err e => Err e end.
Definition fork11 : Erc721RollbackSnapshot := {|
  sn_block := hdr 11;
  sn_owners := [({| tok_collectionId := 2; tok_contract := "0xB"; tok_tokenId := "7" |}, Some bob)] |}.
Definition tokens12 : list Erc721TokenReference :=
  [{| tok_collectionId := 2; tok_contract := "0xb"; tok_tokenId := "7" |}].

Definition ledgerOf (r : result Ledger) : Ledger := match r with Ok l => l | Err _ => emptyLedger end.

Lemma scoped_both events : (forall ev, In ev events -> (ev_collectionId ev, ev_kind ev) ∈ [(1, Erc1155); (2, Erc721)]) ->
  scoped cols0 [col1155; col721] events.
Proof.
  intros H ev Hin. specialize (H ev Hin). rewrite !elem_of_cons in H.
  destruct H as [[= -> ->]|[[= -> ->]|H]]; [exists col1155|exists col721|by apply not_elem_of_nil in H];
    split_and!; vm_compute; reflexivity.
Qed.

Lemma reached11 : rtc (ledgerStep cols0) emptyLedger (ledgerOf l11).
Proof.
  eapply rtc_l; [apply (step_persist cols0 [hdr 12] late [col1155; col721] _ (ledgerOf l12))|].
  - apply scoped_both. intros ev [<-|[<-|[]]]; simpl; rewrite !elem_of_cons; auto.
  - vm_compute. reflexivity.
  - eapply rtc_l; [apply (step_persist cols0 [hdr 11] early [col1155; col721] _ (ledgerOf l11))|apply rtc_refl].
    + apply scoped_both. intros ev [<-|[<-|[]]]; simpl; rewrite !elem_of_cons; auto.
    + vm_compute. reflexivity.
Qed.

Lemma allowed12 : rollbackAllowed cols0 12 fork11.
Proof.
  split; [reflexivity|]. intros c col Hc. unfold cols0 in Hc.
  apply lookup_insert_Some in Hc as [[_ <-]|[_ Hc]]; [reflexivity|].
  apply lookup_singleton_Some in Hc as [_ <-]. reflexivity.
Qed.

Definition l12undone : result Ledger := rollbackLedger cols0 12 tokens12 fork11 (ledgerOf l11).

Lemma undone_ok : rollbackLedger cols0 12 tokens12 fork11 (ledgerOf l11) = Ok (ledgerOf l12undone).
Proof. vm_compute. reflexivity. Qed.

Lemma rollback_undoes_sync_witness :
  balanceOf (ledgerOf l11) (1, "7"%string, alice) = 4 /\
  balanceOf (ledgerOf l12undone) (1, "7"%string, alice) = 9.
Proof.
  destruct (rollback_undoes_sync cols0 emptyLedger (ledgerOf l11) 1 col1155 10 "7" alice eq_refl reached11
              eq_refl eq_refl eq_refl) as [H1 H2].
  destruct (H2 12 tokens12 fork11 (ledgerOf l12undone) allowed12 undone_ok) as [_ H3].
  split; [rewrite H1|rewrite H3]; vm_compute; reflexivity.
Defined.

Lemma owner_is_newest_fact_witness :
  balanceOf (ledgerOf l11) (2, "7"%string, carol) = 1 /\ balanceOf (ledgerOf l11) (2, "7"%string, bob) = 0.
Proof.
  assert (forall o, balanceOf (ledgerOf l11) (2, "7"%string, o)
                    = if bool_decide (carol <> ZERO_ADDRESS /\ carol = o) then 1 else 0) as H.
  { intros o.
    apply (owner_is_newest_fact cols0 emptyLedger (ledgerOf l11) 2 col721 10 "7"
             (rowOf (moves 2 Erc721 bob carol 1 12 1) 1012) eq_refl reached11 eq_refl eq_refl eq_refl).
    - vm_compute. auto.
    - reflexivity.
    - reflexivity.
    - vm_compute. reflexivity.
    - intros r' Hr' Hc _ Hne. vm_compute in Hr'.
      destruct Hr' as [<-|[<-|[<-|[<-|[]]]]]; [discriminate Hc|by contradiction Hne|discriminate Hc|reflexivity]. }
  split; rewrite H; reflexivity.
Defined.

(** A batch that moves one token twice: both transfers have the key of the log, so
    the second is ignored and its amount is lost. *)
Example repeated_batch_token_loses_amount :
  balanceOf (ledgerOf (persistLedger cols0 [hdr 11]
    [moves 1 Erc1155 ZERO_ADDRESS alice 2 11 0; moves 1 Erc1155 ZERO_ADDRESS alice 3 11 0]
    [col1155; col721] emptyLedger)) (1, "7"%string, alice) = 2.
Proof. vm_compute. reflexivity. Qed.

End Witnesses.

End LedgerClaims.
