(* ===== verification/SyncBlocks.v ===== *)
(** * Headers of a range from the provider

    [fetchCanonicalSyncBlocks] (application/sync-blocks.ts), over any world that has a
    provider: [getBlock number] is one call of it, whose answer nothing constrains. *)

From S2P Require Import Prelude JsValue Chain.
Import Chain.

Open Scope Z_scope.

Module SyncBlocks.

Local Open Scope artgod_scope.

Section Fetch.
Context {W : Type} (getBlock : Z -> M W SyncBlockHeader).

(** A result as a computation. *)
Definition raise {A} (r : result A) : M W A := fun w => (r, w).

(** The loop over the numbers; [n] counts the blocks left. *)
Fixpoint readBlocks (n : nat) (number : Z) : M W (list SyncBlockHeader) :=
  match n with
  | O => mret []
  | S n =>
      let! block := getBlock number in
      do! raise (if h_number block =? number then Ok tt else Err "Sync RPC returned the wrong block") in
      let! rest := readBlocks n (number + 1) in
      mret (block :: rest)
  end.

Definition fetchCanonicalSyncBlocks (from to : Z) : M W (list SyncBlockHeader) :=
  let! blocks := readBlocks (Z.to_nat (to - from + 1)) from in
  do! raise (assertSyncBlockHeaders blocks) in
  match last blocks with
  | None => mret blocks
  | Some tip =>
      let! current := getBlock (h_number tip) in
      do! raise (if negb (h_number current =? h_number tip) || negb (bool_decide (h_hash current = h_hash tip))
                 then Err "Sync range changed during header reads" else Ok tt) in
      mret blocks
  end.

(** ** What it returns *)

Lemma raised_ok {A} (r : result A) w a w' : raise r w = (Ok a, w') -> r = Ok a /\ w' = w.
Proof. unfold raise. by intros [= -> <-]. Qed.

Lemma bind_ok {A B} (m : M W A) (f : A -> M W B) w b w' :
  mbind m f w = (Ok b, w') -> exists a w1, m w = (Ok a, w1) /\ f a w1 = (Ok b, w').
Proof. unfold mbind. destruct (m w) as [[a|e] w1]; [|done]. eauto. Qed.

Lemma readBlocks_numbered n number w blocks w' :
  readBlocks n number w = (Ok blocks, w') -> length blocks = n /\ numberedFrom number blocks = true.
Proof.
  revert number w blocks. induction n as [|n IH]; intros number w blocks H; cbn [readBlocks] in H.
  - by injection H as <- _.
  - apply bind_ok in H as (b & w1 & _ & H). apply bind_ok in H as (u & w2 & H2 & H). apply raised_ok in H2 as [H2 ->].
    apply bind_ok in H as (rest & w3 & H3 & H). injection H as <- <-. apply IH in H3 as [Hl Hn]. simpl.
    destruct (h_number b =? number); [|done]. by rewrite Hl, Hn.
Qed.

(** The blocks are those of the range, in order, and linked. *)
Lemma fetch_covers from to w blocks w' :
  from <= to -> fetchCanonicalSyncBlocks from to w = (Ok blocks, w') ->
  coversRange blocks from to = true /\ assertSyncBlockHeaders blocks = Ok tt.
Proof.
  intros Hle H. unfold fetchCanonicalSyncBlocks in H. apply bind_ok in H as (bs & w1 & H1 & H).
  apply readBlocks_numbered in H1 as [Hl Hn]. apply bind_ok in H as ([] & w2 & H2 & H). apply raised_ok in H2 as [H2 ->].
  assert (blocks = bs) as ->.
  { destruct (last bs); [|by injection H as <- _]. apply bind_ok in H as (c & w3 & _ & H).
    apply bind_ok in H as (u & w4 & _ & H). by injection H as <- _. }
  split; [|done]. unfold coversRange. rewrite Hn, Hl, andb_true_r. apply Z.eqb_eq. lia.
Qed.

End Fetch.

End SyncBlocks.
