(* ===== verification/Jobs.v ===== *)
(** * The jobs of the indexer

    domain/jobs.ts with the payloads the synchronisation sends (domain/domain-jobs.ts,
    domain/order-jobs.ts), its queues (domain/queues.ts), the classes of work, and the
    follow-ups of a range (domain/sync-follow-ups.ts).  Payloads of other parts of the
    indexer are one opaque case. *)

From S2P Require Import Prelude JsValue Chain.
Import Chain.

Open Scope Z_scope.

Module Jobs.

Inductive SyncWorkClass := MainWork | GapRepairWork.

#[export] Instance SyncWorkClass_eq : EqDecision SyncWorkClass.
Proof. solve_decision. Defined.

(** [BACKFILL_ORDER_MAINTENANCE_POLICY] *)
Inductive BackfillOrderMaintenancePolicy := CurrentStateMaintenance | SkipGlobalMakerRevalidation.

#[export] Instance BackfillOrderMaintenancePolicy_eq : EqDecision BackfillOrderMaintenancePolicy.
Proof. solve_decision. Defined.

Inductive DomainSyncMode := RealtimeMode | BackfillMode.

Inductive DomainSyncProjection := FactsOnly | CurrentState.

(** [ChainAttribution], in full; [Chain.Attribution] is the part the checks read. *)
Record EventAttribution := {
  ea_blockNumber : Z; ea_blockHash : string; ea_txHash : string; ea_logIndex : Z;
}.

#[export] Instance EventAttribution_eq : EqDecision EventAttribution.
Proof. solve_decision. Defined.

Record DomainSyncPayload := {
  ds_fromBlock : Z; ds_toBlock : Z; ds_mode : DomainSyncMode; ds_projection : DomainSyncProjection;
  ds_sourceJobId : string; ds_sourceKind : string;
}.

(** [OrderUpdateByMakerPayload["scope"]] with the fields of each scope. *)
Inductive MakerScope :=
  | TokenMaker (collectionId : Z) (contract tokenId : string)
  | CollectionMaker (collectionId : Z) (contract : string)
  | GlobalMaker.

Inductive Payload :=
  | DomainSync (p : DomainSyncPayload)
  | OrderUpdateByMaker (scope : MakerScope) (maker reason : string) (at_ : EventAttribution)
  | OrderUpdateById (orderId reason : string) (at_ : EventAttribution)
  | MetadataRefresh (collectionId : Z) (tokenId reason : string)
  | MetadataRefreshRange (collectionId : Z) (fromTokenId toTokenId reason : string)
  | OtherPayload (text : string).

#[export] Instance DomainSyncMode_eq : EqDecision DomainSyncMode.
Proof. solve_decision. Defined.
#[export] Instance DomainSyncProjection_eq : EqDecision DomainSyncProjection.
Proof. solve_decision. Defined.
#[export] Instance DomainSyncPayload_eq : EqDecision DomainSyncPayload.
Proof. solve_decision. Defined.
#[export] Instance MakerScope_eq : EqDecision MakerScope.
Proof. solve_decision. Defined.
#[export] Instance Payload_eq : EqDecision Payload.
Proof. solve_decision. Defined.

(** [attempt] is 0 and [scheduledAt] the moment of creation in every job built here, and
    no reader of this part uses them. *)
Record JobEnvelope := {
  j_jobId : string;
  j_kind : string;
  j_queue : string;
  j_payload : Payload;
  j_chainId : Z;
  j_collectionId : option Z;
  j_workClass : option SyncWorkClass;
  j_onchainBlock : option (Z * Z * string);
}.

#[export] Instance JobEnvelope_eq : EqDecision JobEnvelope.
Proof. solve_decision. Defined.

(** The queues the synchronisation publishes to. *)
Module Queue.
Definition OrdersDomain : string := "orders-domain".
Definition MetadataDomain : string := "metadata-domain".
Definition ActivityDomain : string := "activity-domain".
Definition OrdersUpdateByMaker : string := "order-updates-by-maker".
Definition OrdersUpdateByToken : string := "order-updates-by-token".
Definition OrdersUpdateById : string := "order-updates-by-id".
Definition OrderLifecycle : string := "order-lifecycle-updates".
Definition MetadataRefreshQueue : string := "metadata-refresh".
End Queue.

Inductive SyncFollowUp :=
  | RangeFollowUp (job : JobEnvelope)
  | EventFollowUp (job : JobEnvelope) (chainId blockNumber : Z) (blockHash : string).

#[export] Instance SyncFollowUp_eq : EqDecision SyncFollowUp.
Proof. solve_decision. Defined.

Definition jobOf (f : SyncFollowUp) : JobEnvelope :=
  match f with RangeFollowUp job | EventFollowUp job _ _ _ => job end.

Definition eventSyncFollowUp (job : JobEnvelope) (a : EventAttribution) : SyncFollowUp :=
  EventFollowUp job (j_chainId job) (ea_blockNumber a) (ea_blockHash a).

(** One field of the job replaced. *)
Definition withJob (f : JobEnvelope -> JobEnvelope) (followUp : SyncFollowUp) : SyncFollowUp :=
  match followUp with
  | RangeFollowUp job => RangeFollowUp (f job)
  | EventFollowUp job chainId number hash => EventFollowUp (f job) chainId number hash
  end.

Definition setWorkClass (workClass : SyncWorkClass) (job : JobEnvelope) : JobEnvelope := {|
  j_jobId := j_jobId job; j_kind := j_kind job; j_queue := j_queue job; j_payload := j_payload job;
  j_chainId := j_chainId job; j_collectionId := j_collectionId job; j_workClass := Some workClass;
  j_onchainBlock := j_onchainBlock job |}.

End Jobs.
