(* ===== verification/QueueOutbox.v ===== *)
(** * The outbox of jobs to publish

    [queue_outbox] and the statements of [SqliteQueueOutbox]
    (infra/queue/sqlite-queue-outbox.ts).  A job is a row from the transaction that
    decides it until the broker has it.  Rows are unique by queue and job id, and their
    ids are never used again (AUTOINCREMENT).  [job_json] is the job itself: the text is
    written by [JSON.stringify] and only read back by [JSON.parse]. *)

From S2P Require Import Prelude JsValue OrderBy Chain Jobs.
Import Chain Jobs.

Open Scope Z_scope.

Module QueueOutbox.

Inductive QueueOutboxStatus := Pending | Sent | FailedRetry | FailedTerminal.

(** Required rows are follow-ups of a range: they are retried until published. *)
Inductive QueueOutboxRetryPolicy := Bounded | Required.

#[export] Instance QueueOutboxStatus_eq : EqDecision QueueOutboxStatus.
Proof. solve_decision. Defined.
#[export] Instance QueueOutboxRetryPolicy_eq : EqDecision QueueOutboxRetryPolicy.
Proof. solve_decision. Defined.

Record OutboxRow := {
  ob_outboxId : Z;
  ob_job : JobEnvelope;
  ob_status : QueueOutboxStatus;
  ob_attempts : Z;
  ob_nextAttemptAt : Z;
  ob_retryPolicy : QueueOutboxRetryPolicy;
  ob_block : option (Z * string);
}.

#[export] Instance OutboxRow_eq : EqDecision OutboxRow.
Proof. solve_decision. Defined.

(** The rows by queue and job id, and the last id given. *)
Record Outbox := { out_rows : gmap (string * string) OutboxRow; out_seq : Z }.

Definition emptyOutbox : Outbox := {| out_rows := ∅; out_seq := 0 |}.

Definition keyOf (job : JobEnvelope) : string * string := (j_queue job, j_jobId job).

(** [INSERT OR IGNORE]: an existing job is not inserted again. *)
Definition insertJob (job : JobEnvelope) (nextAttemptAt : Z) (retryPolicy : QueueOutboxRetryPolicy)
    (block : option (Z * string)) (o : Outbox) : Outbox :=
  match out_rows o !! keyOf job with
  | Some _ => o
  | None => {| out_rows := <[keyOf job := {|
                 ob_outboxId := out_seq o + 1; ob_job := job; ob_status := Pending; ob_attempts := 0;
                 ob_nextAttemptAt := nextAttemptAt; ob_retryPolicy := retryPolicy; ob_block := block |}]> (out_rows o);
               out_seq := out_seq o + 1 |}
  end.

Definition enqueueJob (job : JobEnvelope) (nextAttemptAt : Z) (o : Outbox) : Outbox :=
  insertJob job nextAttemptAt Bounded None o.

(** The job under which a follow-up of a range is kept: its id names the revision, and
    an event's job the block it is valid on. *)
Definition retainedJob (followUp : SyncFollowUp) (revision : Z) : JobEnvelope :=
  let job := jobOf followUp in {|
    j_jobId := (j_jobId job ++ ":chain-revision:" ++ Z_toString revision)%string;
    j_kind := j_kind job; j_queue := j_queue job; j_payload := j_payload job; j_chainId := j_chainId job;
    j_collectionId := j_collectionId job; j_workClass := j_workClass job;
    j_onchainBlock := match followUp with
                      | EventFollowUp _ chainId number hash => Some (chainId, number, hash)
                      | RangeFollowUp _ => j_onchainBlock job
                      end |}.

Definition enqueueSyncFollowUp (revision : Z) (o : Outbox) (followUp : SyncFollowUp) : Outbox :=
  insertJob (retainedJob followUp revision) 0 Required
    (match followUp with EventFollowUp _ _ number hash => Some (number, hash) | RangeFollowUp _ => None end) o.

(** [DELETE FROM queue_outbox WHERE chain_id = ? AND sync_block_number >= ?], of a
    rollback: range jobs have no block and stay. *)
Definition orphaned (chainId from : Z) (row : OutboxRow) : bool :=
  (j_chainId (ob_job row) =? chainId) && match ob_block row with Some (n, _) => from <=? n | None => false end.

Definition deleteFollowUpsFromBlock (chainId from : Z) (o : Outbox) : Outbox := {|
  out_rows := filter (fun '(_, row) => orphaned chainId from row = false) (out_rows o); out_seq := out_seq o |}.

(** *** The drainer's statements *)

Definition isDue (nowMs : Z) (row : OutboxRow) : bool :=
  match ob_status row with Pending | FailedRetry => ob_nextAttemptAt row <=? nowMs | _ => false end.

Definition dueBefore (a b : OutboxRow) : bool :=
  (ob_nextAttemptAt a <? ob_nextAttemptAt b)
  || (ob_nextAttemptAt a =? ob_nextAttemptAt b) && (ob_outboxId a <? ob_outboxId b).

Definition listDue (nowMs : Z) (limit : nat) (o : Outbox) : list OutboxRow :=
  firstn limit (orderBy dueBefore (List.filter (isDue nowMs) (map snd (map_to_list (out_rows o))))).

(** [UPDATE … WHERE outbox_id = ?] *)
Definition updateRow (outboxId : Z) (f : OutboxRow -> OutboxRow) (o : Outbox) : Outbox := {|
  out_rows := (fun row => if ob_outboxId row =? outboxId then f row else row) <$> out_rows o;
  out_seq := out_seq o |}.

Definition withState (status : QueueOutboxStatus) (attempts nextAttemptAt : Z) (row : OutboxRow) : OutboxRow := {|
  ob_outboxId := ob_outboxId row; ob_job := ob_job row; ob_status := status; ob_attempts := attempts;
  ob_nextAttemptAt := nextAttemptAt; ob_retryPolicy := ob_retryPolicy row; ob_block := ob_block row |}.

Definition markSent (outboxId : Z) (o : Outbox) : Outbox :=
  updateRow outboxId (fun row => withState Sent (ob_attempts row) (ob_nextAttemptAt row) row) o.

Definition removePublishedSyncFollowUp (outboxId : Z) (o : Outbox) : Outbox := {|
  out_rows := filter (fun '(_, row) => (ob_outboxId row =? outboxId) && bool_decide (ob_retryPolicy row = Required) = false)
                (out_rows o);
  out_seq := out_seq o |}.

Definition markFailed (outboxId attempts nextAttemptAt : Z) (terminal : bool) (o : Outbox) : Outbox :=
  updateRow outboxId (withState (if terminal then FailedTerminal else FailedRetry) attempts nextAttemptAt) o.

End QueueOutbox.
