(* ===== verification/SyncDb.v ===== *)
(** * The synchronisation tables of one chain

    The rows the indexer's synchronisation keeps in SQLite for one chain - every
    statement modelled here selects by [chain_id] - and the operations of
    [SqliteStorage] (infra/storage/sqlite.ts), [SqliteCanonicalChecks] and the chain
    revisions over them.  A write transaction that throws leaves the tables as they
    were.  Statements over other fact tables, which only add or delete rows by block
    (rollback also resets orders the deleted transfers had made unfillable), are left out; the ledger of transfers and balances is in [Ledger], the outbox, which all
    chains share, in [QueueOutbox]. *)

From S2P Require Import Prelude JsValue OrderBy Chain Ledger Jobs QueueOutbox.
Import Chain Ledger Jobs QueueOutbox.

Open Scope Z_scope.

Module SyncDb.

(** ** Rows *)

Record BlockRow := {
  b_hash : string; b_parentHash : string; b_timestamp : Z;
  b_canonicalCheckPending : bool; b_canonicalCheckRetryAt : Z;
}.

(** [collection_sync_gap_scans] *)
Record PendingSyncGapRepair := { p_repairId : string; p_range : Range; p_retryAt : Z }.

#[export] Instance PendingSyncGapRepair_eq : EqDecision PendingSyncGapRepair.
Proof. solve_decision. Defined.

Record SyncGapProgress := {
  anchorBlock : Z;
  cursorBlock : option Z;
  pending : option PendingSyncGapRepair;
  lastHeadCheckAt : option Z;
}.

#[export] Instance SyncGapProgress_eq : EqDecision SyncGapProgress.
Proof. solve_decision. Defined.

(** [chain_reorg_recoveries] *)
Record RecoveryBase := {
  r_recoveryId : string; r_revision : Z; r_chainId : Z; r_version : Z;
  r_checkedBlock : Z; r_storedHash : string; r_observedHash : string; r_retryAt : Z;
}.

Inductive ReorgRecoveryState :=
  | AwaitingReorgAncestor (base : RecoveryBase) (resumeFrom : option Z)
  | ReorgResync (base : RecoveryBase) (range : Range) (targetBlock : Z).

Definition baseOf (s : ReorgRecoveryState) : RecoveryBase :=
  match s with AwaitingReorgAncestor b _ | ReorgResync b _ _ => b end.

Record Db := {
  db_chainId : Z;
  db_collections : gmap Z CollectionRecord;
  db_revision : Z;
  db_blocks : gmap Z BlockRow;
  db_coverage : gmap Z (gset Z);
  db_scans : gmap Z SyncGapProgress;
  db_recovery : option ReorgRecoveryState;
  db_ledger : Ledger;
  db_outbox : Outbox;
}.

Definition setBlocks (d : Db) (x : gmap Z BlockRow) : Db := {|
  db_chainId := db_chainId d; db_collections := db_collections d; db_revision := db_revision d;
  db_blocks := x; db_coverage := db_coverage d; db_scans := db_scans d; db_recovery := db_recovery d;
  db_ledger := db_ledger d;
  db_outbox := db_outbox d |}.
Definition setCoverage (d : Db) (x : gmap Z (gset Z)) : Db := {|
  db_chainId := db_chainId d; db_collections := db_collections d; db_revision := db_revision d;
  db_blocks := db_blocks d; db_coverage := x; db_scans := db_scans d; db_recovery := db_recovery d;
  db_ledger := db_ledger d;
  db_outbox := db_outbox d |}.
Definition setScans (d : Db) (x : gmap Z SyncGapProgress) : Db := {|
  db_chainId := db_chainId d; db_collections := db_collections d; db_revision := db_revision d;
  db_blocks := db_blocks d; db_coverage := db_coverage d; db_scans := x; db_recovery := db_recovery d;
  db_ledger := db_ledger d;
  db_outbox := db_outbox d |}.
Definition setRecovery (d : Db) (x : option ReorgRecoveryState) : Db := {|
  db_chainId := db_chainId d; db_collections := db_collections d; db_revision := db_revision d;
  db_blocks := db_blocks d; db_coverage := db_coverage d; db_scans := db_scans d; db_recovery := x;
  db_ledger := db_ledger d;
  db_outbox := db_outbox d |}.
Definition setLedger (d : Db) (x : Ledger) : Db := {|
  db_chainId := db_chainId d; db_collections := db_collections d; db_revision := db_revision d;
  db_blocks := db_blocks d; db_coverage := db_coverage d; db_scans := db_scans d; db_recovery := db_recovery d;
  db_ledger := x; db_outbox := db_outbox d |}.
Definition setRevision (d : Db) (x : Z) : Db := {|
  db_chainId := db_chainId d; db_collections := db_collections d; db_revision := x;
  db_blocks := db_blocks d; db_coverage := db_coverage d; db_scans := db_scans d; db_recovery := db_recovery d;
  db_ledger := db_ledger d;
  db_outbox := db_outbox d |}.
Definition setCollections (d : Db) (x : gmap Z CollectionRecord) : Db := {|
  db_chainId := db_chainId d; db_collections := x; db_revision := db_revision d;
  db_blocks := db_blocks d; db_coverage := db_coverage d; db_scans := db_scans d; db_recovery := db_recovery d;
  db_ledger := db_ledger d;
  db_outbox := db_outbox d |}.

Definition setOutbox (d : Db) (x : Outbox) : Db := {|
  db_chainId := db_chainId d; db_collections := db_collections d; db_revision := db_revision d;
  db_blocks := db_blocks d; db_coverage := db_coverage d; db_scans := db_scans d; db_recovery := db_recovery d;
  db_ledger := db_ledger d; db_outbox := x |}.

(** [db.writeTransaction(f)()]: all of it or, when it throws, nothing. *)
Definition writeTransaction {A} (m : M Db A) : M Db A := fun d =>
  match m d with
  | (Ok a, d') => (Ok a, d')
  | (Err e, _) => (Err e, d)
  end.

(** A check that may throw, and a guarded throw. *)
Definition lift {A} (r : result A) : M Db A := fun d => (r, d).
Definition throwIf (b : bool) (e : string) : M Db unit := if b then mthrow e else mret tt.

Local Open Scope artgod_scope.

(** ** Revisions *)

Definition captureSyncCheckpoint (d : Db) : ChainSyncCheckpoint :=
  {| cp_chainId := db_chainId d; cp_revision := db_revision d |}.

Definition assertChainSyncCheckpoint (checkpoint : ChainSyncCheckpoint) : M Db unit := fun d =>
  throwIf (negb (db_revision d =? cp_revision checkpoint)) "Work predates a committed chain rollback" d.

Definition advanceChainSyncRevision : M Db unit := mmodify (fun d => setRevision d (db_revision d + 1)).

(** ** Blocks and coverage *)

Definition getBlockHash (d : Db) (blockNumber : Z) : option string := b_hash <$> db_blocks d !! blockNumber.

(** [insertBlock]: an existing row keeps its pending check. *)
Definition insertBlock (block : SyncBlockHeader) (checkPending : bool) (d : Db) : Db :=
  setBlocks d (<[h_number block := {|
    b_hash := h_hash block; b_parentHash := h_parentHash block; b_timestamp := h_timestamp block;
    b_canonicalCheckPending := match db_blocks d !! h_number block with
                               | Some old => b_canonicalCheckPending old
                               | None => checkPending
                               end;
    b_canonicalCheckRetryAt := match db_blocks d !! h_number block with
                               | Some old => b_canonicalCheckRetryAt old
                               | None => 0
                               end |}]> (db_blocks d)).

Fixpoint persistBlocks (blocks : list SyncBlockHeader) (canonicalCheck : option CanonicalCheckPolicy) : M Db unit :=
  match blocks with
  | [] => mret tt
  | block :: rest =>
      let! pendingCheck := lift (match canonicalCheck with
                                 | Some policy => needsDelayedCanonicalCheck (h_number block) policy
                                 | None => Ok false
                                 end) in
      do! mmodify (insertBlock block pendingCheck) in
      persistBlocks rest canonicalCheck
  end.

Definition coverageOf (d : Db) (collectionId : Z) : gset Z :=
  match db_coverage d !! collectionId with Some s => s | None => ∅ end.

Definition coverBlock (collectionId blockNumber : Z) (d : Db) : Db :=
  setCoverage d (<[collectionId := {[blockNumber]} ∪ coverageOf d collectionId]> (db_coverage d)).

Definition persistCollectionSyncBlocks (blocks : list SyncBlockHeader) (collections : list CollectionRecord)
    (d : Db) : Db :=
  fold_left (fun d collection =>
               fold_left (fun d block => coverBlock (col_id collection) (h_number block) d) blocks d)
    collections d.

(** ** Persisting a range *)

Record OnChainData := {
  od_transactions : list Attribution;
  od_nftTransferEvents : list NftTransferEvent;
  od_otherFacts : list Attribution;
}.

Definition factsOf (data : OnChainData) : list Attribution :=
  od_transactions data
  ++ map (fun ev => {| at_blockNumber := ev_blockNumber ev; at_blockHash := ev_blockHash ev |})
       (od_nftTransferEvents data)
  ++ od_otherFacts data.

Record SyncRangeResult := {
  s_checkpoint : ChainSyncCheckpoint;
  s_canonicalCheck : CanonicalCheckPolicy;
  s_blocks : list SyncBlockHeader;
  s_data : OnChainData;
  s_collections : list CollectionRecord;
}.

(** The first block whose stored hash differs. *)
Fixpoint storedConflict (blocks : list SyncBlockHeader) (d : Db) : option (SyncBlockHeader * string) :=
  match blocks with
  | [] => None
  | block :: rest =>
      match getBlockHash d (h_number block) with
      | Some storedHash =>
          if truthy storedHash && negb (bool_decide (storedHash = h_hash block))
          then Some (block, storedHash)
          else storedConflict rest d
      | None => storedConflict rest d
      end
  end.

Definition conflictMessage (block : SyncBlockHeader) : string :=
  ("Sync conflicts with stored block " ++ Z_toString (h_number block) ++ "; rollback is required")%string.

Definition persistSyncResult (r : SyncRangeResult) : M Db unit :=
  do! lift (assertCanonicalCheckPolicy (s_canonicalCheck r)) in
  writeTransaction
    (do! assertChainSyncCheckpoint (s_checkpoint r) in
     do! lift (assertSyncResultMatchesBlocks (s_blocks r) (factsOf (s_data r))) in
     do! (fun d => match storedConflict (s_blocks r) d with
                   | Some (block, _) => mthrow (conflictMessage block) d
                   | None => mret tt d
                   end) in
     do! persistBlocks (s_blocks r) (Some (s_canonicalCheck r)) in
     do! mmodify (persistCollectionSyncBlocks (s_blocks r) (s_collections r)) in
     fun d => match persistLedger (db_collections d) (s_blocks r) (od_nftTransferEvents (s_data r))
                      (s_collections r) (db_ledger d) with
              | Ok l => (Ok tt, setLedger d l)
              | Err e => (Err e, d)
              end).

(** ** History before a rollback *)

Record ReorgHistorySnapshot := {
  hs_checkpoint : ChainSyncCheckpoint;
  hs_range : Range;
  hs_headers : list SyncBlockHeader;
}.

Definition headerOf (number : Z) (b : BlockRow) : SyncBlockHeader := {|
  h_number := number; h_hash := b_hash b; h_parentHash := b_parentHash b; h_timestamp := b_timestamp b |}.

(** [selectReorgHeaders]: the rows between two heights, by number. *)
Definition selectReorgHeaders (from to : Z) (d : Db) : list SyncBlockHeader :=
  orderBy (fun a b => h_number a <? h_number b)
    (map (fun '(n, b) => headerOf n b)
       (List.filter (fun '(n, _) => (from <=? n) && (n <=? to)) (map_to_list (db_blocks d)))).

Definition captureReorgHistory (from to : Z) (d : Db) : ReorgHistorySnapshot := {|
  hs_checkpoint := captureSyncCheckpoint d;
  hs_range := {| fromBlock := from; toBlock := to |};
  hs_headers := selectReorgHeaders from to d |}.

(** The headers, compared one by one. *)
Fixpoint sameHeaders (current expected : list SyncBlockHeader) : bool :=
  match current, expected with
  | [], [] => true
  | header :: current, previous :: expected =>
      (h_number header =? h_number previous) && sameHeader header previous && sameHeaders current expected
  | _, _ => false
  end.

Definition assertReorgHistoryUnchanged (expected : ReorgHistorySnapshot) : M Db unit :=
  do! assertChainSyncCheckpoint (hs_checkpoint expected) in
  fun d =>
    let current := captureReorgHistory (fromBlock (hs_range expected)) (toBlock (hs_range expected)) d in
    throwIf (negb (sameHeaders (hs_headers current) (hs_headers expected)))
      "Reorg ancestor history changed during preparation" d.

(** ** Rolling back *)

Record ReorgRollbackPlan := {
  rp_checkpoint : ChainSyncCheckpoint;
  rp_fromBlock : Z;
  rp_tokens : list Erc721TokenReference;
}.

(** [SELECT MAX(bootstrap_anchor_block)]: rows without an anchor do not count. *)
Definition maxAnchor (d : Db) : option Z :=
  fold_right (fun '(_, c) best => match col_bootstrapAnchorBlock c, best with
                                  | Some a, Some b => Some (Z.max a b)
                                  | Some a, None => Some a
                                  | None, _ => best
                                  end) None (map_to_list (db_collections d)).

Definition assertRollbackPreservesAnchors (from : Z) : M Db unit := fun d =>
  throwIf (negb (canRollbackFromBlock (maxAnchor d) from))
    ("Rollback from block " ++ Z_toString from ++ " crosses retained collection bootstrap anchor "
     ++ match maxAnchor d with Some a => Z_toString a | None => "null" end)%string d.

Definition prepareRollback (from : Z) : M Db ReorgRollbackPlan :=
  do! throwIf (negb (isSafeInteger from) || (from <? 1)) "Rollback block must be a positive safe integer" in
  do! assertRollbackPreservesAnchors from in
  fun d => (Ok {| rp_checkpoint := captureSyncCheckpoint d; rp_fromBlock := from;
                  rp_tokens := selectRollbackTokens (db_collections d) from (db_ledger d) |}, d).

Definition deleteCoverageFromBlock (from : Z) (d : Db) : Db :=
  setCoverage d ((fun s => filter (fun b => b < from) s) <$> db_coverage d).

Definition deleteBlocksFromBlock (from : Z) (d : Db) : Db :=
  setBlocks d (filter (fun '(n, _) => n < from) (db_blocks d)).

Definition deleteOutboxFromBlock (from : Z) (d : Db) : Db :=
  setOutbox d (deleteFollowUpsFromBlock (db_chainId d) from (db_outbox d)).

Definition rollbackFromBlock (plan : ReorgRollbackPlan) (snapshot : Erc721RollbackSnapshot) : M Db unit :=
  let from := rp_fromBlock plan in
  writeTransaction
    (do! assertChainSyncCheckpoint (rp_checkpoint plan) in
     do! assertRollbackPreservesAnchors from in
     do! throwIf (negb (h_number (sn_block snapshot) =? from - 1))
           "Rollback ownership snapshot has the wrong block" in
     do! (fun d => match getBlockHash d (from - 1) with
                   | Some storedForkHash =>
                       throwIf (truthy storedForkHash && negb (bool_decide (storedForkHash = h_hash (sn_block snapshot))))
                         "Rollback fork no longer matches persisted history" d
                   | None => mret tt d
                   end) in
     do! (fun d => match rollbackLedger (db_collections d) from (rp_tokens plan) snapshot (db_ledger d) with
                   | Ok l => (Ok tt, setLedger d l)
                   | Err e => (Err e, d)
                   end) in
     do! mmodify (deleteCoverageFromBlock from) in
     do! mmodify (deleteBlocksFromBlock from) in
     do! mmodify (deleteOutboxFromBlock from) in
     do! persistBlocks [sn_block snapshot] None in
     advanceChainSyncRevision).

(** ** Pending checks of recent blocks *)

Definition assertCheckChain (check : PendingCanonicalCheck) : M Db unit :=
  do! throwIf (negb (pc_chainId check =? cp_chainId (pc_checkpoint check))) "Canonical check chain mismatch" in
  assertChainSyncCheckpoint (pc_checkpoint check).

(** An update of the row that is this exact block; [changes === 1]. *)
Definition updateBlock (check : PendingCanonicalCheck) (when : BlockRow -> bool) (f : BlockRow -> BlockRow)
    : M Db bool := fun d =>
  match db_blocks d !! pc_blockNumber check with
  | Some b => if bool_decide (b_hash b = pc_blockHash check) && when b
              then (Ok true, setBlocks d (<[pc_blockNumber check := f b]> (db_blocks d)))
              else (Ok false, d)
  | None => (Ok false, d)
  end.

Definition withCheck (b : BlockRow) (pendingCheck : bool) (retryAt : Z) : BlockRow := {|
  b_hash := b_hash b; b_parentHash := b_parentHash b; b_timestamp := b_timestamp b;
  b_canonicalCheckPending := pendingCheck; b_canonicalCheckRetryAt := retryAt |}.

Definition retainCheck (check : PendingCanonicalCheck) : M Db bool :=
  writeTransaction
    (do! assertCheckChain check in
     updateBlock check (fun _ => true)
       (fun b => withCheck b true (if b_canonicalCheckPending b then b_canonicalCheckRetryAt b else 0))).

Definition hasPendingCheck (now : Z) (d : Db) : bool :=
  existsb (fun '(_, b) => b_canonicalCheckPending b && (b_canonicalCheckRetryAt b <=? now))
    (map_to_list (db_blocks d)).

Definition nextDueCheck (now upperBound : Z) (d : Db) : option PendingCanonicalCheck :=
  match orderBy (fun a b => (b_canonicalCheckRetryAt a.2 <? b_canonicalCheckRetryAt b.2)
                            || (b_canonicalCheckRetryAt a.2 =? b_canonicalCheckRetryAt b.2) && (a.1 <? b.1))
          (List.filter (fun '(n, b) => b_canonicalCheckPending b && (b_canonicalCheckRetryAt b <=? now)
                                       && (n <=? upperBound)) (map_to_list (db_blocks d))) with
  | [] => None
  | (n, b) :: _ => Some {| pc_chainId := db_chainId d; pc_blockNumber := n; pc_blockHash := b_hash b;
                           pc_checkpoint := captureSyncCheckpoint d |}
  end.

Definition completeCheck (check : PendingCanonicalCheck) : M Db bool :=
  writeTransaction
    (do! assertCheckChain check in
     updateBlock check b_canonicalCheckPending (fun b => withCheck b false 0)).

Definition deferCheck (check : PendingCanonicalCheck) (retryAt : Z) : M Db unit :=
  writeTransaction
    (do! assertCheckChain check in
     do! updateBlock check b_canonicalCheckPending (fun b => withCheck b true retryAt) in
     mret tt).

End SyncDb.
