(* ===== verification/GapRepair.v ===== *)
(** * Repair of missing history

    domain/sync-gap-repair.ts and [SqliteSyncGapStore] (infra/storage/sqlite-sync-gaps.ts):
    one row per collection keeps how far its history has been searched ([cursorBlock])
    and at most one range that is known to be missing ([pending]); coverage says which
    blocks are stored for the collection.  [findGap] reads a bounded window,
    [findNewestGap] searches a long one by counting. *)

From S2P Require Import Prelude JsValue OrderBy Chain Ledger SyncDb.
Import Chain Ledger SyncDb.

Open Scope Z_scope.

Module GapRepair.

Record SyncGapRepairTarget := {
  g_collectionId : Z; g_repairId : string; g_anchorBlock : Z; g_range : Range;
}.

#[export] Instance SyncGapRepairTarget_eq : EqDecision SyncGapRepairTarget.
Proof. solve_decision. Defined.

Record SyncGapRepairCandidate := { c_repair : SyncGapRepairTarget; c_missing : Range }.

Record SyncGapRepairBatch := { bt_range : Range; bt_repairs : list SyncGapRepairTarget }.

(** ** The domain *)

(** The row still holds this repair. *)
Definition holdsRepair (progress : option SyncGapProgress) (repair : SyncGapRepairTarget) : bool :=
  match progress with
  | Some {| pending := Some p |} =>
      bool_decide (p_repairId p = g_repairId repair)
      && (fromBlock (p_range p) =? fromBlock (g_range repair))
      && (toBlock (p_range p) =? toBlock (g_range repair))
  | _ => false
  end.

Definition hasAnchor (progress : option SyncGapProgress) (anchor : Z) : bool :=
  match progress with Some p => anchorBlock p =? anchor | None => false end.

Definition isCurrentSyncGapRepair (chainId : Z) (repair : SyncGapRepairTarget)
    (collection : option CollectionRecord) (progress : option SyncGapProgress) : bool :=
  match collection with
  | None => false
  | Some c =>
      (chainId =? col_chainId c) &&
      match gapRepairWindow c (toBlock (g_range repair)) with
      | None => false
      | Some window =>
          (g_anchorBlock repair =? fromBlock window)
          && (fromBlock window <=? fromBlock (g_range repair))
          && hasAnchor progress (fromBlock window)
          && holdsRepair progress repair
      end
  end.

(** The order of the candidates: newest first, then by collection. *)
Definition candidateBefore (a b : SyncGapRepairCandidate) : bool :=
  (toBlock (c_missing b) <? toBlock (c_missing a))
  || (toBlock (c_missing b) =? toBlock (c_missing a))
     && (g_collectionId (c_repair a) <? g_collectionId (c_repair b)).

(** The inner loop: the members with the same upper bound. *)
Fixpoint takeMembers (to : Z) (from : Z) (members : list SyncGapRepairTarget)
    (pendings : list SyncGapRepairCandidate) : Z * list SyncGapRepairTarget * list SyncGapRepairCandidate :=
  match pendings with
  | next :: rest =>
      if toBlock (c_missing next) =? to
      then takeMembers to (Z.max from (fromBlock (c_missing next))) (members ++ [c_repair next]) rest
      else (from, members, pendings)
  | [] => (from, members, [])
  end.

Definition repairBefore (a b : SyncGapRepairTarget) : bool := g_collectionId a <? g_collectionId b.

(** The outer loop; [fuel] counts batches, at most one per candidate. *)
Fixpoint planBatches (fuel : nat) (batchSize : Z) (pendings : list SyncGapRepairCandidate)
    : list SyncGapRepairBatch :=
  match fuel, pendings with
  | S fuel, first :: rest =>
      let to := toBlock (c_missing first) in
      let lowerBound := to - batchSize + 1 in
      let '(from, members, rest) :=
        takeMembers to (Z.max (fromBlock (c_missing first)) lowerBound) [c_repair first] rest in
      {| bt_range := {| fromBlock := from; toBlock := to |}; bt_repairs := orderBy repairBefore members |}
      :: planBatches fuel batchSize rest
  | _, _ => []
  end.

Definition planSyncGapRepairBatches (candidates : list SyncGapRepairCandidate) (batchSize : Z)
    : result (list SyncGapRepairBatch) :=
  if negb (isSafeInteger batchSize) || (batchSize <? 1)
  then Err "Gap repair batch size must be a positive safe integer"
  else Ok (planBatches (length candidates) batchSize (orderBy candidateBefore candidates)).

Definition remainingSyncGapRepairRange (repair : SyncGapRepairTarget) (repairedFromBlock : Z) : option Range :=
  if fromBlock (g_range repair) <? repairedFromBlock
  then Some {| fromBlock := fromBlock (g_range repair); toBlock := repairedFromBlock - 1 |}
  else None.

(** ** Coverage *)

(** The heights from [to] down to [from]. *)
Fixpoint downFrom (n : nat) (to : Z) : list Z :=
  match n with O => [] | S n => to :: downFrom n (to - 1) end.

(** [selectCoverage]: the covered heights of a window, newest first. *)
Definition selectCoverage (covered : gset Z) (from to : Z) : list Z :=
  List.filter (fun b => bool_decide (b ∈ covered)) (downFrom (Z.to_nat (to - from + 1)) to).

Definition countCoverage (covered : gset Z) (from to : Z) : Z := Z.of_nat (length (selectCoverage covered from to)).

(** The loop over the rows. *)
Fixpoint findGapRows (rows : list Z) (from batchSize cursor : Z) : option Range :=
  match rows with
  | row :: rest =>
      if row <? cursor
      then Some {| fromBlock := Z.max (row + 1) (cursor - batchSize + 1); toBlock := cursor |}
      else findGapRows rest from batchSize (row - 1)
  | [] =>
      if cursor <? from then None
      else Some {| fromBlock := Z.max from (cursor - batchSize + 1); toBlock := cursor |}
  end.

Definition findGap (covered : gset Z) (window : Range) (batchSize : Z) : option Range :=
  findGapRows (selectCoverage covered (fromBlock window) (toBlock window)) (fromBlock window) batchSize
    (toBlock window).

(** The search of [findNewestGap] by halving; each round shortens the span. *)
Fixpoint newestMissing (fuel : nat) (covered : gset Z) (from to : Z) : Z :=
  match fuel with
  | O => to
  | S fuel =>
      if from <? to
      then let middle := (from + to + 1) / 2 in
           if countCoverage covered middle to <? to - middle + 1
           then newestMissing fuel covered middle to
           else newestMissing fuel covered from (middle - 1)
      else to
  end.

Definition findNewestGap (covered : gset Z) (window : Range) (batchSize : Z) : option Range :=
  let from := fromBlock window in
  let to := toBlock window in
  let count := countCoverage covered from to in
  if count =? to - from + 1 then None
  else let to := if 0 <? count then newestMissing (Z.to_nat (to - from)) covered from to else to in
       findGap covered {| fromBlock := Z.max from (to - batchSize + 1); toBlock := to |} batchSize.

(** ** Rows of [collection_sync_gap_scans] *)

Definition getProgress (collectionId : Z) (d : Db) : option SyncGapProgress := db_scans d !! collectionId.

Definition setProgress (collectionId : Z) (progress : SyncGapProgress) (d : Db) : Db :=
  setScans d (<[collectionId := progress]> (db_scans d)).

(** Insert when no row was expected, update when the row is exactly the expected one. *)
Definition saveProgress (collectionId : Z) (expected : option SyncGapProgress) (progress : SyncGapProgress)
    (d : Db) : bool * Db :=
  if bool_decide (getProgress collectionId d = expected)
  then (true, setProgress collectionId progress d)
  else (false, d).

(** [WHERE … anchor_block = … AND pending_job_id = … AND pending_from_block = … AND
    pending_to_block = …] *)
Definition matchesRepair (progress : SyncGapProgress) (repair : SyncGapRepairTarget) : bool :=
  (anchorBlock progress =? g_anchorBlock repair) && holdsRepair (Some progress) repair.

Definition updateScan (collectionId : Z) (when : SyncGapProgress -> bool)
    (f : SyncGapProgress -> SyncGapProgress) (d : Db) : bool * Db :=
  match getProgress collectionId d with
  | Some p => if when p then (true, setProgress collectionId (f p) d) else (false, d)
  | None => (false, d)
  end.

Definition withPending (p : SyncGapProgress) (pend : option PendingSyncGapRepair) : SyncGapProgress := {|
  anchorBlock := anchorBlock p; cursorBlock := cursorBlock p; pending := pend;
  lastHeadCheckAt := lastHeadCheckAt p |}.

Definition deferRetry (repair : SyncGapRepairTarget) (retryAt : Z) (d : Db) : Db :=
  (updateScan (g_collectionId repair) (fun p => matchesRepair p repair)
     (fun p => withPending p ((fun q => {| p_repairId := p_repairId q; p_range := p_range q; p_retryAt := retryAt |})
                                <$> pending p)) d).2.

Definition recordRepairProgress (repair : SyncGapRepairTarget) (remaining : option Range) (retryAt : Z)
    (d : Db) : bool * Db :=
  updateScan (g_collectionId repair) (fun p => matchesRepair p repair)
    (fun p => withPending p ((fun r => {| p_repairId := g_repairId repair; p_range := r; p_retryAt := retryAt |})
                               <$> remaining)) d.

Definition withRange (repair : SyncGapRepairTarget) (r : Range) : SyncGapRepairTarget := {|
  g_collectionId := g_collectionId repair; g_repairId := g_repairId repair;
  g_anchorBlock := g_anchorBlock repair; g_range := r |}.

Definition reconcileRepairCoverage (repair : SyncGapRepairTarget) (batchSize now : Z) (d : Db)
    : option SyncGapRepairCandidate * Db :=
  let progress := getProgress (g_collectionId repair) d in
  if negb (hasAnchor progress (g_anchorBlock repair)) || negb (holdsRepair progress repair)
  then (None, d)
  else
    let from := fromBlock (g_range repair) in
    let window := {| fromBlock := Z.max from (toBlock (g_range repair) - batchSize + 1);
                     toBlock := toBlock (g_range repair) |} in
    let missing := findGap (coverageOf d (g_collectionId repair)) window batchSize in
    let to := match missing with Some m => toBlock m | None => fromBlock window - 1 end in
    let d := if to =? toBlock (g_range repair) then d
             else (recordRepairProgress repair
                     (if from <=? to then Some {| fromBlock := from; toBlock := to |} else None) now d).2 in
    match missing with
    | Some m => (Some {| c_repair := withRange repair {| fromBlock := from; toBlock := to |}; c_missing := m |}, d)
    | None => (None, d)
    end.

(** ** Lists of rows *)

(** The rows of live collections whose anchor is still the row's. *)
Definition liveScans (d : Db) : list (Z * SyncGapProgress) :=
  List.filter (fun '(id, p) =>
    match db_collections d !! id with
    | Some c => bool_decide (col_status c = Live) && bool_decide (col_bootstrapAnchorBlock c = Some (anchorBlock p))
    | None => false
    end) (map_to_list (db_scans d)).

Definition pendingOf (d : Db) : list (Z * SyncGapProgress * PendingSyncGapRepair) :=
  omap (fun '(id, p) => (fun q => (id, p, q)) <$> pending p) (liveScans d).

(** [selectNewest] *)
Definition newestPendingHeight (upperBound : Z) (d : Db) : option Z :=
  fold_right (fun '(_, _, q) best =>
    let to := toBlock (p_range q) in
    if to <=? upperBound then Some (match best with Some b => Z.max b to | None => to end) else best)
    None (pendingOf d).

Definition targetOf (row : Z * SyncGapProgress * PendingSyncGapRepair) : SyncGapRepairTarget :=
  let '(id, p, q) := row in
  {| g_collectionId := id; g_repairId := p_repairId q; g_anchorBlock := anchorBlock p; g_range := p_range q |}.

Definition dueBefore (a b : Z * SyncGapProgress * PendingSyncGapRepair) : bool :=
  (p_retryAt a.2 <? p_retryAt b.2) || (p_retryAt a.2 =? p_retryAt b.2) && (a.1.1 <? b.1.1).

Definition listDueRepairsAtNewestPendingHeight (now : Z) (limit : nat) (upperBound : Z) (d : Db)
    : list SyncGapRepairTarget :=
  match newestPendingHeight upperBound d with
  | None => []
  | Some newest =>
      map targetOf
        (firstn limit
           (orderBy dueBefore
              (List.filter (fun '(_, _, q) => (toBlock (p_range q) =? newest) && (p_retryAt q <=? now)) (pendingOf d))))
  end.

Record SyncGapHeadCheckPosition := { hc_collectionId : Z; hc_lastHeadCheckAt : option Z }.

(** A row as a position in the order of head checks. *)
Definition positionOf (row : Z * SyncGapProgress) : SyncGapHeadCheckPosition :=
  {| hc_collectionId := row.1; hc_lastHeadCheckAt := lastHeadCheckAt row.2 |}.

Definition hasHeadRechecksDue (checkedBefore : Z) (d : Db) : bool :=
  existsb (fun '(_, p) => match lastHeadCheckAt p with None => true | Some t => t <=? checkedBefore end) (liveScans d).

Definition uncheckedAfter (headBlock afterCollectionId : Z) (d : Db) : list SyncGapHeadCheckPosition :=
  map positionOf
    (orderBy (fun a b => a.1 <? b.1)
       (List.filter (fun '(id, p) => (anchorBlock p <=? headBlock) && bool_decide (lastHeadCheckAt p = None)
                                     && (afterCollectionId <? id)) (liveScans d))).

(** [(s.last_head_check_at, s.collection_id) > (@afterHeadCheckAt, @afterCollectionId)] *)
Definition checkedBeforeKey (a b : Z * Z) : bool := (a.1 <? b.1) || (a.1 =? b.1) && (a.2 <? b.2).

Definition checkKey (row : Z * SyncGapProgress) : Z * Z :=
  (match lastHeadCheckAt row.2 with Some t => t | None => -1 end, row.1).

Definition dueAfter (headBlock checkedBefore : Z) (after : Z * Z) (d : Db) : list SyncGapHeadCheckPosition :=
  map positionOf
    (orderBy (fun a b => checkedBeforeKey (checkKey a) (checkKey b))
       (List.filter (fun row => (anchorBlock row.2 <=? headBlock)
                                && match lastHeadCheckAt row.2 with
                                   | Some t => (t <=? checkedBefore) && checkedBeforeKey after (t, row.1)
                                   | None => false
                                   end) (liveScans d))).

Definition listHeadRechecksAfter (checkedBefore headBlock : Z) (limit : nat)
    (after : option SyncGapHeadCheckPosition) (d : Db) : list SyncGapHeadCheckPosition :=
  let unchecked :=
    match after with
    | None => firstn limit (uncheckedAfter headBlock 0 d)
    | Some {| hc_collectionId := id; hc_lastHeadCheckAt := None |} => firstn limit (uncheckedAfter headBlock id d)
    | Some {| hc_lastHeadCheckAt := Some _ |} => []
    end in
  let due :=
    if (length unchecked <? limit)%nat
    then firstn (limit - length unchecked)
           (dueAfter headBlock checkedBefore
              (match after with
               | Some {| hc_collectionId := id; hc_lastHeadCheckAt := Some t |} => (t, id)
               | _ => (-1, 0)
               end) d)
    else [] in
  unchecked ++ due.

(** [listCollectionsForGapRepair] (infra/collections/sqlite.ts) *)
Definition listCollectionsForGapRepair (afterCollectionId : Z) (limit : nat) (d : Db) : list CollectionRecord :=
  map snd
    (firstn limit
       (orderBy (fun a b => a.1 <? b.1)
          (List.filter (fun '(id, c) => bool_decide (col_status c = Live)
             && match col_bootstrapAnchorBlock c with Some a => 1 <=? a | None => false end
             && (afterCollectionId <? id)) (map_to_list (db_collections d))))).

End GapRepair.
