(* ===== verification/GapRepairClaims.v ===== *)
(** * Repair of missing history: searches and batches

    [IsNewestGap] says what both searches look for; [findGap_spec] and
    [findNewestGap_spec] that they find it.  The batches share only what every
    member misses. *)

From S2P Require Import Prelude JsValue OrderBy Chain Ledger SyncDb GapRepair.
From Stdlib Require Import Sorted Permutation.
Import Chain Ledger SyncDb GapRepair.

Open Scope Z_scope.

Module GapRepairClaims.

(** ** The newest gap of a window *)

(** The highest missing range, cut to [batchSize] blocks. *)
Record IsNewestGap (covered : gset Z) (from to batchSize : Z) (g : Range) : Prop := {
  ng_order : fromBlock g <= toBlock g;
  ng_inside : from <= fromBlock g /\ toBlock g <= to;
  ng_above : forall b, toBlock g < b <= to -> b ∈ covered;
  ng_missing : forall b, fromBlock g <= b <= toBlock g -> b ∉ covered;
  ng_size : toBlock g - fromBlock g + 1 <= batchSize;
  ng_maximal : fromBlock g = from \/ fromBlock g = toBlock g - batchSize + 1 \/ fromBlock g - 1 ∈ covered;
}.

Definition NewestGap (covered : gset Z) (from to batchSize : Z) (found : option Range) : Prop :=
  match found with
  | None => forall b, from <= b <= to -> b ∈ covered
  | Some g => IsNewestGap covered from to batchSize g
  end.

Lemma NewestGap_unique covered from to batchSize x y :
  NewestGap covered from to batchSize x -> NewestGap covered from to batchSize y -> x = y.
Proof.
  assert (forall g, IsNewestGap covered from to batchSize g -> (forall b, from <= b <= to -> b ∈ covered) -> False) as Hno.
  { intros g [? ? ? Hm ? ?] Hall. apply (Hm (toBlock g)); [lia|]. apply Hall. lia. }
  destruct x as [g1|], y as [g2|]; simpl; intros H1 H2; [|by exfalso; eauto|by exfalso; eauto|done].
  f_equal. destruct H1 as [o1 [i1 j1] a1 m1 s1 x1], H2 as [o2 [i2 j2] a2 m2 s2 x2].
  assert (toBlock g1 = toBlock g2) as Et.
  { destruct (Z.lt_trichotomy (toBlock g1) (toBlock g2)) as [Hl|[|Hl]]; [|done|]; exfalso.
    - apply (m2 (toBlock g2)); [lia|]. apply a1. lia.
    - apply (m1 (toBlock g1)); [lia|]. apply a2. lia. }
  assert (fromBlock g1 = fromBlock g2) as Ef.
  { destruct (Z.lt_trichotomy (fromBlock g1) (fromBlock g2)) as [Hl|[|Hl]]; [|done|]; exfalso.
    - destruct x2 as [?|[?|Hc]]; [lia|lia|]. apply (m1 (fromBlock g2 - 1)); [lia|done].
    - destruct x1 as [?|[?|Hc]]; [lia|lia|]. apply (m2 (fromBlock g1 - 1)); [lia|done]. }
  destruct g1, g2; simpl in *; congruence.
Qed.

Lemma findGapRows_spec covered batchSize n c cursor :
  1 <= batchSize -> c <= cursor -> (forall b, c < b <= cursor -> b ∉ covered) ->
  NewestGap covered (c - Z.of_nat n + 1) cursor batchSize
    (findGapRows (List.filter (fun b => bool_decide (b ∈ covered)) (downFrom n c))
       (c - Z.of_nat n + 1) batchSize cursor).
Proof.
  intros Hbs. revert c cursor. induction n as [|n IH]; intros c cursor Hc Hmiss.
  - simpl. replace (c - Z.of_nat 0 + 1) with (c + 1) by lia. destruct (Z.ltb_spec cursor (c + 1)); simpl.
    + intros b Hb. lia.
    + constructor; simpl; try lia. intros b Hb. apply Hmiss. lia.
  - simpl. replace (c - Z.of_nat (S n) + 1) with (c - 1 - Z.of_nat n + 1) by lia.
    case_bool_decide as Hcov; simpl.
    + destruct (Z.ltb_spec c cursor); simpl.
      * constructor; simpl; try lia.
        -- intros b Hb. apply Hmiss. lia.
        -- destruct (Z.max_spec (c + 1) (cursor - batchSize + 1)) as [[_ ->]|[_ ->]]; [auto|].
           right; right. by replace (c + 1 - 1) with c by lia.
      * assert (cursor = c) as -> by lia.
        specialize (IH (c - 1) (c - 1)). destruct (findGapRows _ _ _ (c - 1)) as [g|]; simpl in *.
        -- destruct IH as [? [] Ha ? ? ?]; [lia|lia|]. constructor; try lia; try done.
           intros b Hb. destruct (decide (b = c)) as [->|]; [done|]. apply Ha. lia.
        -- intros b Hb. destruct (decide (b = c)) as [->|]; [done|]. apply IH; lia.
    + apply IH; [lia|]. intros b Hb. destruct (decide (b = c)) as [->|]; [done|]. apply Hmiss. lia.
Qed.

Lemma findGap_spec covered window batchSize :
  1 <= batchSize ->
  NewestGap covered (fromBlock window) (toBlock window) batchSize (findGap covered window batchSize).
Proof.
  intros Hbs. unfold findGap, selectCoverage.
  destruct (Z.le_gt_cases (fromBlock window) (toBlock window + 1)) as [Hle|Hgt].
  - pose proof (findGapRows_spec covered batchSize (Z.to_nat (toBlock window - fromBlock window + 1))
                  (toBlock window) (toBlock window) Hbs) as H.
    rewrite Z2Nat.id in H by lia.
    replace (toBlock window - (toBlock window - fromBlock window + 1) + 1) with (fromBlock window) in H by lia.
    apply H; [lia|]. intros b Hb. lia.
  - replace (Z.to_nat (toBlock window - fromBlock window + 1)) with O by lia. simpl.
    rewrite (proj2 (Z.ltb_lt _ _)) by lia. simpl. intros b Hb. lia.
Qed.

(** *** Counting *)

Lemma selectCoverage_step covered from to : from <= to ->
  selectCoverage covered from to
  = (if bool_decide (to ∈ covered) then [to] else []) ++ selectCoverage covered from (to - 1).
Proof.
  intros Hle. unfold selectCoverage. replace (Z.to_nat (to - from + 1)) with (S (Z.to_nat (to - 1 - from + 1))) by lia.
  simpl. by case_bool_decide.
Qed.

Lemma countCoverage_spec covered from to : from <= to + 1 ->
  0 <= countCoverage covered from to <= to - from + 1 /\
  (countCoverage covered from to = to - from + 1 <-> forall b, from <= b <= to -> b ∈ covered) /\
  (countCoverage covered from to = 0 <-> forall b, from <= b <= to -> b ∉ covered).
Proof.
  intros Hle. remember (Z.to_nat (to - from + 1)) as n eqn:En. revert to Hle En.
  induction n as [|n IH]; intros to Hle En.
  - assert (to = from - 1) as -> by lia. unfold countCoverage, selectCoverage.
    replace (Z.to_nat (from - 1 - from + 1)) with O by lia. simpl. split_and!; [lia|lia| |].
    + split; [intros _ b Hb; lia|intros _; lia].
    + split; [intros _ b Hb; lia|done].
  - destruct (IH (to - 1)) as (Hb & Hfull & Hnone); [lia|lia|].
    unfold countCoverage in *. rewrite selectCoverage_step by lia. case_bool_decide as Hc; simpl.
    + split_and!; [lia|lia| |].
      * split.
        -- intros E b Hr. destruct (decide (b = to)) as [->|]; [done|]. apply Hfull; lia.
        -- intros Hall. assert (Z.of_nat (length (selectCoverage covered from (to - 1))) = to - 1 - from + 1); [|lia].
           apply Hfull. intros b Hr. apply Hall. lia.
      * split; [lia|]. intros Hall. exfalso. apply (Hall to); [lia|done].
    + split_and!; [lia|lia| |].
      * split; [lia|]. intros Hall. exfalso. apply Hc, Hall. lia.
      * rewrite Hnone. split; intros H b Hr; [|apply H; lia].
        destruct (decide (b = to)) as [->|]; [done|]. apply H. lia.
Qed.

Lemma countCoverage_lt covered from to : from <= to + 1 ->
  countCoverage covered from to < to - from + 1 -> exists b, from <= b <= to /\ b ∉ covered.
Proof.
  intros Hle. remember (Z.to_nat (to - from + 1)) as n eqn:En. revert to Hle En.
  induction n as [|n IH]; intros to Hle En Hlt; [unfold countCoverage in Hlt; lia|].
  unfold countCoverage in *. rewrite selectCoverage_step in Hlt by lia. case_bool_decide as Hc; simpl in Hlt.
  - destruct (IH (to - 1)) as (b & Hb & Hn); [lia..|]. exists b. split; [lia|done].
  - exists to. split; [lia|done].
Qed.

(** The search ends on the highest missing block. *)
Lemma newestMissing_spec fuel covered from to :
  from <= to -> (Z.to_nat (to - from) <= fuel)%nat ->
  (exists b, from <= b <= to /\ b ∉ covered) ->
  let m := newestMissing fuel covered from to in
  from <= m <= to /\ (m ∉ covered) /\ forall b, m < b <= to -> b ∈ covered.
Proof.
  revert from to. induction fuel as [|fuel IH]; intros from to Hle Hf Hex; simpl.
  - assert (from = to) as -> by lia. destruct Hex as (b & Hb & Hn). assert (b = to) as -> by lia.
    split_and!; [lia|lia|done|intros; lia].
  - destruct (Z.ltb_spec from to) as [Hlt|Hge].
    2:{ assert (from = to) as -> by lia. destruct Hex as (b & Hb & Hn). assert (b = to) as -> by lia.
        split_and!; [lia|lia|done|intros; lia]. }
    assert (from < (from + to + 1) / 2 <= to) as Hm.
    { pose proof (Z.div_mod (from + to + 1) 2 ltac:(lia)). pose proof (Z.mod_pos_bound (from + to + 1) 2). lia. }
    remember ((from + to + 1) / 2) as middle eqn:Emid.
    destruct (countCoverage_spec covered middle to) as (Hr & Hfull & _); [lia|].
    destruct (Z.ltb_spec (countCoverage covered middle to) (to - middle + 1)) as [Hc|Hc].
    + destruct (IH middle to) as (H1 & H2 & H3); [lia|lia|apply countCoverage_lt; lia|].
      split_and!; [lia|lia|done|done].
    + assert (forall b, middle <= b <= to -> b ∈ covered) as Hall by (apply Hfull; lia).
      destruct (IH from (middle - 1)) as (H1 & H2 & H3); [lia|lia| |].
      * destruct Hex as (b & Hb & Hn). exists b. split; [|done].
        destruct (Z.lt_ge_cases b middle) as [|Hge]; [lia|]. exfalso. apply Hn, Hall. lia.
      * split_and!; [lia|lia|done|]. intros b Hb.
        destruct (Z.lt_ge_cases b middle) as [|Hge]; [apply H3; lia|apply Hall; lia].
Qed.

Lemma findNewestGap_spec covered window batchSize :
  1 <= batchSize ->
  NewestGap covered (fromBlock window) (toBlock window) batchSize (findNewestGap covered window batchSize).
Proof.
  intros Hbs. unfold findNewestGap. destruct window as [from to]. simpl.
  destruct (Z.le_gt_cases from (to + 1)) as [Hle|Hgt].
  2:{ assert (selectCoverage covered from to = []) as Es.
      { unfold selectCoverage. by replace (Z.to_nat (to - from + 1)) with O by lia. }
      assert (countCoverage covered from to = 0) as Ec by (unfold countCoverage; by rewrite Es).
      rewrite Ec. destruct (Z.eqb_spec 0 (to - from + 1)); [lia|]. change (0 <? 0) with false. cbv iota.
      pose proof (findGap_spec covered {| fromBlock := Z.max from (to - batchSize + 1); toBlock := to |} batchSize Hbs) as H.
      simpl in H. destruct (findGap _ _ _) as [g|]; simpl in *; [|intros b Hb; lia].
      destruct H as [? [] ? ? ? ?]. lia. }
  destruct (countCoverage_spec covered from to Hle) as (Hr & Hfull & Hnone).
  destruct (Z.eqb_spec (countCoverage covered from to) (to - from + 1)) as [E|E]; [exact (proj1 Hfull E)|].
  assert (exists m, (if 0 <? countCoverage covered from to then newestMissing (Z.to_nat (to - from)) covered from to else to) = m
            /\ from <= m <= to /\ (m ∉ covered) /\ forall b, m < b <= to -> b ∈ covered) as (m & -> & Hm & Hmiss & Habove).
  { eexists. split; [done|]. destruct (Z.ltb_spec 0 (countCoverage covered from to)) as [Hpos|Hzero].
    - apply newestMissing_spec; [lia|lia|]. apply countCoverage_lt; lia.
    - split; [lia|]. split; [|intros b Hb; lia]. apply Hnone; lia. }
  pose proof (findGap_spec covered {| fromBlock := Z.max from (m - batchSize + 1); toBlock := m |} batchSize Hbs) as H.
  simpl in H. destruct (findGap _ _ _) as [g|]; simpl in H |- *.
  - destruct H as [o [i j] a mi s x].
    assert (toBlock g = m) as Et.
    { destruct (Z.lt_ge_cases (toBlock g) m) as [Hl|]; [|lia]. exfalso. apply Hmiss, a. lia. }
    constructor; try done; try lia.
    + intros b Hb. rewrite Et in Hb. apply Habove. lia.
    + destruct x as [x|x]; [|by right]. rewrite Et. lia.
  - exfalso. apply Hmiss, H. lia.
Qed.

(** C24: The search of a long window by counting and halving finds what the row-by-row
    search of the same window finds, and both find the newest gap: nothing when every
    block is covered, otherwise the highest missing range, cut to the batch size, with
    everything above it covered and nothing of it covered. *)
Theorem newest_gap_exact covered window batchSize :
  1 <= batchSize ->
  findNewestGap covered window batchSize = findGap covered window batchSize /\
  match findNewestGap covered window batchSize with
  | None => forall b, fromBlock window <= b <= toBlock window -> b ∈ covered
  | Some g =>
      fromBlock window <= fromBlock g <= toBlock g /\ toBlock g <= toBlock window
      /\ toBlock g - fromBlock g + 1 <= batchSize
      /\ (forall b, toBlock g < b <= toBlock window -> b ∈ covered)
      /\ (forall b, fromBlock g <= b <= toBlock g -> b ∉ covered)
      /\ (fromBlock g = fromBlock window \/ toBlock g - fromBlock g + 1 = batchSize \/ fromBlock g - 1 ∈ covered)
  end.
Proof.
  intros Hbs. pose proof (findGap_spec covered window batchSize Hbs) as H1.
  pose proof (findNewestGap_spec covered window batchSize Hbs) as H2. split.
  - by eapply NewestGap_unique.
  - destruct (findNewestGap covered window batchSize) as [g|]; simpl in H2; [|done].
    destruct H2 as [? [] ? ? ? Hm]. split_and!; try lia; try done.
    destruct Hm as [?|[?|?]]; [by left|right; left; lia|by right; right].
Qed.

Definition covered20 : gset Z := list_to_set [20; 19; 16; 11; 10].

Lemma newest_gap_exact_witness :
  findNewestGap covered20 {| fromBlock := 10; toBlock := 20 |} 5 = Some {| fromBlock := 17; toBlock := 18 |}.
Proof.
  destruct (newest_gap_exact covered20 {| fromBlock := 10; toBlock := 20 |} 5) as [-> _]; [lia|].
  vm_compute. reflexivity.
Defined.

(** ** Batches *)

Lemma takeMembers_spec to from members pendings from' members' rest :
  takeMembers to from members pendings = (from', members', rest) ->
  exists taken, pendings = taken ++ rest /\ members' = members ++ map c_repair taken
    /\ Forall (fun c => toBlock (c_missing c) = to /\ fromBlock (c_missing c) <= from') taken
    /\ from <= from' /\ (from' = from \/ exists c, In c taken /\ from' = fromBlock (c_missing c))
    /\ match rest with [] => True | c :: _ => toBlock (c_missing c) <> to end.
Proof.
  revert from members. induction pendings as [|next pendings IH]; simpl; intros from members H.
  - injection H as <- <- <-. exists []. simpl. rewrite ?(app_nil_r members). split_and!; try done; try lia; try (by left); constructor.
  - destruct (Z.eqb_spec (toBlock (c_missing next)) to) as [E|E].
    + destruct (IH _ _ H) as (taken & -> & -> & Hall & Hle & Hex & Hrest). exists (next :: taken).
      rewrite <- app_assoc. simpl. split_and!; [done|done| |lia| |done].
      * constructor; [split; [done|lia]|done].
      * destruct Hex as [Hex|(c & Hin & Hc)]; [|right; eauto].
        destruct (Z.max_spec from (fromBlock (c_missing next))) as [[_ Em]|[_ Em]]; rewrite Em in Hex; eauto.
    + injection H as <- <- <-. exists []. simpl. rewrite ?(app_nil_r members). split_and!; try done; try lia; try (by left); constructor.
Qed.

(** What one batch is, in terms of the candidates it was made of. *)
Definition BatchOf (batchSize : Z) (members : list SyncGapRepairCandidate) (b : SyncGapRepairBatch) : Prop :=
  let r := bt_range b in
  members <> [] /\ Permutation (bt_repairs b) (map c_repair members)
  /\ (fromBlock r <= toBlock r /\ toBlock r - fromBlock r + 1 <= batchSize)
  /\ (forall c, In c members -> toBlock (c_missing c) = toBlock r /\ fromBlock (c_missing c) <= fromBlock r)
  /\ (toBlock r - fromBlock r + 1 = batchSize \/ exists c, In c members /\ fromBlock r = fromBlock (c_missing c)).

Definition heightOrder (a b : SyncGapRepairCandidate) : Prop := toBlock (c_missing b) <= toBlock (c_missing a).

Lemma planBatches_spec fuel batchSize pendings :
  1 <= batchSize -> (length pendings <= fuel)%nat ->
  Forall (fun c => fromBlock (c_missing c) <= toBlock (c_missing c)) pendings ->
  StronglySorted heightOrder pendings ->
  exists groups, concat groups = pendings
    /\ Forall2 (BatchOf batchSize) groups (planBatches fuel batchSize pendings)
    /\ StronglySorted (fun a b => toBlock (bt_range b) < toBlock (bt_range a)) (planBatches fuel batchSize pendings).
Proof.
  intros Hbs. revert pendings. induction fuel as [|fuel IH]; intros pendings Hf Hne Hs.
  - destruct pendings; [|simpl in Hf; lia]. exists []. split_and!; constructor.
  - destruct pendings as [|first rest0]; [exists []; split_and!; constructor|]. simpl.
    destruct (takeMembers _ _ _ rest0) as [[from members] rest] eqn:E.
    destruct (takeMembers_spec _ _ _ _ _ _ _ E) as (taken & -> & -> & Hall & Hle & Hex & Hrest).
    apply StronglySorted_inv in Hs as [Hs Hfirst]. apply Forall_app in Hfirst as [_ Hfirst].
    apply Forall_cons in Hne as [Hne1 Hne]. apply Forall_app in Hne as [Hnet Hne].
    assert (StronglySorted heightOrder rest) as Hsr.
    { clear -Hs. induction taken as [|c taken IHt]; [done|]. by apply StronglySorted_inv in Hs as [Hs _]; auto. }
    destruct (IH rest) as (groups & Hc & HF & Hsb); [simpl in Hf; rewrite length_app in Hf; lia|done|done|].
    exists ((first :: taken) :: groups). split_and!; [by simpl; rewrite Hc| |].
    + constructor; [|done]. rewrite Forall_forall in Hall, Hnet. unfold BatchOf. simpl.
      assert (forall c, In c (first :: taken) -> toBlock (c_missing c) = toBlock (c_missing first)
                        /\ fromBlock (c_missing c) <= from) as Hmem.
      { intros c [<-|Hin]; [split; [done|lia]|]. by apply Hall, list_elem_of_In. }
      split_and!; [done| | | |exact Hmem|].
      * apply (orderBy_perm repairBefore (c_repair first :: map c_repair taken)).
      * destruct Hex as [->|(c & Hin & ->)]; [lia|]. pose proof (Hmem c (or_intror Hin)) as [Ht _].
        rewrite <- Ht. apply Hnet. by apply list_elem_of_In.
      * lia.
      * destruct Hex as [->|(c & Hin & ->)]; [|right; exists c; auto].
        destruct (Z.max_spec (fromBlock (c_missing first)) (toBlock (c_missing first) - batchSize + 1)) as [[_ ->]|[_ ->]];
          [left; lia|right; exists first; auto].
    + constructor; [done|]. simpl.
      assert (forall c, In c rest -> toBlock (c_missing c) < toBlock (c_missing first)) as Hlt.
      { intros c Hin. destruct rest as [|c0 rest]; [done|]. rewrite Forall_forall in Hfirst.
        assert (toBlock (c_missing c0) <= toBlock (c_missing first)) by (apply Hfirst; left).
        destruct Hin as [<-|Hin]; [lia|]. apply StronglySorted_inv in Hsr as [_ Hsr].
        rewrite Forall_forall in Hsr. apply list_elem_of_In in Hin. specialize (Hsr _ Hin).
        unfold heightOrder in Hsr. lia. }
      clear -HF Hc Hlt. subst rest. induction HF as [|g b gs bs Hg HF IHF]; constructor.
      * destruct Hg as (Hn & _ & _ & Hm & _). destruct g as [|c g]; [done|].
        destruct (Hm c (or_introl eq_refl)) as [<- _]. apply Hlt. by left.
      * apply IHF. intros c Hin. apply Hlt. simpl. apply in_app_iff. by right.
Qed.

(** The plan of repairs takes up every candidate in exactly one batch, newest batch
    first.  A batch is not empty nor longer than the batch size, ends where every
    member's missing range ends, starts inside the missing range of every member, and
    is as long as that allows: it never fetches a block a member already has. *)
Theorem gap_batches_sound candidates batchSize batches :
  planSyncGapRepairBatches candidates batchSize = Ok batches ->
  Forall (fun c => fromBlock (c_missing c) <= toBlock (c_missing c)) candidates ->
  Permutation (concat (map bt_repairs batches)) (map c_repair candidates) /\
  StronglySorted (fun a b => toBlock (bt_range b) < toBlock (bt_range a)) batches /\
  forall b, In b batches ->
    bt_repairs b <> [] /\
    fromBlock (bt_range b) <= toBlock (bt_range b) /\
    toBlock (bt_range b) - fromBlock (bt_range b) + 1 <= batchSize /\
    (forall repair, In repair (bt_repairs b) -> exists c,
       In c candidates /\ c_repair c = repair /\
       toBlock (c_missing c) = toBlock (bt_range b) /\ fromBlock (c_missing c) <= fromBlock (bt_range b)) /\
    (toBlock (bt_range b) - fromBlock (bt_range b) + 1 = batchSize \/
     exists c, In c candidates /\ In (c_repair c) (bt_repairs b) /\ fromBlock (bt_range b) = fromBlock (c_missing c)).
Proof.
  unfold planSyncGapRepairBatches. destruct (_ || _) eqn:E; [done|]. intros [= <-] Hne.
  apply orb_false_iff in E as [_ Hbs]. apply Z.ltb_ge in Hbs.
  destruct (planBatches_spec (length candidates) batchSize (orderBy candidateBefore candidates)) as (groups & Hc & HF & Hs).
  - done.
  - by rewrite orderBy_length.
  - by rewrite orderBy_perm.
  - apply orderBy_sorted; unfold heightOrder, candidateBefore.
    + intros a b. rewrite orb_true_iff, andb_true_iff, Z.ltb_lt, Z.eqb_eq. lia.
    + intros a b. rewrite orb_false_iff, andb_false_iff, Z.ltb_ge. lia.
    + intros a b c. lia.
  - split_and!; [|done|].
    + transitivity (map c_repair (concat groups)).
      2:{ rewrite Hc. apply Permutation_map, orderBy_perm. }
      clear -HF. induction HF as [|g b gs bs Hg HF IH]; simpl; [done|]. rewrite map_app, IH.
      by destruct Hg as (_ & -> & _).
    + intros b Hin. apply list_elem_of_In, list_elem_of_lookup in Hin as (i & Hi).
      destruct (Forall2_lookup_r _ _ _ _ _ HF Hi) as (g & Hg & Hn & Hp & [H1 H2] & Hm & Hmax).
      assert (forall c, In c g -> In c candidates) as Hsub.
      { intros c Hin. apply (orderBy_In candidateBefore). rewrite <- Hc. apply in_concat. exists g.
        split; [by apply list_elem_of_lookup_2, list_elem_of_In in Hg|done]. }
      split_and!; [|lia|lia| |].
      * intros Hnil. rewrite Hnil in Hp. apply Permutation_nil in Hp. by destruct g.
      * intros repair Hr. apply (Permutation_in _ Hp) in Hr. apply in_map_iff in Hr as (c & <- & Hin).
        exists c. destruct (Hm c Hin). auto.
      * destruct Hmax as [?|(c & Hin & ?)]; [by left|right]. exists c. split_and!; [auto| |done].
        apply (Permutation_in _ (Permutation_sym Hp)). by apply in_map.
Qed.

Definition candidate (id from to : Z) : SyncGapRepairCandidate := {|
  c_repair := {| g_collectionId := id; g_repairId := "r" ++ Z_toString id; g_anchorBlock := 1;
                 g_range := {| fromBlock := from; toBlock := to |} |};
  c_missing := {| fromBlock := from; toBlock := to |} |}.

Definition planned : list SyncGapRepairBatch :=
  match planSyncGapRepairBatches [candidate 1 10 20; candidate 2 30 40; candidate 3 36 40] 10 with
  | Ok bs => bs
  | Err _ => []
  end.

Lemma gap_batches_sound_witness :
  map bt_range planned = [{| fromBlock := 36; toBlock := 40 |}; {| fromBlock := 11; toBlock := 20 |}] /\
  length (concat (map bt_repairs planned)) = 3%nat.
Proof.
  split; [vm_compute; reflexivity|].
  destruct (gap_batches_sound [candidate 1 10 20; candidate 2 30 40; candidate 3 36 40] 10 planned) as (H & _ & _).
  - vm_compute. reflexivity.
  - repeat constructor; simpl; lia.
  - apply Permutation_length in H. exact H.
Defined.

End GapRepairClaims.
