(* ===== verification/GapScheduler.v ===== *)
(** * The scanner for missing history

    [SyncGapScheduler] (application/sync-gap-scheduler.ts): a process searches the
    history of every live collection from the head down, one bounded window and one
    bounded page of collections at a time, and keeps one range to repair per
    collection in the database; three kinds of recheck look at newer blocks first.

    The database is shared with the process that repairs: every call of a store first
    takes a turn of [w_env], in which the other process commits, reconciles or rolls
    back, or writes the tables the scanner does not read ([DbEvent]), the clock moves, and the call may throw.  The methods run
    without an [await], so nothing else happens in between.  Logs are left out, and
    the promise [active], which only lets a second caller share a scan. *)

From S2P Require Import Prelude JsValue OrderBy Chain Ledger Jobs QueueOutbox SyncDb GapRepair.
Import Chain Ledger QueueOutbox SyncDb GapRepair.

Open Scope Z_scope.

Module GapScheduler.

(** ** The rest of the world *)

Inductive DbEvent :=
  | EvPersist (collectionIds : list Z) (range : Range)
  | EvCommitRepair (repair : SyncGapRepairTarget) (batch : Range) (retryAt : Z)
  | EvReconcile (repair : SyncGapRepairTarget) (batchSize now : Z)
  | EvDefer (repair : SyncGapRepairTarget) (retryAt : Z)
  | EvRollback (from : Z)
  | EvCollection (id : Z) (collection : CollectionRecord)
  | EvElsewhere (blocks : gmap Z BlockRow) (recovery : option ReorgRecoveryState) (ledger : Ledger) (outbox : Outbox).

Definition coverRange (id : Z) (range : Range) (d : Db) : Db :=
  setCoverage d (<[id := list_to_set (downFrom (Z.to_nat (toBlock range - fromBlock range + 1)) (toBlock range))
                         ∪ coverageOf d id]> (db_coverage d)).

(** What the fences of a commit let through: the row still holds the repair, and the
    batch is a suffix of it. *)
Definition commitRepair (repair : SyncGapRepairTarget) (batch : Range) (retryAt : Z) (d : Db) : Db :=
  let progress := getProgress (g_collectionId repair) d in
  if hasAnchor progress (g_anchorBlock repair) && holdsRepair progress repair
     && (fromBlock (g_range repair) <=? fromBlock batch) && (toBlock batch =? toBlock (g_range repair))
  then (recordRepairProgress repair (remainingSyncGapRepairRange repair (fromBlock batch)) retryAt
          (coverRange (g_collectionId repair) batch d)).2
  else d.

Definition applyEvent (d : Db) (e : DbEvent) : Db :=
  match e with
  | EvPersist ids range => fold_left (fun d id => coverRange id range d) ids d
  | EvCommitRepair repair batch retryAt => commitRepair repair batch retryAt d
  | EvReconcile repair batchSize now => if 1 <=? batchSize then (reconcileRepairCoverage repair batchSize now d).2 else d
  | EvDefer repair retryAt => deferRetry repair retryAt d
  | EvRollback from => setRevision (deleteCoverageFromBlock from d) (db_revision d + 1)
  | EvCollection id c => setCollections d (<[id := c]> (db_collections d))
  | EvElsewhere blocks recovery ledger outbox => setOutbox (setLedger (setRecovery (setBlocks d blocks) recovery) ledger) outbox
  end.

(** What happens before one call, and whether the call throws. *)
Record Turn := { tn_events : list DbEvent; tn_now : Z; tn_throws : bool }.

(** ** The state of the scheduler *)

Record EligibleCheckTraversal := { et_upperBound : Z; et_afterCollectionId : Z; et_failed : bool }.

Record HeadCheckTraversal := { ht_checkedBefore : Z; ht_after : option SyncGapHeadCheckPosition }.

Record Checked := { ck_anchorBlock : Z; ck_upperBound : Z }.

Record Sched := {
  afterCollectionId : Z;
  resumeTraversal : option EligibleCheckTraversal;
  headCheckTraversal : option HeadCheckTraversal;
  eligibleTraversal : option EligibleCheckTraversal;
  eligibleCompletedBound : option Z;
  eligibleChecked : gmap Z Checked;
  roundHasOlderWindows : bool;
  roundHasUnfinishedCollections : bool;
  completed : gmap Z Z;
  cycleCompletedAt : option Z;
  restartFromHead : bool;
}.

Definition initSched : Sched := {|
  afterCollectionId := 0; resumeTraversal := None; headCheckTraversal := None; eligibleTraversal := None;
  eligibleCompletedBound := None; eligibleChecked := ∅; roundHasOlderWindows := false;
  roundHasUnfinishedCollections := false; completed := ∅; cycleCompletedAt := None; restartFromHead := false |}.

(** One field replaced. *)
Definition setAfter (x : Z) (s : Sched) : Sched := {|
  afterCollectionId := x; resumeTraversal := resumeTraversal s; headCheckTraversal := headCheckTraversal s;
  eligibleTraversal := eligibleTraversal s; eligibleCompletedBound := eligibleCompletedBound s;
  eligibleChecked := eligibleChecked s; roundHasOlderWindows := roundHasOlderWindows s;
  roundHasUnfinishedCollections := roundHasUnfinishedCollections s; completed := completed s;
  cycleCompletedAt := cycleCompletedAt s; restartFromHead := restartFromHead s |}.
Definition setResume (x : option EligibleCheckTraversal) (s : Sched) : Sched := {|
  afterCollectionId := afterCollectionId s; resumeTraversal := x; headCheckTraversal := headCheckTraversal s;
  eligibleTraversal := eligibleTraversal s; eligibleCompletedBound := eligibleCompletedBound s;
  eligibleChecked := eligibleChecked s; roundHasOlderWindows := roundHasOlderWindows s;
  roundHasUnfinishedCollections := roundHasUnfinishedCollections s; completed := completed s;
  cycleCompletedAt := cycleCompletedAt s; restartFromHead := restartFromHead s |}.
Definition setHeadCheck (x : option HeadCheckTraversal) (s : Sched) : Sched := {|
  afterCollectionId := afterCollectionId s; resumeTraversal := resumeTraversal s; headCheckTraversal := x;
  eligibleTraversal := eligibleTraversal s; eligibleCompletedBound := eligibleCompletedBound s;
  eligibleChecked := eligibleChecked s; roundHasOlderWindows := roundHasOlderWindows s;
  roundHasUnfinishedCollections := roundHasUnfinishedCollections s; completed := completed s;
  cycleCompletedAt := cycleCompletedAt s; restartFromHead := restartFromHead s |}.
Definition setEligible (x : option EligibleCheckTraversal) (s : Sched) : Sched := {|
  afterCollectionId := afterCollectionId s; resumeTraversal := resumeTraversal s;
  headCheckTraversal := headCheckTraversal s; eligibleTraversal := x;
  eligibleCompletedBound := eligibleCompletedBound s;
  eligibleChecked := eligibleChecked s; roundHasOlderWindows := roundHasOlderWindows s;
  roundHasUnfinishedCollections := roundHasUnfinishedCollections s; completed := completed s;
  cycleCompletedAt := cycleCompletedAt s; restartFromHead := restartFromHead s |}.
Definition setCompletedBound (x : option Z) (s : Sched) : Sched := {|
  afterCollectionId := afterCollectionId s; resumeTraversal := resumeTraversal s;
  headCheckTraversal := headCheckTraversal s; eligibleTraversal := eligibleTraversal s;
  eligibleCompletedBound := x;
  eligibleChecked := eligibleChecked s; roundHasOlderWindows := roundHasOlderWindows s;
  roundHasUnfinishedCollections := roundHasUnfinishedCollections s; completed := completed s;
  cycleCompletedAt := cycleCompletedAt s; restartFromHead := restartFromHead s |}.
Definition setChecked (x : gmap Z Checked) (s : Sched) : Sched := {|
  afterCollectionId := afterCollectionId s; resumeTraversal := resumeTraversal s;
  headCheckTraversal := headCheckTraversal s; eligibleTraversal := eligibleTraversal s;
  eligibleCompletedBound := eligibleCompletedBound s;
  eligibleChecked := x; roundHasOlderWindows := roundHasOlderWindows s;
  roundHasUnfinishedCollections := roundHasUnfinishedCollections s; completed := completed s;
  cycleCompletedAt := cycleCompletedAt s; restartFromHead := restartFromHead s |}.
Definition setRound (older unfinished : bool) (s : Sched) : Sched := {|
  afterCollectionId := afterCollectionId s; resumeTraversal := resumeTraversal s;
  headCheckTraversal := headCheckTraversal s; eligibleTraversal := eligibleTraversal s;
  eligibleCompletedBound := eligibleCompletedBound s;
  eligibleChecked := eligibleChecked s; roundHasOlderWindows := older;
  roundHasUnfinishedCollections := unfinished; completed := completed s;
  cycleCompletedAt := cycleCompletedAt s; restartFromHead := restartFromHead s |}.
Definition setCompleted (x : gmap Z Z) (cycle : option Z) (s : Sched) : Sched := {|
  afterCollectionId := afterCollectionId s; resumeTraversal := resumeTraversal s;
  headCheckTraversal := headCheckTraversal s; eligibleTraversal := eligibleTraversal s;
  eligibleCompletedBound := eligibleCompletedBound s;
  eligibleChecked := eligibleChecked s; roundHasOlderWindows := roundHasOlderWindows s;
  roundHasUnfinishedCollections := roundHasUnfinishedCollections s; completed := x;
  cycleCompletedAt := cycle; restartFromHead := restartFromHead s |}.
Definition setRestart (x : bool) (s : Sched) : Sched := {|
  afterCollectionId := afterCollectionId s; resumeTraversal := resumeTraversal s;
  headCheckTraversal := headCheckTraversal s; eligibleTraversal := eligibleTraversal s;
  eligibleCompletedBound := eligibleCompletedBound s;
  eligibleChecked := eligibleChecked s; roundHasOlderWindows := roundHasOlderWindows s;
  roundHasUnfinishedCollections := roundHasUnfinishedCollections s; completed := completed s;
  cycleCompletedAt := cycleCompletedAt s; restartFromHead := x |}.

(** [w_discoveryRevision] is the field of [AutomaticSyncExecutor] that makes it reset
    the scheduler after a rollback. *)
Record World := {
  w_db : Db;
  w_sched : Sched;
  w_discoveryRevision : option Z;
  w_now : Z;
  w_uuids : nat;
  w_env : list Turn;
}.

Definition setDb (d : Db) (w : World) : World := {|
  w_db := d; w_sched := w_sched w; w_discoveryRevision := w_discoveryRevision w; w_now := w_now w;
  w_uuids := w_uuids w; w_env := w_env w |}.
Definition setSched (s : Sched) (w : World) : World := {|
  w_db := w_db w; w_sched := s; w_discoveryRevision := w_discoveryRevision w; w_now := w_now w;
  w_uuids := w_uuids w; w_env := w_env w |}.

Local Open Scope artgod_scope.

(** One call of a store. *)
Definition call {A} (f : Db -> A * Db) : M World A := fun w =>
  match w_env w with
  | [] => let '(a, d) := f (w_db w) in (Ok a, setDb d w)
  | turn :: rest =>
      let w := {| w_db := fold_left applyEvent (tn_events turn) (w_db w); w_sched := w_sched w;
                  w_discoveryRevision := w_discoveryRevision w; w_now := tn_now turn; w_uuids := w_uuids w;
                  w_env := rest |} in
      if tn_throws turn then (Err "SQLITE_BUSY", w)
      else let '(a, d) := f (w_db w) in (Ok a, setDb d w)
  end.

(** A call that only reads. *)
Definition query {A} (f : Db -> A) : M World A := call (fun d => (f d, d)).

Definition sched : M World Sched := fun w => (Ok (w_sched w), w).
Definition update (f : Sched -> Sched) : M World unit := mmodify (fun w => setSched (f (w_sched w)) w).
Definition clock : M World Z := fun w => (Ok (w_now w), w).

Fixpoint forEach {A} (f : A -> M World unit) (l : list A) : M World unit :=
  match l with
  | [] => mret tt
  | x :: rest => do! f x in forEach f rest
  end.

(** ** The scheduler *)

Record SyncGapSchedulerOptions := {
  o_chainId : Z; o_batchSize : Z; windowSize : Z; pageSize : nat; headRecheckIntervalMs : Z;
}.

(** What the constructor accepts. *)
Definition validOptions (o : SyncGapSchedulerOptions) : bool :=
  (1 <=? o_batchSize o) && (1 <=? windowSize o) && (1 <=? Z.of_nat (pageSize o)) && (1 <=? headRecheckIntervalMs o).

Section Scheduler.
Context (options : SyncGapSchedulerOptions) (uuidText : nat -> string).

Definition randomUUID : M World string := fun w =>
  (Ok (uuidText (w_uuids w)),
   {| w_db := w_db w; w_sched := w_sched w; w_discoveryRevision := w_discoveryRevision w; w_now := w_now w;
      w_uuids := S (w_uuids w); w_env := w_env w |}).

Definition validHead (headBlock : Z) : bool := isSafeInteger headBlock && (1 <=? headBlock).

Definition progressForGap (collectionId anchor : Z) (gap : option Range) (headCheckAt : option Z)
    (scannedFromBlock : Z) : M World SyncGapProgress :=
  let nextCursor := match gap with Some g => fromBlock g | None => scannedFromBlock end - 1 in
  let cursor := if nextCursor <? anchor then None else Some nextCursor in
  match gap with
  | None => mret {| anchorBlock := anchor; cursorBlock := cursor; pending := None; lastHeadCheckAt := headCheckAt |}
  | Some g =>
      let! uuid := randomUUID in
      let! now := clock in
      mret {| anchorBlock := anchor; cursorBlock := cursor;
              pending := Some {| p_repairId := ("sync:gap:" ++ Z_toString (o_chainId options) ++ ":"
                                                ++ Z_toString collectionId ++ ":" ++ uuid)%string;
                                 p_range := g; p_retryAt := now |};
              lastHeadCheckAt := headCheckAt |}
  end.

Definition markChecked (id anchor upperBound : Z) : M World unit :=
  update (fun s => setChecked (<[id := {| ck_anchorBlock := anchor; ck_upperBound := upperBound |}]> (eligibleChecked s)) s).

(** [this.completed.delete(id); this.cycleCompletedAt = null] *)
Definition reopen (id : Z) : M World unit := update (fun s => setCompleted (delete id (completed s)) None s).

Definition markCompleted (id anchor : Z) : M World unit :=
  update (fun s => setCompleted (<[id := anchor]> (completed s)) (cycleCompletedAt s) s).

Definition withHeadCheck (p : SyncGapProgress) (t : Z) : SyncGapProgress := {|
  anchorBlock := anchorBlock p; cursorBlock := cursorBlock p; pending := pending p; lastHeadCheckAt := Some t |}.

Definition searchNewest (id from to : Z) : M World (option Range) :=
  if from <=? to
  then query (fun d => findNewestGap (coverageOf d id) {| fromBlock := from; toBlock := to |} (o_batchSize options))
  else mret None.

Definition retainNewestGap (collection : CollectionRecord) (headBlock : Z) (expected : option SyncGapProgress)
    : M World bool :=
  match gapRepairWindow collection headBlock, expected with
  | Some window, Some e =>
      if negb (anchorBlock e =? fromBlock window) then mret false else
      let anchor := fromBlock window in
      let from := Z.max anchor
        (match pending e, cursorBlock e with
         | Some p, _ => toBlock (p_range p)
         | None, Some c => c
         | None, None => anchor - 1
         end + 1) in
      let! gap := searchNewest (col_id collection) from headBlock in
      let! now := clock in
      let! progress := (match gap with
                        | Some g => progressForGap (col_id collection) anchor gap (Some now) from
                        | None => mret (withHeadCheck e now)
                        end) in
      let! saved := call (saveProgress (col_id collection) expected progress) in
      do! (if saved then markChecked (col_id collection) anchor headBlock else mret tt) in
      do! (match gap with
           | Some _ => if saved then reopen (col_id collection) else mret tt
           | None => if saved && bool_decide (pending e = None) && bool_decide (cursorBlock e = None)
                     then markCompleted (col_id collection) anchor else mret tt
           end) in
      mret (saved && match gap with Some _ => true | None => false end)
  | _, _ => mret false
  end.

(** [hasHeadRechecksDue] *)
Definition headRechecksDue : M World bool :=
  let! now := clock in query (hasHeadRechecksDue (now - headRecheckIntervalMs options)).

Definition hasCollections : M World bool :=
  query (fun d => match listCollectionsForGapRepair 0 1 d with [] => false | _ => true end).

(** *** Startup *)

Definition failResume : M World unit :=
  update (fun s => setResume ((fun t => {| et_upperBound := et_upperBound t;
    et_afterCollectionId := et_afterCollectionId t; et_failed := true |}) <$> resumeTraversal s) s).

Definition resumeOne (upperBound : Z) (collection : CollectionRecord) : M World unit :=
  do! update (fun s => setResume ((fun t => {| et_upperBound := et_upperBound t;
        et_afterCollectionId := col_id collection; et_failed := et_failed t |}) <$> resumeTraversal s) s) in
  mcatch
    (let! expected := query (getProgress (col_id collection)) in
     let! _ := retainNewestGap collection upperBound expected in
     let! s := sched in
     if match expected, gapRepairWindow collection upperBound with
        | Some e, Some window => anchorBlock e =? fromBlock window
        | _, _ => false
        end
        && (match eligibleChecked s !! col_id collection with Some c => ck_upperBound c | None => 0 end <? upperBound)
     then failResume else mret tt)
    (fun _ => failResume).

Definition recheckOnResume (headBlock : Z) : M World bool :=
  if negb (validHead headBlock) then mret false else
  let! s := sched in
  let traversal := default {| et_upperBound := headBlock; et_afterCollectionId := 0; et_failed := false |}
                     (resumeTraversal s) in
  let traversal := {| et_upperBound := Z.min (et_upperBound traversal) headBlock;
                      et_afterCollectionId := et_afterCollectionId traversal; et_failed := et_failed traversal |} in
  do! update (setResume (Some traversal)) in
  let! collections := query (listCollectionsForGapRepair (et_afterCollectionId traversal) (pageSize options)) in
  do! forEach (resumeOne (et_upperBound traversal)) collections in
  if (length collections =? pageSize options)%nat then mret true else
  let! s := sched in
  do! (if match resumeTraversal s with Some t => et_failed t | None => false end then mret tt
       else update (setCompletedBound (Some (et_upperBound traversal)))) in
  do! update (setResume None) in
  mret false.

(** *** Periodic recheck from the head *)

Definition recheckCollection (collection : CollectionRecord) (headBlock checkedBefore : Z) : M World bool :=
  let! expected := query (getProgress (col_id collection)) in
  if match expected with
     | Some {| lastHeadCheckAt := Some t |} => checkedBefore <? t
     | _ => false
     end
  then mret false
  else retainNewestGap collection headBlock expected.

Definition headRechecksAfter (headBlock : Z) (t : HeadCheckTraversal) : M World (list SyncGapHeadCheckPosition) :=
  query (listHeadRechecksAfter (ht_checkedBefore t) headBlock (pageSize options) (ht_after t)).

Fixpoint recheckAll (headBlock checkedBefore : Z) (checks : list SyncGapHeadCheckPosition) (replaced : bool)
    : M World bool :=
  match checks with
  | [] => mret replaced
  | check :: rest =>
      let! replaced := mcatch
        (let! collection := query (fun d => db_collections d !! hc_collectionId check) in
         match collection with
         | Some c => let! r := recheckCollection c headBlock checkedBefore in mret (r || replaced)
         | None => mret replaced
         end)
        (fun _ => mret replaced) in
      recheckAll headBlock checkedBefore rest replaced
  end.

Definition recheckFromHead (headBlock : Z) : M World bool :=
  if negb (validHead headBlock) then mret false else
  let! now := clock in
  let checkedBefore := now - headRecheckIntervalMs options in
  let! s := sched in
  let traversal := default {| ht_checkedBefore := checkedBefore; ht_after := None |} (headCheckTraversal s) in
  let! checks := headRechecksAfter headBlock traversal in
  let! chosen :=
    (match checks, ht_after traversal with
     | [], Some _ =>
         let traversal := {| ht_checkedBefore := checkedBefore; ht_after := None |} in
         let! checks := headRechecksAfter headBlock traversal in
         mret (traversal, checks)
     | _, _ => mret (traversal, checks)
     end) in
  let '(traversal, checks) := chosen in
  do! update (setHeadCheck
        (match last checks with
         | Some p => Some {| ht_checkedBefore := ht_checkedBefore traversal; ht_after := Some p |}
         | None => None
         end)) in
  recheckAll headBlock (ht_checkedBefore traversal) checks false.

(** *** Blocks that became old enough *)

Definition checkEligibleCollection (collection : CollectionRecord) (upperBound : Z) : M World bool :=
  match gapRepairWindow collection upperBound with
  | None => mret true
  | Some window =>
      let anchor := fromBlock window in
      let id := col_id collection in
      let! s := sched in
      let checked := eligibleChecked s !! id in
      if match checked with
         | Some c => (ck_anchorBlock c =? anchor) && (upperBound <=? ck_upperBound c)
         | None => false
         end
      then mret true else
      let! expected := query (getProgress id) in
      match expected with
      | None => mret true
      | Some e =>
          if negb (anchorBlock e =? anchor) then mret true else
          match checked with
          | Some c =>
              if ck_anchorBlock c =? anchor then
                let from := Z.max (Z.max anchor (ck_upperBound c + 1))
                              (match pending e with Some p => toBlock (p_range p) | None => 0 end + 1) in
                let! gap := searchNewest id from upperBound in
                let! ok :=
                  (match gap with
                   | None => mret true
                   | Some g =>
                       let! progress := progressForGap id anchor gap (lastHeadCheckAt e) from in
                       let! saved := call (saveProgress id expected progress) in
                       if saved then do! reopen id in mret true else mret false
                   end) in
                if ok then do! markChecked id anchor upperBound in mret true else mret false
              else
                let! _ := retainNewestGap collection upperBound expected in
                let! s := sched in
                mret (match eligibleChecked s !! id with Some c => ck_upperBound c =? upperBound | None => false end)
          | None =>
              let! _ := retainNewestGap collection upperBound expected in
              let! s := sched in
              mret (match eligibleChecked s !! id with Some c => ck_upperBound c =? upperBound | None => false end)
          end
      end
  end.

Definition failEligible : M World unit :=
  update (fun s => setEligible ((fun t => {| et_upperBound := et_upperBound t;
    et_afterCollectionId := et_afterCollectionId t; et_failed := true |}) <$> eligibleTraversal s) s).

Definition eligibleOne (upperBound : Z) (collection : CollectionRecord) : M World unit :=
  do! update (fun s => setEligible ((fun t => {| et_upperBound := et_upperBound t;
        et_afterCollectionId := col_id collection; et_failed := et_failed t |}) <$> eligibleTraversal s) s) in
  mcatch
    (let! ok := checkEligibleCollection collection upperBound in
     if ok then mret tt else failEligible)
    (fun _ => failEligible).

Definition recheckNewlyEligible (headBlock : Z) : M World bool :=
  if negb (validHead headBlock) then mret false else
  do! update (fun s => match eligibleTraversal s with
                       | Some t => if headBlock <? et_upperBound t then setEligible None s else s
                       | None => s
                       end) in
  let! s := sched in
  if match eligibleTraversal s, eligibleCompletedBound s with
     | None, Some bound => headBlock <=? bound
     | _, _ => false
     end
  then mret false else
  let traversal := default {| et_upperBound := headBlock; et_afterCollectionId := 0; et_failed := false |}
                     (eligibleTraversal s) in
  do! update (setEligible (Some traversal)) in
  let! collections := query (listCollectionsForGapRepair (et_afterCollectionId traversal) (pageSize options)) in
  do! forEach (eligibleOne (et_upperBound traversal)) collections in
  if (length collections =? pageSize options)%nat then mret true else
  let! s := sched in
  do! (if match eligibleTraversal s with Some t => et_failed t | None => false end then mret tt
       else update (setCompletedBound (Some (et_upperBound traversal)))) in
  do! update (setEligible None) in
  mret (et_upperBound traversal <? headBlock).

(** *** Discovery *)

Definition resetDiscovery : M World unit :=
  update (fun s => {|
    afterCollectionId := 0; resumeTraversal := None; headCheckTraversal := headCheckTraversal s;
    eligibleTraversal := None; eligibleCompletedBound := None; eligibleChecked := ∅;
    roundHasOlderWindows := false; roundHasUnfinishedCollections := false; completed := ∅;
    cycleCompletedAt := None; restartFromHead := true |}).

Definition unfinished : M World unit := update (fun s => setRound (roundHasOlderWindows s) true s).

(** [this.roundHasUnfinishedCollections = true; this.cycleCompletedAt = null], or the
    search of this collection is over. *)
Definition noteCursor (id anchor : Z) (cursor : option Z) : M World unit :=
  match cursor with
  | None => markCompleted id anchor
  | Some _ => do! unfinished in update (fun s => setCompleted (completed s) None s)
  end.

Definition scanCollection (collection : CollectionRecord) (headBlock : Z) : M World bool :=
  match gapRepairWindow collection headBlock with
  | None => mret false
  | Some window =>
      let anchor := fromBlock window in
      let id := col_id collection in
      let! expected := query (getProgress id) in
      let fresh := {| anchorBlock := anchor; cursorBlock := None; pending := None; lastHeadCheckAt := None |} in
      let known := match expected with Some e => anchorBlock e =? anchor | None => false end in
      do! (if known then mret tt else reopen id) in
      let progress := if known then default fresh expected else fresh in
      let! s := sched in
      if bool_decide (completed s !! id = Some anchor) then mret false else
      match pending progress with
      | None =>
          let cursor := if restartFromHead s then None else cursorBlock progress in
          let stop := Z.min (default headBlock cursor) headBlock in
          let scanWindow := {| fromBlock := Z.max anchor (stop - windowSize options + 1); toBlock := stop |} in
          let! gap := query (fun d => findGap (coverageOf d id) scanWindow (o_batchSize options)) in
          let! now := clock in
          let headCheckAt := match cursor with None => Some now | Some _ => lastHeadCheckAt progress end in
          let! progress := progressForGap id anchor gap headCheckAt (fromBlock scanWindow) in
          let! saved := call (saveProgress id expected progress) in
          if negb saved then do! unfinished in mret false else
          do! (match cursor with None => markChecked id anchor headBlock | Some _ => mret tt end) in
          do! noteCursor id anchor (cursorBlock progress) in
          mret (match pending progress, cursorBlock progress with None, Some _ => true | _, _ => false end)
      | Some _ =>
          do! noteCursor id anchor (cursorBlock progress) in
          mret false
      end
  end.

Definition scanOne (headBlock : Z) (collection : CollectionRecord) : M World unit :=
  do! update (setAfter (col_id collection)) in
  mcatch
    (let! older := scanCollection collection headBlock in
     update (fun s => setRound (older || roundHasOlderWindows s) (roundHasUnfinishedCollections s) s))
    (fun _ => mret tt).

Definition scanPage (headBlock : Z) : M World bool :=
  if negb (validHead headBlock) then mret false else
  let! s := sched in
  let! collections := query (listCollectionsForGapRepair (afterCollectionId s) (pageSize options)) in
  do! forEach (scanOne headBlock) collections in
  if (length collections =? pageSize options)%nat then mret true else
  do! update (setAfter 0) in
  do! update (setRestart false) in
  let! s := sched in
  let! now := clock in
  do! (if roundHasUnfinishedCollections s then mret tt
       else update (fun s => setCompleted (completed s)
              (match cycleCompletedAt s with Some t => Some t | None => Some now end) s)) in
  do! update (setRound false false) in
  mret (roundHasOlderWindows s).

Definition scan (headBlock : Z) : M World bool :=
  let! s := sched in
  let! now := clock in
  do! (match cycleCompletedAt s with
       | Some t => if headRecheckIntervalMs options <=? now - t then resetDiscovery else mret tt
       | None => mret tt
       end) in
  scanPage headBlock.

(** ** The caller's guard

    [AutomaticSyncExecutor.run]: the revision is read before the scheduler is used, and
    a change resets it. *)
Definition beginPass : M World unit :=
  let! revision := query db_revision in
  do! (fun w => match w_discoveryRevision w with
                | Some r => if revision =? r then mret tt w else resetDiscovery w
                | None => mret tt w
                end) in
  mmodify (fun w => {| w_db := w_db w; w_sched := w_sched w; w_discoveryRevision := Some revision;
                       w_now := w_now w; w_uuids := w_uuids w; w_env := w_env w |}).

(** A new process: its scheduler knows nothing. *)
Definition restart (w : World) : World := {|
  w_db := w_db w; w_sched := initSched; w_discoveryRevision := None; w_now := w_now w;
  w_uuids := w_uuids w; w_env := w_env w |}.

End Scheduler.

End GapScheduler.
