(* ===== verification/GapSchedulerInv.v ===== *)
(** * The scanner for missing history: its invariant

    A row accounts for the blocks of a search: each is covered, still below the cursor,
    or inside the range to repair.  [EnvLe] is what the other process may do to the
    tables between two calls; every event does no more ([applyEvent_le]).  The rest is
    a small program logic over calls and updates. *)

From S2P Require Import Prelude JsValue OrderBy Chain Ledger SyncDb GapRepair GapRepairClaims GapScheduler.
Import Chain Ledger SyncDb GapRepair GapRepairClaims GapScheduler.

Open Scope Z_scope.

Module GapSchedulerInv.

(** ** Rows *)

(** A range to repair starts right above the cursor, or at the anchor when the search
    has ended. *)
Definition rowOk (p : SyncGapProgress) : Prop :=
  match cursorBlock p with Some c => anchorBlock p <= c | None => True end /\
  match pending p with
  | Some q => fromBlock (p_range q) <= toBlock (p_range q) /\
              fromBlock (p_range q) = match cursorBlock p with Some c => c + 1 | None => anchorBlock p end
  | None => True
  end.

Definition accountedAt (covered : gset Z) (p : SyncGapProgress) (b : Z) : Prop :=
  b ∈ covered
  \/ match cursorBlock p with Some c => b <= c | None => False end
  \/ match pending p with Some q => fromBlock (p_range q) <= b <= toBlock (p_range q) | None => False end.

Definition Accounted (covered : gset Z) (p : SyncGapProgress) (upperBound : Z) : Prop :=
  forall b, anchorBlock p <= b <= upperBound -> accountedAt covered p b.

(** ** The other process *)

Definition RowLe (same : Prop) (covered covered' : gset Z) (row row' : option SyncGapProgress) : Prop :=
  match row, row' with
  | None, None => True
  | Some p, Some p' =>
      anchorBlock p' = anchorBlock p /\ cursorBlock p' = cursorBlock p /\ (rowOk p -> rowOk p') /\
      (same -> forall b, accountedAt covered p b -> accountedAt covered' p' b)
  | _, _ => False
  end.

Definition EnvLe (d d' : Db) : Prop :=
  db_revision d <= db_revision d' /\
  (forall id, RowLe (db_revision d = db_revision d') (coverageOf d id) (coverageOf d' id)
                (db_scans d !! id) (db_scans d' !! id)) /\
  (db_revision d = db_revision d' -> forall id, coverageOf d id ⊆ coverageOf d' id).

Lemma RowLe_grow (same : Prop) covered covered' row :
  (same -> covered ⊆ covered') -> RowLe same covered covered' row row.
Proof.
  intros H. destruct row as [p|]; simpl; [|done]. split_and!; [done..|].
  intros Hs b [?|?]; [left; by apply (H Hs)|by right].
Qed.

Lemma EnvLe_refl d : EnvLe d d.
Proof. split_and!; [lia| |done]. intros id. by apply RowLe_grow. Qed.

Lemma EnvLe_trans d1 d2 d3 : EnvLe d1 d2 -> EnvLe d2 d3 -> EnvLe d1 d3.
Proof.
  intros (Hr1 & Hrow1 & Hc1) (Hr2 & Hrow2 & Hc2). split_and!; [lia| |].
  - intros id. specialize (Hrow1 id). specialize (Hrow2 id). unfold RowLe in *.
    destruct (db_scans d1 !! id) as [p1|], (db_scans d2 !! id) as [p2|], (db_scans d3 !! id) as [p3|]; try done.
    destruct Hrow1 as (Ha1 & Hcu1 & Ho1 & Hac1), Hrow2 as (Ha2 & Hcu2 & Ho2 & Hac2).
    split_and!; [congruence|congruence|auto|]. intros E b Hb. apply Hac2; [lia|]. apply Hac1; [lia|done].
  - intros E id. transitivity (coverageOf d2 id); [apply Hc1|apply Hc2]; lia.
Qed.

(** *** Coverage grows *)

Lemma elem_of_downFrom n to b : b ∈ downFrom n to <-> to - Z.of_nat n < b <= to.
Proof.
  revert to. induction n as [|n IH]; intros to; simpl.
  - rewrite elem_of_nil. lia.
  - rewrite elem_of_cons, IH. lia.
Qed.

Lemma elem_of_coverRange id range d id' b :
  b ∈ coverageOf (coverRange id range d) id'
  <-> b ∈ coverageOf d id' \/ id' = id /\ fromBlock range <= b <= toBlock range.
Proof.
  unfold coverRange, coverageOf at 1, setCoverage. simpl. destruct (decide (id = id')) as [->|Hne].
  - rewrite lookup_insert_eq, elem_of_union, elem_of_list_to_set, elem_of_downFrom. unfold coverageOf.
    assert (toBlock range - Z.of_nat (Z.to_nat (toBlock range - fromBlock range + 1)) < b <= toBlock range
            <-> fromBlock range <= b <= toBlock range) by lia. tauto.
  - rewrite lookup_insert_ne by done. unfold coverageOf. intuition congruence.
Qed.

Lemma coverRange_le id range d : EnvLe d (coverRange id range d).
Proof.
  assert (forall id', coverageOf d id' ⊆ coverageOf (coverRange id range d) id') as Hs.
  { intros id' b Hb. apply elem_of_coverRange. by left. }
  split_and!; [simpl; lia| |auto]. intros id'. apply RowLe_grow. auto.
Qed.

(** *** A row rewritten *)

Lemma updateScan_le id when f d d0 :
  db_revision d = db_revision d0 -> db_scans d = db_scans d0 ->
  (forall id', coverageOf d0 id' ⊆ coverageOf d id') ->
  (forall p, db_scans d0 !! id = Some p -> when p = true ->
     anchorBlock (f p) = anchorBlock p /\ cursorBlock (f p) = cursorBlock p /\ (rowOk p -> rowOk (f p)) /\
     forall b, accountedAt (coverageOf d0 id) p b -> accountedAt (coverageOf d id) (f p) b) ->
  EnvLe d0 (updateScan id when f d).2.
Proof.
  intros Hrev Hscan Hcov Hf. unfold updateScan, getProgress. rewrite Hscan.
  assert (EnvLe d0 d) as Hd.
  { split_and!; [lia| |auto]. intros id'. rewrite Hscan. apply RowLe_grow. auto. }
  destruct (db_scans d0 !! id) as [p|] eqn:Ep; [|exact Hd]. destruct (when p) eqn:Ew; [|exact Hd].
  destruct (Hf p eq_refl Ew) as (Ha & Hc & Ho & Hac). split_and!; [simpl; lia| |auto].
  intros id'. simpl. rewrite Hscan. destruct (decide (id = id')) as [<-|Hne].
  - rewrite Ep, lookup_insert_eq. simpl. auto.
  - rewrite lookup_insert_ne by done. apply RowLe_grow. intros _. apply Hcov.
Qed.

Lemma holdsRepair_inv progress repair : holdsRepair progress repair = true ->
  exists p q, progress = Some p /\ pending p = Some q /\ p_repairId q = g_repairId repair /\ p_range q = g_range repair.
Proof.
  unfold holdsRepair. destruct progress as [[a c [q|] h]|]; [|done..]. intros H.
  apply andb_true_iff in H as [[H1%bool_decide_eq_true H2%Z.eqb_eq]%andb_true_iff H3%Z.eqb_eq].
  exists {| anchorBlock := a; cursorBlock := c; pending := Some q; lastHeadCheckAt := h |}, q.
  split_and!; [done..|]. destruct (p_range q), (g_range repair); simpl in *; congruence.
Qed.

(** Cutting the top off the range to repair, once it is covered. *)
Lemma cut_ok p q (covered covered' : gset Z) id retryAt cut :
  pending p = Some q -> fromBlock (p_range q) <= toBlock (p_range q) ->
  covered ⊆ covered' -> fromBlock (p_range q) - 1 <= cut ->
  (forall b, cut < b <= toBlock (p_range q) -> b ∈ covered') ->
  let p' := withPending p ((fun r => {| p_repairId := id; p_range := r; p_retryAt := retryAt |}) <$>
              (if fromBlock (p_range q) <=? cut
               then Some {| fromBlock := fromBlock (p_range q); toBlock := cut |} else None)) in
  (rowOk p -> rowOk p') /\ (forall b, accountedAt covered p b -> accountedAt covered' p' b).
Proof.
  intros Hq Hle Hsub Hcut Hnew. split.
  - intros [Hc Hp]. rewrite Hq in Hp. split; [done|]. simpl.
    destruct (Z.leb_spec (fromBlock (p_range q)) cut); simpl; [|done]. split; [lia|]. apply Hp.
  - intros b [Hb|[Hb|Hb]]; [left; auto|right; by left|]. rewrite Hq in Hb. unfold accountedAt. simpl.
    destruct (Z.le_gt_cases b cut) as [Hbc|Hbc]; [|left; apply Hnew; lia].
    destruct (Z.leb_spec (fromBlock (p_range q)) cut); simpl; [|lia]. right; right. lia.
Qed.

Lemma commitRepair_le repair batch retryAt d :
  (forall p, db_scans d !! g_collectionId repair = Some p -> rowOk p) ->
  EnvLe d (commitRepair repair batch retryAt d).
Proof.
  intros Hrow. unfold commitRepair. destruct (_ && _) eqn:E; [|apply EnvLe_refl]. zbool.
  apply holdsRepair_inv in H2 as (p0 & q & Hp0 & Hq & _ & Hr). unfold getProgress in Hp0.
  pose proof (Hrow p0 Hp0) as [_ Hok]. rewrite Hq in Hok. destruct Hok as [Hle _]. rewrite Hr in Hle.
  unfold recordRepairProgress. apply updateScan_le; [done|done| |].
  - intros id' b Hb. apply elem_of_coverRange. by left.
  - intros p Hp _. assert (p0 = p) as -> by congruence. split_and!; [done|done| |].
    all: destruct (cut_ok p q (coverageOf d (g_collectionId repair)) (coverageOf (coverRange (g_collectionId repair) batch d) (g_collectionId repair)) (g_repairId repair) retryAt (fromBlock batch - 1)) as [H5 H6];
      [done|rewrite Hr; lia|intros b Hb; apply elem_of_coverRange; by left|rewrite Hr; lia
      |intros b Hb; apply elem_of_coverRange; right; split; [done|rewrite Hr in Hb; lia]|].
    all: unfold remainingSyncGapRepairRange; rewrite Hr in H5, H6.
    all: replace (fromBlock (g_range repair) <? fromBlock batch) with (fromBlock (g_range repair) <=? fromBlock batch - 1)
           by (destruct (Z.leb_spec (fromBlock (g_range repair)) (fromBlock batch - 1)), (Z.ltb_spec (fromBlock (g_range repair)) (fromBlock batch)); lia || done).
    + exact H5.
    + exact H6.
Qed.

Lemma reconcile_le repair batchSize now d :
  1 <= batchSize -> (forall p, db_scans d !! g_collectionId repair = Some p -> rowOk p) ->
  EnvLe d (reconcileRepairCoverage repair batchSize now d).2.
Proof.
  intros Hbs Hrow. unfold reconcileRepairCoverage.
  destruct (_ || _) eqn:E; [apply EnvLe_refl|]. zbool.
  apply holdsRepair_inv in H0 as (p0 & q & Hp0 & Hq & _ & Hr). unfold getProgress in Hp0.
  pose proof (Hrow p0 Hp0) as [_ Hok]. rewrite Hq in Hok. destruct Hok as [Hle _]. rewrite Hr in Hle.
  set (window := {| fromBlock := Z.max (fromBlock (g_range repair)) (toBlock (g_range repair) - batchSize + 1);
                    toBlock := toBlock (g_range repair) |}).
  pose proof (findGap_spec (coverageOf d (g_collectionId repair)) window batchSize Hbs) as Hgap.
  set (cut := match findGap (coverageOf d (g_collectionId repair)) window batchSize with
              | Some m => toBlock m | None => fromBlock window - 1 end).
  assert (EnvLe d (if cut =? toBlock (g_range repair) then d
                   else (recordRepairProgress repair
                           (if fromBlock (g_range repair) <=? cut
                            then Some {| fromBlock := fromBlock (g_range repair); toBlock := cut |} else None) now d).2)) as Hgo.
  { destruct (_ =? _); [apply EnvLe_refl|]. unfold recordRepairProgress. apply updateScan_le; [done|done|done|].
    intros p Hp _. assert (p0 = p) as -> by congruence.
    assert (fromBlock (g_range repair) - 1 <= cut /\
            forall b, cut < b <= toBlock (g_range repair) -> b ∈ coverageOf d (g_collectionId repair)) as [Hc1 Hc2].
    { unfold cut. destruct (findGap _ _ _) as [m|]; simpl in Hgap |- *.
      - destruct Hgap as [? [] Ha ? ? ?]. simpl in *. split; [lia|done].
      - split; [lia|]. intros b Hb. apply Hgap. lia. }
    destruct (cut_ok p q (coverageOf d (g_collectionId repair)) (coverageOf d (g_collectionId repair)) (g_repairId repair) now cut)
      as [H5 H6]; [done|by rewrite Hr|done|by rewrite Hr|by rewrite Hr|].
    rewrite Hr in H5, H6. auto. }
  subst cut. destruct (findGap _ _ _); exact Hgo.
Qed.

Lemma defer_le repair retryAt d : EnvLe d (deferRetry repair retryAt d).
Proof.
  unfold deferRetry. apply updateScan_le; [done|done|done|]. intros p _ _.
  assert (forall b covered, accountedAt covered p b -> accountedAt covered (withPending p
    ((fun q => {| p_repairId := p_repairId q; p_range := p_range q; p_retryAt := retryAt |}) <$> pending p)) b) as H.
  { intros b covered [?|[?|Hq]]; [by left|right; by left|right; right]. simpl. by destruct (pending p). }
  split_and!; [done|done| |auto]. intros [Hc Hp]. split; [done|]. simpl. by destruct (pending p).
Qed.

Definition RowsOk (d : Db) : Prop := forall id p, db_scans d !! id = Some p -> rowOk p.

Lemma EnvLe_rows d d' : EnvLe d d' -> RowsOk d -> RowsOk d'.
Proof.
  intros (_ & Hrow & _) H id p' Hp'. specialize (Hrow id). unfold RowLe in Hrow. rewrite Hp' in Hrow.
  destruct (db_scans d !! id) as [p|] eqn:E; [|done]. destruct Hrow as (_ & _ & Ho & _). eauto.
Qed.

Lemma applyEvent_le d e : RowsOk d -> EnvLe d (applyEvent d e).
Proof.
  intros Hr. destruct e as [ids range|repair batch retryAt|repair batchSize now|repair retryAt|from|id c|bs rec l o]; simpl.
  - clear Hr. revert d. induction ids as [|id ids IH]; intros d; simpl; [apply EnvLe_refl|].
    eapply EnvLe_trans; [apply coverRange_le|apply IH].
  - apply commitRepair_le. intros p. apply Hr.
  - destruct (Z.leb_spec 1 batchSize); [|apply EnvLe_refl]. apply reconcile_le; [done|]. intros p. apply Hr.
  - apply defer_le.
  - split_and!; [simpl; lia| |simpl; lia]. intros id. simpl.
    destruct (db_scans d !! id) as [p|]; simpl; [|done]. split_and!; [done..|]. simpl. lia.
  - split_and!; [simpl; lia| |by intros _ id']. intros id'. by apply RowLe_grow.
  - split_and!; [simpl; lia| |by intros _ id']. intros id'. by apply RowLe_grow.
Qed.

Lemma applyEvents_le d es : RowsOk d -> EnvLe d (fold_left applyEvent es d).
Proof.
  revert d. induction es as [|e es IH]; intros d Hr; simpl; [apply EnvLe_refl|].
  pose proof (applyEvent_le d e Hr) as H. eapply EnvLe_trans; [exact H|]. apply IH. by eapply EnvLe_rows.
Qed.

End GapSchedulerInv.
