(* ===== verification/GapSchedulerProof.v ===== *)
(** * The scanner for missing history: every method keeps its invariant

    A triple [triple I P m Q] says: from a world with [P], [m] either returns with [Q]
    or throws with [I].  [Found] is what a search of coverage leaves true until the
    row is saved, whatever the other process does meanwhile. *)

From S2P Require Import Prelude JsValue OrderBy Chain Ledger SyncDb GapRepair GapRepairClaims GapScheduler GapSchedulerInv.
Import Chain Ledger SyncDb GapRepair GapRepairClaims GapScheduler GapSchedulerInv.

Open Scope Z_scope.

Module GapSchedulerProof.

Local Open Scope artgod_scope.

(** ** Triples *)

Definition triple {W A} (I P : W -> Prop) (m : M W A) (Q : A -> W -> Prop) : Prop :=
  forall w, P w -> match m w with (Ok a, w') => Q a w' | (Err _, w') => I w' end.

Lemma t_ret {W A} (I P : W -> Prop) (a : A) Q : (forall w, P w -> Q a w) -> triple I P (mret a) Q.
Proof. intros H w Hw. apply H, Hw. Qed.

Lemma t_bind {W A B} (I P : W -> Prop) (m : M W A) (f : A -> M W B) R Q :
  triple I P m R -> (forall a, triple I (R a) (f a) Q) -> triple I P (mbind m f) Q.
Proof.
  intros Hm Hf w Hw. unfold mbind. specialize (Hm w Hw). destruct (m w) as [[a|e] w']; [|done]. by apply Hf.
Qed.

Lemma t_conseq {W A} (I P P' : W -> Prop) (m : M W A) Q Q' :
  triple I P m Q -> (forall w, P' w -> P w) -> (forall a w, Q a w -> Q' a w) -> triple I P' m Q'.
Proof.
  intros Hm HP HQ w Hw. specialize (Hm w (HP w Hw)). destruct (m w) as [[a|e] w']; auto.
Qed.

Lemma t_catch {W A} (I I' P : W -> Prop) (m : M W A) h Q :
  triple I P m Q -> (forall e, triple I' I (h e) Q) -> triple I' P (mcatch m h) Q.
Proof.
  intros Hm Hh w Hw. unfold mcatch. specialize (Hm w Hw). destruct (m w) as [[a|e] w']; [done|]. by apply Hh.
Qed.

Lemma t_update (I P : World -> Prop) f Q : (forall w, P w -> Q tt (setSched (f (w_sched w)) w)) -> triple I P (update f) Q.
Proof. intros H w Hw. by apply H. Qed.

Lemma t_sched (I P : World -> Prop) : triple I P sched (fun s w => P w /\ s = w_sched w).
Proof. intros w Hw. split; [exact Hw|reflexivity]. Qed.

Lemma t_clock (I P : World -> Prop) : triple I P clock (fun _ w => P w).
Proof. intros w Hw. exact Hw. Qed.

Lemma t_forEach {A} (P : World -> Prop) (f : A -> M World unit) l :
  (forall x, triple P P (f x) (fun _ => P)) -> triple P P (forEach f l) (fun _ => P).
Proof.
  intros H. induction l as [|y l IH]; simpl; [by apply t_ret|].
  eapply t_bind; [apply H|intros u; exact IH].
Qed.

(** ** The invariant *)

(** Claims hold only as long as no rollback has happened since [revision] was seen. *)
Definition ClaimOk (revision : Z) (d : Db) (s : Sched) (id : Z) : Prop :=
  db_revision d = revision -> forall ck p, eligibleChecked s !! id = Some ck -> db_scans d !! id = Some p ->
    anchorBlock p = ck_anchorBlock ck -> Accounted (coverageOf d id) p (ck_upperBound ck).

Definition CompletedOk (d : Db) (s : Sched) (id : Z) : Prop :=
  forall a p, completed s !! id = Some a -> db_scans d !! id = Some p -> anchorBlock p = a -> cursorBlock p = None.

Definition CursorsBelow (top : option Z) (d : Db) : Prop :=
  match top with
  | None => True
  | Some h => forall id p c, db_scans d !! id = Some p -> cursorBlock p = Some c -> c <= h
  end.

Section Proof.
Context (options : SyncGapSchedulerOptions) (uuidText : nat -> string).
Context (Hopt : validOptions options = true).
(** The revision the caller saw, and, while a page is scanned, a bound of the cursors. *)
Context (revision : Z) (top : option Z).

Definition InvBut (but : option Z) (w : World) : Prop :=
  w_discoveryRevision w = Some revision /\ revision <= db_revision (w_db w) /\ RowsOk (w_db w) /\
  CursorsBelow top (w_db w) /\
  forall id, but <> Some id -> ClaimOk revision (w_db w) (w_sched w) id /\ CompletedOk (w_db w) (w_sched w) id.

Definition Inv (w : World) : Prop := InvBut None w.

Definition moved (w : World) (d : Db) (now : Z) (env : list Turn) : World := {|
  w_db := d; w_sched := w_sched w; w_discoveryRevision := w_discoveryRevision w; w_now := now;
  w_uuids := w_uuids w; w_env := env |}.

(** A condition the other process cannot break. *)
Definition stable (P : World -> Prop) : Prop :=
  forall w d now env, P w -> EnvLe (w_db w) d -> P (moved w d now env).

Lemma ClaimOk_env r d d' s id : r <= db_revision d -> EnvLe d d' -> ClaimOk r d s id -> ClaimOk r d' s id.
Proof.
  intros Hr (Hle & Hrow & _) Hc E ck p' Hck Hp' Ha. specialize (Hrow id). unfold RowLe in Hrow. rewrite Hp' in Hrow.
  destruct (db_scans d !! id) as [p|] eqn:Ep; [|done]. destruct Hrow as (Han & _ & _ & Hacc).
  intros b Hb. apply Hacc; [lia|]. apply (Hc ltac:(lia) ck p Hck Ep ltac:(congruence)). lia.
Qed.

Lemma CompletedOk_env d d' s id : EnvLe d d' -> CompletedOk d s id -> CompletedOk d' s id.
Proof.
  intros (_ & Hrow & _) Hc a p' Ha Hp' E. specialize (Hrow id). unfold RowLe in Hrow. rewrite Hp' in Hrow.
  destruct (db_scans d !! id) as [p|] eqn:Ep; [|done]. destruct Hrow as (Han & Hcu & _).
  rewrite Hcu. apply (Hc a p Ha Ep). congruence.
Qed.

Lemma CursorsBelow_env d d' : EnvLe d d' -> CursorsBelow top d -> CursorsBelow top d'.
Proof.
  unfold CursorsBelow. destruct top as [h|]; [|done]. intros (_ & Hrow & _) Hc id p' c Hp' E.
  specialize (Hrow id). unfold RowLe in Hrow. rewrite Hp' in Hrow.
  destruct (db_scans d !! id) as [p|] eqn:Ep; [|done]. destruct Hrow as (_ & Hcu & _). apply (Hc id p); congruence.
Qed.

Lemma InvBut_stable but : stable (InvBut but).
Proof.
  intros w d now env (Hd & Hr & Hrows & Hcur & Hall) Hle. split_and!; simpl; [done| | | |].
  - destruct Hle. lia.
  - by eapply EnvLe_rows.
  - by eapply CursorsBelow_env.
  - intros id Hne. destruct (Hall id Hne). split; [by eapply ClaimOk_env|by eapply CompletedOk_env].
Qed.

(** ** Calls *)

Lemma t_call {A} (f : Db -> A * Db) (P : World -> Prop) Q :
  stable P -> (forall w, P w -> Inv w) ->
  (forall w, P w -> let '(a, d) := f (w_db w) in Q a (setDb d w)) ->
  triple Inv P (call f) Q.
Proof.
  intros Hs HI Hf w Hw. unfold call. destruct (w_env w) as [|turn rest].
  - specialize (Hf w Hw). by destruct (f (w_db w)).
  - assert (P (moved w (fold_left applyEvent (tn_events turn) (w_db w)) (tn_now turn) rest)) as Hw'.
    { apply Hs; [done|]. apply applyEvents_le. by destruct (HI w Hw) as (_ & _ & ? & _). }
    fold (moved w (fold_left applyEvent (tn_events turn) (w_db w)) (tn_now turn) rest).
    destruct (tn_throws turn); [by apply HI|]. specialize (Hf _ Hw'). by destruct (f _).
Qed.

Lemma t_query {A} (f : Db -> A) (P : World -> Prop) :
  stable P -> (forall w, P w -> Inv w) -> triple Inv P (query f) (fun a w => P w /\ a = f (w_db w)).
Proof. intros Hs HI. apply t_call; [done..|]. intros w Hw. by destruct w. Qed.

(** ** What a search found *)

Definition Found (id from to : Z) (gap : option Range) (w : World) : Prop :=
  Inv w /\
  (db_revision (w_db w) = revision ->
     exists covered, covered ⊆ coverageOf (w_db w) id /\ NewestGap covered from to (o_batchSize options) gap) /\
  match gap with Some g => from <= fromBlock g <= toBlock g /\ toBlock g <= to | None => True end.

Lemma Found_stable id from to gap : stable (Found id from to gap).
Proof.
  intros w d now env (HI & Hf & Hg) Hle. split_and!; [by apply InvBut_stable| |done]. simpl. intros E.
  destruct HI as (_ & Hr & _), Hle as (Hle & _ & Hc). destruct (Hf ltac:(lia)) as (covered & Hsub & Hn).
  exists covered. split; [|done]. etransitivity; [exact Hsub|]. apply Hc. lia.
Qed.

Lemma batchSize_pos : 1 <= o_batchSize options.
Proof. unfold validOptions in Hopt. zbool. lia. Qed.

(** [P] is carried across the search, for what the other process cannot break. *)
Lemma t_searchNewest_frame P id from to :
  stable P -> (forall w, P w -> Inv w) ->
  triple Inv P (searchNewest options id from to) (fun gap w => P w /\ Found id from to gap w).
Proof.
  intros HP HI. unfold searchNewest. destruct (Z.leb_spec from to) as [Hle|Hgt].
  - eapply t_conseq; [by apply t_query|done|].
    intros gap w [Hw ->]. pose proof (findNewestGap_spec (coverageOf (w_db w) id) {| fromBlock := from; toBlock := to |} _ batchSize_pos) as Hn.
    simpl in Hn. split; [done|]. split_and!; [by apply HI|intros _; by exists (coverageOf (w_db w) id)|].
    destruct (findNewestGap _ _ _) as [g|]; [|done]. simpl in Hn. destruct Hn as [? [] ? ? ? ?]. lia.
  - apply t_ret. intros w Hw. split; [done|]. split_and!; [by apply HI| |done]. intros _. exists ∅. split; [set_solver|].
    simpl. intros b Hb. lia.
Qed.

Lemma t_searchNewest id from to :
  triple Inv Inv (searchNewest options id from to) (fun gap w => Found id from to gap w).
Proof.
  eapply t_conseq; [apply (t_searchNewest_frame Inv); [apply InvBut_stable|done]|done|]. by intros gap w [_ H].
Qed.

Lemma t_query_findGap id window :
  triple Inv Inv (query (fun d => findGap (coverageOf d id) window (o_batchSize options)))
    (fun gap w => Found id (fromBlock window) (toBlock window) gap w).
Proof.
  eapply t_conseq; [apply t_query; [apply InvBut_stable|done]|done|].
  intros gap w [HI ->]. pose proof (findGap_spec (coverageOf (w_db w) id) window _ batchSize_pos) as Hn.
  split_and!; [done|intros _; by exists (coverageOf (w_db w) id)|].
  destruct (findGap _ _ _) as [g|]; [|done]. simpl in Hn. destruct Hn as [? [] ? ? ? ?]. lia.
Qed.

(** The new row: its parts, whatever the identifier and the clock. *)
Definition IsProgress (anchor : Z) (gap : option Range) (headCheckAt : option Z) (scannedFrom : Z)
    (p : SyncGapProgress) : Prop :=
  anchorBlock p = anchor /\
  cursorBlock p = (let next := match gap with Some g => fromBlock g | None => scannedFrom end - 1 in
                   if next <? anchor then None else Some next) /\
  (p_range <$> pending p) = gap /\ lastHeadCheckAt p = headCheckAt.

Definition ignoresClock (P : World -> Prop) : Prop :=
  forall w uuids, P w -> P {| w_db := w_db w; w_sched := w_sched w; w_discoveryRevision := w_discoveryRevision w;
                              w_now := w_now w; w_uuids := uuids; w_env := w_env w |}.

Lemma t_progressForGap I P id anchor gap headCheckAt scannedFrom :
  ignoresClock P ->
  triple I P (progressForGap options uuidText id anchor gap headCheckAt scannedFrom)
    (fun p w => P w /\ IsProgress anchor gap headCheckAt scannedFrom p).
Proof.
  intros HP w Hw. unfold progressForGap. destruct gap as [g|]; simpl.
  - split; [by apply HP|]. by split_and!.
  - split; [done|]. by split_and!.
Qed.

Lemma Found_ignoresClock id from to gap : ignoresClock (Found id from to gap).
Proof. intros w u H. exact H. Qed.

Lemma IsProgress_rowOk anchor gap headCheckAt scannedFrom p :
  IsProgress anchor gap headCheckAt scannedFrom p ->
  anchor <= scannedFrom ->
  match gap with Some g => anchor <= fromBlock g <= toBlock g | None => True end -> rowOk p.
Proof.
  intros (Ha & Hc & Hp & _) Hs Hg. unfold rowOk. rewrite Ha, Hc. cbv zeta.
  destruct gap as [g|], (pending p) as [q|]; simpl in Hp; try discriminate.
  - injection Hp as Hq. rewrite Hq. destruct (Z.ltb_spec (fromBlock g - 1) anchor); simpl; split_and!; try done; lia.
  - destruct (Z.ltb_spec (scannedFrom - 1) anchor); simpl; split_and!; try done; lia.
Qed.

(** A saved row accounts for what the search covered: its window, when nothing above
    the new cursor was left out. *)
Lemma IsProgress_accounted covered anchor from to gap headCheckAt p :
  NewestGap covered from to (o_batchSize options) gap -> anchor <= from ->
  IsProgress anchor gap headCheckAt from p -> Accounted covered p to.
Proof.
  intros Hn Hle (Ha & Hc & Hp & _) b Hb. unfold accountedAt. rewrite Hc. cbv zeta.
  destruct gap as [g|], (pending p) as [q|]; simpl in Hp, Hn; try discriminate.
  - injection Hp as Hq. destruct Hn as [o [i j] a m s x].
    destruct (Z.lt_ge_cases (toBlock g) b) as [|Hbg]; [left; apply a; lia|].
    destruct (Z.le_gt_cases (fromBlock g) b) as [|Hbf]; [right; right; rewrite Hq; lia|].
    right; left. rewrite Ha in Hb. destruct (Z.ltb_spec (fromBlock g - 1) anchor); lia.
  - destruct (Z.le_gt_cases from b) as [|Hbf]; [left; apply Hn; lia|].
    right; left. rewrite Ha in Hb. destruct (Z.ltb_spec (from - 1) anchor); lia.
Qed.

Lemma Accounted_mono covered covered' p upperBound :
  covered ⊆ covered' -> Accounted covered p upperBound -> Accounted covered' p upperBound.
Proof. intros Hs H b Hb. destruct (H b Hb) as [?|?]; [left; auto|by right]. Qed.

(** ** Saving a row *)

Lemma InvBut_weaken but w : Inv w -> InvBut but w.
Proof. intros (H1 & H2 & H3 & H4 & H5). split_and!; [done..|]. intros id _. by apply H5. Qed.

Lemma InvBut_close id w :
  InvBut (Some id) w -> ClaimOk revision (w_db w) (w_sched w) id -> CompletedOk (w_db w) (w_sched w) id -> Inv w.
Proof.
  intros (H1 & H2 & H3 & H4 & H5) Hc Hk. split_and!; [done..|]. intros id' _.
  destruct (decide (id = id')) as [<-|Hne]; [done|]. apply H5. congruence.
Qed.

Definition cursorWithin (p : SyncGapProgress) : Prop :=
  match top, cursorBlock p with Some h, Some c => c <= h | _, _ => True end.

Lemma saveProgress_inv id expected p w d :
  Inv w -> rowOk p -> cursorWithin p -> saveProgress id expected p (w_db w) = (true, d) ->
  InvBut (Some id) (setDb d w) /\ db_scans d !! id = Some p /\ coverageOf d id = coverageOf (w_db w) id
  /\ db_revision d = db_revision (w_db w) /\ db_scans (w_db w) !! id = expected.
Proof.
  intros (H1 & H2 & H3 & H4 & H5) Hok Hcur Hsave. unfold saveProgress in Hsave.
  case_bool_decide as He; [|done]. injection Hsave as <-.
  split; [|split_and!; [apply lookup_insert_eq|done|done|done]]. split; [done|]. split; [done|]. split_and!.
  - intros id' p' Hp'. simpl in Hp'. apply lookup_insert_Some in Hp' as [[_ <-]|[_ Hp']]; [done|by eapply H3].
  - unfold CursorsBelow in *. destruct top as [h|] eqn:Et; [|done]. intros id' p' c Hp' Hc. simpl in Hp'.
    apply lookup_insert_Some in Hp' as [[_ <-]|[_ Hp']]; [|by eapply H4].
    unfold cursorWithin in Hcur. by rewrite Et, Hc in Hcur.
  - intros id' Hne. assert (id <> id') as Hn by congruence. destruct (H5 id' ltac:(done)) as [Hc Hk]. split.
    + intros E ck p' Hck Hp'. simpl in Hp'. rewrite lookup_insert_ne in Hp' by done. by apply Hc.
    + intros a p' Ha Hp'. simpl in Hp'. rewrite lookup_insert_ne in Hp' by done. by apply Hk.
Qed.

(** What holds after a row was saved and before the fields that speak of it are set. *)
Definition Saved (id anchor upperBound : Z) (p : SyncGapProgress) (w : World) : Prop :=
  InvBut (Some id) w /\ db_scans (w_db w) !! id = Some p /\ anchorBlock p = anchor /\
  (db_revision (w_db w) = revision -> Accounted (coverageOf (w_db w) id) p upperBound).

(** The claim about a collection replaced: the other claims stand. *)
Lemma Saved_markChecked id anchor upperBound p w :
  Saved id anchor upperBound p w ->
  let w' := setSched (setChecked (<[id := {| ck_anchorBlock := anchor; ck_upperBound := upperBound |}]>
                                    (eligibleChecked (w_sched w))) (w_sched w)) w in
  Saved id anchor upperBound p w' /\ ClaimOk revision (w_db w') (w_sched w') id.
Proof.
  intros ((H1 & H2 & H3 & H4 & H5) & Hp & Ha & Hacc). split.
  - split; [|by split_and!]. unfold InvBut. split_and!; [done..|]. intros id' Hne. assert (id <> id') as Hn by congruence. destruct (H5 id' Hne) as [Hc Hk]. split; [|done].
    intros E ck p' Hck. simpl in Hck. rewrite lookup_insert_ne in Hck by done. by apply Hc.
  - intros E ck p' Hck Hp' Han. simpl in *. rewrite lookup_insert_eq in Hck. injection Hck as <-.
    rewrite Hp in Hp'. injection Hp' as <-. by apply Hacc.
Qed.

Lemma InvBut_sched but w s' :
  eligibleChecked s' = eligibleChecked (w_sched w) -> completed s' = completed (w_sched w) ->
  InvBut but w -> InvBut but (setSched s' w).
Proof.
  intros E1 E2 (H1 & H2 & H3 & H4 & H5). unfold InvBut. split_and!; [done..|]. intros id Hne. destruct (H5 id Hne) as [Hc Hk].
  split; [intros E ck p; simpl; rewrite E1; by apply Hc|intros a p; simpl; rewrite E2; by apply Hk].
Qed.

(** The map of finished searches changed at one collection. *)
Lemma InvBut_completed but w m cycle :
  (forall id, but <> Some id -> m !! id = completed (w_sched w) !! id \/ m !! id = None) ->
  InvBut but w -> InvBut but (setSched (setCompleted m cycle (w_sched w)) w).
Proof.
  intros Hm (H1 & H2 & H3 & H4 & H5). unfold InvBut. split_and!; [done..|]. intros id Hne. destruct (H5 id Hne) as [Hc Hk].
  split; [done|]. intros a p Ha. simpl in Ha. destruct (Hm id Hne) as [E|E]; rewrite E in Ha; [by apply Hk|done].
Qed.

Lemma t_reopen id : triple Inv Inv (reopen id) (fun _ => Inv).
Proof.
  apply t_update. intros w HI. apply InvBut_completed; [|done]. intros id' _. simpl.
  destruct (decide (id = id')) as [->|Hne]; [right; apply lookup_delete_eq|left; by rewrite lookup_delete_ne].
Qed.

(** ** Retaining the newest gap *)

Lemma retained_accounts e anchor from head covered p now gap :
  from = Z.max anchor (match pending e, cursorBlock e with
                       | Some q, _ => toBlock (p_range q) | None, Some c => c | None, None => anchor - 1 end + 1) ->
  rowOk e -> anchorBlock e = anchor -> NewestGap covered from head (o_batchSize options) gap ->
  match gap with
  | Some _ => IsProgress anchor gap (Some now) from p
  | None => p = withHeadCheck e now
  end -> Accounted covered p head.
Proof.
  intros Hf [Hoc Hop] Ha Hn Hp. destruct gap as [g|].
  - eapply IsProgress_accounted; [exact Hn| |exact Hp]. lia.
  - subst p. intros b Hb. simpl in Hb. unfold accountedAt. simpl.
    destruct (Z.le_gt_cases from b) as [|Hbf]; [left; apply Hn; lia|right].
    destruct (pending e) as [q|], (cursorBlock e) as [c|]; lia.
Qed.

Definition RetainedRow (e : SyncGapProgress) (anchor from : Z) (gap : option Range) (p : SyncGapProgress) : Prop :=
  exists now, match gap with
              | Some _ => IsProgress anchor gap (Some now) from p
              | None => p = withHeadCheck e now
              end.

(** The cursors' bound, if there is one, is no lower than the head. *)
Definition boundsHead (head : Z) : Prop := match top with Some h => head <= h | None => True end.

Lemma retained_within e anchor from gap p head w id :
  boundsHead head -> Inv w -> db_scans (w_db w) !! id = Some e ->
  match gap with Some g => fromBlock g <= toBlock g /\ toBlock g <= head | None => True end ->
  RetainedRow e anchor from gap p -> cursorWithin p.
Proof.
  unfold boundsHead, cursorWithin. destruct top as [h|] eqn:Et; [|done].
  intros Hh (_ & _ & _ & HB & _) He Hg [now Hp]. destruct gap as [g|].
  - destruct Hp as (_ & -> & _). cbv zeta. destruct (_ <? _); [done|lia].
  - subst p. simpl. destruct (cursorBlock e) as [c|] eqn:Ec; [|done]. unfold CursorsBelow in HB. rewrite Et in HB.
    by apply (HB id e).
Qed.

Lemma t_retainNewestGap collection head expected :
  boundsHead head ->
  triple Inv Inv (retainNewestGap options uuidText collection head expected) (fun _ => Inv).
Proof.
  intros Htop. unfold retainNewestGap.
  destruct (gapRepairWindow collection head) as [window|] eqn:Ew; [|by apply t_ret].
  destruct expected as [e|]; [|by apply t_ret].
  destruct (Z.eqb_spec (anchorBlock e) (fromBlock window)) as [Ea|]; simpl; [|by apply t_ret].
  set (anchor := fromBlock window) in *. set (id := col_id collection).
  match goal with |- context [searchNewest options id ?f head] => set (from := f) end.
  eapply t_bind; [apply t_searchNewest|intros gap].
  eapply t_bind; [apply t_clock|intros now].
  eapply (t_bind _ _ _ _ (fun p w => Found id from head gap w /\ RetainedRow e anchor from gap p)); [|intros p].
  { destruct gap as [g|].
    - eapply t_conseq; [apply (t_progressForGap Inv); apply Found_ignoresClock|done|].
      intros p w [HF Hp]. split; [exact HF|]. by exists now.
    - apply t_ret. intros w HF. split; [exact HF|]. by exists now. }
  eapply (t_bind _ _ _ _ (fun saved w =>
    if saved : bool
    then Saved id anchor head p w /\ RetainedRow e anchor from gap p /\
         (gap = None -> CompletedOk (w_db w) (w_sched w) id)
    else Inv w)); [|intros saved].
  { apply t_call.
    - intros w d now' env [HF Hp] Hle. split; [by apply Found_stable|done].
    - by intros w [[HI _] _].
    - intros w [(HI & HF & Hg) Hp]. destruct (saveProgress id (Some e) p (w_db w)) as [saved d] eqn:Es.
      destruct saved.
      2:{ unfold saveProgress in Es. case_bool_decide; [done|]. injection Es as <-. by destruct w. }
      assert (db_scans (w_db w) !! id = Some e) as He.
      { unfold saveProgress in Es. case_bool_decide as E; [exact E|done]. }
      assert (rowOk e) as Hoke by (destruct HI as (_ & _ & HR & _); by eapply HR).
      assert (rowOk p) as Hokp.
      { destruct Hp as [t Hp]. destruct gap as [g|]; [|by subst p].
        apply (IsProgress_rowOk _ _ _ _ _ Hp); unfold from, anchor in *; lia. }
      destruct (saveProgress_inv id (Some e) p w d HI Hokp) as (Hb & Hrow & Hcov & Hrev & _); [|done|].
      { eapply (retained_within e anchor from gap p head); [done..| |done]. destruct gap as [g|]; [lia|done]. }
      split; [split; [done|]; split; [exact Hrow|]; split|split; [done|]].
      + destruct Hp as [t Hp]. destruct gap as [g|]; [by destruct Hp|by subst p].
      + simpl. intros E. rewrite Hcov. destruct (HF ltac:(congruence)) as (covered & Hsub & Hn).
        apply (Accounted_mono _ _ _ _ Hsub). destruct Hp as [t Hp].
        by eapply (retained_accounts e anchor from head covered p t gap).
      + intros ->. destruct Hp as [t ->]. intros a p' Hk Hp' Hap. simpl in *. rewrite Hrow in Hp'. injection Hp' as <-.
        destruct HI as (_ & _ & _ & _ & Hall). destruct (Hall id ltac:(done)) as [_ Hk']. by apply (Hk' a e). }
  destruct saved; [|destruct gap; repeat (eapply t_bind; [by apply t_ret|intros u]); by apply t_ret].
  eapply (t_bind _ _ _ _ (fun _ w => (Saved id anchor head p w /\ ClaimOk revision (w_db w) (w_sched w) id) /\
            RetainedRow e anchor from gap p /\ (gap = None -> CompletedOk (w_db w) (w_sched w) id))); [|intros u].
  { apply t_update. intros w (HS & Hp & Hk). split; [by apply Saved_markChecked|]. split; [done|exact Hk]. }
  eapply (t_bind _ _ _ _ (fun _ => Inv)); [|intros u'; by apply t_ret].
  destruct gap as [g|].
  - apply t_update. intros w ((HS & Hc) & _). apply (InvBut_close id); [|exact Hc|].
    + apply InvBut_completed; [|apply HS]. intros id' Hne. simpl. left. by rewrite lookup_delete_ne by congruence.
    + intros a p' Ha. simpl in Ha. by rewrite lookup_delete_eq in Ha.
  - simpl. destruct (bool_decide (pending e = None) && bool_decide (cursorBlock e = None)) eqn:Eb.
    + apply t_update. intros w ((HS & Hc) & [t Hp] & _). apply andb_true_iff in Eb as [_ Eb%bool_decide_eq_true].
      apply (InvBut_close id); [|exact Hc|].
      * apply InvBut_completed; [|apply HS]. intros id' Hne. simpl. left. by rewrite lookup_insert_ne by congruence.
      * intros a p' Ha Hp' _. simpl in *. destruct HS as (_ & Hrow & _). rewrite Hrow in Hp'. injection Hp' as <-. by subst p.
    + apply t_ret. intros w ((HS & Hc) & _ & Hk). apply (InvBut_close id); [apply HS|exact Hc|by apply Hk].
Qed.

End Proof.

End GapSchedulerProof.
