(* ===== verification/GapSchedulerSteps.v ===== *)
(** * The scanner for missing history: all its methods

    Every method of the scheduler keeps [Inv]: the rechecks at any head, a scan at a
    head no cursor exceeds.  [beginPass] establishes it, and [restart] forgets. *)

From S2P Require Import Prelude JsValue OrderBy Chain Ledger SyncDb GapRepair GapRepairClaims GapScheduler GapSchedulerInv GapSchedulerProof.
Import Chain Ledger SyncDb GapRepair GapRepairClaims GapScheduler GapSchedulerInv GapSchedulerProof.

Open Scope Z_scope.

Module GapSchedulerSteps.

Local Open Scope artgod_scope.

(** ** A condition on the fields of the scheduler, across calls *)

Definition keepsSched {A} (m : M World A) : Prop := forall w, w_sched (m w).2 = w_sched w.

Lemma ks_bind {A B} (m : M World A) (f : A -> M World B) :
  keepsSched m -> (forall a, keepsSched (f a)) -> keepsSched (mbind m f).
Proof.
  intros Hm Hf w. unfold mbind. specialize (Hm w). destruct (m w) as [[a|e] w']; simpl in *; [|done].
  by rewrite Hf.
Qed.

Lemma ks_call {A} (f : Db -> A * Db) : keepsSched (call f).
Proof.
  intros w. unfold call. destruct (w_env w) as [|turn rest]; [by destruct (f _)|].
  destruct (tn_throws turn); [done|]. by destruct (f _).
Qed.

Lemma ks_query {A} (f : Db -> A) : keepsSched (query f).
Proof. apply ks_call. Qed.

Lemma ks_search options id from to : keepsSched (searchNewest options id from to).
Proof. unfold searchNewest. destruct (_ <=? _); [apply ks_query|by intros w]. Qed.

Lemma ks_progress options uuidText id anchor gap t from :
  keepsSched (progressForGap options uuidText id anchor gap t from).
Proof. unfold progressForGap. by destruct gap; intros w. Qed.

Lemma t_frame {A} I P (m : M World A) Q (F : Sched -> Prop) :
  keepsSched m -> triple I P m Q ->
  triple I (fun w => P w /\ F (w_sched w)) m (fun a w => Q a w /\ F (w_sched w)).
Proof.
  intros Hk Hm w [Hw HF]. specialize (Hm w Hw). specialize (Hk w).
  destruct (m w) as [[a|e] w']; simpl in *; [|done]. split; [done|]. by rewrite Hk.
Qed.

Section Steps.
Context (options : SyncGapSchedulerOptions) (uuidText : nat -> string).
Context (Hopt : validOptions options = true).
Context (revision : Z) (top : option Z).

Abbreviation Inv := (Inv revision top).
Abbreviation InvBut := (InvBut revision top).
Abbreviation Found := (Found options revision top).
Abbreviation Saved := (Saved revision top).

(** ** Methods of which only the invariant matters *)

Definition Keeps {A} (m : M World A) : Prop := triple Inv Inv m (fun _ => Inv).

Lemma k_ret {A} (a : A) : Keeps (mret a).
Proof. by apply t_ret. Qed.

Lemma k_bind {A B} (m : M World A) (f : A -> M World B) : Keeps m -> (forall a, Keeps (f a)) -> Keeps (mbind m f).
Proof. intros Hm Hf. by eapply t_bind. Qed.

Lemma k_catch {A} (m : M World A) h : Keeps m -> (forall e, Keeps (h e)) -> Keeps (mcatch m h).
Proof. intros Hm Hh. by eapply t_catch. Qed.

Lemma k_query {A} (f : Db -> A) : Keeps (query f).
Proof.
  eapply t_conseq; [apply t_query; [apply InvBut_stable|done]|done|]. by intros a w [H _].
Qed.

Lemma k_sched : Keeps sched.
Proof. by intros w Hw. Qed.

Lemma k_clock : Keeps clock.
Proof. by intros w Hw. Qed.

Lemma k_update f :
  (forall s, eligibleChecked (f s) = eligibleChecked s) -> (forall s, completed (f s) = completed s) ->
  Keeps (update f).
Proof. intros H1 H2. apply t_update. intros w HI. by apply InvBut_sched. Qed.

Lemma k_forEach {A} (f : A -> M World unit) l : (forall x, Keeps (f x)) -> Keeps (forEach f l).
Proof. intros H. by apply t_forEach. Qed.

Lemma k_resetDiscovery : Keeps resetDiscovery.
Proof.
  apply t_update. intros w (H1 & H2 & H3 & H4 & H5). unfold GapSchedulerProof.Inv, GapSchedulerProof.InvBut.
  split_and!; [done..|]. intros id _. split.
  - intros E ck p Hck. simpl in Hck. by rewrite lookup_empty in Hck.
  - intros a p Ha. simpl in Ha. by rewrite lookup_empty in Ha.
Qed.

End Steps.

(** Walks a method whose updates do not touch the claims. *)
Ltac keeps :=
  repeat match goal with
  | |- Keeps _ _ (mret _) => apply k_ret
  | |- Keeps _ _ (mbind _ _) => apply k_bind; [|intros ?]
  | |- Keeps _ _ (mcatch _ _) => apply k_catch; [|intros ?]
  | |- Keeps _ _ (query _) => apply k_query
  | |- Keeps _ _ sched => apply k_sched
  | |- Keeps _ _ clock => apply k_clock
  | |- Keeps _ _ (forEach _ _) => apply k_forEach; intros ?
  | |- Keeps _ _ resetDiscovery => apply k_resetDiscovery
  | |- Keeps _ _ (update _) => apply k_update; intros ?; [reflexivity|reflexivity]
  | |- Keeps _ _ (if ?b then _ else _) => destruct b
  | |- Keeps _ _ (match ?x with _ => _ end) => destruct x
  end.

Section Rechecks.
Context (options : SyncGapSchedulerOptions) (uuidText : nat -> string).
Context (Hopt : validOptions options = true).
Context (revision : Z) (top : option Z).

Abbreviation Inv := (Inv revision top).
Abbreviation InvBut := (InvBut revision top).
Abbreviation Found := (Found options revision top).
Abbreviation Saved := (Saved revision top).
Abbreviation boundsHead := (boundsHead top).

Lemma boundsHead_le head head' : boundsHead head -> head' <= head -> boundsHead head'.
Proof. unfold GapSchedulerProof.boundsHead. destruct top; lia. Qed.

Lemma k_retainNewestGap collection head expected :
  boundsHead head -> Keeps revision top (retainNewestGap options uuidText collection head expected).
Proof. by apply t_retainNewestGap. Qed.

Lemma k_recheckOnResume head : boundsHead head -> Keeps revision top (recheckOnResume options uuidText head).
Proof.
  intros Hh. unfold recheckOnResume, resumeOne, failResume.
  keeps; apply k_retainNewestGap, (boundsHead_le head); try done; apply Z.le_min_r.
Qed.

Lemma k_recheckAll head checkedBefore checks replaced :
  boundsHead head -> Keeps revision top (recheckAll options uuidText head checkedBefore checks replaced).
Proof.
  intros Hh. revert replaced. induction checks as [|check checks IH]; intros replaced; cbn [recheckAll]; [apply k_ret|].
  unfold recheckCollection. keeps; first [by apply k_retainNewestGap|apply IH].
Qed.

Lemma k_recheckFromHead head : boundsHead head -> Keeps revision top (recheckFromHead options uuidText head).
Proof.
  intros Hh. unfold recheckFromHead, headRechecksAfter. keeps; by apply k_recheckAll.
Qed.

(** *** A strip above a claim *)

(** Enough to claim the blocks of [anchor .. upperBound]. *)
Definition Claimable (id anchor upperBound : Z) (w : World) : Prop :=
  db_revision (w_db w) = revision -> forall p, db_scans (w_db w) !! id = Some p -> anchorBlock p = anchor ->
  Accounted (coverageOf (w_db w) id) p upperBound.

Lemma Claimable_stable id anchor upperBound : stable (fun w => Inv w /\ Claimable id anchor upperBound w).
Proof.
  intros w d now env [HI Hc] H. split; [by apply InvBut_stable|].
  destruct HI as (_ & Hr & _), H as (Hle & Hrow & _).
  intros E p' Hp' Ha. simpl in *. specialize (Hrow id). unfold RowLe in Hrow.
  rewrite Hp' in Hrow. destruct (db_scans (w_db w) !! id) as [p|] eqn:Ep; [|done].
  destruct Hrow as (Han & _ & _ & Hacc). intros b Hb. apply Hacc; [lia|].
  apply (Hc ltac:(lia) p Ep ltac:(congruence)). lia.
Qed.

Lemma Ready_markChecked id anchor upperBound :
  triple Inv (fun w => InvBut (Some id) w /\ Claimable id anchor upperBound w /\
                       CompletedOk (w_db w) (w_sched w) id)
    (markChecked id anchor upperBound) (fun _ => Inv).
Proof.
  apply t_update. intros w ((H1 & H2 & H3 & H4 & H5) & Hc & Hk).
  apply (InvBut_close revision top id); [|clear H5|done].
  - unfold GapSchedulerProof.InvBut. split_and!; [done..|]. intros id' Hne. destruct (H5 id' Hne) as [Hc' Hk'].
    split; [|done]. intros E ck p Hck. simpl in Hck. rewrite lookup_insert_ne in Hck by congruence. by apply Hc'.
  - intros E ck p Hck Hp Ha. simpl in *. rewrite lookup_insert_eq in Hck. injection Hck as <-. by apply Hc.
Qed.

(** The blocks of the claim and of the range to repair, below the strip. *)
Lemma strip_below e anchor bound covered from b :
  anchorBlock e = anchor -> 1 <= anchor -> rowOk e -> Accounted covered e bound ->
  from = Z.max (Z.max anchor (bound + 1)) (match pending e with Some p => toBlock (p_range p) | None => 0 end + 1) ->
  anchor <= b < from -> accountedAt covered e b.
Proof.
  intros Ha H1 [Hoc Hop] Hacc Hf Hb. destruct (Z.le_gt_cases b bound); [apply Hacc; lia|]. right.
  destruct (pending e) as [q|], (cursorBlock e) as [c|]; simpl; lia.
Qed.

(** The search, with what the claim gives below it. *)
Lemma t_strip id anchor from upperBound :
  triple Inv (fun w => Inv w /\ Claimable id anchor (from - 1) w) (searchNewest options id from upperBound)
    (fun gap w => Found id from upperBound gap w /\ (gap = None -> Claimable id anchor upperBound w)).
Proof.
  eapply t_conseq; [apply (t_searchNewest_frame options Hopt revision top); [apply (Claimable_stable id anchor (from - 1))|by intros w []]|done|].
  intros gap w [[HI Hc] HF]. split; [done|]. intros -> E p Hp Ha b Hb.
  destruct (Z.le_gt_cases from b); [|apply (Hc E p Hp Ha); lia].
  destruct HF as (_ & HF & _), (HF E) as (covered & Hsub & Hn). left. apply Hsub, Hn. lia.
Qed.

(** A gap of the strip replaces the row: nothing above it is left out. *)
Lemma t_saveStrip id anchor e from upperBound g :
  boundsHead upperBound -> anchor <= from ->
  triple Inv (Found id from upperBound (Some g))
    (let! progress := progressForGap options uuidText id anchor (Some g) (lastHeadCheckAt e) from in
     let! saved := call (saveProgress id (Some e) progress) in
     if saved then do! reopen id in mret true else mret false)
    (fun ok w => if ok then InvBut (Some id) w /\ Claimable id anchor upperBound w /\
                            CompletedOk (w_db w) (w_sched w) id
                 else Inv w).
Proof.
  intros Hup Hle. eapply t_bind; [apply (t_progressForGap options uuidText Inv); apply Found_ignoresClock|intros p].
  eapply (t_bind _ _ _ _ (fun saved w => if saved : bool then Saved id anchor upperBound p w else Inv w)); [|intros saved].
  { apply t_call.
    - intros w d now env [HF Hp] H. split; [by apply Found_stable|done].
    - by intros w [[HI _] _].
    - intros w [(HI & HF & Hg) Hp]. destruct (saveProgress id (Some e) p (w_db w)) as [saved d] eqn:Es.
      destruct saved.
      2:{ unfold saveProgress in Es. case_bool_decide; [done|]. injection Es as <-. by destruct w. }
      assert (rowOk p) as Hokp by (apply (IsProgress_rowOk _ _ _ _ _ Hp); lia).
      destruct (saveProgress_inv revision top id (Some e) p w d HI Hokp) as (Hb & Hrow & Hcov & Hrev & _); [|done|].
      { unfold cursorWithin. unfold GapSchedulerProof.boundsHead in Hup. destruct top; [|done].
        destruct Hp as (_ & -> & _). cbv zeta. destruct (_ <? _); [done|lia]. }
      split; [done|]. split; [exact Hrow|]. split; [by destruct Hp|]. intros E. simpl. rewrite Hcov.
      destruct (HF ltac:(simpl in *; congruence)) as (covered & Hsub & Hn).
      apply (Accounted_mono _ _ _ _ Hsub). by eapply (IsProgress_accounted options). }
  destruct saved; [|by apply t_ret].
  eapply (t_bind _ _ _ _ (fun _ w => InvBut (Some id) w /\ Claimable id anchor upperBound w /\
                                     CompletedOk (w_db w) (w_sched w) id)); [|intros u; by apply t_ret].
  apply t_update. intros w (Hb & Hrow & Ha & Hacc). split_and!.
  - apply InvBut_completed; [|done]. intros id' Hne. simpl. left. by rewrite lookup_delete_ne by congruence.
  - intros E p' Hp' _. simpl in *. rewrite Hrow in Hp'. injection Hp' as <-. by apply Hacc.
  - intros a p' Hk. simpl in Hk. by rewrite lookup_delete_eq in Hk.
Qed.

Lemma t_checkEligibleCollection collection upperBound :
  boundsHead upperBound -> Keeps revision top (checkEligibleCollection options uuidText collection upperBound).
Proof.
  intros Hup. unfold checkEligibleCollection.
  destruct (gapRepairWindow collection upperBound) as [window|] eqn:Ew; [|apply k_ret].
  apply gapRepairWindow_spec in Ew as (_ & _ & _ & H1).
  set (anchor := fromBlock window) in *. set (id := col_id collection).
  eapply t_bind; [apply t_sched|intros s].
  destruct (match _ with Some c => _ | None => false end); [by apply t_ret; intros w [HI _]|].
  eapply (t_bind _ _ _ _ (fun expected w => (Inv w /\ expected = getProgress id (w_db w)) /\
            eligibleChecked (w_sched w) !! id = eligibleChecked s !! id)).
  { eapply t_conseq.
    - apply (t_frame Inv Inv _ (fun a w => Inv w /\ a = getProgress id (w_db w))
               (fun s' => eligibleChecked s' !! id = eligibleChecked s !! id)); [apply ks_query|].
      apply t_query; [apply InvBut_stable|done].
    - intros w [HI ->]. done.
    - done. }
  intros expected. destruct expected as [e|]; [|by apply t_ret; intros w [[HI _] _]].
  destruct (Z.eqb_spec (anchorBlock e) anchor) as [Ea|]; cbn [negb]; [|by apply t_ret; intros w [[HI _] _]].
  assert (forall m : M World bool, Keeps revision top m ->
    triple Inv (fun w => (Inv w /\ Some e = getProgress id (w_db w)) /\ eligibleChecked (w_sched w) !! id = eligibleChecked s !! id)
      m (fun _ => Inv)) as Hkeep.
  { intros m Hm. eapply t_conseq; [exact Hm| |done]. by intros w [[HI _] _]. }
  destruct (eligibleChecked s !! id) as [c|] eqn:Ec; [destruct (Z.eqb_spec (ck_anchorBlock c) anchor) as [Eca|]|].
  2,3: apply Hkeep; keeps; by apply k_retainNewestGap.
  cbv zeta. match goal with |- context [searchNewest options id ?f upperBound] => set (from := f) end.
  eapply (t_bind _ _ _ _ (fun gap w => Found id from upperBound gap w /\ (gap = None -> Claimable id anchor upperBound w))).
  { eapply t_conseq; [apply (t_strip id anchor)| |done].
    intros w [[HI He] Hck]. split; [done|]. intros E p Hp Ha b Hb. unfold getProgress in He.
    rewrite <- He in Hp. injection Hp as <-. destruct HI as (_ & _ & HR & _ & Hall), (Hall id ltac:(done)) as [Hc _].
    apply (strip_below e anchor (ck_upperBound c) _ from); [done|lia|by eapply HR| |done|lia].
    apply (Hc E c e Hck ltac:(done)). congruence. }
  intros gap.
  eapply (t_bind _ _ _ _ (fun ok w => if ok : bool then InvBut (Some id) w /\ Claimable id anchor upperBound w /\
                            CompletedOk (w_db w) (w_sched w) id
                 else Inv w)).
  { destruct gap as [g|].
    - eapply t_conseq; [apply (t_saveStrip id anchor e from upperBound g); [done|unfold from; lia]|by intros w [HF _]|done].
    - apply t_ret. intros w [(HI & _) Hc]. split; [by apply InvBut_weaken|]. split; [by apply Hc|].
      by apply HI. }
  intros ok. destruct ok; [|by apply t_ret].
  eapply t_bind; [apply Ready_markChecked|intros u; by apply t_ret].
Qed.

Lemma k_eligibleOne upperBound collection :
  boundsHead upperBound -> Keeps revision top (eligibleOne options uuidText upperBound collection).
Proof. intros Hup. unfold eligibleOne, failEligible. keeps; by apply t_checkEligibleCollection. Qed.

(** The traversal under way never goes above the head. *)
Lemma k_recheckNewlyEligible head :
  boundsHead head -> Keeps revision top (recheckNewlyEligible options uuidText head).
Proof.
  intros Hh. unfold recheckNewlyEligible. destruct (negb _); [apply k_ret|].
  eapply (t_bind _ _ _ _ (fun _ w => Inv w /\ forall t, eligibleTraversal (w_sched w) = Some t -> et_upperBound t <= head)).
  { apply t_update. intros w HI. destruct (eligibleTraversal (w_sched w)) as [t|] eqn:Et; [destruct (Z.ltb_spec head (et_upperBound t))|].
    - split; [by apply InvBut_sched|done].
    - split; [by destruct w|]. simpl. intros t'. rewrite Et. by intros [= <-].
    - split; [by destruct w|]. simpl. by rewrite Et. }
  intros u. eapply (t_bind _ _ _ _ (fun s w => Inv w /\ forall t, eligibleTraversal s = Some t -> et_upperBound t <= head)).
  { by intros w [HI Ht]. }
  intros s w [HI Ht]. revert w HI.
  assert (et_upperBound (default {| et_upperBound := head; et_afterCollectionId := 0; et_failed := false |}
                           (eligibleTraversal s)) <= head) as Hb.
  { destruct (eligibleTraversal s) as [t|]; simpl; [by apply Ht|lia]. }
  change (Keeps revision top
    (if match eligibleTraversal s, eligibleCompletedBound s with None, Some bound => head <=? bound | _, _ => false end
     then mret false else
     let traversal := default {| et_upperBound := head; et_afterCollectionId := 0; et_failed := false |} (eligibleTraversal s) in
     do! update (setEligible (Some traversal)) in
     let! collections := query (listCollectionsForGapRepair (et_afterCollectionId traversal) (pageSize options)) in
     do! forEach (eligibleOne options uuidText (et_upperBound traversal)) collections in
     if (length collections =? pageSize options)%nat then mret true else
     let! s := sched in
     do! (if match eligibleTraversal s with Some t => et_failed t | None => false end then mret tt
          else update (setCompletedBound (Some (et_upperBound traversal)))) in
     do! update (setEligible None) in
     mret (et_upperBound traversal <? head))).
  cbv zeta. keeps; apply k_eligibleOne, (boundsHead_le head); done.
Qed.

End Rechecks.

Section Scanning.
Context (options : SyncGapSchedulerOptions) (uuidText : nat -> string).
Context (Hopt : validOptions options = true).
Context (revision : Z).

Section AtHead.
Context (head : Z).

Abbreviation Inv := (Inv revision (Some head)).
Abbreviation InvBut := (InvBut revision (Some head)).
Abbreviation Found := (Found options revision (Some head)).

(** A row was saved, or found, and the two maps are yet to be brought up to date. *)
Definition NoteReady (id anchor : Z) (cursor : option Z) (w : World) : Prop :=
  InvBut (Some id) w /\ ClaimOk revision (w_db w) (w_sched w) id /\
  (exists p, db_scans (w_db w) !! id = Some p /\ anchorBlock p = anchor /\ cursorBlock p = cursor) /\
  completed (w_sched w) !! id <> Some anchor.

Lemma t_noteCursor id anchor cursor :
  triple Inv (NoteReady id anchor cursor) (noteCursor id anchor cursor) (fun _ => Inv).
Proof.
  unfold noteCursor. destruct cursor as [c|].
  - eapply (t_bind _ _ _ _ (fun _ => Inv)); [|intros u; apply k_update; done].
    apply t_update. intros w (Hb & Hc & (p & Hp & Ha & Hcu) & Hk). apply InvBut_sched; [done..|].
    apply (InvBut_close revision _ id); [done|done|]. intros a p' Hk' Hp' Ha'. simpl in *. congruence.
  - apply t_update. intros w (Hb & Hc & (p & Hp & Ha & Hcu) & Hk).
    apply (InvBut_close revision _ id); [|exact Hc|].
    + apply InvBut_completed; [|done]. intros id' Hne. left. by rewrite lookup_insert_ne by congruence.
    + intros a p' _ Hp' _. simpl in *. congruence.
Qed.

(** The row saved by a scan of the window that ends at [stop]. *)
Lemma scan_saved w d id expected anchor cursor stop from gap t p :
  stop = Z.min (default head cursor) head -> from = Z.max anchor (stop - windowSize options + 1) ->
  1 <= anchor <= head ->
  match cursor with
  | Some c => exists e, expected = Some e /\ anchorBlock e = anchor /\ cursorBlock e = Some c /\ pending e = None
  | None => True
  end ->
  Found id from stop gap w -> completed (w_sched w) !! id <> Some anchor ->
  IsProgress anchor gap t from p -> saveProgress id expected p (w_db w) = (true, d) ->
  InvBut (Some id) (setDb d w) /\ db_scans d !! id = Some p /\ anchorBlock p = anchor /\
  (match cursor with
   | Some _ => ClaimOk revision d (w_sched w) id
   | None => db_revision d = revision -> Accounted (coverageOf d id) p head
   end).
Proof.
  intros Hstop Hfrom Hanch Hexp (HI & HF & Hg) Hk Hp Hsave.
  assert (match cursor with Some c => c <= head /\ anchor <= c | None => True end) as Hcur.
  { destruct cursor as [c|]; [|done]. destruct Hexp as (e & -> & Ha & Hc & _).
    unfold saveProgress in Hsave. case_bool_decide as He; [|done].
    destruct HI as (_ & _ & HR & HB & _). split; [by apply (HB id e)|].
    destruct (HR id e He) as [Hle _]. rewrite Hc, Ha in Hle. exact Hle. }
  assert (anchor <= from) as Haf by lia.
  assert (rowOk p) as Hokp by (apply (IsProgress_rowOk _ _ _ _ _ Hp); [done|]; destruct gap; lia).
  assert (windowSize options >= 1) as Hw by (unfold validOptions in Hopt; zbool; lia).
  assert (cursorWithin (Some head) p) as Hwithin.
  { unfold cursorWithin. destruct Hp as (_ & -> & _). cbv zeta. destruct gap as [g|]; destruct (_ <? _); try done;
      destruct cursor; simpl in *; lia. }
  destruct (saveProgress_inv revision (Some head) id expected p w d HI Hokp Hwithin Hsave)
    as (Hb & Hrow & Hcov & Hrev & Hold).
  split_and!; [done|done|by destruct Hp|].
  assert (db_revision d = revision -> Accounted (coverageOf d id) p stop) as Hacc.
  { intros E. rewrite Hcov. destruct (HF ltac:(congruence)) as (covered & Hsub & Hn).
    apply (Accounted_mono _ _ _ _ Hsub). by eapply (IsProgress_accounted options). }
  destruct cursor as [c|]; [|intros E; replace head with stop by (simpl in Hstop; lia); by apply Hacc].
  destruct Hexp as (e & -> & Ha & Hc & Hpe). intros E ck p' Hck Hp' Hap'.
  assert (p' = p) as -> by congruence. intros b Hb'.
  destruct (Z.le_gt_cases b stop) as [|Hbs]; [apply (Hacc E); lia|left].
  destruct HI as (_ & _ & _ & _ & Hall), (Hall id ltac:(done)) as [Hcl _].
  destruct (Hcl ltac:(congruence) ck e Hck Hold ltac:(destruct Hp; congruence) b ltac:(destruct Hp; lia)) as [Hbc|[Hbc|Hbc]].
  - by rewrite Hcov.
  - rewrite Hc in Hbc. simpl in Hstop. lia.
  - by rewrite Hpe in Hbc.
Qed.

Lemma t_scanCollection collection : Keeps revision (Some head) (scanCollection options uuidText collection head).
Proof.
  unfold scanCollection. destruct (gapRepairWindow collection head) as [window|] eqn:Ew; [|apply k_ret].
  apply gapRepairWindow_spec in Ew as (_ & _ & _ & H1).
  set (anchor := fromBlock window) in *. set (id := col_id collection).
  eapply t_bind; [apply t_query; [apply InvBut_stable|done]|intros expected]. cbv zeta.
  set (known := match expected with Some e => anchorBlock e =? anchor | None => false end).
  set (fresh := {| anchorBlock := anchor; cursorBlock := None; pending := None; lastHeadCheckAt := None |}).
  eapply (t_bind _ _ _ _ (fun _ w => Inv w /\ expected = getProgress id (w_db w))); [|intros u].
  { destruct known; [by apply t_ret|]. apply t_update. intros w [HI He]. split; [|done].
    apply InvBut_completed; [|done]. intros id' _.
    destruct (decide (id = id')) as [->|Hne]; [right; apply lookup_delete_eq|left; by rewrite lookup_delete_ne]. }
  set (progress := if known then default fresh expected else fresh).
  assert (anchorBlock progress = anchor) as Hpa.
  { subst progress known. destruct expected as [e|]; simpl; [|done]. by destruct (Z.eqb_spec (anchorBlock e) anchor). }
  assert (progress = fresh \/ expected = Some progress) as Hpe.
  { subst progress known. destruct expected as [e|]; simpl; [|by left]. destruct (_ =? _); [by right|by left]. }
  clearbody progress known.
  eapply t_bind; [apply t_sched|intros s].
  case_bool_decide as Hdone; [by apply t_ret; intros w [[HI _] _]|].
  destruct (pending progress) as [q|] eqn:Eq.
  - eapply (t_bind _ _ _ _ (fun _ => Inv)); [|intros u'; by apply t_ret].
    eapply t_conseq; [apply t_noteCursor| |done]. intros w [[HI He] ->].
    destruct Hpe as [->|Hpe]; [done|]. unfold getProgress in He. split; [by apply InvBut_weaken|].
    split; [by apply HI|]. split; [exists progress; split_and!; [congruence|done|done]|exact Hdone].
  - set (cursor := if restartFromHead s then None else cursorBlock progress).
    assert (match cursor with
            | Some c => exists e, expected = Some e /\ anchorBlock e = anchor /\ cursorBlock e = Some c /\ pending e = None
            | None => True end) as Hexp.
    { subst cursor. destruct (restartFromHead s); [done|]. destruct (cursorBlock progress) as [c|] eqn:Ec; [|done].
      destruct Hpe as [->|Hpe]; [done|]. by exists progress. }
    clearbody cursor.
    set (stop := Z.min (default head cursor) head).
    set (from := Z.max anchor (stop - windowSize options + 1)).
    set (F := fun s' : Sched => completed s' !! id <> Some anchor).
    eapply (t_bind _ _ _ _ (fun gap w => Found id from stop gap w /\ F (w_sched w))).
    { eapply t_conseq; [apply (t_frame Inv Inv _ (fun gap w => Found id from stop gap w) F);
        [apply ks_query|apply (t_query_findGap options Hopt revision (Some head) id {| fromBlock := from; toBlock := stop |})]| |done].
      by intros w [[HI _] ->]. }
    intros gap. eapply t_bind; [apply t_clock|intros now]. cbv beta.
    eapply t_bind.
    { apply (t_progressForGap options uuidText Inv). intros w u' [HF Hs]. split; [by apply Found_ignoresClock|exact Hs]. }
    intros p.
    eapply (t_bind _ _ _ _ (fun saved w => if saved : bool
      then InvBut (Some id) w /\ db_scans (w_db w) !! id = Some p /\ anchorBlock p = anchor /\
           (match cursor with
            | Some _ => ClaimOk revision (w_db w) (w_sched w) id
            | None => db_revision (w_db w) = revision -> Accounted (coverageOf (w_db w) id) p head
            end) /\ F (w_sched w)
      else Inv w)); [|intros saved].
    { apply t_call.
      - intros w d now' env [[HF Hs] Hp] H. split; [split; [by apply Found_stable|exact Hs]|exact Hp].
      - by intros w [[[HI _] _] _].
      - intros w [[HF Hs] Hp]. destruct (saveProgress id expected p (w_db w)) as [saved d] eqn:Es.
        destruct saved.
        2:{ unfold saveProgress in Es. case_bool_decide; [done|]. injection Es as <-. destruct HF as [HI _]. by destruct w. }
        pose proof (scan_saved w d id expected anchor cursor stop from gap _ p eq_refl eq_refl H1 Hexp HF Hs Hp Es)
          as (Hb & Hrow & Ha & Hc). split; [done|]. split; [exact Hrow|]. split; [done|]. split; [exact Hc|exact Hs]. }
    destruct saved; cbn [negb].
    2:{ change (Keeps revision (Some head) (do! unfinished in mret false)). unfold unfinished. by keeps. }
    eapply (t_bind _ _ _ _ (fun _ => NoteReady id anchor (cursorBlock p))); [|intros u'].
    { destruct cursor as [c|].
      - apply t_ret. intros w (Hb & Hrow & Ha & Hc & Hs). split; [done|]. split; [done|]. split; [by exists p|done].
      - apply t_update. intros w (Hb & Hrow & Ha & Hc & Hs).
        destruct (Saved_markChecked revision (Some head) id anchor head p w) as [[Hb' _] Hc'];
          [by split_and!|]. split; [exact Hb'|]. split; [exact Hc'|]. split; [by exists p|exact Hs]. }
    eapply t_bind; [apply t_noteCursor|intros u''; by apply t_ret].
Qed.

Lemma k_scan : Keeps revision (Some head) (scan options uuidText head).
Proof.
  unfold scan, scanPage, scanOne. keeps; try apply t_scanCollection.
Qed.

End AtHead.

End Scanning.

End GapSchedulerSteps.
