(* ===== verification/GapSchedulerClaims.v ===== *)
(** * The scanner for missing history: what it promises

    Passes of [AutomaticSyncExecutor] over the scheduler, the other process and
    restarts, as a step relation; in every reachable state the scheduler's claims about
    checked history are true of the tables. *)

From S2P Require Import Prelude JsValue OrderBy Chain Ledger Jobs QueueOutbox SyncDb GapRepair GapRepairClaims GapScheduler GapSchedulerInv GapSchedulerProof GapSchedulerSteps.
Import Chain Ledger Jobs QueueOutbox SyncDb GapRepair GapRepairClaims GapScheduler GapSchedulerInv GapSchedulerProof GapSchedulerSteps.

Open Scope Z_scope.

Module GapSchedulerClaims.

Local Open Scope artgod_scope.

(** ** Steps *)

(** The calls of the next method meet these turns of the other process. *)
Definition during (env : list Turn) (w : World) : World := {|
  w_db := w_db w; w_sched := w_sched w; w_discoveryRevision := w_discoveryRevision w; w_now := w_now w;
  w_uuids := w_uuids w; w_env := env |}.

(** The other process alone. *)
Definition elsewhere (events : list DbEvent) (now : Z) (w : World) : World := {|
  w_db := fold_left applyEvent events (w_db w); w_sched := w_sched w;
  w_discoveryRevision := w_discoveryRevision w; w_now := now; w_uuids := w_uuids w; w_env := w_env w |}.

(** No row has its cursor above the head. *)
Definition headAbove (head : Z) (d : Db) : Prop :=
  forall id p c, db_scans d !! id = Some p -> cursorBlock p = Some c -> c <= head.

Section Steps.
Context (options : SyncGapSchedulerOptions) (uuidText : nat -> string).

(** The methods are called inside a pass, so after [beginPass]; a search runs at a head
    that has not fallen behind the searches before it. *)
Inductive Step : World -> World -> Prop :=
  | step_elsewhere events now w : Step w (elsewhere events now w)
  | step_restart w : Step w (restart w)
  | step_begin env w : Step w (beginPass (during env w)).2
  | step_resume head env w : w_discoveryRevision w <> None ->
      Step w (recheckOnResume options uuidText head (during env w)).2
  | step_head head env w : w_discoveryRevision w <> None ->
      Step w (recheckFromHead options uuidText head (during env w)).2
  | step_eligible head env w : w_discoveryRevision w <> None ->
      Step w (recheckNewlyEligible options uuidText head (during env w)).2
  | step_scan head env w : w_discoveryRevision w <> None -> headAbove head (w_db w) ->
      Step w (scan options uuidText head (during env w)).2.

(** A database without scan rows, and a new process. *)
Inductive Reachable : World -> Prop :=
  | reach_init w : db_scans (w_db w) = ∅ -> w_sched w = initSched -> w_discoveryRevision w = None -> Reachable w
  | reach_step w w' : Reachable w -> Step w w' -> Reachable w'.

(** ** The invariant of all steps *)

Definition WInv (w : World) : Prop :=
  RowsOk (w_db w) /\
  match w_discoveryRevision w with
  | Some revision => Inv revision None w
  | None => eligibleChecked (w_sched w) = ∅ /\ completed (w_sched w) = ∅
  end.

Lemma WInv_intro revision w : Inv revision None w -> WInv w.
Proof. intros HI. pose proof HI as (Hd & _ & HR & _). split; [done|]. by rewrite Hd. Qed.

Lemma WInv_moved w d now env : WInv w -> EnvLe (w_db w) d -> WInv (moved w d now env).
Proof.
  intros [HR HI] Hle. split; [by eapply EnvLe_rows|]. simpl.
  destruct (w_discoveryRevision w) as [r|]; [|done]. by apply InvBut_stable.
Qed.

Lemma WInv_during env w : WInv w -> WInv (during env w).
Proof. intros H. exact (WInv_moved w (w_db w) (w_now w) env H (EnvLe_refl _)). Qed.

Lemma Keeps_step {A} (m : M World A) env w :
  (forall revision, Keeps revision None m) -> w_discoveryRevision w <> None -> WInv w -> WInv (m (during env w)).2.
Proof.
  intros Hm Hd Hw. destruct (w_discoveryRevision w) as [r|] eqn:E; [|done].
  apply (WInv_during env) in Hw as [_ HI]. simpl in HI. rewrite E in HI. specialize (Hm r _ HI).
  destruct (m (during env w)) as [[a|e] w']; by apply (WInv_intro r).
Qed.

Lemma Inv_headAbove r head w : Inv r None w -> headAbove head (w_db w) -> Inv r (Some head) w.
Proof.
  intros (H1 & H2 & H3 & _ & H5) Hh. unfold Inv, InvBut. split_and!; [done..|exact Hh|done].
Qed.

Lemma Inv_anyHead r head w : Inv r (Some head) w -> Inv r None w.
Proof. intros (H1 & H2 & H3 & _ & H5). unfold Inv, InvBut. by split_and!. Qed.

Lemma scan_WInv head env w :
  validOptions options = true -> w_discoveryRevision w <> None -> headAbove head (w_db w) -> WInv w ->
  WInv (scan options uuidText head (during env w)).2.
Proof.
  intros Hopt Hd Hh Hw. destruct (w_discoveryRevision w) as [r|] eqn:E; [|done].
  apply (WInv_during env) in Hw as [_ HI]. simpl in HI. rewrite E in HI.
  pose proof (k_scan options uuidText Hopt r head _ (Inv_headAbove _ head _ HI Hh)) as Hk.
  destruct (scan options uuidText head (during env w)) as [[a|e] w'];
    apply (WInv_intro r); by apply (Inv_anyHead r head).
Qed.

(** A call takes one turn of the other process. *)
Lemma query_moved {A} (f : Db -> A) w : WInv w ->
  exists d now env, EnvLe (w_db w) d /\ (query f w).2 = moved w d now env /\
    ((query f w).1 = Ok (f d) \/ exists e, (query f w).1 = Err e).
Proof.
  intros [HR _]. unfold query, call. destruct (w_env w) as [|turn rest] eqn:E; simpl.
  - exists (w_db w), (w_now w), []. split; [apply EnvLe_refl|]. split; [by destruct w; simpl in *; subst|by left].
  - exists (fold_left applyEvent (tn_events turn) (w_db w)), (tn_now turn), rest.
    split; [by apply applyEvents_le|]. destruct (tn_throws turn); simpl; split; [done|right; eauto|done|by left].
Qed.

Lemma beginPass_WInv w : WInv w -> WInv (beginPass w).2.
Proof.
  intros Hw. unfold beginPass, mbind. destruct (query_moved db_revision w Hw) as (d & now & env & Hle & E2 & E1).
  destruct (query db_revision w) as [res w1]. simpl in E1, E2. subst w1.
  pose proof (WInv_moved w d now env Hw Hle) as [HR HI]. destruct E1 as [->|[e ->]]; [|by split].
  assert (Inv (db_revision d) None
            {| w_db := d; w_sched := w_sched w; w_discoveryRevision := Some (db_revision d); w_now := now;
               w_uuids := w_uuids w; w_env := env |} ->
          WInv {| w_db := d; w_sched := w_sched w; w_discoveryRevision := Some (db_revision d); w_now := now;
               w_uuids := w_uuids w; w_env := env |}) as Hin by apply WInv_intro.
  simpl in HI |- *. destruct (w_discoveryRevision w) as [r|].
  - destruct (Z.eqb_spec (db_revision d) r) as [<-|Hne]; simpl.
    + apply Hin. destruct HI as (_ & ?). by split.
    + apply (WInv_intro (db_revision d)). unfold Inv, InvBut. simpl. split_and!; [done|lia|exact HR|done|].
      intros id _. split.
      * intros _ ck p Hck. simpl in Hck. by rewrite lookup_empty in Hck.
      * intros a p Ha. simpl in Ha. by rewrite lookup_empty in Ha.
  - simpl. apply Hin. destruct HI as [Hc Hk]. unfold Inv, InvBut. simpl. split_and!; [done|lia|exact HR|done|].
    intros id _. split.
    + intros _ ck p Hck. by rewrite Hc, lookup_empty in Hck.
    + intros a p Ha. by rewrite Hk, lookup_empty in Ha.
Qed.

Lemma beginPass_db w : WInv w ->
  EnvLe (w_db w) (w_db (beginPass w).2)
  /\ (forall u, (beginPass w).1 = Ok u -> w_discoveryRevision (beginPass w).2 <> None).
Proof.
  intros Hw. unfold beginPass, mbind. destruct (query_moved db_revision w Hw) as (d & now & env & Hle & E2 & E1).
  destruct (query db_revision w) as [res w1]. simpl in E1, E2. subst w1. destruct E1 as [->|[e ->]]; [|by split].
  simpl. destruct (w_discoveryRevision w) as [r|]; [destruct (db_revision d =? r)|]; by split.
Qed.

Lemma reachable_WInv (Hopt : validOptions options = true) w : Reachable w -> WInv w.
Proof.
  induction 1 as [w Hrow Hs Hd|w w' _ IH Hstep].
  - split; [|by rewrite Hd, Hs]. intros id p Hp. by rewrite Hrow, lookup_empty in Hp.
  - destruct Hstep as [events now w|w|env w|head env w Hd|head env w Hd|head env w Hd|head env w Hd Hh].
    + apply (WInv_moved w _ now (w_env w) IH). apply applyEvents_le, IH.
    + split; [apply IH|done].
    + by apply beginPass_WInv, WInv_during.
    + apply Keeps_step; [|done..]. intros r. by apply k_recheckOnResume.
    + apply Keeps_step; [|done..]. intros r. by apply k_recheckFromHead.
    + apply Keeps_step; [|done..]. intros r. by apply k_recheckNewlyEligible.
    + by apply scan_WInv.
Qed.

End Steps.

(** The search for missing history forgets nothing.  Whatever the schedule of passes,
    rechecks, commits and partial repairs by the other process, errors thrown by the
    store, rollbacks and restarts: as long as no rollback happened since the process
    last looked, every block between a collection's anchor and the height the process
    takes as checked is covered, inside the one range kept for repair, or below the
    cursor where the search goes on, and that range starts right above the cursor.
    When the process takes the collection as completed, nothing is left below a cursor:
    each of these blocks is covered or kept for repair. *)
Theorem gaps_never_forgotten options uuidText w id claim row :
  validOptions options = true ->
  Reachable options uuidText w ->
  w_discoveryRevision w = Some (db_revision (w_db w)) ->
  eligibleChecked (w_sched w) !! id = Some claim ->
  db_scans (w_db w) !! id = Some row ->
  anchorBlock row = ck_anchorBlock claim ->
  (forall b, ck_anchorBlock claim <= b <= ck_upperBound claim ->
     b ∈ coverageOf (w_db w) id
     \/ (exists c, cursorBlock row = Some c /\ b <= c)
     \/ (exists q, pending row = Some q /\ fromBlock (p_range q) <= b <= toBlock (p_range q))) /\
  (forall q, pending row = Some q ->
     fromBlock (p_range q) = match cursorBlock row with Some c => c + 1 | None => anchorBlock row end) /\
  (completed (w_sched w) !! id = Some (anchorBlock row) ->
   forall b, ck_anchorBlock claim <= b <= ck_upperBound claim ->
     b ∈ coverageOf (w_db w) id
     \/ (exists q, pending row = Some q /\ fromBlock (p_range q) <= b <= toBlock (p_range q))).
Proof.
  intros Hopt Hr Hd Hck Hp Ha. apply (reachable_WInv _ _ Hopt) in Hr as [HR HI]. rewrite Hd in HI.
  destruct HI as (_ & _ & _ & _ & Hall). destruct (Hall id ltac:(done)) as [Hc Hk].
  specialize (Hc eq_refl claim row Hck Hp Ha). split_and!.
  - intros b Hb. destruct (Hc b ltac:(lia)) as [Hb'|[Hb'|Hb']]; [by left| |].
    + right; left. destruct (cursorBlock row) as [c|]; [by exists c|done].
    + right; right. destruct (pending row) as [q|]; [by exists q|done].
  - intros q Hq. destruct (HR id row Hp) as [_ Hok]. rewrite Hq in Hok. apply Hok.
  - intros Hdone b Hb. pose proof (Hk _ row Hdone Hp eq_refl) as Hcur.
    destruct (Hc b ltac:(lia)) as [Hb'|[Hb'|Hb']]; [by left|by rewrite Hcur in Hb'|].
    right. destruct (pending row) as [q|]; [by exists q|done].
Qed.

(** ** A run *)

Definition scanOptions : SyncGapSchedulerOptions := {|
  o_chainId := 1; o_batchSize := 2; windowSize := 5; pageSize := 10; headRecheckIntervalMs := 1800000 |}.

Definition uuidOf (n : nat) : string := Z_toString (Z.of_nat n).

Definition liveCollection (id anchor : Z) : CollectionRecord := {|
  col_chainId := 1; col_id := id; col_address := "0xaa"; col_standard := Erc721; col_status := Live;
  col_bootstrapAnchorBlock := Some anchor |}.

Definition historyDb : Db := {|
  db_chainId := 1; db_collections := {[1 := liveCollection 1 1]}; db_revision := 0; db_blocks := ∅;
  db_coverage := {[1 := {[8; 10]}]}; db_scans := ∅; db_recovery := None; db_ledger := emptyLedger;
  db_outbox := emptyOutbox |}.

Definition world0 : World := {|
  w_db := historyDb; w_sched := initSched; w_discoveryRevision := None; w_now := 1000; w_uuids := 0; w_env := [] |}.

Definition repair9 : SyncGapRepairTarget := {|
  g_collectionId := 1; g_repairId := "sync:gap:1:1:0"; g_anchorBlock := 1;
  g_range := {| fromBlock := 9; toBlock := 9 |} |}.

Definition busy : Turn := {| tn_events := []; tn_now := 1500; tn_throws := true |}.

(** Block 9 is found missing, repaired by the other process, which also commits block
    11; the next recheck fails once, and the one after it finds block 12 missing. *)
Definition scanned : World := (scan scanOptions uuidOf 10 (during [] (beginPass (during [] world0)).2)).2.
Definition repaired : World :=
  elsewhere [EvCommitRepair repair9 {| fromBlock := 9; toBlock := 9 |} 5; EvPersist [1] {| fromBlock := 11; toBlock := 11 |}]
    2000 scanned.
Definition failed : World := (recheckNewlyEligible scanOptions uuidOf 12 (during [busy] repaired)).2.
Definition rechecked : World := (recheckNewlyEligible scanOptions uuidOf 12 (during [] failed)).2.

Lemma repaired_reachable : Reachable scanOptions uuidOf repaired.
Proof.
  eapply reach_step; [|apply step_elsewhere]. eapply reach_step; [|apply step_scan; [done|]].
  - eapply reach_step; [|apply step_begin]. by apply reach_init.
  - intros id p c Hp. vm_compute in Hp. discriminate.
Qed.

Lemma rechecked_reachable : Reachable scanOptions uuidOf rechecked.
Proof.
  eapply reach_step; [|by apply step_eligible]. eapply reach_step; [|by apply step_eligible].
  apply repaired_reachable.
Qed.

Lemma gaps_never_forgotten_witness :
  (pending <$> db_scans (w_db rechecked) !! 1) = Some (Some {|
     p_repairId := "sync:gap:1:1:1"; p_range := {| fromBlock := 12; toBlock := 12 |}; p_retryAt := 1500 |}) /\
  (cursorBlock <$> db_scans (w_db rechecked) !! 1) = Some (Some 11) /\
  forall b, 1 <= b <= 12 ->
     b ∈ coverageOf (w_db rechecked) 1 \/ (exists c, Some 11 = Some c /\ b <= c) \/
     (exists q, pending (default {| anchorBlock := 0; cursorBlock := None; pending := None; lastHeadCheckAt := None |}
                          (db_scans (w_db rechecked) !! 1)) = Some q /\ fromBlock (p_range q) <= b <= toBlock (p_range q)).
Proof.
  split; [vm_compute; reflexivity|]. split; [vm_compute; reflexivity|].
  apply (gaps_never_forgotten scanOptions uuidOf rechecked 1 {| ck_anchorBlock := 1; ck_upperBound := 12 |}
           {| anchorBlock := 1; cursorBlock := Some 11;
              pending := Some {| p_repairId := "sync:gap:1:1:1"; p_range := {| fromBlock := 12; toBlock := 12 |}; p_retryAt := 1500 |};
              lastHeadCheckAt := Some 1000 |}).
  - vm_compute. reflexivity.
  - apply rechecked_reachable.
  - vm_compute. reflexivity.
  - vm_compute. reflexivity.
  - vm_compute. reflexivity.
  - vm_compute. reflexivity.
Defined.

(** Why a search must not run at a head below the cursor: [Math.min(cursor ?? headBlock,
    headBlock)] drops the cursor from 8 to 3, and the missing blocks 6 and 7, which the
    process takes as checked, wait for the next periodic recheck. *)
Definition lagging : World := (scan scanOptions uuidOf 5 (during [] repaired)).2.

Example lagging_head_skips_blocks :
  db_scans (w_db lagging) !! 1 = Some {| anchorBlock := 1; cursorBlock := Some 3;
    pending := Some {| p_repairId := "sync:gap:1:1:1"; p_range := {| fromBlock := 4; toBlock := 5 |}; p_retryAt := 2000 |};
    lastHeadCheckAt := Some 1000 |} /\
  eligibleChecked (w_sched lagging) !! 1 = Some {| ck_anchorBlock := 1; ck_upperBound := 10 |} /\
  bool_decide (7 ∈ coverageOf (w_db lagging) 1) = false.
Proof. split_and!; vm_compute; reflexivity. Qed.

End GapSchedulerClaims.
