(* ===== verification/SyncDbProof.v ===== *)
(** * The synchronisation tables: what a transaction that commits has done

    Inversions of the monad over the tables, and the effect of persisting a range and
    of rolling back on blocks, coverage and the other tables. *)

From S2P Require Import Prelude JsValue OrderBy Chain Ledger Jobs QueueOutbox SyncDb.
Import Chain Ledger Jobs QueueOutbox SyncDb.

Open Scope Z_scope.

Module SyncDbProof.

Local Open Scope artgod_scope.

(** ** Inversions *)

Section Inversions.
Context {W A B : Type}.

Lemma mbind_ok (m : M W A) (f : A -> M W B) w b w' :
  mbind m f w = (Ok b, w') -> exists a w1, m w = (Ok a, w1) /\ f a w1 = (Ok b, w').
Proof. unfold mbind. destruct (m w) as [[a|e] w1]; [|done]. eauto. Qed.

Lemma mret_ok (a b : A) (w w' : W) : mret a w = (Ok b, w') -> b = a /\ w' = w.
Proof. by intros [= -> ->]. Qed.

Lemma mmodify_ok (f : W -> W) u w w' : mmodify f w = (Ok u, w') -> w' = f w.
Proof. by intros [= _ ->]. Qed.

Lemma mget_ok (v w w' : W) : mget w = (Ok v, w') -> v = w /\ w' = w.
Proof. by intros [= -> ->]. Qed.

End Inversions.

Lemma writeTransaction_ok {A} (m : M Db A) d a d' : writeTransaction m d = (Ok a, d') -> m d = (Ok a, d').
Proof. unfold writeTransaction. by destruct (m d) as [[?|?] ?]. Qed.

(** A transaction that throws changes nothing. *)
Lemma writeTransaction_err {A} (m : M Db A) d e d' : writeTransaction m d = (Err e, d') -> d' = d.
Proof. unfold writeTransaction. destruct (m d) as [[?|?] ?]; [done|]. by intros [= _ <-]. Qed.

Lemma throwIf_ok b e (d : Db) u d' : throwIf b e d = (Ok u, d') -> b = false /\ d' = d.
Proof. unfold throwIf. destruct b; [done|]. by intros [= _ <-]. Qed.

Lemma lift_ok {A} (r : result A) (d : Db) a d' : lift r d = (Ok a, d') -> r = Ok a /\ d' = d.
Proof. by intros [= -> ->]. Qed.

Lemma assertChainSyncCheckpoint_ok cp d u d' :
  assertChainSyncCheckpoint cp d = (Ok u, d') -> db_revision d = cp_revision cp /\ d' = d.
Proof. intros [H ->]%throwIf_ok. split; [|done]. apply negb_false_iff in H. by zbool. Qed.

End SyncDbProof.

(** Takes apart a run that did not throw. *)
Ltac minv H :=
  match type of H with
  | mbind _ _ _ = (Ok _, _) =>
      let a := fresh "a" in let w := fresh "w" in let H1 := fresh "H" in
      apply SyncDbProof.mbind_ok in H as (a & w & H1 & H); minv H1; minv H
  | SyncDb.writeTransaction _ _ = (Ok _, _) => apply SyncDbProof.writeTransaction_ok in H; minv H
  | SyncDb.throwIf _ _ _ = (Ok _, _) =>
      let H1 := fresh "H" in apply SyncDbProof.throwIf_ok in H as [H1 H]; subst
  | SyncDb.lift _ _ = (Ok _, _) =>
      let H1 := fresh "H" in apply SyncDbProof.lift_ok in H as [H1 H]; subst
  | mret _ _ = (Ok _, _) => let H1 := fresh "H" in apply SyncDbProof.mret_ok in H as [H1 H]; subst
  | mmodify _ _ = (Ok _, _) => apply SyncDbProof.mmodify_ok in H; subst
  | mget _ = (Ok _, _) => let H1 := fresh "H" in apply SyncDbProof.mget_ok in H as [H1 H]; subst
  | SyncDb.assertChainSyncCheckpoint _ _ = (Ok _, _) =>
      let H1 := fresh "H" in apply SyncDbProof.assertChainSyncCheckpoint_ok in H as [H1 H]; subst
  | _ => idtac
  end.

Module SyncDbEffects.

Local Open Scope artgod_scope.

(** ** Blocks *)

(** A row made of a header. *)
Definition rowOf (b : SyncBlockHeader) (row : BlockRow) : Prop :=
  b_hash row = h_hash b /\ b_parentHash row = h_parentHash b /\ b_timestamp row = h_timestamp b.

Lemma persistBlocks_ok blocks policy d u d' :
  persistBlocks blocks policy d = (Ok u, d') ->
  exists X, d' = setBlocks d X /\
    (forall n row, X !! n = Some row ->
       (exists b, In b blocks /\ h_number b = n /\ rowOf b row)
       \/ ~ In n (map h_number blocks) /\ db_blocks d !! n = Some row) /\
    (forall n, is_Some (db_blocks d !! n) -> is_Some (X !! n)) /\
    (forall b, In b blocks -> is_Some (X !! h_number b)).
Proof.
  revert d. induction blocks as [|b blocks IH]; intros d H; simpl in H.
  - minv H. exists (db_blocks d). split; [by destruct d|]. split_and!; [by right; split; [intros []|]|done|done].
  - minv H. apply IH in H as (X & -> & HX & Hs & Hb). exists X. split; [done|]. split_and!.
    + intros n row Hr. destruct (HX n row Hr) as [(c & Hc & Hn)|[Hni Hold]]; [left; exists c; split; [by right|done]|].
      unfold insertBlock in Hold. simpl in Hold. apply lookup_insert_Some in Hold as [[<- <-]|[Hne Hold]].
      * left. exists b. split; [by left|]. by split.
      * right. split; [|done]. by intros [?|?].
    + intros n [row Hr]. apply Hs. unfold insertBlock. simpl. destruct (decide (h_number b = n)) as [<-|Hne].
      * rewrite lookup_insert_eq. eauto.
      * rewrite lookup_insert_ne by done. eauto.
    + intros c [<-|Hc]; [|by apply Hb]. apply Hs. unfold insertBlock. simpl. rewrite lookup_insert_eq. eauto.
Qed.

(** ** Coverage *)

Lemma elem_of_coverBlock id n d id' b :
  b ∈ coverageOf (coverBlock id n d) id' <-> b ∈ coverageOf d id' \/ id' = id /\ b = n.
Proof.
  unfold coverBlock, coverageOf at 1, setCoverage. simpl. destruct (decide (id = id')) as [->|Hne].
  - rewrite lookup_insert_eq, elem_of_union, elem_of_singleton. tauto.
  - rewrite lookup_insert_ne by done. unfold coverageOf. intuition congruence.
Qed.

Lemma coverCollection_ok id blocks d :
  let d' := fold_left (fun d block => coverBlock id (h_number block) d) blocks d in
  (exists cov, d' = setCoverage d cov) /\
  forall id' b, b ∈ coverageOf d' id' <-> b ∈ coverageOf d id' \/ id' = id /\ In b (map h_number blocks).
Proof.
  revert d. induction blocks as [|c blocks IH]; intros d; simpl.
  - split; [exists (db_coverage d); by destruct d|]. tauto.
  - destruct (IH (coverBlock id (h_number c) d)) as [[cov ->] H]. split; [by exists cov|].
    intros id' b. rewrite H, elem_of_coverBlock. intuition congruence.
Qed.

Lemma persistCollectionSyncBlocks_ok blocks collections d :
  let d' := persistCollectionSyncBlocks blocks collections d in
  (exists cov, d' = setCoverage d cov) /\
  forall id b, b ∈ coverageOf d' id <->
    b ∈ coverageOf d id \/ In id (map col_id collections) /\ In b (map h_number blocks).
Proof.
  unfold persistCollectionSyncBlocks. revert d. induction collections as [|c collections IH]; intros d; simpl.
  - split; [exists (db_coverage d); by destruct d|]. tauto.
  - destruct (coverCollection_ok (col_id c) blocks d) as [[cov1 E1] H1].
    destruct (IH (fold_left (fun d block => coverBlock (col_id c) (h_number block) d) blocks d)) as [[cov E] H].
    simpl in E, H. split; [exists cov; rewrite E, E1; by destruct d|].
    intros id b. rewrite H, H1. intuition congruence.
Qed.

(** ** A range *)

Lemma persistSyncResult_ok r d u d' :
  persistSyncResult r d = (Ok u, d') ->
  exists X cov l, d' = setLedger (setCoverage (setBlocks d X) cov) l /\
    db_revision d = cp_revision (s_checkpoint r) /\
    (forall n row, X !! n = Some row ->
       (exists b, In b (s_blocks r) /\ h_number b = n /\ rowOf b row)
       \/ ~ In n (map h_number (s_blocks r)) /\ db_blocks d !! n = Some row) /\
    (forall n, is_Some (db_blocks d !! n) -> is_Some (X !! n)) /\
    (forall b, In b (s_blocks r) -> is_Some (X !! h_number b)) /\
    forall id b, b ∈ coverageOf d' id <->
      b ∈ coverageOf d id \/ In id (map col_id (s_collections r)) /\ In b (map h_number (s_blocks r)).
Proof.
  intros H. unfold persistSyncResult in H. minv H.
  match goal with Hc : (match storedConflict ?bs ?d with _ => _ end) = _ |- _ =>
    destruct (storedConflict bs d) as [[? ?]|]; [discriminate Hc|minv Hc] end.
  match goal with Hb : persistBlocks _ _ _ = _ |- _ => apply persistBlocks_ok in Hb as (X & -> & HX & Hs & Hb) end.
  destruct (persistCollectionSyncBlocks_ok (s_blocks r) (s_collections r) (setBlocks d X)) as [[cov E] Hcov].
  simpl in E, Hcov. rewrite E in H, Hcov.
  destruct (persistLedger _ _ _ _ _) as [l|e]; [|done]. injection H as _ <-.
  exists X, cov, l. by split_and!.
Qed.

Lemma persistSyncResult_matches r d u d' :
  persistSyncResult r d = (Ok u, d') -> assertSyncResultMatchesBlocks (s_blocks r) (factsOf (s_data r)) = Ok tt.
Proof.
  intros H. unfold persistSyncResult in H. minv H.
  by destruct (assertSyncResultMatchesBlocks _ _) as [[]|] in *.
Qed.

(** No block of the range contradicts a stored one, and the ledger is that of the range. *)
Lemma persistSyncResult_ledger r d u d' :
  persistSyncResult r d = (Ok u, d') ->
  storedConflict (s_blocks r) d = None
  /\ persistLedger (db_collections d) (s_blocks r) (od_nftTransferEvents (s_data r)) (s_collections r) (db_ledger d)
     = Ok (db_ledger d').
Proof.
  intros H. unfold persistSyncResult in H. minv H.
  match goal with Hc : (match storedConflict ?bs ?d with _ => _ end) = _ |- _ =>
    destruct (storedConflict bs d) as [[? ?]|]; [discriminate Hc|minv Hc] end.
  match goal with Hb : persistBlocks _ _ _ = _ |- _ => apply persistBlocks_ok in Hb as (X & -> & _) end.
  destruct (persistCollectionSyncBlocks_ok (s_blocks r) (s_collections r) (setBlocks d X)) as [[cov E] _].
  simpl in E. rewrite E in H. destruct (persistLedger _ _ _ _ _) as [l|e] eqn:El; [|done]. injection H as _ <-. done.
Qed.

(** ** Rolling back *)

Lemma maxAnchor_ge d id c a :
  db_collections d !! id = Some c -> col_bootstrapAnchorBlock c = Some a ->
  exists m, maxAnchor d = Some m /\ a <= m.
Proof.
  intros Hc Ha. unfold maxAnchor. apply elem_of_map_to_list in Hc.
  induction (map_to_list (db_collections d)) as [|[id' c'] l IH]; [by apply elem_of_nil in Hc|].
  apply elem_of_cons in Hc as [[= <- <-]|Hc]; simpl.
  - rewrite Ha. destruct (fold_right _ _ _) as [m|]; eexists; (split; [done|lia]).
  - destruct (IH Hc) as (m & -> & Hm). destruct (col_bootstrapAnchorBlock c') as [a'|]; eexists; (split; [done|lia]).
Qed.

Lemma rollbackFromBlock_ok plan snapshot d u d' :
  rollbackFromBlock plan snapshot d = (Ok u, d') ->
  let from := rp_fromBlock plan in
  db_revision d = cp_revision (rp_checkpoint plan) /\
  db_revision d' = db_revision d + 1 /\
  db_collections d' = db_collections d /\ db_scans d' = db_scans d /\ db_recovery d' = db_recovery d /\
  h_number (sn_block snapshot) = from - 1 /\
  (forall id c a, db_collections d !! id = Some c -> col_bootstrapAnchorBlock c = Some a -> a < from) /\
  (forall n row, db_blocks d' !! n = Some row ->
     n < from /\ (n = from - 1 /\ rowOf (sn_block snapshot) row \/ n <> from - 1 /\ db_blocks d !! n = Some row)) /\
  is_Some (db_blocks d' !! (from - 1)) /\
  (forall n, n < from -> is_Some (db_blocks d !! n) -> is_Some (db_blocks d' !! n)) /\
  (forall id b, b ∈ coverageOf d' id <-> b ∈ coverageOf d id /\ b < from) /\
  db_outbox d' = deleteFollowUpsFromBlock (db_chainId d) from (db_outbox d).
Proof.
  intros H. cbv zeta. unfold rollbackFromBlock, assertRollbackPreservesAnchors in H. cbv zeta in H. minv H.
  assert (w = d) as ->.
  { destruct (getBlockHash d (rp_fromBlock plan - 1)); by minv H0. }
  destruct (rollbackLedger _ _ _ _ _) as [l|e]; [|done]. injection H4 as _ <-.
  apply persistBlocks_ok in H5 as (X & -> & HX & Hs & Hb). apply SyncDbProof.mmodify_ok in H as ->.
  apply negb_false_iff in H2, H3. zbool. set (from := rp_fromBlock plan) in *. simpl in HX, Hs.
  split_and!; try done; simpl.
  - intros id c a8 Hc Ha. destruct (maxAnchor_ge d id c a8 Hc Ha) as (m & Em & Hm).
    rewrite Em in H2. simpl in H2. zbool. lia.
  - intros n row Hn. destruct (HX n row Hn) as [(b & [<-|[]] & <- & Hrow)|[Hni Hold]].
    + split; [lia|]. left. split; [lia|done].
    + apply map_lookup_filter_Some in Hold as [Hold Hlt]. split; [done|].
      right. split; [|done]. intros ->. apply Hni. by left.
  - rewrite <- H3. apply Hb. by left.
  - intros n Hn [row Hr]. apply Hs. exists row. by apply map_lookup_filter_Some.
  - intros id b. unfold coverageOf. simpl. rewrite lookup_fmap. destruct (db_coverage d !! id) as [c|]; simpl.
    + rewrite elem_of_filter. tauto.
    + split; [done|]. by intros [? _].
Qed.

End SyncDbEffects.
