(* ===== verification/Reorg.v ===== *)
(** * Recovery from a chain reorganisation, and the commit of a range

    The rules of domain/reorg-fork.ts and domain/reorg-recovery.ts, the row of
    [SqliteReorgRecoveries], the one writer of synchronised ranges
    ([SqliteSyncRangeCommit], with the rows [SqliteQueueOutbox] retains), and the class
    [RecoverChainReorg] with its helpers application/reorg-fork.ts, sync-blocks.ts and
    reorg-rollback.ts.

    The class runs in a process of its own.  Each of its calls, of a store or of the
    RPC provider, takes a turn in which the other processes do anything to the
    database ([rt_env]), the clock moves, and the call may throw.  Logs are left out,
    save that the one announcing a rollback is the result of [resume]. *)

From S2P Require Import Prelude JsValue OrderBy Chain Ledger SyncBlocks Jobs QueueOutbox SyncDb GapRepair.
Import Chain Ledger Jobs QueueOutbox SyncDb GapRepair.

Open Scope Z_scope.

Module Reorg.

Local Open Scope artgod_scope.

(** ** The common ancestor *)

Record ReorgAncestorProof := {
  ap_fork : SyncBlockHeader;
  ap_chainId : Z;
  ap_history : ReorgHistorySnapshot;
}.

Definition byNumber (blocks : list SyncBlockHeader) : list (Z * SyncBlockHeader) :=
  fold_left (fun m b => jm_set (h_number b) b m) blocks [].

(** The first loop of [proveReorgAncestor]. *)
Fixpoint firstDivergence (canonical : list (Z * SyncBlockHeader)) (headers : list SyncBlockHeader) (best : Z)
    : result Z :=
  match headers with
  | [] => Ok best
  | stored :: rest =>
      match jm_get (h_number stored) canonical with
      | None => Err "Stored header is outside the ancestor window"
      | Some current =>
          let best := if negb (bool_decide (h_hash stored = h_hash current))
                         || negb (h_timestamp stored =? h_timestamp current)
                      then Z.min best (h_number stored) else best in
          let best := if (0 <? h_number stored) && negb (bool_decide (h_parentHash stored = h_parentHash current))
                      then Z.min best (h_number stored - 1) else best in
          firstDivergence canonical rest best
      end
  end.

(** The second loop: the highest full match below every divergence. *)
Fixpoint newestMatch (canonical : list (Z * SyncBlockHeader)) (headers : list SyncBlockHeader) (divergence : Z)
    (fork : option SyncBlockHeader) : option SyncBlockHeader :=
  match headers with
  | [] => fork
  | stored :: rest =>
      newestMatch canonical rest divergence
        (match jm_get (h_number stored) canonical with
         | Some current =>
             if (h_number stored <? divergence) && sameHeader stored current
                && match fork with Some f => h_number f <? h_number stored | None => true end
             then Some current else fork
         | None => fork
         end)
  end.

Definition proveReorgAncestor (history : ReorgHistorySnapshot) (canonicalBlocks : list SyncBlockHeader)
    : result (option ReorgAncestorProof) :=
  try _ <- assertSyncBlockHeaders canonicalBlocks;
  if negb (coversRange canonicalBlocks (fromBlock (hs_range history)) (toBlock (hs_range history)))
  then Err "Incomplete canonical ancestor window"
  else
    let canonical := byNumber canonicalBlocks in
    try divergence <- firstDivergence canonical (hs_headers history) (toBlock (hs_range history));
    Ok ((fun fork => {| ap_fork := fork; ap_chainId := cp_chainId (hs_checkpoint history); ap_history := history |})
          <$> newestMatch canonical (hs_headers history) divergence None).

(** ** The recovery row *)

Record ReorgResyncRange := {
  rr_recoveryId : string; rr_revision : Z; rr_chainId : Z; rr_range : Range;
}.

(** [next !== current]: the state is a new one. *)
Definition retainReorgMismatch (current : option ReorgRecoveryState) (checkpoint : ChainSyncCheckpoint)
    (recoveryId : string) (checkedBlock : Z) (storedHash observedHash : string) (now : Z)
    : ReorgRecoveryState * bool :=
  let fresh := AwaitingReorgAncestor
    {| r_recoveryId := recoveryId; r_revision := cp_revision checkpoint; r_chainId := cp_chainId checkpoint;
       r_version := match current with Some c => r_version (baseOf c) | None => -1 end + 1;
       r_checkedBlock := checkedBlock; r_storedHash := storedHash; r_observedHash := observedHash;
       r_retryAt := now |}
    (match current with
     | Some (ReorgResync _ range _) => Some (fromBlock range)
     | Some (AwaitingReorgAncestor _ resumeFrom) => resumeFrom
     | None => None
     end) in
  match current with
  | Some (AwaitingReorgAncestor base resumeFrom) =>
      if (r_revision base =? cp_revision checkpoint) && (r_checkedBlock base <=? checkedBlock)
      then (AwaitingReorgAncestor base resumeFrom, false)
      else (fresh, true)
  | _ => (fresh, true)
  end.

(** The same recovery, under its next version. *)
Definition nextBase (base : RecoveryBase) (revision retryAt : Z) : RecoveryBase := {|
  r_recoveryId := r_recoveryId base; r_revision := revision; r_chainId := r_chainId base;
  r_version := r_version base + 1; r_checkedBlock := r_checkedBlock base; r_storedHash := r_storedHash base;
  r_observedHash := r_observedHash base; r_retryAt := retryAt |}.

Definition beginReorgResync (base : RecoveryBase) (resumeFrom : option Z) (rollbackFrom head batchSize retryAt : Z)
    : result (option ReorgRecoveryState) :=
  if head <? rollbackFrom - 1 then Err "Recovery head is behind the verified fork" else
  let from := Z.min rollbackFrom (default rollbackFrom resumeFrom) in
  if head <? from then Ok None
  else Ok (Some (ReorgResync (nextBase base (r_revision base + 1) retryAt)
                   {| fromBlock := from; toBlock := Z.min head (from + batchSize - 1) |} head)).

Definition advanceReorgResync (base : RecoveryBase) (range : Range) (targetBlock batchSize retryAt : Z)
    : option ReorgRecoveryState :=
  let from := toBlock range + 1 in
  if targetBlock <? from then None
  else Some (ReorgResync (nextBase base (r_revision base) retryAt)
               {| fromBlock := from; toBlock := Z.min targetBlock (from + batchSize - 1) |} targetBlock).

Definition isCurrentReorgRange (recovery : option ReorgRecoveryState) (range : ReorgResyncRange) : bool :=
  match recovery with
  | Some (ReorgResync base r _) =>
      (r_chainId base =? rr_chainId range) && bool_decide (r_recoveryId base = rr_recoveryId range)
      && (r_revision base =? rr_revision range) && bool_decide (r = rr_range range)
  | _ => false
  end.

(** *** Statements *)

Definition samePhase (a b : ReorgRecoveryState) : bool :=
  match a, b with
  | AwaitingReorgAncestor _ _, AwaitingReorgAncestor _ _ | ReorgResync _ _ _, ReorgResync _ _ _ => true
  | _, _ => false
  end.

Definition assertRecoveryCheckpoint (revision : Z) : M Db unit := fun d =>
  throwIf (negb (db_revision d =? revision)) "Recovery chain revision changed" d.

Definition assertCurrent (expected : ReorgRecoveryState) : M Db unit := fun d =>
  throwIf
    (match db_recovery d with
     | None => true
     | Some current =>
         negb (bool_decide (r_recoveryId (baseOf current) = r_recoveryId (baseOf expected)))
         || negb (r_revision (baseOf current) =? r_revision (baseOf expected))
         || negb (r_version (baseOf current) =? r_version (baseOf expected))
         || negb (samePhase current expected)
     end) "Reorg recovery changed during processing" d.

Definition save (state : option ReorgRecoveryState) : M Db unit := mmodify (fun d => setRecovery d state).

Definition retainMismatch (checkpoint : ChainSyncCheckpoint) (recoveryId : string) (checkedBlock : Z)
    (storedHash observedHash : string) (now : Z) : M Db ReorgRecoveryState :=
  writeTransaction
    (do! assertRecoveryCheckpoint (cp_revision checkpoint) in
     do! (fun d => throwIf (negb (bool_decide (getBlockHash d checkedBlock = Some storedHash)))
                     "Mismatch no longer describes persisted history" d) in
     let! d := mget in
     let '(next, new) :=
       retainReorgMismatch (db_recovery d) checkpoint recoveryId checkedBlock storedHash observedHash now in
     do! (if new then save (Some next) else mret tt) in
     let! completed := completeCheck {| pc_chainId := cp_chainId checkpoint; pc_blockNumber := checkedBlock;
                                        pc_blockHash := storedHash; pc_checkpoint := checkpoint |} in
     do! throwIf (negb completed) "Mismatch check no longer describes pending verification" in
     mret next).

Definition refreshCheckpoint (expected : ReorgRecoveryState) (checkpoint : ChainSyncCheckpoint)
    (recoveryId : string) (now : Z) : M Db unit :=
  writeTransaction
    (do! assertCurrent expected in
     do! assertRecoveryCheckpoint (cp_revision checkpoint) in
     save (Some (retainReorgMismatch (Some expected) checkpoint recoveryId (r_checkedBlock (baseOf expected))
                   (r_storedHash (baseOf expected)) (r_observedHash (baseOf expected)) now).1)).

Definition withRetryAt (base : RecoveryBase) (retryAt : Z) : RecoveryBase := {|
  r_recoveryId := r_recoveryId base; r_revision := r_revision base; r_chainId := r_chainId base;
  r_version := r_version base; r_checkedBlock := r_checkedBlock base; r_storedHash := r_storedHash base;
  r_observedHash := r_observedHash base; r_retryAt := retryAt |}.

Definition deferProof (expected : RecoveryBase) (retryAt : Z) : M Db unit := mmodify (fun d =>
  match db_recovery d with
  | Some (AwaitingReorgAncestor base resumeFrom) =>
      if bool_decide (r_recoveryId base = r_recoveryId expected) && (r_version base =? r_version expected)
      then setRecovery d (Some (AwaitingReorgAncestor (withRetryAt base retryAt) resumeFrom))
      else d
  | _ => d
  end).

Definition commitRollbackAndResync (expected : RecoveryBase) (resumeFrom : option Z) (proof : ReorgAncestorProof)
    (plan : ReorgRollbackPlan) (snapshot : Erc721RollbackSnapshot) (next : option ReorgRecoveryState) : M Db unit :=
  let history := ap_history proof in
  let fork := ap_fork proof in
  writeTransaction
    (do! assertCurrent (AwaitingReorgAncestor expected resumeFrom) in
     do! throwIf
           (negb (cp_chainId (rp_checkpoint plan) =? r_chainId expected)
            || negb (cp_revision (rp_checkpoint plan) =? r_revision expected)
            || negb (cp_chainId (hs_checkpoint history) =? r_chainId expected)
            || negb (cp_revision (hs_checkpoint history) =? r_revision expected)
            || negb (toBlock (hs_range history) =? r_checkedBlock expected)
            || negb (ap_chainId proof =? r_chainId expected)
            || (h_number fork <? fromBlock (hs_range history))
            || (toBlock (hs_range history) <=? h_number fork)
            || negb (rp_fromBlock plan =? h_number fork + 1)
            || negb (bool_decide (h_hash (sn_block snapshot) = h_hash fork)))
           "Rollback plan does not match recovery ancestor proof" in
     do! assertReorgHistoryUnchanged history in
     do! throwIf
           (match next with
            | None => false
            | Some n =>
                negb (r_chainId (baseOf n) =? r_chainId expected)
                || negb (bool_decide (r_recoveryId (baseOf n) = r_recoveryId expected))
                || negb (r_version (baseOf n) =? r_version expected + 1)
                || negb (r_revision (baseOf n) =? r_revision expected + 1)
            end) "Resync continuation does not match rollback" in
     do! rollbackFromBlock plan snapshot in
     save next).

Definition deferResync (range : ReorgResyncRange) (retryAt : Z) : M Db unit := mmodify (fun d =>
  match db_recovery d with
  | Some (ReorgResync base r target) =>
      if isCurrentReorgRange (Some (ReorgResync base r target)) range
      then setRecovery d (Some (ReorgResync (withRetryAt base retryAt) r target))
      else d
  | _ => d
  end).

Definition completeResyncRange (range : ReorgResyncRange) (batchSize retryAt : Z) : M Db bool :=
  writeTransaction
    (let! d := mget in
     if negb (isCurrentReorgRange (db_recovery d) range) then mret false else
     match db_recovery d with
     | Some (ReorgResync base r target) =>
         do! assertRecoveryCheckpoint (r_revision base) in
         do! save (advanceReorgResync base r target batchSize retryAt) in
         mret true
     | _ => mret false
     end).

(** ** The commit of a range *)

(** The loop of [assertSyncFollowUpsMatchBlocks]. *)
Fixpoint assertSyncFollowUpsMatchBlocks (chainId : Z) (blocks : list SyncBlockHeader) (collectionIds : list Z)
    (followUps : list SyncFollowUp) : result unit :=
  match followUps with
  | [] => Ok tt
  | followUp :: rest =>
      if negb (j_chainId (jobOf followUp) =? chainId)
         || match j_collectionId (jobOf followUp) with
            | Some id => negb (bool_decide (id ∈ collectionIds))
            | None => false
            end
      then Err "Sync follow-up has a different acquisition scope" else
      match followUp with
      | EventFollowUp _ eventChainId number hash =>
          if negb (eventChainId =? chainId)
             || negb (bool_decide (h_hash <$> jm_get number (byNumber blocks) = Some hash))
          then Err "Sync follow-up does not match its canonical header"
          else assertSyncFollowUpsMatchBlocks chainId blocks collectionIds rest
      | RangeFollowUp _ => assertSyncFollowUpsMatchBlocks chainId blocks collectionIds rest
      end
  end.

Inductive SyncWorkCompletion :=
  | Unmanaged
  | CompleteGapRepair (batch : SyncGapRepairBatch) (retryAt : Z)
  | CompleteReorgResync (range : ReorgResyncRange) (batchSize retryAt : Z).

Record SyncRangeCommit := {
  c_result : SyncRangeResult;
  c_followUps : list SyncFollowUp;
  c_completion : SyncWorkCompletion;
}.

(** The loop over the members of a repair; [acquired] loses each member it meets. *)
Fixpoint ownsMembers (chainId : Z) (batch : SyncGapRepairBatch) (repairs : list SyncGapRepairTarget)
    (acquired : gset Z) (d : Db) : bool :=
  match repairs with
  | [] => true
  | repair :: rest =>
      bool_decide (g_collectionId repair ∈ acquired)
      && (fromBlock (g_range repair) <=? fromBlock (bt_range batch))
      && (toBlock (bt_range batch) =? toBlock (g_range repair))
      && isCurrentSyncGapRepair chainId repair (db_collections d !! g_collectionId repair)
           (getProgress (g_collectionId repair) d)
      && ownsMembers chainId batch rest (acquired ∖ {[g_collectionId repair]}) d
  end.

Definition assertCommitCurrent (input : SyncRangeCommit) : M Db unit := fun d =>
  let blocks := s_blocks (c_result input) in
  let chainId := cp_chainId (s_checkpoint (c_result input)) in
  match c_completion input with
  | Unmanaged => mret tt d
  | CompleteReorgResync range _ _ =>
      (do! lift (assertSyncBlocksCoverRange blocks (fromBlock (rr_range range)) (toBlock (rr_range range))) in
       throwIf (negb (rr_chainId range =? chainId)
                || negb (rr_revision range =? cp_revision (s_checkpoint (c_result input)))
                || negb (isCurrentReorgRange (db_recovery d) range))
         "Reorg acquisition no longer owns its range") d
  | CompleteGapRepair batch _ =>
      let acquired : gset Z := list_to_set (map col_id (s_collections (c_result input))) in
      (do! lift (assertSyncBlocksCoverRange blocks (fromBlock (bt_range batch)) (toBlock (bt_range batch))) in
       do! throwIf (bool_decide (bt_repairs batch = [])
                    || negb (size acquired =? length (bt_repairs batch))%nat)
             "Gap acquisition has different members" in
       throwIf (negb (ownsMembers chainId batch (bt_repairs batch) acquired d))
         "Gap acquisition no longer owns its member range") d
  end.

Fixpoint recordMembers (batch : SyncGapRepairBatch) (repairs : list SyncGapRepairTarget) (retryAt : Z) : M Db unit :=
  match repairs with
  | [] => mret tt
  | repair :: rest =>
      let! recorded := (fun d =>
        let '(b, d) := recordRepairProgress repair
                         (remainingSyncGapRepairRange repair (fromBlock (bt_range batch))) retryAt d in
        (Ok b, d)) in
      do! throwIf (negb recorded) "Gap repair completion changed inside sync commit" in
      recordMembers batch rest retryAt
  end.

Definition commitSyncRange (input : SyncRangeCommit) : M Db unit :=
  let result := c_result input in
  writeTransaction
    (do! assertCommitCurrent input in
     do! lift (assertSyncFollowUpsMatchBlocks (cp_chainId (s_checkpoint result)) (s_blocks result)
                 (map col_id (s_collections result)) (c_followUps input)) in
     do! persistSyncResult result in
     do! mmodify (fun d => setOutbox d (fold_left (enqueueSyncFollowUp (cp_revision (s_checkpoint result)))
                                          (c_followUps input) (db_outbox d))) in
     match c_completion input with
     | Unmanaged => mret tt
     | CompleteGapRepair batch retryAt => recordMembers batch (bt_repairs batch) retryAt
     | CompleteReorgResync range batchSize retryAt =>
         let! completed := completeResyncRange range batchSize retryAt in
         throwIf (negb completed) "Reorg range completion changed inside sync commit"
     end).

(** [CanonicalSyncJobAdmission.isCurrent]: whether a published job may still run. *)
Definition isCurrentJob (jobChainId : Z) (onchainBlock : option (Z * Z * string)) (d : Db) : bool :=
  match onchainBlock with
  | None => true
  | Some (chainId, number, hash) =>
      (chainId =? jobChainId) && isSafeInteger number && (0 <=? number)
      && bool_decide (getBlockHash d number = Some hash)
  end.

(** ** The recovery process *)

Record Turn := {
  rt_env : Db -> Db;
  rt_now : Z;
  rt_throws : bool;
  rt_block : result SyncBlockHeader;
  rt_head : result Z;
  rt_snapshot : result Erc721RollbackSnapshot;
}.

Record World := { w_db : Db; w_now : Z; w_uuids : nat; w_turn : nat }.

Record ReorgRecoveryOptions := { o_chainId : Z; o_reorgDepth : Z; o_batchSize : Z; o_retryDelayMs : Z }.

(** What the log line of a committed rollback says. *)
Record RollbackCommitted := {
  rc_recovery : RecoveryBase;
  rc_resumeFrom : option Z;
  rc_proof : ReorgAncestorProof;
  rc_plan : ReorgRollbackPlan;
  rc_head : Z;
  rc_next : option ReorgRecoveryState;
}.

Section Process.
Context (options : ReorgRecoveryOptions) (uuidText : nat -> string).
(** The turns of the calls, in order. *)
Context (turns : nat -> Turn).

(** The other processes up to the next call. *)
Definition advance (w : World) : World :=
  let t := turns (w_turn w) in
  {| w_db := rt_env t (w_db w); w_now := rt_now t; w_uuids := w_uuids w; w_turn := S (w_turn w) |}.

Definition store {A} (m : M Db A) : M World A := fun w =>
  let t := turns (w_turn w) in
  let w := advance w in
  if rt_throws t then (Err "SQLITE_BUSY", w)
  else let '(r, d) := m (w_db w) in
       (r, {| w_db := d; w_now := w_now w; w_uuids := w_uuids w; w_turn := w_turn w |}).

Definition read {A} (f : Db -> A) : M World A := store (fun d => (Ok (f d), d)).

Definition rpc {A} (f : Turn -> result A) : M World A := fun w => (f (turns (w_turn w)), advance w).

Definition clock : M World Z := fun w => (Ok (w_now w), w).

Definition raise {A} (r : result A) : M World A := fun w => (r, w).

Definition randomUUID : M World string := fun w =>
  (Ok (uuidText (w_uuids w)),
   {| w_db := w_db w; w_now := w_now w; w_uuids := S (w_uuids w); w_turn := w_turn w |}).

(** *** application/sync-blocks.ts *)

Definition fetchCanonicalSyncBlocks (from to : Z) : M World (list SyncBlockHeader) :=
  SyncBlocks.fetchCanonicalSyncBlocks (fun _ => rpc rt_block) from to.

(** *** application/reorg-fork.ts *)

Definition findCommonAncestor (startBlock : Z) : M World (option ReorgAncestorProof) :=
  let minBlock := Z.max 0 (startBlock - Z.max 1 (o_reorgDepth options)) in
  let! history := read (captureReorgHistory minBlock startBlock) in
  match hs_headers history with
  | [] => mret None
  | _ :: _ =>
      let! canonicalBlocks := fetchCanonicalSyncBlocks minBlock startBlock in
      raise (proveReorgAncestor history canonicalBlocks)
  end.

(** *** [RollbackChainRange.prepare] *)

Definition prepare (fork : SyncBlockHeader) : M World (ReorgRollbackPlan * Erc721RollbackSnapshot) :=
  let! plan := store (prepareRollback (h_number fork + 1)) in
  let! snapshot := rpc rt_snapshot in
  mret (plan, snapshot).

(** *** [RecoverChainReorg] *)

Definition resume : M World (option RollbackCommitted) :=
  let! recovery := read db_recovery in
  let! now := clock in
  match recovery with
  | None => mret None
  | Some state =>
      if now <? r_retryAt (baseOf state) then mret None else
      let! checkpoint := read captureSyncCheckpoint in
      if negb (cp_revision checkpoint =? r_revision (baseOf state)) then
        let! recoveryId := randomUUID in
        let! now := clock in
        do! store (refreshCheckpoint state checkpoint recoveryId now) in
        mret None
      else match state with
      | ReorgResync _ _ _ => mret None
      | AwaitingReorgAncestor base resumeFrom =>
          mcatch
            (let! proof := findCommonAncestor (r_checkedBlock base) in
             match proof with
             | None =>
                 let! now := clock in
                 do! store (deferProof base (now + o_retryDelayMs options)) in
                 mret None
             | Some proof =>
                 let! prepared := prepare (ap_fork proof) in
                 let '(plan, snapshot) := prepared in
                 do! raise (if cp_revision (rp_checkpoint plan) =? r_revision base then Ok tt
                            else Err "Recovery revision changed before rollback preparation") in
                 let! head := rpc rt_head in
                 let! now := clock in
                 let! next := raise (beginReorgResync base resumeFrom (rp_fromBlock plan) head
                                       (o_batchSize options) now) in
                 do! store (commitRollbackAndResync base resumeFrom proof plan snapshot next) in
                 mret (Some {| rc_recovery := base; rc_resumeFrom := resumeFrom; rc_proof := proof; rc_plan := plan;
                               rc_head := head; rc_next := next |})
             end)
            (fun _ =>
               let! now := clock in
               do! store (deferProof base (now + o_retryDelayMs options)) in
               mret None)
      end
  end.

(** [resumeDue] runs [resume] when no attempt is active. *)
Definition checkBlock (check : PendingCanonicalCheck) : M World (option RollbackCommitted) :=
  do! raise (if negb (pc_chainId check =? o_chainId options)
                || negb (cp_chainId (pc_checkpoint check) =? pc_chainId check)
             then Err "Canonical check chain mismatch" else Ok tt) in
  let! retained :=
    mcatch
      (let! checkpoint := read captureSyncCheckpoint in
       if negb (cp_revision checkpoint =? cp_revision (pc_checkpoint check)) then mret false else
       let! stored := read (fun d => getBlockHash d (pc_blockNumber check)) in
       if negb (bool_decide (stored = Some (pc_blockHash check))) then mret false else
       let! block := rpc rt_block in
       do! raise (if h_number block =? pc_blockNumber check then Ok tt
                  else Err "Block check RPC returned the wrong block") in
       if bool_decide (h_hash block = pc_blockHash check)
       then do! store (completeCheck check) in mret false
       else
         let! recoveryId := randomUUID in
         let! now := clock in
         do! store (retainMismatch (pc_checkpoint check) recoveryId (pc_blockNumber check)
                      (pc_blockHash check) (h_hash block) now) in
         mret true)
      (fun _ =>
         let! checkpoint := read captureSyncCheckpoint in
         do! (if cp_revision checkpoint =? cp_revision (pc_checkpoint check)
              then let! now := clock in store (deferCheck check (now + o_retryDelayMs options))
              else mret tt) in
         mret false) in
  if retained then resume else mret None.

Definition checkDue : M World bool :=
  let! now := clock in
  let! due := read (hasPendingCheck now) in
  if negb due then mret false else
  let! head := rpc rt_head in
  let! now := clock in
  let! check := read (nextDueCheck now (canonicalCheckUpperBound head (o_reorgDepth options))) in
  match check with
  | None => mret false
  | Some check => do! checkBlock check in mret true
  end.

(** One round of [startReorgRecoveryLoop]. *)
Definition poll : M World bool :=
  mcatch (do! resume in checkDue) (fun _ => mret false).

End Process.

End Reorg.
