(* ===== verification/ReorgProof.v ===== *)
(** * Recovery from a reorganisation: the ancestor and the rollback *)

From S2P Require Import Prelude JsValue OrderBy Chain Ledger SyncBlocks Jobs QueueOutbox SyncDb SyncDbProof GapRepair Reorg.
Import Chain Ledger Jobs QueueOutbox SyncDb SyncDbProof SyncDbEffects GapRepair Reorg.

Open Scope Z_scope.

Module ReorgProof.

Local Open Scope artgod_scope.

(** ** Headers by number *)

Lemma byNumber_app blocks b : byNumber (blocks ++ [b]) = jm_set (h_number b) b (byNumber blocks).
Proof. unfold byNumber. by rewrite fold_left_app. Qed.

Lemma byNumber_get blocks n c : jm_get n (byNumber blocks) = Some c -> In c blocks /\ h_number c = n.
Proof.
  induction blocks as [|b blocks IH] using rev_ind; [done|]. rewrite byNumber_app, jm_get_set.
  case_decide as Hd; [intros [= <-]; split; [apply in_app_iff; right; by left|done]|].
  intros [Hin Hn]%IH. split; [apply in_app_iff; by left|done].
Qed.

Lemma byNumber_total blocks b : In b blocks -> exists c, jm_get (h_number b) (byNumber blocks) = Some c.
Proof.
  induction blocks as [|a blocks IH] using rev_ind; [done|]. intros Hin. rewrite byNumber_app, jm_get_set.
  case_decide; [eauto|]. apply in_app_iff in Hin as [Hin|[->|[]]]; [by apply IH|done].
Qed.

(** No two blocks of a range share a number. *)
Lemma coversRange_unique blocks from to a b :
  coversRange blocks from to = true -> In a blocks -> In b blocks -> h_number a = h_number b -> a = b.
Proof.
  intros [_ Hn]%andb_true_iff (i & Hi)%list_elem_of_In%list_elem_of_lookup (j & Hj)%list_elem_of_In%list_elem_of_lookup E.
  pose proof (numberedFrom_lookup _ _ _ _ Hn Hi). pose proof (numberedFrom_lookup _ _ _ _ Hn Hj).
  assert (i = j) as -> by lia. congruence.
Qed.

Lemma sameHeader_spec a b :
  sameHeader a b = true <-> h_hash a = h_hash b /\ h_parentHash a = h_parentHash b /\ h_timestamp a = h_timestamp b.
Proof. unfold sameHeader. rewrite !andb_true_iff, !bool_decide_eq_true, Z.eqb_eq. tauto. Qed.

Lemma header_eq a b : h_number a = h_number b -> sameHeader a b = true -> a = b.
Proof. rewrite sameHeader_spec. destruct a, b. simpl. intuition congruence. Qed.

(** ** The two loops *)

Definition diverges (s c : SyncBlockHeader) : Prop := h_hash s <> h_hash c \/ h_timestamp s <> h_timestamp c.

(** [n] lies below what the stored header [s], against [c], shows to have changed. *)
Definition below (n : Z) (s c : SyncBlockHeader) : Prop :=
  (diverges s c -> n < h_number s) /\
  (0 < h_number s -> h_parentHash s <> h_parentHash c -> n < h_number s - 1).

Lemma firstDivergence_ok canonical headers best d :
  firstDivergence canonical headers best = Ok d ->
  (forall s, In s headers -> exists c, jm_get (h_number s) canonical = Some c) /\
  forall n, n < d <-> n < best /\ forall s c, In s headers -> jm_get (h_number s) canonical = Some c -> below n s c.
Proof.
  revert best. induction headers as [|s headers IH]; intros best H; simpl in H.
  - injection H as <-. split; [done|]. intros n. split; [intros ?; split; [done|]|by intros [? _]]. intros s c [].
  - destruct (jm_get (h_number s) canonical) as [c|] eqn:Ec; [|done]. apply IH in H as [Hex H]. split.
    + intros s' [<-|Hin]; [eauto|by apply Hex].
    + intros n. rewrite H. clear H.
      assert (n < (let best := if negb (bool_decide (h_hash s = h_hash c)) || negb (h_timestamp s =? h_timestamp c)
                               then Z.min best (h_number s) else best in
                   if (0 <? h_number s) && negb (bool_decide (h_parentHash s = h_parentHash c))
                   then Z.min best (h_number s - 1) else best) <-> n < best /\ below n s c) as Hs.
      { cbv zeta. unfold below.
        assert (negb (bool_decide (h_hash s = h_hash c)) || negb (h_timestamp s =? h_timestamp c) = true <-> diverges s c) as HD.
        { unfold diverges. rewrite orb_true_iff, !negb_true_iff, bool_decide_eq_false, Z.eqb_neq. tauto. }
        assert ((0 <? h_number s) && negb (bool_decide (h_parentHash s = h_parentHash c)) = true
                <-> 0 < h_number s /\ h_parentHash s <> h_parentHash c) as HP.
        { rewrite andb_true_iff, negb_true_iff, bool_decide_eq_false, Z.ltb_lt. tauto. }
        destruct (_ || _), (_ && _); rewrite ?Z.min_glb_lt_iff; intuition discriminate. }
      cbv zeta in Hs. rewrite Hs. split.
      * intros [[Hb Hn] Hall]. split; [done|]. intros s' c' [<-|Hin] Hc'; [congruence|by apply Hall].
      * intros [Hb Hall]. split; [split; [done|apply Hall; [by left|done]]|].
        intros s' c' Hin. apply Hall. by right.
Qed.

Definition candidate canonical (headers : list SyncBlockHeader) (divergence : Z) (f : SyncBlockHeader) : Prop :=
  exists s, In s headers /\ jm_get (h_number s) canonical = Some f /\ h_number s < divergence /\ sameHeader s f = true.

Lemma newestMatch_ok canonical headers divergence fork :
  (forall n c, jm_get n canonical = Some c -> h_number c = n) ->
  match newestMatch canonical headers divergence fork with
  | Some f =>
      (fork = Some f \/ candidate canonical headers divergence f) /\
      (forall g, fork = Some g \/ candidate canonical headers divergence g -> h_number g <= h_number f)
  | None => fork = None /\ forall g, ~ candidate canonical headers divergence g
  end.
Proof.
  intros Hkey. revert fork. induction headers as [|s headers IH]; intros fork; cbn [newestMatch].
  { destruct fork as [f|].
    - split; [by left|]. intros g [[= ->]|(s & [] & _)]. lia.
    - split; [done|]. intros g (s & [] & _). }
  set (fork' := match jm_get (h_number s) canonical with Some current => _ | None => fork end).
  specialize (IH fork').
  assert (forall g, candidate canonical (s :: headers) divergence g <->
            jm_get (h_number s) canonical = Some g /\ h_number s < divergence /\ sameHeader s g = true
            \/ candidate canonical headers divergence g) as Hcand.
  { intros g. split.
    - intros (s' & [<-|Hin] & H); [by left|right; by exists s'].
    - intros [H|(s' & Hin & H)]; [exists s; split; [by left|done]|exists s'; split; [by right|done]]. }
  destruct (jm_get (h_number s) canonical) as [c|] eqn:Ec; subst fork'.
  2:{ destruct (newestMatch _ _ _ _) as [f|].
      - destruct IH as [H1 H2]. split; [destruct H1; [by left|right; apply Hcand; by right]|].
        intros g [H|[[? _]|H]%Hcand]; [apply H2; by left|done|apply H2; by right].
      - destruct IH as [-> H2]. split; [done|]. intros g [[? _]|H]%Hcand; [done|by apply (H2 g)]. }
  pose proof (Hkey _ _ Ec) as Hnum.
  destruct ((h_number s <? divergence) && sameHeader s c) eqn:Ecand.
  2:{ assert (forall g, candidate canonical (s :: headers) divergence g <-> candidate canonical headers divergence g) as Hc2.
      { intros g. rewrite Hcand. split; [|by right]. intros [([= <-] & Hlt & Hs)|]; [|done].
        apply andb_false_iff in Ecand as [H|H]; [zbool; lia|congruence]. }
      simpl in IH. destruct (newestMatch _ _ _ _) as [f|].
      - destruct IH as [H1 H2]. split; [destruct H1; [by left|right; by apply Hc2]|].
        intros g [H|H%Hc2]; apply H2; [by left|by right].
      - destruct IH as [-> H2]. split; [done|]. intros g H%Hc2. by apply (H2 g). }
  apply andb_true_iff in Ecand as [Hlt Hsame]. zbool. simpl in IH.
  assert (candidate canonical (s :: headers) divergence c) as Hcc by (apply Hcand; by left).
  destruct (match fork with Some f => h_number f <? h_number s | None => true end) eqn:Enew.
  - destruct (newestMatch _ _ _ _) as [f|]; [|by destruct IH].
    destruct IH as [H1 H2]. split.
    + right. destruct H1 as [[= <-]|H1]; [done|apply Hcand; by right].
    + intros g [->|[([= <-] & _)|H]%Hcand]; [|apply H2; by left|apply H2; by right].
      zbool. specialize (H2 c ltac:(by left)). lia.
  - destruct fork as [f0|]; [|done]. zbool. destruct (newestMatch _ _ _ _) as [f|]; [|by destruct IH].
    destruct IH as [H1 H2]. split.
    + destruct H1; [by left|right; apply Hcand; by right].
    + intros g [H|[([= <-] & _)|H]%Hcand]; [apply H2; by left| |apply H2; by right].
      specialize (H2 f0 ltac:(by left)). lia.
Qed.

(** ** What a common ancestor is *)

(** [n] is the height of a stored header the chain still has, below the tip of the window
    and below everything the stored headers show to have changed: a header that differs,
    and, one lower, the parent a header names. *)
Definition CommonAncestor (history : ReorgHistorySnapshot) (canonical : list SyncBlockHeader) (n : Z) : Prop :=
  n < toBlock (hs_range history) /\
  (exists s, In s (hs_headers history) /\ In s canonical /\ h_number s = n) /\
  forall s c, In s (hs_headers history) -> In c canonical -> h_number c = h_number s -> below n s c.

Lemma proveReorgAncestor_ok history canonical r :
  proveReorgAncestor history canonical = Ok r ->
  coversRange canonical (fromBlock (hs_range history)) (toBlock (hs_range history)) = true /\
  assertSyncBlockHeaders canonical = Ok tt /\
  match r with
  | Some p =>
      ap_history p = history /\ ap_chainId p = cp_chainId (hs_checkpoint history) /\ In (ap_fork p) canonical /\
      CommonAncestor history canonical (h_number (ap_fork p)) /\
      forall n, CommonAncestor history canonical n -> n <= h_number (ap_fork p)
  | None => forall n, ~ CommonAncestor history canonical n
  end.
Proof.
  unfold proveReorgAncestor. destruct (assertSyncBlockHeaders canonical) as [[]|] eqn:Ea; [|done].
  destruct (coversRange _ _ _) eqn:Ecov; [|done]. simpl.
  destruct (firstDivergence _ _ _) as [d|] eqn:Ed; [|done]. intros [= <-].
  split; [done|]. split; [done|]. apply firstDivergence_ok in Ed as [_ Hd].
  assert (forall n c, jm_get n (byNumber canonical) = Some c <-> In c canonical /\ h_number c = n) as Hget.
  { intros n c. split; [apply byNumber_get|]. intros [Hin <-]. destruct (byNumber_total _ _ Hin) as [c' Hc'].
    pose proof (byNumber_get _ _ _ Hc') as [Hin' E]. rewrite Hc'. f_equal.
    by apply (coversRange_unique _ _ _ _ _ Ecov). }
  assert (forall n, CommonAncestor history canonical n <->
            exists f, candidate (byNumber canonical) (hs_headers history) d f /\ h_number f = n) as Hca.
  { intros n. split.
    - intros (Hlt & (s & Hs & Hc & Hn) & Hall). exists s. split; [|done]. exists s. split; [done|]. split; [by apply Hget|]. split.
      + rewrite Hn. apply Hd. split; [done|]. intros s' c' Hs' [Hc' E]%Hget. by apply Hall.
      + by apply sameHeader_spec.
    - intros (f & (s & Hs & [Hf E]%Hget & Hlt & Hsame) & Hn). assert (s = f) as -> by (by apply header_eq).
      apply Hd in Hlt as [Hlt Hall]. rewrite Hn in *. split; [done|]. split; [by exists f|].
      intros s' c' Hs' Hc' E'. apply Hall; [done|by apply Hget]. }
  pose proof (newestMatch_ok (byNumber canonical) (hs_headers history) d None (fun n c H => proj2 (proj1 (Hget n c) H))) as Hm.
  destruct (newestMatch _ _ _ _) as [f|]; simpl.
  - destruct Hm as [[?|Hf] Hmax]; [done|]. split_and!; [done|done| | |].
    + destruct Hf as (s & _ & [? _]%Hget & _). done.
    + apply Hca. by exists f.
    + intros n (g & Hg & <-)%Hca. apply Hmax. by right.
  - destruct Hm as [_ Hno]. intros n (g & Hg & _)%Hca. by apply (Hno g).
Qed.

(** ** The commit of a rollback *)

Lemma sameHeaders_eq a b : sameHeaders a b = true -> a = b.
Proof.
  revert b. induction a as [|x a IH]; intros [|y b] H; try done. simpl in H.
  apply andb_true_iff in H as [[Hn Hs]%andb_true_iff Hr]. zbool. f_equal; [by apply header_eq|by apply IH].
Qed.

Lemma selectReorgHeaders_In from to d s :
  In s (selectReorgHeaders from to d) <->
  exists row, db_blocks d !! h_number s = Some row /\ s = headerOf (h_number s) row /\ from <= h_number s <= to.
Proof.
  unfold selectReorgHeaders. rewrite orderBy_In, in_map_iff. split.
  - intros ([n row] & <- & Hin). apply filter_In in Hin as [Hin Hr]. apply andb_true_iff in Hr as [? ?]. zbool.
    apply list_elem_of_In, elem_of_map_to_list in Hin. exists row. by split_and!.
  - intros (row & Hrow & E & ? & ?). exists (h_number s, row). split; [by rewrite <- E|].
    apply filter_In. split; [by apply list_elem_of_In, elem_of_map_to_list|]. apply andb_true_iff.
    split; by apply Z.leb_le.
Qed.

(** What a committed rollback has found, [d], and left, [d']. *)
Record RolledBack (expected : RecoveryBase) (proof : ReorgAncestorProof) (next : option ReorgRecoveryState)
    (d d' : Db) : Prop := {
  rb_revision : db_revision d = r_revision expected /\ db_revision d' = r_revision expected + 1;
  rb_found : exists base resumeFrom, db_recovery d = Some (AwaitingReorgAncestor base resumeFrom) /\
               r_recoveryId base = r_recoveryId expected /\ r_version base = r_version expected;
  rb_recovery : db_recovery d' = next;
  rb_fixed : db_collections d' = db_collections d /\ db_scans d' = db_scans d;
  rb_window : fromBlock (hs_range (ap_history proof)) <= h_number (ap_fork proof) < r_checkedBlock expected /\
              toBlock (hs_range (ap_history proof)) = r_checkedBlock expected;
  rb_history : forall s, In s (hs_headers (ap_history proof)) <->
                 exists row, db_blocks d !! h_number s = Some row /\ s = headerOf (h_number s) row /\
                   fromBlock (hs_range (ap_history proof)) <= h_number s <= r_checkedBlock expected;
  rb_anchors : forall id c a, db_collections d !! id = Some c -> col_bootstrapAnchorBlock c = Some a ->
                 a <= h_number (ap_fork proof);
  rb_blocks : forall n row, db_blocks d' !! n = Some row ->
                n = h_number (ap_fork proof) /\ b_hash row = h_hash (ap_fork proof)
                \/ n < h_number (ap_fork proof) /\ db_blocks d !! n = Some row;
  rb_fork : is_Some (db_blocks d' !! h_number (ap_fork proof));
  rb_kept : forall n, n <= h_number (ap_fork proof) -> is_Some (db_blocks d !! n) -> is_Some (db_blocks d' !! n);
  rb_coverage : forall id b, b ∈ coverageOf d' id <-> b ∈ coverageOf d id /\ b <= h_number (ap_fork proof);
  rb_outbox : db_outbox d' = deleteFollowUpsFromBlock (db_chainId d) (h_number (ap_fork proof) + 1) (db_outbox d);
}.

Lemma assertCurrent_ok expected d u d' :
  assertCurrent expected d = (Ok u, d') -> d' = d /\
  exists current, db_recovery d = Some current /\ samePhase current expected = true /\
    r_recoveryId (baseOf current) = r_recoveryId (baseOf expected) /\
    r_revision (baseOf current) = r_revision (baseOf expected) /\
    r_version (baseOf current) = r_version (baseOf expected).
Proof.
  unfold assertCurrent. intros [H ->]%throwIf_ok. split; [done|]. destruct (db_recovery d) as [current|]; [|done].
  exists current. rewrite !orb_false_iff, !negb_false_iff in H. destruct H as [[[H1 H2] H3] H4]. zbool.
  by apply bool_decide_eq_true in H1.
Qed.

Lemma commitRollback_ok expected resumeFrom proof plan snapshot next d u d' :
  commitRollbackAndResync expected resumeFrom proof plan snapshot next d = (Ok u, d') ->
  rp_fromBlock plan = h_number (ap_fork proof) + 1 /\
  RolledBack expected proof next d d' /\
  match next with
  | Some n => r_recoveryId (baseOf n) = r_recoveryId expected /\ r_version (baseOf n) = r_version expected + 1 /\
              r_revision (baseOf n) = r_revision expected + 1
  | None => True
  end.
Proof.
  intros H. unfold commitRollbackAndResync, assertReorgHistoryUnchanged, save in H. cbv zeta in H. minv H.
  apply assertCurrent_ok in H0 as (-> & current & Hcur & Hphase & Hid & Hrev & Hver). simpl in *.
  rewrite !orb_false_iff, !negb_false_iff in H2.
  destruct H2 as [[[[[[[[[HA HB] HC] HD] HE] HF] HG] HH] HI] HJ]. zbool. apply bool_decide_eq_true in HJ.
  apply sameHeaders_eq in H3.
  apply rollbackFromBlock_ok in H1 as (R1 & R2 & R3 & R4 & R5 & R6 & R7 & R8 & R9 & R10 & R11 & R12).
  cbv zeta in *. rewrite HI in *. split; [done|]. split; [split; simpl|].
  - split; congruence || lia.
  - destruct current as [base rf|]; [|done]. by exists base, rf.
  - done.
  - done.
  - lia.
  - intros s. rewrite <- H3, selectReorgHeaders_In. by rewrite HE.
  - intros id c a' Hc Ha. specialize (R7 id c a' Hc Ha). lia.
  - intros n row Hn. destruct (R8 n row Hn) as [Hlt [[-> (Hh & _)]|[Hne Hold]]]; [left; split; [lia|congruence]|right; split; [lia|done]].
  - by replace (h_number (ap_fork proof) + 1 - 1) with (h_number (ap_fork proof)) in R9 by lia.
  - intros n Hn. apply R10. lia.
  - intros id b. unfold coverageOf in *. simpl. rewrite R11. split; intros [? ?]; (split; [done|lia]).
  - exact R12.
  - destruct next as [n|]; [|done]. rewrite !orb_false_iff, !negb_false_iff in H5.
    destruct H5 as [[[? E1] ?] ?]. apply bool_decide_eq_true in E1. by zbool.
Qed.

(** ** The process *)

Section Process.
Context (options : ReorgRecoveryOptions) (uuidText : nat -> string) (turns : nat -> Turn).

Lemma store_ok {A} (m : M Db A) w a w' :
  store turns m w = (Ok a, w') ->
  exists d d', m d = (Ok a, d') /\ w_db w' = d' /\ w_turn w' = S (w_turn w) /\ d = rt_env (turns (w_turn w)) (w_db w).
Proof.
  unfold store. destruct (rt_throws _); [done|]. simpl.
  destruct (m (rt_env (turns (w_turn w)) (w_db w))) as [r d'] eqn:E. intros [= -> <-].
  by exists (rt_env (turns (w_turn w)) (w_db w)), d'.
Qed.

Lemma rpc_ok {A} (f : Turn -> result A) w a w' :
  rpc turns f w = (Ok a, w') -> f (turns (w_turn w)) = Ok a /\ w_turn w' = S (w_turn w).
Proof. unfold rpc. by intros [= H <-]. Qed.

Lemma raise_ok {A} (r : result A) (w : World) a w' : raise r w = (Ok a, w') -> r = Ok a /\ w' = w.
Proof. unfold raise. by intros [= -> <-]. Qed.

(** The block was an answer of the provider between two moments. *)
Definition answered (from to : nat) (b : SyncBlockHeader) : Prop :=
  exists k, (from <= k < to)%nat /\ rt_block (turns k) = Ok b.

Lemma readBlocks_ok n number w blocks w' :
  SyncBlocks.readBlocks (fun _ => rpc turns rt_block) n number w = (Ok blocks, w') ->
  (w_turn w <= w_turn w')%nat /\ forall b, In b blocks -> answered (w_turn w) (w_turn w') b.
Proof.
  revert number w blocks. induction n as [|n IH]; intros number w blocks H; simpl in H.
  - apply mret_ok in H as [-> ->]. split; [lia|]. intros b [].
  - apply mbind_ok in H as (b & w1 & H1 & H). apply rpc_ok in H1 as [H1 T1].
    apply mbind_ok in H as (u & w2 & H2 & H). apply raise_ok in H2 as [_ ->].
    apply mbind_ok in H as (rest & w3 & H3 & H). apply mret_ok in H as [-> ->].
    apply IH in H3 as [T3 H3]. split; [lia|]. intros c [<-|Hin]; [exists (w_turn w); split; [lia|done]|].
    destruct (H3 c Hin) as (k & Hk & E). exists k. split; [lia|done].
Qed.

Lemma fetch_ok from to w blocks w' :
  fetchCanonicalSyncBlocks turns from to w = (Ok blocks, w') ->
  (w_turn w <= w_turn w')%nat /\ forall b, In b blocks -> answered (w_turn w) (w_turn w') b.
Proof.
  intros H. unfold fetchCanonicalSyncBlocks, SyncBlocks.fetchCanonicalSyncBlocks in H. apply mbind_ok in H as (bs & w1 & H1 & H).
  apply readBlocks_ok in H1 as [T1 H1]. apply mbind_ok in H as (u & w2 & H2 & H). apply raise_ok in H2 as [_ ->].
  assert (blocks = bs /\ (w_turn w1 <= w_turn w')%nat) as [-> T].
  { destruct (last bs); [|apply mret_ok in H as [-> ->]; split; [done|lia]].
    apply mbind_ok in H as (c & w3 & H3 & H). apply rpc_ok in H3 as [_ T3].
    apply mbind_ok in H as (u' & w4 & H4 & H). apply raise_ok in H4 as [_ ->].
    apply mret_ok in H as [-> ->]. split; [done|lia]. }
  split; [lia|]. intros b Hb. destruct (H1 b Hb) as (k & Hk & E). exists k. split; [lia|done].
Qed.

Lemma findCommonAncestor_ok startBlock w p w' :
  findCommonAncestor options turns startBlock w = (Ok (Some p), w') ->
  (w_turn w <= w_turn w')%nat /\
  exists canonical, (forall b, In b canonical -> answered (w_turn w) (w_turn w') b) /\
    proveReorgAncestor (ap_history p) canonical = Ok (Some p) /\
    hs_range (ap_history p) = {| fromBlock := Z.max 0 (startBlock - Z.max 1 (o_reorgDepth options)); toBlock := startBlock |}.
Proof.
  intros H. unfold findCommonAncestor in H. cbv zeta in H. apply mbind_ok in H as (history & w1 & H1 & H).
  apply store_ok in H1 as (d & d' & E & _ & T1 & _). injection E as E _.
  destruct (hs_headers history); [by apply mret_ok in H as [? _]|].
  apply mbind_ok in H as (canonical & w2 & H2 & H). apply fetch_ok in H2 as [T2 H2].
  apply raise_ok in H as [H ->]. split; [lia|]. exists canonical. split.
  - intros b Hb. destruct (H2 b Hb) as (k & Hk & Eb). exists k. split; [lia|done].
  - pose proof (proveReorgAncestor_ok _ _ _ H) as (_ & _ & Eh & _). rewrite Eh. split; [done|]. by rewrite <- E.
Qed.

(** A rollback that [resume] announces. *)
Lemma resume_ok w c w' :
  resume options uuidText turns w = (Ok (Some c), w') ->
  exists d canonical retryAt,
    (forall b, In b canonical -> answered (w_turn w) (w_turn w') b) /\
    proveReorgAncestor (ap_history (rc_proof c)) canonical = Ok (Some (rc_proof c)) /\
    hs_range (ap_history (rc_proof c))
    = {| fromBlock := Z.max 0 (r_checkedBlock (rc_recovery c) - Z.max 1 (o_reorgDepth options));
         toBlock := r_checkedBlock (rc_recovery c) |} /\
    RolledBack (rc_recovery c) (rc_proof c) (rc_next c) d (w_db w') /\
    beginReorgResync (rc_recovery c) (rc_resumeFrom c) (h_number (ap_fork (rc_proof c)) + 1) (rc_head c)
      (o_batchSize options) retryAt = Ok (rc_next c).
Proof.
  intros H. unfold resume in H.
  apply mbind_ok in H as (recovery & w1 & H1 & H). apply store_ok in H1 as (? & ? & _ & _ & T1 & _).
  apply mbind_ok in H as (now & w2 & H2 & H). injection H2 as _ <-.
  destruct recovery as [state|]; [|by apply mret_ok in H as [? _]].
  destruct (now <? r_retryAt (baseOf state)); [by apply mret_ok in H as [? _]|].
  apply mbind_ok in H as (checkpoint & w3 & H3 & H). apply store_ok in H3 as (? & ? & _ & _ & T3 & _).
  destruct (negb (cp_revision checkpoint =? r_revision (baseOf state))).
  { repeat (apply mbind_ok in H as (? & ? & _ & H)). by apply mret_ok in H as [? _]. }
  destruct state as [base resumeFrom|base range target]; [|by apply mret_ok in H as [? _]].
  unfold mcatch in H. match type of H with (match ?m w3 with _ => _ end) = _ => destruct (m w3) as [[r|e] w4] eqn:E end.
  2:{ repeat (apply mbind_ok in H as (? & ? & _ & H)). by apply mret_ok in H as [? _]. }
  injection H as -> ->.
  apply mbind_ok in E as (proof & w5 & H5 & E).
  destruct proof as [proof|]; [|repeat (apply mbind_ok in E as (? & ? & _ & E)); by apply mret_ok in E as [? _]].
  apply findCommonAncestor_ok in H5 as (T5 & canonical & Hans & Hprove & Hrange).
  apply mbind_ok in E as ([plan snapshot] & w6 & H6 & E).
  apply mbind_ok in H6 as (plan' & w7 & H7 & H6). apply store_ok in H7 as (? & ? & _ & _ & T7 & _).
  apply mbind_ok in H6 as (snapshot' & w8 & H8 & H6). apply rpc_ok in H8 as [_ T8].
  apply mret_ok in H6 as [[= <- <-] ->].
  apply mbind_ok in E as (? & w9 & H9 & E). apply raise_ok in H9 as [_ ->].
  apply mbind_ok in E as (head & w10 & H10 & E). apply rpc_ok in H10 as [_ T10].
  apply mbind_ok in E as (now' & w11 & H11 & E). injection H11 as <- <-.
  apply mbind_ok in E as (next & w12 & H12 & E). apply raise_ok in H12 as [Hnext ->].
  apply mbind_ok in E as (u & w13 & H13 & E). apply store_ok in H13 as (d & d' & Hcommit & Hd' & T13 & _).
  apply mret_ok in E as [[= ->] ->]. simpl.
  apply commitRollback_ok in Hcommit as (Hfrom & HR & _). rewrite Hfrom in Hnext.
  exists d, canonical, (w_now w10). split_and!; [|done|done|by rewrite Hd'|done].
  intros b Hb. destruct (Hans b Hb) as (k & Hk & Eb). exists k. split; [lia|done].
Qed.

End Process.

End ReorgProof.
