(* ===== verification/ReorgClaims.v ===== *)
(** * Recovery from a reorganisation: what it promises *)

From S2P Require Import Prelude JsValue OrderBy Chain Ledger Jobs QueueOutbox SyncDb SyncDbProof GapRepair Reorg ReorgProof.
Import Chain Ledger Jobs QueueOutbox SyncDb SyncDbProof SyncDbEffects GapRepair Reorg ReorgProof.

Open Scope Z_scope.

Module ReorgClaims.

(** ** Checked headers are one chain *)

Lemma headersByNumber_ok blocks m m' :
  headersByNumber blocks m = Ok m' ->
  (forall n c, jm_get n m = Some c -> exists c', jm_get n m' = Some c' /\ sameHeader c c' = true) /\
  (forall b, In b blocks -> exists c, jm_get (h_number b) m' = Some c /\ sameHeader b c = true) /\
  ((forall n c, jm_get n m = Some c -> h_number c = n) -> forall n c, jm_get n m' = Some c -> h_number c = n).
Proof.
  assert (forall a : SyncBlockHeader, sameHeader a a = true) as Hrefl by (intros; by apply sameHeader_spec).
  revert m. induction blocks as [|b blocks IH]; intros m H; simpl in H.
  - injection H as <-. split_and!; [|intros b []|done]. intros n c Hc. exists c. auto.
  - destruct (_ || _); [done|].
    assert (forall c0, jm_get (h_number b) m = Some c0 -> sameHeader c0 b = true) as Hold.
    { intros c0 Hc0. rewrite Hc0 in H. by destruct (sameHeader c0 b). }
    assert (headersByNumber blocks (jm_set (h_number b) b m) = Ok m') as H'.
    { destruct (jm_get (h_number b) m) as [c0|]; [|done]. by rewrite (Hold c0 eq_refl) in H. }
    clear H. destruct (IH _ H') as (H1 & H2 & H3). split_and!.
    + intros n c Hc. destruct (decide (h_number b = n)) as [<-|Hne].
      * destruct (H1 (h_number b) b (jm_get_set_eq _ _ _)) as (c' & Hc' & Hs). exists c'. split; [done|].
        pose proof (Hold c Hc) as Hcb. rewrite sameHeader_spec in *. intuition congruence.
      * apply H1. by rewrite jm_get_set_ne.
    + intros c [<-|Hc]; [|by apply H2]. apply H1. apply jm_get_set_eq.
    + intros Hk. apply H3. intros n c. rewrite jm_get_set. case_decide; [by intros [= <-]|apply Hk].
Qed.

Lemma parentLinks_ok m blocks b p :
  parentLinks m blocks = Ok tt -> In b blocks -> jm_get (h_number b - 1) m = Some p -> h_parentHash b = h_hash p.
Proof.
  induction blocks as [|c blocks IH]; [done|]. intros H Hin Hp. simpl in H. destruct Hin as [->|Hin].
  - rewrite Hp in H. by case_bool_decide.
  - apply IH; [|done|done]. destruct (jm_get (h_number c - 1) m); [|done]. by case_bool_decide.
Qed.

(** Consecutive headers link. *)
Lemma assertSyncBlockHeaders_linked blocks a b :
  assertSyncBlockHeaders blocks = Ok tt -> In a blocks -> In b blocks -> h_number b = h_number a + 1 ->
  h_parentHash b = h_hash a.
Proof.
  unfold assertSyncBlockHeaders. destruct (headersByNumber blocks []) as [m|] eqn:Em; [|done]. simpl. intros Hl Ha Hb E.
  apply headersByNumber_ok in Em as (_ & H2 & H3).
  destruct (H2 a Ha) as (a' & Ha' & Hsa), (H2 b Hb) as (b' & Hb' & Hsb). rewrite sameHeader_spec in *.
  assert (h_parentHash b' = h_hash a') as Hlink; [|intuition congruence].
  apply (parentLinks_ok m (jm_values m)); [done| |].
  - apply jm_get_In in Hb'. apply in_map_iff. by exists (h_number b, b').
  - rewrite (H3 ltac:(done) _ _ Hb'), E. by replace (h_number a + 1 - 1) with (h_number a) by lia.
Qed.

(** ** Claims *)

(** C22: The ancestor chosen for a rollback is exact.  When the stored headers of the
    window are compared with one coherent chain of fresh headers, the block returned is
    the highest stored one the chain still has that lies below every divergence - a stored
    header that differs, or a stored header that names another parent - and none is
    returned exactly when there is no such block. *)
Theorem reorg_ancestor_exact history canonicalBlocks found :
  proveReorgAncestor history canonicalBlocks = Ok found ->
  match found with
  | Some proof =>
      In (ap_fork proof) canonicalBlocks /\
      CommonAncestor history canonicalBlocks (h_number (ap_fork proof)) /\
      forall n, CommonAncestor history canonicalBlocks n -> n <= h_number (ap_fork proof)
  | None => forall n, ~ CommonAncestor history canonicalBlocks n
  end.
Proof.
  intros (_ & _ & H)%proveReorgAncestor_ok. destruct found as [proof|]; [|done].
  by destruct H as (_ & _ & ? & ? & ?).
Qed.

(** C8: A rollback keeps only what it has proved.  Whatever the other processes write
    between its reads, its calls to the provider and its commit: when the recovery announces
    a rollback to a fork, it had read one linked chain of headers from the provider, and in
    the database it leaves every stored block of the checked window is a block of that chain
    and none lies above the fork; the fork itself is stored; no collection's coverage
    reaches above the fork and nothing below lost its own; of the jobs to publish exactly
    those of events above it are gone; no bootstrap
    anchor lies above it; the mismatched block is gone; and the revision that fences all
    other writers has moved on with the continuation saved. *)
Theorem rollback_keeps_only_proved options uuidText turns w committed w' :
  resume options uuidText turns w = (Ok (Some committed), w') ->
  let fork := ap_fork (rc_proof committed) in
  let checked := r_checkedBlock (rc_recovery committed) in
  let from := Z.max 0 (checked - Z.max 1 (o_reorgDepth options)) in
  exists before canonical,
    (forall b, In b canonical -> answered turns (w_turn w) (w_turn w') b) /\
    (forall a b, In a canonical -> In b canonical -> h_number b = h_number a + 1 -> h_parentHash b = h_hash a) /\
    In fork canonical /\ from <= h_number fork < checked /\
    (forall n row, db_blocks (w_db w') !! n = Some row ->
       n <= h_number fork /\
       (from <= n -> exists b, In b canonical /\ h_number b = n /\ b_hash row = h_hash b)) /\
    is_Some (db_blocks (w_db w') !! h_number fork) /\
    (forall id b, b ∈ coverageOf (w_db w') id <-> b ∈ coverageOf before id /\ b <= h_number fork) /\
    db_outbox (w_db w') = deleteFollowUpsFromBlock (db_chainId before) (h_number fork + 1) (db_outbox before) /\
    (forall id c a, db_collections (w_db w') !! id = Some c -> col_bootstrapAnchorBlock c = Some a -> a <= h_number fork) /\
    db_revision before = r_revision (rc_recovery committed) /\
    db_revision (w_db w') = db_revision before + 1 /\
    db_recovery (w_db w') = rc_next committed.
Proof.
  intros H. cbv zeta. apply resume_ok in H as (d & canonical & retryAt & Hans & Hprove & Hrange & HR & _).
  pose proof (proveReorgAncestor_ok _ _ _ Hprove) as (Hcov & Hlinks & _ & _ & Hin & (Hlt & _ & Hbelow) & _).
  destruct HR as [[R1 R2] _ Rrec [Rcol _] Rwin Rhist Ranch Rblocks Rfork _ Rcov Rout].
  rewrite Hrange in *. simpl in *.
  exists d, canonical. split_and!; try done; try lia.
  - intros a b. by apply assertSyncBlockHeaders_linked.
  - intros n row Hn. destruct (Rblocks n row Hn) as [[-> Hh]|[Hle Hold]].
    + split; [lia|]. intros _. by exists (ap_fork (rc_proof committed)).
    + split; [lia|]. intros Hfrom.
      destruct (proj2 (coversRange_numbers _ _ _ n Hcov) ltac:(simpl; lia)) as (b & Hb & Hbn).
      exists b. split; [done|]. split; [done|].
      assert (In (headerOf n row) (hs_headers (ap_history (rc_proof committed)))) as Hs.
      { apply Rhist. exists row. simpl. split_and!; [done|done|lia|lia]. }
      destruct (Hbelow _ b Hs Hb ltac:(done)) as [Hd _]. simpl in Hd.
      destruct (decide (b_hash row = h_hash b)) as [|Hne]; [done|].
      specialize (Hd ltac:(left; simpl; done)). lia.
  - intros id c a Hc Ha. rewrite Rcol in Hc. by apply (Ranch id c a).
Qed.

(** ** A run *)

Definition headerAt (n : Z) (hash parent : string) : SyncBlockHeader :=
  {| h_number := n; h_hash := hash; h_parentHash := parent; h_timestamp := 1000 + n |}.

Definition storedRow (b : SyncBlockHeader) : BlockRow := {|
  b_hash := h_hash b; b_parentHash := h_parentHash b; b_timestamp := h_timestamp b;
  b_canonicalCheckPending := false; b_canonicalCheckRetryAt := 0 |}.

(** The chain of the provider, and the block 10 stored before it changed. *)
Definition h8 := headerAt 8 "0x08" "0x07".
Definition h9 := headerAt 9 "0x09" "0x08".
Definition h10 := headerAt 10 "0x0a" "0x09".
Definition orphan10 := headerAt 10 "0xaa" "0x09".

Definition mismatch10 : RecoveryBase := {|
  r_recoveryId := "r"; r_revision := 0; r_chainId := 1; r_version := 0; r_checkedBlock := 10;
  r_storedHash := "0xaa"; r_observedHash := "0x0a"; r_retryAt := 0 |}.

Definition orphanedDb : Db := {|
  db_chainId := 1; db_collections := ∅; db_revision := 0;
  db_blocks := {[8 := storedRow h8; 9 := storedRow h9; 10 := storedRow orphan10]};
  db_coverage := {[1 := {[8; 9; 10]}]}; db_scans := ∅;
  db_recovery := Some (AwaitingReorgAncestor mismatch10 None); db_ledger := emptyLedger; db_outbox := emptyOutbox |}.

Definition ancestorHistory : ReorgHistorySnapshot := captureReorgHistory 8 10 orphanedDb.

Lemma reorg_ancestor_exact_witness :
  proveReorgAncestor ancestorHistory [h8; h9; h10]
  = Ok (Some {| ap_fork := h9; ap_chainId := 1; ap_history := ancestorHistory |}) /\
  CommonAncestor ancestorHistory [h8; h9; h10] 9.
Proof.
  split; [vm_compute; reflexivity|].
  destruct (reorg_ancestor_exact ancestorHistory [h8; h9; h10]
              (Some {| ap_fork := h9; ap_chainId := 1; ap_history := ancestorHistory |})) as (_ & H & _).
  - vm_compute. reflexivity.
  - exact H.
Defined.

Definition recoveryOptions : ReorgRecoveryOptions := {|
  o_chainId := 1; o_reorgDepth := 2; o_batchSize := 5; o_retryDelayMs := 300000 |}.

(** The answers, by turn; before the commit another process covers block 11. *)
Definition reorgTurns (k : nat) : Turn := {|
  rt_env := if (k =? 10)%nat then coverBlock 1 11 else fun d => d;
  rt_now := 5;
  rt_throws := false;
  rt_block := match k with 3 => Ok h8 | 4 => Ok h9 | 5 | 6 => Ok h10 | _ => Err "no block" end%nat;
  rt_head := Ok 12;
  rt_snapshot := Ok {| sn_block := h9; sn_owners := [] |} |}.

Definition recovering : World := {| w_db := orphanedDb; w_now := 5; w_uuids := 0; w_turn := 0 |}.

Definition rolledBack : result (option RollbackCommitted) * World :=
  resume recoveryOptions (fun _ => EmptyString) reorgTurns recovering.

Definition committed9 : RollbackCommitted := {|
  rc_recovery := mismatch10; rc_resumeFrom := None;
  rc_proof := {| ap_fork := h9; ap_chainId := 1; ap_history := ancestorHistory |};
  rc_plan := {| rp_checkpoint := {| cp_chainId := 1; cp_revision := 0 |}; rp_fromBlock := 10; rp_tokens := [] |};
  rc_head := 12;
  rc_next := Some (ReorgResync (nextBase mismatch10 1 5) {| fromBlock := 10; toBlock := 12 |} 12) |}.

Lemma rollback_keeps_only_proved_witness :
  rolledBack.1 = Ok (Some committed9) /\
  (forall n row, db_blocks (w_db rolledBack.2) !! n = Some row -> n <= 9) /\
  (forall id b, b ∈ coverageOf (w_db rolledBack.2) id -> b <= 9).
Proof.
  split; [vm_compute; reflexivity|].
  destruct (rollback_keeps_only_proved recoveryOptions (fun _ => EmptyString) reorgTurns recovering committed9 rolledBack.2)
    as (before & canonical & _ & _ & _ & _ & Hblocks & _ & Hcov & _).
  - vm_compute. reflexivity.
  - split.
    + intros n row Hn. apply (Hblocks n row Hn).
    + intros id b Hb. apply (Hcov id b), Hb.
Defined.

End ReorgClaims.
