(* ===== verification/SyncCommitProof.v ===== *)
(** * The commit of a range: its parts

    What a commit that succeeded found and did, by the kind of work it completes. *)

From S2P Require Import Prelude JsValue OrderBy Chain Ledger Jobs QueueOutbox SyncDb SyncDbProof GapRepair Reorg.
Import Chain Ledger Jobs QueueOutbox SyncDb SyncDbProof SyncDbEffects GapRepair Reorg.

Open Scope Z_scope.

Module SyncCommitProof.

Local Open Scope artgod_scope.

(** [recordMembers] folds [recordRepairProgress], each of which finds its row. *)
Definition recordMember (batch : SyncGapRepairBatch) (retryAt : Z) (repair : SyncGapRepairTarget) (d : Db) : bool * Db :=
  recordRepairProgress repair (remainingSyncGapRepairRange repair (fromBlock (bt_range batch))) retryAt d.

Lemma recordMembers_cons batch repair rest retryAt d u d' :
  recordMembers batch (repair :: rest) retryAt d = (Ok u, d') ->
  exists d1, recordMember batch retryAt repair d = (true, d1) /\ recordMembers batch rest retryAt d1 = (Ok u, d').
Proof.
  intros H. cbn [recordMembers] in H. apply mbind_ok in H as (b & d1 & H1 & H).
  apply mbind_ok in H as (x & d2 & [Hb ->]%throwIf_ok & H).
  unfold recordMember. destruct (recordRepairProgress _ _ _ _) as [b' d2]. injection H1 as -> ->.
  destruct b; [|done]. by exists d1.
Qed.

Lemma recordMember_scans batch retryAt repair d : exists X, (recordMember batch retryAt repair d).2 = setScans d X.
Proof.
  unfold recordMember, recordRepairProgress, updateScan.
  assert (exists X, d = setScans d X) as Hd by (exists (db_scans d); by destruct d).
  destruct (getProgress _ d) as [p|]; [|exact Hd]. destruct (matchesRepair p repair); [|exact Hd].
  eexists. reflexivity.
Qed.

Lemma recordMembers_scans batch repairs retryAt d u d' :
  recordMembers batch repairs retryAt d = (Ok u, d') -> exists X, d' = setScans d X.
Proof.
  revert d. induction repairs as [|r rest IH]; intros d H.
  - apply mret_ok in H as [_ ->]. exists (db_scans d). by destruct d.
  - apply recordMembers_cons in H as (d1 & H1 & H). apply IH in H as [X ->].
    destruct (recordMember_scans batch retryAt r d) as [Y E]. rewrite H1 in E. simpl in E. subst d1. by exists X.
Qed.

(** The parts of the tables the kinds of completion touch. *)
Record Committed (input : SyncRangeCommit) (d d' : Db) : Prop := {
  cm_revision : db_revision d = cp_revision (s_checkpoint (c_result input)) /\ db_revision d' = db_revision d;
  cm_collections : db_collections d' = db_collections d;
  cm_blocks : forall n, is_Some (db_blocks d !! n) -> is_Some (db_blocks d' !! n);
  cm_stored : forall b, In b (s_blocks (c_result input)) -> is_Some (db_blocks d' !! h_number b);
  cm_rows : forall n row, db_blocks d' !! n = Some row ->
    (exists b, In b (s_blocks (c_result input)) /\ h_number b = n /\ rowOf b row)
    \/ ~ In n (map h_number (s_blocks (c_result input))) /\ db_blocks d !! n = Some row;
  cm_unconflicted : storedConflict (s_blocks (c_result input)) d = None;
  cm_ledger : persistLedger (db_collections d) (s_blocks (c_result input)) (od_nftTransferEvents (s_data (c_result input)))
                (s_collections (c_result input)) (db_ledger d) = Ok (db_ledger d');
  cm_coverage : forall id b, b ∈ coverageOf d' id <->
    b ∈ coverageOf d id
    \/ In id (map col_id (s_collections (c_result input))) /\ In b (map h_number (s_blocks (c_result input)));
  cm_outbox : db_outbox d' =
    fold_left (enqueueSyncFollowUp (cp_revision (s_checkpoint (c_result input)))) (c_followUps input) (db_outbox d);
  cm_matches : assertSyncResultMatchesBlocks (s_blocks (c_result input)) (factsOf (s_data (c_result input))) = Ok tt;
  cm_completion :
    match c_completion input with
    | Unmanaged => db_recovery d' = db_recovery d /\ db_scans d' = db_scans d
    | CompleteGapRepair batch retryAt =>
        db_recovery d' = db_recovery d /\
        coversRange (s_blocks (c_result input)) (fromBlock (bt_range batch)) (toBlock (bt_range batch)) = true /\
        ownsMembers (cp_chainId (s_checkpoint (c_result input))) batch (bt_repairs batch)
          (list_to_set (map col_id (s_collections (c_result input)))) d = true /\
        size (list_to_set (map col_id (s_collections (c_result input))) : gset Z) = length (bt_repairs batch) /\
        exists d1, db_scans d1 = db_scans d /\ (exists u, recordMembers batch (bt_repairs batch) retryAt d1 = (Ok u, d'))
    | CompleteReorgResync range batchSize retryAt =>
        db_scans d' = db_scans d /\
        coversRange (s_blocks (c_result input)) (fromBlock (rr_range range)) (toBlock (rr_range range)) = true /\
        exists base target, db_recovery d = Some (ReorgResync base (rr_range range) target) /\
          db_recovery d' = advanceReorgResync base (rr_range range) target batchSize retryAt
    end;
}.

Lemma commitSyncRange_ok input d u d' : commitSyncRange input d = (Ok u, d') -> Committed input d d'.
Proof.
  intros H. unfold commitSyncRange in H. cbv zeta in H. minv H.
  match goal with Hp : persistSyncResult _ ?d0 = (Ok _, ?d1) |- _ =>
    pose proof (persistSyncResult_matches _ _ _ _ Hp) as Hmatches; destruct (persistSyncResult_ledger _ _ _ _ Hp) as [Hfree Hledger]; apply persistSyncResult_ok in Hp as (X & cov & l & -> & Hrev & Hrows & Hs & Hb & Hcov) end.
  set (O := fold_left _ _ _) in H.
  assert (w = d) as ->.
  { unfold assertCommitCurrent in H0. destruct (c_completion input); by minv H0. }
  set (d2 := setOutbox (setLedger (setCoverage (setBlocks d X) cov) l) O) in *.
  assert (exists S R, d' = setRecovery (setScans d2 S) R) as (S & R & Ed).
  { destruct (c_completion input) as [|batch retryAt|range batchSize retryAt].
    - apply mret_ok in H as [_ ->]. exists (db_scans d2), (db_recovery d2). by destruct d2.
    - apply recordMembers_scans in H as [Y ->]. exists Y, (db_recovery d2). by destruct d2.
    - apply mbind_ok in H as (done & d3 & H1 & [_ ->]%throwIf_ok). unfold completeResyncRange in H1. minv H1.
      exists (db_scans d2). destruct (isCurrentReorgRange _ _); cbn [negb] in H1.
      + destruct (db_recovery d2) as [[base rf|base r target]|] eqn:Er;
          [apply mret_ok in H1 as [_ ->]; exists (db_recovery d2); by destruct d2| |apply mret_ok in H1 as [_ ->]; exists (db_recovery d2); by destruct d2].
        apply mbind_ok in H1 as (? & ? & [_ ->]%throwIf_ok & H1). apply mbind_ok in H1 as (? & ? & ->%mmodify_ok & H1).
        apply mret_ok in H1 as [_ ->]. eexists. by destruct d2.
      + apply mret_ok in H1 as [_ ->]. exists (db_recovery d2). by destruct d2. }
  split; try (subst d'; simpl; done).
  unfold assertCommitCurrent in H0. destruct (c_completion input) as [|batch retryAt|range batchSize retryAt].
  - apply mret_ok in H as [_ ->]. done.
  - cbv zeta in H0. apply mbind_ok in H0 as (? & ? & [Hc ->]%lift_ok & H0).
    apply mbind_ok in H0 as (? & ? & [Hsize ->]%throwIf_ok & [Hown _]%throwIf_ok).
    apply orb_false_iff in Hsize as [_ Hsize]. apply negb_false_iff in Hsize, Hown. apply Nat.eqb_eq in Hsize.
    unfold assertSyncBlocksCoverRange in Hc. destruct (coversRange _ _ _); [|done].
    split_and!; try done.
    + pose proof H as H'. apply recordMembers_scans in H' as [Y ->]. done.
    + exists d2. split; [done|]. by exists u.
  - apply mbind_ok in H0 as (? & ? & [Hc ->]%lift_ok & [Hcur _]%throwIf_ok).
    rewrite !orb_false_iff, !negb_false_iff in Hcur. destruct Hcur as [_ Hcur].
    unfold assertSyncBlocksCoverRange in Hc. destruct (coversRange _ _ _); [|done].
    apply mbind_ok in H as (completed & d3 & H3 & [Hdone ->]%throwIf_ok). unfold completeResyncRange in H3.
    apply writeTransaction_ok in H3. apply mbind_ok in H3 as (? & ? & [-> ->]%mget_ok & H3).
    unfold d2 in H3. simpl in H3. rewrite Hcur in H3. simpl in H3.
    destruct (db_recovery d) as [[|base r target]|] eqn:Er; [done| |done].
    apply mbind_ok in H3 as (? & ? & [_ ->]%throwIf_ok & H3).
    apply mbind_ok in H3 as (? & ? & ->%mmodify_ok & H3). apply mret_ok in H3 as [_ ->].
    split_and!; [done|done|]. exists base, target. unfold isCurrentReorgRange in Hcur.
    apply andb_true_iff in Hcur as [_ Hr%bool_decide_eq_true]. by subst r.
Qed.

End SyncCommitProof.
