(* ===== verification/ResyncClaims.v ===== *)
(** * What a rollback removed is synchronised again

    All transactions that touch the recovery row, as a step relation with two ghosts:
    the lowest block a rollback of the present recovery removed, and every row that was
    ever stored, which is what a process may hold on to between its reads and its
    commits. *)

From S2P Require Import Prelude JsValue OrderBy Chain Ledger Jobs QueueOutbox SyncDb SyncDbProof GapRepair Reorg ReorgProof ReorgClaims SyncCommitProof.
Import Chain Ledger Jobs QueueOutbox SyncDb SyncDbProof SyncDbEffects GapRepair Reorg ReorgProof ReorgClaims SyncCommitProof.

Open Scope Z_scope.

Module ResyncClaims.

(** ** Steps *)

Record RState := {
  rs_db : Db;
  rs_owed : option Z;
  rs_seen : list ReorgRecoveryState;
}.

(** The ghosts after a transaction. *)
Definition note (d : Db) (owed : option Z) (seen : list ReorgRecoveryState) : RState := {|
  rs_db := d;
  rs_owed := match db_recovery d with Some _ => owed | None => None end;
  rs_seen := match db_recovery d with Some r => r :: seen | None => seen end |}.

Definition lowest (owed : option Z) (from : Z) : Z :=
  match owed with Some l => Z.min l from | None => from end.

(** An identifier never used before. *)
Definition freshId (id : string) (seen : list ReorgRecoveryState) : Prop :=
  forall s, In s seen -> r_recoveryId (baseOf s) <> id.

(** A refill commit covers the collections in scope, in batches of at least one block. *)
Definition refills (scope : Z -> Prop) (input : SyncRangeCommit) : Prop :=
  match c_completion input with
  | CompleteReorgResync _ batchSize _ =>
      1 <= batchSize /\ forall id, scope id -> In id (map col_id (s_collections (c_result input)))
  | _ => True
  end.

(** The blocks from [l] up to below [f] are stored and covered. *)
Definition Restored (scope : Z -> Prop) (d : Db) (l f : Z) : Prop :=
  forall b, l <= b < f -> is_Some (db_blocks d !! b) /\ forall id, scope id -> b ∈ coverageOf d id.

Inductive RStep (scope : Z -> Prop) (s : RState) : RState -> Prop :=
  | step_commit input u d' :
      refills scope input -> commitSyncRange input (rs_db s) = (Ok u, d') ->
      RStep scope s (note d' (rs_owed s) (rs_seen s))
  | step_retain checkpoint id checkedBlock storedHash observedHash now r d' :
      freshId id (rs_seen s) ->
      retainMismatch checkpoint id checkedBlock storedHash observedHash now (rs_db s) = (Ok r, d') ->
      RStep scope s (note d' (rs_owed s) (rs_seen s))
  | step_refresh expected checkpoint id now u d' :
      freshId id (rs_seen s) -> In expected (rs_seen s) ->
      refreshCheckpoint expected checkpoint id now (rs_db s) = (Ok u, d') ->
      RStep scope s (note d' (rs_owed s) (rs_seen s))
  | step_deferProof expected retryAt u d' :
      deferProof expected retryAt (rs_db s) = (Ok u, d') ->
      RStep scope s (note d' (rs_owed s) (rs_seen s))
  | step_deferResync range retryAt u d' :
      deferResync range retryAt (rs_db s) = (Ok u, d') ->
      RStep scope s (note d' (rs_owed s) (rs_seen s))
  | step_rollback expected resumeFrom proof plan snapshot head batchSize retryAt next u d' :
      1 <= batchSize -> In (AwaitingReorgAncestor expected resumeFrom) (rs_seen s) ->
      beginReorgResync expected resumeFrom (rp_fromBlock plan) head batchSize retryAt = Ok next ->
      commitRollbackAndResync expected resumeFrom proof plan snapshot next (rs_db s) = (Ok u, d') ->
      RStep scope s (note d' (Some (lowest (rs_owed s) (rp_fromBlock plan))) (rs_seen s))
  | step_other d' :
      db_recovery d' = db_recovery (rs_db s) ->
      (forall b, is_Some (db_blocks (rs_db s) !! b) -> is_Some (db_blocks d' !! b)) ->
      (forall id, coverageOf (rs_db s) id ⊆ coverageOf d' id) ->
      RStep scope s (note d' (rs_owed s) (rs_seen s)).

Inductive RReach (scope : Z -> Prop) : RState -> Prop :=
  | rreach_init d : db_recovery d = None -> RReach scope {| rs_db := d; rs_owed := None; rs_seen := [] |}
  | rreach_step s s' : RReach scope s -> RStep scope s s' -> RReach scope s'.

(** ** The invariant *)

(** A row without its retry time. *)
Definition timeless (s : ReorgRecoveryState) : ReorgRecoveryState :=
  match s with
  | AwaitingReorgAncestor base resumeFrom => AwaitingReorgAncestor (withRetryAt base 0) resumeFrom
  | ReorgResync base range target => ReorgResync (withRetryAt base 0) range target
  end.

(** Identifier and version tell the present row from every other there was. *)
Definition Fenced (d : Db) (seen : list ReorgRecoveryState) : Prop :=
  forall cur s, db_recovery d = Some cur -> In s seen -> r_recoveryId (baseOf s) = r_recoveryId (baseOf cur) ->
    r_version (baseOf s) < r_version (baseOf cur)
    \/ r_version (baseOf s) = r_version (baseOf cur) /\ timeless s = timeless cur.

Definition Owed (scope : Z -> Prop) (d : Db) (owed : option Z) : Prop :=
  match db_recovery d with
  | Some (ReorgResync _ range target) =>
      exists l, owed = Some l /\ l <= fromBlock range <= toBlock range /\ toBlock range <= target /\
        Restored scope d l (fromBlock range)
  | Some (AwaitingReorgAncestor _ (Some f)) => exists l, owed = Some l /\ l <= f /\ Restored scope d l f
  | _ => owed = None
  end.

Definition RInv (scope : Z -> Prop) (s : RState) : Prop :=
  Fenced (rs_db s) (rs_seen s) /\ Owed scope (rs_db s) (rs_owed s).

Section Invariant.
Context (scope : Z -> Prop).

Lemma Restored_mono d d' l f :
  (forall b, is_Some (db_blocks d !! b) -> is_Some (db_blocks d' !! b)) ->
  (forall id, coverageOf d id ⊆ coverageOf d' id) ->
  Restored scope d l f -> Restored scope d' l f.
Proof. intros Hb Hc H b Hin. destruct (H b Hin) as [H1 H2]. split; [auto|]. intros id Hid. apply Hc. auto. Qed.

(** The row kept, up to its retry time, and nothing deleted. *)
Lemma RInv_kept s d' :
  (forall b, is_Some (db_blocks (rs_db s) !! b) -> is_Some (db_blocks d' !! b)) ->
  (forall id, coverageOf (rs_db s) id ⊆ coverageOf d' id) ->
  timeless <$> db_recovery d' = timeless <$> db_recovery (rs_db s) ->
  RInv scope s -> RInv scope (note d' (rs_owed s) (rs_seen s)).
Proof.
  intros Hb Hc Hr [HF HO]. unfold RInv, note, Owed in *. simpl.
  destruct (db_recovery d') as [cur'|] eqn:Ed', (db_recovery (rs_db s)) as [cur|] eqn:Ed; simpl in Hr; try done.
  2:{ split; [|done]. intros c t E. congruence. }
  injection Hr as Hr. split.
  - intros c t E Hin Hid. assert (c = cur') as -> by congruence. destruct Hin as [<-|Hin]; [by right|].
    assert (r_recoveryId (baseOf cur') = r_recoveryId (baseOf cur) /\ r_version (baseOf cur') = r_version (baseOf cur)) as [E1 E2].
    { destruct cur', cur; simpl in *; try done; injection Hr; auto. }
    rewrite Hr, E2. apply (HF cur t Ed Hin). congruence.
  - destruct cur' as [base' rf'|base' range' target'], cur as [base rf|base range target]; simpl in Hr; try done.
    + injection Hr; intros; subst rf'. destruct rf as [f|]; [|done]. destruct HO as (l & ? & ? & ?).
      exists l. split_and!; [done..|]. by eapply Restored_mono.
    + injection Hr; intros; subst range' target'. destruct HO as (l & ? & ? & ? & ?).
      exists l. split_and!; [done|lia|lia|lia|]. by eapply Restored_mono.
Qed.

(** *** A new row *)

Lemma Fenced_fresh d seen r :
  db_recovery d = Some r -> freshId (r_recoveryId (baseOf r)) seen -> Fenced d (r :: seen).
Proof.
  intros Er Hf c t E [<-|Hin] Hid; assert (c = r) as -> by congruence; [by right|].
  by destruct (Hf t Hin).
Qed.

(** The next version of the present row. *)
Lemma Fenced_next d d' seen cur r :
  Fenced d seen -> db_recovery d = Some cur -> db_recovery d' = Some r ->
  r_recoveryId (baseOf r) = r_recoveryId (baseOf cur) -> r_version (baseOf r) = r_version (baseOf cur) + 1 ->
  Fenced d' (r :: seen).
Proof.
  intros HF Ec Er Hid Hv c t E [<-|Hin] Hidt; assert (c = r) as -> by congruence; [by right|].
  left. destruct (HF cur t Ec Hin ltac:(congruence)) as [?|[? _]]; lia.
Qed.

(** What a mismatch keeps of the row it finds. *)
Definition resumeFromOf (current : option ReorgRecoveryState) : option Z :=
  match current with
  | Some (ReorgResync _ range _) => Some (fromBlock range)
  | Some (AwaitingReorgAncestor _ resumeFrom) => resumeFrom
  | None => None
  end.

Lemma retainReorgMismatch_spec current checkpoint id checked stored observed now :
  let '(next, new) := retainReorgMismatch current checkpoint id checked stored observed now in
  if new
  then exists base, next = AwaitingReorgAncestor base (resumeFromOf current) /\ r_recoveryId base = id
  else current = Some next.
Proof.
  unfold retainReorgMismatch. destruct current as [[base rf|base range target]|]; [destruct (_ && _); [done|]|..];
    eexists; (split; [reflexivity|done]).
Qed.

Lemma Owed_mismatch d d' owed base :
  (forall b, is_Some (db_blocks d !! b) -> is_Some (db_blocks d' !! b)) ->
  (forall id, coverageOf d id ⊆ coverageOf d' id) ->
  Owed scope d owed -> db_recovery d' = Some (AwaitingReorgAncestor base (resumeFromOf (db_recovery d))) ->
  Owed scope d' owed.
Proof.
  intros Hb Hc HO E. unfold Owed in *. rewrite E. destruct (db_recovery d) as [[b0 [f|]|b0 range target]|]; simpl; try done.
  - destruct HO as (l & ? & ? & ?). exists l. split_and!; [done..|]. by eapply Restored_mono.
  - destruct HO as (l & ? & ? & ? & ?). exists l. split_and!; [done|lia|]. by eapply Restored_mono.
Qed.

(** *** Each step *)

Lemma updateBlock_keeps check when f d b d' :
  updateBlock check when f d = (Ok b, d') ->
  db_recovery d' = db_recovery d /\ (forall id, coverageOf d' id = coverageOf d id) /\
  forall n, is_Some (db_blocks d !! n) -> is_Some (db_blocks d' !! n).
Proof.
  unfold updateBlock. destruct (db_blocks d !! pc_blockNumber check) as [row|] eqn:E.
  - destruct (_ && _); intros [= _ <-]; [|done]. split_and!; [done..|]. intros n Hn. simpl.
    destruct (decide (pc_blockNumber check = n)) as [<-|Hne]; [rewrite lookup_insert_eq; eauto|by rewrite lookup_insert_ne].
  - by intros [= _ <-].
Qed.

Lemma retain_RInv s checkpoint id checkedBlock storedHash observedHash now r d' :
  freshId id (rs_seen s) -> RInv scope s ->
  retainMismatch checkpoint id checkedBlock storedHash observedHash now (rs_db s) = (Ok r, d') ->
  RInv scope (note d' (rs_owed s) (rs_seen s)).
Proof.
  intros Hfresh HI H. destruct s as [d owed seen]. simpl in *. unfold retainMismatch in H.
  apply writeTransaction_ok in H. apply mbind_ok in H as (? & ? & [_ ->]%throwIf_ok & H).
  apply mbind_ok in H as (? & ? & [_ ->]%throwIf_ok & H). apply mbind_ok in H as (? & ? & [-> ->]%mget_ok & H).
  pose proof (retainReorgMismatch_spec (db_recovery d) checkpoint id checkedBlock storedHash observedHash now) as Hspec.
  destruct (retainReorgMismatch _ _ _ _ _ _ _) as [next new].
  apply mbind_ok in H as (? & d1 & H1 & H). apply mbind_ok in H as (? & d2 & H2 & H).
  apply mbind_ok in H as (? & ? & [_ ->]%throwIf_ok & H). apply mret_ok in H as [_ ->].
  unfold completeCheck in H2. apply writeTransaction_ok in H2.
  apply mbind_ok in H2 as (? & d3 & H3 & H2). unfold assertCheckChain in H3.
  apply mbind_ok in H3 as (? & ? & [_ ->]%throwIf_ok & H3). apply assertChainSyncCheckpoint_ok in H3 as [_ ->].
  apply updateBlock_keeps in H2 as (Hr & Hc & Hb).
  assert (forall id', coverageOf d1 id' = coverageOf d id' /\ db_blocks d1 = db_blocks d) as Hd1.
  { destruct new; [apply mmodify_ok in H1 as ->|apply mret_ok in H1 as [_ ->]]; done. }
  assert (forall b, is_Some (db_blocks d !! b) -> is_Some (db_blocks d2 !! b)) as Hb2.
  { intros b Hs. apply Hb. by destruct (Hd1 0) as [_ ->]. }
  assert (forall id', coverageOf d id' ⊆ coverageOf d2 id') as Hc2.
  { intros id'. rewrite Hc. by destruct (Hd1 id') as [-> _]. }
  destruct new.
  - destruct Hspec as (base & -> & Hid). apply mmodify_ok in H1. subst d1. simpl in Hr.
    destruct HI as [HF HO]. unfold RInv, note. simpl. rewrite Hr. split.
    + apply Fenced_fresh; [done|]. simpl. by rewrite Hid.
    + by eapply Owed_mismatch.
  - apply mret_ok in H1 as [_ ->]. apply (RInv_kept {| rs_db := d; rs_owed := owed; rs_seen := seen |}); simpl; try done.
    by rewrite Hr.
Qed.

Lemma refresh_RInv s expected checkpoint id now u d' :
  freshId id (rs_seen s) -> In expected (rs_seen s) -> RInv scope s ->
  refreshCheckpoint expected checkpoint id now (rs_db s) = (Ok u, d') ->
  RInv scope (note d' (rs_owed s) (rs_seen s)).
Proof.
  intros Hfresh Hin HI H. destruct s as [d owed seen]. simpl in *. unfold refreshCheckpoint in H.
  apply writeTransaction_ok in H. apply mbind_ok in H as (? & ? & H1 & H).
  apply assertCurrent_ok in H1 as (-> & cur & Hcur & _ & Hid & _ & Hver).
  apply mbind_ok in H as (? & ? & [_ ->]%throwIf_ok & H). apply mmodify_ok in H as ->.
  destruct HI as [HF HO]. assert (timeless expected = timeless cur) as Htime.
  { destruct (HF cur expected Hcur Hin ltac:(done)) as [Hlt|[_ Ht]]; [simpl in *; lia|done]. }
  pose proof (retainReorgMismatch_spec (Some expected) checkpoint id (r_checkedBlock (baseOf expected))
                (r_storedHash (baseOf expected)) (r_observedHash (baseOf expected)) now) as Hspec.
  destruct (retainReorgMismatch _ _ _ _ _ _ _) as [next new]. simpl. destruct new.
  - destruct Hspec as (base & -> & Hb). unfold RInv, note. simpl. split.
    + apply Fenced_fresh; [done|]. simpl. by rewrite Hb.
    + apply (Owed_mismatch d _ owed base); [done|done|exact HO|]. simpl. rewrite Hcur. do 2 f_equal.
      destruct expected, cur; simpl in *; try done; injection Htime; intros; congruence.
  - injection Hspec as <-. apply (RInv_kept {| rs_db := d; rs_owed := owed; rs_seen := seen |}); simpl; try done.
    by rewrite Hcur, Htime.
Qed.

(** A refill extends what is restored to its own last block. *)
Lemma refill_restores input d d' base range target l batchSize retryAt rng :
  Committed input d d' -> c_completion input = CompleteReorgResync rng batchSize retryAt ->
  refills scope input -> db_recovery d = Some (ReorgResync base range target) ->
  Restored scope d l (fromBlock range) ->
  db_recovery d' = advanceReorgResync base range target batchSize retryAt /\ 1 <= batchSize /\
  Restored scope d' l (toBlock range + 1).
Proof.
  intros HC Ec Href Er HR. pose proof (cm_completion _ _ _ HC) as H. unfold refills in Href. rewrite Ec in H, Href.
  destruct H as (_ & Hcov & base' & target' & E & E'). rewrite Er in E. injection E as E1 E2 E3. subst base' target'.
  rewrite <- E2 in *. destruct Href as [Hbs Hscope]. split_and!; [done|done|]. intros b Hb.
  destruct (Z.lt_ge_cases b (fromBlock range)) as [Hlt|Hge].
  - destruct (HR b ltac:(lia)) as [H1 H2]. split; [by apply (cm_blocks _ _ _ HC)|].
    intros id Hid. apply (cm_coverage _ _ _ HC). left. by apply H2.
  - destruct (proj2 (coversRange_numbers _ _ _ b Hcov) ltac:(lia)) as (h & Hin & <-). split.
    + by apply (cm_stored _ _ _ HC).
    + intros id Hid. apply (cm_coverage _ _ _ HC). right. split; [by apply Hscope|by apply in_map].
Qed.

Lemma commit_RInv s input u d' :
  refills scope input -> RInv scope s -> commitSyncRange input (rs_db s) = (Ok u, d') ->
  RInv scope (note d' (rs_owed s) (rs_seen s)).
Proof.
  intros Href HI HC%commitSyncRange_ok. pose proof (cm_completion _ _ _ HC) as Hcomp.
  assert (forall b, is_Some (db_blocks (rs_db s) !! b) -> is_Some (db_blocks d' !! b)) as Hb by apply HC.
  assert (forall id, coverageOf (rs_db s) id ⊆ coverageOf d' id) as Hc.
  { intros id b Hin. apply (cm_coverage _ _ _ HC). by left. }
  destruct (c_completion input) as [|batch retryAt|range batchSize retryAt] eqn:Ec.
  - apply RInv_kept; try done. by destruct Hcomp as [-> _].
  - apply RInv_kept; try done. by destruct Hcomp as [-> _].
  - destruct Hcomp as (_ & _ & base & target & Er & _). destruct HI as [HF HO].
    unfold Owed in HO. rewrite Er in HO. destruct HO as (l & Hl & Hle & Hto & HR).
    destruct (refill_restores _ _ _ _ _ _ _ _ _ _ HC Ec Href Er HR) as (Er' & Hbs & HR').
    unfold RInv, note, Owed. simpl. rewrite Er'. unfold advanceReorgResync in *.
    destruct (Z.ltb_spec target (toBlock (rr_range range) + 1)).
    + split; [|done]. intros c t E. congruence.
    + split; [by eapply Fenced_next|]. exists l. simpl. split_and!; [done|lia|lia|lia|done].
Qed.

(** What a rollback leaves restored. *)
Lemma rollback_restores s expected resumeFrom proof plan snapshot head batchSize retryAt next u d' :
  RInv scope s -> In (AwaitingReorgAncestor expected resumeFrom) (rs_seen s) ->
  beginReorgResync expected resumeFrom (rp_fromBlock plan) head batchSize retryAt = Ok next ->
  commitRollbackAndResync expected resumeFrom proof plan snapshot next (rs_db s) = (Ok u, d') ->
  let from := Z.min (rp_fromBlock plan) (default (rp_fromBlock plan) resumeFrom) in
  db_recovery d' = next /\
  lowest (rs_owed s) (rp_fromBlock plan) <= from /\
  Restored scope d' (lowest (rs_owed s) (rp_fromBlock plan)) from /\
  exists cur, db_recovery (rs_db s) = Some cur /\ r_recoveryId (baseOf cur) = r_recoveryId expected /\
    r_version (baseOf cur) = r_version expected.
Proof.
  intros [HF HO] Hin _ (Hfrom & HR & _)%commitRollback_ok. cbv zeta.
  destruct (rb_found _ _ _ _ _ HR) as (base & rf & Hcur & Hid & Hver).
  assert (rf = resumeFrom) as ->.
  { destruct (HF _ _ Hcur Hin ltac:(done)) as [Hlt|[_ Ht]]; [simpl in *; lia|]. simpl in Ht. by injection Ht. }
  split; [apply (rb_recovery _ _ _ _ _ HR)|]. unfold Owed in HO. rewrite Hcur in HO.
  assert (lowest (rs_owed s) (rp_fromBlock plan) <= Z.min (rp_fromBlock plan) (default (rp_fromBlock plan) resumeFrom) /\
          Restored scope d' (lowest (rs_owed s) (rp_fromBlock plan))
            (Z.min (rp_fromBlock plan) (default (rp_fromBlock plan) resumeFrom))) as [H1 H2].
  { destruct resumeFrom as [f|]; simpl.
    - destruct HO as (l & -> & Hle & HRest). simpl. split; [lia|]. intros b Hb.
      destruct (HRest b ltac:(lia)) as [Hs Hcov]. split; [apply (rb_kept _ _ _ _ _ HR); [lia|done]|].
      intros id Hscope. apply (rb_coverage _ _ _ _ _ HR). split; [by apply Hcov|lia].
    - rewrite HO. simpl. split; [lia|]. intros b Hb. lia. }
  split; [done|]. split; [done|]. by exists (AwaitingReorgAncestor base resumeFrom).
Qed.

Lemma rollback_RInv s expected resumeFrom proof plan snapshot head batchSize retryAt next u d' :
  1 <= batchSize -> RInv scope s -> In (AwaitingReorgAncestor expected resumeFrom) (rs_seen s) ->
  beginReorgResync expected resumeFrom (rp_fromBlock plan) head batchSize retryAt = Ok next ->
  commitRollbackAndResync expected resumeFrom proof plan snapshot next (rs_db s) = (Ok u, d') ->
  RInv scope (note d' (Some (lowest (rs_owed s) (rp_fromBlock plan))) (rs_seen s)).
Proof.
  intros Hbs HI Hin Hbegin Hcommit.
  destruct (rollback_restores _ _ _ _ _ _ _ _ _ _ _ _ HI Hin Hbegin Hcommit) as (Er & Hle & HR & cur & Hcur & Hid & Hver).
  destruct HI as [HF HO]. unfold RInv, note, Owed. simpl. rewrite Er.
  unfold beginReorgResync in Hbegin. destruct (Z.ltb_spec head (rp_fromBlock plan - 1)); [done|]. cbv zeta in Hbegin.
  destruct (Z.ltb_spec head (Z.min (rp_fromBlock plan) (default (rp_fromBlock plan) resumeFrom))); injection Hbegin as <-.
  - split; [|done]. intros c t E. congruence.
  - split.
    + apply (Fenced_next (rs_db s) d' (rs_seen s) cur); [done|done|done|by rewrite Hid|by rewrite Hver].
    + eexists. simpl. split_and!; [done|done|lia|lia|done].
Qed.

Lemma reach_RInv s : RReach scope s -> RInv scope s.
Proof.
  induction 1 as [d Hd|s s' _ IH Hstep].
  - unfold RInv, Owed. simpl. rewrite Hd. split; [|done]. intros c t E. congruence.
  - destruct Hstep as [input u d' Href H|checkpoint id checkedBlock sh oh now r d' Hf H
                      |expected checkpoint id now u d' Hf Hin H|expected retryAt u d' H|range retryAt u d' H
                      |expected rf proof plan snapshot head bs retryAt next u d' Hbs Hin Hb H|d' Hr Hb Hc].
    + by eapply commit_RInv.
    + by eapply retain_RInv.
    + by eapply refresh_RInv.
    + apply mmodify_ok in H as ->. destruct (db_recovery (rs_db s)) as [[base rf|base r t]|] eqn:E;
        [destruct (_ && _)|..]; apply RInv_kept; simpl; rewrite ?E; done.
    + apply mmodify_ok in H as ->. destruct (db_recovery (rs_db s)) as [[base rf|base r t]|] eqn:E;
        [|destruct (isCurrentReorgRange _ _)|]; apply RInv_kept; simpl; rewrite ?E; done.
    + by eapply rollback_RInv.
    + apply RInv_kept; [done|done|by rewrite Hr|done].
Qed.

End Invariant.

(** C9: What a rollback removed is synchronised again before the recovery ends.  Through any
    mix of commits by all processes, new mismatches, failures, rollbacks and restarts: while
    the refill is pending, every block from the lowest one a rollback of this recovery removed
    up to the range still to be fetched is stored, and covered for every collection the refills
    acquire; a mismatch that interrupts the refill keeps that mark.  When a refill commits the
    last range, all of it up to the target head is restored; and a rollback that leaves nothing
    to fetch ends the recovery only when everything up to the head is. *)
Theorem resync_restores_history scope s :
  RReach scope s ->
  match db_recovery (rs_db s) with
  | Some (ReorgResync _ range target) =>
      exists l, rs_owed s = Some l /\ l <= fromBlock range <= toBlock range /\ toBlock range <= target /\
        Restored scope (rs_db s) l (fromBlock range)
  | Some (AwaitingReorgAncestor _ (Some resumeFrom)) =>
      exists l, rs_owed s = Some l /\ l <= resumeFrom /\ Restored scope (rs_db s) l resumeFrom
  | _ => rs_owed s = None
  end /\
  (forall base range target rng batchSize retryAt input u d',
     db_recovery (rs_db s) = Some (ReorgResync base range target) ->
     c_completion input = CompleteReorgResync rng batchSize retryAt -> refills scope input ->
     commitSyncRange input (rs_db s) = (Ok u, d') -> db_recovery d' = None ->
     exists l, rs_owed s = Some l /\ Restored scope d' l (target + 1)) /\
  (forall expected resumeFrom proof plan snapshot head batchSize retryAt u d',
     In (AwaitingReorgAncestor expected resumeFrom) (rs_seen s) ->
     beginReorgResync expected resumeFrom (rp_fromBlock plan) head batchSize retryAt = Ok None ->
     commitRollbackAndResync expected resumeFrom proof plan snapshot None (rs_db s) = (Ok u, d') ->
     Restored scope d' (lowest (rs_owed s) (rp_fromBlock plan)) (head + 1)).
Proof.
  intros HI%reach_RInv. split; [apply HI|]. split.
  - intros base range target rng batchSize retryAt input u d' Er Ec Href H Hnone.
    destruct HI as [_ HO]. unfold Owed in HO. rewrite Er in HO. destruct HO as (l & Hl & Hle & Hto & HR).
    apply commitSyncRange_ok in H.
    destruct (refill_restores _ _ _ _ _ _ _ _ _ _ _ H Ec Href Er HR) as (Er' & _ & HR').
    exists l. split; [done|]. rewrite Hnone in Er'. unfold advanceReorgResync in Er'.
    destruct (Z.ltb_spec target (toBlock range + 1)); [|done]. intros b Hb. apply HR'. lia.
  - intros expected resumeFrom proof plan snapshot head batchSize retryAt u d' Hin Hbegin H.
    destruct (rollback_restores _ _ _ _ _ _ _ _ _ _ _ _ _ HI Hin Hbegin H) as (_ & _ & HR & _).
    unfold beginReorgResync in Hbegin. destruct (head <? _); [done|]. cbv zeta in Hbegin.
    destruct (Z.ltb_spec head (Z.min (rp_fromBlock plan) (default (rp_fromBlock plan) resumeFrom))); [|done].
    intros b Hb. apply HR. lia.
Qed.

(** ** A run *)

Definition collection1 : CollectionRecord := {|
  col_chainId := 1; col_id := 1; col_address := "0xaa"; col_standard := Erc721; col_status := Live;
  col_bootstrapAnchorBlock := Some 1 |}.

(** Block 10 of another fork is stored and waits for its check. *)
Definition unchecked : Db := {|
  db_chainId := 1; db_collections := {[1 := collection1]}; db_revision := 0;
  db_blocks := {[8 := storedRow h8; 9 := storedRow h9; 10 := withCheck (storedRow orphan10) true 0]};
  db_coverage := {[1 := {[8; 9; 10]}]}; db_scans := ∅; db_recovery := None; db_ledger := emptyLedger;
  db_outbox := emptyOutbox |}.

Definition mismatched : Db :=
  (retainMismatch {| cp_chainId := 1; cp_revision := 0 |} "r" 10 "0xaa" "0x0a" 5 unchecked).2.

Definition awaiting10 : RecoveryBase := withRetryAt mismatch10 5.

Definition proof9 : ReorgAncestorProof :=
  {| ap_fork := h9; ap_chainId := 1; ap_history := captureReorgHistory 8 10 mismatched |}.

Definition plan10 : ReorgRollbackPlan :=
  {| rp_checkpoint := {| cp_chainId := 1; cp_revision := 0 |}; rp_fromBlock := 10; rp_tokens := [] |}.

Definition refill10 : ReorgRecoveryState := ReorgResync (nextBase awaiting10 1 6) {| fromBlock := 10; toBlock := 12 |} 12.

Definition orphansRemoved : Db :=
  (commitRollbackAndResync awaiting10 None proof9 plan10 {| sn_block := h9; sn_owners := [] |} (Some refill10) mismatched).2.

Definition refill : SyncRangeCommit := {|
  c_result := {|
    s_checkpoint := {| cp_chainId := 1; cp_revision := 1 |};
    s_canonicalCheck := {| observedHeadBlock := 12; reorgDepth := 2 |};
    s_blocks := [h10; headerAt 11 "0x0b" "0x0a"; headerAt 12 "0x0c" "0x0b"];
    s_data := {| od_transactions := []; od_nftTransferEvents := []; od_otherFacts := [] |};
    s_collections := [collection1] |};
  c_followUps := [];
  c_completion := CompleteReorgResync {| rr_recoveryId := "r"; rr_revision := 1; rr_chainId := 1;
                                         rr_range := {| fromBlock := 10; toBlock := 12 |} |} 5 7 |}.

Definition removed : RState := {|
  rs_db := orphansRemoved; rs_owed := Some 10; rs_seen := [refill10; AwaitingReorgAncestor awaiting10 None] |}.

Lemma removed_reachable : RReach (fun id => id = 1) removed.
Proof.
  eapply rreach_step; [eapply rreach_step; [by apply (rreach_init _ unchecked)|]|].
  - eapply (step_retain _ _ {| cp_chainId := 1; cp_revision := 0 |} "r" 10 "0xaa" "0x0a" 5 _ mismatched); [by intros t []|].
    vm_compute. reflexivity.
  - apply (step_rollback _ (note mismatched None []) awaiting10 None proof9 plan10 {| sn_block := h9; sn_owners := [] |}
             12 5 6 (Some refill10) tt orphansRemoved).
    + done.
    + vm_compute. by left.
    + vm_compute. reflexivity.
    + vm_compute. reflexivity.
Qed.

Lemma resync_restores_history_witness :
  db_recovery (commitSyncRange refill orphansRemoved).2 = None /\
  Restored (fun id => id = 1) (commitSyncRange refill orphansRemoved).2 10 13.
Proof.
  split; [vm_compute; reflexivity|].
  destruct (resync_restores_history (fun id => id = 1) removed removed_reachable) as (_ & H & _).
  destruct (H (nextBase awaiting10 1 6) {| fromBlock := 10; toBlock := 12 |} 12
              {| rr_recoveryId := "r"; rr_revision := 1; rr_chainId := 1; rr_range := {| fromBlock := 10; toBlock := 12 |} |}
              5 7 refill tt (commitSyncRange refill orphansRemoved).2) as (l & Hl & HR).
  - vm_compute. reflexivity.
  - reflexivity.
  - split; [lia|]. intros id ->. by left.
  - vm_compute. reflexivity.
  - vm_compute. reflexivity.
  - injection Hl as <-. exact HR.
Defined.

End ResyncClaims.
