(* ===== verification/ScannerEnv.v ===== *)
(** * What the scanner assumes of other processes holds of their transactions

    [GapScheduler] lets the other process change the tables by a few kinds of event.
    Every transaction of [Reorg] and [SyncDb] that commits does, to the tables the scanner
    reads, what a sequence of such events does. *)

From S2P Require Import Prelude JsValue OrderBy Chain Ledger Jobs QueueOutbox SyncDb SyncDbProof GapRepair GapRepairClaims GapScheduler GapSchedulerInv Reorg ReorgProof ReorgClaims SyncCommitProof ResyncClaims.
Import Chain Ledger Jobs QueueOutbox SyncDb SyncDbProof SyncDbEffects GapRepair GapRepairClaims GapSchedulerInv Reorg ReorgProof ReorgClaims SyncCommitProof ResyncClaims.

Open Scope Z_scope.

Module ScannerEnv.

(** ** What the scanner sees *)

Definition sameView (d d' : Db) : Prop :=
  db_collections d = db_collections d' /\ db_revision d = db_revision d' /\ db_scans d = db_scans d' /\
  forall id, coverageOf d id = coverageOf d' id.

Lemma sameView_refl d : sameView d d.
Proof. by split_and!. Qed.

Lemma sameView_trans d1 d2 d3 : sameView d1 d2 -> sameView d2 d3 -> sameView d1 d3.
Proof. intros (? & ? & ? & E1) (? & ? & ? & E2). split_and!; congruence. Qed.

Lemma EnvLe_view d d1 d2 : EnvLe d d1 -> sameView d1 d2 -> EnvLe d d2.
Proof.
  intros (L1 & L2 & L3) (_ & E1 & E2 & E3). split_and!; [lia| |].
  - intros id. specialize (L2 id). rewrite <- E2, <- E3, <- E1. exact L2.
  - intros E id. rewrite <- E3. apply L3. lia.
Qed.

(** ** Persisted blocks *)

Definition persistEvents (ids : list Z) (blocks : list SyncBlockHeader) : list GapScheduler.DbEvent :=
  map (fun b => GapScheduler.EvPersist ids {| fromBlock := h_number b; toBlock := h_number b |}) blocks.

Lemma coverRanges_ok ids range d :
  let d' := fold_left (fun d id => GapScheduler.coverRange id range d) ids d in
  db_collections d' = db_collections d /\ db_revision d' = db_revision d /\ db_scans d' = db_scans d /\
  forall id b, b ∈ coverageOf d' id <-> b ∈ coverageOf d id \/ In id ids /\ fromBlock range <= b <= toBlock range.
Proof.
  revert d. induction ids as [|i ids IH]; intros d; cbn [fold_left]; [split_and!; [done..|]; simpl; tauto|].
  destruct (IH (GapScheduler.coverRange i range d)) as (H1 & H2 & H3 & H4). simpl in H1, H2, H3, H4.
  split_and!; [done..|]. intros id b. simpl. rewrite H4, elem_of_coverRange. intuition congruence.
Qed.

Lemma persistEvents_ok ids blocks d :
  let d' := fold_left GapScheduler.applyEvent (persistEvents ids blocks) d in
  db_collections d' = db_collections d /\ db_revision d' = db_revision d /\ db_scans d' = db_scans d /\
  forall id b, b ∈ coverageOf d' id <-> b ∈ coverageOf d id \/ In id ids /\ In b (map h_number blocks).
Proof.
  revert d. induction blocks as [|c blocks IH]; intros d; cbn [persistEvents map fold_left]; [split_and!; [done..|]; simpl; tauto|].
  set (r := {| fromBlock := h_number c; toBlock := h_number c |}).
  destruct (coverRanges_ok ids r d) as (E1 & E2 & E3 & E4). cbv zeta in E1, E2, E3, E4.
  destruct (IH (GapScheduler.applyEvent d (GapScheduler.EvPersist ids r))) as (H1 & H2 & H3 & H4). cbv zeta in *.
  cbn [GapScheduler.applyEvent] in *. fold (persistEvents ids blocks). split_and!; try congruence.
  intros id b. rewrite H4, E4. subst r. simpl. assert (h_number c <= b <= h_number c <-> h_number c = b) by lia. tauto.
Qed.

(** ** Advanced repairs *)

Lemma recordMember_row batch retryAt repair d d' :
  recordMember batch retryAt repair d = (true, d') ->
  hasAnchor (getProgress (g_collectionId repair) d) (g_anchorBlock repair) = true /\
  holdsRepair (getProgress (g_collectionId repair) d) repair = true.
Proof.
  unfold recordMember, recordRepairProgress, updateScan. destruct (getProgress (g_collectionId repair) d) as [p|]; [|done].
  destruct (matchesRepair p repair) eqn:E; [|done]. intros _. unfold matchesRepair in E.
  apply andb_true_iff in E as [E1 E2]. by split.
Qed.

(** The write depends only on the rows. *)
Lemma recordMember_view batch retryAt repair d1 d2 d2' :
  db_scans d1 = db_scans d2 -> recordMember batch retryAt repair d2 = (true, d2') ->
  db_scans (recordMember batch retryAt repair d1).2 = db_scans d2' /\
  (exists X, (recordMember batch retryAt repair d1).2 = setScans d1 X) /\ exists X, d2' = setScans d2 X.
Proof.
  intros E H. split; [|split; [apply recordMember_scans|]].
  - unfold recordMember, recordRepairProgress, updateScan, getProgress in *. rewrite E.
    destruct (db_scans d2 !! g_collectionId repair) as [p|]; [|done].
    destruct (matchesRepair p repair); [|done]. injection H as <-. simpl. by rewrite E.
  - destruct (recordMember_scans batch retryAt repair d2) as [X EX]. rewrite H in EX. by exists X.
Qed.

Lemma member_event batch retryAt repair dv d d' :
  sameView dv d -> recordMember batch retryAt repair d = (true, d') ->
  fromBlock (g_range repair) <= fromBlock (bt_range batch) -> toBlock (bt_range batch) = toBlock (g_range repair) ->
  (forall b, fromBlock (bt_range batch) <= b <= toBlock (bt_range batch) -> b ∈ coverageOf d (g_collectionId repair)) ->
  sameView (GapScheduler.applyEvent dv (GapScheduler.EvCommitRepair repair (bt_range batch) retryAt)) d'.
Proof.
  intros (V1 & V2 & V3 & V4) H Hfrom Hto Hcov. destruct (recordMember_row _ _ _ _ _ H) as [Ha Hh].
  cbn [GapScheduler.applyEvent]. unfold GapScheduler.commitRepair.
  unfold getProgress in *. rewrite V3, Ha, Hh, (proj2 (Z.leb_le _ _) Hfrom), (proj2 (Z.eqb_eq _ _) Hto). cbn [andb].
  fold (recordMember batch retryAt repair (GapScheduler.coverRange (g_collectionId repair) (bt_range batch) dv)).
  destruct (recordMember_view batch retryAt repair
              (GapScheduler.coverRange (g_collectionId repair) (bt_range batch) dv) d d' V3 H) as (E & [X EX] & [Y EY]).
  rewrite EX in *. subst d'. simpl in E. subst X. split_and!; [done|done|done|].
  intros id. apply leibniz_equiv. intros b.
  assert (b ∈ coverageOf (setScans (GapScheduler.coverRange (g_collectionId repair) (bt_range batch) dv) Y) id
          <-> b ∈ coverageOf (GapScheduler.coverRange (g_collectionId repair) (bt_range batch) dv) id) as -> by done.
  rewrite elem_of_coverRange, V4.
  assert (coverageOf (setScans d Y) id = coverageOf d id) as -> by done. split; [|by left].
  intros [?|[-> Hb]]; [done|by apply Hcov].
Qed.

Definition memberEvents (batch : SyncGapRepairBatch) (retryAt : Z) (repairs : list SyncGapRepairTarget)
    : list GapScheduler.DbEvent :=
  map (fun repair => GapScheduler.EvCommitRepair repair (bt_range batch) retryAt) repairs.

Lemma members_events batch retryAt repairs dv d u d' :
  sameView dv d -> recordMembers batch repairs retryAt d = (Ok u, d') ->
  (forall repair, In repair repairs ->
     fromBlock (g_range repair) <= fromBlock (bt_range batch) /\ toBlock (bt_range batch) = toBlock (g_range repair) /\
     forall b, fromBlock (bt_range batch) <= b <= toBlock (bt_range batch) -> b ∈ coverageOf d (g_collectionId repair)) ->
  sameView (fold_left GapScheduler.applyEvent (memberEvents batch retryAt repairs) dv) d'.
Proof.
  revert dv d. induction repairs as [|r repairs IH]; intros dv d HV H Hm.
  - by apply mret_ok in H as [_ ->].
  - apply recordMembers_cons in H as (d1 & H1 & H). cbn [memberEvents map fold_left].
    destruct (Hm r ltac:(by left)) as (Hf & Ht & Hc).
    apply (IH _ d1); [by eapply member_event|exact H|]. intros repair Hin.
    destruct (Hm repair ltac:(by right)) as (? & ? & Hc'). split_and!; [done|done|]. intros b Hb.
    destruct (recordMember_scans batch retryAt r d) as [X EX]. rewrite H1 in EX. simpl in EX. subst d1. by apply Hc'.
Qed.

Lemma ownsMembers_In chainId batch repairs acquired d repair :
  ownsMembers chainId batch repairs acquired d = true -> In repair repairs ->
  g_collectionId repair ∈ acquired /\ fromBlock (g_range repair) <= fromBlock (bt_range batch) /\
  toBlock (bt_range batch) = toBlock (g_range repair).
Proof.
  revert acquired. induction repairs as [|r repairs IH]; intros acquired H Hin; [done|]. simpl in H. zbool.
  destruct Hin as [->|Hin].
  - by apply bool_decide_eq_true in H.
  - match goal with Ho : ownsMembers _ _ _ _ _ = true |- _ => destruct (IH _ Ho Hin) as (Ha & ? & ?) end.
    split_and!; [|done|done]. set_solver.
Qed.

(** ** Commits *)

Lemma commit_events input d u d' :
  commitSyncRange input d = (Ok u, d') ->
  exists events, sameView (fold_left GapScheduler.applyEvent events d) d'.
Proof.
  intros HC%commitSyncRange_ok. pose proof (cm_completion _ _ _ HC) as Hcomp.
  pose proof (cm_revision _ _ _ HC) as [_ Hrev]. pose proof (cm_collections _ _ _ HC) as Hcol.
  pose proof (cm_coverage _ _ _ HC) as Hcov.
  set (ids := map col_id (s_collections (c_result input))) in *.
  set (blocks := s_blocks (c_result input)) in *.
  destruct (persistEvents_ok ids blocks d) as (E1 & E2 & E3 & E4). cbv zeta in *.
  assert (forall id, coverageOf (fold_left GapScheduler.applyEvent (persistEvents ids blocks) d) id = coverageOf d' id) as Ecov.
  { intros id. apply leibniz_equiv. intros b. by rewrite E4, Hcov. }
  assert (db_scans d' = db_scans d ->
          exists events, sameView (fold_left GapScheduler.applyEvent events d) d') as Hplain.
  { intros Hs. exists (persistEvents ids blocks). split_and!; congruence || done. }
  destruct (c_completion input) as [|batch retryAt|range batchSize retryAt].
  - apply Hplain, Hcomp.
  - destruct Hcomp as (_ & Hrange & Howns & _ & d1 & Hscans & u' & Hrec).
    exists (persistEvents ids blocks ++ memberEvents batch retryAt (bt_repairs batch)).
    rewrite fold_left_app. destruct (recordMembers_scans _ _ _ _ _ _ Hrec) as [X EX].
    eapply (members_events _ _ _ _ d1); [|exact Hrec|].
    + subst d'. simpl in *. split_and!; [congruence|congruence|congruence|]. intros id. by rewrite Ecov.
    + intros repair Hin. destruct (ownsMembers_In _ _ _ _ _ _ Howns Hin) as (Hacq & ? & ?).
      split_and!; [done|done|]. intros b Hb.
      assert (coverageOf d1 (g_collectionId repair) = coverageOf d' (g_collectionId repair)) as -> by by subst d'.
      apply Hcov. right. split.
      * apply elem_of_list_to_set, list_elem_of_In in Hacq. exact Hacq.
      * destruct (proj2 (coversRange_numbers _ _ _ b Hrange) Hb) as (h & Hh & <-). by apply in_map.
  - apply Hplain, Hcomp.
Qed.

Lemma rollback_event expected resumeFrom proof plan snapshot next d u d' :
  commitRollbackAndResync expected resumeFrom proof plan snapshot next d = (Ok u, d') ->
  sameView (GapScheduler.applyEvent d (GapScheduler.EvRollback (rp_fromBlock plan))) d'.
Proof.
  intros (Hfrom & HR & _)%commitRollback_ok. destruct (rb_revision _ _ _ _ _ HR) as [R1 R2].
  destruct (rb_fixed _ _ _ _ _ HR) as [Hcol Hscans]. simpl. split_and!; simpl; [done|lia|done|].
  intros id. apply leibniz_equiv. intros b. rewrite (rb_coverage _ _ _ _ _ HR).
  unfold coverageOf. simpl. rewrite lookup_fmap. destruct (db_coverage d !! id) as [c|]; simpl.
  - rewrite elem_of_filter, Hfrom. assert (b < h_number (ap_fork proof) + 1 <-> b <= h_number (ap_fork proof)) by lia. tauto.
  - split; [done|]. by intros [? _].
Qed.

(** C13: The scanner's picture of the other processes is true of their code.  A commit of a
    range - realtime, backfill, repair of missing history or refill after a rollback - that
    succeeds does to collections, coverage, scan rows and revision exactly what a sequence of
    the events the scanner is proved against does, a rollback what its rollback event does,
    and so, from well-formed rows, neither takes away a block a row accounts for without a new
    revision; every transaction that throws leaves the tables as they were. *)
Theorem writers_refine_scanner_events d :
  (forall input u d', commitSyncRange input d = (Ok u, d') ->
     (exists events, sameView (fold_left GapScheduler.applyEvent events d) d') /\ (RowsOk d -> EnvLe d d')) /\
  (forall expected resumeFrom proof plan snapshot next u d',
     commitRollbackAndResync expected resumeFrom proof plan snapshot next d = (Ok u, d') ->
     sameView (GapScheduler.applyEvent d (GapScheduler.EvRollback (rp_fromBlock plan))) d' /\ (RowsOk d -> EnvLe d d')) /\
  (forall input e d', commitSyncRange input d = (Err e, d') -> d' = d) /\
  (forall expected resumeFrom proof plan snapshot next e d',
     commitRollbackAndResync expected resumeFrom proof plan snapshot next d = (Err e, d') -> d' = d).
Proof.
  split_and!.
  - intros input u d' H%commit_events. split; [done|]. destruct H as [events HV]. intros HR.
    eapply EnvLe_view; [|exact HV]. by apply applyEvents_le.
  - intros expected resumeFrom proof plan snapshot next u d' H%rollback_event. split; [done|]. intros HR.
    eapply EnvLe_view; [|exact H]. by apply applyEvent_le.
  - intros input e d'. apply writeTransaction_err.
  - intros expected resumeFrom proof plan snapshot next e d'. apply writeTransaction_err.
Qed.

(** ** A run *)

Definition missing9 : SyncGapRepairTarget := {|
  g_collectionId := 1; g_repairId := "g"; g_anchorBlock := 1; g_range := {| fromBlock := 9; toBlock := 9 |} |}.

Definition missingDb : Db := {|
  db_chainId := 1; db_collections := {[1 := collection1]}; db_revision := 0; db_blocks := ∅;
  db_coverage := {[1 := {[10]}]};
  db_scans := {[1 := {| anchorBlock := 1; cursorBlock := Some 8;
                        pending := Some {| p_repairId := "g"; p_range := {| fromBlock := 9; toBlock := 9 |}; p_retryAt := 0 |};
                        lastHeadCheckAt := None |}]};
  db_recovery := None; db_ledger := emptyLedger; db_outbox := emptyOutbox |}.

Definition repairCommit : SyncRangeCommit := {|
  c_result := {|
    s_checkpoint := {| cp_chainId := 1; cp_revision := 0 |};
    s_canonicalCheck := {| observedHeadBlock := 12; reorgDepth := 2 |};
    s_blocks := [h9];
    s_data := {| od_transactions := []; od_nftTransferEvents := []; od_otherFacts := [] |};
    s_collections := [collection1] |};
  c_followUps := [];
  c_completion := CompleteGapRepair {| bt_range := {| fromBlock := 9; toBlock := 9 |}; bt_repairs := [missing9] |} 7 |}.

Lemma writers_refine_scanner_events_witness :
  (pending <$> db_scans (commitSyncRange repairCommit missingDb).2 !! 1) = Some None /\
  exists events, sameView (fold_left GapScheduler.applyEvent events missingDb) (commitSyncRange repairCommit missingDb).2.
Proof.
  split; [vm_compute; reflexivity|].
  destruct (writers_refine_scanner_events missingDb) as (H & _).
  destruct (H repairCommit tt (commitSyncRange repairCommit missingDb).2) as [He _].
  - vm_compute. reflexivity.
  - exact He.
Defined.

End ScannerEnv.
