(* ===== verification/OutboxDrainer.v ===== *)
(** * Publishing the outbox

    application/queue-outbox/drainer.ts: a process reads the rows that are due, publishes
    each to the broker and writes down what became of it.  Before each of its calls, of
    the table or of the broker, other processes insert jobs, roll back and purge
    ([OutboxEvent]), the clock moves, and the call may throw.  The log keeps, for the
    statements, which rows were inserted, accepted by the broker or deleted by others.
    Observers are left out, and the interval that runs one drain at a time. *)

From S2P Require Import Prelude JsValue OrderBy Chain Jobs QueueOutbox.
Import Chain Jobs QueueOutbox.

Open Scope Z_scope.

Module OutboxDrainer.

Local Open Scope artgod_scope.

(** ** Other processes *)

Inductive OutboxEvent :=
  | EvFollowUp (followUp : SyncFollowUp) (revision : Z)
  | EvEnqueue (job : JobEnvelope) (nextAttemptAt : Z)
  | EvRollback (chainId from : Z)
  | EvPurge (chainId collectionId : Z)
  | EvForget (outboxId : Z).

(** A purge deletes the rows of a collection; the owner of a bounded row may delete it. *)
Definition deletedBy (e : OutboxEvent) (row : OutboxRow) : bool :=
  match e with
  | EvRollback chainId from => orphaned chainId from row
  | EvPurge chainId collectionId =>
      (j_chainId (ob_job row) =? chainId) && bool_decide (j_collectionId (ob_job row) = Some collectionId)
  | EvForget outboxId => (ob_outboxId row =? outboxId) && bool_decide (ob_retryPolicy row = Bounded)
  | _ => false
  end.

Inductive LogEntry :=
  | Inserted (row : OutboxRow)
  | Accepted (outboxId : Z) (job : JobEnvelope)
  | Deleted (outboxId : Z) (by_ : OutboxEvent).

(** What the broker does with a publication: it may have it although the reply is lost. *)
Inductive Reply := Acknowledged | ReplyLost | Refused.

Record Turn := { tn_events : list OutboxEvent; tn_now : Z; tn_throws : bool; tn_reply : Reply }.

Record World := { w_outbox : Outbox; w_log : list LogEntry; w_now : Z; w_turn : nat }.

Definition rowsOf (o : Outbox) : list OutboxRow := map snd (map_to_list (out_rows o)).

Definition insertedBy (e : OutboxEvent) (o : Outbox) : Outbox :=
  match e with
  | EvFollowUp followUp revision => enqueueSyncFollowUp revision o followUp
  | EvEnqueue job nextAttemptAt => enqueueJob job nextAttemptAt o
  | _ => o
  end.

Definition insertEvent (e : OutboxEvent) (w : World) : World :=
  let o := insertedBy e (w_outbox w) in
  {| w_outbox := o;
     w_log := w_log w ++ map Inserted (List.filter (fun row => out_seq (w_outbox w) <? ob_outboxId row) (rowsOf o));
     w_now := w_now w; w_turn := w_turn w |}.

Definition deleteEvent (e : OutboxEvent) (w : World) : World :=
  let o := w_outbox w in
  {| w_outbox := {| out_rows := filter (fun '(_, row) => deletedBy e row = false) (out_rows o); out_seq := out_seq o |};
     w_log := w_log w ++ map (fun row => Deleted (ob_outboxId row) e) (List.filter (deletedBy e) (rowsOf o));
     w_now := w_now w; w_turn := w_turn w |}.

Definition applyEvent (w : World) (e : OutboxEvent) : World := deleteEvent e (insertEvent e w).

Record QueueOutboxDrainerOptions := {
  o_limit : nat; o_maxAttempts : Z; o_retryBaseDelayMs : Z; o_retryMaxDelayMs : Z;
}.

Section Drainer.
Context (options : QueueOutboxDrainerOptions) (turns : nat -> Turn).

Definition advance (w : World) : World :=
  let t := turns (w_turn w) in
  let w := fold_left applyEvent (tn_events t) w in
  {| w_outbox := w_outbox w; w_log := w_log w; w_now := tn_now t; w_turn := S (w_turn w) |}.

Definition store {A} (f : Outbox -> A * Outbox) : M World A := fun w =>
  let throws := tn_throws (turns (w_turn w)) in
  let w := advance w in
  if throws then (Err "SQLITE_BUSY", w)
  else let '(a, o) := f (w_outbox w) in
       (Ok a, {| w_outbox := o; w_log := w_log w; w_now := w_now w; w_turn := w_turn w |}).

Definition write (f : Outbox -> Outbox) : M World unit := store (fun o => (tt, f o)).

Definition publish (row : OutboxRow) : M World unit := fun w =>
  let reply := tn_reply (turns (w_turn w)) in
  let w := advance w in
  let accepted := {| w_outbox := w_outbox w; w_log := w_log w ++ [Accepted (ob_outboxId row) (ob_job row)];
                     w_now := w_now w; w_turn := w_turn w |} in
  match reply with
  | Acknowledged => (Ok tt, accepted)
  | ReplyLost => (Err "NATS timeout", accepted)
  | Refused => (Err "NATS unavailable", w)
  end.

Definition clock : M World Z := fun w => (Ok (w_now w), w).

Definition resolveRetryDelayMs (attempts : Z) : Z :=
  Z.min (o_retryMaxDelayMs options) (o_retryBaseDelayMs options * 2 ^ Z.max 0 (attempts - 1)).

(** The body of the loop, with the row as it was listed. *)
Definition publishRow (row : OutboxRow) : M World bool :=
  let attempts := ob_attempts row + 1 in
  mcatch
    (do! publish row in
     do! (match ob_retryPolicy row with
          | Required => write (removePublishedSyncFollowUp (ob_outboxId row))
          | Bounded => write (markSent (ob_outboxId row))
          end) in
     mret true)
    (fun _ =>
       let terminal := negb (bool_decide (ob_retryPolicy row = Required)) && (o_maxAttempts options <=? attempts) in
       let! now := clock in
       do! write (markFailed (ob_outboxId row) attempts
                    (if terminal then 0 else now + resolveRetryDelayMs attempts) terminal) in
       mret false).

Fixpoint publishRows (due : list OutboxRow) (published : nat) : M World nat :=
  match due with
  | [] => mret published
  | row :: rest =>
      let! ok := publishRow row in
      publishRows rest (if ok then S published else published)
  end.

Definition drainQueueOutbox : M World nat :=
  let! now := clock in
  let! due := store (fun o => (listDue now (o_limit options) o, o)) in
  publishRows due 0.

(** One [tick]: an error of the drain is logged. *)
Definition tick : M World unit :=
  mcatch (let! _ := drainQueueOutbox in mret tt) (fun _ => mret tt).

End Drainer.

End OutboxDrainer.
