(* ===== verification/OutboxClaims.v ===== *)
(** * Publishing the outbox: what it promises

    Other processes and drains, as a step relation: a required job is published or
    deleted by a rollback or a purge, never lost.  [calm] drains then show that what is
    due is published, in order. *)

From S2P Require Import Prelude JsValue OrderBy Chain Jobs QueueOutbox OutboxDrainer.
Import Chain Jobs QueueOutbox OutboxDrainer.

Open Scope Z_scope.

Module OutboxClaims.

Local Open Scope artgod_scope.

(** ** The invariant *)

(** The parts of a row that never change. *)
Definition sameJob (a b : OutboxRow) : Prop :=
  ob_outboxId a = ob_outboxId b /\ ob_job a = ob_job b /\ ob_retryPolicy a = ob_retryPolicy b /\ ob_block a = ob_block b.

Definition waiting (row : OutboxRow) : Prop := ob_status row = Pending \/ ob_status row = FailedRetry.

(** What is true of the attempts of a bounded row. *)
Definition attemptsOk (maxAttempts : Z) (row : OutboxRow) : Prop :=
  0 <= ob_attempts row /\
  (ob_retryPolicy row = Bounded ->
   match ob_status row with
   | Pending | FailedRetry => ob_attempts row < maxAttempts
   | Sent => ob_attempts row <= maxAttempts
   | FailedTerminal => ob_attempts row = maxAttempts
   end) /\
  (ob_retryPolicy row = Required -> waiting row).

Record OInv (maxAttempts : Z) (w : World) : Prop := {
  oi_key : forall k row, out_rows (w_outbox w) !! k = Some row -> k = keyOf (ob_job row) /\ attemptsOk maxAttempts row;
  oi_row : forall k row, out_rows (w_outbox w) !! k = Some row -> exists r, In (Inserted r) (w_log w) /\ sameJob r row;
  oi_seq : forall r, In (Inserted r) (w_log w) -> ob_outboxId r <= out_seq (w_outbox w);
  oi_once : forall r r', In (Inserted r) (w_log w) -> In (Inserted r') (w_log w) -> ob_outboxId r = ob_outboxId r' -> r = r';
  oi_required : forall r, In (Inserted r) (w_log w) -> ob_retryPolicy r = Required ->
    (exists row, out_rows (w_outbox w) !! keyOf (ob_job r) = Some row /\ sameJob r row)
    \/ In (Accepted (ob_outboxId r) (ob_job r)) (w_log w)
    \/ exists e, In (Deleted (ob_outboxId r) e) (w_log w) /\ deletedBy e r = true;
  oi_accepted : forall id job, In (Accepted id job) (w_log w) ->
    exists r, In (Inserted r) (w_log w) /\ ob_outboxId r = id /\ ob_job r = job;
}.

Lemma sameJob_deleted e a b : sameJob a b -> deletedBy e a = deletedBy e b.
Proof.
  intros (E1 & E2 & E3 & E4). destruct e; simpl; unfold orphaned; by rewrite ?E1, ?E2, ?E3, ?E4.
Qed.

Lemma sameJob_trans a b c : sameJob a b -> sameJob b c -> sameJob a c.
Proof. intros (? & ? & ? & ?) (? & ? & ? & ?). split_and!; congruence. Qed.

Lemma filter_nil_iff {A} (p : A -> bool) l : List.filter p l = [] <-> forall x, In x l -> p x = false.
Proof.
  induction l as [|y l IH]; simpl; [done|]. destruct (p y) eqn:E.
  - split; [done|]. intros H. specialize (H y ltac:(by left)). congruence.
  - rewrite IH. split; [intros H x [<-|Hx]; auto|auto].
Qed.

Lemma In_firstn {A} n (l : list A) x : In x (firstn n l) -> In x l.
Proof. intros H. rewrite <- (firstn_skipn n l). apply in_app_iff. by left. Qed.

Lemma rowsOf_In o row : In row (rowsOf o) <-> exists k, out_rows o !! k = Some row.
Proof.
  unfold rowsOf. rewrite in_map_iff. split.
  - intros ([k r] & <- & Hin). exists k. by apply elem_of_map_to_list, list_elem_of_In.
  - intros [k Hk]. exists (k, row). split; [done|]. by apply list_elem_of_In, elem_of_map_to_list.
Qed.

(** Both inserts put at most one row in, under the next id. *)
Lemma insertedBy_cases e o :
  insertedBy e o = o \/
  exists row, insertedBy e o = {| out_rows := <[keyOf (ob_job row) := row]> (out_rows o); out_seq := out_seq o + 1 |} /\
    out_rows o !! keyOf (ob_job row) = None /\ ob_outboxId row = out_seq o + 1 /\ ob_status row = Pending /\
    ob_attempts row = 0.
Proof.
  assert (forall job at_ policy block, insertJob job at_ policy block o = o \/
    exists row, insertJob job at_ policy block o
                = {| out_rows := <[keyOf (ob_job row) := row]> (out_rows o); out_seq := out_seq o + 1 |} /\
    out_rows o !! keyOf (ob_job row) = None /\ ob_outboxId row = out_seq o + 1 /\ ob_status row = Pending /\
    ob_attempts row = 0) as H.
  { intros job at_ policy block. unfold insertJob. destruct (out_rows o !! keyOf job) eqn:E; [by left|right].
    by eexists {| ob_outboxId := out_seq o + 1; ob_job := job; ob_status := Pending; ob_attempts := 0;
                  ob_nextAttemptAt := at_; ob_retryPolicy := policy; ob_block := block |}. }
  destruct e; simpl; [apply H|apply H|by left..].
Qed.

Section Invariant.
Context (options : QueueOutboxDrainerOptions).
Abbreviation maxAttempts := (o_maxAttempts options).
Context (Hmax : 1 <= maxAttempts).

Lemma oi_below w k row : OInv maxAttempts w -> out_rows (w_outbox w) !! k = Some row -> ob_outboxId row <= out_seq (w_outbox w).
Proof. intros [I1 I2 I3 I4 I5 I6] Hk. destruct (I2 k row Hk) as (r & Hr & <- & _). by apply I3. Qed.

(** Rows with the same id are one row. *)
Lemma oi_unique w k row k' row' : OInv maxAttempts w ->
  out_rows (w_outbox w) !! k = Some row -> out_rows (w_outbox w) !! k' = Some row' ->
  ob_outboxId row = ob_outboxId row' -> k = k' /\ row = row'.
Proof.
  intros [I1 I2 I3 I4 I5 I6] Hk Hk' E. destruct (I2 k row Hk) as (r & Hr & S1), (I2 k' row' Hk') as (r' & Hr' & S2).
  assert (r = r') as <- by (apply I4; [done..|]; destruct S1, S2; congruence).
  destruct (I1 k row Hk) as [-> _], (I1 k' row' Hk') as [-> _].
  assert (keyOf (ob_job row) = keyOf (ob_job row')) as Ek by (destruct S1 as (_ & <- & _), S2 as (_ & <- & _); done).
  split; [done|]. congruence.
Qed.

Lemma OInv_insert w e : OInv maxAttempts w -> OInv maxAttempts (insertEvent e w).
Proof.
  intros HI. pose proof HI as [I1 I2 I3 I4 I5 I6]. unfold insertEvent.
  destruct (insertedBy_cases e (w_outbox w)) as [->|(new & -> & Hfree & Hid & Hst & Hat)].
  - rewrite (proj2 (filter_nil_iff _ _)).
    + rewrite app_nil_r. by destruct w.
    + intros row Hrow. apply rowsOf_In in Hrow as [k Hk]. apply Z.ltb_ge. by eapply oi_below.
  - set (rows' := <[keyOf (ob_job new) := new]> (out_rows (w_outbox w))).
    assert (forall r, In (Inserted r) (w_log w ++ map Inserted (List.filter (fun row => out_seq (w_outbox w) <? ob_outboxId row)
              (rowsOf {| out_rows := rows'; out_seq := out_seq (w_outbox w) + 1 |}))) <->
            In (Inserted r) (w_log w) \/ r = new) as Hlog.
    { intros r. rewrite in_app_iff, in_map_iff. split.
      - intros [?|(r' & [= ->] & [Hin Hlt]%filter_In)]; [by left|right]. apply rowsOf_In in Hin as [k Hk]. simpl in Hk.
        apply lookup_insert_Some in Hk as [[_ <-]|[_ Hk]]; [done|]. apply Z.ltb_lt in Hlt. apply (oi_below w k) in Hk; [lia|done].
      - intros [?| ->]; [by left|right]. exists new. split; [done|]. apply filter_In. split; [|apply Z.ltb_lt; lia].
        apply rowsOf_In. exists (keyOf (ob_job new)). apply lookup_insert_eq. }
    split; simpl.
    + intros k row [[<- <-]|[_ Hk]]%lookup_insert_Some; [|by apply I1]. split; [done|].
      split_and!; [lia|intros _; rewrite Hst; lia|intros _; by left].
    + intros k row [[<- <-]|[_ Hk]]%lookup_insert_Some.
      * exists new. split; [by apply Hlog; right|done].
      * destruct (I2 k row Hk) as (r & Hr & ?). exists r. split; [by apply Hlog; left|done].
    + intros r [Hr| ->]%Hlog; [specialize (I3 r Hr)|]; lia.
    + intros r r' [Hr| ->]%Hlog [Hr'| ->]%Hlog E; [by apply I4| | |done]; [apply I3 in Hr|apply I3 in Hr']; lia.
    + intros r [Hr| ->]%Hlog Hreq.
      * destruct (I5 r Hr Hreq) as [(row & Hk & HS)|[Ha|(ev & Hd & Hb)]].
        -- left. exists row. split; [|done]. unfold rows'. rewrite lookup_insert_ne; [done|]. intros E. by rewrite E, Hk in Hfree.
        -- right; left. apply in_app_iff. by left.
        -- right; right. exists ev. split; [apply in_app_iff; by left|done].
      * left. exists new. split; [apply lookup_insert_eq|done].
    + intros id job Ha. apply in_app_iff in Ha as [Ha|(r & [=] & _)%in_map_iff].
      destruct (I6 id job Ha) as (r & Hr & ?). exists r. split; [by apply Hlog; left|done].
Qed.

Lemma OInv_delete w e : OInv maxAttempts w -> OInv maxAttempts (deleteEvent e w).
Proof.
  intros HI. pose proof HI as [I1 I2 I3 I4 I5 I6]. unfold deleteEvent.
  assert (forall r, In (Inserted r) (w_log w ++ map (fun row => Deleted (ob_outboxId row) e)
            (List.filter (deletedBy e) (rowsOf (w_outbox w)))) <-> In (Inserted r) (w_log w)) as Hlog.
  { intros r. rewrite in_app_iff, in_map_iff. split; [|by left]. by intros [?|(? & [=] & _)]. }
  split; simpl.
  - intros k row [Hk _]%map_lookup_filter_Some. by apply I1.
  - intros k row [Hk _]%map_lookup_filter_Some. destruct (I2 k row Hk) as (r & Hr & ?). exists r. by rewrite Hlog.
  - intros r Hr%Hlog. by apply I3.
  - intros r r' Hr%Hlog Hr'%Hlog. by apply I4.
  - intros r Hr%Hlog Hreq. destruct (I5 r Hr Hreq) as [(row & Hk & HS)|[Ha|(ev & Hd & Hb)]].
    + destruct (deletedBy e row) eqn:Ed.
      * right; right. exists e. split; [|by rewrite (sameJob_deleted e r row HS)].
        apply in_app_iff. right. apply in_map_iff. exists row. destruct HS as [-> _]. split; [done|].
        apply filter_In. split; [|done]. apply rowsOf_In. by eexists.
      * left. exists row. split; [|done]. by apply map_lookup_filter_Some.
    + right; left. apply in_app_iff. by left.
    + right; right. exists ev. split; [apply in_app_iff; by left|done].
  - intros id job Ha. apply in_app_iff in Ha as [Ha|(r & [=] & _)%in_map_iff].
    destruct (I6 id job Ha) as (r & Hr & ?). exists r. by rewrite Hlog.
Qed.

Lemma OInv_events w es : OInv maxAttempts w -> OInv maxAttempts (fold_left applyEvent es w).
Proof. revert w. induction es as [|e es IH]; intros w H; [done|]. apply IH. by apply OInv_delete, OInv_insert. Qed.

(** *** One drain *)

Definition withOutbox (o : Outbox) (w : World) : World :=
  {| w_outbox := o; w_log := w_log w; w_now := w_now w; w_turn := w_turn w |}.

Lemma OInv_update w id f :
  OInv maxAttempts w ->
  (forall row, ob_outboxId row = id -> sameJob row (f row)) ->
  (forall k row, out_rows (w_outbox w) !! k = Some row -> ob_outboxId row = id -> attemptsOk maxAttempts row ->
     attemptsOk maxAttempts (f row)) ->
  OInv maxAttempts (withOutbox (updateRow id f (w_outbox w)) w).
Proof.
  intros [I1 I2 I3 I4 I5 I6] Hsame Hatt.
  assert (forall k row, (fun row => if ob_outboxId row =? id then f row else row) <$> out_rows (w_outbox w) !! k = Some row ->
            exists old, out_rows (w_outbox w) !! k = Some old /\ sameJob old row /\
              (attemptsOk maxAttempts old -> attemptsOk maxAttempts row)) as Hrow.
  { intros k row Hk. destruct (out_rows (w_outbox w) !! k) as [old|] eqn:E; [|done]. injection Hk as <-.
    exists old. destruct (Z.eqb_spec (ob_outboxId old) id) as [Eid|]; [|done].
    split_and!; [done|by apply Hsame|by eapply Hatt]. }
  split; simpl; try done.
  - intros k row. rewrite lookup_fmap. intros (old & Hk & HS & Ha)%Hrow. destruct (I1 k old Hk) as [-> ?].
    split; [|auto]. by destruct HS as (_ & -> & _).
  - intros k row. rewrite lookup_fmap. intros (old & Hk & HS & _)%Hrow. destruct (I2 k old Hk) as (r & ? & ?).
    exists r. split; [done|]. by eapply sameJob_trans.
  - intros r Hr Hreq. destruct (I5 r Hr Hreq) as [(row & Hk & HS)|?]; [left|by right].
    rewrite lookup_fmap, Hk. eexists. split; [done|]. destruct (Z.eqb_spec (ob_outboxId row) id) as [Eid|]; [|done].
    eapply sameJob_trans; [exact HS|by apply Hsame].
Qed.

Lemma OInv_removePublished w r :
  OInv maxAttempts w -> In (Inserted r) (w_log w) -> In (Accepted (ob_outboxId r) (ob_job r)) (w_log w) ->
  OInv maxAttempts (withOutbox (removePublishedSyncFollowUp (ob_outboxId r) (w_outbox w)) w).
Proof.
  intros [I1 I2 I3 I4 I5 I6] Hr Hacc. split; simpl; try done.
  - intros k row [Hk _]%map_lookup_filter_Some. by apply I1.
  - intros k row [Hk _]%map_lookup_filter_Some. by apply (I2 k).
  - intros r' Hr' Hreq. destruct (I5 r' Hr' Hreq) as [(row & Hk & HS)|?]; [|by right].
    destruct (decide (ob_outboxId r' = ob_outboxId r)) as [E|Hne].
    + rewrite (I4 r' r Hr' Hr E). right; by left.
    + left. exists row. split; [|done]. apply map_lookup_filter_Some. split; [done|].
      destruct HS as [E _]. apply andb_false_iff. left. apply Z.eqb_neq. congruence.
Qed.

(** A row as it was listed. *)
Definition Listed (w : World) (row : OutboxRow) : Prop :=
  waiting row /\ attemptsOk maxAttempts row /\ exists r, In (Inserted r) (w_log w) /\ sameJob r row.

Definition grows (w w' : World) : Prop := forall e, In e (w_log w) -> In e (w_log w').

Lemma Listed_grows w w' row : grows w w' -> Listed w row -> Listed w' row.
Proof. intros Hg (? & ? & r & Hr & HS). split_and!; [done..|]. exists r. auto. Qed.

Lemma events_grow w es : grows w (fold_left applyEvent es w).
Proof.
  revert w. induction es as [|e es IH]; intros w x Hx; [done|]. apply IH. simpl.
  apply in_app_iff. left. apply in_app_iff. by left.
Qed.

Context (turns : nat -> Turn).

Lemma advance_ok w : OInv maxAttempts w -> OInv maxAttempts (advance turns w) /\ grows w (advance turns w).
Proof.
  intros H. unfold advance. split; [|apply events_grow].
  pose proof (OInv_events w (tn_events (turns (w_turn w))) H) as [I1 I2 I3 I4 I5 I6]. by split.
Qed.

(** A triple over runs: whatever they return, the invariant holds and the log has grown. *)
Definition holds {A} (P : World -> Prop) (m : M World A) (Q : A -> World -> Prop) : Prop :=
  forall w, OInv maxAttempts w -> P w ->
  let '(r, w') := m w in OInv maxAttempts w' /\ grows w w' /\ match r with Ok a => Q a w' | Err _ => True end.

Lemma holds_ret {A} P (a : A) : holds P (mret a) (fun _ _ => True).
Proof. intros w HI _. split_and!; [done|by intros x|done]. Qed.

Lemma holds_bind {A B} P (m : M World A) (f : A -> M World B) R Q :
  holds P m R -> (forall a, holds (R a) (f a) Q) -> holds P (mbind m f) Q.
Proof.
  intros Hm Hf w HI HP. unfold mbind. specialize (Hm w HI HP). destruct (m w) as [[a|e] w1].
  - destruct Hm as (HI1 & Hg1 & HR). specialize (Hf a w1 HI1 HR). destruct (f a w1) as [r w2].
    destruct Hf as (? & ? & ?). split_and!; [done| |done]. intros x. auto.
  - destruct Hm as (? & ? & _). by split_and!.
Qed.

Lemma holds_catch {A} P (m : M World A) h Q :
  (forall w w', grows w w' -> P w -> P w') -> holds P m Q -> (forall e, holds P (h e) Q) -> holds P (mcatch m h) Q.
Proof.
  intros Hst Hm Hh w HI HP. unfold mcatch. specialize (Hm w HI HP). destruct (m w) as [[a|e] w1].
  - by destruct Hm as (? & ? & ?).
  - destruct Hm as (HI1 & Hg1 & _). specialize (Hh e w1 HI1 (Hst w w1 Hg1 HP)). destruct (h e w1) as [r w2].
    destruct Hh as (? & ? & ?). split_and!; [done| |done]. intros x. auto.
Qed.

Lemma holds_write P f :
  (forall w w', grows w w' -> P w -> P w') ->
  (forall w, OInv maxAttempts w -> P w -> OInv maxAttempts (withOutbox (f (w_outbox w)) w)) ->
  holds P (write turns f) (fun _ _ => True).
Proof.
  intros Hst Hf w HI HP. unfold write, store. destruct (advance_ok w HI) as [HI1 Hg1].
  destruct (tn_throws _); [by split_and!|]. simpl. split_and!; [|done|done]. apply (Hf (advance turns w)); eauto.
Qed.

Lemma holds_publishRow row : holds (fun w => Listed w row) (publishRow options turns row) (fun _ _ => True).
Proof.
  unfold publishRow. apply holds_catch; [intros w w'; apply Listed_grows| |].
  - apply (holds_bind _ _ _ (fun _ w => Listed w row /\ In (Accepted (ob_outboxId row) (ob_job row)) (w_log w))).
    + intros w HI HL. unfold publish. destruct (advance_ok w HI) as [HI1 Hg1]. pose proof (Listed_grows _ _ _ Hg1 HL) as HL1.
      set (w1 := advance turns w) in *.
      set (w2 := {| w_outbox := w_outbox w1; w_log := _; w_now := w_now w1; w_turn := w_turn w1 |}).
      assert (grows w1 w2) as Hg2 by (intros x Hx; apply in_app_iff; by left).
      assert (OInv maxAttempts w2) as HI2.
      { destruct HI1 as [I1 I2 I3 I4 I5 I6]. destruct HL1 as (_ & _ & r0 & Hr0 & HS0).
        assert (forall r, In (Inserted r) (w_log w2) <-> In (Inserted r) (w_log w1)) as Hin.
        { intros r. simpl. rewrite in_app_iff. simpl. split; [|by left]. by intros [?|[[=]|[]]]. }
        split; simpl; try done.
        - intros k r Hk. destruct (I2 k r Hk) as (r' & ? & ?). exists r'. split; [by apply Hin|done].
        - intros r Hr%Hin. by apply I3.
        - intros r r' Hr%Hin Hr'%Hin. by apply I4.
        - intros r Hr%Hin Hreq. destruct (I5 r Hr Hreq) as [?|[?|(ev & ? & ?)]];
            [by left|right; left; apply in_app_iff; by left|right; right; exists ev; split; [apply in_app_iff; by left|done]].
        - intros id job Ha. apply in_app_iff in Ha as [Ha|[[= <- <-]|[]]].
          + destruct (I6 id job Ha) as (r & ? & ?). exists r. split; [by apply Hin|done].
          + exists r0. destruct HS0 as (E1 & E2 & _). split; [by apply Hin|done]. }
      assert (grows w w2) as Hg by (intros x Hx; by apply Hg2, Hg1).
      destruct (tn_reply _); split_and!; try done; [by eapply Listed_grows|]. apply in_app_iff. right. by left.
    + intros _. apply (holds_bind _ _ _ (fun _ _ => True)); [|intros _; apply holds_ret].
      assert (forall w w', grows w w' -> Listed w row /\ In (Accepted (ob_outboxId row) (ob_job row)) (w_log w) ->
                Listed w' row /\ In (Accepted (ob_outboxId row) (ob_job row)) (w_log w')) as Hst
        by (intros w w' Hg [? ?]; split; [by eapply Listed_grows|by apply Hg]).
      destruct (ob_retryPolicy row) eqn:Epol; (apply holds_write; [exact Hst|]); intros w HI [(Hw & Ha & r & Hr & HS) Hacc].
      * apply OInv_update; [done|by intros|]. intros k old Hk Eid (Hn & Hold & _). simpl.
        assert (ob_retryPolicy old = Bounded) as Hpol.
        { destruct HI as [I1 I2 I3 I4 I5 I6]. destruct (I2 k old Hk) as (r' & Hr' & HS').
          assert (r' = r) as -> by (apply I4; [done..|]; destruct HS, HS'; congruence).
          destruct HS as (_ & _ & ? & _), HS' as (_ & _ & ? & _). congruence. }
        split_and!; [done| |simpl; by rewrite Hpol]. intros _. simpl. specialize (Hold Hpol).
        destruct (ob_status old); lia.
      * pose proof HS as (E1 & E2 & _). rewrite <- E1. apply OInv_removePublished; [done..|]. by rewrite E1, E2.
  - intros e. apply (holds_bind _ _ _ (fun _ w => Listed w row)).
    { intros w HI HL. unfold clock; split_and!; [done|by intros x|done]. }
    intros now. apply (holds_bind _ _ _ (fun _ _ => True)); [|intros _; apply holds_ret].
    apply holds_write; [intros w w'; apply Listed_grows|]. intros w HI (Hw & (Hn & Hb & _) & r & Hr & HS).
    apply OInv_update; [done|by intros|]. intros k old Hk Eid (_ & _ & Hreq).
    assert (ob_retryPolicy old = ob_retryPolicy row) as Hpol.
    { destruct HI as [I1 I2 I3 I4 I5 I6]. destruct (I2 k old Hk) as (r' & Hr' & HS').
      assert (r' = r) as -> by (apply I4; [done..|]; destruct HS, HS'; congruence).
      destruct HS as (_ & _ & ? & _), HS' as (_ & _ & ? & _). congruence. }
    unfold attemptsOk, waiting. simpl. rewrite Hpol. split_and!; [lia| |].
    + intros Ep. specialize (Hb Ep). rewrite Ep. simpl.
      assert (ob_attempts row < maxAttempts) by (destruct Hw as [E|E]; rewrite E in Hb; lia).
      destruct (Z.leb_spec maxAttempts (ob_attempts row + 1)); simpl; lia.
    + intros Ep. rewrite Ep. simpl. by right.
Qed.

Lemma holds_publishRows due published :
  holds (fun w => forall row, In row due -> Listed w row) (publishRows options turns due published) (fun _ _ => True).
Proof.
  revert published. induction due as [|row due IH]; intros published; simpl; [apply holds_ret|].
  intros w HI HL. unfold mbind.
  pose proof (holds_publishRow row w HI (HL row ltac:(by left))) as H.
  destruct (publishRow options turns row w) as [[ok|e] w1]; [|by destruct H as (? & ? & _)].
  destruct H as (HI1 & Hg1 & _).
  specialize (IH (if ok then S published else published) w1 HI1
                (fun r Hr => Listed_grows _ _ _ Hg1 (HL r (or_intror Hr)))).
  destruct (publishRows _ _ _ _ w1) as [r w2]. destruct IH as (? & ? & ?). split_and!; [done| |done]. intros x. auto.
Qed.

Lemma listDue_In now limit o row : In row (listDue now limit o) -> (exists k, out_rows o !! k = Some row) /\ isDue now row = true.
Proof.
  unfold listDue. intros Hin. apply In_firstn in Hin. apply orderBy_In, filter_In in Hin as [Hin ?]. split; [|done]. by apply rowsOf_In.
Qed.

Lemma holds_tick : holds (fun _ => True) (tick options turns) (fun _ _ => True).
Proof.
  unfold tick. apply holds_catch; [done| |intros e; apply holds_ret]. apply (holds_bind _ _ _ (fun _ _ => True)); [|intros _; apply holds_ret].
  unfold drainQueueOutbox. apply (holds_bind _ _ _ (fun _ _ => True)); [intros w HI _; split_and!; [done|by intros x|done]|]. intros now.
  apply (holds_bind _ _ _ (fun due w => forall row, In row due -> Listed w row)); [|intros due; apply holds_publishRows].
  intros w HI _. unfold store. destruct (advance_ok w HI) as [HI1 Hg1]. destruct (tn_throws _); [by split_and!|].
  simpl. assert (forall w, withOutbox (w_outbox w) w = w) as Ew by by intros [].
  change {| w_outbox := _; w_log := _; w_now := _; w_turn := _ |} with (withOutbox (w_outbox (advance turns w)) (advance turns w)).
  rewrite Ew. split_and!; [done..|]. intros row [[k Hk] Hdue]%listDue_In. destruct HI1 as [I1 I2 I3 I4 I5 I6].
  split_and!; [|by apply (I1 k)|by apply (I2 k)]. unfold isDue, waiting in *. by destruct (ob_status row); auto.
Qed.

End Invariant.

(** ** Drains among other processes *)

Section Steps.
Context (options : QueueOutboxDrainerOptions).

Inductive Step : World -> World -> Prop :=
  | step_other e w : Step w (applyEvent w e)
  | step_tick turns w : Step w (tick options turns w).2.

Inductive Reachable : World -> Prop :=
  | reach_init now : Reachable {| w_outbox := emptyOutbox; w_log := []; w_now := now; w_turn := 0 |}
  | reach_step w w' : Reachable w -> Step w w' -> Reachable w'.

Lemma reachable_OInv w : 1 <= o_maxAttempts options -> Reachable w -> OInv (o_maxAttempts options) w.
Proof.
  intros Hmax. induction 1 as [now|w w' _ IH Hstep].
  - split; simpl; try done. all: intros k row Hk; by rewrite lookup_empty in Hk.
  - destruct Hstep as [e w|turns w].
    + by apply OInv_delete, OInv_insert.
    + pose proof (holds_tick options Hmax turns w IH I) as H. destruct (tick options turns w) as [r w2]. apply H.
Qed.

End Steps.

(** ** A calm drain *)

Definition calm (turns : nat -> Turn) : Prop := forall n, tn_events (turns n) = [] /\ tn_throws (turns n) = false.

(** What one attempt makes of a row. *)
Definition settled (options : QueueOutboxDrainerOptions) (t : Turn) (row : OutboxRow) : option OutboxRow :=
  match tn_reply t, ob_retryPolicy row with
  | Acknowledged, Required => None
  | Acknowledged, Bounded => Some (withState Sent (ob_attempts row) (ob_nextAttemptAt row) row)
  | _, Required => Some (withState FailedRetry (ob_attempts row + 1)
                           (tn_now t + resolveRetryDelayMs options (ob_attempts row + 1)) row)
  | _, Bounded =>
      if o_maxAttempts options <=? ob_attempts row + 1
      then Some (withState FailedTerminal (ob_attempts row + 1) 0 row)
      else Some (withState FailedRetry (ob_attempts row + 1)
                   (tn_now t + resolveRetryDelayMs options (ob_attempts row + 1)) row)
  end.

Section Calm.
Context (options : QueueOutboxDrainerOptions) (turns : nat -> Turn).
Context (Hmax : 1 <= o_maxAttempts options) (Hcalm : calm turns).

Lemma calm_advance w : advance turns w = {| w_outbox := w_outbox w; w_log := w_log w; w_now := tn_now (turns (w_turn w)); w_turn := S (w_turn w) |}.
Proof. unfold advance. destruct (Hcalm (w_turn w)) as [-> _]. done. Qed.

Lemma calm_write f w : write turns f w
  = (Ok tt, {| w_outbox := f (w_outbox w); w_log := w_log w; w_now := tn_now (turns (w_turn w)); w_turn := S (w_turn w) |}).
Proof. unfold write, store. destruct (Hcalm (w_turn w)) as [_ ->]. by rewrite calm_advance. Qed.

(** Whether the broker has the row after its attempt. *)
Definition accepts (t : Turn) : bool := match tn_reply t with Refused => false | _ => true end.

Lemma calm_publishRow row w :
  let t := turns (w_turn w) in
  exists o, publishRow options turns row w
    = (Ok (match tn_reply t with Acknowledged => true | _ => false end),
       {| w_outbox := o;
          w_log := w_log w ++ (if accepts t then [Accepted (ob_outboxId row) (ob_job row)] else []);
          w_now := tn_now (turns (S (w_turn w))); w_turn := S (S (w_turn w)) |}) /\
    (OInv (o_maxAttempts options) w -> out_rows (w_outbox w) !! keyOf (ob_job row) = Some row ->
     forall k, out_rows o !! k = if decide (k = keyOf (ob_job row)) then settled options t row else out_rows (w_outbox w) !! k).
Proof.
  cbv zeta. set (t := turns (w_turn w)).
  assert (forall f, OInv (o_maxAttempts options) w -> out_rows (w_outbox w) !! keyOf (ob_job row) = Some row -> forall k,
            out_rows (updateRow (ob_outboxId row) f (w_outbox w)) !! k
            = if decide (k = keyOf (ob_job row)) then Some (f row) else out_rows (w_outbox w) !! k) as Hup.
  { intros f HI Hk k. simpl. rewrite lookup_fmap. case_decide as E.
    - rewrite E, Hk. simpl. by rewrite Z.eqb_refl.
    - destruct (out_rows (w_outbox w) !! k) as [r|] eqn:Er; [|done]. simpl.
      destruct (Z.eqb_spec (ob_outboxId r) (ob_outboxId row)) as [E'|]; [|done].
      destruct (oi_unique options w k r _ row HI Er Hk E'). done. }
  unfold publishRow, mcatch, mbind, publish, accepts, settled. fold t. rewrite calm_advance.
  destruct (tn_reply t) eqn:Er.
  - destruct (ob_retryPolicy row) eqn:Ep; rewrite calm_write; eexists; (split; [reflexivity|]); simpl; intros HI Hk k.
    + etransitivity; [apply (Hup _ HI Hk)|]. done.
    + destruct (decide (k = keyOf (ob_job row))) as [->|Hne].
      * apply map_lookup_filter_None. right. intros r Hr. rewrite Hk in Hr. injection Hr as <-.
        by rewrite Z.eqb_refl, Ep.
      * destruct (out_rows (w_outbox w) !! k) as [r|] eqn:E; [|apply map_lookup_filter_None; by left].
        apply map_lookup_filter_Some. split; [done|].
        destruct (Z.eqb_spec (ob_outboxId r) (ob_outboxId row)) as [E'|]; [|done].
        by destruct (oi_unique options w k r _ row HI E Hk E').
  - unfold clock. rewrite calm_write. eexists. split; [reflexivity|]. intros HI Hk k. etransitivity; [apply (Hup _ HI Hk)|].
    case_decide; [|done]. destruct (ob_retryPolicy row); simpl; [|done]. by destruct (_ <=? _).
  - unfold clock. rewrite calm_write. eexists. split; [simpl; by rewrite app_nil_r|]. intros HI Hk k. etransitivity; [apply (Hup _ HI Hk)|].
    case_decide; [|done]. destruct (ob_retryPolicy row); simpl; [|done]. by destruct (_ <=? _).
Qed.

(** Row [i] of a list of due rows is published in turn [2 i]. *)
Lemma calm_publishRows due published w :
  exists n w', publishRows options turns due published w = (Ok n, w') /\ w_turn w' = (w_turn w + 2 * length due)%nat /\
    (forall e, In e (w_log w') <-> In e (w_log w) \/ exists i row, due !! i = Some row /\
       accepts (turns (w_turn w + 2 * i)) = true /\ e = Accepted (ob_outboxId row) (ob_job row)) /\
    (OInv (o_maxAttempts options) w -> NoDup (map (fun row => keyOf (ob_job row)) due) ->
     (forall row, In row due -> Listed options w row /\ out_rows (w_outbox w) !! keyOf (ob_job row) = Some row) ->
     (forall i row, due !! i = Some row ->
        out_rows (w_outbox w') !! keyOf (ob_job row) = settled options (turns (w_turn w + 2 * i)) row) /\
     (forall k, ~ In k (map (fun row => keyOf (ob_job row)) due) -> out_rows (w_outbox w') !! k = out_rows (w_outbox w) !! k)).
Proof.
  revert published w. induction due as [|row due IH]; intros published w.
  - exists published, w. split_and!; [done|simpl; lia| |].
    + intros e. split; [by left|]. by intros [?|(i & r & Hi & _)].
    + intros _ _ _. split; [|done]. intros i r Hi. done.
  - destruct (calm_publishRow row w) as (o & Hpub & Hrows). cbv zeta in *.
    cbn [publishRows]. unfold mbind. 
    pose proof (holds_publishRow options Hmax turns row w) as Hkeep. rewrite Hpub in Hkeep |- *.
    set (w1 := {| w_outbox := o; w_log := _; w_now := _; w_turn := _ |}) in *.
    destruct (IH (if match tn_reply (turns (w_turn w)) with Acknowledged => true | _ => false end then S published else published) w1) as (n & w' & -> & Hturn & Hlog & Hres). exists n, w'. simpl in Hturn.
    split_and!; [done|simpl; lia| |].
    + intros e. rewrite Hlog. unfold w1. cbn [w_log w_turn]. rewrite in_app_iff.
      assert (w_turn w + 2 * 0 = w_turn w)%nat as E0 by lia. split.
      * intros [[?|Hin]|(i & r & Hi & Ha & ->)]; [by left| |].
        -- right. exists 0%nat, row. rewrite E0. destruct (accepts _); [|done].
           destruct Hin as [<-|[]]. done.
        -- right. exists (S i), r. split_and!; [done| |done]. by replace (w_turn w + 2 * S i)%nat with (S (S (w_turn w)) + 2 * i)%nat by lia.
      * intros [?|([|i] & r & Hi & Ha & ->)]; [left; by left| |].
        -- injection Hi as ->. rewrite E0 in Ha. rewrite Ha. left. right. by left.
        -- right. exists i, r. split_and!; [done| |done]. by replace (S (S (w_turn w)) + 2 * i)%nat with (w_turn w + 2 * S i)%nat by lia.
    + intros HI Hnd Hdue. apply NoDup_cons in Hnd as [Hni Hnd]. destruct (Hdue row ltac:(by left)) as [HL Hk].
      specialize (Hrows HI Hk). destruct (Hkeep HI HL) as (HI1 & Hg1 & _).
      destruct Hres as [H1 H2]; [done|done| |].
      { intros r Hr. destruct (Hdue r ltac:(by right)) as [HLr Hkr]. split; [by eapply Listed_grows|].
        simpl. rewrite Hrows, decide_False; [done|]. intros E. apply Hni. rewrite <- E. apply list_elem_of_In.
        by apply (in_map (fun row => keyOf (ob_job row))). }
      split.
      * intros [|i] r Hi.
        -- injection Hi as <-. rewrite H2 by (intros Hin; by apply Hni, list_elem_of_In). simpl.
           rewrite Hrows, decide_True by done. f_equal. f_equal. lia.
        -- rewrite (H1 i r Hi). by replace (w_turn w + 2 * S i)%nat with (w_turn w1 + 2 * i)%nat by (simpl; lia).
      * intros k Hnk. rewrite H2 by (intros Hin; apply Hnk; by right). simpl. rewrite Hrows, decide_False; [done|].
        intros ->. apply Hnk. by left.
Qed.

Abbreviation keysOf := (map (fun row => keyOf (ob_job row))).

Lemma NoDup_keys w : OInv (o_maxAttempts options) w -> NoDup (keysOf (rowsOf (w_outbox w))).
Proof.
  intros HI. unfold rowsOf. rewrite map_map.
  rewrite (map_ext_in _ fst); [apply NoDup_fst_map_to_list|]. intros [k row] Hin.
  apply list_elem_of_In, elem_of_map_to_list in Hin. destruct HI as [I1 _ _ _ _ _]. by destruct (I1 k row Hin) as [-> _].
Qed.

Lemma NoDup_of_rowKeys l : NoDup (keysOf l) -> NoDup l.
Proof. apply NoDup_fmap_1. Qed.

Lemma NoDup_keys_sub l l' : NoDup (keysOf l) -> NoDup l' -> (forall row, In row l' -> In row l) -> NoDup (keysOf l').
Proof.
  intros Hl Hl' Hsub. induction l' as [|row l' IH]; [constructor|]. apply NoDup_cons in Hl' as [Hni Hl'].
  apply NoDup_cons. split; [|apply IH; [done|intros r Hr; apply Hsub; by right]].
  intros Hin. apply list_elem_of_In, in_map_iff in Hin as (r & E & Hr). apply Hni, list_elem_of_In.
  assert (r = row) as <-; [|done].
  assert (In r l) as Hr1 by (apply Hsub; by right). assert (In row l) as Hr2 by (apply Hsub; by left).
  clear -Hl E Hr1 Hr2. induction l as [|x l IHl]; [done|]. apply NoDup_cons in Hl as [Hx Hl].
  destruct Hr1 as [->|Hr1], Hr2 as [->|Hr2]; [done| | |by apply IHl].
  - exfalso. apply Hx, list_elem_of_In. rewrite E. by apply (in_map (fun row => keyOf (ob_job row))).
  - exfalso. apply Hx, list_elem_of_In. rewrite <- E. by apply (in_map (fun row => keyOf (ob_job row))).
Qed.

Lemma listDue_ok w : OInv (o_maxAttempts options) w ->
  let due := listDue (w_now w) (o_limit options) (w_outbox w) in
  NoDup (keysOf due) /\
  forall row, In row due -> Listed options w row /\ out_rows (w_outbox w) !! keyOf (ob_job row) = Some row.
Proof.
  intros HI. cbv zeta. pose proof (NoDup_keys w HI) as Hk. split.
  - eapply NoDup_keys_sub; [exact Hk| |].
    + unfold listDue. eapply sublist_NoDup; [|apply sublist_take].
      rewrite orderBy_perm. by apply NoDup_lfilter, NoDup_of_rowKeys.
    + intros row [[k Hr] _]%listDue_In. apply rowsOf_In. by exists k.
  - intros row [[k Hr] Hd]%listDue_In. destruct HI as [I1 I2 _ _ _ _]. destruct (I1 k row Hr) as [-> Ha].
    split; [|done]. split_and!; [|done|by apply (I2 _ row Hr)].
    unfold isDue, waiting in *. destruct (ob_status row); auto; done.
Qed.

(** One calm drain, row by row. *)
Definition SettledBy (w w' : World) : Prop :=
  let due := listDue (w_now w) (o_limit options) (w_outbox w) in
  (forall i row, due !! i = Some row ->
     out_rows (w_outbox w') !! keyOf (ob_job row) = settled options (turns (S (w_turn w) + 2 * i)) row) /\
  (forall k row, out_rows (w_outbox w) !! k = Some row -> ~ In row due -> out_rows (w_outbox w') !! k = Some row) /\
  (forall k, out_rows (w_outbox w) !! k = None -> out_rows (w_outbox w') !! k = None) /\
  (forall e, In e (w_log w') <-> In e (w_log w) \/ exists i row, due !! i = Some row /\
     accepts (turns (S (w_turn w) + 2 * i)) = true /\ e = Accepted (ob_outboxId row) (ob_job row)).

Lemma calm_drain w : OInv (o_maxAttempts options) w ->
  exists n w', drainQueueOutbox options turns w = (Ok n, w') /\ w_turn w' = (S (w_turn w) + 2 * length (listDue (w_now w) (o_limit options) (w_outbox w)))%nat /\
    SettledBy w w'.
Proof.
  intros HI. unfold drainQueueOutbox, clock, store, mbind at 1 2. destruct (Hcalm (w_turn w)) as [Hev ->].
  rewrite calm_advance. cbn [w_outbox].
  set (w1 := {| w_outbox := w_outbox w; w_log := w_log w; w_now := _; w_turn := _ |}).
  assert (OInv (o_maxAttempts options) w1) as HI1 by (destruct HI as [I1 I2 I3 I4 I5 I6]; by split).
  set (due := listDue (w_now w) (o_limit options) (w_outbox w)).
  destruct (calm_publishRows due 0 w1) as (n & w' & E & Hturn & Hlog & Hres). exists n, w'.
  destruct (listDue_ok w HI) as [Hnd Hdue]. fold due in Hnd, Hdue.
  destruct Hres as [H1 H2]; [done|done| |].
  { intros row Hrow. exact (Hdue row Hrow). }
  split; [exact E|]. split; [exact Hturn|]. unfold SettledBy. cbv zeta. fold due. split_and!.
  - exact H1.
  - intros k row Hk Hni. rewrite H2; [done|]. intros Hin. apply in_map_iff in Hin as (r & Er & Hr).
    apply Hni. destruct (Hdue r Hr) as [_ Hkr]. rewrite Er in Hkr. simpl in *. congruence.
  - intros k Hk. rewrite H2; [done|]. intros Hin. apply in_map_iff in Hin as (r & Er & Hr).
    destruct (Hdue r Hr) as [_ Hkr]. rewrite Er in Hkr. simpl in *. congruence.
  - exact Hlog.
Qed.

End Calm.

(** A drain that nothing disturbs handles every row it lists on its own account, the ones
    due longest first.  For any answers of the broker: a row whose publication is
    acknowledged leaves the table if it was required and holds a receipt if not; any other
    answer counts one attempt and schedules the next one after the capped, doubling delay,
    or ends the row when it was bounded and this was its last; the rows not listed stay as
    they are, nothing is added, and the broker gets exactly the listed rows it accepted.
    So one row's failure holds up no other. *)
Theorem drain_settles_due options turns w :
  1 <= o_maxAttempts options -> calm turns -> Reachable options w ->
  exists n w', drainQueueOutbox options turns w = (Ok n, w') /\ SettledBy options turns w w'.
Proof.
  intros Hmax Hcalm Hr. destruct (calm_drain options turns Hmax Hcalm w (reachable_OInv options w Hmax Hr)) as (n & w' & E & _ & H).
  by exists n, w'.
Qed.

(** A failed attempt on a row: one more is counted, and a bounded row ends at its last. *)
Definition failedOnce (maxAttempts : Z) (row row' : OutboxRow) : Prop :=
  sameJob row row' /\ ob_attempts row' = ob_attempts row + 1 /\
  match ob_retryPolicy row with
  | Required => ob_status row' = FailedRetry
  | Bounded => (ob_attempts row' < maxAttempts /\ ob_status row' = FailedRetry)
               \/ (ob_attempts row' = maxAttempts /\ ob_status row' = FailedTerminal)
  end.

Lemma settled_failedOnce options t row :
  tn_reply t <> Acknowledged -> (ob_retryPolicy row = Bounded -> ob_attempts row < o_maxAttempts options) ->
  exists row', settled options t row = Some row' /\ failedOnce (o_maxAttempts options) row row'.
Proof.
  intros Ht Hlt. unfold settled, failedOnce. destruct (tn_reply t), (ob_retryPolicy row) eqn:Ep; try done;
    try (destruct (Z.leb_spec (o_maxAttempts options) (ob_attempts row + 1)); specialize (Hlt eq_refl));
    (eexists; split; [reflexivity|]); (split; [done|]); simpl; (split; [done|]); try done; [right|left|right|left]; split; (done || lia).
Qed.

(** The attempts left to a row that is due. *)
Lemma due_attempts options w i row : OInv (o_maxAttempts options) w ->
  listDue (w_now w) (o_limit options) (w_outbox w) !! i = Some row ->
  ob_retryPolicy row = Bounded -> ob_attempts row < o_maxAttempts options.
Proof.
  intros HI Hi Hb. assert (In row (listDue (w_now w) (o_limit options) (w_outbox w))) as Hin
    by (apply list_elem_of_In; by eapply list_elem_of_lookup_2).
  apply listDue_In in Hin as [[k Hk] Hd]. destruct HI as [I1 _ _ _ _ _]. destruct (I1 k row Hk) as [_ (_ & Ha & _)].
  specialize (Ha Hb). unfold isDue in Hd. by destruct (ob_status row).
Qed.

(** C10: No follow-up of a synchronised range is lost on its way to the broker.  Whatever the
    schedule of transactions, drains, failed and lost replies, errors of the store (a crash
    is one that lasts) and rollbacks: every required job ever inserted is still in the table
    and will be tried again, or the broker has accepted it, or a rollback to or below its
    block or a purge of its collection deleted it.  What the broker has accepted was inserted
    as it is.  A job of another owner starts with no attempts, and in a drain that nothing
    disturbs each attempt that is not acknowledged counts one more and the
    [maxAttempts]-th, none before, ends it. *)
Theorem required_jobs_never_lost options w :
  1 <= o_maxAttempts options ->
  Reachable options w ->
  (forall r, In (Inserted r) (w_log w) -> ob_retryPolicy r = Required ->
     (exists row, out_rows (w_outbox w) !! keyOf (ob_job r) = Some row /\ ob_outboxId row = ob_outboxId r /\
        ob_job row = ob_job r /\ (ob_status row = Pending \/ ob_status row = FailedRetry))
     \/ In (Accepted (ob_outboxId r) (ob_job r)) (w_log w)
     \/ exists e, In (Deleted (ob_outboxId r) e) (w_log w) /\ deletedBy e r = true) /\
  (forall id job, In (Accepted id job) (w_log w) -> exists r, In (Inserted r) (w_log w) /\ ob_outboxId r = id /\ ob_job r = job) /\
  (forall e k row, out_rows (insertedBy e (w_outbox w)) !! k = Some row ->
     out_rows (w_outbox w) !! k = Some row \/ ob_attempts row = 0 /\ ob_status row = Pending) /\
  (forall turns i row, calm turns -> listDue (w_now w) (o_limit options) (w_outbox w) !! i = Some row ->
     tn_reply (turns (S (w_turn w) + 2 * i)%nat) <> Acknowledged ->
     exists row', out_rows (w_outbox (tick options turns w).2) !! keyOf (ob_job row) = Some row'
       /\ failedOnce (o_maxAttempts options) row row') /\
  (forall k row, out_rows (w_outbox w) !! k = Some row -> ob_retryPolicy row = Bounded ->
     ob_attempts row <= o_maxAttempts options /\
     (ob_status row = FailedTerminal -> ob_attempts row = o_maxAttempts options) /\
     (ob_status row = FailedRetry -> ob_attempts row < o_maxAttempts options)).
Proof.
  intros Hmax Hr. pose proof (reachable_OInv _ _ Hmax Hr) as HI. split; [|split; [|split; [|split]]].
  - destruct HI as [I1 I2 I3 I4 I5 I6]. intros r Hin Hreq.
    destruct (I5 r Hin Hreq) as [(row & Hk & E1 & E2 & E3 & _)|?]; [left|by right].
    exists row. destruct (I1 _ row Hk) as [_ (_ & _ & Hw)]. split_and!; [done..|]. apply Hw. congruence.
  - apply HI.
  - intros e k row Hk. destruct (insertedBy_cases e (w_outbox w)) as [E|(new & E & _ & _ & Hs & Ha)]; rewrite E in Hk; [by left|].
    simpl in Hk. apply lookup_insert_Some in Hk as [[_ <-]|[_ Hk]]; [by right|by left].
  - intros turns i row Hcalm Hi Ht. destruct (calm_drain options turns Hmax Hcalm w HI) as (n & w' & E & _ & Hs & _).
    destruct (settled_failedOnce options _ row Ht (due_attempts options w i row HI Hi)) as (row' & Er & Hf).
    exists row'. split; [|done]. unfold tick, mcatch, mbind. rewrite E. simpl. by rewrite (Hs i row Hi).
  - intros k row Hk Hb. destruct HI as [I1 _ _ _ _ _]. destruct (I1 k row Hk) as [_ (_ & Ha & _)]. specialize (Ha Hb).
    destruct (ob_status row); split_and!; lia || done.
Qed.

(** *** A broker that answers *)

Definition dueCount (w : World) : nat := length (List.filter (isDue (w_now w)) (rowsOf (w_outbox w))).

Definition answering (now : Z) (turns : nat -> Turn) : Prop := forall n, tn_reply (turns n) = Acknowledged /\ tn_now (turns n) = now.

Lemma settled_not_due options turns w w' row :
  answering (w_now w) turns -> OInv (o_maxAttempts options) w -> OInv (o_maxAttempts options) w' -> SettledBy options turns w w' ->
  isDue (w_now w) row = true ->
  In row (rowsOf (w_outbox w')) <->
  In row (rowsOf (w_outbox w)) /\ ~ In row (listDue (w_now w) (o_limit options) (w_outbox w)).
Proof.
  intros Hans HI HI' (H1 & H2 & H3 & _) Hd. rewrite !rowsOf_In.
  assert (forall k, (exists row, out_rows (w_outbox w) !! k = Some row /\ In row (listDue (w_now w) (o_limit options) (w_outbox w))) ->
            forall r, out_rows (w_outbox w') !! k = Some r -> isDue (w_now w) r = false) as Hgone.
  { intros k (r0 & Hk & Hin) r Hr. pose proof Hin as Hin'. apply list_elem_of_In, list_elem_of_lookup in Hin' as [i Hi].
    pose proof (oi_key _ _ HI k r0 Hk) as [-> _]. rewrite (H1 i r0 Hi) in Hr. unfold settled in Hr.
    destruct (Hans (S (w_turn w) + 2 * i)%nat) as [Er _]. rewrite Er in Hr.
    destruct (ob_retryPolicy r0); [|done]. by injection Hr as <-. }
  split.
  - intros [k Hk]. destruct (out_rows (w_outbox w) !! k) as [r0|] eqn:E; [|rewrite (H3 k E) in Hk; done].
    destruct (in_dec (fun a b => decide (a = b)) r0 (listDue (w_now w) (o_limit options) (w_outbox w))) as [Hin|Hni].
    + rewrite (Hgone k (ex_intro _ r0 (conj E Hin)) row Hk) in Hd. done.
    + rewrite (H2 k r0 E Hni) in Hk. injection Hk as <-. split; [by exists k|done].
  - intros [[k Hk] Hni]. exists k. by apply H2.
Qed.

Lemma publishRows_now options turns now due published w :
  calm turns -> (forall n, tn_now (turns n) = now) -> w_now w = now ->
  w_now (publishRows options turns due published w).2 = now.
Proof.
  intros Hcalm Hnow. revert published w. induction due as [|row due IH]; intros published w Hw; [done|].
  destruct (calm_publishRow options turns Hcalm row w) as (o & Hpub & _). cbv zeta in Hpub.
  cbn [publishRows]. unfold mbind. rewrite Hpub. apply IH, Hnow.
Qed.

Lemma due_split options w : OInv (o_maxAttempts options) w ->
  length (listDue (w_now w) (o_limit options) (w_outbox w)) = Nat.min (o_limit options) (dueCount w).
Proof. intros _. unfold listDue, dueCount. by rewrite length_firstn, orderBy_length. Qed.

Lemma answered_tick options turns w :
  1 <= o_maxAttempts options -> calm turns -> answering (w_now w) turns -> OInv (o_maxAttempts options) w ->
  let w' := (tick options turns w).2 in
  OInv (o_maxAttempts options) w' /\ w_now w' = w_now w /\ dueCount w' = (dueCount w - o_limit options)%nat /\
  (forall e, In e (w_log w) -> In e (w_log w')) /\
  forall row, In row (rowsOf (w_outbox w)) -> isDue (w_now w) row = true ->
    In (Accepted (ob_outboxId row) (ob_job row)) (w_log w') \/ In row (rowsOf (w_outbox w')).
Proof.
  intros Hmax Hcalm Hans HI. cbv zeta.
  pose proof (holds_tick options Hmax turns w HI I) as Hk.
  destruct (calm_drain options turns Hmax Hcalm w HI) as (n & w' & E & Hturn & HS).
  assert (tick options turns w = (Ok tt, w')) as Et by (unfold tick, mcatch, mbind; by rewrite E).
  rewrite Et in Hk |- *. destruct Hk as (HI' & Hg & _). simpl.
  assert (w_now w' = w_now w) as Enow.
  { assert (w' = (drainQueueOutbox options turns w).2) as -> by by rewrite E.
    unfold drainQueueOutbox, clock, store, mbind at 1 2. destruct (Hcalm (w_turn w)) as [_ ->].
    rewrite (calm_advance turns Hcalm). cbn [w_outbox].
    apply publishRows_now; [done|intros m; apply Hans|apply Hans]. }
  pose proof (fun row => settled_not_due options turns w w' row Hans HI HI' HS) as Hrows.
  destruct HS as (_ & _ & _ & Hlog). destruct (listDue_ok options w HI) as [Hnd Hdue].
  set (due := listDue (w_now w) (o_limit options) (w_outbox w)) in *.
  split_and!; [done|done| |exact Hg|].
  - assert (Permutation (List.filter (isDue (w_now w)) (rowsOf (w_outbox w)))
              (due ++ List.filter (isDue (w_now w)) (rowsOf (w_outbox w')))) as HP.
    { apply NoDup_Permutation.
      - by apply NoDup_lfilter, NoDup_of_rowKeys, (NoDup_keys options).
      - apply NoDup_app. split_and!; [by apply NoDup_of_rowKeys| |by apply NoDup_lfilter, NoDup_of_rowKeys, (NoDup_keys options)].
        intros row Hd%list_elem_of_In Hf%list_elem_of_In. apply filter_In in Hf as [Hf Hd'].
        by apply (Hrows row Hd') in Hf as [_ ?].
      - intros row. rewrite elem_of_app, !list_elem_of_In, !filter_In. split.
        + intros [Hin Hd]. destruct (in_dec (fun a b => decide (a = b)) row due) as [?|Hni]; [by left|right].
          split; [by apply Hrows|done].
        + intros [Hin|[Hin Hd]]; [|split; [by apply (Hrows row Hd)|done]].
          apply listDue_In in Hin as [[k Hk] Hd]. split; [|done]. apply rowsOf_In. by exists k. }
    apply Permutation_length in HP. rewrite length_app in HP. unfold due in HP. rewrite (due_split options w HI) in HP.
    unfold dueCount in *. rewrite Enow. lia.
  - intros row Hin Hd. destruct (in_dec (fun a b => decide (a = b)) row due) as [Hi|Hni]; [left|right; by apply Hrows].
    apply Hlog. right. apply list_elem_of_In, list_elem_of_lookup in Hi as [i Hi]. exists i, row. split_and!; [done| |done].
    unfold accepts. by destruct (Hans (S (w_turn w) + 2 * i)%nat) as [-> _].
Qed.

(** C11: When the broker answers, the clock stands still and neither another process nor an
    error of the store comes between, [n] rounds of [limit] rows publish every job that was
    due, if that is room enough for them: none is due any more and the broker has accepted
    each of them. *)
Theorem due_jobs_published options turns w n :
  1 <= o_maxAttempts options -> calm turns -> answering (w_now w) turns -> Reachable options w ->
  (dueCount w <= n * o_limit options)%nat ->
  let w' := Nat.iter n (fun w => (tick options turns w).2) w in
  dueCount w' = 0%nat /\
  forall row, In row (rowsOf (w_outbox w)) -> isDue (w_now w) row = true ->
    In (Accepted (ob_outboxId row) (ob_job row)) (w_log w').
Proof.
  intros Hmax Hcalm Hans Hr Hn. cbv zeta. pose proof (reachable_OInv options w Hmax Hr) as HI. clear Hr.
  assert (let w' := Nat.iter n (fun w => (tick options turns w).2) w in
          OInv (o_maxAttempts options) w' /\ w_now w' = w_now w /\ dueCount w' = (dueCount w - n * o_limit options)%nat /\
          forall row, In row (rowsOf (w_outbox w)) -> isDue (w_now w) row = true ->
            In (Accepted (ob_outboxId row) (ob_job row)) (w_log w') \/ In row (rowsOf (w_outbox w'))) as (H1 & H2 & H3 & H4).
  { clear Hn. induction n as [|n IH]; cbv zeta; [simpl; split_and!; [done|done|lia|by right]|].
    rewrite Nat.iter_succ. set (w1 := Nat.iter n _ w) in *. destruct IH as (HI1 & En & Ec & Hrow).
    destruct (answered_tick options turns w1 Hmax Hcalm ltac:(by rewrite En) HI1) as (HI2 & En2 & Ec2 & Hg & Hrow2).
    split_and!; [done|congruence|lia|]. intros row Hin Hd. destruct (Hrow row Hin Hd) as [?|Hin1]; [left; by apply Hg|].
    apply Hrow2; [done|]. by rewrite En. }
  split; [lia|]. intros row Hin Hd. destruct (H4 row Hin Hd) as [?|Hin']; [done|exfalso].
  assert (dueCount (Nat.iter n (fun w => (tick options turns w).2) w) = 0%nat) as E0 by lia.
  unfold dueCount in E0. rewrite H2 in E0. apply nil_length_inv in E0.
  pose proof (proj1 (filter_nil_iff _ _) E0 row Hin') as Hf. congruence.
Qed.

(** ** A run *)

Definition followUpJob (id : string) : JobEnvelope := {|
  j_jobId := id; j_kind := "domain.activity.sync"; j_queue := Queue.ActivityDomain; j_payload := OtherPayload "";
  j_chainId := 1; j_collectionId := None; j_workClass := None; j_onchainBlock := None |}.

Definition drainOptions : QueueOutboxDrainerOptions :=
  {| o_limit := 2; o_maxAttempts := 2; o_retryBaseDelayMs := 1000; o_retryMaxDelayMs := 60000 |}.

Definition quietTurn (reply : Reply) : Turn := {| tn_events := []; tn_now := 50; tn_throws := false; tn_reply := reply |}.

(** Three jobs of a range at block 7 and one bounded job are inserted; the first drain
    publishes one and is refused another, and then the chain reorganises below block 7. *)
Definition inserted : World :=
  fold_left applyEvent
    [EvFollowUp (RangeFollowUp (followUpJob "a")) 0;
     EvFollowUp (EventFollowUp (followUpJob "b") 1 7 "0x07") 0;
     EvFollowUp (EventFollowUp (followUpJob "c") 1 7 "0x07") 0;
     EvEnqueue (followUpJob "d") 0]
    {| w_outbox := emptyOutbox; w_log := []; w_now := 50; w_turn := 0 |}.

Definition firstTurns (n : nat) : Turn := quietTurn (match n with 3%nat => Refused | _ => Acknowledged end).
Definition drained : World := (tick drainOptions firstTurns inserted).2.
Definition reorganised : World := applyEvent drained (EvRollback 1 7).

Lemma inserted_reachable : Reachable drainOptions inserted.
Proof. do 4 (eapply reach_step; [|apply step_other]). apply reach_init. Qed.

Lemma reorganised_reachable : Reachable drainOptions reorganised.
Proof.
  eapply reach_step; [|apply step_other]. eapply reach_step; [|apply step_tick]. apply inserted_reachable.
Qed.

Lemma required_jobs_never_lost_witness :
  map (fun row => (ob_outboxId row, ob_status row)) (rowsOf (w_outbox drained)) = [(3, Pending); (2, FailedRetry); (4, Pending)] /\
  map ob_outboxId (rowsOf (w_outbox reorganised)) = [4] /\
  forall r, In (Inserted r) (w_log reorganised) -> ob_retryPolicy r = Required ->
     (exists row, out_rows (w_outbox reorganised) !! keyOf (ob_job r) = Some row /\ ob_outboxId row = ob_outboxId r /\
        ob_job row = ob_job r /\ (ob_status row = Pending \/ ob_status row = FailedRetry))
     \/ In (Accepted (ob_outboxId r) (ob_job r)) (w_log reorganised)
     \/ exists e, In (Deleted (ob_outboxId r) e) (w_log reorganised) /\ deletedBy e r = true.
Proof.
  split; [vm_compute; reflexivity|]. split; [vm_compute; reflexivity|].
  assert (1 <= o_maxAttempts drainOptions) as Hmax by (vm_compute; discriminate).
  exact (proj1 (required_jobs_never_lost drainOptions reorganised Hmax reorganised_reachable)).
Defined.

Lemma drain_settles_due_witness :
  exists n w', drainQueueOutbox drainOptions firstTurns inserted = (Ok n, w') /\ SettledBy drainOptions firstTurns inserted w'.
Proof.
  assert (1 <= o_maxAttempts drainOptions) as Hmax by (vm_compute; discriminate).
  assert (calm firstTurns) as Hcalm by by intros [|[|[|[|n]]]].
  exact (drain_settles_due drainOptions firstTurns inserted Hmax Hcalm inserted_reachable).
Defined.

Lemma due_jobs_published_witness :
  dueCount inserted = 4%nat /\
  dueCount (Nat.iter 2 (fun w => (tick drainOptions (fun _ => quietTurn Acknowledged) w).2) inserted) = 0%nat.
Proof.
  split; [vm_compute; reflexivity|].
  assert (1 <= o_maxAttempts drainOptions) as Hmax by (vm_compute; discriminate).
  assert (dueCount inserted <= 2 * o_limit drainOptions)%nat as Hroom by (vm_compute; lia).
  assert (w_now inserted = 50) as Hnow by (vm_compute; reflexivity).
  refine (proj1 (due_jobs_published drainOptions (fun _ => quietTurn Acknowledged) inserted 2 Hmax _ _ inserted_reachable Hroom)).
  - by split.
  - intros n. split; [reflexivity|]. by rewrite Hnow.
Defined.

End OutboxClaims.
