(* ===== verification/FollowUps.v ===== *)
(** * The follow-ups of an acquired range

    What [processSyncRange] asks of the other parts of the indexer after a range:
    [buildSyncFollowUps] and its helpers (application/sync-range-processing.ts),
    [buildOrderUpdateFollowUps] (application/order-update-fanout.ts), the queue of an
    order update (domain/order-processing.ts) and the policies of order maintenance
    (application/backfill-order-maintenance.ts).  The facts of a range
    (domain/onchain.ts) are kept here with the fields the follow-ups read;
    [storedData] is what the commit reads of them. *)

From S2P Require Import Prelude JsValue Chain Ledger Jobs QueueOutbox SyncDb GapRepair Reorg.
Import Chain Ledger Jobs.

Open Scope Z_scope.

Module FollowUps.

(** ** Facts *)

(** Events of one collection: the constraint on [TEvent] of the filter. *)
Class CollectionScoped (E : Type) := { scopeOf : E -> Z; attributionOf : E -> EventAttribution }.

(** Approvals, balance changes, extension events and their media: only counted in. *)
Record ScopedFact := { sf_collectionId : Z; sf_at : EventAttribution }.

Record FillEvent := { fi_collectionId : Z; fi_orderId : option string; fi_at : EventAttribution }.

Record OrderInfo := { oi_collectionId : Z; oi_orderId : option string; oi_at : EventAttribution }.

Record CancelEvent := { ca_orderId : option string; ca_at : EventAttribution }.

(** [CollectionMakerTrigger]: with a token it is a [TokenScopedMakerTrigger]. *)
Record CollectionMakerTrigger := {
  mt_collectionId : Z; mt_contract : string; mt_tokenId : option string;
  mt_maker : string; mt_reason : string; mt_at : EventAttribution;
}.

Record GlobalMakerTrigger := { gt_maker : string; gt_reason : string; gt_at : EventAttribution }.

Record MetadataRefreshEvent := {
  mr_collectionId : Z; mr_tokenId : string; mr_trigger : string; mr_at : EventAttribution;
}.

Record MetadataRefreshRangeEvent := {
  mg_collectionId : Z; mg_fromTokenId : string; mg_toTokenId : string; mg_trigger : string; mg_at : EventAttribution;
}.

#[export] Instance scoped_fact : CollectionScoped ScopedFact := {| scopeOf := sf_collectionId; attributionOf := sf_at |}.
#[export] Instance scoped_fill : CollectionScoped FillEvent := {| scopeOf := fi_collectionId; attributionOf := fi_at |}.
#[export] Instance scoped_order : CollectionScoped OrderInfo := {| scopeOf := oi_collectionId; attributionOf := oi_at |}.
#[export] Instance scoped_maker : CollectionScoped CollectionMakerTrigger :=
  {| scopeOf := mt_collectionId; attributionOf := mt_at |}.
#[export] Instance scoped_refresh : CollectionScoped MetadataRefreshEvent :=
  {| scopeOf := mr_collectionId; attributionOf := mr_at |}.
#[export] Instance scoped_refreshRange : CollectionScoped MetadataRefreshRangeEvent :=
  {| scopeOf := mg_collectionId; attributionOf := mg_at |}.
#[export] Instance scoped_transfer : CollectionScoped NftTransferEvent := {|
  scopeOf := ev_collectionId;
  attributionOf ev := {| ea_blockNumber := ev_blockNumber ev; ea_blockHash := ev_blockHash ev;
                         ea_txHash := ev_txHash ev; ea_logIndex := ev_logIndex ev |} |}.

Record CollectionScopedOnChainData := {
  nftTransferEvents : list NftTransferEvent;
  nftApprovalEvents : list ScopedFact;
  nftBalanceDeltas : list ScopedFact;
  fillEvents : list FillEvent;
  orderInfos : list OrderInfo;
  makerTriggers : list CollectionMakerTrigger;
  metadataRefreshEvents : list MetadataRefreshEvent;
  metadataRefreshRangeEvents : list MetadataRefreshRangeEvent;
  collectionExtensionEvents : list ScopedFact;
  collectionExtensionEventMedia : list ScopedFact;
}.

Record GlobalOnChainTriggers := { cancelEvents : list CancelEvent; globalMakerTriggers : list GlobalMakerTrigger }.

Record OnChainData := {
  transactions : list Attribution;
  collectionScoped : CollectionScopedOnChainData;
  global : GlobalOnChainTriggers;
}.

(** What the commit checks of a fact. *)
Definition checkedOf (a : EventAttribution) : Attribution :=
  {| at_blockNumber := ea_blockNumber a; at_blockHash := ea_blockHash a |}.

Definition checkedAll {E} `{CollectionScoped E} (l : list E) : list Attribution :=
  map (fun e => checkedOf (attributionOf e)) l.

(** The data in the form of [SyncDb]: the transfers, and all other facts as what
    [assertSyncResultMatchesBlocks] reads of them, group by group. *)
Definition storedData (data : OnChainData) : SyncDb.OnChainData :=
  let c := collectionScoped data in {|
    SyncDb.od_transactions := transactions data;
    SyncDb.od_nftTransferEvents := nftTransferEvents c;
    SyncDb.od_otherFacts :=
      checkedAll (nftApprovalEvents c) ++ checkedAll (nftBalanceDeltas c) ++ checkedAll (fillEvents c)
      ++ checkedAll (orderInfos c) ++ checkedAll (makerTriggers c) ++ checkedAll (metadataRefreshEvents c)
      ++ checkedAll (metadataRefreshRangeEvents c) ++ checkedAll (collectionExtensionEvents c)
      ++ checkedAll (collectionExtensionEventMedia c)
      ++ map (fun e => checkedOf (ca_at e)) (cancelEvents (global data))
      ++ map (fun e => checkedOf (gt_at e)) (globalMakerTriggers (global data)) |}.

(** ** The projection of current state *)

Definition canProjectCurrentStateAt (c : CollectionRecord) (blockNumber : Z) : bool :=
  canProjectCurrentStateAtBlock (col_bootstrapAnchorBlock c) (Some blockNumber).

Definition intersectCurrentStateWindow (c : CollectionRecord) (from to : Z) : option Range :=
  intersectCurrentStateWindowForAnchor (col_bootstrapAnchorBlock c) from to.

Definition canAnyCollectionProjectCurrentStateAt (collections : list CollectionRecord) (blockNumber : Z) : bool :=
  existsb (fun c => canProjectCurrentStateAt c blockNumber) collections.

Definition hasAnyCurrentStateProjection (collections : list CollectionRecord) (range : Range) : bool :=
  existsb (fun c => match intersectCurrentStateWindow c (fromBlock range) (toBlock range) with
                    | Some _ => true
                    | None => false
                    end) collections.

(** [new Map(collections.map((collection) => [collection.id, collection]))] *)
Definition collectionsById (collections : list CollectionRecord) : list (Z * CollectionRecord) :=
  fold_left (fun m c => jm_set (col_id c) c m) collections [].

Definition filterCurrentStateCollectionScopedEvents {E} `{CollectionScoped E} (byId : list (Z * CollectionRecord))
    (events : list E) : list E :=
  List.filter (fun e => match jm_get (scopeOf e) byId with
                        | Some c => canProjectCurrentStateAt c (ea_blockNumber (attributionOf e))
                        | None => false
                        end) events.

Definition filterCurrentStateOnChainData (collections : list CollectionRecord) (data : OnChainData) : OnChainData :=
  let byId := collectionsById collections in
  let c := collectionScoped data in {|
    transactions := transactions data;
    collectionScoped := {|
      nftTransferEvents := filterCurrentStateCollectionScopedEvents byId (nftTransferEvents c);
      nftApprovalEvents := filterCurrentStateCollectionScopedEvents byId (nftApprovalEvents c);
      nftBalanceDeltas := filterCurrentStateCollectionScopedEvents byId (nftBalanceDeltas c);
      fillEvents := filterCurrentStateCollectionScopedEvents byId (fillEvents c);
      orderInfos := filterCurrentStateCollectionScopedEvents byId (orderInfos c);
      makerTriggers := filterCurrentStateCollectionScopedEvents byId (makerTriggers c);
      metadataRefreshEvents := filterCurrentStateCollectionScopedEvents byId (metadataRefreshEvents c);
      metadataRefreshRangeEvents := filterCurrentStateCollectionScopedEvents byId (metadataRefreshRangeEvents c);
      collectionExtensionEvents := filterCurrentStateCollectionScopedEvents byId (collectionExtensionEvents c);
      collectionExtensionEventMedia := filterCurrentStateCollectionScopedEvents byId (collectionExtensionEventMedia c) |};
    global := {|
      cancelEvents := List.filter
        (fun e => canAnyCollectionProjectCurrentStateAt collections (ea_blockNumber (ca_at e))) (cancelEvents (global data));
      globalMakerTriggers := List.filter
        (fun e => canAnyCollectionProjectCurrentStateAt collections (ea_blockNumber (gt_at e)))
        (globalMakerTriggers (global data)) |} |}.

(** ** Policies *)

Definition allowsGlobalMakerRevalidation (policy : BackfillOrderMaintenancePolicy) : bool :=
  bool_decide (policy = CurrentStateMaintenance).

Definition shouldFetchWethMakerLogs (policy : BackfillOrderMaintenancePolicy) (range : Range)
    (bidderIndexActive hasCurrentStateProjection : bool) : bool :=
  if negb (allowsGlobalMakerRevalidation policy) then false
  else if negb bidderIndexActive then false
  else if toBlock range <? fromBlock range then false
  else hasCurrentStateProjection.

(** ** Order updates *)

(** [ORDER_UPDATE_REASON] *)
Definition ORDER_UPDATE_VALIDATION : string := "order".
Definition ORDER_UPDATE_FILL : string := "fill".
Definition ORDER_UPDATE_CANCEL : string := "cancel".

(** [ORDER_SOURCE_STATUS] *)
Definition ORDER_SOURCE_STATUS : list string :=
  ["active"; "inactive"; "cancelled"; "filled"; "invalidated"; "expired"; "unknown"]%string.

Definition orderUpdateQueue (reason : string) (sourceStatus : option string) : result string :=
  if negb (bool_decide (reason ∈ [ORDER_UPDATE_VALIDATION; ORDER_UPDATE_FILL; ORDER_UPDATE_CANCEL]))
  then Err "Unsupported order update reason" else
  match sourceStatus with
  | Some status => if bool_decide (status ∈ ORDER_SOURCE_STATUS) then Ok Queue.OrderLifecycle
                   else Err "Unsupported order source status"
  | None =>
      if bool_decide (reason = ORDER_UPDATE_FILL) || bool_decide (reason = ORDER_UPDATE_CANCEL)
      then Ok Queue.OrderLifecycle
      else if bool_decide (reason = ORDER_UPDATE_VALIDATION) then Ok Queue.OrdersUpdateById
      else Err "Unsupported order update reason"
  end.

(** [makerUpdateQueue]: where a consumer expects a maker update. *)
Definition makerUpdateQueue (scope : MakerScope) : string :=
  match scope with TokenMaker _ _ _ => Queue.OrdersUpdateByToken | _ => Queue.OrdersUpdateByMaker end.

Definition colon (parts : list string) : string := String.concat ":" parts.

Definition makerJob (jobId queue : string) (chainId : Z) (collectionId : option Z) (payload : Payload) : JobEnvelope := {|
  j_jobId := jobId; j_kind := "orders.update-by-maker"; j_queue := queue; j_payload := payload; j_chainId := chainId;
  j_collectionId := collectionId; j_workClass := None; j_onchainBlock := None |}.

Definition buildTokenScopedMakerJob (chainId : Z) (maker tokenId : string) (t : CollectionMakerTrigger) : JobEnvelope :=
  makerJob
    (colon ["orders:update:maker"; Z_toString chainId; maker; Z_toString (mt_collectionId t); tokenId;
            Z_toString (ea_blockNumber (mt_at t)); Z_toString (ea_logIndex (mt_at t))]%string)
    Queue.OrdersUpdateByToken chainId (Some (mt_collectionId t))
    (OrderUpdateByMaker (TokenMaker (mt_collectionId t) (mt_contract t) tokenId) (mt_maker t) (mt_reason t) (mt_at t)).

Definition buildCollectionScopedMakerJob (chainId : Z) (maker : string) (t : CollectionMakerTrigger) : JobEnvelope :=
  makerJob
    (colon ["orders:update:maker"; Z_toString chainId; maker; Z_toString (mt_collectionId t); "collection"; mt_reason t;
            Z_toString (ea_blockNumber (mt_at t)); Z_toString (ea_logIndex (mt_at t))]%string)
    Queue.OrdersUpdateByMaker chainId (Some (mt_collectionId t))
    (OrderUpdateByMaker (CollectionMaker (mt_collectionId t) (mt_contract t)) (mt_maker t) (mt_reason t) (mt_at t)).

Definition collectionMakerFollowUp (chainId : Z) (t : CollectionMakerTrigger) : SyncFollowUp :=
  let maker := toLowerCase (mt_maker t) in
  eventSyncFollowUp
    (match mt_tokenId t with
     | Some tokenId => buildTokenScopedMakerJob chainId maker tokenId t
     | None => buildCollectionScopedMakerJob chainId maker t
     end) (mt_at t).

Definition globalMakerFollowUp (chainId : Z) (t : GlobalMakerTrigger) : SyncFollowUp :=
  eventSyncFollowUp
    (makerJob
       (colon ["orders:update:maker"; Z_toString chainId; toLowerCase (gt_maker t); "global"; gt_reason t;
               Z_toString (ea_blockNumber (gt_at t)); Z_toString (ea_logIndex (gt_at t))]%string)
       Queue.OrdersUpdateByMaker chainId None
       (OrderUpdateByMaker GlobalMaker (gt_maker t) (gt_reason t) (gt_at t)))
    (gt_at t).

Definition buildOrderUpdateById (chainId : Z) (orderId reason : string) (a : EventAttribution) : result SyncFollowUp :=
  try queue <- orderUpdateQueue reason None;
  Ok (eventSyncFollowUp {|
    j_jobId := colon ["orders:update:id"; Z_toString chainId; orderId; Z_toString (ea_blockNumber a);
                      Z_toString (ea_logIndex a)]%string;
    j_kind := "orders.update-by-id"; j_queue := queue; j_payload := OrderUpdateById orderId reason a;
    j_chainId := chainId; j_collectionId := None; j_workClass := None; j_onchainBlock := None |} a).

(** The events that name an order. *)
Definition withOrder {E} (orderId : E -> option string) (at_ : E -> EventAttribution) (events : list E)
    : list (string * EventAttribution) :=
  omap (fun e => match orderId e with
                 | Some id => if truthy id then Some (id, at_ e) else None
                 | None => None
                 end) events.

Definition orderUpdates (chainId : Z) (reason : string) (orders : list (string * EventAttribution))
    : result (list SyncFollowUp) :=
  result_map (fun '(orderId, a) => buildOrderUpdateById chainId orderId reason a) orders.

Definition buildOrderUpdateFollowUps (chainId : Z) (collections : list CollectionRecord) (data : OnChainData)
    (policy : BackfillOrderMaintenancePolicy) : result (list SyncFollowUp) :=
  let projects number := canAnyCollectionProjectCurrentStateAt collections number in
  let makers := map (collectionMakerFollowUp chainId) (makerTriggers (collectionScoped data)) in
  let globals :=
    if allowsGlobalMakerRevalidation policy
    then map (globalMakerFollowUp chainId)
           (List.filter (fun t => projects (ea_blockNumber (gt_at t))) (globalMakerTriggers (global data)))
    else [] in
  try fills <- orderUpdates chainId ORDER_UPDATE_FILL
                 (withOrder fi_orderId fi_at (fillEvents (collectionScoped data)));
  try cancels <- orderUpdates chainId ORDER_UPDATE_CANCEL
                   (List.filter (fun '(_, a) => projects (ea_blockNumber a))
                      (withOrder ca_orderId ca_at (cancelEvents (global data))));
  try orders <- orderUpdates chainId ORDER_UPDATE_VALIDATION
                  (withOrder oi_orderId oi_at (orderInfos (collectionScoped data)));
  Ok (makers ++ globals ++ fills ++ cancels ++ orders).

(** ** Refreshes of metadata *)

(** [collections.find(...)?.canProjectCurrentStateAt(blockNumber)] *)
Definition foundProjects (collections : list CollectionRecord) (collectionId blockNumber : Z) : bool :=
  match List.find (fun c => col_id c =? collectionId) collections with
  | Some c => canProjectCurrentStateAt c blockNumber
  | None => false
  end.

(** The first event of each key, of those [keep] lets through: the loop with [seen]. *)
Fixpoint firstOfKey {E} (key : E -> string) (keep : E -> bool) (seen : gset string) (events : list E) : list E :=
  match events with
  | [] => []
  | e :: rest =>
      if negb (keep e) then firstOfKey key keep seen rest
      else if bool_decide (key e ∈ seen) then firstOfKey key keep seen rest
      else e :: firstOfKey key keep ({[key e]} ∪ seen) rest
  end.

Definition refreshKey (e : MetadataRefreshEvent) : string := colon [Z_toString (mr_collectionId e); mr_tokenId e].

Definition refreshRangeKey (e : MetadataRefreshRangeEvent) : string :=
  colon [Z_toString (mg_collectionId e); mg_fromTokenId e; mg_toTokenId e].

Definition refreshFollowUp (chainId : Z) (e : MetadataRefreshEvent) : SyncFollowUp :=
  eventSyncFollowUp {|
    j_jobId := colon ["metadata:refresh"; Z_toString chainId; Z_toString (mr_collectionId e); mr_tokenId e;
                      Z_toString (ea_blockNumber (mr_at e)); Z_toString (ea_logIndex (mr_at e))]%string;
    j_kind := "domain.metadata.refresh"; j_queue := Queue.MetadataRefreshQueue;
    j_payload := MetadataRefresh (mr_collectionId e) (mr_tokenId e) (mr_trigger e);
    j_chainId := chainId; j_collectionId := Some (mr_collectionId e); j_workClass := None; j_onchainBlock := None |}
    (mr_at e).

Definition refreshRangeFollowUp (chainId : Z) (e : MetadataRefreshRangeEvent) : SyncFollowUp :=
  eventSyncFollowUp {|
    j_jobId := colon ["metadata:refresh-range"; Z_toString chainId; Z_toString (mg_collectionId e); mg_fromTokenId e;
                      mg_toTokenId e; Z_toString (ea_blockNumber (mg_at e)); Z_toString (ea_logIndex (mg_at e))]%string;
    j_kind := "domain.metadata.refresh-range"; j_queue := Queue.MetadataRefreshQueue;
    j_payload := MetadataRefreshRange (mg_collectionId e) (mg_fromTokenId e) (mg_toTokenId e) (mg_trigger e);
    j_chainId := chainId; j_collectionId := Some (mg_collectionId e); j_workClass := None; j_onchainBlock := None |}
    (mg_at e).

Definition buildMetadataRefreshFollowUps (chainId : Z) (collections : list CollectionRecord) (data : OnChainData)
    : list SyncFollowUp :=
  map (refreshFollowUp chainId)
    (firstOfKey refreshKey (fun e => foundProjects collections (mr_collectionId e) (ea_blockNumber (mr_at e))) ∅
       (metadataRefreshEvents (collectionScoped data)))
  ++ map (refreshRangeFollowUp chainId)
       (firstOfKey refreshRangeKey (fun e => foundProjects collections (mg_collectionId e) (ea_blockNumber (mg_at e))) ∅
          (metadataRefreshRangeEvents (collectionScoped data))).

(** ** The jobs of a range *)

Record DomainSyncSource := {
  src_fanoutId : string; src_sourceJobId : string; src_sourceKind : string; src_collectionId : option Z;
}.

(** [domainSyncSource] *)
Definition domainSyncSource (job : JobEnvelope) : DomainSyncSource := {|
  src_fanoutId := j_jobId job; src_sourceJobId := j_jobId job; src_sourceKind := j_kind job;
  src_collectionId := j_collectionId job |}.

Definition sourceMatches (collections : list CollectionRecord) (sources : list DomainSyncSource)
    (source : DomainSyncSource) : bool :=
  match src_collectionId source with
  | None => (length sources =? 1)%nat
  | Some id => bool_decide (id ∈ map col_id collections)
  end.

Definition rangeJob (prefix kind queue : string) (projection : DomainSyncProjection) (chainId : Z) (range : Range)
    (mode : DomainSyncMode) (source : DomainSyncSource) : SyncFollowUp :=
  RangeFollowUp {|
    j_jobId := (prefix ++ src_fanoutId source)%string; j_kind := kind; j_queue := queue;
    j_payload := DomainSync {| ds_fromBlock := fromBlock range; ds_toBlock := toBlock range; ds_mode := mode;
                               ds_projection := projection; ds_sourceJobId := src_sourceJobId source;
                               ds_sourceKind := src_sourceKind source |};
    j_chainId := chainId; j_collectionId := src_collectionId source; j_workClass := None; j_onchainBlock := None |}.

(** One turn of the loop over the sources. *)
Definition sourceFollowUps (chainId : Z) (collections : list CollectionRecord) (range : Range) (mode : DomainSyncMode)
    (source : DomainSyncSource) : list SyncFollowUp :=
  let targetCollections := match src_collectionId source with
                           | None => collections
                           | Some id => List.filter (fun c => col_id c =? id) collections
                           end in
  let activityJob := rangeJob "domain:activity:" "domain.activity.sync" Queue.ActivityDomain FactsOnly
                       chainId range mode source in
  let ordersJob := rangeJob "domain:orders:" "domain.orders.sync" Queue.OrdersDomain CurrentState
                     chainId range mode source in
  let metadataJob := rangeJob "domain:metadata:" "domain.metadata.sync" Queue.MetadataDomain CurrentState
                       chainId range mode source in
  activityJob :: if hasAnyCurrentStateProjection targetCollections range then [ordersJob; metadataJob] else [].

Definition buildSyncFollowUps (chainId : Z) (collections : list CollectionRecord) (range : Range)
    (sources : list DomainSyncSource) (mode : DomainSyncMode) (data : OnChainData)
    (policy : BackfillOrderMaintenancePolicy) : result (list SyncFollowUp) :=
  if bool_decide (sources = []) || negb (forallb (sourceMatches collections sources) sources)
  then Err "Domain sync sources do not match the acquired collections" else
  let followUps := flat_map (sourceFollowUps chainId collections range mode) sources in
  if negb (hasAnyCurrentStateProjection collections range) then Ok followUps else
  let currentStateData := filterCurrentStateOnChainData collections data in
  try orders <- buildOrderUpdateFollowUps chainId collections currentStateData policy;
  Ok (followUps ++ orders ++ buildMetadataRefreshFollowUps chainId collections currentStateData).

(** ** [processSyncRange], after the acquisition *)

(** What [acquireSyncRange] returns, with the facts in full. *)
Record Acquired := {
  aq_checkpoint : ChainSyncCheckpoint;
  aq_canonicalCheck : CanonicalCheckPolicy;
  aq_blocks : list SyncBlockHeader;
  aq_data : OnChainData;
  aq_collections : list CollectionRecord;
}.

Definition resultOf (a : Acquired) : SyncDb.SyncRangeResult := {|
  SyncDb.s_checkpoint := aq_checkpoint a; SyncDb.s_canonicalCheck := aq_canonicalCheck a;
  SyncDb.s_blocks := aq_blocks a; SyncDb.s_data := storedData (aq_data a);
  SyncDb.s_collections := aq_collections a |}.

(** The class of work every follow-up gets. *)
Definition workClassOf (completion : Reorg.SyncWorkCompletion) : SyncWorkClass :=
  match completion with Reorg.CompleteGapRepair _ _ => GapRepairWork | _ => MainWork end.

(** The check an error of class [StoredBlockHashConflict] carries: no other error has
    its message. *)
Definition storedBlockHashConflict (e : string) (a : Acquired) (d : SyncDb.Db) : option PendingCanonicalCheck :=
  match SyncDb.storedConflict (aq_blocks a) d with
  | Some (block, storedHash) =>
      if bool_decide (e = SyncDb.conflictMessage block)
      then Some {| pc_chainId := cp_chainId (aq_checkpoint a); pc_blockNumber := h_number block;
                   pc_blockHash := storedHash; pc_checkpoint := aq_checkpoint a |}
      else None
  | None => None
  end.

(** A conflict with a stored block leaves its delayed check behind: the commit itself has
    been rolled back. *)
Definition commitAcquired (a : Acquired) (followUps : list SyncFollowUp) (completion : Reorg.SyncWorkCompletion)
    : M SyncDb.Db unit :=
  mcatch
    (Reorg.commitSyncRange {|
       Reorg.c_result := resultOf a;
       Reorg.c_followUps := map (withJob (setWorkClass (workClassOf completion))) followUps;
       Reorg.c_completion := completion |})
    (fun e d => match storedBlockHashConflict e a d with
                | Some check => (do! SyncDb.retainCheck check in mthrow e) d
                | None => mthrow e d
                end).

Definition retainSyncRange (chainId : Z) (range : Range) (sources : list DomainSyncSource) (mode : DomainSyncMode)
    (policy : BackfillOrderMaintenancePolicy) (completion : Reorg.SyncWorkCompletion) (a : Acquired) : M SyncDb.Db unit :=
  let! followUps := SyncDb.lift (buildSyncFollowUps chainId (aq_collections a) range sources mode (aq_data a) policy) in
  commitAcquired a followUps completion.

(** ** The collections of a range *)

(** [listCollectionsForSync(chainId, "backfill")] (infra/collections/sqlite.ts): the
    statement has no ORDER BY. *)
Definition listCollectionsForBackfill (d : SyncDb.Db) : list CollectionRecord :=
  map snd
    (List.filter (fun '(_, c) => bool_decide (col_status c = Live) || bool_decide (col_status c = Bootstrapping))
       (map_to_list (SyncDb.db_collections d))).

Definition resolveBackfillCollections (collectionId : option Z) (d : SyncDb.Db) : list CollectionRecord :=
  match collectionId with
  | None | Some 0 => listCollectionsForBackfill d
  | Some id =>
      match SyncDb.db_collections d !! id with
      | Some c => if negb (bool_decide (col_status c = Live)) && negb (bool_decide (col_status c = Bootstrapping))
                  then [] else [c]
      | None => []
      end
  end.

End FollowUps.
