(* ===== verification/FollowUpsClaims.v ===== *)
(** * The follow-ups of a range: exactly the current hints, and a commit accepts them

    [current] is the specification: an event may change the current state of its
    collection.  The theorems relate what [buildSyncFollowUps] builds to the events of
    the range by [current] alone, without the gate, the maps and the filters of the code. *)

From S2P Require Import Prelude JsValue OrderBy Chain Ledger Jobs QueueOutbox SyncDb SyncDbProof GapRepair Reorg ReorgProof SyncCommitProof LedgerProof FollowUps.
Import Chain Ledger Jobs QueueOutbox SyncDb SyncDbProof SyncDbEffects GapRepair Reorg ReorgProof SyncCommitProof FollowUps.

Open Scope Z_scope.

Module FollowUpsClaims.

(** ** What it means to be current *)

(** A collection projects the state of a block above its anchor. *)
Definition projects (c : CollectionRecord) (blockNumber : Z) : Prop :=
  exists anchor, col_bootstrapAnchorBlock c = Some anchor /\ anchor < blockNumber.

Definition current (collections : list CollectionRecord) (collectionId blockNumber : Z) : Prop :=
  exists c, In c collections /\ col_id c = collectionId /\ projects c blockNumber.

Definition currentSomewhere (collections : list CollectionRecord) (blockNumber : Z) : Prop :=
  exists c, In c collections /\ projects c blockNumber.

Lemma canProject_iff c n : canProjectCurrentStateAt c n = true <-> projects c n.
Proof.
  unfold canProjectCurrentStateAt, canProjectCurrentStateAtBlock, projects.
  destruct (col_bootstrapAnchorBlock c) as [a|]; [|split; [done|by intros (? & ? & ?)]].
  rewrite Z.ltb_lt. split; [eauto|]. by intros (? & [= <-] & ?).
Qed.

Lemma canAny_iff cs n : canAnyCollectionProjectCurrentStateAt cs n = true <-> currentSomewhere cs n.
Proof.
  unfold canAnyCollectionProjectCurrentStateAt, currentSomewhere. rewrite existsb_exists.
  by setoid_rewrite canProject_iff.
Qed.

Lemma hasAny_iff cs range :
  hasAnyCurrentStateProjection cs range = true
  <-> exists n, fromBlock range <= n <= toBlock range /\ currentSomewhere cs n.
Proof.
  unfold hasAnyCurrentStateProjection, currentSomewhere. rewrite existsb_exists.
  unfold intersectCurrentStateWindow, intersectCurrentStateWindowForAnchor, projects. split.
  - intros (c & Hc & H). destruct (col_bootstrapAnchorBlock c) as [a|] eqn:E; [|done].
    destruct (toBlock range <? _) eqn:Et; [done|]. zbool. exists (toBlock range). split; [lia|].
    exists c. split; [done|]. exists a. split; [done|lia].
  - intros (n & Hn & c & Hc & a & Ea & Ha). exists c. split; [done|]. rewrite Ea.
    destruct (toBlock range <? _) eqn:Et; [zbool; lia|done].
Qed.

(** ** The lookups of a collection by id *)

Section ById.
Context (collections : list CollectionRecord).
Context (Hdistinct : NoDup (map col_id collections)).

Lemma same_id c c' : In c collections -> In c' collections -> col_id c = col_id c' -> c = c'.
Proof.
  intros Hc Hc' E. apply list_elem_of_In, list_elem_of_lookup in Hc as [i Hi], Hc' as [j Hj].
  assert (i = j) as ->; [|by rewrite Hi in Hj; injection Hj].
  eapply (NoDup_lookup _ i j (col_id c) Hdistinct); rewrite list_lookup_fmap; [by rewrite Hi|by rewrite Hj, E].
Qed.

Lemma collectionsById_get id c :
  jm_get id (collectionsById collections) = Some c <-> In c collections /\ col_id c = id.
Proof.
  assert (forall cs, (forall c, jm_get id (collectionsById cs) = Some c -> In c cs /\ col_id c = id)
                     /\ ((exists c, In c cs /\ col_id c = id) -> is_Some (jm_get id (collectionsById cs)))) as Hgen.
  { induction cs as [|b cs [IH1 IH2]] using rev_ind; [split; [done|by intros (? & [] & _)]|].
    unfold collectionsById in *. rewrite fold_left_app. simpl. split.
    - intros c0. rewrite jm_get_set, in_app_iff. case_decide; [by intros [= <-]; simpl; auto|].
      intros []%IH1. auto.
    - intros (c0 & Hc & Eid). rewrite jm_get_set. case_decide; [done|]. apply IH2. exists c0.
      apply in_app_iff in Hc as [|[]]; [done|congruence|done]. }
  destruct (Hgen collections) as [H1 H2]. split; [apply H1|]. intros [Hc Eid].
  destruct H2 as [c' Hc']; [by exists c|]. rewrite Hc'. destruct (H1 _ Hc') as [Hin E'].
  f_equal. apply same_id; congruence.
Qed.

Lemma byId_current id n :
  match jm_get id (collectionsById collections) with
  | Some c => canProjectCurrentStateAt c n
  | None => false
  end = true <-> current collections id n.
Proof.
  unfold current. destruct (jm_get id (collectionsById collections)) as [c|] eqn:E.
  - apply collectionsById_get in E as [Hc Eid]. rewrite canProject_iff. split; [by eauto|].
    intros (c' & Hc' & Eid' & Hp). assert (c = c') as -> by (apply same_id; congruence). done.
  - split; [done|]. intros (c & Hc & Eid & _).
    assert (jm_get id (collectionsById collections) = Some c) by by apply collectionsById_get. congruence.
Qed.

Lemma found_current id n : foundProjects collections id n = true <-> current collections id n.
Proof.
  unfold foundProjects, current. destruct (List.find _ _) as [c|] eqn:E.
  - apply find_some in E as [Hc Eid]. zbool. rewrite canProject_iff. split; [by eauto|].
    intros (c' & Hc' & Eid' & Hp). assert (c = c') as -> by (apply same_id; congruence). done.
  - split; [done|]. intros (c & Hc & Eid & _). pose proof (find_none _ _ E c Hc) as Hf. simpl in Hf. zbool. done.
Qed.

Lemma In_filterScoped {E} `{CollectionScoped E} (e : E) events :
  In e (filterCurrentStateCollectionScopedEvents (collectionsById collections) events)
  <-> In e events /\ current collections (scopeOf e) (ea_blockNumber (attributionOf e)).
Proof. unfold filterCurrentStateCollectionScopedEvents. by rewrite filter_In, byId_current. Qed.

End ById.

(** ** Order updates *)

Definition orderUpdateFollowUp (chainId : Z) (queue reason orderId : string) (a : EventAttribution) : SyncFollowUp :=
  eventSyncFollowUp {|
    j_jobId := colon ["orders:update:id"; Z_toString chainId; orderId; Z_toString (ea_blockNumber a);
                      Z_toString (ea_logIndex a)]%string;
    j_kind := "orders.update-by-id"; j_queue := queue; j_payload := OrderUpdateById orderId reason a;
    j_chainId := chainId; j_collectionId := None; j_workClass := None; j_onchainBlock := None |} a.

Lemma orderUpdates_ok chainId reason queue orders :
  orderUpdateQueue reason None = Ok queue ->
  orderUpdates chainId reason orders = Ok (map (fun '(id, a) => orderUpdateFollowUp chainId queue reason id a) orders).
Proof.
  intros Hq. unfold orderUpdates. induction orders as [|[id a] rest IH]; [done|].
  cbn [result_map map]. rewrite IH. unfold buildOrderUpdateById. by rewrite Hq.
Qed.

Lemma In_withOrder {E} (orderId : E -> option string) (at_ : E -> EventAttribution) events id a :
  In (id, a) (withOrder orderId at_ events)
  <-> exists e, In e events /\ orderId e = Some id /\ truthy id = true /\ at_ e = a.
Proof.
  unfold withOrder. rewrite <- list_elem_of_In, list_elem_of_omap. setoid_rewrite list_elem_of_In. split.
  - intros (e & He & H). destruct (orderId e) as [i|] eqn:Ei; [|done]. destruct (truthy i) eqn:Et; [|done].
    injection H as <- <-. eauto.
  - intros (e & He & Ei & Et & <-). exists e. split; [done|]. by rewrite Ei, Et.
Qed.

(** ** The first event of each key *)

(** [e] is the first event of those that count with its key. *)
Definition firstOf {E} (key : E -> string) (counts : E -> Prop) (events : list E) (e : E) : Prop :=
  exists before after, events = before ++ e :: after /\ counts e
                       /\ forall e', In e' before -> counts e' -> key e' <> key e.

Lemma firstOf_cons {E} (key : E -> string) counts x rest (e : E) :
  firstOf key counts (x :: rest) e
  <-> (x = e /\ counts e) \/ (firstOf key counts rest e /\ (counts x -> key x <> key e)).
Proof.
  unfold firstOf. split.
  - intros ([|y before] & after & Heq & Hk & Hb); simplify_eq/=; [by left|right].
    split; [exists before, after; split_and!; eauto|]. intros Hx. apply Hb; auto.
  - intros [[-> Hk]|[(before & after & -> & Hk & Hb) Hx]].
    + exists [], rest. split_and!; [done|done|by intros ? []].
    + exists (x :: before), after. split_and!; [done|done|]. intros e' [->|He'] Hk'; eauto.
Qed.

Lemma In_firstOfKey {E} (key : E -> string) keep seen events (e : E) :
  In e (firstOfKey key keep seen events) <-> (key e ∉ seen) /\ firstOf key (fun e => keep e = true) events e.
Proof.
  revert seen. induction events as [|x rest IH]; intros seen; cbn [firstOfKey].
  { split; [done|]. intros (_ & [|] & ? & ? & _); done. }
  rewrite firstOf_cons. destruct (keep x) eqn:Ekx; cbn [negb].
  - case_bool_decide as Hs.
    + rewrite IH. split; [intros [H1 H2]; split; [done|right]; split; [done|congruence]|].
      intros [H1 [[-> _]|[H2 _]]]; done.
    + cbn [In]. rewrite IH, not_elem_of_union, not_elem_of_singleton.
      split; [intros [->|((Hne & H1) & H2)]; [split; [done|by left]|split; [done|right; split; [done|congruence]]]|].
      intros [H1 [[-> _]|[H2 Hne]]]; [by left|right]. split; [split; [|done]|done]. intros E'. by apply Hne.
  - rewrite IH. split; [intros [H1 H2]; split; [done|right; by split]|].
    intros [H1 [[-> Hk]|[H2 _]]]; [congruence|done].
Qed.

Lemma firstOfKey_filter {E} (key : E -> string) keep seen (events : list E) :
  firstOfKey key keep seen (List.filter keep events) = firstOfKey key keep seen events.
Proof.
  revert seen. induction events as [|x rest IH]; intros seen; [done|]. simpl. destruct (keep x) eqn:Ek; simpl.
  - rewrite Ek. simpl. by rewrite !IH.
  - apply IH.
Qed.

Lemma filter_ext_iff {A} (p q : A -> bool) l : (forall x, p x = true <-> q x = true) -> List.filter p l = List.filter q l.
Proof. intros H. apply filter_ext. intros x. by apply eq_true_iff_eq. Qed.

Lemma firstOf_ext {E} (key : E -> string) (p q : E -> Prop) events e :
  (forall x, p x <-> q x) -> firstOf key p events e <-> firstOf key q events e.
Proof. intros H. unfold firstOf. by setoid_rewrite H. Qed.

(** ** The facts of a range that match its blocks *)

Lemma factsMatch_In blocks facts fact :
  factsMatch blocks facts = Ok tt -> In fact facts ->
  h_hash <$> jm_get (at_blockNumber fact) (byNumber blocks) = Some (at_blockHash fact).
Proof.
  induction facts as [|f rest IH]; [done|]. simpl. intros Hm Hin. fold (byNumber blocks) in Hm.
  destruct (jm_get (at_blockNumber f) (byNumber blocks)) as [b|] eqn:E; [|done].
  case_bool_decide as Eh; [|done]. destruct Hin as [->|Hin]; [|by apply IH]. rewrite E, Eh. done.
Qed.

Section Range.
Context (chainId : Z) (collections : list CollectionRecord) (range : Range) (blocks : list SyncBlockHeader).
Context (data : OnChainData).
Context (Hdistinct : NoDup (map col_id collections)).
Context (Hcover : coversRange blocks (fromBlock range) (toBlock range) = true).
Context (Hmatch : assertSyncResultMatchesBlocks blocks (factsOf (storedData data)) = Ok tt).

(** The block is one of the range, with this hash. *)
Definition onBlock (a : EventAttribution) : Prop :=
  h_hash <$> jm_get (ea_blockNumber a) (byNumber blocks) = Some (ea_blockHash a).

Lemma fact_onBlock a : In (checkedOf a) (factsOf (storedData data)) -> onBlock a.
Proof using Hmatch.
  intros Hin. unfold assertSyncResultMatchesBlocks in Hmatch. apply result_bind_ok in Hmatch as (u & _ & Hm).
  exact (factsMatch_In _ _ _ Hm Hin).
Qed.

Lemma onBlock_in_range a : onBlock a -> fromBlock range <= ea_blockNumber a <= toBlock range.
Proof using Hcover.
  unfold onBlock. destruct (jm_get _ (byNumber blocks)) as [b|] eqn:E; [|done]. intros _.
  apply byNumber_get in E as [Hin <-]. apply (coversRange_numbers _ _ _ _ Hcover). eauto.
Qed.

(** Every event whose fields a follow-up reads is among the checked facts. *)
Ltac is_fact :=
  apply fact_onBlock; unfold factsOf, storedData; simpl; rewrite !in_app_iff; unfold checkedAll; rewrite !in_map_iff;
  first [ tauto | solve [eauto 20] ].

Lemma maker_onBlock t : In t (makerTriggers (collectionScoped data)) -> onBlock (mt_at t).
Proof using Hmatch. intros H. is_fact. Qed.
Lemma fill_onBlock e : In e (fillEvents (collectionScoped data)) -> onBlock (fi_at e).
Proof using Hmatch. intros H. is_fact. Qed.
Lemma order_onBlock e : In e (orderInfos (collectionScoped data)) -> onBlock (oi_at e).
Proof using Hmatch. intros H. is_fact. Qed.
Lemma refresh_onBlock e : In e (metadataRefreshEvents (collectionScoped data)) -> onBlock (mr_at e).
Proof using Hmatch. intros H. is_fact. Qed.
Lemma refreshRange_onBlock e : In e (metadataRefreshRangeEvents (collectionScoped data)) -> onBlock (mg_at e).
Proof using Hmatch. intros H. is_fact. Qed.
Lemma cancel_onBlock e : In e (cancelEvents (global data)) -> onBlock (ca_at e).
Proof using Hmatch. intros H. is_fact. Qed.
Lemma globalMaker_onBlock t : In t (globalMakerTriggers (global data)) -> onBlock (gt_at t).
Proof using Hmatch. intros H. is_fact. Qed.

(** ** What is asked for *)

(** The follow-ups of the current events. *)
Inductive Requested (policy : BackfillOrderMaintenancePolicy) : SyncFollowUp -> Prop :=
  | RequestedMaker t :
      In t (makerTriggers (collectionScoped data)) ->
      current collections (mt_collectionId t) (ea_blockNumber (mt_at t)) ->
      Requested policy (collectionMakerFollowUp chainId t)
  | RequestedGlobalMaker t :
      policy = CurrentStateMaintenance ->
      In t (globalMakerTriggers (global data)) ->
      currentSomewhere collections (ea_blockNumber (gt_at t)) ->
      Requested policy (globalMakerFollowUp chainId t)
  | RequestedFill e orderId :
      In e (fillEvents (collectionScoped data)) -> fi_orderId e = Some orderId -> truthy orderId = true ->
      current collections (fi_collectionId e) (ea_blockNumber (fi_at e)) ->
      Requested policy (orderUpdateFollowUp chainId Queue.OrderLifecycle ORDER_UPDATE_FILL orderId (fi_at e))
  | RequestedCancel e orderId :
      In e (cancelEvents (global data)) -> ca_orderId e = Some orderId -> truthy orderId = true ->
      currentSomewhere collections (ea_blockNumber (ca_at e)) ->
      Requested policy (orderUpdateFollowUp chainId Queue.OrderLifecycle ORDER_UPDATE_CANCEL orderId (ca_at e))
  | RequestedOrder e orderId :
      In e (orderInfos (collectionScoped data)) -> oi_orderId e = Some orderId -> truthy orderId = true ->
      current collections (oi_collectionId e) (ea_blockNumber (oi_at e)) ->
      Requested policy (orderUpdateFollowUp chainId Queue.OrdersUpdateById ORDER_UPDATE_VALIDATION orderId (oi_at e))
  | RequestedRefresh e :
      firstOf refreshKey (fun e => current collections (mr_collectionId e) (ea_blockNumber (mr_at e)))
        (metadataRefreshEvents (collectionScoped data)) e ->
      Requested policy (refreshFollowUp chainId e)
  | RequestedRefreshRange e :
      firstOf refreshRangeKey (fun e => current collections (mg_collectionId e) (ea_blockNumber (mg_at e)))
        (metadataRefreshRangeEvents (collectionScoped data)) e ->
      Requested policy (refreshRangeFollowUp chainId e).

Lemma firstOf_In {E} (key : E -> string) counts events (e : E) : firstOf key counts events e -> In e events /\ counts e.
Proof. intros (before & after & -> & H & _). split; [|done]. apply in_elt. Qed.

(** An event that is current makes the range one that projects current state. *)
Lemma current_somewhere id n : current collections id n -> currentSomewhere collections n.
Proof. intros (c & Hc & _ & Hp). by exists c. Qed.

Lemma requested_gate policy f : Requested policy f -> hasAnyCurrentStateProjection collections range = true.
Proof using Hmatch Hcover.
  assert (forall a, onBlock a -> currentSomewhere collections (ea_blockNumber a) ->
          hasAnyCurrentStateProjection collections range = true) as Hgate.
  { intros a Ha Hs. apply hasAny_iff. exists (ea_blockNumber a). split; [by apply onBlock_in_range|done]. }
  intros [t Hin Hc|t _ Hin Hc|e i Hin _ _ Hc|e i Hin _ _ Hc|e i Hin _ _ Hc|e [Hin Hc]%firstOf_In|e [Hin Hc]%firstOf_In];
    (eapply Hgate; [eauto using maker_onBlock, globalMaker_onBlock, fill_onBlock, cancel_onBlock, order_onBlock,
                               refresh_onBlock, refreshRange_onBlock
                   |by first [exact Hc|eapply current_somewhere]]).
Qed.

(** What is built past the gate is what is asked for. *)
Lemma In_orderUpdates queue reason (orders : list (string * EventAttribution)) f :
  In f (map (fun '(id, a) => orderUpdateFollowUp chainId queue reason id a) orders)
  <-> exists id a, f = orderUpdateFollowUp chainId queue reason id a /\ In (id, a) orders.
Proof.
  rewrite in_map_iff. split; [intros ([id a] & <- & H); eauto|]. intros (id & a & -> & H). by exists (id, a).
Qed.

Lemma In_refreshes {E} `{CollectionScoped E} (key : E -> string) (events : list E) e :
  In e (firstOfKey key (fun e => foundProjects collections (scopeOf e) (ea_blockNumber (attributionOf e))) ∅
          (filterCurrentStateCollectionScopedEvents (collectionsById collections) events))
  <-> firstOf key (fun e => current collections (scopeOf e) (ea_blockNumber (attributionOf e))) events e.
Proof using Hdistinct.
  unfold filterCurrentStateCollectionScopedEvents.
  rewrite (filter_ext_iff _ (fun e => foundProjects collections (scopeOf e) (ea_blockNumber (attributionOf e)))).
  2:{ intros x. by rewrite byId_current, found_current. }
  rewrite firstOfKey_filter, In_firstOfKey.
  rewrite (firstOf_ext _ _ (fun e => current collections (scopeOf e) (ea_blockNumber (attributionOf e))));
    [|intros x; by apply found_current].
  split; [by intros [_ Hf]|]. intros Hf. split; [apply not_elem_of_empty|done].
Qed.

Lemma built_orders policy orders f :
  buildOrderUpdateFollowUps chainId collections (filterCurrentStateOnChainData collections data) policy = Ok orders ->
  In f (orders ++ buildMetadataRefreshFollowUps chainId collections (filterCurrentStateOnChainData collections data))
  <-> Requested policy f.
Proof using Hdistinct.
  unfold buildOrderUpdateFollowUps, buildMetadataRefreshFollowUps. intros H.
  erewrite !orderUpdates_ok in H by reflexivity. cbn [result_bind] in H. injection H as <-.
  assert (allowsGlobalMakerRevalidation policy = true <-> policy = CurrentStateMaintenance) as Hpol
    by (unfold allowsGlobalMakerRevalidation; by rewrite bool_decide_eq_true).
  pose proof (In_refreshes refreshKey (metadataRefreshEvents (collectionScoped data))) as Hr.
  pose proof (In_refreshes refreshRangeKey (metadataRefreshRangeEvents (collectionScoped data))) as Hg.
  rewrite !in_app_iff, !In_orderUpdates. cbn [filterCurrentStateOnChainData collectionScoped global fillEvents orderInfos
    makerTriggers metadataRefreshEvents metadataRefreshRangeEvents cancelEvents globalMakerTriggers scopeOf attributionOf
    scoped_refresh scoped_refreshRange] in *.
  split.
  - intros [[Hm|[Hgl|[Hf|[Hc|Ho]]]]|[Hx|Hx]].
    + apply in_map_iff in Hm as (t & <- & [Ht Hc]%In_filterScoped); [|done]. by apply RequestedMaker.
    + destruct (allowsGlobalMakerRevalidation policy); [|done].
      apply in_map_iff in Hgl as (t & <- & [[Ht Hc]%filter_In _]%filter_In). apply canAny_iff in Hc.
      apply RequestedGlobalMaker; [by apply Hpol|done..].
    + destruct Hf as (id & a & -> & (e & [He Hc]%In_filterScoped & Ei & Et & <-)%In_withOrder); [|done].
      by apply (RequestedFill policy e id).
    + destruct Hc as (id & a & -> & [(e & [He Hc]%filter_In & Ei & Et & <-)%In_withOrder _]%filter_In).
      apply canAny_iff in Hc. by apply (RequestedCancel policy e id).
    + destruct Ho as (id & a & -> & (e & [He Hc]%In_filterScoped & Ei & Et & <-)%In_withOrder); [|done].
      by apply (RequestedOrder policy e id).
    + apply in_map_iff in Hx as (e & <- & Hx%Hr). exact (RequestedRefresh policy e Hx).
    + apply in_map_iff in Hx as (e & <- & Hx%Hg). exact (RequestedRefreshRange policy e Hx).
  - intros [t Ht Hc|t Hp Ht Hc|e id He Ei Et Hc|e id He Ei Et Hc|e id He Ei Et Hc|e Hx|e Hx].
    + left. left. apply in_map, In_filterScoped; done.
    + left. right. left. rewrite (proj2 Hpol Hp). apply in_map, filter_In. apply canAny_iff in Hc.
      split; [by apply filter_In|done].
    + left. do 2 right. left. exists id, (fi_at e). split; [done|]. apply In_withOrder. exists e.
      split_and!; [apply In_filterScoped; done|done..].
    + left. do 3 right. left. exists id, (ca_at e). split; [done|]. apply canAny_iff in Hc. apply filter_In.
      split; [|done]. apply In_withOrder. exists e. split_and!; [by apply filter_In|done..].
    + left. do 4 right. exists id, (oi_at e). split; [done|]. apply In_withOrder. exists e.
      split_and!; [apply In_filterScoped; done|done..].
    + right. left. apply in_map. by apply Hr.
    + right. right. apply in_map. by apply Hg.
Qed.

(** ** The jobs of the range *)

(** One source for the whole range, or one or more of acquired collections. *)
Definition sourcesMatch (sources : list DomainSyncSource) : Prop :=
  sources <> [] /\
  forall source, In source sources ->
    match src_collectionId source with
    | None => sources = [source]
    | Some id => exists c, In c collections /\ col_id c = id
    end.

(** Every source has its activity job; orders and metadata follow when one of its
    collections projects the state of a block of the range. *)
Definition RangeRequested (sources : list DomainSyncSource) (mode : DomainSyncMode) (f : SyncFollowUp) : Prop :=
  exists source, In source sources /\
    (f = rangeJob "domain:activity:" "domain.activity.sync" Queue.ActivityDomain FactsOnly chainId range mode source
     \/ ((exists c n, In c collections /\ (forall id, src_collectionId source = Some id -> col_id c = id)
                     /\ fromBlock range <= n <= toBlock range /\ projects c n)
         /\ (f = rangeJob "domain:orders:" "domain.orders.sync" Queue.OrdersDomain CurrentState chainId range mode source
             \/ f = rangeJob "domain:metadata:" "domain.metadata.sync" Queue.MetadataDomain CurrentState
                      chainId range mode source))).

Lemma sourceMatches_iff sources :
  bool_decide (sources = []) || negb (forallb (sourceMatches collections sources) sources) = false
  <-> sourcesMatch sources.
Proof.
  unfold sourcesMatch. rewrite orb_false_iff, negb_false_iff, forallb_forall, bool_decide_eq_false.
  apply and_iff_compat_l. split; intros H source Hin; specialize (H source Hin); unfold sourceMatches in *;
    destruct (src_collectionId source) as [id|].
  - apply bool_decide_eq_true, list_elem_of_In, in_map_iff in H as (c & E & Hc). eauto.
  - apply Nat.eqb_eq in H. destruct sources as [|s [|]]; [done| |done]. by destruct Hin as [->|[]].
  - destruct H as (c & Hc & E). apply bool_decide_eq_true, list_elem_of_In, in_map_iff. eauto.
  - by rewrite H.
Qed.

Lemma In_sourceFollowUps sources mode f :
  In f (flat_map (sourceFollowUps chainId collections range mode) sources) <-> RangeRequested sources mode f.
Proof.
  rewrite in_flat_map. unfold RangeRequested.
  assert (forall source, hasAnyCurrentStateProjection
      (match src_collectionId source with
       | None => collections
       | Some id => List.filter (fun c => col_id c =? id) collections
       end) range = true
    <-> exists c n, In c collections /\ (forall id, src_collectionId source = Some id -> col_id c = id)
                    /\ fromBlock range <= n <= toBlock range /\ projects c n) as Hgate.
  { intros source. rewrite hasAny_iff. unfold currentSomewhere. destruct (src_collectionId source) as [id|].
    - setoid_rewrite filter_In. setoid_rewrite Z.eqb_eq. split.
      + intros (n & Hn & c & [Hc E] & Hp). exists c, n. split; [done|]. split; [|done]. by intros ? [= <-].
      + intros (c & n & Hc & E & Hn & Hp). exists n. split; [done|]. exists c. split; [|done]. split; [done|by apply E].
    - split; [intros (n & Hn & c & Hc & Hp); exists c, n; done|].
      intros (c & n & Hc & _ & Hn & Hp). exists n. split; [done|]. by exists c. }
  split; intros (source & Hin & Hf); exists source; (split; [done|]); specialize (Hgate source);
    unfold sourceFollowUps in *; cbv zeta in *.
  - destruct Hf as [<-|Hf]; [by left|]. destruct (hasAnyCurrentStateProjection _ _); [|done].
    right. split; [by apply Hgate|]. destruct Hf as [<-|[<-|[]]]; auto.
  - destruct Hf as [->|[Hc Hf]]; [by left|]. right. rewrite (proj2 Hgate Hc). destruct Hf as [->| ->]; simpl; auto.
Qed.

Lemma build_exact sources mode policy :
  match buildSyncFollowUps chainId collections range sources mode data policy with
  | Ok followUps => sourcesMatch sources /\ forall f, In f followUps <-> RangeRequested sources mode f \/ Requested policy f
  | Err e => ~ sourcesMatch sources /\ e = "Domain sync sources do not match the acquired collections"%string
  end.
Proof using Hdistinct Hcover Hmatch.
  unfold buildSyncFollowUps. pose proof (sourceMatches_iff sources) as Hs.
  destruct (bool_decide (sources = []) || _).
  { split; [|done]. intros H%Hs. done. }
  cbv zeta. destruct (hasAnyCurrentStateProjection collections range) eqn:Eg; cbn [negb].
  - destruct (buildOrderUpdateFollowUps _ _ _ _) as [orders|e] eqn:Eo; cbn [result_bind].
    + split; [by apply Hs|]. intros f. rewrite in_app_iff, In_sourceFollowUps. by rewrite (built_orders _ _ _ Eo).
    + exfalso. unfold buildOrderUpdateFollowUps in Eo. rewrite (orderUpdates_ok _ _ Queue.OrderLifecycle) in Eo by done.
      rewrite (orderUpdates_ok _ _ Queue.OrderLifecycle) in Eo by done.
      by rewrite (orderUpdates_ok _ _ Queue.OrdersUpdateById) in Eo.
  - split; [by apply Hs|]. intros f. rewrite In_sourceFollowUps. split; [by left|].
    intros [H|H%requested_gate]; [done|congruence].
Qed.

(** ** A commit accepts them *)

(** What [assertSyncFollowUpsMatchBlocks] wants of a follow-up. *)
Definition Fits (f : SyncFollowUp) : Prop :=
  j_chainId (jobOf f) = chainId
  /\ (forall id, j_collectionId (jobOf f) = Some id -> id ∈ map col_id collections)
  /\ match f with
     | EventFollowUp _ eventChainId number hash =>
         eventChainId = chainId /\ h_hash <$> jm_get number (byNumber blocks) = Some hash
     | RangeFollowUp _ => True
     end.

Lemma assertFollowUps_ok followUps :
  Forall Fits followUps -> assertSyncFollowUpsMatchBlocks chainId blocks (map col_id collections) followUps = Ok tt.
Proof.
  induction 1 as [|f rest (Hc & Hid & Hb) _ IH]; [done|]. simpl. rewrite Hc, Z.eqb_refl. simpl.
  assert (match j_collectionId (jobOf f) with
          | Some id => negb (bool_decide (id ∈ map col_id collections))
          | None => false
          end = false) as ->.
  { destruct (j_collectionId (jobOf f)) as [id|]; [|done]. by rewrite bool_decide_true by by apply Hid. }
  destruct f as [job|job eventChainId number hash]; [done|]. destruct Hb as [-> Hb].
  by rewrite Z.eqb_refl, bool_decide_true.
Qed.

Lemma current_acquired id n : current collections id n -> id ∈ map col_id collections.
Proof. intros (c & Hc & <- & _). by apply list_elem_of_In, in_map. Qed.

Lemma event_fits job a :
  j_chainId job = chainId -> (forall id, j_collectionId job = Some id -> id ∈ map col_id collections) -> onBlock a ->
  Fits (eventSyncFollowUp job a).
Proof. intros Hc Hid Ha. by split_and!. Qed.

Lemma requested_fits policy f : Requested policy f -> Fits f.
Proof using Hmatch.
  intros [t Hin Hc|t _ Hin Hc|e i Hin _ _ Hc|e i Hin _ _ Hc|e i Hin _ _ Hc|e [Hin Hc]%firstOf_In|e [Hin Hc]%firstOf_In].
  1: unfold collectionMakerFollowUp; destruct (mt_tokenId t).
  all: apply event_fits; [done| |by eauto using maker_onBlock, globalMaker_onBlock, fill_onBlock, cancel_onBlock,
                                    order_onBlock, refresh_onBlock, refreshRange_onBlock].
  all: intros id Hid; try discriminate Hid; injection Hid as <-; exact (current_acquired _ _ Hc).
Qed.

Lemma range_fits sources mode f : sourcesMatch sources -> RangeRequested sources mode f -> Fits f.
Proof.
  intros [_ Hs] (source & Hin & Hf). specialize (Hs source Hin).
  assert (forall p k q proj, Fits (rangeJob p k q proj chainId range mode source)) as Hfits.
  { intros. split_and!; [done| |done]. intros id Hid. simpl in Hid. rewrite Hid in Hs.
    destruct Hs as (c & Hc & <-). by apply list_elem_of_In, in_map. }
  destruct Hf as [->|[_ [->| ->]]]; apply Hfits.
Qed.

Lemma fits_withJob f workClass : Fits f -> Fits (withJob (setWorkClass workClass) f).
Proof. by destruct f. Qed.

Lemma follow_ups_accepted sources mode policy workClass followUps :
  buildSyncFollowUps chainId collections range sources mode data policy = Ok followUps ->
  assertSyncFollowUpsMatchBlocks chainId blocks (map col_id collections)
    (map (withJob (setWorkClass workClass)) followUps) = Ok tt.
Proof using Hdistinct Hcover Hmatch.
  intros Hb. pose proof (build_exact sources mode policy) as H. rewrite Hb in H. destruct H as [Hs H].
  apply assertFollowUps_ok, Forall_forall. intros f (g & <- & Hg)%list_elem_of_In%in_map_iff.
  apply fits_withJob. apply H in Hg as [Hg|Hg]; [by eapply range_fits|by eapply requested_fits].
Qed.

End Range.

(** ** The outbox after a commit *)

(** A row as a follow-up leaves it. *)
Definition freshRow (revision : Z) (f : SyncFollowUp) (row : OutboxRow) : Prop :=
  ob_job row = retainedJob f revision /\ ob_status row = Pending /\ ob_retryPolicy row = Required /\ ob_attempts row = 0.

Lemma enqueue_rows revision followUps o :
  let o' := fold_left (enqueueSyncFollowUp revision) followUps o in
  (forall k row, out_rows o !! k = Some row -> out_rows o' !! k = Some row)
  /\ (forall f, In f followUps -> is_Some (out_rows o' !! keyOf (retainedJob f revision)))
  /\ (forall k row, out_rows o' !! k = Some row ->
        out_rows o !! k = Some row
        \/ exists f, In f followUps /\ k = keyOf (retainedJob f revision) /\ freshRow revision f row).
Proof.
  revert o. induction followUps as [|f rest IH]; intros o; cbn [fold_left]; [split_and!; [done|by intros ? []|by left]|].
  destruct (IH (enqueueSyncFollowUp revision o f)) as (H1 & H2 & H3).
  unfold enqueueSyncFollowUp, insertJob in *.
  destruct (out_rows o !! keyOf (retainedJob f revision)) as [old|] eqn:E; cbn [out_rows] in *.
  - split_and!; [done| |].
    + intros g [<-|Hg]; [|by apply H2]. exists old. by apply H1.
    + intros k row Hk. destruct (H3 k row Hk) as [Ho|(g & Hg & Hr)]; [by left|right]. exists g. split; [by right|done].
  - split_and!.
    + intros k row Hk. apply H1. rewrite lookup_insert_ne; [done|]. congruence.
    + intros g [<-|Hg]; [|by apply H2]. eexists. apply H1, lookup_insert_eq.
    + intros k row Hk. destruct (H3 k row Hk) as [Ho|(g & Hg & Hr)]; [|right; exists g; split; [by right|done]].
      destruct (decide (keyOf (retainedJob f revision) = k)) as [<-|Hne].
      * rewrite lookup_insert_eq in Ho. injection Ho as <-. right. exists f. split; [by left|]. by split_and!.
      * rewrite lookup_insert_ne in Ho by done. by left.
Qed.

(** ** Committing what was acquired *)

Lemma commitSyncRange_err input d e d' : commitSyncRange input d = (Err e, d') -> d' = d.
Proof. unfold commitSyncRange. cbv zeta. apply SyncDbProof.writeTransaction_err. Qed.

(** What a commit throws before it has compared the checkpoint is not a conflict. *)
Lemma assertCommitCurrent_err input d e d' block :
  assertCommitCurrent input d = (Err e, d') -> e <> conflictMessage block.
Proof.
  unfold assertCommitCurrent, mbind, lift, throwIf, mthrow, mret, assertSyncBlocksCoverRange. intros H.
  repeat (break_match_hyp; simplify_eq/=; try done).
Qed.

Lemma assertFollowUps_err chainId blocks ids followUps e block :
  assertSyncFollowUpsMatchBlocks chainId blocks ids followUps = Err e -> e <> conflictMessage block.
Proof.
  induction followUps as [|f rest IH]; simpl; [done|]. destruct (_ || _); [by intros [= <-]|].
  destruct f; [done|]. destruct (_ || _); [by intros [= <-]|done].
Qed.

Lemma conflict_is_current input d e block :
  (commitSyncRange input d).1 = Err e -> e = conflictMessage block ->
  db_revision d = cp_revision (s_checkpoint (c_result input)).
Proof.
  intros H ->. destruct (Z.eq_dec (db_revision d) (cp_revision (s_checkpoint (c_result input)))) as [|Hne]; [done|exfalso].
  unfold commitSyncRange, writeTransaction in H. cbv zeta in H. unfold mbind at 1 in H.
  destruct (assertCommitCurrent input d) as [[u|e] d1] eqn:E1.
  2:{ injection H as ->. by eapply assertCommitCurrent_err. }
  assert (d1 = d) as ->. { unfold assertCommitCurrent in E1. destruct (c_completion input); by minv E1. }
  unfold mbind at 1, lift at 1 in H. destruct (assertSyncFollowUpsMatchBlocks _ _ _ _) as [v|e] eqn:E2.
  2:{ injection H as ->. by eapply assertFollowUps_err. }
  unfold mbind at 1 in H. destruct (persistSyncResult (c_result input) d) as [[w|e] d2] eqn:E3.
  { destruct (persistSyncResult_ok _ _ _ _ E3) as (? & ? & ? & ? & ? & _). done. }
  injection H as ->. unfold persistSyncResult, writeTransaction, mbind, lift in E3.
  unfold assertCanonicalCheckPolicy in E3. destruct (_ || _) in E3; [done|].
  unfold assertChainSyncCheckpoint, throwIf, mthrow in E3.
  rewrite (proj2 (Z.eqb_neq _ _) Hne) in E3. done.
Qed.

Lemma storedConflict_spec blocks d block hash :
  storedConflict blocks d = Some (block, hash) ->
  In block blocks /\ getBlockHash d (h_number block) = Some hash /\ hash <> h_hash block.
Proof.
  induction blocks as [|b rest IH]; simpl; [done|]. destruct (getBlockHash d (h_number b)) as [h|] eqn:E.
  - destruct (truthy h); simpl; [|intros H; destruct (IH H) as (? & ? & ?); auto].
    case_bool_decide; simpl; [intros H'; destruct (IH H') as (? & ? & ?); auto|]. intros [= <- <-]. auto.
  - intros H. destruct (IH H) as (? & ? & ?); auto.
Qed.

(** Nothing differs but that the stored row of a block is due for a check. *)
Definition checkRetained (d d' : Db) (number : Z) (hash : string) : Prop :=
  exists row, db_blocks d !! number = Some row /\ b_hash row = hash
    /\ d' = setBlocks d (<[number := withCheck row true (if b_canonicalCheckPending row then b_canonicalCheckRetryAt row else 0)]>
                           (db_blocks d)).

Lemma retainCheck_ok check d :
  pc_chainId check = cp_chainId (pc_checkpoint check) -> db_revision d = cp_revision (pc_checkpoint check) ->
  getBlockHash d (pc_blockNumber check) = Some (pc_blockHash check) ->
  exists d', retainCheck check d = (Ok true, d') /\ checkRetained d d' (pc_blockNumber check) (pc_blockHash check).
Proof.
  intros Hc Hr Hh. unfold getBlockHash in Hh. destruct (db_blocks d !! pc_blockNumber check) as [row|] eqn:E; [|done].
  injection Hh as Hh.
  unfold retainCheck, writeTransaction, assertCheckChain, assertChainSyncCheckpoint, mbind, throwIf, updateBlock.
  rewrite Hc, Z.eqb_refl. cbn [negb mret]. unfold mret. rewrite Hr, Z.eqb_refl. cbn [negb].
  rewrite E, bool_decide_true by done. cbn [andb].
  eexists. split; [reflexivity|]. exists row. by split_and!.
Qed.

Lemma storedConflict_none blocks d b row :
  storedConflict blocks d = None -> In b blocks -> db_blocks d !! h_number b = Some row -> truthy (b_hash row) = true ->
  b_hash row = h_hash b.
Proof.
  induction blocks as [|x rest IH]; [done|]. simpl. intros H [->|Hin] Hrow Ht.
  - unfold getBlockHash in H. rewrite Hrow in H. simpl in H. rewrite Ht in H. simpl in H. by case_bool_decide.
  - apply IH; try done. destruct (getBlockHash d (h_number x)) as [h|]; [|done]. by destruct (truthy h && _).
Qed.

(** The range is stored: its blocks, which contradict none that was stored, its
    coverage of its collections, and its transfers; all else of these is as before. *)
Record stored (a : Acquired) (d d' : Db) : Prop := {
  st_unconflicted : forall b row, In b (aq_blocks a) -> db_blocks d !! h_number b = Some row ->
    truthy (b_hash row) = true -> b_hash row = h_hash b;
  st_blocks : forall b, In b (aq_blocks a) -> exists row, db_blocks d' !! h_number b = Some row /\ SyncDbEffects.rowOf b row;
  st_otherBlocks : forall n, ~ In n (map h_number (aq_blocks a)) -> db_blocks d' !! n = db_blocks d !! n;
  st_coverage : forall id n, n ∈ coverageOf d' id <->
    n ∈ coverageOf d id \/ In id (map col_id (aq_collections a)) /\ In n (map h_number (aq_blocks a));
  st_transfers : forall ev, In ev (nftTransferEvents (collectionScoped (aq_data a))) ->
    In (LedgerProof.eventKey ev) (map transferKey (transfers (db_ledger d')));
  st_history : exists rows, transfers (db_ledger d') = transfers (db_ledger d) ++ rows
    /\ forall r, In r rows -> exists ev, In ev (nftTransferEvents (collectionScoped (aq_data a))) /\ LedgerProof.rowFor ev r;
}.

Lemma Committed_stored a followUps completion from to d d' :
  coversRange (aq_blocks a) from to = true ->
  Committed {| c_result := resultOf a; c_followUps := followUps; c_completion := completion |} d d' -> stored a d d'.
Proof.
  intros Hcov HC. destruct (LedgerProof.persistLedger_stored _ _ _ _ _ _ (cm_ledger _ _ _ HC)) as [Hev Hrows]. constructor.
  - intros b row. apply storedConflict_none. exact (cm_unconflicted _ _ _ HC).
  - intros b Hb. destruct (cm_stored _ _ _ HC b Hb) as [row Hrow]. exists row. split; [done|].
    destruct (cm_rows _ _ _ HC _ _ Hrow) as [(b' & Hb' & En & Hr)|[Hni _]]; [|by destruct Hni; apply in_map].
    by rewrite (coversRange_unique _ _ _ b b' Hcov).
  - intros n Hn. destruct (db_blocks d' !! n) as [row|] eqn:E.
    + destruct (cm_rows _ _ _ HC _ _ E) as [(b & Hb & <- & _)|[_ ->]]; [|done]. by destruct Hn; apply (in_map h_number).
    + destruct (db_blocks d !! n) as [row|] eqn:E'; [|done].
      destruct (cm_blocks _ _ _ HC n ltac:(by eexists)) as [? E2]. congruence.
  - exact (cm_coverage _ _ _ HC).
  - exact Hev.
  - exact Hrows.
Qed.

(** ** The theorems *)

Definition asked (chainId : Z) (collections : list CollectionRecord) (range : Range) (data : OnChainData)
    (sources : list DomainSyncSource) (mode : DomainSyncMode) (policy : BackfillOrderMaintenancePolicy)
    (f : SyncFollowUp) : Prop :=
  RangeRequested chainId collections range sources mode f \/ Requested chainId collections data policy f.

(** C7: a range asks for exactly the work its facts call for.  The sources of the range
    are accepted when they name acquired collections, or when one stands for all.  Then
    the follow-ups are the jobs of the range, for current state only where a collection
    projects it, and the follow-ups of all events that are current and of no others; and
    a commit of the range does not refuse them. *)
Theorem follow_ups_exact chainId collections range blocks data sources mode policy :
  NoDup (map col_id collections) ->
  coversRange blocks (fromBlock range) (toBlock range) = true ->
  assertSyncResultMatchesBlocks blocks (factsOf (storedData data)) = Ok tt ->
  match buildSyncFollowUps chainId collections range sources mode data policy with
  | Ok followUps =>
      sourcesMatch collections sources
      /\ (forall f, In f followUps <-> asked chainId collections range data sources mode policy f)
      /\ forall workClass, assertSyncFollowUpsMatchBlocks chainId blocks (map col_id collections)
                            (map (withJob (setWorkClass workClass)) followUps) = Ok tt
  | Err e => ~ sourcesMatch collections sources /\ e = "Domain sync sources do not match the acquired collections"%string
  end.
Proof.
  intros Hd Hc Hm. pose proof (build_exact chainId collections range blocks data Hd Hc Hm sources mode policy) as H.
  destruct (buildSyncFollowUps _ _ _ _ _ _ _) as [followUps|e] eqn:E; [|done].
  destruct H as [Hs H]. split_and!; [done..|]. intros workClass. by eapply follow_ups_accepted.
Qed.

(** The two outcomes of a commit. *)
Lemma commitAcquired_ok a followUps completion d u d' :
  commitAcquired a followUps completion d = (Ok u, d') ->
  Committed {| c_result := resultOf a; c_followUps := map (withJob (setWorkClass (workClassOf completion))) followUps;
               c_completion := completion |} d d'.
Proof.
  unfold commitAcquired, mcatch. destruct (commitSyncRange _ d) as [[[]|e] d1] eqn:E.
  - intros [= _ <-]. by apply commitSyncRange_ok in E.
  - destruct (storedBlockHashConflict e a d1); [|done]. unfold mbind. by destruct (retainCheck _ _) as [[|] ?].
Qed.

(** Nothing has changed, or one stored block that contradicts a block of the range is due
    for a check. *)
Definition onlyConflict (a : Acquired) (d : Db) (e : string) (d' : Db) : Prop :=
  (d' = d \/ exists block hash, In block (aq_blocks a) /\ hash <> h_hash block /\ e = conflictMessage block
                              /\ checkRetained d d' (h_number block) hash)
  /\ forall block hash, storedConflict (aq_blocks a) d = Some (block, hash) -> e = conflictMessage block ->
       checkRetained d d' (h_number block) hash.

Lemma commitAcquired_err a followUps completion d e d' :
  commitAcquired a followUps completion d = (Err e, d') -> onlyConflict a d e d'.
Proof.
  unfold commitAcquired, mcatch, onlyConflict. destruct (commitSyncRange _ d) as [[[]|e0] d1] eqn:E; [done|].
  pose proof E as E'. apply commitSyncRange_err in E' as ->. unfold storedBlockHashConflict.
  destruct (storedConflict (aq_blocks a) d) as [[block hash]|] eqn:Ec; [|intros [= -> <-]; split; [by left|done]].
  case_bool_decide as Ee; [subst e0|intros [= <- <-]; split; [by left|by intros ? ? [= <- <-]]].
  destruct (storedConflict_spec _ _ _ _ Ec) as (Hin & Hh & Hne).
  pose proof (conflict_is_current _ d _ block (f_equal fst E) eq_refl) as Hrev. simpl in Hrev.
  match goal with |- context [retainCheck ?c] =>
    destruct (retainCheck_ok c d eq_refl Hrev Hh) as (d2 & Er & Ho) end.
  unfold mbind. rewrite Er. intros [= <- <-]. split; [|by intros b h [= <- <-] _].
  right. by exists block, hash.
Qed.

Lemma build_err chainId collections range sources mode data policy e :
  buildSyncFollowUps chainId collections range sources mode data policy = Err e ->
  e = "Domain sync sources do not match the acquired collections"%string.
Proof.
  unfold buildSyncFollowUps. destruct (bool_decide _ || _); [by intros [= <-]|]. cbv zeta. destruct (negb _); [done|].
  unfold buildOrderUpdateFollowUps. rewrite (orderUpdates_ok _ _ Queue.OrderLifecycle) by done.
  rewrite (orderUpdates_ok _ _ Queue.OrderLifecycle) by done. by rewrite (orderUpdates_ok _ _ Queue.OrdersUpdateById).
Qed.


(** ** A range of two blocks *)

Definition at6 : EventAttribution := {| ea_blockNumber := 6; ea_blockHash := "0x06"; ea_txHash := "0xt"; ea_logIndex := 3 |}.

(** Collection 1 is anchored at 5, collection 2 at 9: its fill in block 6 is history. *)
Definition anchored (id anchor : Z) : CollectionRecord := {|
  col_chainId := 1; col_id := id; col_address := "0xaa"; col_standard := Erc721; col_status := Live;
  col_bootstrapAnchorBlock := Some anchor |}.

Definition fill (id : Z) (orderId : string) : FillEvent :=
  {| fi_collectionId := id; fi_orderId := Some orderId; fi_at := at6 |}.

Definition acquired67 : Acquired := {|
  aq_checkpoint := {| cp_chainId := 1; cp_revision := 0 |};
  aq_canonicalCheck := {| observedHeadBlock := 12; reorgDepth := 2 |};
  aq_blocks := [{| h_number := 6; h_hash := "0x06"; h_parentHash := "0x05"; h_timestamp := 60 |};
                {| h_number := 7; h_hash := "0x07"; h_parentHash := "0x06"; h_timestamp := 70 |}];
  aq_data := {|
    transactions := [{| at_blockNumber := 6; at_blockHash := "0x06" |}];
    collectionScoped := {|
      nftTransferEvents := []; nftApprovalEvents := []; nftBalanceDeltas := [];
      fillEvents := [fill 1 "0xorder"; fill 2 "0xother"]; orderInfos := [];
      makerTriggers := [{| mt_collectionId := 1; mt_contract := "0xaa"; mt_tokenId := Some "4"; mt_maker := "0xAB";
                           mt_reason := "nft-transfer"; mt_at := at6 |}];
      metadataRefreshEvents := [{| mr_collectionId := 1; mr_tokenId := "4"; mr_trigger := "erc4906"; mr_at := at6 |};
                                {| mr_collectionId := 1; mr_tokenId := "4"; mr_trigger := "erc4906"; mr_at := at6 |}];
      metadataRefreshRangeEvents := []; collectionExtensionEvents := []; collectionExtensionEventMedia := [] |};
    global := {| cancelEvents := []; globalMakerTriggers := [] |} |};
  aq_collections := [anchored 1 5; anchored 2 9] |}.

Definition range67 : Range := {| fromBlock := 6; toBlock := 7 |}.

Definition wholeRange : list DomainSyncSource :=
  [{| src_fanoutId := "job"; src_sourceJobId := "job"; src_sourceKind := "sync.backfill.range"; src_collectionId := None |}].

Definition db67 : Db := {|
  db_chainId := 1; db_collections := {[1 := anchored 1 5; 2 := anchored 2 9]}; db_revision := 0; db_blocks := ∅;
  db_coverage := ∅; db_scans := ∅; db_recovery := None; db_ledger := emptyLedger; db_outbox := emptyOutbox |}.

Definition retained67 : result unit * Db :=
  retainSyncRange 1 range67 wholeRange BackfillMode CurrentStateMaintenance Unmanaged acquired67 db67.

Lemma follow_ups_exact_witness :
  (map (fun f => (j_queue (jobOf f), j_jobId (jobOf f))) <$>
     (match buildSyncFollowUps 1 (aq_collections acquired67) range67 wholeRange BackfillMode (aq_data acquired67)
              CurrentStateMaintenance with Ok l => Some l | Err _ => None end))
  = Some [(Queue.ActivityDomain, "domain:activity:job"); (Queue.OrdersDomain, "domain:orders:job");
          (Queue.MetadataDomain, "domain:metadata:job");
          (Queue.OrdersUpdateByToken, "orders:update:maker:1:0xab:1:4:6:3");
          (Queue.OrderLifecycle, "orders:update:id:1:0xorder:6:3");
          (Queue.MetadataRefreshQueue, "metadata:refresh:1:1:4:6:3")]%string
  /\ sourcesMatch (aq_collections acquired67) wholeRange.
Proof.
  split; [vm_compute; reflexivity|].
  assert (NoDup (map col_id (aq_collections acquired67))) as Hd by (apply (bool_decide_unpack _); vm_compute; exact I).
  pose proof (follow_ups_exact 1 (aq_collections acquired67) range67 (aq_blocks acquired67) (aq_data acquired67) wholeRange
                BackfillMode CurrentStateMaintenance Hd eq_refl eq_refl) as H.
  exact (proj1 H).
Defined.


End FollowUpsClaims.
