(* ===== verification/ExecutionGate.v ===== *)
(** * The gate of backfill work

    [BackfillExecutionGate] and [resolveBackfillExecutionMode]
    (application/backfill-execution.ts): ranges that may change current state run one at a
    time, manual and recovery work before automatic gap work, in order of arrival within
    each class; ranges that only record history run at once.  A task is a number here; the
    moments at which tasks arrive and end are the steps of a relation. *)

From S2P Require Import Prelude JsValue Chain Ledger Jobs QueueOutbox SyncDb GapRepair Reorg ReorgProof SyncCommitProof FollowUps FollowUpsClaims.
Import Chain Jobs FollowUps FollowUpsClaims.

Open Scope Z_scope.

Module ExecutionGate.

Inductive BackfillExecutionMode := ParallelFactsOnly | SerializedCurrentState.

(** [isRangeAtOrBeforeBootstrapAnchor] (domain/collections.ts) *)
Definition isRangeAtOrBeforeBootstrapAnchor (c : CollectionRecord) (from to : Z) : bool :=
  if to <? from then false
  else match col_bootstrapAnchorBlock c with
       | None => false
       | Some anchor => to <=? anchor
       end.

Definition resolveBackfillExecutionMode (collections : list CollectionRecord) (range : Range) : BackfillExecutionMode :=
  match collections with
  | [] => ParallelFactsOnly
  | _ => if forallb (fun c => isRangeAtOrBeforeBootstrapAnchor c (fromBlock range) (toBlock range)) collections
         then ParallelFactsOnly else SerializedCurrentState
  end.

(** ** The gate *)

Record Waiter := { wt_workClass : SyncWorkClass; wt_task : nat }.

Record Gate := { active : bool; waiting : list Waiter }.

Definition idle : Gate := {| active := false; waiting := [] |}.

(** [waiting.findIndex((task) => task.workClass === Main)] *)
Fixpoint mainIndex (l : list Waiter) : option nat :=
  match l with
  | [] => None
  | w :: rest => if bool_decide (wt_workClass w = MainWork) then Some O else S <$> mainIndex rest
  end.

(** [waiting.splice(index, 1)] *)
Fixpoint splice (i : nat) (l : list Waiter) : option Waiter * list Waiter :=
  match l, i with
  | [], _ => (None, [])
  | w :: rest, O => (Some w, rest)
  | w :: rest, S i => let '(found, rest) := splice i rest in (found, w :: rest)
  end.

(** The task that starts, if one does. *)
Definition startNext (g : Gate) : option Waiter * Gate :=
  if active g then (None, g) else
  let '(next, rest) := splice (default O (mainIndex (waiting g))) (waiting g) in
  match next with
  | Some w => (Some w, {| active := true; waiting := rest |})
  | None => (None, {| active := false; waiting := rest |})
  end.

(** [run] in serialized mode up to its first wait. *)
Definition enqueue (workClass : SyncWorkClass) (task : nat) (g : Gate) : option Waiter * Gate :=
  startNext {| active := active g; waiting := waiting g ++ [{| wt_workClass := workClass; wt_task := task |}] |}.

(** The callback of [finally]. *)
Definition finish (g : Gate) : option Waiter * Gate := startNext {| active := false; waiting := waiting g |}.

(** ** Runs *)

(** What has happened: the serialized tasks in the order they came and started, those that
    run now, however many, and the tasks run at once. *)
Record World := {
  w_gate : Gate;
  w_arrived : list Waiter;
  w_started : list Waiter;
  w_running : list Waiter;
  w_parallel : list nat;
}.

Definition initial : World :=
  {| w_gate := idle; w_arrived := []; w_started := []; w_running := []; w_parallel := [] |}.

Definition noteStart (next : option Waiter) (gate : Gate) (arrived running : list Waiter) (w : World)
    : World := {|
  w_gate := gate; w_arrived := arrived;
  w_started := match next with Some t => w_started w ++ [t] | None => w_started w end;
  w_running := match next with Some t => running ++ [t] | None => running end;
  w_parallel := w_parallel w |}.

Definition arrive (mode : BackfillExecutionMode) (workClass : SyncWorkClass) (task : nat) (w : World) : World :=
  match mode with
  | ParallelFactsOnly => {|
      w_gate := w_gate w; w_arrived := w_arrived w; w_started := w_started w; w_running := w_running w;
      w_parallel := w_parallel w ++ [task] |}
  | SerializedCurrentState =>
      let '(next, gate) := enqueue workClass task (w_gate w) in
      noteStart next gate (w_arrived w ++ [{| wt_workClass := workClass; wt_task := task |}]) (w_running w) w
  end.

(** The [i]-th of the running tasks ends. *)
Definition complete (i : nat) (w : World) : World :=
  let '(next, gate) := finish (w_gate w) in noteStart next gate (w_arrived w) (delete i (w_running w)) w.

Inductive Step : World -> World -> Prop :=
  | StepArrive mode workClass task w : Step w (arrive mode workClass task w)
  | StepComplete i w : (i < length (w_running w))%nat -> Step w (complete i w).

Inductive Reachable : World -> Prop :=
  | ReachableInitial : Reachable initial
  | ReachableStep w w' : Reachable w -> Step w w' -> Reachable w'.

(** ** Selection *)

Definition ofClass (workClass : SyncWorkClass) (l : list Waiter) : list Waiter :=
  List.filter (fun w => bool_decide (wt_workClass w = workClass)) l.

Lemma ofClass_app c l l' : ofClass c (l ++ l') = ofClass c l ++ ofClass c l'.
Proof. apply List.filter_app. Qed.

Lemma ofClass_cons c w l : ofClass c (w :: l) = (if bool_decide (wt_workClass w = c) then [w] else []) ++ ofClass c l.
Proof. unfold ofClass. simpl. by destruct (bool_decide (wt_workClass w = c)). Qed.

Lemma mainIndex_spec l :
  match mainIndex l with
  | Some i => exists l1 w l2, l = l1 ++ w :: l2 /\ length l1 = i /\ wt_workClass w = MainWork /\ ofClass MainWork l1 = []
  | None => ofClass MainWork l = []
  end.
Proof.
  induction l as [|x rest IH]; [done|]. simpl. case_bool_decide as Ex; [by exists [], x, rest|].
  destruct (mainIndex rest) as [i|]; cbn [fmap option_fmap option_map].
  - destruct IH as (l1 & w & l2 & -> & <- & Hw & Hl). exists (x :: l1), w, l2. split_and!; [done..|].
    by rewrite ofClass_cons, bool_decide_false.
  - exact IH.
Qed.

Lemma splice_app l1 w l2 : splice (length l1) (l1 ++ w :: l2) = (Some w, l1 ++ l2).
Proof. induction l1 as [|x l1 IH]; [done|]. simpl. by rewrite IH. Qed.

(** The first of the main work, or the first of all. *)
Lemma splice_main l :
  match splice (default O (mainIndex l)) l with
  | (None, rest) => l = [] /\ rest = []
  | (Some w, rest) =>
      (forall c, ofClass c l = ofClass c (w :: rest)) /\ length l = S (length rest)
      /\ (wt_workClass w = MainWork \/ ofClass MainWork l = [])
  end.
Proof.
  pose proof (mainIndex_spec l) as H. destruct (mainIndex l) as [i|]; cbn [default from_option id].
  - destruct H as (l1 & w & l2 & -> & <- & Hw & Hl). rewrite splice_app. split_and!; [| |by left].
    + intros c. rewrite (ofClass_cons c w (l1 ++ l2)), !ofClass_app, (ofClass_cons c w l2).
      case_bool_decide as E; [|done]. by rewrite <- E, Hw, Hl.
    + rewrite !length_app. simpl. lia.
  - destruct l as [|w rest]; [done|]. cbn [splice]. split_and!; [done..|by right].
Qed.

(** ** Invariant *)

(** Every serialized task that came has started or waits, in order of arrival within its
    class; something runs whenever something waits; and one task runs at a time, the last
    started. *)
Record GInv (w : World) : Prop := {
  gi_order : forall c, ofClass c (w_arrived w) = ofClass c (w_started w) ++ ofClass c (waiting (w_gate w));
  gi_active : active (w_gate w) = bool_decide (w_running w <> []);
  gi_waiting : waiting (w_gate w) <> [] -> w_running w <> [];
  gi_running : w_running w = [] \/ exists t, w_running w = [t] /\ last (w_started w) = Some t;
}.

Lemma GInv_initial : GInv initial.
Proof. split; try done. by left. Qed.

Definition gateOf (running l : list Waiter) : Gate :=
  {| active := bool_decide (running <> []); waiting := l |}.

(** [startNext] on a gate that agrees with what runs. *)
Lemma GInv_startNext w arrived running l :
  (forall c, ofClass c arrived = ofClass c (w_started w) ++ ofClass c l) ->
  (running = [] \/ exists t, running = [t] /\ last (w_started w) = Some t) ->
  let '(next, gate) := startNext (gateOf running l) in GInv (noteStart next gate arrived running w).
Proof.
  intros Ho Hl. unfold startNext, gateOf. simpl. destruct Hl as [->|(t & -> & Hl)]; simpl.
  - pose proof (splice_main l) as H. destruct (splice _ l) as [[x|] rest]; [|destruct H as [-> ->]; split; try done; by left].
    destruct H as (H1 & _ & _). split; simpl; [|done|done|].
    + intros c. by rewrite Ho, H1, ofClass_app, <- app_assoc, ofClass_cons, ofClass_cons, app_nil_r.
    + right. exists x. by rewrite last_snoc.
  - split; [done|done|done|]. right. by exists t.
Qed.

Lemma GInv_gate w : GInv w -> w_gate w = gateOf (w_running w) (waiting (w_gate w)).
Proof. intros H. unfold gateOf. rewrite <- (gi_active _ H). by destruct (w_gate w). Qed.

Lemma GInv_arrive mode workClass task w : GInv w -> GInv (arrive mode workClass task w).
Proof.
  intros H. destruct mode; simpl; [by destruct H; split|].
  unfold enqueue. set (x := {| wt_workClass := workClass; wt_task := task |}).
  pose proof (GInv_startNext w (w_arrived w ++ [x]) (w_running w) (waiting (w_gate w) ++ [x])) as Hs.
  rewrite (gi_active _ H). unfold gateOf in Hs. destruct (startNext _) as [next gate]. apply Hs.
  - intros c. by rewrite !ofClass_app, (gi_order _ H), app_assoc.
  - apply (gi_running _ H).
Qed.

(** Nothing runs beside the task that ends. *)
Lemma GInv_delete w i : GInv w -> (i < length (w_running w))%nat -> delete i (w_running w) = [].
Proof. intros H Hi. destruct (gi_running _ H) as [E|(t & E & _)]; rewrite E in Hi |- *; simpl in Hi; [lia|by destruct i; [|lia]]. Qed.

Lemma GInv_complete w i : GInv w -> (i < length (w_running w))%nat -> GInv (complete i w).
Proof.
  intros H Hi. unfold complete, finish. rewrite (GInv_delete w i H Hi).
  pose proof (GInv_startNext w (w_arrived w) [] (waiting (w_gate w))) as Hs.
  unfold gateOf in Hs. simpl in Hs. destruct (startNext _) as [next gate]. apply Hs; [apply (gi_order _ H)|by left].
Qed.

Lemma reachable_GInv w : Reachable w -> GInv w.
Proof.
  induction 1 as [|w w' _ IH Hs]; [apply GInv_initial|]. destruct Hs; [by apply GInv_arrive|by apply GInv_complete].
Qed.

Lemma GInv_runs w : GInv w -> waiting (w_gate w) <> [] -> (0 < length (w_running w))%nat.
Proof. intros H Hw. pose proof (gi_waiting _ H Hw). destruct (w_running w); [done|simpl; lia]. Qed.

(** ** What a completion starts *)

(** How many tasks of the main class wait before a place of the queue. *)
Definition mainBefore (l : list Waiter) (t : Waiter) : nat -> Prop := fun n =>
  exists l1 l2, ofClass MainWork l = l1 ++ t :: l2 /\ length l1 = n.

Lemma complete_starts w : GInv w -> waiting (w_gate w) <> [] ->
  exists t, w_running (complete 0 w) = [t] /\ w_started (complete 0 w) = w_started w ++ [t]
    /\ (forall c, ofClass c (waiting (w_gate w)) = ofClass c (t :: waiting (w_gate (complete 0 w))))
    /\ length (waiting (w_gate w)) = S (length (waiting (w_gate (complete 0 w))))
    /\ (wt_workClass t = MainWork \/ ofClass MainWork (waiting (w_gate w)) = []).
Proof.
  intros H Hw. pose proof (GInv_delete w 0 H (GInv_runs w H Hw)) as Hd. unfold complete, finish, startNext. simpl.
  pose proof (splice_main (waiting (w_gate w))) as Hs.
  destruct (splice _ (waiting (w_gate w))) as [[t|] rest]; [|by destruct Hs].
  destruct Hs as (H1 & H2 & H3). exists t. cbn [noteStart w_running w_started w_gate]. rewrite Hd. by split_and!.
Qed.

(** [n] completions, each of the task that runs. *)
Fixpoint completions (n : nat) (w : World) : World :=
  match n with O => w | S n => completions n (complete 0 w) end.

Lemma GInv_complete_waiting w : GInv w -> waiting (w_gate w) <> [] -> GInv (complete 0 w).
Proof. intros H Hw. apply GInv_complete; [done|by apply GInv_runs]. Qed.

Lemma main_starts n w t : GInv w -> mainBefore (waiting (w_gate w)) t n -> w_running (completions (S n) w) = [t].
Proof.
  revert w. induction n as [|n IH]; intros w H (l1 & l2 & Hl & Hn);
    (assert (waiting (w_gate w) <> []) as Hw by (intros E; rewrite E in Hl; by destruct l1));
    destruct (complete_starts w H Hw) as (x & Hr & _ & Hc & _ & Hm); specialize (Hc MainWork);
    (assert (wt_workClass x = MainWork) as Hx by (destruct Hm as [|Hm]; [done|rewrite Hm in Hl; by destruct l1]));
    rewrite ofClass_cons, bool_decide_true, Hl in Hc by done.
  - destruct l1; [|done]. simpl in Hc. injection Hc as -> _. exact Hr.
  - destruct l1 as [|y l1]; [done|]. simpl in Hc, Hn. injection Hc as <- Hc. apply IH; [by apply GInv_complete_waiting|].
    exists l1, l2. split; [done|lia].
Qed.

(** Enough completions: those that wait and the one that runs. *)
Definition toEnd (w : World) : nat := (length (w_running w) + length (waiting (w_gate w)))%nat.

(** Nothing runs and nothing waits. *)
Definition Ended (w w' : World) : Prop :=
  GInv w' /\ w_running w' = [] /\ waiting (w_gate w') = [] /\ w_arrived w' = w_arrived w.

Lemma all_start w : GInv w -> Ended w (completions (toEnd w) w).
Proof.
  unfold toEnd. remember (length (waiting (w_gate w))) as n eqn:En. revert w En. induction n as [|n IH]; intros w En H.
  - destruct (waiting (w_gate w)) as [|? ?] eqn:E; [|done]. destruct (gi_running _ H) as [Er|(t & Er & _)]; rewrite Er; simpl.
    + by split_and!.
    + assert (0 < length (w_running w))%nat as Hi by (rewrite Er; simpl; lia). split; [by apply GInv_complete|].
      unfold complete, finish, startNext. simpl. by rewrite E, Er.
  - assert (waiting (w_gate w) <> []) as Hw by (by destruct (waiting (w_gate w))).
    destruct (complete_starts w H Hw) as (x & Hx & _ & _ & Hn & _).
    assert (length (w_running w) = 1)%nat as El
      by (destruct (gi_running _ H) as [E|(t & E & _)]; [by destruct (gi_waiting _ H Hw)|by rewrite E]).
    specialize (IH (complete 0 w) ltac:(lia) (GInv_complete_waiting w H Hw)). rewrite Hx in IH. rewrite El.
    change (1 + S n)%nat with (S (1 + n)). destruct IH as (H1 & H2 & H3 & H4).
    split_and!; [done..|]. cbn [completions]. cbn [length] in H4. rewrite H4. unfold complete. by destruct (finish _).
Qed.

(** ** The theorems *)

(** C21: the gate serializes without losing or starving work.  In every run at most one
    serialized task runs, and it is the last started; the tasks that came are those that
    started and those that wait, in order of arrival within each class; one runs whenever
    one waits.  If tasks end and no more come, a main task runs after the one that runs and
    the main tasks before it, whatever gap work waits, and in the end nothing runs or
    waits. *)
Theorem gate_serializes w :
  Reachable w ->
  (length (w_running w) <= 1)%nat
  /\ (forall t, In t (w_running w) -> last (w_started w) = Some t)
  /\ (forall c, ofClass c (w_arrived w) = ofClass c (w_started w) ++ ofClass c (waiting (w_gate w)))
  /\ (waiting (w_gate w) <> [] -> w_running w <> [])
  /\ active (w_gate w) = bool_decide (w_running w <> [])
  /\ (forall n t, mainBefore (waiting (w_gate w)) t n -> w_running (completions (S n) w) = [t])
  /\ let w' := completions (toEnd w) w in
     w_running w' = [] /\ waiting (w_gate w') = [] /\ w_arrived w' = w_arrived w
     /\ forall c, ofClass c (w_started w') = ofClass c (w_arrived w).
Proof.
  intros H%reachable_GInv. split; [|split; [|split; [apply (gi_order _ H)|split; [apply (gi_waiting _ H)|]]]].
  - destruct (gi_running _ H) as [E|(t & E & _)]; rewrite E; simpl; lia.
  - intros t Ht. destruct (gi_running _ H) as [E|(x & E & Hx)]; rewrite E in Ht; [done|]. by destruct Ht as [<-|[]].
  - split; [apply (gi_active _ H)|]. split; [intros n t; by apply main_starts|]. intros w'.
    destruct (all_start w H) as (H' & Hr & Hw & Ha). fold w' in H', Hr, Hw, Ha. split_and!; [done..|]. intros c.
    pose proof (gi_order _ H' c) as Ho. by rewrite Hw, Ha, app_nil_r in Ho.
Qed.

(** only history runs unserialized.  A range runs at once exactly when every one of
    its collections is anchored at or above its last block, or none is given; it then
    asks for no work on current state. *)
Theorem parallel_ranges_are_history chainId collections range sources mode data policy followUps :
  fromBlock range <= toBlock range ->
  (resolveBackfillExecutionMode collections range = ParallelFactsOnly
   <-> forall c, In c collections -> exists anchor, col_bootstrapAnchorBlock c = Some anchor /\ toBlock range <= anchor)
  /\ (resolveBackfillExecutionMode collections range = ParallelFactsOnly ->
      buildSyncFollowUps chainId collections range sources mode data policy = Ok followUps ->
      forall f, In f followUps ->
        exists source, In source sources
          /\ f = rangeJob "domain:activity:" "domain.activity.sync" Queue.ActivityDomain FactsOnly chainId range mode source).
Proof.
  intros Hr.
  assert (resolveBackfillExecutionMode collections range = ParallelFactsOnly
   <-> forall c, In c collections -> exists anchor, col_bootstrapAnchorBlock c = Some anchor /\ toBlock range <= anchor) as Hiff.
  { unfold resolveBackfillExecutionMode.
    assert (forallb (fun c => isRangeAtOrBeforeBootstrapAnchor c (fromBlock range) (toBlock range)) collections = true
      <-> forall c, In c collections -> exists anchor, col_bootstrapAnchorBlock c = Some anchor /\ toBlock range <= anchor) as <-.
    { rewrite forallb_forall. unfold isRangeAtOrBeforeBootstrapAnchor. rewrite (proj2 (Z.ltb_ge _ _) Hr).
      split; intros H c Hc; specialize (H c Hc); destruct (col_bootstrapAnchorBlock c) as [a|]; try done.
      - exists a. zbool. done.
      - destruct H as (? & [= <-] & H). by apply Z.leb_le.
      - by destruct H as (? & ? & _). }
    destruct collections; [done|]. by destruct (forallb _ _). }
  split; [exact Hiff|]. intros Hmode Hb f Hf. pose proof (proj1 Hiff Hmode) as Hp.
  assert (forall cs, (forall c, In c cs -> In c collections) -> hasAnyCurrentStateProjection cs range = false) as Hno.
  { intros cs Hsub. apply not_true_iff_false. rewrite hasAny_iff. intros (n & Hn & c & Hc & a & Ea & Ha).
    destruct (Hp c (Hsub c Hc)) as (a' & Ea' & Ha'). rewrite Ea in Ea'. injection Ea' as <-. lia. }
  unfold buildSyncFollowUps in Hb. destruct (bool_decide _ || _); [done|]. cbv zeta in Hb.
  rewrite Hno in Hb by done. injection Hb as <-. apply in_flat_map in Hf as (source & Hs & Hf).
  exists source. split; [done|]. unfold sourceFollowUps in Hf. cbv zeta in Hf. rewrite Hno in Hf.
  - by destruct Hf as [<-|[]].
  - intros c. destruct (src_collectionId source); [|done]. intros [Hc _]%filter_In. done.
Qed.

(** ** A run *)

(** A gap task runs, a second waits, then two main tasks come. *)
Definition busy : World :=
  arrive SerializedCurrentState MainWork 4 (arrive SerializedCurrentState MainWork 3
    (arrive SerializedCurrentState GapRepairWork 2 (arrive SerializedCurrentState GapRepairWork 1 initial))).

Lemma busy_reachable : Reachable busy.
Proof. do 4 (eapply ReachableStep; [|constructor]). constructor. Qed.

Lemma gate_serializes_witness :
  map wt_task (w_started (completions 4 busy)) = [1; 3; 4; 2]%nat
  /\ w_running (completions 2 busy) = [{| wt_workClass := MainWork; wt_task := 4 |}]
  /\ toEnd busy = 4%nat /\ waiting (w_gate (completions 4 busy)) = [].
Proof.
  split; [reflexivity|].
  assert (mainBefore (waiting (w_gate busy)) {| wt_workClass := MainWork; wt_task := 4 |} 1) as Hm
    by (exists [{| wt_workClass := MainWork; wt_task := 3 |}], []; done).
  destruct (gate_serializes busy busy_reachable) as (_ & _ & _ & _ & _ & Hmain & Hend).
  split; [exact (Hmain 1%nat _ Hm)|]. split; [reflexivity|exact (proj1 (proj2 Hend))].
Defined.

Lemma parallel_ranges_are_history_witness :
  resolveBackfillExecutionMode [anchored 2 9] range67 = ParallelFactsOnly
  /\ resolveBackfillExecutionMode [anchored 1 5; anchored 2 9] range67 = SerializedCurrentState.
Proof.
  split.
  - assert (fromBlock range67 <= toBlock range67) as Hr by (vm_compute; discriminate).
    apply (proj1 (parallel_ranges_are_history 1 [anchored 2 9] range67 wholeRange BackfillMode (aq_data acquired67)
                    CurrentStateMaintenance [] Hr)).
    intros c [<-|[]]. exists 9. split; [reflexivity|vm_compute; discriminate].
  - reflexivity.
Defined.

End ExecutionGate.
