(* ===== verification/AutoSync.v ===== *)
(** * The automatic synchronisation

    [AutomaticSyncExecutor] (application/automatic-sync-executor.ts) with the acquisition
    of a range (application/sync-range-processing.ts): a pass continues the recovery of a
    reorganisation, or lets the scheduler look for missing history and acquires one batch
    of it.

    The world is the scheduler's ([GapScheduler]) with the fields of the executor and the
    provider: every [await] takes the next of [answers], which says what other processes
    did meanwhile, the time, and what the provider replies to a request.  Nothing constrains a reply;
    the facts of a range are a reply, whatever application/sync.ts decodes of its logs.
    An error is a text; [deferredFor] is the delay of those that are [RpcBudgetDeferred].
    Logs, the observer, the class of work the provider's quota is charged to, the watches
    of collection extensions and the promise [active] are left out.  The wait at the gate
    ([ExecutionGate]) is an await like the others. *)

From S2P Require Import Prelude JsValue OrderBy Chain Ledger SyncBlocks Jobs QueueOutbox SyncDb GapRepair GapScheduler Reorg FollowUps.
Import Chain Jobs SyncDb GapRepair FollowUps.

Open Scope Z_scope.

Module AutoSync.

Record AutomaticSyncOptions := {
  x_chainId : Z; x_batchSize : Z; x_reorgDepth : Z; x_retryDelayMs : Z; x_gapWorkEnabled : bool;
}.

(** What the constructor accepts. *)
Definition validPolicy (o : AutomaticSyncOptions) : bool :=
  isSafeInteger (x_batchSize o) && (1 <=? x_batchSize o) && isSafeInteger (x_reorgDepth o) && (1 <=? x_reorgDepth o)
  && isSafeInteger (x_retryDelayMs o) && (1 <=? x_retryDelayMs o).

(** [AUTOMATIC_SYNC_POLICY.PollMs] and [SYNC_GAP_POLICY.CollectionsPerPass] *)
Definition PollMs : Z := 12000.
Definition CollectionsPerPass : nat := 16.

Record Answer := {
  an_events : list GapScheduler.DbEvent;
  an_now : Z;
  an_head : result Z;
  an_data : Range -> result OnChainData;
  an_makers : Range -> result (list GlobalMakerTrigger);
  an_block : Z -> result SyncBlockHeader;
}.

Record World := {
  a_world : GapScheduler.World;
  a_discoveryHead : option (Z * Z);
  a_resumeHeadCheckPending : bool;
  a_asked : nat;
}.

Definition setWorld (g : GapScheduler.World) (w : World) : World := {|
  a_world := g; a_discoveryHead := a_discoveryHead w; a_resumeHeadCheckPending := a_resumeHeadCheckPending w;
  a_asked := a_asked w |}.
Definition setHead (h : option (Z * Z)) (w : World) : World := {|
  a_world := a_world w; a_discoveryHead := h; a_resumeHeadCheckPending := a_resumeHeadCheckPending w;
  a_asked := a_asked w |}.
Definition setResumePending (b : bool) (w : World) : World := {|
  a_world := a_world w; a_discoveryHead := a_discoveryHead w; a_resumeHeadCheckPending := b; a_asked := a_asked w |}.

Local Open Scope artgod_scope.

Section Executor.
Context (options : AutomaticSyncOptions) (schedulerOptions : GapScheduler.SyncGapSchedulerOptions).
Context (uuidText : nat -> string) (answers : nat -> Answer) (bidderIndexActive : nat -> bool).
Context (deferredFor : string -> option Z).

(** ** Calls *)

(** A method of the scheduler, or a call of a store. *)
Definition inner {A} (m : M GapScheduler.World A) : M World A := fun w =>
  let '(r, g) := m (a_world w) in (r, setWorld g w).

Definition query {A} (f : Db -> A) : M World A := inner (GapScheduler.query f).
Definition clock : M World Z := inner GapScheduler.clock.
Definition raise {A} (r : result A) : M World A := fun w => (r, w).

(** A transaction of a store, which may throw. *)
Definition store {A} (m : M Db A) : M World A :=
  let! r := inner (GapScheduler.call m) in raise r.

(** An [await] of the provider. *)
Definition rpc {A} (f : Answer -> result A) : M World A := fun w =>
  let answer := answers (a_asked w) in
  let g := a_world w in
  (f answer,
   {| a_world := {| GapScheduler.w_db := fold_left GapScheduler.applyEvent (an_events answer) (GapScheduler.w_db g);
                    GapScheduler.w_sched := GapScheduler.w_sched g;
                    GapScheduler.w_discoveryRevision := GapScheduler.w_discoveryRevision g;
                    GapScheduler.w_now := an_now answer; GapScheduler.w_uuids := GapScheduler.w_uuids g;
                    GapScheduler.w_env := GapScheduler.w_env g |};
      a_discoveryHead := a_discoveryHead w; a_resumeHeadCheckPending := a_resumeHeadCheckPending w;
      a_asked := S (a_asked w) |}).

(** [gate.run(mode, task, workClass)]: the task starts when its turn comes. *)
Definition gate {A} (task : M World A) : M World A := do! rpc (fun _ => Ok tt) in task.

(** ** Acquisition *)

Definition getBlock (number : Z) : M World SyncBlockHeader := rpc (fun answer => an_block answer number).

Definition appendMakers (makers : list GlobalMakerTrigger) (data : OnChainData) : OnChainData := {|
  transactions := transactions data; collectionScoped := collectionScoped data;
  global := {| cancelEvents := cancelEvents (global data);
               globalMakerTriggers := globalMakerTriggers (global data) ++ makers |} |}.

Definition appendWethMakerInfos (range : Range) (data : OnChainData) (collections : list CollectionRecord)
    (policy : BackfillOrderMaintenancePolicy) : M World OnChainData := fun w =>
  (if negb (shouldFetchWethMakerLogs policy range (bidderIndexActive (a_asked w))
              (hasAnyCurrentStateProjection collections range))
   then mret data
   else let! makers := rpc (fun answer => an_makers answer range) in mret (appendMakers makers data)) w.

Definition acquireSyncRange (collections : list CollectionRecord) (range : Range)
    (policy : BackfillOrderMaintenancePolicy) : M World Acquired :=
  let! checkpoint := query captureSyncCheckpoint in
  let! observedHeadBlock := rpc an_head in
  let! data := rpc (fun answer => an_data answer range) in
  let! data := appendWethMakerInfos range data collections policy in
  let! blocks := SyncBlocks.fetchCanonicalSyncBlocks getBlock (fromBlock range) (toBlock range) in
  mret {| aq_checkpoint := checkpoint;
          aq_canonicalCheck := {| observedHeadBlock := observedHeadBlock; reorgDepth := x_reorgDepth options |};
          aq_blocks := blocks; aq_data := data; aq_collections := collections |}.

(** The two transactions of [processSyncRange] after the follow-ups are built. *)
Definition commitRange (a : Acquired) (followUps : list SyncFollowUp) (completion : Reorg.SyncWorkCompletion)
    : M World unit :=
  let! outcome := inner (GapScheduler.call (fun d =>
    let '(r, d') := Reorg.commitSyncRange {|
      Reorg.c_result := resultOf a;
      Reorg.c_followUps := map (withJob (setWorkClass (workClassOf completion))) followUps;
      Reorg.c_completion := completion |} d in
    ((r, match r with Err e => storedBlockHashConflict e a d | Ok _ => None end), d'))) in
  match outcome with
  | (Ok _, _) => mret tt
  | (Err e, Some check) => do! store (retainCheck check) in mthrow e
  | (Err e, None) => mthrow e
  end.

Definition processSyncRange (collections : list CollectionRecord) (range : Range) (sources : list DomainSyncSource)
    (mode : DomainSyncMode) (policy : BackfillOrderMaintenancePolicy) (completion : Reorg.SyncWorkCompletion)
    : M World unit :=
  let! a := acquireSyncRange collections range policy in
  let! followUps := raise (buildSyncFollowUps (x_chainId options) collections range sources mode (aq_data a) policy) in
  commitRange a followUps completion.

(** [process] *)
Definition process (collections : list CollectionRecord) (range : Range) (sources : list DomainSyncSource)
    (completion : Reorg.SyncWorkCompletion) : M World unit :=
  processSyncRange collections range sources BackfillMode CurrentStateMaintenance completion.

Definition retryDelay (error : string) : Z :=
  match deferredFor error with Some retryAfterMs => retryAfterMs | None => x_retryDelayMs options end.

(** ** Repairs *)

Fixpoint admitRepairs (repairs : list SyncGapRepairTarget) : M World (list (SyncGapRepairTarget * CollectionRecord)) :=
  match repairs with
  | [] => mret []
  | repair :: rest =>
      let! collection := query (fun d => db_collections d !! g_collectionId repair) in
      match collection with
      | None => admitRepairs rest
      | Some c =>
          let! progress := query (getProgress (g_collectionId repair)) in
          let! admitted := admitRepairs rest in
          mret (if isCurrentSyncGapRepair (x_chainId options) repair (Some c) progress
                then (repair, c) :: admitted else admitted)
      end
  end.

Definition rangeText (r : Range) : string := (Z_toString (fromBlock r) ++ "-" ++ Z_toString (toBlock r))%string.

Definition repairSource (range : Range) (repair : SyncGapRepairTarget) : DomainSyncSource :=
  let id := (g_repairId repair ++ ":range:" ++ rangeText range)%string in
  {| src_fanoutId := id; src_sourceJobId := id; src_sourceKind := "sync.backfill.range";
     src_collectionId := Some (g_collectionId repair) |}.

Fixpoint deferAll (repairs : list SyncGapRepairTarget) (error : string) : M World unit :=
  match repairs with
  | [] => mret tt
  | repair :: rest =>
      let! now := clock in
      do! inner (GapScheduler.call (fun d => (tt, deferRetry repair (now + retryDelay error) d))) in
      deferAll rest error
  end.

Definition runGapRepair (planned : SyncGapRepairBatch) : M World bool :=
  let! admitted := admitRepairs (bt_repairs planned) in
  if (length admitted =? 0)%nat then mret false else
  let repairs := map fst admitted in
  let batch := {| bt_range := bt_range planned; bt_repairs := repairs |} in
  mcatch
    (let! now := clock in
     do! process (map snd admitted) (bt_range batch) (map (repairSource (bt_range batch)) repairs)
           (Reorg.CompleteGapRepair batch now) in
     mret true)
    (fun error => do! deferAll repairs error in mret false).

Definition isResync (recovery : option ReorgRecoveryState) : bool :=
  match recovery with Some (ReorgResync _ _ _) => true | _ => false end.

Definition runReorgResync : M World bool :=
  gate
    (let! current := query db_recovery in
     let! now := clock in
     match current with
     | Some (ReorgResync base range _) =>
         if now <? r_retryAt base then mret false else
         let! collections := query (resolveBackfillCollections None) in
         if (length collections =? 0)%nat then mret false else
         let resync := {| Reorg.rr_chainId := r_chainId base; Reorg.rr_recoveryId := r_recoveryId base;
                          Reorg.rr_revision := r_revision base; Reorg.rr_range := range |} in
         let id := ("sync:reorg:" ++ r_recoveryId base ++ ":" ++ rangeText range)%string in
         mcatch
           (let! now := clock in
            do! process collections range
                  [{| src_fanoutId := id; src_sourceJobId := id; src_sourceKind := "sync.backfill.range";
                      src_collectionId := None |}]
                  (Reorg.CompleteReorgResync resync (x_batchSize options) now) in
            mret true)
           (fun error =>
              let! now := clock in
              do! store (Reorg.deferResync resync (now + retryDelay error)) in
              mret false)
     | _ => mret false
     end).

(** ** A pass *)

Definition readHead : M World Z :=
  let! block := rpc an_head in
  let! now := clock in
  do! mmodify (setHead (Some (block, now))) in
  mret block.

Definition dueGaps (upperBound : Z) : M World (list SyncGapRepairTarget) :=
  let! now := clock in
  query (listDueRepairsAtNewestPendingHeight now CollectionsPerPass upperBound).

(** [pending.flatMap((repair) => gaps.reconcileRepairCoverage(...))] *)
Fixpoint reconcileAll (repairs : list SyncGapRepairTarget) : M World (list SyncGapRepairCandidate) :=
  match repairs with
  | [] => mret []
  | repair :: rest =>
      let! now := clock in
      let! candidate := inner (GapScheduler.call (reconcileRepairCoverage repair (x_batchSize options) now)) in
      let! candidates := reconcileAll rest in
      mret (match candidate with Some c => c :: candidates | None => candidates end)
  end.

(** Whether the known head is old or a collection is due at the head. *)
Definition needsFreshHead : M World bool := fun w =>
  match a_discoveryHead w with
  | None => (Ok true, w)
  | Some (_, readAt) =>
      (let! now := clock in
       if PollMs <=? now - readAt then mret true else inner (GapScheduler.headRechecksDue schedulerOptions)) w
  end.

Definition knownHead : M World Z := fun w =>
  match a_discoveryHead w with Some (block, _) => (Ok block, w) | None => (Err "TypeError", w) end.

(** The rest of a pass, once the scheduler has looked. *)
Definition repairNewest (upperBound : Z) (pending : list SyncGapRepairTarget) (moreToScan : bool) : M World bool :=
  let! candidates := reconcileAll pending in
  let! newest := dueGaps upperBound in
  let newestReady := (fun r => toBlock (g_range r)) <$> head newest in
  let! batches := raise (planSyncGapRepairBatches
    (List.filter (fun c => bool_decide (Some (toBlock (g_range (c_repair c))) = newestReady)) candidates)
    (x_batchSize options)) in
  match batches with
  | batch :: _ => runGapRepair batch
  | [] => mret ((0 <? length pending)%nat || moreToScan)
  end.

Definition recheckAndScan (upperBound : Z) (freshHead : bool) : M World bool :=
  do! inner (GapScheduler.recheckFromHead schedulerOptions uuidText upperBound) in
  let! more := inner (GapScheduler.recheckNewlyEligible schedulerOptions uuidText upperBound) in
  if more then mret true else
  let! moreToScan := inner (GapScheduler.scan schedulerOptions uuidText upperBound) in
  let! pending := dueGaps upperBound in
  match pending, freshHead with
  | _ :: _, false =>
      let! head := readHead in
      let upperBound := automaticGapUpperBound head (x_reorgDepth options) in
      do! inner (GapScheduler.recheckFromHead schedulerOptions uuidText upperBound) in
      let! more := inner (GapScheduler.recheckNewlyEligible schedulerOptions uuidText upperBound) in
      if more then mret true else
      let! pending := dueGaps upperBound in
      repairNewest upperBound pending moreToScan
  | _, _ => repairNewest upperBound pending moreToScan
  end.

(** The body of the gated task. *)
Definition runGapWork : M World bool :=
  let! recovery := query db_recovery in
  if isResync recovery then mret false else
  let! freshHead := needsFreshHead in
  let! head := (if freshHead then readHead else knownHead) in
  do! inner GapScheduler.beginPass in
  let upperBound := automaticGapUpperBound head (x_reorgDepth options) in
  if upperBound <? 1 then mret false else
  fun w =>
    (if a_resumeHeadCheckPending w
     then let! more := inner (GapScheduler.recheckOnResume schedulerOptions uuidText upperBound) in
          if more then mret true else
          do! mmodify (setResumePending false) in recheckAndScan upperBound freshHead
     else recheckAndScan upperBound freshHead) w.

Definition run : M World bool :=
  let! recovery := query db_recovery in
  match recovery with
  | Some (ReorgResync base _ _) =>
      let! now := clock in
      if now <? r_retryAt base then mret false else runReorgResync
  | _ =>
      if negb (x_gapWorkEnabled options) then mret false else
      let! any := inner GapScheduler.hasCollections in
      if negb any then mret false else gate runGapWork
  end.

(** One turn of [startAutomaticSyncLoop]: it logs what a pass throws and waits. *)
Definition loopTurn : M World bool :=
  let! busy := mcatch run (fun _ => mret false) in
  do! rpc (fun _ => Ok tt) in
  mret busy.

(** A new process. *)
Definition restart (w : World) : World := {|
  a_world := GapScheduler.restart (a_world w); a_discoveryHead := None; a_resumeHeadCheckPending := true;
  a_asked := a_asked w |}.

End Executor.

End AutoSync.
