(* ===== verification/AutoSyncProof.v ===== *)
(** * The automatic synchronisation keeps the scanner's claims

    What a pass does to the tables by itself - commits, deferrals, reconciled repairs -
    is to the scanner what another process does ([acts]); its calls of the scheduler keep
    the scheduler's invariant at the head the pass has read.  [AutoSyncClaims] takes this
    to every reachable state. *)

From S2P Require Import Prelude JsValue OrderBy Chain Ledger SyncBlocks Jobs QueueOutbox SyncDb SyncDbProof GapRepair GapRepairClaims GapScheduler GapSchedulerInv GapSchedulerProof GapSchedulerSteps GapSchedulerClaims Reorg ReorgProof ReorgClaims SyncCommitProof ResyncClaims ScannerEnv FollowUps FollowUpsClaims AutoSync.
Import Chain Jobs SyncDb SyncDbProof GapRepair ScannerEnv GapSchedulerInv GapSchedulerProof GapSchedulerSteps GapSchedulerClaims FollowUps FollowUpsClaims AutoSync.

Open Scope Z_scope.

Module AutoSyncProof.

Local Open Scope artgod_scope.

Definition dbOf (w : World) : Db := GapScheduler.w_db (a_world w).

(** Another process and the provider: the tables, the clock and what was asked. *)
Definition outside (w : World) (d : Db) (now : Z) (env : list GapScheduler.Turn) (asked : nat) : World := {|
  a_world := moved (a_world w) d now env; a_discoveryHead := a_discoveryHead w;
  a_resumeHeadCheckPending := a_resumeHeadCheckPending w; a_asked := asked |}.

(** A condition nothing outside can break. *)
Record Unbroken (J : World -> Prop) : Prop := {
  ub_rows : forall w, J w -> RowsOk (dbOf w);
  ub_outside : forall w d now env asked, J w -> EnvLe (dbOf w) d -> (a_asked w <= asked)%nat ->
    J (outside w d now env asked);
}.

(** A computation that does to the world no more than what is outside. *)
Definition acts {A} (m : M World A) : Prop := forall J, Unbroken J -> triple J J m (fun _ => J).

Lemma outside_id w : outside w (dbOf w) (GapScheduler.w_now (a_world w)) (GapScheduler.w_env (a_world w)) (a_asked w) = w.
Proof. by destruct w as [[] ]. Qed.

Lemma acts_ret {A} (a : A) : acts (mret a).
Proof. intros J _. by apply t_ret. Qed.

Lemma acts_raise {A} (r : result A) : acts (raise r).
Proof. intros J _ w Hw. unfold raise. by destruct r. Qed.

Lemma acts_bind {A B} (m : M World A) (f : A -> M World B) : acts m -> (forall a, acts (f a)) -> acts (mbind m f).
Proof. intros Hm Hf J HJ. eapply t_bind; [by apply Hm|intros a; by apply Hf]. Qed.

Lemma acts_catch {A} (m : M World A) h : acts m -> (forall e, acts (h e)) -> acts (mcatch m h).
Proof. intros Hm Hh J HJ. eapply t_catch; [by apply Hm|intros e; by apply Hh]. Qed.

Lemma acts_clock : acts clock.
Proof. intros J _ w Hw. unfold clock, inner, GapScheduler.clock. simpl. by destruct w. Qed.

(** A call whose effect is one the scanner allows. *)
Lemma acts_call {A} (f : Db -> A * Db) :
  (forall d, RowsOk d -> EnvLe d (f d).2) -> acts (inner (GapScheduler.call f)).
Proof.
  intros Hf J HJ w Hw. pose proof (ub_rows _ HJ w Hw) as HR. unfold inner, GapScheduler.call.
  assert (forall d now env, EnvLe (dbOf w) d -> J (setWorld (moved (a_world w) d now env) w)) as Hout.
  { intros d now env Hle. exact (ub_outside _ HJ w d now env (a_asked w) Hw Hle (le_n _)). }
  destruct (GapScheduler.w_env (a_world w)) as [|turn rest] eqn:Ee.
  - specialize (Hf (GapScheduler.w_db (a_world w)) HR). destruct (f _) as [a d]. simpl in *.
    specialize (Hout d (GapScheduler.w_now (a_world w)) [] Hf). unfold moved in Hout. unfold GapScheduler.setDb.
    by rewrite Ee.
  - cbv zeta. pose proof (applyEvents_le _ (GapScheduler.tn_events turn) HR) as Hle.
    destruct (GapScheduler.tn_throws turn); [by apply Hout|]. cbn [GapScheduler.w_db].
    specialize (Hf _ (EnvLe_rows _ _ Hle HR)). destruct (f _) as [a d]. simpl in *.
    apply (Hout d (GapScheduler.tn_now turn) rest). by eapply EnvLe_trans.
Qed.

Lemma acts_query {A} (f : Db -> A) : acts (query f).
Proof. apply acts_call. intros d _. apply EnvLe_refl. Qed.

Lemma acts_store {A} (m : M Db A) : (forall d, RowsOk d -> EnvLe d (m d).2) -> acts (store m).
Proof. intros Hm. unfold store. apply acts_bind; [by apply acts_call|intros r; apply acts_raise]. Qed.

Lemma acts_rpc answers {A} (f : Answer -> result A) : acts (rpc answers f).
Proof.
  intros J HJ w Hw. unfold rpc. pose proof (ub_rows _ HJ w Hw) as HR.
  assert (J (rpc answers f w).2) as H.
  { apply (ub_outside _ HJ w _ _ _ (S (a_asked w)) Hw); [|lia]. by apply applyEvents_le. }
  unfold rpc in H. simpl in H. by destruct (f _).
Qed.

(** ** The transactions of a pass *)

Lemma same_le d d' : sameView d d' -> EnvLe d d'.
Proof. intros H. exact (EnvLe_view d d d' (EnvLe_refl d) H). Qed.

Lemma commit_le input d : RowsOk d -> EnvLe d (Reorg.commitSyncRange input d).2.
Proof.
  intros HR. destruct (Reorg.commitSyncRange input d) as [[u|e] d'] eqn:E; simpl.
  - apply commit_events in E as [events HV]. eapply EnvLe_view; [|exact HV]. by apply applyEvents_le.
  - apply commitSyncRange_err in E as ->. apply EnvLe_refl.
Qed.

Lemma retainCheck_le check d : EnvLe d (retainCheck check d).2.
Proof.
  apply same_le. unfold retainCheck, writeTransaction, assertCheckChain, assertChainSyncCheckpoint, mbind, throwIf, mthrow,
    mret, updateBlock. repeat (break_match; simplify_eq/=); by split_and!.
Qed.

Lemma deferResync_le range retryAt d : EnvLe d (Reorg.deferResync range retryAt d).2.
Proof.
  apply same_le. unfold Reorg.deferResync, mmodify. simpl.
  repeat (break_match; simplify_eq/=); by split_and!.
Qed.

Section Proof.
Context (options : AutomaticSyncOptions) (schedulerOptions : GapScheduler.SyncGapSchedulerOptions).
Context (uuidText : nat -> string) (answers : nat -> Answer) (bidderIndexActive : nat -> bool).
Context (deferredFor : string -> option Z).
Context (Hpolicy : validPolicy options = true).
Context (Hopt : GapScheduler.validOptions schedulerOptions = true).

Lemma acts_gate {A} (m : M World A) : acts m -> acts (gate answers m).
Proof. intros Hm. unfold gate. apply acts_bind; [apply acts_rpc|intros u; exact Hm]. Qed.

Lemma acts_readBlocks n number : acts (SyncBlocks.readBlocks (getBlock answers) n number).
Proof.
  revert number. induction n as [|n IH]; intros number; cbn [SyncBlocks.readBlocks]; [apply acts_ret|].
  apply acts_bind; [apply acts_rpc|intros b]. apply acts_bind; [apply acts_raise|intros u].
  apply acts_bind; [apply IH|intros rest; apply acts_ret].
Qed.

Lemma acts_fetch from to : acts (SyncBlocks.fetchCanonicalSyncBlocks (getBlock answers) from to).
Proof.
  unfold SyncBlocks.fetchCanonicalSyncBlocks. apply acts_bind; [apply acts_readBlocks|intros bs].
  apply acts_bind; [apply acts_raise|intros u]. destruct (last bs); [|apply acts_ret].
  apply acts_bind; [apply acts_rpc|intros c]. apply acts_bind; [apply acts_raise|intros u']. apply acts_ret.
Qed.

End Proof.

(** Walks a computation that only acts. *)
Ltac acting :=
  repeat match goal with
  | |- acts (mret _) => apply acts_ret
  | |- acts (mthrow ?e) => apply (acts_raise (Err e))
  | |- acts (raise _) => apply acts_raise
  | |- acts (mbind _ _) => apply acts_bind; [|intros ?]
  | |- acts (mcatch _ _) => apply acts_catch; [|intros ?]
  | |- acts (query _) => apply acts_query
  | |- acts clock => apply acts_clock
  | |- acts (rpc _ _) => apply acts_rpc
  | |- acts (gate _ _) => apply acts_gate
  | |- acts (SyncBlocks.fetchCanonicalSyncBlocks _ _ _) => apply acts_fetch
  | |- acts (if ?b then _ else _) => destruct b
  | |- acts (match ?x with _ => _ end) => destruct x
  end.

Section Acts.
Context (options : AutomaticSyncOptions) (schedulerOptions : GapScheduler.SyncGapSchedulerOptions).
Context (uuidText : nat -> string) (answers : nat -> Answer) (bidderIndexActive : nat -> bool).
Context (deferredFor : string -> option Z).
Context (Hpolicy : validPolicy options = true).

Lemma acts_acquire collections range policy :
  acts (acquireSyncRange options answers bidderIndexActive collections range policy).
Proof.
  unfold acquireSyncRange. acting. intros J HJ w Hw. unfold appendWethMakerInfos.
  destruct (negb _); [exact Hw|]. revert w Hw. change (triple J J (let! makers := rpc answers (fun answer => an_makers answer range) in
    mret (appendMakers makers a1)) (fun _ => J)). revert J HJ.
  change (acts (let! makers := rpc answers (fun answer => an_makers answer range) in mret (appendMakers makers a1))). acting.
Qed.

Lemma acts_process collections range sources completion :
  acts (process options answers bidderIndexActive collections range sources completion).
Proof.
  unfold process, processSyncRange, commitRange. acting; [apply acts_acquire|apply acts_call|apply acts_store].
  - intros d HR. pose proof (commit_le {| Reorg.c_result := resultOf a;
      Reorg.c_followUps := map (withJob (setWorkClass (workClassOf completion))) a0; Reorg.c_completion := completion |} d HR)
      as H. by destruct (Reorg.commitSyncRange _ d).
  - intros d _. apply retainCheck_le.
Qed.

Lemma acts_admitRepairs repairs : acts (admitRepairs options repairs).
Proof. induction repairs as [|r rest IH]; cbn [admitRepairs]; acting; apply IH. Qed.

Lemma acts_deferAll repairs error : acts (deferAll options deferredFor repairs error).
Proof.
  induction repairs as [|r rest IH]; cbn [deferAll]; acting; [|apply IH].
  apply acts_call. intros d _. apply defer_le.
Qed.

Lemma acts_runGapRepair planned : acts (runGapRepair options answers bidderIndexActive deferredFor planned).
Proof. unfold runGapRepair. acting; [apply acts_admitRepairs|apply acts_process|apply acts_deferAll]. Qed.

Lemma acts_runReorgResync : acts (runReorgResync options answers bidderIndexActive deferredFor).
Proof.
  unfold runReorgResync. acting; [apply acts_process|apply acts_store].
  intros d _. apply deferResync_le.
Qed.

Lemma acts_reconcileAll repairs : acts (reconcileAll options repairs).
Proof.
  assert (1 <= x_batchSize options) as Hb by (unfold validPolicy in Hpolicy; zbool; done).
  induction repairs as [|r rest IH]; cbn [reconcileAll]; acting; [|apply IH].
  apply acts_call. intros d HR. apply reconcile_le; [done|]. intros p. apply HR.
Qed.

Lemma acts_repairNewest upperBound pending moreToScan :
  acts (repairNewest options answers bidderIndexActive deferredFor upperBound pending moreToScan).
Proof. unfold repairNewest, dueGaps. acting; [apply acts_reconcileAll|apply acts_runGapRepair]. Qed.

End Acts.

(** ** Heads *)

Lemma t_conseq_err {W A} (I I' P : W -> Prop) (m : M W A) Q :
  triple I P m Q -> (forall w, I w -> I' w) -> triple I' P m Q.
Proof. intros Hm HI w Hw. specialize (Hm w Hw). destruct (m w) as [[a|e] w']; auto. Qed.

Section Pass.
Context (options : AutomaticSyncOptions) (schedulerOptions : GapScheduler.SyncGapSchedulerOptions).
Context (uuidText : nat -> string) (answers : nat -> Answer) (bidderIndexActive : nat -> bool).
Context (deferredFor : string -> option Z).
Context (Hpolicy : validPolicy options = true).
Context (Hopt : GapScheduler.validOptions schedulerOptions = true).
(** The chain the provider follows does not get shorter. *)
Context (Hheads : forall i j b b', (i <= j)%nat -> an_head (answers i) = Ok b -> an_head (answers j) = Ok b' -> b <= b').

Definition bound (b : Z) : Z := automaticGapUpperBound b (x_reorgDepth options).

Lemma bound_mono b b' : b <= b' -> bound b <= bound b'.
Proof using. unfold bound, automaticGapUpperBound. lia. Qed.

(** No later head is below [b]. *)
Definition ahead (b : Z) (w : World) : Prop :=
  forall j b', (a_asked w <= j)%nat -> an_head (answers j) = Ok b' -> b <= b'.

Definition headIs (b : Z) (w : World) : Prop := forall b' t, a_discoveryHead w = Some (b', t) -> b' = b.

(** Inside a pass that works at the head [b] and at a revision. *)
Definition Working (revision b : Z) (w : World) : Prop :=
  Inv revision (Some (bound b)) (a_world w) /\ ahead b w /\ headIs b w.

(** Between the steps of a pass, and between passes: the scheduler's claims, and no cursor
    above a head still to come or the head last read. *)
Definition AInv (w : World) : Prop :=
  WInv (a_world w)
  /\ (forall j b, (a_asked w <= j)%nat -> an_head (answers j) = Ok b -> headAbove (bound b) (dbOf w))
  /\ (forall b t, a_discoveryHead w = Some (b, t) -> headAbove (bound b) (dbOf w) /\ ahead b w).

Lemma headAbove_env h d d' : EnvLe d d' -> headAbove h d -> headAbove h d'.
Proof using. exact (CursorsBelow_env (Some h) d d'). Qed.

Lemma headAbove_le h h' d : h <= h' -> headAbove h d -> headAbove h' d.
Proof using. intros Hh H id p c Hp Hc. specialize (H id p c Hp Hc). lia. Qed.

Lemma ahead_later b w w' : (a_asked w <= a_asked w')%nat -> ahead b w -> ahead b w'.
Proof using. intros Hle H j b' Hj. apply H. lia. Qed.

Lemma Unbroken_AInv : Unbroken AInv.
Proof using.
  split; [by intros w [[HR _] _]|]. intros w d now env asked (HW & Hf & Hd) Hle Ha.
  split; [by apply WInv_moved|]. split.
  - intros j b Hj Hb. apply (headAbove_env _ _ _ Hle). apply (Hf j); [simpl in Hj; lia|done].
  - intros b t Hb. destruct (Hd b t Hb) as [H1 H2]. split; [by apply (headAbove_env _ _ _ Hle)|].
    intros j b' Hj. apply H2. simpl in Hj. lia.
Qed.

Lemma Unbroken_Working revision b : Unbroken (Working revision b).
Proof using.
  split; [by intros w [(_ & _ & HR & _) _]|]. intros w d now env asked (HI & Ha & Hd) Hle Hle'.
  split; [by apply InvBut_stable|]. split; [|done]. intros j b' Hj. apply Ha. simpl in Hj. lia.
Qed.

Lemma Working_AInv revision b w : Working revision b w -> AInv w.
Proof using.
  intros (HI & Ha & Hd). assert (headAbove (bound b) (dbOf w)) as Hb by apply HI.
  split; [by apply (WInv_intro revision), (Inv_anyHead _ (bound b))|]. split.
  - intros j b' Hj Hb'. apply (headAbove_le (bound b)); [|done]. apply bound_mono. by eapply Ha.
  - intros b' t Hb'. by rewrite (Hd b' t Hb').
Qed.

(** ** The scheduler's methods *)

Lemma w_inner {A} revision b (m : M GapScheduler.World A) :
  Keeps revision (Some (bound b)) m -> triple (Working revision b) (Working revision b) (inner m) (fun _ => Working revision b).
Proof using.
  intros Hm w (HI & Ha & Hd). unfold inner. specialize (Hm _ HI). destruct (m (a_world w)) as [[a|e] g]; by split_and!.
Qed.

Lemma w_acts {A} revision b (m : M World A) : acts m -> triple AInv (Working revision b) m (fun _ => Working revision b).
Proof using.
  intros Hm. eapply t_conseq_err; [apply (Hm _ (Unbroken_Working revision b))|apply Working_AInv].
Qed.

Lemma w_keeps {A} revision b (m : M GapScheduler.World A) :
  Keeps revision (Some (bound b)) m -> triple AInv (Working revision b) (inner m) (fun _ => Working revision b).
Proof using. intros Hm. eapply t_conseq_err; [by apply w_inner|apply Working_AInv]. Qed.

Definition atHead (b : Z) (w : World) : Prop :=
  AInv w /\ headAbove (bound b) (dbOf w) /\ ahead b w /\ headIs b w.

(** Reading the head. *)
Lemma t_readHead : triple AInv AInv (readHead answers) atHead.
Proof using Hheads.
  unfold readHead.
  eapply (t_bind _ _ _ _ (fun b w => AInv w /\ headAbove (bound b) (dbOf w) /\ ahead b w)).
  { intros w Hw. pose proof (acts_rpc answers an_head AInv Unbroken_AInv w Hw) as H. unfold rpc in *.
    destruct (an_head (answers (a_asked w))) as [b|e] eqn:Eb; [|exact H]. split; [exact H|].
    destruct Hw as (HW & Hf & _). split.
    - unfold dbOf. simpl. eapply headAbove_env; [apply applyEvents_le, HW|]. by apply (Hf (a_asked w)).
    - intros j b' Hj Hb'. eapply (Hheads (a_asked w) j); [simpl in Hj; lia|done|done]. }
  intros b. eapply (t_bind _ _ _ _ (fun _ w => AInv w /\ headAbove (bound b) (dbOf w) /\ ahead b w)).
  { intros w Hw. unfold clock, inner, GapScheduler.clock. by destruct w. }
  intros now. eapply (t_bind _ _ _ _ (fun _ w => atHead b w)); [|intros u; by apply t_ret].
  intros w ((HW & Hf & _) & Hb & Ha). unfold mmodify.
  assert (forall b' t, Some (b, now) = Some (b', t) -> b' = b) as Hd by (by intros ? ? [= -> _]).
  split; [|split; [exact Hb|split; [exact Ha|exact Hd]]].
  split; [exact HW|]. split; [exact Hf|]. intros b' t H. rewrite (Hd b' t H). by split.
Qed.

Lemma w_readHead revision b : triple AInv (Working revision b) (readHead answers) (fun b' => Working revision b').
Proof using Hheads.
  unfold readHead.
  eapply (t_bind _ _ _ _ (fun b' w => Working revision b w /\ b <= b' /\ ahead b' w)).
  { intros w Hw. pose proof (acts_rpc answers an_head _ (Unbroken_Working revision b) w Hw) as H. unfold rpc in *.
    destruct (an_head (answers (a_asked w))) as [b'|e] eqn:Eb; [|by apply (Working_AInv revision b)].
    split; [exact H|]. destruct Hw as (_ & Ha & _). split; [by apply (Ha (a_asked w))|].
    intros j b'' Hj Hb'. eapply (Hheads (a_asked w) j); [simpl in Hj; lia|done|done]. }
  intros b'. eapply (t_bind _ _ _ _ (fun _ w => Working revision b w /\ b <= b' /\ ahead b' w)).
  { intros w Hw. unfold clock, inner, GapScheduler.clock. by destruct w. }
  intros now. eapply (t_bind _ _ _ _ (fun _ w => Working revision b' w)); [|intros u; by apply t_ret].
  intros w ((HI & _ & _) & Hle & Ha). split; [|split; [exact Ha|by intros ? ? [= -> _]]].
  simpl. destruct HI as (H1 & H2 & H3 & H4 & H5). split_and!; try done.
  exact (headAbove_le _ _ _ (bound_mono _ _ Hle) H4).
Qed.

(** The start of a pass. *)
Lemma t_beginPass b : triple AInv (atHead b) (inner GapScheduler.beginPass) (fun _ w => exists revision, Working revision b w).
Proof using.
  intros w ((HW & Hf & Hd) & Hb & Ha & Hi). unfold inner.
  pose proof (beginPass_WInv (a_world w) HW) as HW'. destruct (beginPass_db (a_world w) HW) as [Hle Hr].
  destruct (GapScheduler.beginPass (a_world w)) as [[u|e] g]; simpl in *.
  - specialize (Hr u eq_refl). destruct HW' as [HR HI]. destruct (GapScheduler.w_discoveryRevision g) as [r|] eqn:Er; [|done].
    exists r. split; [|by split]. simpl. apply Inv_headAbove; [done|]. by eapply headAbove_env.
  - split; [exact HW'|]. split.
    + intros j b' Hj Hb'. eapply headAbove_env; [exact Hle|]. by eapply Hf.
    + intros b' t Hb'. destruct (Hd b' t Hb') as [H1 H2]. split; [by eapply headAbove_env|done].
Qed.

Lemma bounds_self b : boundsHead (Some (bound b)) (bound b).
Proof using. unfold boundsHead. lia. Qed.

Lemma t_exists {A B} (I : World -> Prop) (P : B -> World -> Prop) (m : M World A) Q :
  (forall x, triple I (P x) m Q) -> triple I (fun w => exists x, P x w) m Q.
Proof using. intros H w [x Hw]. by apply (H x). Qed.

(** ** A pass *)

Lemma w_repairNewest revision b upperBound pending moreToScan :
  triple AInv (Working revision b)
    (repairNewest options answers bidderIndexActive deferredFor upperBound pending moreToScan) (fun _ => AInv).
Proof using Hpolicy.
  eapply t_conseq; [apply w_acts, acts_repairNewest; [exact Hpolicy]|done|intros a w; apply Working_AInv].
Qed.

Lemma w_recheckAndScan revision b (freshHead : bool) :
  triple AInv (Working revision b)
    (recheckAndScan options schedulerOptions uuidText answers bidderIndexActive deferredFor (bound b) freshHead)
    (fun _ => AInv).
Proof using Hpolicy Hopt Hheads.
  assert (forall A (a : A) r b', triple AInv (Working r b') (mret a) (fun _ => AInv)) as Hret
    by (intros; apply t_ret; intros w; apply Working_AInv).
  unfold recheckAndScan, dueGaps.
  eapply t_bind; [apply w_keeps, k_recheckFromHead; [exact Hopt|apply bounds_self]|intros u].
  eapply t_bind; [apply w_keeps, k_recheckNewlyEligible; [exact Hopt|apply bounds_self]|intros more].
  destruct more; [apply Hret|].
  eapply t_bind; [apply w_keeps, k_scan; exact Hopt|intros moreToScan].
  eapply t_bind; [apply w_acts; acting|intros pending].
  destruct pending as [|first rest]; [apply w_repairNewest|]. destruct freshHead; [apply w_repairNewest|].
  eapply t_bind; [apply w_readHead|intros b']. fold (bound b').
  eapply t_bind; [apply w_keeps, k_recheckFromHead; [exact Hopt|apply bounds_self]|intros u'].
  eapply t_bind; [apply w_keeps, k_recheckNewlyEligible; [exact Hopt|apply bounds_self]|intros more].
  destruct more; [apply Hret|].
  eapply t_bind; [apply w_acts; acting|intros pending]. apply w_repairNewest.
Qed.

Lemma t_knownHead (freshHead : bool) :
  triple AInv (fun w => AInv w) (if freshHead then readHead answers else knownHead) atHead.
Proof using Hheads.
  destruct freshHead; [apply t_readHead|]. intros w Hw. unfold knownHead.
  destruct (a_discoveryHead w) as [[b t]|] eqn:Ed; [|exact Hw]. split; [exact Hw|].
  destruct Hw as (_ & _ & Hd). destruct (Hd b t Ed) as [H1 H2]. split; [exact H1|]. split; [exact H2|].
  intros b' t' E. rewrite Ed in E. by injection E.
Qed.

Lemma t_runGapWork :
  triple AInv AInv (runGapWork options schedulerOptions uuidText answers bidderIndexActive deferredFor) (fun _ => AInv).
Proof using Hpolicy Hopt Hheads.
  unfold runGapWork. eapply t_bind; [apply acts_query, Unbroken_AInv|intros recovery].
  destruct (isResync recovery); [by apply t_ret|].
  eapply (t_bind _ _ _ _ (fun _ => AInv)).
  { intros w Hw. unfold needsFreshHead. destruct (a_discoveryHead w) as [[b t]|] eqn:Ed; [|exact Hw].
    revert w Hw Ed. intros w Hw _. revert w Hw.
    change (triple AInv AInv (let! now := clock in if PollMs <=? now - t then mret true
      else inner (GapScheduler.headRechecksDue schedulerOptions)) (fun _ => AInv)).
    eapply t_bind; [apply acts_clock, Unbroken_AInv|intros now]. destruct (_ <=? _); [by apply t_ret|].
    unfold GapScheduler.headRechecksDue.
    intros w Hw. exact (acts_query (hasHeadRechecksDue (GapScheduler.w_now (a_world w) - GapScheduler.headRecheckIntervalMs
      schedulerOptions)) AInv Unbroken_AInv w Hw). }
  intros freshHead. eapply t_bind; [apply t_knownHead|intros b].
  eapply t_bind; [apply t_beginPass|intros u]. fold (bound b). apply t_exists. intros revision.
  destruct (bound b <? 1); [apply t_ret; intros w; apply Working_AInv|].
  intros w Hw. destruct (a_resumeHeadCheckPending w); [|by apply (w_recheckAndScan revision b)].
  revert w Hw. change (triple AInv (Working revision b)
    (let! more := inner (GapScheduler.recheckOnResume schedulerOptions uuidText (bound b)) in
     if more then mret true else
     do! mmodify (setResumePending false) in
     recheckAndScan options schedulerOptions uuidText answers bidderIndexActive deferredFor (bound b) freshHead) (fun _ => AInv)).
  eapply t_bind; [apply w_keeps, k_recheckOnResume; [exact Hopt|apply bounds_self]|intros more].
  destruct more; [apply t_ret; intros w; apply Working_AInv|].
  eapply (t_bind _ _ _ _ (fun _ => Working revision b)); [by intros w Hw|intros u'; apply w_recheckAndScan].
Qed.

Lemma t_run :
  triple AInv AInv (run options schedulerOptions uuidText answers bidderIndexActive deferredFor) (fun _ => AInv).
Proof using Hpolicy Hopt Hheads.
  unfold run. eapply t_bind; [apply acts_query, Unbroken_AInv|intros recovery].
  assert (triple AInv AInv
    (if negb (x_gapWorkEnabled options) then mret false else
     let! any := inner GapScheduler.hasCollections in
     if negb any then mret false else
     gate answers (runGapWork options schedulerOptions uuidText answers bidderIndexActive deferredFor)) (fun _ => AInv)) as Hgap.
  { destruct (negb _); [by apply t_ret|]. eapply t_bind; [apply acts_query, Unbroken_AInv|intros any].
    destruct (negb any); [by apply t_ret|]. unfold gate. eapply t_bind; [apply acts_rpc, Unbroken_AInv|intros u].
    apply t_runGapWork. }
  destruct recovery as [[|base range target]|]; [exact Hgap| |exact Hgap].
  eapply t_bind; [apply acts_clock, Unbroken_AInv|intros now]. destruct (_ <? _); [by apply t_ret|].
  apply acts_runReorgResync, Unbroken_AInv.
Qed.

Lemma loopTurn_AInv w :
  AInv w -> AInv (loopTurn options schedulerOptions uuidText answers bidderIndexActive deferredFor w).2.
Proof using Hpolicy Hopt Hheads.
  intros Hw.
  assert (triple AInv AInv (loopTurn options schedulerOptions uuidText answers bidderIndexActive deferredFor) (fun _ => AInv)) as H.
  { unfold loopTurn. eapply t_bind; [eapply t_catch; [apply t_run|intros e; by apply t_ret]|intros busy].
    eapply t_bind; [apply acts_rpc, Unbroken_AInv|intros u; by apply t_ret]. }
  specialize (H w Hw). by destruct (loopTurn _ _ _ _ _ _ w) as [[|] ?].
Qed.

End Pass.

(** ** Heads that go back

    The provider may report a lower head than before.  All a pass needs for the
    scheduler's claims is that no head it works at is below a cursor of the search. *)

Section AnyHeads.
Context (options : AutomaticSyncOptions) (schedulerOptions : GapScheduler.SyncGapSchedulerOptions).
Context (uuidText : nat -> string) (answers : nat -> Answer) (bidderIndexActive : nat -> bool).
Context (deferredFor : string -> option Z).
Context (Hpolicy : validPolicy options = true).
Context (Hopt : GapScheduler.validOptions schedulerOptions = true).

(** No cursor is above the head last read or a head the pass may be told. *)
Definition headsAboveCursors (w : World) : Prop :=
  (forall j b, (a_asked w <= j)%nat -> an_head (answers j) = Ok b -> headAbove (bound options b) (dbOf w))
  /\ (forall b t, a_discoveryHead w = Some (b, t) -> headAbove (bound options b) (dbOf w)).

Definition Claims (w : World) : Prop := WInv (a_world w).

(** Before the pass has a head, and once it works at a revision. *)
Definition Starting (w : World) : Prop := Claims w /\ headsAboveCursors w.

Definition At (revision : Z) (top : option Z) (w : World) : Prop := Inv revision top (a_world w).

Lemma Unbroken_Claims : Unbroken Claims.
Proof using. split; [by intros w [HR _]|]. intros w d now env asked HW Hle _. by apply WInv_moved. Qed.

Lemma Unbroken_Starting : Unbroken Starting.
Proof using.
  split; [by intros w [[HR _] _]|]. intros w d now env asked (HW & Hf & Hd) Hle Ha.
  split; [by apply WInv_moved|]. split.
  - intros j b Hj Hb. apply (headAbove_env _ _ _ Hle). apply (Hf j); [simpl in Hj; lia|done].
  - intros b t Hb. apply (headAbove_env _ _ _ Hle). by apply (Hd b t).
Qed.

Lemma Unbroken_At revision top : Unbroken (At revision top).
Proof using.
  split; [by intros w (_ & _ & HR & _)|]. intros w d now env asked HI Hle _. by apply InvBut_stable.
Qed.

Lemma At_None revision top w : At revision top w -> At revision None w.
Proof using. destruct top as [h|]; [apply Inv_anyHead|done]. Qed.

Lemma At_Claims revision top w : At revision top w -> Claims w.
Proof using. intros H. by apply (WInv_intro revision), (At_None _ top). Qed.

Lemma at_acts {A} revision top (m : M World A) :
  acts m -> triple Claims (At revision top) m (fun _ => At revision top).
Proof using. intros Hm. eapply t_conseq_err; [apply (Hm _ (Unbroken_At revision top))|apply At_Claims]. Qed.

Lemma at_keeps {A} revision top (m : M GapScheduler.World A) :
  Keeps revision top m -> triple Claims (At revision top) (inner m) (fun _ => At revision top).
Proof using.
  intros Hm w HI. unfold inner. specialize (Hm _ HI).
  destruct (m (a_world w)) as [[a|e] g]; [exact Hm|by apply (At_Claims revision top)].
Qed.

Lemma at_ret {A} (a : A) revision top : triple Claims (At revision top) (mret a) (fun _ => Claims).
Proof using. apply t_ret. intros w. apply At_Claims. Qed.

Lemma at_repairNewest revision top upperBound pending moreToScan :
  triple Claims (At revision top)
    (repairNewest options answers bidderIndexActive deferredFor upperBound pending moreToScan) (fun _ => Claims).
Proof using Hpolicy.
  eapply t_conseq; [apply at_acts, acts_repairNewest; exact Hpolicy|done|intros a w; apply At_Claims].
Qed.

Lemma at_readHead revision top : triple Claims (At revision top) (readHead answers) (fun _ => At revision None).
Proof using.
  unfold readHead. eapply t_bind; [apply at_acts, acts_rpc|intros b].
  eapply t_bind; [apply at_acts, acts_clock|intros now].
  eapply (t_bind _ _ _ _ (fun _ => At revision None)); [|intros u; by apply t_ret].
  intros w Hw. exact (At_None _ _ _ Hw).
Qed.

(** The rechecks keep the claims at any head. *)
Lemma at_rechecks revision top upperBound {A} (k : M World A) (Q : A -> World -> Prop) (d : A) :
  boundsHead top upperBound ->
  (forall w, At revision top w -> Q d w) ->
  triple Claims (At revision top) k Q ->
  triple Claims (At revision top)
    (do! inner (GapScheduler.recheckFromHead schedulerOptions uuidText upperBound) in
     let! more := inner (GapScheduler.recheckNewlyEligible schedulerOptions uuidText upperBound) in
     if more then mret d else k) Q.
Proof using Hopt.
  intros Hb Hd Hk. eapply t_bind; [apply at_keeps, k_recheckFromHead; [exact Hopt|done]|intros u].
  eapply t_bind; [apply at_keeps, k_recheckNewlyEligible; [exact Hopt|done]|intros more].
  destruct more; [by apply t_ret|exact Hk].
Qed.

Lemma at_recheckAndScan revision b (freshHead : bool) :
  triple Claims (At revision (Some (bound options b)))
    (recheckAndScan options schedulerOptions uuidText answers bidderIndexActive deferredFor (bound options b) freshHead)
    (fun _ => Claims).
Proof using Hpolicy Hopt.
  unfold recheckAndScan, dueGaps. apply at_rechecks; [apply bounds_self|intros w; apply At_Claims|].
  eapply t_bind; [apply at_keeps, k_scan; exact Hopt|intros moreToScan].
  eapply t_bind; [apply at_acts; acting|intros pending].
  destruct pending as [|first rest]; [apply at_repairNewest|]. destruct freshHead; [apply at_repairNewest|].
  eapply t_bind; [apply at_readHead|intros b'].
  apply at_rechecks; [exact I|intros w; apply At_Claims|].
  eapply t_bind; [apply at_acts; acting|intros due]. apply at_repairNewest.
Qed.

(** The head a pass works at, read or known. *)
Lemma start_head (freshHead : bool) :
  triple Claims Starting (if freshHead then readHead answers else knownHead)
    (fun b w => Claims w /\ headAbove (bound options b) (dbOf w)).
Proof using.
  destruct freshHead.
  - unfold readHead. eapply (t_bind _ _ _ _ (fun b w => Claims w /\ headAbove (bound options b) (dbOf w))).
    { intros w Hw. pose proof (acts_rpc answers an_head _ Unbroken_Claims w (proj1 Hw)) as H. unfold rpc in *.
      destruct (an_head (answers (a_asked w))) as [b|e] eqn:Eb; [|exact H]. split; [exact H|].
      destruct Hw as (HW & Hf & _). unfold dbOf. simpl. eapply headAbove_env; [apply applyEvents_le, HW|].
      by apply (Hf (a_asked w)). }
    intros b. eapply (t_bind _ _ _ _ (fun _ w => Claims w /\ headAbove (bound options b) (dbOf w))).
    { intros w Hw. unfold clock, inner, GapScheduler.clock. by destruct w. }
    intros now. eapply (t_bind _ _ _ _ (fun _ w => Claims w /\ headAbove (bound options b) (dbOf w)));
      [by intros w Hw|intros u; by apply t_ret].
  - intros w (HW & _ & Hd). unfold knownHead. destruct (a_discoveryHead w) as [[b t]|] eqn:Ed; [|exact HW].
    split; [exact HW|by apply (Hd b t)].
Qed.

Lemma start_beginPass b :
  triple Claims (fun w => Claims w /\ headAbove (bound options b) (dbOf w)) (inner GapScheduler.beginPass)
    (fun _ w => exists revision, At revision (Some (bound options b)) w).
Proof using.
  intros w (HW & Hb). unfold inner.
  pose proof (beginPass_WInv (a_world w) HW) as HW'. destruct (beginPass_db (a_world w) HW) as [Hle Hr].
  destruct (GapScheduler.beginPass (a_world w)) as [[u|e] g]; simpl in *; [|exact HW'].
  specialize (Hr u eq_refl). destruct HW' as [HR HI]. destruct (GapScheduler.w_discoveryRevision g) as [r|] eqn:Er; [|done].
  exists r. apply Inv_headAbove; [exact HI|by eapply headAbove_env].
Qed.

Lemma start_needsFreshHead : triple Claims Starting (needsFreshHead schedulerOptions) (fun _ => Starting).
Proof using.
  intros w Hw. unfold needsFreshHead. destruct (a_discoveryHead w) as [[b t]|] eqn:Ed; [|exact Hw].
  revert w Hw Ed. intros w Hw _. revert w Hw.
  change (triple Claims Starting (let! now := clock in if PollMs <=? now - t then mret true
    else inner (GapScheduler.headRechecksDue schedulerOptions)) (fun _ => Starting)).
  eapply (t_conseq_err Starting); [|by intros w [HW _]].
  eapply t_bind; [apply acts_clock, Unbroken_Starting|intros now]. destruct (_ <=? _); [by apply t_ret|].
  unfold GapScheduler.headRechecksDue.
  intros w Hw. exact (acts_query (hasHeadRechecksDue (GapScheduler.w_now (a_world w) - GapScheduler.headRecheckIntervalMs
    schedulerOptions)) Starting Unbroken_Starting w Hw).
Qed.

Lemma start_acts {A} (m : M World A) : acts m -> triple Claims Starting m (fun _ => Starting).
Proof using. intros Hm. eapply t_conseq_err; [apply (Hm _ Unbroken_Starting)|by intros w [HW _]]. Qed.

Lemma start_ret {A} (a : A) : triple Claims Starting (mret a) (fun _ => Claims).
Proof using. apply t_ret. by intros w [HW _]. Qed.

Lemma start_runGapWork :
  triple Claims Starting (runGapWork options schedulerOptions uuidText answers bidderIndexActive deferredFor)
    (fun _ => Claims).
Proof using Hpolicy Hopt.
  unfold runGapWork. eapply t_bind; [apply start_acts, acts_query|intros recovery].
  destruct (isResync recovery); [apply start_ret|].
  eapply t_bind; [apply start_needsFreshHead|intros freshHead]. eapply t_bind; [apply start_head|intros b].
  eapply t_bind; [apply start_beginPass|intros u]. fold (bound options b). apply t_exists. intros revision.
  destruct (bound options b <? 1); [apply at_ret|].
  intros w Hw. destruct (a_resumeHeadCheckPending w); [|by apply (at_recheckAndScan revision b)].
  revert w Hw. change (triple Claims (At revision (Some (bound options b)))
    (let! more := inner (GapScheduler.recheckOnResume schedulerOptions uuidText (bound options b)) in
     if more then mret true else
     do! mmodify (setResumePending false) in
     recheckAndScan options schedulerOptions uuidText answers bidderIndexActive deferredFor (bound options b) freshHead)
    (fun _ => Claims)).
  eapply t_bind; [apply at_keeps, k_recheckOnResume; [exact Hopt|apply bounds_self]|intros more].
  destruct more; [apply at_ret|].
  eapply (t_bind _ _ _ _ (fun _ => At revision (Some (bound options b)))); [by intros w Hw|intros u'].
  apply at_recheckAndScan.
Qed.

Lemma start_run :
  triple Claims Starting (run options schedulerOptions uuidText answers bidderIndexActive deferredFor) (fun _ => Claims).
Proof using Hpolicy Hopt.
  unfold run. eapply t_bind; [apply start_acts, acts_query|intros recovery].
  assert (triple Claims Starting
    (if negb (x_gapWorkEnabled options) then mret false else
     let! any := inner GapScheduler.hasCollections in
     if negb any then mret false else
     gate answers (runGapWork options schedulerOptions uuidText answers bidderIndexActive deferredFor)) (fun _ => Claims)) as Hgap.
  { destruct (negb _); [apply start_ret|]. eapply t_bind; [apply start_acts, acts_query|intros any].
    destruct (negb any); [apply start_ret|]. unfold gate. eapply t_bind; [apply start_acts, acts_rpc|intros u].
    apply start_runGapWork. }
  destruct recovery as [[|base range target]|]; [exact Hgap| |exact Hgap].
  eapply t_bind; [apply start_acts, acts_clock|intros now]. destruct (_ <? _); [apply start_ret|].
  eapply t_conseq; [apply start_acts, acts_runReorgResync|done|by intros a w [HW _]].
Qed.

Lemma loopTurn_Claims w :
  Starting w -> Claims (loopTurn options schedulerOptions uuidText answers bidderIndexActive deferredFor w).2.
Proof using Hpolicy Hopt.
  intros Hw.
  assert (triple Claims Starting (loopTurn options schedulerOptions uuidText answers bidderIndexActive deferredFor)
            (fun _ => Claims)) as H.
  { unfold loopTurn. eapply t_bind; [eapply t_catch; [apply start_run|intros e; by apply t_ret]|intros busy].
    eapply t_bind; [apply acts_rpc, Unbroken_Claims|intros u; by apply t_ret]. }
  specialize (H w Hw). by destruct (loopTurn _ _ _ _ _ _ w) as [[|] ?].
Qed.

End AnyHeads.

End AutoSyncProof.

(** * The automatic synchronisation never forgets missing history

    Passes, restarts and other processes as a step relation.  Whatever the provider replies
    and whichever call throws, what the scheduler claims to have checked is covered, waits
    to be repaired, or lies below the cursor of the search, as long as no pass works at a
    head below a cursor. *)

Import AutoSyncProof.

Module AutoSyncClaims.

Section Steps.
Context (options : AutomaticSyncOptions) (schedulerOptions : GapScheduler.SyncGapSchedulerOptions).
Context (uuidText : nat -> string) (bidderIndexActive : nat -> bool) (deferredFor : string -> option Z).

(** The calls of the next pass meet these turns of other processes. *)
Definition meeting (env : list GapScheduler.Turn) (w : World) : World := setWorld (during env (a_world w)) w.

(** Other processes alone. *)
Definition meanwhile (events : list GapScheduler.DbEvent) (now : Z) (w : World) : World :=
  setWorld (elsewhere events now (a_world w)) w.

(** A pass gets answers of its own; its heads may be below those of earlier passes. *)
Inductive Step : World -> World -> Prop :=
  | StepPass env answers w :
      headsAboveCursors options answers w ->
      Step w (loopTurn options schedulerOptions uuidText answers bidderIndexActive deferredFor (meeting env w)).2
  | StepRestart w : Step w (AutoSync.restart w)
  | StepElsewhere events now w : Step w (meanwhile events now w).

(** A database without scan rows, and a new process. *)
Definition Initial (w : World) : Prop :=
  db_scans (dbOf w) = ∅ /\ GapScheduler.w_sched (a_world w) = GapScheduler.initSched
  /\ GapScheduler.w_discoveryRevision (a_world w) = None /\ a_discoveryHead w = None.

Inductive Reachable : World -> Prop :=
  | ReachableInitial w : Initial w -> Reachable w
  | ReachableStep w w' : Reachable w -> Step w w' -> Reachable w'.

(** The same under one sequence of answers, without a condition on the passes. *)
Inductive Following (answers : nat -> Answer) : World -> Prop :=
  | FollowingInitial w : Initial w -> Following answers w
  | FollowingPass env w : Following answers w ->
      Following answers (loopTurn options schedulerOptions uuidText answers bidderIndexActive deferredFor (meeting env w)).2
  | FollowingRestart w : Following answers w -> Following answers (AutoSync.restart w)
  | FollowingElsewhere events now w : Following answers w -> Following answers (meanwhile events now w).

(** The heads reported do not go back. *)
Definition steady (answers : nat -> Answer) : Prop :=
  forall i j b b', (i <= j)%nat -> an_head (answers i) = Ok b -> an_head (answers j) = Ok b' -> b <= b'.

Context (Hpolicy : validPolicy options = true).
Context (Hopt : GapScheduler.validOptions schedulerOptions = true).

Lemma Initial_Claims w : Initial w -> Claims w.
Proof using.
  intros (Hrow & Hs & Hd & _). split; [intros id p Hp; change (db_scans (dbOf w) !! id = Some p) in Hp; by rewrite Hrow in Hp|].
  by rewrite Hd, Hs.
Qed.

Lemma reachable_Claims w : Reachable w -> Claims w.
Proof using Hpolicy Hopt.
  induction 1 as [w Hw|w w' _ IH Hstep]; [by apply Initial_Claims|].
  destruct Hstep as [env answers w Hh|w|events now w].
  - apply loopTurn_Claims; [done..|].
    exact (ub_outside _ (Unbroken_Starting options answers) w (dbOf w) _ env (a_asked w) (conj IH Hh) (EnvLe_refl _) (le_n _)).
  - destruct IH as [HR _]. by split.
  - exact (ub_outside _ Unbroken_Claims w _ now _ (a_asked w) IH
             (applyEvents_le _ events (ub_rows _ Unbroken_Claims w IH)) (le_n _)).
Qed.

Lemma following_AInv answers w : steady answers -> Following answers w -> AInv options answers w.
Proof using Hpolicy Hopt.
  intros Hheads. induction 1 as [w Hw|env w _ IH|w _ IH|events now w _ IH].
  - split; [by apply Initial_Claims|]. destruct Hw as (Hrow & _ & _ & Hh). split.
    + intros j b _ _ id p c Hp. by rewrite Hrow in Hp.
    + intros b t. by rewrite Hh.
  - apply loopTurn_AInv; [done..|].
    exact (ub_outside _ (Unbroken_AInv options answers) w (dbOf w) _ env (a_asked w) IH (EnvLe_refl _) (le_n _)).
  - destruct IH as ([HR _] & Hf & _). split; [by split|]. by split.
  - exact (ub_outside _ (Unbroken_AInv options answers) w _ now _ (a_asked w) IH
             (applyEvents_le _ events (ub_rows _ (Unbroken_AInv options answers) w IH)) (le_n _)).
Qed.

Lemma following_reachable answers w : steady answers -> Following answers w -> Reachable w.
Proof using Hpolicy Hopt.
  intros Hheads. induction 1 as [w Hw|env w Hw IH|w _ IH|events now w _ IH]; [by apply ReachableInitial| | |].
  - eapply ReachableStep; [exact IH|]. apply StepPass. destruct (following_AInv _ _ Hheads Hw) as (_ & Hf & Hd).
    split; [exact Hf|]. intros b t Hb. by apply (Hd b t).
  - eapply ReachableStep; [exact IH|]. apply StepRestart.
  - eapply ReachableStep; [exact IH|]. apply StepElsewhere.
Qed.

End Steps.

(** C5: the automatic synchronisation never forgets missing history.  Let no pass work at a
    head below a cursor of the search; [GapSchedulerClaims.lagging_head_skips_blocks] shows
    what such a pass does.  Then after any passes and restarts, among any work of other
    processes, refused calls and replies, heads that go back included, every block a claim
    of the scheduler covers is stored, or below the cursor of the search, or in the range
    kept for repair, which starts right above the cursor; where the search has ended only
    the last is left.  The condition is met when the heads the provider reports do not go
    back: then every state the passes come to is one of these, and no cursor is above a
    head still to come. *)
Theorem automatic_sync_never_forgets options schedulerOptions uuidText bidderIndexActive deferredFor w :
  validPolicy options = true ->
  GapScheduler.validOptions schedulerOptions = true ->
  (Reachable options schedulerOptions uuidText bidderIndexActive deferredFor w ->
   GapScheduler.w_discoveryRevision (a_world w) = Some (db_revision (dbOf w)) ->
   forall id claim row,
     GapScheduler.eligibleChecked (GapScheduler.w_sched (a_world w)) !! id = Some claim ->
     db_scans (dbOf w) !! id = Some row ->
     anchorBlock row = GapScheduler.ck_anchorBlock claim ->
     (forall b, GapScheduler.ck_anchorBlock claim <= b <= GapScheduler.ck_upperBound claim ->
        b ∈ coverageOf (dbOf w) id
        \/ (exists c, cursorBlock row = Some c /\ b <= c)
        \/ (exists q, pending row = Some q /\ fromBlock (p_range q) <= b <= toBlock (p_range q)))
     /\ (forall q, pending row = Some q ->
           fromBlock (p_range q) = match cursorBlock row with Some c => c + 1 | None => anchorBlock row end)
     /\ (GapScheduler.completed (GapScheduler.w_sched (a_world w)) !! id = Some (anchorBlock row) ->
           cursorBlock row = None))
  /\ (forall answers, steady answers ->
        Following options schedulerOptions uuidText bidderIndexActive deferredFor answers w ->
        Reachable options schedulerOptions uuidText bidderIndexActive deferredFor w
        /\ (forall j head id row c, (a_asked w <= j)%nat -> an_head (answers j) = Ok head ->
              db_scans (dbOf w) !! id = Some row -> cursorBlock row = Some c ->
              c <= automaticGapUpperBound head (x_reorgDepth options))).
Proof.
  intros Hpolicy Hopt. split.
  - intros Hr Hd id claim row Hck Hp Ha.
    destruct (reachable_Claims _ _ _ _ _ Hpolicy Hopt w Hr) as [HR HI].
    change (GapScheduler.w_db (a_world w)) with (dbOf w) in *. rewrite Hd in HI.
    destruct HI as (_ & _ & _ & _ & Hall).
    destruct (Hall id ltac:(done)) as [Hc Hk]. specialize (Hc eq_refl claim row Hck Hp Ha). split_and!.
    + intros b Hb. destruct (Hc b ltac:(lia)) as [Hb'|[Hb'|Hb']]; [by left| |].
      * right; left. destruct (cursorBlock row) as [c|]; [by exists c|done].
      * right; right. destruct (pending row) as [q|]; [by exists q|done].
    + intros q Hq. destruct (HR id row Hp) as [_ Hok]. rewrite Hq in Hok. apply Hok.
    + intros Hdone. exact (Hk _ row Hdone Hp eq_refl).
  - intros answers Hheads Hf. split; [by apply (following_reachable _ _ _ _ _ Hpolicy Hopt answers)|].
    destruct (following_AInv _ _ _ _ _ Hpolicy Hopt _ w Hheads Hf) as (_ & Habove & _).
    intros j head id row c Hj Hh Hp Hc. exact (Habove j head Hj Hh id row c Hp Hc).
Qed.

(** ** A run *)

(** Block 9 of collection 1 is missing; the head is 12 and two blocks may still change. *)
Definition autoOptions : AutomaticSyncOptions :=
  {| x_chainId := 1; x_batchSize := 5; x_reorgDepth := 2; x_retryDelayMs := 300000; x_gapWorkEnabled := true |}.

Definition noData : OnChainData := {|
  transactions := [];
  collectionScoped := {|
    nftTransferEvents := []; nftApprovalEvents := []; nftBalanceDeltas := []; fillEvents := []; orderInfos := [];
    makerTriggers := []; metadataRefreshEvents := []; metadataRefreshRangeEvents := []; collectionExtensionEvents := [];
    collectionExtensionEventMedia := [] |};
  global := {| cancelEvents := []; globalMakerTriggers := [] |} |}.

Definition honestAnswer : Answer := {|
  an_events := []; an_now := 100; an_head := Ok 12; an_data := fun _ => Ok noData; an_makers := fun _ => Ok [];
  an_block := fun n => Ok {| h_number := n; h_hash := Z_toString n; h_parentHash := Z_toString (n - 1); h_timestamp := n |} |}.

Definition missing9World : World := {|
  a_world := {|
    GapScheduler.w_db := {|
      db_chainId := 1; db_collections := {[1 := ResyncClaims.collection1]}; db_revision := 0; db_blocks := ∅;
      db_coverage := {[1 := {[1; 2; 3; 4; 5; 6; 7; 8; 10]}]}; db_scans := ∅; db_recovery := None;
      db_ledger := Ledger.emptyLedger; db_outbox := QueueOutbox.emptyOutbox |};
    GapScheduler.w_sched := GapScheduler.initSched; GapScheduler.w_discoveryRevision := None;
    GapScheduler.w_now := 100; GapScheduler.w_uuids := 0; GapScheduler.w_env := [] |};
  a_discoveryHead := None; a_resumeHeadCheckPending := true; a_asked := 0 |}.

Definition headAnswer (head now : Z) (_ : nat) : Answer := {|
  an_events := []; an_now := now; an_head := Ok head; an_data := an_data honestAnswer;
  an_makers := an_makers honestAnswer; an_block := an_block honestAnswer |}.

Definition passAt (head now : Z) (w : World) : result bool * World :=
  loopTurn autoOptions scanOptions uuidOf (headAnswer head now) (fun _ => false) (fun _ => None) (meeting [] w).

Definition onePass : result bool * World := passAt 12 100 missing9World.

(** The head goes back to 11, which is above the cursor. *)
Definition laggingPass : result bool * World := passAt 11 1000000 (snd onePass).

Definition scanRow : SyncGapProgress :=
  {| anchorBlock := 1; cursorBlock := Some 3; pending := None; lastHeadCheckAt := Some 100 |}.

Lemma onePass_scans : db_scans (dbOf (snd onePass)) = {[1 := {| anchorBlock := 1; cursorBlock := Some 8; pending := None; lastHeadCheckAt := Some 100 |}]}.
Proof. vm_compute. reflexivity. Qed.

(** One pass more. *)
Lemma passAt_reachable head now w :
  headsAboveCursors autoOptions (headAnswer head now) w ->
  Reachable autoOptions scanOptions uuidOf (fun _ => false) (fun _ => None) w ->
  Reachable autoOptions scanOptions uuidOf (fun _ => false) (fun _ => None) (snd (passAt head now w)).
Proof. intros Hh Hr. eapply ReachableStep; [exact Hr|]. exact (StepPass _ _ _ _ _ [] (headAnswer head now) w Hh). Qed.

Lemma laggingPass_reachable : Reachable autoOptions scanOptions uuidOf (fun _ => false) (fun _ => None) (snd laggingPass).
Proof.
  apply passAt_reachable; [|apply passAt_reachable; [|by apply ReachableInitial]].
  - split.
    + intros j b _ [= <-] id p c. rewrite onePass_scans. intros [_ <-]%lookup_singleton_Some [= <-]. by vm_compute.
    + assert (a_discoveryHead (snd onePass) = Some (12, 100)) as -> by (vm_compute; reflexivity).
      intros b t [= <- _] id p c. rewrite onePass_scans. intros [_ <-]%lookup_singleton_Some [= <-]. by vm_compute.
  - split; [|done]. intros j b _ _ id p c Hp. by vm_compute in Hp.
Qed.

Lemma automatic_sync_never_forgets_witness :
  fst onePass = Ok true /\ fst laggingPass = Ok true
  /\ bool_decide (9 ∈ coverageOf (dbOf (snd onePass)) 1) = true
  /\ size (QueueOutbox.out_rows (db_outbox (dbOf (snd onePass)))) = 3%nat
  /\ a_discoveryHead (snd laggingPass) = Some (11, 1000000)
  /\ (forall b, 1 <= b <= 10 ->
        b ∈ coverageOf (dbOf (snd laggingPass)) 1 \/ (exists c, Some 3 = Some c /\ b <= c)
        \/ (exists q, None = Some q /\ fromBlock (p_range q) <= b <= toBlock (p_range q)))
  /\ Reachable autoOptions scanOptions uuidOf (fun _ => false) (fun _ => None) (snd onePass).
Proof.
  assert (steady (headAnswer 12 100)) as Hh by (intros i j b b' _ [= <-] [= <-]; apply Z.le_refl).
  split; [vm_compute; reflexivity|]. split; [vm_compute; reflexivity|]. split; [vm_compute; reflexivity|].
  split; [vm_compute; reflexivity|]. split; [vm_compute; reflexivity|]. split.
  - exact (proj1 (proj1 (automatic_sync_never_forgets autoOptions scanOptions uuidOf (fun _ => false) (fun _ => None)
                  (snd laggingPass) eq_refl eq_refl) laggingPass_reachable ltac:(vm_compute; reflexivity) 1
                  {| GapScheduler.ck_anchorBlock := 1; GapScheduler.ck_upperBound := 10 |} scanRow
                  ltac:(vm_compute; reflexivity) ltac:(vm_compute; reflexivity) eq_refl)).
  - refine (proj1 (proj2 (automatic_sync_never_forgets autoOptions scanOptions uuidOf (fun _ => false) (fun _ => None)
                  (snd onePass) eq_refl eq_refl) (headAnswer 12 100) Hh _)).
    apply FollowingPass, FollowingInitial. done.
Defined.

End AutoSyncClaims.
