(* ===== verification/PolicyWallet.v ===== *)
(** * The policy wallet

    [trading/src/adapters/opensea/open-sea-policy-wallet.ts]: the wallet the OpenSea
    SDK is given.  It signs one typed-data payload per authorized operation, an offer
    within the mandate or the cancellation of one order, and nothing else.  The file
    holds the checks of a payload; the sessions are in [PolicySessions].

    [getAddress] is viem's: the checksum form of an address, and a throw for a text that
    is none.  A payload is a value here: [structuredClone] and [deepFreeze] make it one,
    so the SDK cannot change what was checked; a payload that refers to itself is its
    unfolding as far as the checks read it.  Objects of other classes ([Map], [Date])
    have no fields of their own. *)

From S2P Require Import Prelude JsValue Domain Mandate.

Open Scope Z_scope.

Module PolicyWallet.

(** [OPENSEA_MAINNET_SECURITY_POLICY] *)
Definition policyChainId : Z := 1.
Definition seaportName : string := "Seaport".
Definition seaportVersion : string := "1.6".
Definition seaportAddress : string := "0x0000000000000068F116a894984e2DB1123eB395".
Definition signedZoneAddress : string := "0x000056f7000000ece9003ca63978907a00ffd100".
Definition policyConduitKey : string := "0x0000007b02230091a7ed01230072f7006a004d60a8d4e71d599b8104250f0000".
Definition policyWethAddress : string := "0xC02aaA39b223FE8D0A0e5C4F27eAD9083C756Cc2".
Definition zeroAddress : string := "0x0000000000000000000000000000000000000000".
Definition zeroBytes32 : string := "0x0000000000000000000000000000000000000000000000000000000000000000".

(** [SEAPORT_ITEM_TYPE] and [SEAPORT_ORDER_TYPE] *)
Definition Erc20 : Z := 1.
Definition Erc721 : Z := 2.
Definition Erc1155 : Z := 3.
Definition Erc721WithCriteria : Z := 4.
Definition Erc1155WithCriteria : Z := 5.
Definition PartialRestricted : Z := 3.

Definition Fields : Type := list (string * jsval).

(** A schema: the members of each struct, with their types. *)
Definition Schema : Type := list (string * list (string * string)).

Definition SEAPORT_ORDER_TYPES : Schema := [
  ("OrderComponents", [("offerer", "address"); ("zone", "address"); ("offer", "OfferItem[]");
     ("consideration", "ConsiderationItem[]"); ("orderType", "uint8"); ("startTime", "uint256");
     ("endTime", "uint256"); ("zoneHash", "bytes32"); ("salt", "uint256");
     ("conduitKey", "bytes32"); ("counter", "uint256")]);
  ("OfferItem", [("itemType", "uint8"); ("token", "address"); ("identifierOrCriteria", "uint256");
     ("startAmount", "uint256"); ("endAmount", "uint256")]);
  ("ConsiderationItem", [("itemType", "uint8"); ("token", "address"); ("identifierOrCriteria", "uint256");
     ("startAmount", "uint256"); ("endAmount", "uint256"); ("recipient", "address")])]%string.

Definition SEAPORT_ORDER_HASH_TYPES : Schema := [("OrderHash", [("orderHash", "bytes32")])]%string.

Definition SEAPORT_DOMAIN_FIELDS : list string := ["chainId"; "name"; "version"; "verifyingContract"]%string.

Record OpenSeaTypedDataInput := {
  domain : Fields;
  types : Fields;
  primaryType : string;
  message : Fields;
}.

Record OpenSeaOfferSigningAuthorization := {
  job : BidderJob;
  totalAmountWei : Z;
  expirationTime : jsnum;
}.

Record OfferSigningExpectation := {
  ex_collectionAddress : string;
  ex_tokenId : option Z;
  ex_quantity : Z;
  ex_requiresSignedZoneTrust : bool;
  ex_totalAmountWei : Z;
  ex_expirationTime : Z;
}.

(** The fields of [OpenSeaPolicyWallet] the checks read. *)
Record Wallet := {
  makerAddress : string;
  wethAddress : string;
  biddingMandate : Mandate.BiddingMandate;
}.

(** [throw new OpenSeaPolicyViolationError(message)] *)
Definition violation {A} (message : string) : result A :=
  Err (append "OpenSea wallet policy rejected request: " message).

(** ** Values the payload may hold *)

Definition requireRecord (value : jsval) (label : string) : result Fields :=
  match value with
  | VObj fields => Ok fields
  | _ => violation (append label " must be an object")
  end.

Definition requireArray (value : jsval) (label : string) : result (list jsval) :=
  match value with
  | VArr l => Ok l
  | _ => violation (append label " must be an array")
  end.

Definition requireString (value : jsval) (label : string) : result string :=
  match value with
  | VStr s => if truthy s then Ok s else violation (append label " must be a non-empty string")
  | _ => violation (append label " must be a non-empty string")
  end.

Definition hexDigit (c : ascii) : option Z :=
  let n := Z.of_N (N_of_ascii c) in
  if (48 <=? n) && (n <=? 57) then Some (n - 48)
  else if (97 <=? n) && (n <=? 102) then Some (n - 87)
  else if (65 <=? n) && (n <=? 70) then Some (n - 55)
  else None.

Fixpoint hexValue (acc : Z) (s : string) : option Z :=
  match s with
  | EmptyString => Some acc
  | String c s' => match hexDigit c with Some d => hexValue (16 * acc + d) s' | None => None end
  end.

(** The digits after [0x]. *)
Definition hexDigits (s : string) : option string :=
  match s with
  | String c0 (String c1 rest) => if Ascii.eqb c0 "0" && Ascii.eqb c1 "x" then Some rest else None
  | _ => None
  end.

(** [BigInt(value)] of a text with the pattern [0x] and hexadecimal digits, at least one. *)
Definition parseHex (s : string) : option Z :=
  match hexDigits s with
  | Some EmptyString | None => None
  | Some rest => hexValue 0 rest
  end.

(** The number [requireUint] reads. *)
Definition uintOf (value : jsval) : option Z :=
  let parsedValue :=
    match value with
    | VBigInt z => Some z
    | VNum (NInt z) => if isSafeIntegerNum (NInt z) && (0 <=? z) then Some z else None
    | VStr s => if NON_NEGATIVE_INTEGER_PATTERN s then parseDigits s else parseHex s
    | _ => None
    end in
  match parsedValue with
  | Some z => if (0 <=? z) && (z <=? Mandate.maxUint256) then Some z else None
  | None => None
  end.

Definition requireUint (value : jsval) (label : string) : result Z :=
  match uintOf value with
  | Some z => Ok z
  | None => violation (append label " must be an unsigned integer")
  end.

Definition isBytes32 (s : string) : bool :=
  match hexDigits s with
  | Some rest => match hexValue 0 rest with Some _ => (String.length rest =? 64)%nat | None => false end
  | None => false
  end.

Definition requireBytes32 (value : jsval) (label : string) : result string :=
  match value with
  | VStr s => if isBytes32 s then Ok s else violation (append label " must be a 32-byte hex value")
  | _ => violation (append label " must be a 32-byte hex value")
  end.

Definition assertUintEquals (value : jsval) (expected : Z) (label : string) : result unit :=
  try actual <- requireUint value label;
  if negb (actual =? expected) then
    violation (append label (append " must be " (append (Z_toString expected)
      (append "; received " (Z_toString actual)))))
  else Ok tt.

Definition assertOneOfUint (value : jsval) (expected : list Z) (label : string) : result unit :=
  try actual <- requireUint value label;
  if existsb (Z.eqb actual) expected then Ok tt
  else violation (append label (append " must be one of " (append (String.concat "," (map Z_toString expected))
    (append "; received " (Z_toString actual))))).

Definition assertStringEquals (value : jsval) (expected label : string) : result unit :=
  try actual <- requireString value label;
  if negb (String.eqb actual expected) then
    violation (append label (append " must be " (append expected (append "; received " actual))))
  else Ok tt.

Definition assertBytes32Equals (value : jsval) (expected label : string) : result unit :=
  try actual <- requireBytes32 value label;
  try wanted <- requireBytes32 (VStr expected) (append "expected " label);
  if negb (String.eqb (toLowerCase actual) (toLowerCase wanted)) then
    violation (append label (append " must be " (append (toLowerCase wanted)
      (append "; received " (toLowerCase actual)))))
  else Ok tt.

Definition assertConstantItemAmount (item : Fields) (expected : Z) (label : string) : result unit :=
  try _ <- assertUintEquals (obj_get "startAmount" item) expected (append label " start");
  assertUintEquals (obj_get "endAmount" item) expected (append label " end").

Definition normalizeTargetQuantity (value : jsnum) : result Z :=
  let refuse := violation "authorized target quantity must resolve to a safe integer" in
  match value with
  | NNaN | NInf false => refuse
  | NInf true => Ok 1
  | NInt _ | NFrac _ _ =>
      let quantity := Z.max 1 (floorNum value) in
      if isSafeIntegerNum (NInt quantity) then Ok quantity else refuse
  end.

(** ** The request *)

(** [structuredClone] copies everything but functions and symbols. *)
Fixpoint cloneable (v : jsval) : bool :=
  match v with
  | VFunction => false
  | VArr l => forallb cloneable l
  | VObj fields => forallb (fun '(_, x) => cloneable x) fields
  | _ => true
  end.

Definition snapshotRecord (value : jsval) (label : string) : result Fields :=
  if cloneable value then requireRecord value label
  else violation (append label " could not be copied into trusted memory").

Definition normalizeTypedDataInput (input : jsval) : result OpenSeaTypedDataInput :=
  try record <- requireRecord input "typed-data request";
  try domain <- snapshotRecord (obj_get "domain" record) "typed-data domain";
  try types <- snapshotRecord (obj_get "types" record) "typed-data types";
  try primaryType <- requireString (obj_get "primaryType" record) "typed-data primary type";
  try message <- snapshotRecord (obj_get "message" record) "typed-data message";
  Ok {| domain := domain; types := types; primaryType := primaryType; message := message |}.

(** [JSON.stringify(Object.keys(value).sort()) === JSON.stringify([...expected].sort())];
    the text of a list of strings determines the list. *)
Definition sameKeys (value : Fields) (expected : list string) : bool :=
  bool_decide (sortTexts (map fst value) = sortTexts expected).

Definition assertExactRecordFields (value : Fields) (expectedFields : list string) (label : string) : result unit :=
  if sameKeys value expectedFields then Ok tt
  else violation (append label (append " fields differ; received "
         (String.concat "," (sortTexts (map fst value))))).

Definition schemaField (field : jsval) (label : string) : result (string * string) :=
  try record <- requireRecord field label;
  try name <- requireString (obj_get "name" record) "typed-data field name";
  try type <- requireString (obj_get "type" record) "typed-data field type";
  Ok (name, type).

Definition assertSchema (actual : Fields) (name : string) (expected : list (string * string)) : result unit :=
  try fields <- requireArray (obj_get name actual) (append "typed-data schema " name);
  try normalizedFields <-
    result_map (fun '(index, field) =>
        schemaField field (append "typed-data schema " (append name
          (append " field " (N_toString (N.of_nat index))))))
      (combine (seq 0 (length fields)) fields);
  if bool_decide (normalizedFields = expected) then Ok tt
  else violation (append "typed-data schema " (append name " does not match the pinned Seaport schema")).

(** The loop over the sorted names of the schema. *)
Fixpoint assertSchemas (actual : Fields) (expected : Schema) (names : list string) : result unit :=
  match names with
  | [] => Ok tt
  | name :: names' =>
      try _ <- assertSchema actual name (default [] (jm_get name expected));
      assertSchemas actual expected names'
  end.

Definition assertTypedDataTypes (actual : Fields) (expected : Schema) : result unit :=
  if sameKeys actual (map fst expected) then
    assertSchemas actual expected (sortTexts (map fst expected))
  else violation (append "typed-data schemas differ; received "
         (String.concat "," (sortTexts (map fst actual)))).

Definition assertPrimaryType (actual expected : string) : result unit :=
  if negb (String.eqb actual expected) then
    violation (append "typed-data primary type must be " (append expected (append "; received " actual)))
  else Ok tt.

(** ** What depends on addresses *)

Section Addresses.
Context (getAddress : string -> option string).

Definition normalizeAddress (value label : string) : result string :=
  match getAddress value with
  | Some address => Ok address
  | None => violation (append label " must be a valid EVM address")
  end.

Definition assertAddressEquals (value expected label : string) : result unit :=
  try actualAddress <- normalizeAddress value label;
  try expectedAddress <- normalizeAddress expected (append "expected " label);
  if negb (String.eqb actualAddress expectedAddress) then
    violation (append label (append " must be " (append expectedAddress (append "; received " actualAddress))))
  else Ok tt.

(** [assertAddressEquals(requireString(value, label), expected, label)] *)
Definition assertAddressField (value : jsval) (expected label : string) : result unit :=
  try text <- requireString value label;
  assertAddressEquals text expected label.

(** The constructor of [OpenSeaPolicyWallet]. *)
Definition createWallet (signerAddress configuredWeth : string) (mandate : Mandate.BiddingMandate) : result Wallet :=
  try maker <- normalizeAddress signerAddress "typed-data signer";
  try weth <- normalizeAddress configuredWeth "configured WETH address";
  try _ <- assertAddressEquals weth policyWethAddress "configured WETH address";
  Ok {| makerAddress := maker; wethAddress := weth; biddingMandate := mandate |}.

Definition createOfferSigningExpectation (w : Wallet) (authorization : OpenSeaOfferSigningAuthorization)
    : result OfferSigningExpectation :=
  let mandate := biddingMandate w in
  let policy := Mandate.startPolicy mandate in
  let amount := totalAmountWei authorization in
  match Mandate.assertOfferAuthorized mandate (job authorization) amount with
  | Err e => violation (append "native bidding mandate rejected offer: " e)
  | Ok _ =>
      if amount <=? 0 then violation "offer amount must be positive"
      else if Mandate.wethAllowanceCapWei policy <? amount then
        violation (append "offer amount " (append (Z_toString amount)
          (append " exceeds authorized WETH allowance cap " (Z_toString (Mandate.wethAllowanceCapWei policy)))))
      else
        match expirationTime authorization with
        | NInt expiration =>
            if negb (isSafeIntegerNum (NInt expiration)) || (expiration <=? 0) then
              violation "offer expiration must be a positive safe integer"
            else
              try collection <- normalizeAddress (collectionAddress (job authorization)) "offer collection address";
              let requiresSignedZoneTrust :=
                bidderTargetRequiresOpenSeaSignedZoneTrust (target (job authorization)) in
              if requiresSignedZoneTrust && negb (Mandate.trustOpenSeaSignedZoneTraitOffers policy) then
                violation "trait offer requires explicit OpenSea SignedZone trust"
              else
                try tokenId <-
                  match target (job authorization) with
                  | TokenTarget tokenId => try id <- requireUint (VStr tokenId) "authorized token id"; Ok (Some id)
                  | _ => Ok None
                  end;
                try quantity <-
                  match target (job authorization) with
                  | TokenTarget _ => Ok 1
                  | CollectionTarget quantity _ | CompetitiveTraitTarget quantity _ _ =>
                      normalizeTargetQuantity quantity
                  end;
                Ok {| ex_collectionAddress := collection; ex_tokenId := tokenId; ex_quantity := quantity;
                      ex_requiresSignedZoneTrust := requiresSignedZoneTrust;
                      ex_totalAmountWei := amount; ex_expirationTime := expiration |}
        | _ => violation "offer expiration must be a positive safe integer"
        end
  end.

Definition assertSeaportDomain (domain : Fields) (expectedVerifyingContract : string) : result unit :=
  try _ <- assertExactRecordFields domain SEAPORT_DOMAIN_FIELDS "EIP-712 domain";
  try _ <- assertUintEquals (obj_get "chainId" domain) policyChainId "EIP-712 chain id";
  try _ <- assertStringEquals (obj_get "name" domain) seaportName "EIP-712 domain name";
  try _ <- assertStringEquals (obj_get "version" domain) seaportVersion "EIP-712 domain version";
  assertAddressField (obj_get "verifyingContract" domain) expectedVerifyingContract "EIP-712 verifying contract".

Definition assertOfferItems (w : Wallet) (value : jsval) (totalAmountWei : Z) : result unit :=
  try items <- requireArray value "order offer";
  match items with
  | [first] =>
      try item <- requireRecord first "WETH offer item";
      try _ <- assertUintEquals (obj_get "itemType" item) Erc20 "WETH offer item type";
      try _ <- assertAddressField (obj_get "token" item) (wethAddress w) "WETH offer token";
      try _ <- assertUintEquals (obj_get "identifierOrCriteria" item) 0 "WETH offer identifier";
      try _ <- assertUintEquals (obj_get "startAmount" item) totalAmountWei "WETH offer start amount";
      assertUintEquals (obj_get "endAmount" item) totalAmountWei "WETH offer end amount"
  | _ => violation (append "order must contain exactly one WETH offer item; received "
                     (N_toString (N.of_nat (length items))))
  end.

Definition assertTargetNftItem (w : Wallet) (item : Fields) (expectation : OfferSigningExpectation) : result unit :=
  try _ <- assertAddressField (obj_get "recipient" item) (makerAddress w) "target NFT recipient";
  match ex_tokenId expectation with
  | Some tokenId =>
      try _ <- assertOneOfUint (obj_get "itemType" item) [Erc721; Erc1155] "target NFT item type";
      try _ <- assertUintEquals (obj_get "identifierOrCriteria" item) tokenId "target token id";
      assertConstantItemAmount item 1 "target token amount"
  | None =>
      try _ <- assertOneOfUint (obj_get "itemType" item) [Erc721WithCriteria; Erc1155WithCriteria]
                 "target NFT criteria item type";
      try _ <- if negb (ex_requiresSignedZoneTrust expectation)
               then assertUintEquals (obj_get "identifierOrCriteria" item) 0 "collection-wide criteria root"
               else (try _ <- requireUint (obj_get "identifierOrCriteria" item) "trait criteria root"; Ok tt);
      assertConstantItemAmount item (ex_quantity expectation) "target NFT quantity"
  end.

Definition assertWethFeeItem (w : Wallet) (item : Fields) : result Z :=
  try _ <- assertUintEquals (obj_get "itemType" item) Erc20 "fee item type";
  try _ <- assertAddressField (obj_get "token" item) (wethAddress w) "fee token";
  try _ <- assertUintEquals (obj_get "identifierOrCriteria" item) 0 "fee identifier";
  try text <- requireString (obj_get "recipient" item) "fee recipient";
  try recipient <- normalizeAddress text "fee recipient";
  try zero <- normalizeAddress zeroAddress "zero address";
  if String.eqb recipient zero then violation "fee recipient must not be the zero address"
  else
    try amount <- requireUint (obj_get "startAmount" item) "fee start amount";
    try _ <- assertUintEquals (obj_get "endAmount" item) amount "fee end amount";
    Ok amount.

(** [items.filter(...)]: the items of the collection.  Each item is with its position,
    which stands for its identity: an object that occurs twice is two of the items. *)
Fixpoint targetNftItems (collection : string) (items : list (nat * Fields)) : result (list (nat * Fields)) :=
  match items with
  | [] => Ok []
  | (position, item) :: items' =>
      try text <- requireString (obj_get "token" item) "consideration token";
      try token <- normalizeAddress text "consideration token";
      try rest <- targetNftItems collection items';
      Ok (if String.eqb token collection then (position, item) :: rest else rest)
  end.

(** The loop that adds up the fees. *)
Fixpoint sumFees (w : Wallet) (nft : nat) (items : list (nat * Fields)) (feeTotalWei : Z) : result Z :=
  match items with
  | [] => Ok feeTotalWei
  | (position, item) :: items' =>
      if (position =? nft)%nat then sumFees w nft items' feeTotalWei
      else try fee <- assertWethFeeItem w item;
           sumFees w nft items' (feeTotalWei + fee)
  end.

Definition assertConsiderationItems (w : Wallet) (value : jsval) (expectation : OfferSigningExpectation) : result unit :=
  try entries <- requireArray value "order consideration";
  try items <- result_map (fun '(index, item) =>
                   try fields <- requireRecord item (append "order consideration item " (N_toString (N.of_nat index)));
                   Ok (index, fields))
                 (combine (seq 0 (length entries)) entries);
  try nftItems <- targetNftItems (ex_collectionAddress expectation) items;
  match nftItems with
  | [(position, item)] =>
      try _ <- assertTargetNftItem w item expectation;
      try feeTotalWei <- sumFees w position items 0;
      if ex_totalAmountWei expectation <? feeTotalWei then
        violation (append "order fee allocations " (append (Z_toString feeTotalWei)
          (append " exceed offer amount " (Z_toString (ex_totalAmountWei expectation)))))
      else Ok tt
  | _ => violation (append "order must contain exactly one target NFT item; received "
                     (N_toString (N.of_nat (length nftItems))))
  end.

Definition assertOfferTypedData (w : Wallet) (typedData : OpenSeaTypedDataInput)
    (expectation : OfferSigningExpectation) : result unit :=
  let order := message typedData in
  try _ <- assertSeaportDomain (domain typedData) seaportAddress;
  try _ <- assertPrimaryType (primaryType typedData) "OrderComponents";
  try _ <- assertTypedDataTypes (types typedData) SEAPORT_ORDER_TYPES;
  try _ <- assertAddressField (obj_get "offerer" order) (makerAddress w) "order offerer";
  try _ <- assertAddressField (obj_get "zone" order) signedZoneAddress "order zone";
  try _ <- assertBytes32Equals (obj_get "zoneHash" order) zeroBytes32 "order zone hash";
  try _ <- assertBytes32Equals (obj_get "conduitKey" order) policyConduitKey "order conduit key";
  try _ <- assertUintEquals (obj_get "orderType" order) PartialRestricted "order type";
  try startTime <- requireUint (obj_get "startTime" order) "order start time";
  try endTime <- requireUint (obj_get "endTime" order) "order end time";
  try _ <- assertUintEquals (VBigInt endTime) (ex_expirationTime expectation) "order expiration";
  if endTime <? startTime then violation "order start time exceeds expiration"
  else
    try _ <- requireUint (obj_get "salt" order) "order salt";
    try _ <- requireUint (obj_get "counter" order) "order counter";
    try _ <- assertOfferItems w (obj_get "offer" order) (ex_totalAmountWei expectation);
    try _ <- assertConsiderationItems w (obj_get "consideration" order) expectation;
    match obj_get "totalOriginalConsiderationItems" order with
    | VUndef => Ok tt
    | total =>
        try entries <- requireArray (obj_get "consideration" order) "order consideration";
        assertUintEquals total (Z.of_nat (length entries)) "total original consideration item count"
    end.

Definition assertCancellationTypedData (typedData : OpenSeaTypedDataInput) (protocolAddress orderHash : string)
    : result unit :=
  try _ <- assertSeaportDomain (domain typedData) protocolAddress;
  try _ <- assertPrimaryType (primaryType typedData) "OrderHash";
  try _ <- assertTypedDataTypes (types typedData) SEAPORT_ORDER_HASH_TYPES;
  assertBytes32Equals (obj_get "orderHash" (message typedData)) orderHash "cancellation order hash".

End Addresses.

End PolicyWallet.
