(* ===== verification/PolicyWalletSpec.v ===== *)
(** * The policy wallet: which orders it may sign

    A payload read as a Seaport order ([readOrder]), the orders an authorization allows
    ([orderAllowed]), and that the checks of [PolicyWallet] accept exactly the payloads
    that are such orders. *)

From S2P Require Import Prelude JsValue Domain Mandate PolicyWallet.

Open Scope Z_scope.

Module PolicyWalletSpec.
Import PolicyWallet.

(** ** Orders *)

Record SeaportItem := {
  si_itemType : Z;
  si_token : string;
  si_identifier : Z;
  si_startAmount : Z;
  si_endAmount : Z;
}.

Record ConsiderationItem := { ci_item : SeaportItem; ci_recipient : string }.

Record SeaportOrder := {
  so_offerer : string;
  so_zone : string;
  so_offer : list SeaportItem;
  so_consideration : list ConsiderationItem;
  so_orderType : Z;
  so_startTime : Z;
  so_endTime : Z;
  so_zoneHash : string;
  so_salt : Z;
  so_conduitKey : string;
  so_counter : Z;
}.

Definition fieldsOf (v : jsval) : option Fields :=
  match v with VObj fields => Some fields | _ => None end.

Definition recordsOf (v : jsval) : option (list Fields) :=
  match v with VArr l => mapM fieldsOf l | _ => None end.

Definition textOf (v : jsval) : option string :=
  match v with VStr s => if truthy s then Some s else None | _ => None end.

Definition bytes32Of (v : jsval) : option string :=
  match v with VStr s => if isBytes32 s then Some (toLowerCase s) else None | _ => None end.

(** The struct members of a schema entry. *)
Definition memberOf (v : jsval) : option (string * string) :=
  match fieldsOf v with
  | Some f => match textOf (obj_get "name" f), textOf (obj_get "type" f) with
              | Some n, Some t => Some (n, t)
              | _, _ => None
              end
  | None => None
  end.

Definition membersOf (v : jsval) : option (list (string * string)) :=
  match v with VArr l => mapM memberOf l | _ => None end.

(** The schema of a payload is [expected], whatever the order of its entries. *)
Definition schemaIs (types : Fields) (expected : Schema) : Prop :=
  map fst types ≡ₚ map fst expected
  /\ forall name members, jm_get name expected = Some members ->
       membersOf (obj_get name types) = Some members.

Section Spec.
Context (getAddress : string -> option string).

Definition addressOf (v : jsval) : option string := textOf v ≫= getAddress.

Definition readItem (f : Fields) : option SeaportItem :=
  uintOf (obj_get "itemType" f) ≫= fun itemType =>
  addressOf (obj_get "token" f) ≫= fun token =>
  uintOf (obj_get "identifierOrCriteria" f) ≫= fun identifier =>
  uintOf (obj_get "startAmount" f) ≫= fun startAmount =>
  uintOf (obj_get "endAmount" f) ≫= fun endAmount =>
  Some {| si_itemType := itemType; si_token := token; si_identifier := identifier;
          si_startAmount := startAmount; si_endAmount := endAmount |}.

Definition readConsideration (f : Fields) : option ConsiderationItem :=
  readItem f ≫= fun item =>
  addressOf (obj_get "recipient" f) ≫= fun recipient =>
  Some {| ci_item := item; ci_recipient := recipient |}.

Definition readOrder (order : Fields) : option SeaportOrder :=
  addressOf (obj_get "offerer" order) ≫= fun offerer =>
  addressOf (obj_get "zone" order) ≫= fun zone =>
  recordsOf (obj_get "offer" order) ≫= fun offer =>
  mapM readItem offer ≫= fun offer =>
  recordsOf (obj_get "consideration" order) ≫= fun consideration =>
  mapM readConsideration consideration ≫= fun consideration =>
  uintOf (obj_get "orderType" order) ≫= fun orderType =>
  uintOf (obj_get "startTime" order) ≫= fun startTime =>
  uintOf (obj_get "endTime" order) ≫= fun endTime =>
  bytes32Of (obj_get "zoneHash" order) ≫= fun zoneHash =>
  uintOf (obj_get "salt" order) ≫= fun salt =>
  bytes32Of (obj_get "conduitKey" order) ≫= fun conduitKey =>
  uintOf (obj_get "counter" order) ≫= fun counter =>
  Some {| so_offerer := offerer; so_zone := zone; so_offer := offer; so_consideration := consideration;
          so_orderType := orderType; so_startTime := startTime; so_endTime := endTime;
          so_zoneHash := zoneHash; so_salt := salt; so_conduitKey := conduitKey; so_counter := counter |}.

(** ** The orders an expectation allows *)

(** The asset bought: the token, or any of the collection. *)
Definition targetItem (w : Wallet) (ex : OfferSigningExpectation) (c : ConsiderationItem) : Prop :=
  si_token (ci_item c) = ex_collectionAddress ex
  /\ getAddress (makerAddress w) = Some (ci_recipient c)
  /\ match ex_tokenId ex with
     | Some tokenId =>
         (si_itemType (ci_item c) = Erc721 \/ si_itemType (ci_item c) = Erc1155)
         /\ si_identifier (ci_item c) = tokenId
         /\ si_startAmount (ci_item c) = 1 /\ si_endAmount (ci_item c) = 1
     | None =>
         (si_itemType (ci_item c) = Erc721WithCriteria \/ si_itemType (ci_item c) = Erc1155WithCriteria)
         /\ (ex_requiresSignedZoneTrust ex = false -> si_identifier (ci_item c) = 0)
         /\ si_startAmount (ci_item c) = ex_quantity ex /\ si_endAmount (ci_item c) = ex_quantity ex
     end.

(** A fee, paid out of the offer. *)
Definition feeItem (w : Wallet) (ex : OfferSigningExpectation) (c : ConsiderationItem) : Prop :=
  si_itemType (ci_item c) = Erc20
  /\ getAddress (wethAddress w) = Some (si_token (ci_item c))
  /\ si_token (ci_item c) <> ex_collectionAddress ex
  /\ si_identifier (ci_item c) = 0
  /\ si_startAmount (ci_item c) = si_endAmount (ci_item c)
  /\ exists zero, getAddress zeroAddress = Some zero /\ ci_recipient c <> zero.

Definition feesOf (l : list ConsiderationItem) : Z :=
  foldr (fun c total => si_startAmount (ci_item c) + total) 0 l.

Definition considerationAllowed (w : Wallet) (ex : OfferSigningExpectation) (l : list ConsiderationItem) : Prop :=
  exists before nft after, l = before ++ nft :: after
    /\ targetItem w ex nft
    /\ Forall (feeItem w ex) (before ++ after)
    /\ feesOf (before ++ after) <= ex_totalAmountWei ex.

Definition offerAllowed (w : Wallet) (ex : OfferSigningExpectation) (l : list SeaportItem) : Prop :=
  exists weth, getAddress (wethAddress w) = Some weth
    /\ l = [{| si_itemType := Erc20; si_token := weth; si_identifier := 0;
               si_startAmount := ex_totalAmountWei ex; si_endAmount := ex_totalAmountWei ex |}].

Record orderAllowed (w : Wallet) (ex : OfferSigningExpectation) (o : SeaportOrder) : Prop := {
  oa_offerer : getAddress (makerAddress w) = Some (so_offerer o);
  oa_zone : getAddress signedZoneAddress = Some (so_zone o);
  oa_zoneHash : so_zoneHash o = zeroBytes32;
  oa_conduitKey : so_conduitKey o = policyConduitKey;
  oa_orderType : so_orderType o = PartialRestricted;
  oa_expiration : so_endTime o = ex_expirationTime ex;
  oa_start : so_startTime o <= so_endTime o;
  oa_offer : offerAllowed w ex (so_offer o);
  oa_consideration : considerationAllowed w ex (so_consideration o);
}.

(** The signing domain of the pinned Seaport contract on the pinned chain. *)
Definition domainIs (domain : Fields) (contract : string) : Prop :=
  map fst domain ≡ₚ SEAPORT_DOMAIN_FIELDS
  /\ uintOf (obj_get "chainId" domain) = Some policyChainId
  /\ textOf (obj_get "name" domain) = Some seaportName
  /\ textOf (obj_get "version" domain) = Some seaportVersion
  /\ exists address, addressOf (obj_get "verifyingContract" domain) = Some address /\ getAddress contract = Some address.

(** A payload that is an allowed order; a count of the consideration it may carry, which
    is not signed, agrees with it. *)
Definition isAllowedOffer (w : Wallet) (ex : OfferSigningExpectation) (td : OpenSeaTypedDataInput) : Prop :=
  domainIs (domain td) seaportAddress
  /\ primaryType td = "OrderComponents"%string
  /\ schemaIs (types td) SEAPORT_ORDER_TYPES
  /\ exists o, readOrder (message td) = Some o
       /\ orderAllowed w ex o
       /\ let count := obj_get "totalOriginalConsiderationItems" (message td) in
          count = VUndef \/ uintOf count = Some (Z.of_nat (length (so_consideration o))).

(** A payload that is the hash of one order. *)
Definition isCancellation (contract hash : string) (td : OpenSeaTypedDataInput) : Prop :=
  domainIs (domain td) contract
  /\ primaryType td = "OrderHash"%string
  /\ schemaIs (types td) SEAPORT_ORDER_HASH_TYPES
  /\ bytes32Of (obj_get "orderHash" (message td)) = Some (toLowerCase hash).

End Spec.

(** ** The small checks *)

Lemma requireRecord_ok v l f : requireRecord v l = Ok f <-> fieldsOf v = Some f.
Proof. destruct v; naive_solver. Qed.

Lemma requireArray_ok v l es : requireArray v l = Ok es <-> v = VArr es.
Proof. destruct v; naive_solver. Qed.

Lemma requireString_ok v l s : requireString v l = Ok s <-> textOf v = Some s.
Proof. destruct v; simpl; try naive_solver. case_match; naive_solver. Qed.

Lemma requireUint_ok v l z : requireUint v l = Ok z <-> uintOf v = Some z.
Proof. unfold requireUint. destruct (uintOf v); naive_solver. Qed.

Lemma assertUintEquals_ok v e l : assertUintEquals v e l = Ok tt <-> uintOf v = Some e.
Proof.
  unfold assertUintEquals, requireUint. destruct (uintOf v) as [z|]; simpl; [|naive_solver].
  destruct (Z.eqb_spec z e) as [->|]; naive_solver.
Qed.

Lemma assertOneOfUint_ok v es l :
  assertOneOfUint v es l = Ok tt <-> exists z, uintOf v = Some z /\ In z es.
Proof.
  unfold assertOneOfUint, requireUint. destruct (uintOf v) as [z|]; simpl; [|naive_solver].
  destruct (existsb (Z.eqb z) es) eqn:E.
  - apply existsb_exists in E as (z' & Hin & ->%Z.eqb_eq). naive_solver.
  - split; [done|]. intros (z' & [= <-] & Hin).
    assert (existsb (Z.eqb z) es = true) as E'; [|congruence].
    apply existsb_exists. exists z. split; [done|]. apply Z.eqb_refl.
Qed.

Lemma assertStringEquals_ok v e l : assertStringEquals v e l = Ok tt <-> textOf v = Some e.
Proof.
  unfold assertStringEquals. destruct (requireString v l) as [s|] eqn:E; simpl.
  - apply requireString_ok in E. rewrite E. destruct (String.eqb_spec s e) as [->|]; naive_solver.
  - split; [done|]. intros H%(requireString_ok _ l). congruence.
Qed.

Lemma assertBytes32Equals_ok v e l :
  isBytes32 e = true -> assertBytes32Equals v e l = Ok tt <-> bytes32Of v = Some (toLowerCase e).
Proof.
  intros He. unfold assertBytes32Equals. destruct v; simpl; try naive_solver.
  rewrite He. destruct (isBytes32 s); simpl; [|naive_solver].
  destruct (String.eqb_spec (toLowerCase s) (toLowerCase e)) as [->|]; naive_solver.
Qed.

Lemma assertConstantItemAmount_ok f e l :
  assertConstantItemAmount f e l = Ok tt
  <-> uintOf (obj_get "startAmount" f) = Some e /\ uintOf (obj_get "endAmount" f) = Some e.
Proof.
  unfold assertConstantItemAmount. rewrite <- (assertUintEquals_ok _ e (append l " start")).
  rewrite <- (assertUintEquals_ok (obj_get "endAmount" f) e (append l " end")).
  destruct (assertUintEquals (obj_get "startAmount" f) _ _) as [[]|]; naive_solver.
Qed.

(** ** Sequences of checks *)

Lemma try_iff {A B} (m : result A) (f : A -> result B) b :
  result_bind m f = Ok b <-> exists a, m = Ok a /\ f a = Ok b.
Proof. destruct m; simpl; naive_solver. Qed.

Lemma check_iff {B} (m : result unit) (f : result B) b :
  result_bind m (fun _ => f) = Ok b <-> m = Ok tt /\ f = Ok b.
Proof. rewrite try_iff. split; [intros ([] & ?)|]; naive_solver. Qed.

Lemma result_map_ok {A B} (f : A -> result B) (g : A -> option B) l l' :
  (forall x y, f x = Ok y <-> g x = Some y) -> result_map f l = Ok l' <-> mapM g l = Some l'.
Proof.
  intros H. revert l'. induction l as [|x l IH]; intros l'; simpl; [split; intros [= <-]; done|].
  rewrite try_iff, bind_Some. setoid_rewrite try_iff. setoid_rewrite bind_Some.
  setoid_rewrite IH. setoid_rewrite H. split.
  - intros (y & Hy & ys & Hys & [= <-]). eauto.
  - intros (y & Hy & ys & Hys & [= <-]). eauto.
Qed.

Lemma combine_fst_seq {A} (l : list A) k : map fst (combine (seq k (length l)) l) = seq k (length l).
Proof. revert k. induction l as [|x l IH]; intros k; simpl; [done|]. by rewrite IH. Qed.

Lemma combine_snd_seq {A} (l : list A) k : map snd (combine (seq k (length l)) l) = l.
Proof. revert k. induction l as [|x l IH]; intros k; simpl; [done|]. by rewrite IH. Qed.

Lemma combine_seq_app {A} (l l' : list A) k :
  combine (seq k (length (l ++ l'))) (l ++ l')
  = combine (seq k (length l)) l ++ combine (seq (k + length l) (length l')) l'.
Proof.
  revert k. induction l as [|x l IH]; intros k; simpl; [by rewrite Nat.add_0_r|]. by rewrite IH, Nat.add_succ_r.
Qed.

(** A map over the entries with their positions that ignores them. *)
Lemma mapM_positions {A B} (g : A -> option B) l k :
  mapM (fun '(_, x) => g x) (combine (seq k (length l)) l) = mapM g l.
Proof. revert k. induction l as [|x l IH]; intros k; simpl; [done|]. by rewrite IH. Qed.

Lemma mapM_indexed {A B} (g : A -> option B) l k :
  mapM (fun '(i, x) => g x ≫= fun y => Some (i, y)) (combine (seq k (length l)) l)
  = (mapM g l ≫= fun ys => Some (combine (seq k (length ys)) ys)).
Proof.
  revert k. induction l as [|x l IH]; intros k; simpl; [done|]. destruct (g x); simpl; [|done].
  rewrite IH. by destruct (mapM g l).
Qed.

(** ** Schemas *)

Lemma sameKeys_spec f expected : sameKeys f expected = true <-> map fst f ≡ₚ expected.
Proof. unfold sameKeys. by rewrite bool_decide_eq_true, sortTexts_eq. Qed.

Lemma schemaField_ok v l m : schemaField v l = Ok m <-> memberOf v = Some m.
Proof.
  unfold schemaField, memberOf. rewrite try_iff. setoid_rewrite requireRecord_ok.
  setoid_rewrite try_iff. setoid_rewrite try_iff. setoid_rewrite requireString_ok. split.
  - by intros (f & -> & n & -> & t & -> & [= <-]).
  - intros H. destruct (fieldsOf v) as [f|]; [|done]. exists f. split; [done|].
    destruct (textOf (obj_get "name" f)) as [n|], (textOf (obj_get "type" f)) as [t|]; try done.
    injection H as <-. eauto.
Qed.

Lemma assertSchema_ok actual name expected :
  assertSchema actual name expected = Ok tt <-> membersOf (obj_get name actual) = Some expected.
Proof.
  unfold assertSchema. rewrite try_iff. setoid_rewrite requireArray_ok.
  destruct (obj_get name actual) as [| | | | |es| | |]; try naive_solver.
  transitivity (mapM memberOf es = Some expected); [|done].
  rewrite <- (mapM_positions memberOf es 0).
  setoid_rewrite try_iff. setoid_rewrite (result_map_ok _ (fun '(_, x) => memberOf x)).
  2:{ intros [i x] y. apply schemaField_ok. }
  split.
  - intros (? & [= <-] & ms & Hm & H). rewrite Hm. unfold violation in H. case_bool_decide; congruence.
  - intros H. exists es. split; [done|]. exists expected. split; [done|]. by rewrite bool_decide_true.
Qed.

Lemma assertSchemas_ok actual expected names :
  assertSchemas actual expected names = Ok tt
  <-> Forall (fun name => membersOf (obj_get name actual) = Some (default [] (jm_get name expected))) names.
Proof.
  induction names as [|name names IH]; simpl; [split; [constructor|done]|].
  by rewrite check_iff, assertSchema_ok, IH, Forall_cons.
Qed.

Lemma assertTypedDataTypes_ok actual expected :
  assertTypedDataTypes actual expected = Ok tt <-> schemaIs actual expected.
Proof.
  unfold assertTypedDataTypes, schemaIs. rewrite <- sameKeys_spec.
  destruct (sameKeys actual (map fst expected)); [|naive_solver].
  rewrite assertSchemas_ok, (sortTexts_perm (map fst expected)), Forall_forall. split.
  - intros H. split; [done|]. intros name members Hn. rewrite H, Hn; [done|].
    apply list_elem_of_In. by eapply jm_get_Some_key.
  - intros [_ H] name Hin. destruct (jm_get name expected) eqn:E; [by apply H|].
    apply jm_get_None in E. exfalso. by apply E, list_elem_of_In.
Qed.

(** ** Items and orders *)

Section Checks.
Context (getAddress : string -> option string).

Lemma walletAddress_ok s l a : normalizeAddress getAddress s l = Ok a <-> getAddress s = Some a.
Proof. unfold normalizeAddress. destruct (getAddress s); naive_solver. Qed.

Lemma addressField_ok v l1 l2 a :
  (try s <- requireString v l1; normalizeAddress getAddress s l2) = Ok a <-> addressOf getAddress v = Some a.
Proof.
  unfold addressOf. rewrite try_iff, bind_Some. by setoid_rewrite requireString_ok; setoid_rewrite walletAddress_ok.
Qed.

Lemma assertAddressEquals_ok s e l :
  assertAddressEquals getAddress s e l = Ok tt <-> exists a, getAddress s = Some a /\ getAddress e = Some a.
Proof.
  unfold assertAddressEquals. rewrite try_iff. setoid_rewrite try_iff. setoid_rewrite walletAddress_ok.
  split.
  - intros (a & Ha & b & Hb & H). destruct (String.eqb_spec a b) as [->|]; naive_solver.
  - intros (a & Ha & Hb). exists a. split; [done|]. exists a. by rewrite String.eqb_refl.
Qed.

Lemma assertAddressField_ok v e l :
  assertAddressField getAddress v e l = Ok tt <-> exists a, addressOf getAddress v = Some a /\ getAddress e = Some a.
Proof.
  unfold assertAddressField, addressOf. rewrite try_iff. setoid_rewrite requireString_ok.
  setoid_rewrite assertAddressEquals_ok. setoid_rewrite bind_Some. naive_solver.
Qed.

Lemma assertSeaportDomain_ok d contract :
  assertSeaportDomain getAddress d contract = Ok tt <-> domainIs getAddress d contract.
Proof.
  unfold assertSeaportDomain, domainIs, assertExactRecordFields.
  rewrite !check_iff, assertUintEquals_ok, !assertStringEquals_ok, assertAddressField_ok, <- sameKeys_spec.
  destruct (sameKeys d SEAPORT_DOMAIN_FIELDS); naive_solver.
Qed.

Lemma records_ok v l fs :
  (try es <- requireArray v l;
   result_map (fun '(index, item) =>
       try fields <- requireRecord item (append "order consideration item " (N_toString (N.of_nat index)));
       Ok (index, fields)) (combine (seq 0 (length es)) es)) = Ok fs
  <-> exists items, recordsOf v = Some items /\ fs = combine (seq 0 (length items)) items.
Proof.
  rewrite try_iff. setoid_rewrite requireArray_ok.
  destruct v as [| | | | |es| | |]; try naive_solver.
  unfold recordsOf. pose proof (mapM_indexed fieldsOf es 0) as Hi.
  setoid_rewrite (result_map_ok _ (fun '(i, x) => fieldsOf x ≫= fun y => Some (i, y))).
  2:{ intros [i x] y. rewrite try_iff, bind_Some. by setoid_rewrite requireRecord_ok; naive_solver. }
  split.
  - intros (? & [= <-] & H). rewrite Hi in H. apply bind_Some in H. naive_solver.
  - intros (items & H & ->). exists es. split; [done|]. rewrite Hi, H. done.
Qed.

(** *** Reading an item *)

Lemma readItem_Some f it :
  readItem getAddress f = Some it
  <-> uintOf (obj_get "itemType" f) = Some (si_itemType it)
      /\ addressOf getAddress (obj_get "token" f) = Some (si_token it)
      /\ uintOf (obj_get "identifierOrCriteria" f) = Some (si_identifier it)
      /\ uintOf (obj_get "startAmount" f) = Some (si_startAmount it)
      /\ uintOf (obj_get "endAmount" f) = Some (si_endAmount it).
Proof.
  unfold readItem. rewrite bind_Some. repeat setoid_rewrite bind_Some. split.
  - by intros (? & ? & ? & ? & ? & ? & ? & ? & ? & ? & [= <-]).
  - destruct it; simpl. intros (? & ? & ? & ? & ?). eauto 20.
Qed.

Lemma readConsideration_Some f c :
  readConsideration getAddress f = Some c
  <-> readItem getAddress f = Some (ci_item c) /\ addressOf getAddress (obj_get "recipient" f) = Some (ci_recipient c).
Proof.
  unfold readConsideration. split.
  - intros (item & Hi & (r & Hr & [= <-])%bind_Some)%bind_Some. done.
  - destruct c; simpl. intros (-> & Hr). simpl. by rewrite Hr.
Qed.

Lemma mapM_single {A B} (f : A -> option B) l y :
  mapM f l = Some [y] <-> exists x, l = [x] /\ f x = Some y.
Proof.
  rewrite mapM_Some. split.
  - intros H. destruct l as [|x [|x' l]]; inversion_clear H; [by eauto|by inversion H1].
  - intros (x & -> & H). by repeat constructor.
Qed.

Lemma recordsOf_single v f : recordsOf v = Some [f] <-> exists e, v = VArr [e] /\ fieldsOf e = Some f.
Proof.
  split.
  - destruct v as [| | | | |es| | |]; try done. intros (e & -> & H)%mapM_single. eauto.
  - intros (e & -> & H). by apply mapM_single; eauto.
Qed.

Lemma assertOfferItems_ok w v total :
  assertOfferItems getAddress w v total = Ok tt
  <-> exists items, recordsOf v ≫= mapM (readItem getAddress) = Some items
        /\ exists weth, getAddress (wethAddress w) = Some weth
             /\ items = [{| si_itemType := Erc20; si_token := weth; si_identifier := 0;
                            si_startAmount := total; si_endAmount := total |}].
Proof.
  unfold assertOfferItems. rewrite try_iff. setoid_rewrite requireArray_ok. split.
  - intros (es & -> & H). destruct es as [|e [|? ?]]; [done| |done].
    apply try_iff in H as (f & Hf%requireRecord_ok & H).
    rewrite !check_iff, !assertUintEquals_ok, assertAddressField_ok in H.
    destruct H as (Ht & (a & Ha & Hw) & Hi & Hs & He).
    eexists. split; [|by eauto].
    apply bind_Some. exists [f]. split; [by apply recordsOf_single; eauto|].
    apply mapM_single. exists f. split; [done|]. by apply readItem_Some.
  - intros (items & H & weth & Hw & ->). apply bind_Some in H as (fs & Hfs & (f & -> & Hr)%mapM_single).
    apply recordsOf_single in Hfs as (e & -> & He). apply readItem_Some in Hr as (Ht & Ha & Hi & Hs & Hn).
    exists [e]. split; [done|]. apply try_iff. exists f.
    rewrite requireRecord_ok, !check_iff, !assertUintEquals_ok, assertAddressField_ok. split_and!; eauto.
Qed.

(** The item bought, in the numbers read from it. *)
Definition boughtAs (ex : OfferSigningExpectation) (itemType identifier start end_ : Z) : Prop :=
  match ex_tokenId ex with
  | Some tokenId => (itemType = Erc721 \/ itemType = Erc1155) /\ identifier = tokenId /\ start = 1 /\ end_ = 1
  | None => (itemType = Erc721WithCriteria \/ itemType = Erc1155WithCriteria)
            /\ (ex_requiresSignedZoneTrust ex = false -> identifier = 0)
            /\ start = ex_quantity ex /\ end_ = ex_quantity ex
  end.

Lemma boughtAs_ok ex f :
  (match ex_tokenId ex with
   | Some tokenId =>
       try _ <- assertOneOfUint (obj_get "itemType" f) [Erc721; Erc1155] "target NFT item type";
       try _ <- assertUintEquals (obj_get "identifierOrCriteria" f) tokenId "target token id";
       assertConstantItemAmount f 1 "target token amount"
   | None =>
       try _ <- assertOneOfUint (obj_get "itemType" f) [Erc721WithCriteria; Erc1155WithCriteria]
                  "target NFT criteria item type";
       try _ <- if negb (ex_requiresSignedZoneTrust ex)
                then assertUintEquals (obj_get "identifierOrCriteria" f) 0 "collection-wide criteria root"
                else (try _ <- requireUint (obj_get "identifierOrCriteria" f) "trait criteria root"; Ok tt);
       assertConstantItemAmount f (ex_quantity ex) "target NFT quantity"
   end) = Ok tt
  <-> exists t i s e,
      uintOf (obj_get "itemType" f) = Some t /\ uintOf (obj_get "identifierOrCriteria" f) = Some i
      /\ uintOf (obj_get "startAmount" f) = Some s /\ uintOf (obj_get "endAmount" f) = Some e
      /\ boughtAs ex t i s e.
Proof.
  unfold boughtAs. destruct (ex_tokenId ex) as [id|].
  - rewrite !check_iff, assertOneOfUint_ok, assertUintEquals_ok, assertConstantItemAmount_ok. simpl. split.
    + intros ((t & Ht & Hin) & Hi & Hs & He). exists t, id, 1, 1. split_and!; try done. by intuition.
    + intros (t & i & s & e & Ht & Hi & Hs & He & Hk & -> & -> & ->). split_and!; try done. exists t. by intuition.
  - rewrite !check_iff, assertOneOfUint_ok, assertConstantItemAmount_ok. simpl. split.
    + intros ((t & Ht & Hin) & Hi & Hs & He). destruct (ex_requiresSignedZoneTrust ex); simpl in Hi.
      * apply try_iff in Hi as (i & Hi%requireUint_ok & _). eexists t, i, _, _. split_and!; try done. by intuition.
      * apply assertUintEquals_ok in Hi. eexists t, 0, _, _. split_and!; try done. by intuition.
    + intros (t & i & s & e & Ht & Hi & Hs & He & Hk & Hz & -> & ->). split_and!; try done; [exists t; by intuition|].
      destruct (ex_requiresSignedZoneTrust ex); simpl.
      * apply try_iff. exists i. by rewrite requireUint_ok.
      * apply assertUintEquals_ok. by rewrite Hi, Hz.
Qed.

Lemma assertTargetNftItem_ok w f ex :
  addressOf getAddress (obj_get "token" f) = Some (ex_collectionAddress ex) ->
  assertTargetNftItem getAddress w f ex = Ok tt
  <-> exists c, readConsideration getAddress f = Some c /\ targetItem getAddress w ex c.
Proof.
  intros Htoken. unfold assertTargetNftItem.
  rewrite check_iff, assertAddressField_ok, boughtAs_ok.
  setoid_rewrite readConsideration_Some. setoid_rewrite readItem_Some. split.
  - intros ((a & Ha & Hm) & t & i & s & e & Ht & Hi & Hs & He & Hk).
    exists {| ci_item := {| si_itemType := t; si_token := ex_collectionAddress ex; si_identifier := i;
                            si_startAmount := s; si_endAmount := e |}; ci_recipient := a |}. done.
  - intros ([[t tok i s e] a] & ((Ht & Ha & Hi & Hs & He) & Hr) & Htok & Hm & Hk). simpl in *.
    split; [by eauto|]. exists t, i, s, e. done.
Qed.

Lemma assertWethFeeItem_ok w f fee :
  assertWethFeeItem getAddress w f = Ok fee
  <-> exists c zero, readConsideration getAddress f = Some c
        /\ si_itemType (ci_item c) = Erc20
        /\ getAddress (wethAddress w) = Some (si_token (ci_item c))
        /\ si_identifier (ci_item c) = 0
        /\ si_startAmount (ci_item c) = fee /\ si_endAmount (ci_item c) = fee
        /\ getAddress zeroAddress = Some zero /\ ci_recipient c <> zero.
Proof.
  unfold assertWethFeeItem. rewrite !check_iff, !assertUintEquals_ok, assertAddressField_ok.
  setoid_rewrite readConsideration_Some. setoid_rewrite readItem_Some. split.
  - intros (Ht & (a & Ha & Hw) & Hi & H). apply try_iff in H as (s & Hs & H). apply try_iff in H as (r & Hr & H).
    apply try_iff in H as (zero & Hz%walletAddress_ok & H).
    destruct (String.eqb_spec r zero) as [|Hne]; [done|].
    apply try_iff in H as (n & Hn%requireUint_ok & H). apply check_iff in H as (He%assertUintEquals_ok & [= <-]).
    exists {| ci_item := {| si_itemType := Erc20; si_token := a; si_identifier := 0;
                            si_startAmount := n; si_endAmount := n |}; ci_recipient := r |}, zero. simpl.
    split_and!; try done. unfold addressOf. rewrite bind_Some. exists s.
    by rewrite <- requireString_ok, <- walletAddress_ok.
  - intros ([[t tok i s e] r] & zero & ((Ht & Ha & Hi & Hs & He) & Hr) & ? & Hw & ? & ? & ? & Hz & Hne). simpl in *. subst.
    split_and!; eauto. apply bind_Some in Hr as (text & Hs' & Hr).
    apply try_iff. exists text. rewrite requireString_ok. split; [done|].
    apply try_iff. exists r. rewrite walletAddress_ok. split; [done|].
    apply try_iff. exists zero. rewrite walletAddress_ok. split; [done|].
    destruct (String.eqb_spec r zero) as [|_]; [done|].
    apply try_iff. exists fee. rewrite requireUint_ok, check_iff, assertUintEquals_ok. done.
Qed.

(** *** The consideration of an order *)

Definition tokenOf (f : Fields) : option string := addressOf getAddress (obj_get "token" f).

(** An item whose token is an address other than [c]. *)
Definition otherToken (c : string) (f : Fields) : Prop := exists a, tokenOf f = Some a /\ a <> c.

Lemma tokenField_ok f (k : string -> result (list (nat * Fields))) l :
  (try text <- requireString (obj_get "token" f) "consideration token";
   try token <- normalizeAddress getAddress text "consideration token"; k token) = Ok l
  <-> exists a, tokenOf f = Some a /\ k a = Ok l.
Proof.
  rewrite try_iff. setoid_rewrite try_iff. setoid_rewrite requireString_ok. setoid_rewrite walletAddress_ok.
  unfold tokenOf, addressOf. setoid_rewrite bind_Some. naive_solver.
Qed.

Lemma targetNftItems_nil c items :
  targetNftItems getAddress c items = Ok [] <-> Forall (fun x => otherToken c x.2) items.
Proof.
  induction items as [|[p f] items IH]; simpl; [split; [constructor|done]|].
  rewrite tokenField_ok, Forall_cons, <- IH. setoid_rewrite try_iff. unfold otherToken. simpl. split.
  - intros (a & Ha & rest & Hr & H). destruct (String.eqb_spec a c); [done|]. naive_solver.
  - intros ((a & Ha & Hne) & H). exists a. split; [done|]. exists []. split; [done|].
    by destruct (String.eqb_spec a c).
Qed.

Lemma targetNftItems_one c items p f :
  targetNftItems getAddress c items = Ok [(p, f)]
  <-> exists before after, items = before ++ (p, f) :: after
        /\ Forall (fun x => otherToken c x.2) (before ++ after) /\ tokenOf f = Some c.
Proof.
  induction items as [|[q g] items IH]; simpl.
  - split; [done|]. by intros ([|] & ? & ? & _).
  - rewrite tokenField_ok. setoid_rewrite try_iff. split.
    + intros (a & Ha & rest & Hr & H). destruct (String.eqb_spec a c) as [->|Hne].
      * injection H as -> -> ->. exists [], items. split_and!; [done| |done]. by apply targetNftItems_nil.
      * injection H as ->. apply IH in Hr as (before & after & -> & HF & Hf).
        exists ((q, g) :: before), after. split_and!; [done| |done]. constructor; [|done]. by exists a.
    + intros (before & after & E & HF & Hf). destruct before as [|[q' g'] before]; injection E as <- <- ->.
      * exists c. split; [done|]. exists []. rewrite targetNftItems_nil, String.eqb_refl. done.
      * apply Forall_cons in HF as [(a & Ha & Hne) HF]. exists a. split; [done|]. exists [(p, f)].
        split; [apply IH; by eauto|]. by destruct (String.eqb_spec a c).
Qed.

Definition sumOf (l : list Z) : Z := foldr Z.add 0 l.

Lemma sumFees_ok w nft items acc total :
  sumFees getAddress w nft items acc = Ok total
  <-> exists fees, Forall2 (fun f fee => assertWethFeeItem getAddress w f = Ok fee)
                     (map snd (filter (fun x => x.1 <> nft) items)) fees
        /\ total = acc + sumOf fees.
Proof.
  revert acc. induction items as [|[p f] items IH]; intros acc; simpl.
  - split; [intros [= <-]; exists []; split; [constructor|]; simpl; lia|].
    intros (fees & H & ->). inversion H. simpl. f_equal. lia.
  - rewrite filter_cons. simpl. destruct (Nat.eqb_spec p nft) as [->|Hne].
    + rewrite decide_False by (intros ?; congruence). apply IH.
    + rewrite decide_True by done. simpl. rewrite try_iff. setoid_rewrite IH. split.
      * intros (fee & Hf & fees & Hfs & ->). exists (fee :: fees). split; [by constructor|]. simpl. lia.
      * intros (fees & H & ->). inversion H as [|? fee ? fees' Hf Hfs]; subst. exists fee. split; [done|].
        exists fees'. split; [done|]. simpl. lia.
Qed.

(** The position of an item of a numbered list is its own. *)
Lemma others_of_numbered (fs : list Fields) before p f after :
  combine (seq 0 (length fs)) fs = before ++ (p, f) :: after ->
  filter (fun x => x.1 <> p) (before ++ (p, f) :: after) = before ++ after
  /\ fs = map snd before ++ f :: map snd after.
Proof.
  intros H. assert (NoDup (map fst (combine (seq 0 (length fs)) fs))) as Hnd.
  { rewrite combine_fst_seq. apply NoDup_seq. }
  split.
  - rewrite H, map_app in Hnd. simpl in Hnd. apply NoDup_app in Hnd as (_ & Hb & Ha).
    apply NoDup_cons in Ha as [Ha _].
    assert (forall l, ~ In p (map fst l) -> filter (fun x : nat * Fields => x.1 <> p) l = l) as Hf.
    { induction l as [|[q g] l IHl]; [done|]. simpl. intros Hn. rewrite filter_cons, decide_True by (simpl; tauto).
      f_equal. tauto. }
    rewrite filter_app, filter_cons, decide_False by (simpl; tauto). rewrite !Hf; [done| |].
    + by rewrite <- list_elem_of_In.
    + intros Hin. apply (Hb p); [by apply list_elem_of_In|by left].
  - transitivity (map snd (combine (seq 0 (length fs)) fs)); [by rewrite combine_snd_seq|].
    by rewrite H, map_app.
Qed.

Lemma readConsideration_token f c :
  readConsideration getAddress f = Some c -> tokenOf f = Some (si_token (ci_item c)).
Proof. by intros [(_ & H & _)%readItem_Some _]%readConsideration_Some. Qed.

(** The fee items of an order, and what they add up to. *)
Lemma fees_read w ex l total :
  (Forall (otherToken (ex_collectionAddress ex)) l
   /\ exists fees, Forall2 (fun f fee => assertWethFeeItem getAddress w f = Ok fee) l fees /\ total = sumOf fees)
  <-> exists cs, mapM (readConsideration getAddress) l = Some cs
        /\ Forall (feeItem getAddress w ex) cs /\ total = feesOf cs.
Proof.
  setoid_rewrite mapM_Some. revert total. induction l as [|f l IH]; intros total.
  - split.
    + intros [_ (fees & H & ->)]. inversion H. by exists [].
    + intros (cs & H & _ & ->). inversion H. split; [constructor|]. by exists [].
  - split.
    + intros [[(a & Ha & Hne) HF]%Forall_cons (fees & H & ->)]. inversion H as [|? fee ? fees' Hf Hfs]; subst.
      destruct (proj1 (IH (sumOf fees')) (conj HF (ex_intro _ _ (conj Hfs eq_refl)))) as (cs & Hcs & Hfee & E).
      apply assertWethFeeItem_ok in Hf as (c & zero & Hc & Ht & Hw & Hi & Hs & He & Hz & Hr).
      exists (c :: cs). split_and!; [by constructor| |simpl; lia].
      apply readConsideration_token in Hc. rewrite Ha in Hc. injection Hc as ->.
      constructor; [|done]. unfold feeItem. split_and!; try done; [congruence|by exists zero].
    + intros (cs & H & HF & ->). inversion H as [|? c ? cs' Hc Hcs]; subst. apply Forall_cons in HF as [Hf HF].
      destruct (proj2 (IH (feesOf cs')) (ex_intro _ _ (conj Hcs (conj HF eq_refl)))) as [HO (fees & Hfs & E)].
      destruct Hf as (Ht & Hw & Hne & Hi & Hse & zero & Hz & Hr).
      split; [constructor; [|done]; exists (si_token (ci_item c)); split; [by apply readConsideration_token|done]|].
      exists (si_startAmount (ci_item c) :: fees). split; [|simpl; lia]. constructor; [|done].
      apply assertWethFeeItem_ok. exists c, zero. done.
Qed.

Lemma assertConsiderationItems_ok w v ex :
  assertConsiderationItems getAddress w v ex = Ok tt
  <-> exists cs, recordsOf v ≫= mapM (readConsideration getAddress) = Some cs
        /\ considerationAllowed getAddress w ex cs.
Proof.
  unfold assertConsiderationItems, considerationAllowed. split.
  - intros (es & He & (items & Hi & H)%try_iff)%try_iff.
    assert (exists fs, recordsOf v = Some fs /\ items = combine (seq 0 (length fs)) fs) as (fs & Hfs & ->).
    { apply (records_ok v "order consideration"). apply try_iff. by exists es. }
    apply try_iff in H as (nfts & Hn & H). destruct nfts as [|[p f] [|? ?]]; [done| |done].
    apply targetNftItems_one in Hn as (before & after & E & HF & Hf).
    destruct (others_of_numbered _ _ _ _ _ E) as [Ho Hsplit].
    apply check_iff in H as [(c & Hc & Ht)%assertTargetNftItem_ok H]; [|done].
    apply try_iff in H as (total & (fees & Hfees & ->)%sumFees_ok & H).
    rewrite E, Ho in Hfees.
    destruct (proj1 (fees_read w ex (map snd (before ++ after)) (sumOf fees))) as (cs & Hcs & Hfee & Es).
    { split; [by apply Forall_map|]. by exists fees. }
    rewrite map_app in Hcs. apply mapM_Some, Forall2_app_inv_l in Hcs as (csb & csa & Hb & Ha & ->).
    exists (csb ++ c :: csa). split.
    + apply bind_Some. exists fs. split; [done|]. rewrite Hsplit. apply mapM_Some.
      apply Forall2_app; [done|]. by constructor.
    + exists csb, c, csa. split_and!; [done..|]. destruct (Z.ltb_spec (ex_totalAmountWei ex) (0 + sumOf fees)); [done|lia].
  - intros (cs & (fs & Hfs & Hcs%mapM_Some)%bind_Some & csb & c & csa & -> & Ht & HF & Htotal).
    apply Forall2_app_inv_r in Hcs as (fb & fa' & Hb & Ha & ->). inversion Ha as [|f ? fa ? Hf Hfa]; subst.
    destruct (proj2 (fees_read w ex (fb ++ fa) (feesOf (csb ++ csa)))) as [HO (fees & Hfees & Es)].
    { exists (csb ++ csa). split_and!; [|done..]. apply mapM_Some. by apply Forall2_app. }
    pose proof (proj2 (records_ok v "order consideration" _) (ex_intro _ _ (conj Hfs eq_refl))) as H.
    apply try_iff in H as (es & He & Hi). apply try_iff. exists es. split; [done|]. apply try_iff.
    eexists. split; [exact Hi|]. set (numbered := combine _ _).
    assert (exists before after, numbered = before ++ (length fb, f) :: after
              /\ map snd before = fb /\ map snd after = fa) as (before & after & E & <- & <-).
    { exists (combine (seq 0 (length fb)) fb), (combine (seq (S (length fb)) (length fa)) fa).
      split_and!; [|apply combine_snd_seq..]. unfold numbered.
      by rewrite combine_seq_app. }
    assert (numbered = numbered) as E2 by done. unfold numbered in E2 at 1. rewrite E in E2.
    apply others_of_numbered in E2 as [Ho _].
    apply try_iff. exists [(length (map snd before), f)]. split.
    { apply targetNftItems_one. exists before, after. split_and!; [done| |].
      - by rewrite <- map_app, Forall_map in HO.
      - destruct Ht as [<- _]. by apply readConsideration_token. }
    apply check_iff. split.
    { apply assertTargetNftItem_ok; [|by eauto]. destruct Ht as [<- _]. by apply readConsideration_token. }
    apply try_iff. exists (0 + sumOf fees). split.
    { apply sumFees_ok. exists fees. split; [|done]. rewrite E, Ho, map_app. done. }
    destruct (Z.ltb_spec (ex_totalAmountWei ex) (0 + sumOf fees)); [lia|done].
Qed.

Lemma readOrder_Some order o :
  readOrder getAddress order = Some o
  <-> addressOf getAddress (obj_get "offerer" order) = Some (so_offerer o)
      /\ addressOf getAddress (obj_get "zone" order) = Some (so_zone o)
      /\ recordsOf (obj_get "offer" order) ≫= mapM (readItem getAddress) = Some (so_offer o)
      /\ recordsOf (obj_get "consideration" order) ≫= mapM (readConsideration getAddress) = Some (so_consideration o)
      /\ uintOf (obj_get "orderType" order) = Some (so_orderType o)
      /\ uintOf (obj_get "startTime" order) = Some (so_startTime o)
      /\ uintOf (obj_get "endTime" order) = Some (so_endTime o)
      /\ bytes32Of (obj_get "zoneHash" order) = Some (so_zoneHash o)
      /\ uintOf (obj_get "salt" order) = Some (so_salt o)
      /\ bytes32Of (obj_get "conduitKey" order) = Some (so_conduitKey o)
      /\ uintOf (obj_get "counter" order) = Some (so_counter o).
Proof.
  unfold readOrder. split.
  - intros (? & H1 & (? & H2 & (? & H3 & (? & H4 & (? & H5 & (? & H6 & (? & H7 & (? & H8 & (? & H9 & (? & H10
      & (? & H11 & (? & H12 & (? & H13 & [= <-])%bind_Some)%bind_Some)%bind_Some)%bind_Some)%bind_Some)%bind_Some)%bind_Some)%bind_Some)%bind_Some)%bind_Some)%bind_Some)%bind_Some)%bind_Some.
    simpl. by rewrite H3, H5.
  - destruct o; simpl. intros (-> & -> & (fs & -> & H3)%bind_Some & (gs & -> & H4)%bind_Some & -> & -> & -> & -> & -> & -> & ->).
    simpl. rewrite H3. simpl. rewrite H4. done.
Qed.

Lemma uintOf_range v z : uintOf v = Some z -> 0 <= z <= Mandate.maxUint256.
Proof. unfold uintOf. intros H. repeat case_match; simplify_eq; zbool; lia. Qed.

(** A number read is read again. *)
Lemma uintOf_again v z : uintOf v = Some z -> uintOf (VBigInt z) = Some z.
Proof.
  intros [H1 H2]%uintOf_range. unfold uintOf. by rewrite (proj2 (Z.leb_le _ _) H1), (proj2 (Z.leb_le _ _) H2).
Qed.

(** The optional count of consideration items. *)
Lemma countCheck_ok order items :
  recordsOf (obj_get "consideration" order) ≫= mapM (readConsideration getAddress) = Some items ->
  match obj_get "totalOriginalConsiderationItems" order with
  | VUndef => Ok tt
  | total =>
      try entries <- requireArray (obj_get "consideration" order) "order consideration";
      assertUintEquals total (Z.of_nat (length entries)) "total original consideration item count"
  end = Ok tt
  <-> obj_get "totalOriginalConsiderationItems" order = VUndef
      \/ uintOf (obj_get "totalOriginalConsiderationItems" order) = Some (Z.of_nat (length items)).
Proof.
  intros (fs & Hfs & Hm)%bind_Some.
  destruct (obj_get "consideration" order) as [| | | | |es| | |]; try done.
  apply mapM_Some, Forall2_length in Hfs. apply mapM_Some, Forall2_length in Hm.
  simpl. assert (length es = length items) as E by congruence. rewrite E.
  pose proof (fun v => assertUintEquals_ok v (Z.of_nat (length items)) "total original consideration item count") as H.
  destruct (obj_get "totalOriginalConsiderationItems" order); rewrite ?H; try (split; [by right|by intros [|]]).
  split; [by left|done].
Qed.

Lemma assertOfferTypedData_ok w td ex :
  assertOfferTypedData getAddress w td ex = Ok tt <-> isAllowedOffer getAddress w ex td.
Proof.
  unfold assertOfferTypedData, isAllowedOffer, assertPrimaryType.
  rewrite !check_iff, assertSeaportDomain_ok, assertTypedDataTypes_ok, !assertAddressField_ok,
    !assertBytes32Equals_ok, assertUintEquals_ok by reflexivity.
  setoid_rewrite readOrder_Some. split.
  - intros (Hd & Hp & Hs & (offerer & Hof & Hm) & (zone & Hzone & Hz) & Hzh & Hck & Hot
      & (st & Hst%requireUint_ok & (et & Het%requireUint_ok & H)%try_iff)%try_iff).
    apply check_iff in H as [Hx%assertUintEquals_ok H]. destruct (Z.ltb_spec et st) as [|Hle]; [done|].
    apply try_iff in H as (salt & Hsalt%requireUint_ok & H). apply try_iff in H as (counter & Hc%requireUint_ok & H).
    rewrite !check_iff, assertOfferItems_ok, assertConsiderationItems_ok in H.
    destruct H as ((items & Hi & Hallow) & (cs & Hcs & Hcons) & Hcount).
    rewrite (countCheck_ok _ _ Hcs) in Hcount.
    assert (et = ex_expirationTime ex) as ->.
    { rewrite (uintOf_again _ _ Het) in Hx. congruence. }
    destruct (String.eqb_spec (primaryType td) "OrderComponents") as [E|]; [|done].
    split_and!; try done.
    exists {| so_offerer := offerer; so_zone := zone; so_offer := items; so_consideration := cs;
              so_orderType := PartialRestricted; so_startTime := st; so_endTime := ex_expirationTime ex;
              so_zoneHash := zeroBytes32; so_salt := salt; so_conduitKey := policyConduitKey; so_counter := counter |}.
    simpl. split_and!; try done.
  - intros (Hd & Hp & Hs & o & (Hof & Hzone & Hi & Hcs & Hot & Hst & Het & Hzh & Hsalt & Hck & Hc) & Ho & Hcount).
    destruct Ho as [Ho1 Ho2 Ho3 Ho4 Ho5 Ho6 Ho7 Ho8 Ho9].
    rewrite Hp. split_and!; try done; try (by eauto); [by rewrite Hzh, Ho3|by rewrite Hck, Ho4|by rewrite Hot, Ho5|].
    apply try_iff. exists (so_startTime o). rewrite requireUint_ok. split; [done|].
    apply try_iff. exists (so_endTime o). rewrite requireUint_ok. split; [done|].
    apply check_iff. split.
    { apply assertUintEquals_ok. rewrite <- Ho6. by eapply uintOf_again. }
    destruct (Z.ltb_spec (so_endTime o) (so_startTime o)); [lia|].
    apply try_iff. exists (so_salt o). rewrite requireUint_ok. split; [done|].
    apply try_iff. exists (so_counter o). rewrite requireUint_ok. split; [done|].
    rewrite !check_iff, assertOfferItems_ok, assertConsiderationItems_ok, (countCheck_ok _ _ Hcs).
    split_and!; [by eauto..|done].
Qed.

Lemma assertCancellationTypedData_ok td contract hash :
  isBytes32 hash = true ->
  assertCancellationTypedData getAddress td contract hash = Ok tt <-> isCancellation getAddress contract hash td.
Proof.
  intros Hh. unfold assertCancellationTypedData, isCancellation, assertPrimaryType.
  rewrite !check_iff, assertSeaportDomain_ok, assertTypedDataTypes_ok, assertBytes32Equals_ok by done.
  destruct (String.eqb_spec (primaryType td) "OrderHash"); simpl; naive_solver.
Qed.

End Checks.

End PolicyWalletSpec.
