(* ===== verification/PolicySessions.v ===== *)
(** * The policy wallet: signing sessions

    [OpenSeaPolicyWallet] of [trading/src/adapters/opensea/open-sea-policy-wallet.ts]:
    each authorized operation opens a session; while its work runs the SDK may ask for
    one signature within it.  A session is known by its number, as the code knows it by
    the asynchronous context of the work ([AsyncLocalStorage]); the context outlives the
    work.  The signer is called and answers later, or never, so a handler that calls it
    ends at the [await]; the steps below may come in any order. *)

From S2P Require Import Prelude JsValue Domain Mandate PolicyWallet.

Open Scope Z_scope.

Module PolicySessions.
Import PolicyWallet.

(** [OPEN_SEA_SIGNATURE_STATE] *)
Inductive SignatureState : Type := Available | Pending | Complete.

#[global] Instance SignatureState_eq_dec : EqDecision SignatureState.
Proof. solve_decision. Defined.

(** [OPEN_SEA_SIGNING_INTENT], with what the session of each intent holds. *)
Inductive SigningIntent : Type :=
  | OfferIntent (expectation : OfferSigningExpectation)
  | OffchainCancellationIntent (protocolAddress orderHash : string).

Definition intentText (i : SigningIntent) : string :=
  match i with OfferIntent _ => "offer" | OffchainCancellationIntent _ _ => "offchain_cancellation" end.

Record SigningSession := {
  intent : SigningIntent;
  active : bool;
  signatureState : SignatureState;
}.

(** [OPEN_SEA_SDK_WALLET_ACTION] *)
Inductive SdkWalletAction : Type := SendTransaction | WriteContract | SignMessage | SignTransaction.

Definition actionText (a : SdkWalletAction) : string :=
  match a with
  | SendTransaction => "sendTransaction"
  | WriteContract => "writeContract"
  | SignMessage => "signMessage"
  | SignTransaction => "signTransaction"
  end.

(** What happened, newest first; the code keeps no such log. *)
Inductive Entry : Type :=
  | OpenedOffer (session : nat) (authorization : OpenSeaOfferSigningAuthorization)
  | OpenedCancellation (session : nat) (protocolAddress orderHash : string)
  | Asked (call session : nat) (typedData : OpenSeaTypedDataInput)
  | Signed (call session : nat) (signature : string)
  | Returned (session : nat) (outcome : result unit).

(** A call of the signer: its session, and whether it has settled. *)
Record World := {
  w_sessions : list SigningSession;
  w_calls : list (nat * bool);
  w_log : list Entry;
}.

Definition initial : World := {| w_sessions := []; w_calls := []; w_log := [] |}.

Definition set_session (n : nat) (s : SigningSession) (w : World) : World :=
  {| w_sessions := <[n := s]> (w_sessions w); w_calls := w_calls w; w_log := w_log w |}.

Definition set_calls (calls : list (nat * bool)) (w : World) : World :=
  {| w_sessions := w_sessions w; w_calls := calls; w_log := w_log w |}.

Definition logged (e : Entry) (w : World) : World :=
  {| w_sessions := w_sessions w; w_calls := w_calls w; w_log := e :: w_log w |}.

Definition set_signatureState (st : SignatureState) (s : SigningSession) : SigningSession :=
  {| intent := intent s; active := active s; signatureState := st |}.

Definition set_active (b : bool) (s : SigningSession) : SigningSession :=
  {| intent := intent s; active := b; signatureState := signatureState s |}.

Section Sessions.
Context (getAddress : string -> option string) (wallet : Wallet).

(** [runSigningSession] up to the call of [work]. *)
Definition openSession (i : SigningIntent) (entry : nat -> Entry) : M World nat :=
  fun w =>
    let n := length (w_sessions w) in
    (Ok n, {| w_sessions := w_sessions w ++ [{| intent := i; active := true; signatureState := Available |}];
              w_calls := w_calls w; w_log := entry n :: w_log w |}).

Definition authorizeOffer (a : OpenSeaOfferSigningAuthorization) : M World nat :=
  match createOfferSigningExpectation getAddress wallet a with
  | Err e => mthrow e
  | Ok expectation => openSession (OfferIntent expectation) (fun n => OpenedOffer n a)
  end.

Definition authorizeOffchainCancellation (protocolAddress orderHash : string) : M World nat :=
  match
    (try protocol <- normalizeAddress getAddress protocolAddress "cancellation protocol address";
     try _ <- assertAddressEquals getAddress protocol seaportAddress "cancellation protocol address";
     try hash <- requireBytes32 (VStr orderHash) "cancellation order hash";
     Ok (protocol, hash))
  with
  | Err e => mthrow e
  | Ok (protocol, hash) =>
      openSession (OffchainCancellationIntent protocol hash) (fun n => OpenedCancellation n protocolAddress orderHash)
  end.

(** The checks of a request within a session. *)
Definition checkRequest (s : SigningSession) (input : jsval) : result OpenSeaTypedDataInput :=
  if negb (active s) then
    violation (append "authorized " (append (intentText (intent s)) " is no longer active"))
  else if negb (bool_decide (signatureState s = Available)) then
    violation (append "authorized " (append (intentText (intent s)) " requested more than one signature"))
  else
    try typedData <- normalizeTypedDataInput input;
    try _ <- match intent s with
             | OfferIntent expectation => assertOfferTypedData getAddress wallet typedData expectation
             | OffchainCancellationIntent protocol hash =>
                 assertCancellationTypedData getAddress typedData protocol hash
             end;
    Ok typedData.

(** [signTypedData] up to the call of the signer; the result is the number of the call. *)
Definition signTypedData (context : option nat) (input : jsval) : M World nat :=
  fun w =>
    match context ≫= (fun n => (n,.) <$> w_sessions w !! n) with
    | None => (violation "typed-data signature was requested without authorization", w)
    | Some (n, s) =>
        match checkRequest s input with
        | Err e => (Err e, w)
        | Ok typedData =>
            let call := length (w_calls w) in
            (Ok call, logged (Asked call n typedData)
                        (set_calls (w_calls w ++ [(n, false)])
                           (set_session n (set_signatureState Pending s) w)))
        end
    end.

(** The rest of [signTypedData], once the signer has answered. *)
Definition signerSettles (call : nat) (answer : result string) : M World string :=
  fun w =>
    match w_calls w !! call with
    | Some (n, false) =>
        match w_sessions w !! n with
        | None => (Err "no such call", w)
        | Some s =>
            let w := set_calls (<[call := (n, true)]> (w_calls w)) w in
            match answer with
            | Ok signature =>
                if negb (active s) then
                  (violation (append "authorized " (append (intentText (intent s)) " is no longer active")),
                   set_session n (set_signatureState Available s) w)
                else (Ok signature, logged (Signed call n signature)
                                      (set_session n (set_signatureState Complete s) w))
            | Err e => (Err e, set_session n (set_signatureState Available s) w)
            end
        end
    | _ => (Err "no such call", w)
    end.

(** The end of [runSigningSession], once the work has settled. *)
Definition workSettles (n : nat) (outcome : result unit) : M World unit :=
  fun w =>
    match w_sessions w !! n with
    | Some s =>
        if active s then
          let outcome :=
            try _ <- outcome;
            if negb (bool_decide (signatureState s = Complete)) then
              violation (append "authorized " (append (intentText (intent s)) " completed with 0 signatures"))
            else Ok tt in
          (outcome, logged (Returned n outcome) (set_session n (set_active false s) w))
        else (Err "no such work", w)
    | None => (Err "no such work", w)
    end.

Definition rejectWalletAction (action : SdkWalletAction) : M World unit :=
  mthrow (append "OpenSea wallet policy rejected request: SDK wallet action "
            (append (actionText action) " is not permitted")).

(** ** Everything that may happen *)

Inductive Event : Type :=
  | AuthorizeOffer (a : OpenSeaOfferSigningAuthorization)
  | AuthorizeOffchainCancellation (protocolAddress orderHash : string)
  | SignTypedData (context : option nat) (input : jsval)
  | SignerSettles (call : nat) (answer : result string)
  | WorkSettles (session : nat) (outcome : result unit)
  | SdkAction (action : SdkWalletAction).

Definition handle (e : Event) (w : World) : World :=
  match e with
  | AuthorizeOffer a => snd (authorizeOffer a w)
  | AuthorizeOffchainCancellation protocolAddress orderHash =>
      snd (authorizeOffchainCancellation protocolAddress orderHash w)
  | SignTypedData context input => snd (signTypedData context input w)
  | SignerSettles call answer => snd (signerSettles call answer w)
  | WorkSettles n outcome => snd (workSettles n outcome w)
  | SdkAction action => snd (rejectWalletAction action w)
  end.

Inductive reachable : World -> Prop :=
  | reach_initial : reachable initial
  | reach_handle w e : reachable w -> reachable (handle e w).

End Sessions.

End PolicySessions.
