(* ===== verification/PolicySessionsClaims.v ===== *)
(** * The policy wallet: what it promises

    Whatever the SDK and the signer do, in any order: the signer is asked for nothing
    but offers the mandate authorizes, for exactly the amount authorized, and
    cancellations of the named order; an operation obtains at most one signature, and
    none after it has ended. *)

From S2P Require Import Prelude JsValue Domain Mandate PolicyWallet PolicyWalletSpec PolicySessions.

Open Scope Z_scope.

Module PolicySessionsClaims.
Import PolicyWallet PolicyWalletSpec PolicySessions.

(** ** What an authorization allows *)

Section Authorized.
Context (getAddress : string -> option string).

(** The expectation of a session, from its authorization. *)
Record expects (w : Wallet) (a : OpenSeaOfferSigningAuthorization) (ex : OfferSigningExpectation) : Prop := {
  ep_mandate : Mandate.assertOfferAuthorized (biddingMandate w) (job a) (totalAmountWei a) = Ok tt;
  ep_amount : ex_totalAmountWei ex = totalAmountWei a;
  ep_positive : 0 < totalAmountWei a;
  ep_cap : totalAmountWei a <= Mandate.wethAllowanceCapWei (Mandate.startPolicy (biddingMandate w));
  ep_expiration : expirationTime a = NInt (ex_expirationTime ex);
  ep_expiration_range : 0 < ex_expirationTime ex <= maxSafeInteger;
  ep_collection : getAddress (collectionAddress (job a)) = Some (ex_collectionAddress ex);
  ep_zone : ex_requiresSignedZoneTrust ex = bidderTargetRequiresOpenSeaSignedZoneTrust (target (job a));
  ep_trust : ex_requiresSignedZoneTrust ex = true ->
             Mandate.trustOpenSeaSignedZoneTraitOffers (Mandate.startPolicy (biddingMandate w)) = true;
  ep_token : ex_tokenId ex = match target (job a) with TokenTarget tokenId => uintOf (VStr tokenId) | _ => None end;
  ep_isToken : (exists tokenId, target (job a) = TokenTarget tokenId) -> is_Some (ex_tokenId ex);
  ep_quantity : Mandate.resolveOfferQuantity (job a) = Ok (ex_quantity ex);
}.

Lemma assertOfferAuthorized_quantity m j total :
  Mandate.assertOfferAuthorized m j total = Ok tt -> exists q, Mandate.resolveOfferQuantity j = Ok q.
Proof.
  unfold Mandate.assertOfferAuthorized. intros H. destruct (Mandate.collectionAuthorizationError _ _); [done|].
  destruct (jm_get _ _); [|done].
  apply try_iff in H as (q & Hq & _). eauto.
Qed.

(** The quantity signed is the one the mandate has checked. *)
Lemma normalizeTargetQuantity_resolved j q quantity :
  Mandate.resolveOfferQuantity j = Ok q ->
  match target j with TokenTarget _ => Ok 1
  | CollectionTarget n _ | CompetitiveTraitTarget n _ _ => normalizeTargetQuantity n end = Ok quantity <-> quantity = q.
Proof.
  unfold Mandate.resolveOfferQuantity. intros H.
  assert (forall n e, match n with NInt z => if isSafeIntegerNum n && (0 <? z) then Ok z else Err e | _ => Err e end = Ok q ->
            normalizeTargetQuantity n = Ok quantity <-> quantity = q) as Hn.
  { intros n e Hq. unfold normalizeTargetQuantity. destruct n as [z| | |]; try done.
    destruct (isSafeIntegerNum (NInt z)) eqn:E1; [|done]. destruct (Z.ltb_spec 0 z); [|done]. injection Hq as ->.
    cbn [floorNum]. rewrite Z.max_r by lia. rewrite E1. split; congruence. }
  destruct (target j); [split; congruence|by eapply Hn..].
Qed.

Lemma createOfferSigningExpectation_ok w a ex :
  createOfferSigningExpectation getAddress w a = Ok ex <-> expects w a ex.
Proof.
  unfold createOfferSigningExpectation. split.
  - intros H. destruct (Mandate.assertOfferAuthorized _ _ _) as [[]|] eqn:Em; [|done].
    destruct (Z.leb_spec (totalAmountWei a) 0); [done|].
    destruct (Z.ltb_spec (Mandate.wethAllowanceCapWei (Mandate.startPolicy (biddingMandate w))) (totalAmountWei a)); [done|].
    destruct (expirationTime a) as [e| | |] eqn:Ee; try done.
    destruct (isSafeIntegerNum (NInt e)) eqn:Es; [|done]. simpl in Es. zbool. unfold negb, orb in H.
    destruct (Z.leb_spec e 0); [done|].
    apply try_iff in H as (c & Hc%walletAddress_ok & H).
    destruct (bidderTargetRequiresOpenSeaSignedZoneTrust _ && _) eqn:Et; [done|].
    apply try_iff in H as (tokenId & Ht & (quantity & Hq & [= <-])%try_iff).
    destruct (assertOfferAuthorized_quantity _ _ _ Em) as [q Hr].
    apply (normalizeTargetQuantity_resolved _ _ _ Hr) in Hq as ->.
    constructor; simpl; try done; [lia| | |].
    + intros E. rewrite E in Et. by destruct (Mandate.trustOpenSeaSignedZoneTraitOffers _).
    + destruct (target (job a)); [|congruence..]. by apply try_iff in Ht as (id & ->%requireUint_ok & [= <-]).
    + intros [id Hid]. rewrite Hid in Ht. apply try_iff in Ht as (n & _ & [= <-]). by eexists.
  - intros [Hm Ha Hp Hc He Her Hcol Hz Ht Htok Hist Hq]. rewrite Hm.
    destruct (Z.leb_spec (totalAmountWei a) 0); [lia|].
    destruct (Z.ltb_spec (Mandate.wethAllowanceCapWei (Mandate.startPolicy (biddingMandate w))) (totalAmountWei a)); [lia|].
    rewrite He. assert (isSafeIntegerNum (NInt (ex_expirationTime ex)) = true) as -> by (simpl; apply Z.leb_le; lia).
    unfold negb, orb. destruct (Z.leb_spec (ex_expirationTime ex) 0); [lia|].
    apply try_iff. exists (ex_collectionAddress ex). rewrite walletAddress_ok. split; [done|].
    rewrite <- Hz. destruct (ex_requiresSignedZoneTrust ex) eqn:Ez; simpl.
    1: rewrite Ht by done; simpl.
    all: apply try_iff; exists (ex_tokenId ex); (split; [|
      apply try_iff; exists (ex_quantity ex); split; [by apply (normalizeTargetQuantity_resolved _ _ _ Hq)|
        destruct ex; simpl in *; congruence]]).
    all: destruct (target (job a)) as [id| |]; [|congruence..];
      destruct Hist as [n Hn]; [by eauto|]; rewrite Hn in Htok |- *; apply try_iff; exists n; by rewrite requireUint_ok.
Qed.

End Authorized.

(** ** The steps of the wallet *)

Section Steps.
Context (getAddress : string -> option string) (wallet : Wallet).

Abbreviation handle := (handle getAddress wallet).
Abbreviation reachable := (reachable getAddress wallet).

(** A payload that passed the checks of its session. *)
Definition checked (i : SigningIntent) (td : OpenSeaTypedDataInput) : Prop :=
  match i with
  | OfferIntent ex => assertOfferTypedData getAddress wallet td ex = Ok tt
  | OffchainCancellationIntent protocol hash => assertCancellationTypedData getAddress td protocol hash = Ok tt
  end.

(** The request a session was opened for. *)
Definition openedBy (n : nat) (i : SigningIntent) (e : Entry) : Prop :=
  match i with
  | OfferIntent ex => exists a, e = OpenedOffer n a /\ createOfferSigningExpectation getAddress wallet a = Ok ex
  | OffchainCancellationIntent protocol hash =>
      exists address, e = OpenedCancellation n address hash
        /\ getAddress address = Some protocol
        /\ (exists a, getAddress protocol = Some a /\ getAddress seaportAddress = Some a)
        /\ isBytes32 hash = true
  end.

(** What a step that does something does. *)
Inductive move (w : World) : World -> Prop :=
  | mv_open i e :
      openedBy (length (w_sessions w)) i e ->
      move w {| w_sessions := w_sessions w ++ [{| intent := i; active := true; signatureState := Available |}];
                w_calls := w_calls w; w_log := e :: w_log w |}
  | mv_ask n s td :
      w_sessions w !! n = Some s -> active s = true -> signatureState s = Available -> checked (intent s) td ->
      move w (logged (Asked (length (w_calls w)) n td)
               (set_calls (w_calls w ++ [(n, false)]) (set_session n (set_signatureState Pending s) w)))
  | mv_signed call n s signature :
      w_calls w !! call = Some (n, false) -> w_sessions w !! n = Some s -> active s = true ->
      move w (logged (Signed call n signature) (set_session n (set_signatureState Complete s)
               (set_calls (<[call := (n, true)]> (w_calls w)) w)))
  | mv_failed call n s :
      w_calls w !! call = Some (n, false) -> w_sessions w !! n = Some s ->
      move w (set_session n (set_signatureState Available s) (set_calls (<[call := (n, true)]> (w_calls w)) w))
  | mv_returned n s outcome :
      w_sessions w !! n = Some s -> active s = true -> (outcome = Ok tt -> signatureState s = Complete) ->
      move w (logged (Returned n outcome) (set_session n (set_active false s) w)).

Lemma authorizeCancellation_ok address orderHash protocol hash :
  (try protocol <- normalizeAddress getAddress address "cancellation protocol address";
   try _ <- assertAddressEquals getAddress protocol seaportAddress "cancellation protocol address";
   try hash <- requireBytes32 (VStr orderHash) "cancellation order hash";
   Ok (protocol, hash)) = Ok (protocol, hash) ->
  forall n, openedBy n (OffchainCancellationIntent protocol hash) (OpenedCancellation n address orderHash).
Proof.
  intros (p & Hp%walletAddress_ok & [Ha%assertAddressEquals_ok (h & Hh & [= <- <-])%try_iff]%check_iff)%try_iff n.
  simpl in Hh. destruct (isBytes32 orderHash) eqn:E; [|done]. injection Hh as <-. simpl. eauto 10.
Qed.

Lemma handle_moves e w : handle e w = w \/ move w (handle e w).
Proof.
  destruct e as [a|address hash|context input|call answer|n outcome|action]; simpl.
  - unfold authorizeOffer. destruct (createOfferSigningExpectation _ _ _) as [ex|] eqn:E; [right|by left].
    apply mv_open. by exists a.
  - unfold authorizeOffchainCancellation. destruct (result_bind _ _) as [[p h]|] eqn:E; [right|by left].
    apply mv_open. by apply authorizeCancellation_ok.
  - unfold signTypedData. destruct (context ≫= _) as [[n s]|] eqn:E; [|by left].
    apply bind_Some in E as (n' & _ & H). apply fmap_Some in H as (s' & Hs & [= <- <-]).
    unfold checkRequest. destruct (active s) eqn:Ea; [|by left]. unfold negb.
    case_bool_decide as Hst; [|by left]. destruct (result_bind _ _) as [td|] eqn:Er; [right|by left].
    apply mv_ask; [done..|].
    apply try_iff in Er as (td' & _ & Er). apply check_iff in Er as [Hc [= <-]].
    unfold checked. by destruct (intent s).
  - unfold signerSettles. destruct (w_calls w !! call) as [[n []]|] eqn:Ec; try by left.
    destruct (w_sessions w !! n) as [s|] eqn:Es; [|by left]. right.
    destruct answer; [|by apply mv_failed]. destruct (active s) eqn:Ea; [by apply mv_signed|by apply mv_failed].
  - unfold workSettles. destruct (w_sessions w !! n) as [s|] eqn:Es; [|by left].
    destruct (active s) eqn:Ea; [right|by left]. apply mv_returned; [done..|].
    intros (u & _ & H)%try_iff. case_bool_decide; done.
  - by left.
Qed.

Lemma reachable_moves (I : World -> Prop) :
  I initial -> (forall w w', I w -> move w w' -> I w') -> forall w, reachable w -> I w.
Proof.
  intros H0 Hm w Hr. induction Hr as [|w e Hr IH]; [done|].
  destruct (handle_moves e w) as [->|H]; [done|]. by eapply Hm.
Qed.

(** ** Everything the signer is asked for was checked against what its session was opened for *)

(** The session an entry opens. *)
Definition opensSession (e : Entry) : option nat :=
  match e with OpenedOffer n _ | OpenedCancellation n _ _ => Some n | _ => None end.

Record asked_inv (w : World) : Prop := {
  ai_sessions : forall n s, w_sessions w !! n = Some s -> exists e, In e (w_log w) /\ openedBy n (intent s) e;
  ai_asked : forall call n td, In (Asked call n td) (w_log w) ->
    exists i e, In e (w_log w) /\ openedBy n i e /\ checked i td;
  ai_opened : forall e n, In e (w_log w) -> opensSession e = Some n ->
    exists s, w_sessions w !! n = Some s /\ openedBy n (intent s) e;
  ai_calls : forall call n b, w_calls w !! call = Some (n, b) -> exists td, In (Asked call n td) (w_log w);
  ai_signed : forall call n signature, In (Signed call n signature) (w_log w) -> exists td, In (Asked call n td) (w_log w);
}.

Lemma openedBy_not_asked n i e call m td : openedBy n i e -> e <> Asked call m td.
Proof. destruct i; simpl; intros (? & ? & _) ->; done. Qed.

Lemma openedBy_opens n i e : openedBy n i e -> opensSession e = Some n.
Proof. destruct i; simpl; intros (? & -> & _); done. Qed.

(** A step keeps the intents of the sessions there are, and adds to the log. *)
Lemma move_keeps w w' : move w w' ->
  incl (w_log w) (w_log w')
  /\ (forall n s, w_sessions w !! n = Some s -> exists s', w_sessions w' !! n = Some s' /\ intent s' = intent s)
  /\ (forall n s', w_sessions w' !! n = Some s' ->
        (exists s, w_sessions w !! n = Some s /\ intent s' = intent s)
        \/ exists e, w_log w' = e :: w_log w /\ openedBy n (intent s') e).
Proof.
  assert (forall (f : SigningSession -> SigningSession) k s, (forall x, intent (f x) = intent x) ->
            w_sessions w !! k = Some s ->
            (forall n s0, w_sessions w !! n = Some s0 -> exists s', <[k := f s]> (w_sessions w) !! n = Some s' /\ intent s' = intent s0)
            /\ (forall n s', <[k := f s]> (w_sessions w) !! n = Some s' ->
                 exists s0, w_sessions w !! n = Some s0 /\ intent s' = intent s0)) as Hset.
  { intros f k s Hf Hk. split.
    - intros n s0 Hn. destruct (decide (k = n)) as [->|Hne].
      + exists (f s). rewrite list_lookup_insert_eq by (by eapply lookup_lt_Some). rewrite Hf. split; congruence.
      + exists s0. by rewrite list_lookup_insert_ne.
    - intros n s' [(<- & <- & _)|[_ H]]%list_lookup_insert_Some; [exists s; by rewrite Hf|by exists s']. }
  intros [i e Ho|k s td Hn Hact Hst Hc|call k s signature Hc Hn Hact|call k s Hc Hn|k s outcome Hn Hact Ho];
    cbn [w_log w_sessions w_calls logged set_session set_calls].
  1:{ split_and!; [apply incl_tl, incl_refl| |].
      - intros n s Hn. exists s. split; [|done]. by apply lookup_app_l_Some.
      - intros m s [H|[Hge [Hm [= <-]]%list_lookup_singleton_Some]]%lookup_app_Some; [left; by exists s|right].
        exists e. split; [done|]. cbn [intent]. by replace m with (length (w_sessions w)) by lia. }
  all: edestruct Hset as [H1 H2]; [|exact Hn|split_and!; [try apply incl_tl; apply incl_refl|exact H1|]].
  all: try (intros n s' H; left; by apply H2).
  all: done.
Qed.

(** The entry a step adds. *)
Lemma move_log w w' : move w w' ->
  w_log w' = w_log w
  \/ exists e, w_log w' = e :: w_log w
       /\ (forall n, opensSession e = Some n -> exists s, w_sessions w' !! n = Some s /\ openedBy n (intent s) e)
       /\ (forall call n td, e = Asked call n td ->
             exists s, w_sessions w !! n = Some s /\ checked (intent s) td)
       /\ (forall call n signature, e = Signed call n signature -> exists b, w_calls w !! call = Some (n, b)).
Proof.
  intros [i e Ho|k s td Hn Hact Hst Hc|call k s signature Hc Hn Hact|call k s Hc Hn|k s outcome Hn Hact Ho];
    cbn [w_log w_sessions w_calls logged set_session set_calls]; [right..|by left|right]; eexists; (split; [done|]).
  - split_and!.
    + intros n E. pose proof (openedBy_opens _ _ _ Ho) as E'. rewrite E in E'. injection E' as ->.
      eexists. split; [by apply list_lookup_middle|]. done.
    + intros call n td ->. by destruct (openedBy_not_asked _ _ _ call n td Ho).
    + intros call n signature ->. by pose proof (openedBy_opens _ _ _ Ho).
  - split_and!; [done| |done]. intros c n t [= <- <- <-]. by exists s.
  - split_and!; [done..|]. intros c n t [= <- <- <-]. by exists false.
  - done.
Qed.

Lemma move_calls w w' call n b : move w w' -> w_calls w' !! call = Some (n, b) ->
  (exists b', w_calls w !! call = Some (n, b')) \/ exists td, w_log w' = Asked call n td :: w_log w.
Proof.
  intros [i e Ho|k s td Hn Hact Hst Hc|c k s signature Hc Hn Hact|c k s Hc Hn|k s outcome Hn Hact Ho];
    cbn [w_log w_sessions w_calls logged set_session set_calls]; try (intros H; left; by exists b).
  - intros [H|[Hge [Hm [= <- <-]]%list_lookup_singleton_Some]]%lookup_app_Some; [left; by exists b|right].
    exists td. do 2 f_equal. lia.
  - intros [(<- & [= <- <-] & _)|[_ H]]%list_lookup_insert_Some; left; eauto.
  - intros [(<- & [= <- <-] & _)|[_ H]]%list_lookup_insert_Some; left; eauto.
Qed.

Lemma asked_inv_move w w' : asked_inv w -> move w w' -> asked_inv w'.
Proof.
  intros [Hs Ha Ho Hc Hsi] Hm. destruct (move_keeps _ _ Hm) as (Hincl & Hkeep & Hnew).
  pose proof (move_log _ _ Hm) as Hlog.
  assert (forall e n, In e (w_log w) -> opensSession e = Some n ->
    exists s, w_sessions w' !! n = Some s /\ openedBy n (intent s) e) as Ho'.
  { intros e n He E. destruct (Ho e n He E) as (s & Hn & H). destruct (Hkeep n s Hn) as (s' & Hs' & Ei).
    exists s'. by rewrite Ei. }
  constructor.
  - intros n s' H. destruct (Hnew n s' H) as [(s & Hn & ->)|(e & -> & He)].
    + destruct (Hs n s Hn) as (e & He & Hb). eauto.
    + exists e. split; [by left|done].
  - assert (forall call n td, In (Asked call n td) (w_log w) ->
              exists i e, In e (w_log w') /\ openedBy n i e /\ checked i td) as Ha'.
    { intros call n td H. destruct (Ha call n td H) as (i & e & He & Hb). eauto. }
    destruct Hlog as [->|(e & E & _ & Hask & _)]; [done|]. intros call n td. rewrite E.
    intros [->|H]; [|rewrite <- E; by eapply Ha'].
    destruct (Hask _ _ _ eq_refl) as (s & Hn & Hck). destruct (Hs n s Hn) as (e' & He & Hb).
    exists (intent s), e'. split_and!; [by right|done..].
  - destruct Hlog as [->|(e & E & Hop & _)]; [done|]. intros e' n. rewrite E. intros [->|H]; [by apply Hop|by apply Ho'].
  - intros call n b H. destruct (move_calls _ _ _ _ _ Hm H) as [(b' & H')|(td & ->)].
    + destruct (Hc _ _ _ H') as (td & Htd). eauto.
    + exists td. by left.
  - intros call n signature H. destruct Hlog as [E|(e & E & _ & _ & Hsig)]; rewrite E in H |- *; [by eapply Hsi|].
    destruct H as [->|H].
    + destruct (Hsig _ _ _ eq_refl) as (b & Hb). destruct (Hc _ _ _ Hb) as (td & Htd). exists td. by right.
    + destruct (Hsi _ _ _ H) as (td & Htd). exists td. by right.
Qed.

Lemma reachable_asked w : reachable w -> asked_inv w.
Proof. apply reachable_moves; [by constructor|]. intros. by eapply asked_inv_move. Qed.

(** ** Signatures of a session *)

(** How often a predicate holds on a list. *)
Definition count {A} (p : A -> bool) (l : list A) : nat := length (List.filter p l).

Lemma count_app {A} (p : A -> bool) l l' : count p (l ++ l') = (count p l + count p l')%nat.
Proof. unfold count. by rewrite List.filter_app, length_app. Qed.

Lemma count_insert {A} (p : A -> bool) l i x y :
  l !! i = Some x -> (count p (<[i := y]> l) + (if p x then 1 else 0) = count p l + (if p y then 1 else 0))%nat.
Proof.
  unfold count. revert i. induction l as [|z l IH]; intros [|i] H; simpl in *; try done.
  - injection H as ->. destruct (p x), (p y); simpl; lia.
  - specialize (IH i H). destruct (p z); simpl; lia.
Qed.

Definition signedIn (n : nat) (e : Entry) : bool :=
  match e with Signed _ m _ => (m =? n)%nat | _ => false end.

Definition returnedIn (n : nat) (e : Entry) : bool :=
  match e with Returned m _ => (m =? n)%nat | _ => false end.

Definition pendingIn (n : nat) (c : nat * bool) : bool := (c.1 =? n)%nat && negb c.2.

(** The signer is called, or answers, for a session. *)
Definition signingIn (n : nat) (e : Entry) : bool :=
  match e with Signed _ m _ | Asked _ m _ => (m =? n)%nat | _ => false end.

(** What a log says of session [n]: once its work has returned it signs nothing more. *)
Fixpoint orderly (n : nat) (log : list Entry) : Prop :=
  match log with
  | [] => True
  | e :: rest => (signingIn n e = true -> count (returnedIn n) rest = 0%nat) /\ orderly n rest
  end.

Lemma count_cons {A} (p : A -> bool) x l : count p (x :: l) = ((if p x then 1 else 0) + count p l)%nat.
Proof. unfold count. simpl. by destruct (p x). Qed.

Lemma count_nil {A} (p : A -> bool) : count p [] = 0%nat.
Proof. done. Qed.

Lemma count_pos {A} (p : A -> bool) x l : In x l -> p x = true -> (1 <= count p l)%nat.
Proof.
  induction l as [|y l IH]; [done|]. rewrite count_cons. intros [->|H] Hp; [rewrite Hp; lia|]. specialize (IH H Hp). lia.
Qed.

Lemma openedBy_log n i e m : openedBy n i e -> signedIn m e = false /\ returnedIn m e = false /\ signingIn m e = false.
Proof. destruct i; simpl; intros (? & -> & _); done. Qed.

Lemma pendingIn_eq n b : pendingIn n (n, b) = negb b.
Proof. unfold pendingIn. simpl. by rewrite Nat.eqb_refl. Qed.

Lemma pendingIn_ne n k b : k <> n -> pendingIn n (k, b) = false.
Proof. intros H%Nat.eqb_neq. unfold pendingIn. simpl. by rewrite H. Qed.

(** The tallies of one session through a step. *)
Definition tallied (w : World) (n : nat) : Prop :=
  match w_sessions w !! n with
  | Some s => count (pendingIn n) (w_calls w) = (if decide (signatureState s = Pending) then 1 else 0)%nat
              /\ count (signedIn n) (w_log w) = (if decide (signatureState s = Complete) then 1 else 0)%nat
              /\ count (returnedIn n) (w_log w) = (if active s then 0 else 1)%nat
  | None => count (pendingIn n) (w_calls w) = 0%nat /\ count (signedIn n) (w_log w) = 0%nat
            /\ count (returnedIn n) (w_log w) = 0%nat
  end.

(** Sessions other than the one a step is about. *)
Lemma tallied_other n k s w calls log :
  k <> n -> tallied w n -> count (pendingIn n) calls = count (pendingIn n) (w_calls w) ->
  count (signedIn n) log = count (signedIn n) (w_log w) -> count (returnedIn n) log = count (returnedIn n) (w_log w) ->
  tallied {| w_sessions := <[k := s]> (w_sessions w); w_calls := calls; w_log := log |} n.
Proof. unfold tallied. intros Hne H H1 H2 H3. simpl. rewrite list_lookup_insert_ne by done. by rewrite H1, H2, H3. Qed.

(** A call that settles was the pending one. *)
Lemma settle_counts n k calls call :
  calls !! call = Some (k, false) ->
  count (pendingIn n) (<[call := (k, true)]> calls)
  = (count (pendingIn n) calls - (if decide (k = n) then 1 else 0))%nat
  /\ (k = n -> 1 <= count (pendingIn n) calls)%nat.
Proof.
  intros H. pose proof (count_insert (pendingIn n) _ _ _ (k, true) H) as Hi.
  case_decide as E; [subst k; rewrite !pendingIn_eq in Hi|rewrite !pendingIn_ne in Hi by done]; simpl in Hi; lia.
Qed.

Lemma tallied_move n w w' : tallied w n -> move w w' -> tallied w' n.
Proof.
  intros Hc Hm.
  destruct Hm as [i e Ho|k s td Hn Hact Hst Hck|call k s signature Hcall Hn Hact|call k s Hcall Hn|k s outcome Hn Hact Ho].
  - unfold tallied in *. cbn [w_log w_sessions w_calls]. rewrite !count_cons.
    destruct (openedBy_log _ _ _ n Ho) as (-> & -> & _). destruct (decide (n < length (w_sessions w))%nat) as [Hl|Hl].
    + by rewrite lookup_app_l.
    + rewrite lookup_ge_None_2 in Hc by lia. destruct (decide (n = length (w_sessions w))) as [->|].
      * rewrite lookup_app_r, Nat.sub_diag by lia. simpl. lia.
      * rewrite lookup_ge_None_2; [simpl; lia|]. rewrite length_app. simpl. lia.
  - destruct (decide (k = n)) as [->|Hne].
    + unfold tallied in *. rewrite Hn in Hc. cbn [w_log w_sessions w_calls logged set_session set_calls].
      rewrite list_lookup_insert_eq by (by eapply lookup_lt_Some). rewrite count_app, !count_cons, pendingIn_eq.
      rewrite Hst, Hact in Hc. simpl in *. rewrite Hact, count_nil. lia.
    + apply (tallied_other n k _ w); [done..| | |]; cbn [w_log w_sessions w_calls set_session set_calls];
        rewrite ?count_app, ?count_cons, ?count_nil, ?pendingIn_ne by done; cbn [signedIn returnedIn]; lia.
  - destruct (settle_counts n _ _ _ Hcall) as [Hp H1]. destruct (decide (k = n)) as [->|Hne].
    + unfold tallied in *. rewrite Hn in Hc. cbn [w_log w_sessions w_calls logged set_session set_calls].
      rewrite list_lookup_insert_eq by (by eapply lookup_lt_Some). rewrite Hp, !count_cons. cbn [signedIn returnedIn].
      rewrite Nat.eqb_refl. specialize (H1 eq_refl). destruct (signatureState s); simpl in *; lia.
    + apply (tallied_other n k _ w); [done..| | |]; cbn [w_log w_sessions w_calls set_session set_calls];
        rewrite ?Hp, ?count_cons; cbn [signedIn returnedIn]; rewrite ?(proj2 (Nat.eqb_neq _ _) Hne); lia.
  - destruct (settle_counts n _ _ _ Hcall) as [Hp H1]. destruct (decide (k = n)) as [->|Hne].
    + unfold tallied in *. rewrite Hn in Hc. cbn [w_log w_sessions w_calls logged set_session set_calls].
      rewrite list_lookup_insert_eq by (by eapply lookup_lt_Some). rewrite Hp.
      specialize (H1 eq_refl). destruct (signatureState s); simpl in *; lia.
    + apply (tallied_other n k _ w); [done..| | |]; cbn [w_log w_sessions w_calls set_session set_calls]; lia.
  - destruct (decide (k = n)) as [->|Hne].
    + unfold tallied in *. rewrite Hn in Hc. cbn [w_log w_sessions w_calls logged set_session set_calls].
      rewrite list_lookup_insert_eq by (by eapply lookup_lt_Some). rewrite !count_cons. cbn [signedIn returnedIn].
      rewrite Nat.eqb_refl. rewrite Hact in Hc. simpl in *. lia.
    + apply (tallied_other n k _ w); [done..| | |]; cbn [w_log w_sessions w_calls set_session set_calls];
        rewrite ?count_cons; cbn [signedIn returnedIn]; rewrite ?(proj2 (Nat.eqb_neq _ _) Hne); lia.
Qed.

Lemma tallied_initial n : tallied initial n.
Proof. unfold tallied. simpl. by rewrite !count_nil. Qed.

Lemma reachable_tallied w n : reachable w -> tallied w n.
Proof. apply (reachable_moves (fun w => tallied w n)); [apply tallied_initial|]. intros. by eapply tallied_move. Qed.

(** Signing entries come while the work of their session runs, and work that ended well
    ended with a signature. *)
Record history_inv (n : nat) (w : World) : Prop := {
  hi_tallied : tallied w n;
  hi_ok : In (Returned n (Ok tt)) (w_log w) -> count (signedIn n) (w_log w) = 1%nat;
  hi_orderly : orderly n (w_log w);
}.

Lemma running_not_returned n w s :
  tallied w n -> w_sessions w !! n = Some s -> active s = true -> count (returnedIn n) (w_log w) = 0%nat.
Proof. unfold tallied. intros H Hs Ha. rewrite Hs, Ha in H. lia. Qed.

Lemma history_inv_move n w w' : history_inv n w -> move w w' -> history_inv n w'.
Proof.
  intros [Ht Hok Hord] Hm. pose proof (tallied_move _ _ _ Ht Hm) as Ht'.
  destruct Hm as [i e Ho|k s td Hn Hact Hst Hck|call k s signature Hcall Hn Hact|call k s Hcall Hn|k s outcome Hn Hact Ho];
    (constructor; [done|..]); clear Ht'; cbn [w_log logged orderly] in *; try rewrite count_cons.
  - destruct (openedBy_log _ _ _ n Ho) as (-> & _). intros [->|H]; [|by apply Hok].
    destruct i; simpl in Ho; destruct Ho as (? & [=] & _).
  - destruct (openedBy_log _ _ _ n Ho) as (_ & _ & ->). done.
  - intros [[=]|H]. by apply Hok.
  - split; [|done]. simpl. intros ->%Nat.eqb_eq. by eapply running_not_returned.
  - intros [[=]|H]. cbn [signedIn]. destruct (Nat.eqb_spec k n) as [->|]; [|by apply Hok].
    apply (count_pos (returnedIn n)) in H; [|simpl; apply Nat.eqb_refl].
    pose proof (running_not_returned n w s Ht Hn Hact). simpl in *. lia.
  - split; [|done]. simpl. intros ->%Nat.eqb_eq. by eapply running_not_returned.
  - done.
  - done.
  - intros [[= -> ->]|H]; [|by apply Hok]. unfold tallied in Ht. rewrite Hn in Ht. rewrite (Ho eq_refl) in Ht. simpl in *. lia.
  - by split.
Qed.

Lemma reachable_history n w : reachable w -> history_inv n w.
Proof.
  apply (reachable_moves (history_inv n)); [|intros; by eapply history_inv_move].
  constructor; [apply tallied_initial|done|done].
Qed.

Lemma orderly_split n log : orderly n log ->
  forall newer e older, log = newer ++ e :: older -> signingIn n e = true -> forall outcome, ~ In (Returned n outcome) older.
Proof.
  intros Ho newer. revert log Ho. induction newer as [|x newer IH]; intros log Ho e older ->; simpl in Ho.
  - intros Hs outcome Hin. apply (count_pos (returnedIn n)) in Hin; [|simpl; apply Nat.eqb_refl].
    pose proof (proj1 Ho Hs). lia.
  - exact (IH _ (proj2 Ho) e older eq_refl).
Qed.

End Steps.

(** ** What may be signed *)

Section Promises.
Context (getAddress : string -> option string) (wallet : Wallet).

(** What session [n] was opened for allows the payload. *)
Definition mayBeSigned (n : nat) (w : World) (td : OpenSeaTypedDataInput) : Prop :=
  (exists a ex, In (OpenedOffer n a) (w_log w) /\ expects getAddress wallet a ex /\ isAllowedOffer getAddress wallet ex td)
  \/ (exists address hash protocol, In (OpenedCancellation n address hash) (w_log w)
        /\ getAddress address = Some protocol
        /\ (exists a, getAddress protocol = Some a /\ getAddress seaportAddress = Some a)
        /\ isCancellation getAddress protocol hash td).

Lemma checked_mayBeSigned w n i e td :
  In e (w_log w) -> openedBy getAddress wallet n i e -> checked getAddress wallet i td -> mayBeSigned n w td.
Proof.
  intros He Ho Hc. destruct i as [ex|protocol hash]; simpl in Ho, Hc.
  - left. destruct Ho as (a & -> & Hx%createOfferSigningExpectation_ok). exists a, ex. split_and!; [done..|].
    by apply assertOfferTypedData_ok.
  - right. destruct Ho as (address & -> & Hp & Hsea & Hh). exists address, hash, protocol. split_and!; [done..|].
    by apply assertCancellationTypedData_ok.
Qed.

Lemma mayBeSigned_checked w n s td :
  asked_inv getAddress wallet w -> w_sessions w !! n = Some s -> mayBeSigned n w td -> checked getAddress wallet (intent s) td.
Proof.
  intros Hi Hn [(a & ex & Ho & Hx & Htd)|(address & hash & protocol & Ho & Hp & Hsea & Htd)];
    destruct (ai_opened _ _ _ Hi _ n Ho eq_refl) as (s' & Hs' & Hb); rewrite Hn in Hs'; injection Hs' as <-;
    destruct (intent s) as [ex'|p' h']; simpl in *.
  - destruct Hb as (? & [= <-] & Hx'%createOfferSigningExpectation_ok). apply assertOfferTypedData_ok.
    apply createOfferSigningExpectation_ok in Hx, Hx'. rewrite Hx in Hx'. by injection Hx' as <-.
  - by destruct Hb as (? & [=] & _).
  - by destruct Hb as (? & [=] & _).
  - destruct Hb as (? & [= <- <-] & Hp' & _ & Hh). rewrite Hp in Hp'. injection Hp' as <-.
    by apply assertCancellationTypedData_ok.
Qed.

(** C14: a request of the SDK reaches the signer exactly when the work of its session still
    runs, the session has neither a signature nor a request under way, and the payload is
    what the session was opened for: an order the authorization allows, with the price,
    the asset, the quantity, the recipient and the expiration authorized, or the hash of
    the order to cancel. *)
Theorem request_signed_iff w n s input :
  reachable getAddress wallet w -> w_sessions w !! n = Some s ->
  (exists call, fst (signTypedData getAddress wallet (Some n) input w) = Ok call)
  <-> active s = true /\ signatureState s = Available
      /\ exists td, normalizeTypedDataInput input = Ok td /\ mayBeSigned n w td.
Proof.
  intros Hr Hn. unfold signTypedData, checkRequest. simpl. rewrite Hn. simpl.
  destruct (active s); simpl; [|naive_solver]. case_bool_decide as Hst; simpl; [|naive_solver].
  assert (forall td, (match intent s with
      | OfferIntent ex => assertOfferTypedData getAddress wallet td ex
      | OffchainCancellationIntent p h => assertCancellationTypedData getAddress td p h end) = Ok tt
    <-> checked getAddress wallet (intent s) td) as Hck by (intros td; by destruct (intent s)).
  destruct (normalizeTypedDataInput input) as [td|e]; simpl; [|naive_solver].
  pose proof (reachable_asked _ _ _ Hr) as Hi. specialize (Hck td). split.
  - intros (call & H). split_and!; [done..|]. exists td. split; [done|].
    destruct (ai_sessions _ _ _ Hi n s Hn) as (e & He & Hb). eapply checked_mayBeSigned; [done..|].
    apply Hck. destruct (match intent s with OfferIntent _ => _ | OffchainCancellationIntent _ _ => _ end) as [[]|]; done.
  - intros (_ & _ & td' & [= <-] & Hm). apply (mayBeSigned_checked w n s td Hi Hn), Hck in Hm. rewrite Hm. simpl. by eexists.
Qed.

(** C15: an operation obtains at most one signature, and the signer is called for it, and
    answers it, only while its work runs; never are two calls for it under way.  When the
    operation ends without an error it has obtained exactly one, for a payload it asked
    for. *)
Theorem one_signature_per_operation w n :
  reachable getAddress wallet w ->
  (count (signedIn n) (w_log w) <= 1)%nat
  /\ (count (pendingIn n) (w_calls w) <= 1)%nat
  /\ (In (Returned n (Ok tt)) (w_log w) -> count (signedIn n) (w_log w) = 1%nat)
  /\ (forall call signature, In (Signed call n signature) (w_log w) -> exists td, In (Asked call n td) (w_log w))
  /\ forall newer e older, w_log w = newer ++ e :: older -> signingIn n e = true ->
       forall outcome, ~ In (Returned n outcome) older.
Proof.
  intros Hr. destruct (reachable_history _ _ n w Hr) as [Ht Hok Ho].
  assert (count (signedIn n) (w_log w) <= 1 /\ count (pendingIn n) (w_calls w) <= 1)%nat as [H1 H2].
  { unfold tallied in Ht. destruct (w_sessions w !! n) as [s|]; [|lia]. destruct Ht as (-> & -> & _).
    by destruct (signatureState s); simpl; lia. }
  split_and!; [done..| |].
  - intros call signature. apply (ai_signed _ _ _ (reachable_asked _ _ _ Hr)).
  - by apply orderly_split.
Qed.

(** ** What an offer can cost *)

(** The asset a target names: its token, or any tokens of the collection, chosen by OpenSea
    only for targets that need its signed zone. *)
Definition assetOf (t : BidderTarget) (c : ConsiderationItem) : Prop :=
  match t with
  | TokenTarget tokenId =>
      (si_itemType (ci_item c) = Erc721 \/ si_itemType (ci_item c) = Erc1155)
      /\ uintOf (VStr tokenId) = Some (si_identifier (ci_item c))
  | CollectionTarget _ _ | CompetitiveTraitTarget _ _ _ =>
      (si_itemType (ci_item c) = Erc721WithCriteria \/ si_itemType (ci_item c) = Erc1155WithCriteria)
      /\ (bidderTargetRequiresOpenSeaSignedZoneTrust t = false -> si_identifier (ci_item c) = 0)
  end.

(** A payload that buys what the mandate authorizes: the maker gives exactly the amount
    authorized, in WETH, within the cap per unit and the allowance; fees are paid out of
    it; and the maker receives exactly the quantity the job asks of the asset it names,
    which is within the quantity of the collection. *)
Definition mandatedPurchase (mandate : Mandate.BiddingMandate) (maker : string)
    (a : OpenSeaOfferSigningAuthorization) (td : OpenSeaTypedDataInput) : Prop :=
  exists authority collection weth o before nft after q,
    jm_get (Domain.collectionId (job a)) (Mandate.collectionsById mandate) = Some authority
    /\ canonical (collectionAddress (job a)) = Mandate.ca_contractAddress authority
    /\ getAddress (collectionAddress (job a)) = Some collection
    /\ getAddress policyWethAddress = Some weth
    /\ domainIs getAddress (domain td) seaportAddress
    /\ primaryType td = "OrderComponents"%string
    /\ schemaIs (types td) SEAPORT_ORDER_TYPES
    /\ readOrder getAddress (message td) = Some o
    /\ so_offerer o = maker
    /\ so_offer o = [{| si_itemType := Erc20; si_token := weth; si_identifier := 0;
                        si_startAmount := totalAmountWei a; si_endAmount := totalAmountWei a |}]
    /\ so_consideration o = before ++ nft :: after
    /\ si_token (ci_item nft) = collection
    /\ ci_recipient nft = maker
    /\ assetOf (target (job a)) nft
    /\ (bidderTargetRequiresOpenSeaSignedZoneTrust (target (job a)) = true ->
        Mandate.trustOpenSeaSignedZoneTraitOffers (Mandate.startPolicy mandate) = true)
    /\ Mandate.asksQuantity (job a) q
    /\ si_startAmount (ci_item nft) = q /\ si_endAmount (ci_item nft) = q
    /\ q <= Mandate.ca_maxQuantity authority
    /\ 0 < totalAmountWei a <= Mandate.ca_maxUnitBidWei authority * q
    /\ totalAmountWei a <= Mandate.wethAllowanceCapWei (Mandate.startPolicy mandate)
    /\ Forall (fun c => si_itemType (ci_item c) = Erc20 /\ si_token (ci_item c) = weth) (before ++ after)
    /\ feesOf (before ++ after) <= totalAmountWei a
    /\ expirationTime a = NInt (so_endTime o).

(** The quantity bought is the one resolved. *)
Lemma targetItem_quantity w a ex c :
  expects getAddress w a ex -> targetItem getAddress w ex c ->
  si_startAmount (ci_item c) = ex_quantity ex /\ si_endAmount (ci_item c) = ex_quantity ex.
Proof.
  intros Hx (_ & _ & Ht). pose proof (ep_token _ _ _ _ Hx) as Htok. pose proof (ep_quantity _ _ _ _ Hx) as Hq.
  destruct (ex_tokenId ex) as [id|]; [|naive_solver].
  unfold Mandate.resolveOfferQuantity in Hq. destruct (target (job a)); try done. injection Hq as <-. naive_solver.
Qed.

(** The asset bought is the one named. *)
Lemma targetItem_asset w a ex c :
  expects getAddress w a ex -> targetItem getAddress w ex c -> assetOf (target (job a)) c.
Proof.
  intros Hx (_ & _ & Ht). pose proof (ep_token _ _ _ _ Hx) as Htok. pose proof (ep_zone _ _ _ _ Hx) as Hz.
  pose proof (ep_isToken _ _ _ _ Hx) as Hid. unfold assetOf. destruct (target (job a)) as [tokenId|n k|n k t].
  - destruct (Hid ltac:(eauto)) as [id Hs]. rewrite Hs in Htok, Ht. destruct Ht as (Ht & -> & _). done.
  - rewrite Htok, <- Hz in *. naive_solver.
  - rewrite Htok, <- Hz in *. naive_solver.
Qed.

Lemma allowed_mandated w a ex td :
  (forall text address, getAddress text = Some address -> getAddress address = Some address) ->
  getAddress (makerAddress w) = Some (makerAddress w) -> getAddress policyWethAddress = Some (wethAddress w) ->
  expects getAddress w a ex -> isAllowedOffer getAddress w ex td ->
  mandatedPurchase (biddingMandate w) (makerAddress w) a td.
Proof.
  intros Hidem Hmaker Hweth Hx (Hd & Hp & Hs & o & Ho & Hallow & _).
  destruct (proj1 (Mandate.assertOfferAuthorized_ok _ _ _) (ep_mandate _ _ _ _ Hx)) as (c & q & Hc & Hcan & _ & Hq & Hmax & Hcap).
  pose proof (proj2 (Mandate.resolveOfferQuantity_asks _ _) Hq) as Hres.
  rewrite (ep_quantity _ _ _ _ Hx) in Hres. injection Hres as <-.
  destruct (oa_offer _ _ _ _ Hallow) as (weth & Hw & Hoffer).
  rewrite (Hidem _ _ Hweth) in Hw. injection Hw as <-.
  destruct (oa_consideration _ _ _ _ Hallow) as (before & nft & after & Hsplit & Hnft & Hfees & Htotal).
  destruct (targetItem_quantity _ _ _ _ Hx Hnft) as [Hstart Hend]. pose proof (targetItem_asset _ _ _ _ Hx Hnft) as Hasset.
  pose proof (ep_trust _ _ _ _ Hx) as Htrust. rewrite (ep_zone _ _ _ _ Hx) in Htrust. destruct Hnft as (Htoken & Hrec & _).
  pose proof (oa_offerer _ _ _ _ Hallow) as Hofferer. rewrite Hmaker in Hofferer, Hrec.
  injection Hofferer as Hofferer. injection Hrec as Hrec.
  rewrite (ep_amount _ _ _ _ Hx) in Hoffer, Htotal.
  exists c, (ex_collectionAddress ex), (wethAddress w), o, before, nft, after, (ex_quantity ex).
  pose proof (ep_collection _ _ _ _ Hx). pose proof (ep_cap _ _ _ _ Hx). pose proof (ep_expiration _ _ _ _ Hx).
  pose proof (oa_expiration _ _ _ _ Hallow) as Hexp.
  split_and!; try done; try congruence; try lia.
  eapply Forall_impl; [exact Hfees|]. intros i (Ht & Hw & _). rewrite (Hidem _ _ Hweth) in Hw. split; congruence.
Qed.

(** C2: whatever the SDK does, the signer is asked only for purchases the mandate
    authorizes, each for exactly the amount and expiration its operation was authorized
    with and exactly the quantity and asset its job asks for, and for the cancellation of
    the order an operation names, on the pinned Seaport contract. *)
Theorem wallet_signs_only_mandated signer configuredWeth mandate w s call n td :
  (forall text address, getAddress text = Some address -> getAddress address = Some address) ->
  createWallet getAddress signer configuredWeth mandate = Ok w ->
  reachable getAddress w s -> In (Asked call n td) (w_log s) ->
  (exists a, In (OpenedOffer n a) (w_log s) /\ mandatedPurchase mandate (makerAddress w) a td)
  \/ (exists address hash, In (OpenedCancellation n address hash) (w_log s)
        /\ getAddress address = getAddress seaportAddress /\ isCancellation getAddress seaportAddress hash td).
Proof.
  intros Hidem Hw Hr Hin. unfold createWallet in Hw.
  apply try_iff in Hw as (maker & Hm%walletAddress_ok & Hw). apply try_iff in Hw as (weth & Hwe%walletAddress_ok & Hw).
  apply check_iff in Hw as [(p & Hp & Hpol)%assertAddressEquals_ok [= <-]].
  rewrite (Hidem _ _ Hwe) in Hp. injection Hp as <-.
  pose proof (reachable_asked _ _ _ Hr) as Hi. destruct (ai_asked _ _ _ Hi call n td Hin) as (i & e & He & Hb & Hc).
  destruct i as [ex|protocol hash]; simpl in Hb, Hc.
  - left. destruct Hb as (a & -> & Hx%createOfferSigningExpectation_ok). exists a. split; [done|].
    apply assertOfferTypedData_ok in Hc.
    exact (allowed_mandated {| makerAddress := maker; wethAddress := weth; biddingMandate := mandate |}
             a ex td Hidem (Hidem _ _ Hm) Hpol Hx Hc).
  - right. destruct Hb as (address & -> & Ha & (b & Hb1 & Hb2) & Hh). exists address, hash. split; [done|].
    rewrite (Hidem _ _ Ha) in Hb1. injection Hb1 as <-. split; [congruence|].
    apply assertCancellationTypedData_ok in Hc; [|done]. destruct Hc as (Hd & Hrest). split; [|done].
    destruct Hd as (H1 & H2 & H3 & H4 & x & Hx1 & Hx2). split_and!; [done..|]. exists x. split; [done|].
    rewrite (Hidem _ _ Ha) in Hx2. congruence.
Qed.

End Promises.

(** ** An example run *)

(** A stand-in for viem's [getAddress] that keeps addresses in lower case. *)
Definition lowerAddress (text : string) : option string :=
  let lowered := toLowerCase text in if Mandate.EVM_ADDRESS_PATTERN lowered then Some lowered else None.

Definition exampleMaker : string := "0x1111111111111111111111111111111111111111".

Definition exampleCollection : string := "0x4e1f41613c9084fdb9e34e11fae9412427480e56".

Definition exampleMandate : Mandate.BiddingMandate := {|
  Mandate.chainId := 1;
  Mandate.startPolicy := {| Mandate.wethAllowanceCapWei := 500;
    Mandate.trustOpenSeaSignedZoneTraitOffers := false;
    Mandate.minPriorityFeePerGasWei := 1; Mandate.maxFeePerGasWei := 2;
    Mandate.maxTotalGasFeeWei := 3; Mandate.pendingNoncePolicy := Mandate.NonceFail |};
  Mandate.collectionsById := [(7, {| Mandate.ca_collectionId := 7;
    Mandate.ca_contractAddress := exampleCollection; Mandate.ca_openseaSlug := "terraforms";
    Mandate.ca_maxUnitBidWei := 60; Mandate.ca_maxQuantity := 3 |})] |}.

Definition exampleJob : BidderJob := {|
  job_id := "job"; revision := 1; Domain.collectionId := 7; collectionAddress := exampleCollection;
  collectionSlug := "terraforms"; target := CollectionTarget (NInt 2) None;
  config := {| ceiling := 100; floor := 1; delta := 1; extraCompetitionTraits := None |};
  state := emptyState |}.

Definition exampleAuthorization : OpenSeaOfferSigningAuthorization :=
  {| job := exampleJob; totalAmountWei := 100; expirationTime := NInt 2000 |}.

Definition member (m : string * string) : jsval := VObj [("name", VStr (fst m)); ("type", VStr (snd m))]%string.

Definition schemaValue (s : Schema) : jsval := VObj (map (fun '(name, members) => (name, VArr (map member members))) s).

Definition exampleItem (itemType : Z) (token : string) (amount : Z) : Fields :=
  [("itemType", VNum (NInt itemType)); ("token", VStr token); ("identifierOrCriteria", VStr "0");
   ("startAmount", VStr (Z_toString amount)); ("endAmount", VBigInt amount)]%string.

Definition examplePayload (price : Z) : jsval :=
  VObj [
    ("account", VFunction);
    ("domain", VObj [("name", VStr seaportName); ("version", VStr seaportVersion); ("chainId", VNum (NInt 1));
                     ("verifyingContract", VStr seaportAddress)]);
    ("types", schemaValue SEAPORT_ORDER_TYPES);
    ("primaryType", VStr "OrderComponents");
    ("message", VObj [
      ("offerer", VStr exampleMaker); ("zone", VStr signedZoneAddress);
      ("offer", VArr [VObj (exampleItem Erc20 policyWethAddress price)]);
      ("consideration", VArr [
         VObj (exampleItem Erc721WithCriteria exampleCollection 2 ++ [("recipient", VStr exampleMaker)]);
         VObj (exampleItem Erc20 policyWethAddress 5
                 ++ [("recipient", VStr "0x0000a26b00c1f0df003000390027140000faa719")])]);
      ("orderType", VNum (NInt 3)); ("startTime", VStr "1000"); ("endTime", VStr "0x7d0");
      ("zoneHash", VStr zeroBytes32); ("salt", VStr "0"); ("conduitKey", VStr policyConduitKey);
      ("counter", VStr "0"); ("totalOriginalConsiderationItems", VNum (NInt 2))])]%string.

Definition exampleWallet : Wallet := {|
  makerAddress := exampleMaker; wethAddress := toLowerCase policyWethAddress; biddingMandate := exampleMandate |}.

Definition exampleEvents : list Event := [
  AuthorizeOffer exampleAuthorization;
  SdkAction SendTransaction;
  SignTypedData None (examplePayload 100);
  SignTypedData (Some 0%nat) (examplePayload 101);
  SignTypedData (Some 0%nat) (examplePayload 100);
  SignTypedData (Some 0%nat) (examplePayload 100);
  SignerSettles 0 (Ok "0xsigned"%string);
  SignTypedData (Some 0%nat) (examplePayload 100);
  WorkSettles 0 (Ok tt)].

Definition exampleRun (events : list Event) : World :=
  fold_left (fun w e => handle lowerAddress exampleWallet e w) events initial.

Lemma exampleRun_reachable events : reachable lowerAddress exampleWallet (exampleRun events).
Proof.
  unfold exampleRun. assert (reachable lowerAddress exampleWallet initial) as H by constructor.
  revert H. generalize initial. induction events as [|e events IH]; intros w H; simpl; [done|].
  by apply IH, reach_handle.
Qed.

Lemma lowerAddress_idem text address : lowerAddress text = Some address -> lowerAddress address = Some address.
Proof.
  unfold lowerAddress. destruct (Mandate.EVM_ADDRESS_PATTERN (toLowerCase text)) eqn:E; [|done].
  intros [= <-]. by rewrite toLowerCase_idemp, E.
Qed.

Definition askedOf (w : World) : list OpenSeaTypedDataInput :=
  omap (fun e => match e with Asked _ _ td => Some td | _ => None end) (w_log w).

Example exampleRun_asks_once : length (askedOf (exampleRun exampleEvents)) = 1%nat.
Proof. vm_compute. reflexivity. Qed.

Definition exampleTypedData : OpenSeaTypedDataInput :=
  match normalizeTypedDataInput (examplePayload 100) with
  | Ok td => td
  | Err _ => {| domain := []; types := []; primaryType := ""; message := [] |}
  end.

Lemma wallet_signs_only_mandated_witness :
  In (Asked 0 0 exampleTypedData) (w_log (exampleRun exampleEvents))
  /\ mandatedPurchase lowerAddress exampleMandate exampleMaker exampleAuthorization exampleTypedData.
Proof.
  assert (createWallet lowerAddress exampleMaker policyWethAddress exampleMandate = Ok exampleWallet) as Hw
    by (vm_compute; reflexivity).
  assert (In (Asked 0 0 exampleTypedData) (w_log (exampleRun exampleEvents))) as Hin
    by (vm_compute; right; right; left; reflexivity).
  split; [exact Hin|].
  destruct (wallet_signs_only_mandated lowerAddress exampleMaker policyWethAddress exampleMandate exampleWallet
              (exampleRun exampleEvents) 0 0 exampleTypedData lowerAddress_idem Hw (exampleRun_reachable _) Hin)
    as [(a & Ha & H)|(address & hash & Ha & _)].
  - assert (a = exampleAuthorization) as <-; [|exact H].
    vm_compute in Ha. repeat (destruct Ha as [Ha|Ha]; [try discriminate Ha; injection Ha as <-; reflexivity|]). destruct Ha.
  - exfalso. vm_compute in Ha. repeat (destruct Ha as [Ha|Ha]; [discriminate Ha|]). destruct Ha.
Defined.

Definition exampleOpened : World := exampleRun [AuthorizeOffer exampleAuthorization].

Lemma request_signed_iff_witness :
  (exists call, fst (signTypedData lowerAddress exampleWallet (Some 0%nat) (examplePayload 100) exampleOpened) = Ok call)
  /\ mayBeSigned lowerAddress exampleWallet 0 exampleOpened exampleTypedData
  /\ ~ exists call, fst (signTypedData lowerAddress exampleWallet (Some 0%nat) (examplePayload 101) exampleOpened) = Ok call.
Proof.
  assert (is_Some (w_sessions exampleOpened !! 0%nat)) as [s Hs] by (vm_compute; eauto).
  pose proof (request_signed_iff lowerAddress exampleWallet exampleOpened 0 s (examplePayload 100) (exampleRun_reachable _) Hs) as H.
  assert (exists call, fst (signTypedData lowerAddress exampleWallet (Some 0%nat) (examplePayload 100) exampleOpened) = Ok call)
    as Hc by (exists 0%nat; vm_compute; reflexivity).
  split; [exact Hc|]. split.
  - destruct (proj1 H Hc) as (_ & _ & td & Htd & Hm).
    assert (td = exampleTypedData) as <-; [|exact Hm]. unfold exampleTypedData. rewrite Htd. reflexivity.
  - intros [call Hf]. vm_compute in Hf. discriminate Hf.
Defined.

Lemma one_signature_per_operation_witness :
  In (Returned 0 (Ok tt)) (w_log (exampleRun exampleEvents))
  /\ count (signedIn 0) (w_log (exampleRun exampleEvents)) = 1%nat.
Proof.
  assert (In (Returned 0 (Ok tt)) (w_log (exampleRun exampleEvents))) as Hin by (vm_compute; left; reflexivity).
  split; [exact Hin|].
  destruct (one_signature_per_operation lowerAddress exampleWallet (exampleRun exampleEvents) 0 (exampleRun_reachable _))
    as (_ & _ & H & _).
  exact (H Hin).
Defined.

End PolicySessionsClaims.
