(* ===== verification/TransactionPolicy.v ===== *)
(** * Fees and nonces of a transaction

    [shared/evm/transactions.ts]: which fees a transaction of the process's own account
    offers, and when it is not sent at all.  The node is read through
    [EvmTransactionPolicyReader]; nothing constrains its answers.  The observer of
    policy events, which only logs, and the formatting of those events are left out. *)

From S2P Require Import Prelude JsValue.

Open Scope Z_scope.

Module TransactionPolicy.

Definition FEE_MULTIPLIER_BPS_DENOMINATOR : Z := 10000.
Definition WEI_PER_GWEI : Z := 1000000000.

(** [EvmBlockTag] *)
Inductive BlockTag : Type := Latest | Pending.

(** Fields that may be missing or [null] are [None]. *)
Record EvmFeeEstimate := {
  fe_gasPrice : option Z;
  fe_maxFeePerGas : option Z;
  fe_maxPriorityFeePerGas : option Z;
}.

Record EvmLatestBlock := { lb_number : option Z; lb_baseFeePerGas : option Z }.

(** [EvmFeeHistory]: the rewards of each block, one per percentile asked for. *)
Definition EvmFeeHistory : Type := option (list (list Z)).

Class EvmTransactionPolicyReader (W : Type) := {
  getBlock : M W EvmLatestBlock;
  estimateFeesPerGas : M W EvmFeeEstimate;
  getTransactionCount : string -> BlockTag -> M W Z;
  getFeeHistory : option (jsnum -> jsnum -> M W EvmFeeHistory);
}.

Record EvmTransactionFeePolicyConfig := {
  minPriorityFeePerGasWei : Z;
  priorityFeeHistoryBlockCount : jsnum;
  priorityFeeHistoryRewardPercentile : jsnum;
  baseFeeMultiplierBps : Z;
  maxFeePerGasWei : Z;
}.

Record EvmTransactionPolicyConfig := {
  fees : EvmTransactionFeePolicyConfig;
  pendingNoncePolicy : string;
}.

(** The fields of [EvmPreparedTransactionPolicy] that are not copies of the configuration. *)
Record EvmPreparedTransactionPolicy := {
  pp_context : string;
  pp_fromAddress : string;
  pp_blockNumber : option Z;
  pp_baseFeePerGasWei : Z;
  pp_nodeGasPriceWei : option Z;
  pp_nodeMaxFeePerGasWei : option Z;
  pp_nodeMaxPriorityFeePerGasWei : option Z;
  pp_feeHistoryPriorityFeePerGasWei : option Z;
  pp_maxPriorityFeePerGasWei : Z;
  pp_uncappedMaxFeePerGasWei : Z;
  pp_maxFeePerGasWei : Z;
  pp_latestNonce : Z;
  pp_pendingNonce : Z;
}.

(** ** Arithmetic: a BigInt division truncates *)

Definition multiplyByBpsCeil (value multiplierBps : Z) : Z :=
  let scaled := value * multiplierBps in
  Z.quot scaled FEE_MULTIPLIER_BPS_DENOMINATOR
  + (if Z.rem scaled FEE_MULTIPLIER_BPS_DENOMINATOR =? 0 then 0 else 1).

Definition minBigint (left right : Z) : Z := if left <? right then left else right.

Definition maxBigint (left right : Z) : Z := if right <? left then left else right.

Definition collectFeeHistoryRewardSamples (reward : option (list (list Z))) : list Z :=
  match reward with
  | None => []
  | Some blocks =>
      omap (fun blockRewards => match blockRewards with
                                | value :: _ => if 0 <? value then Some value else None
                                | [] => None
                                end) blocks
  end.

Definition selectFeeHistoryPriorityFee (rewardSamples : list Z) : option Z :=
  match rewardSamples with
  | [] => None
  | first :: rest => Some (fold_left (fun max value => if max <? value then value else max) rest first)
  end.

(** ** Texts *)

(** [text.replace] of the zeros at the end. *)
Fixpoint stripZeros (s : string) : string :=
  match s with
  | EmptyString => EmptyString
  | String c s' =>
      let rest := stripZeros s' in
      if Ascii.eqb c "0" && negb (truthy rest) then EmptyString else String c rest
  end.

Definition formatDecimal (value denominator : Z) : string :=
  let whole := Z.quot value denominator in
  let fraction := Z.rem value denominator in
  if fraction =? 0 then Z_toString whole
  else
    let fractionWidth := (String.length (Z_toString denominator) - 1)%nat in
    append (Z_toString whole) (append "." (stripZeros (pad fractionWidth fraction))).

Definition formatWeiAsGwei (valueWei : Z) : string := append (formatDecimal valueWei WEI_PER_GWEI) " gwei".

(** The message of [EvmPendingNonceQueueError]. *)
Definition pendingNonceQueueError (context fromAddress : string) (latestNonce pendingNonce : Z) (policy : string) : string :=
  String.concat ""
    ["Cannot submit "; context; ": pending nonce queue detected for "; fromAddress; ". latestNonce=";
     Z_toString latestNonce; ", pendingNonce="; Z_toString pendingNonce; ", pendingCount=";
     Z_toString (pendingNonce - latestNonce); ", pendingNoncePolicy="; policy]%string.

(** The message of [EvmFeeCapTooLowError]. *)
Definition feeCapTooLowError (context : string) (baseFee priorityFee maxFee cap : Z) : string :=
  String.concat ""
    ["Cannot submit "; context;
     ": configured max fee cap is below the current base fee plus selected priority fee. baseFee=";
     formatWeiAsGwei baseFee; ", priorityFee="; formatWeiAsGwei priorityFee; ", selectedMaxFee=";
     formatWeiAsGwei maxFee; ", configuredMaxFeeCap="; formatWeiAsGwei cap]%string.

(** ** The configuration *)

(** Comparisons of a finite number with an integer. *)
Definition positiveNum (n : jsnum) : bool :=
  match n with NInt z => 0 <? z | NFrac num _ => 0 <? num | NInf negative => negb negative | NNaN => false end.

Definition atMostNum (n : jsnum) (bound : Z) : bool :=
  match n with NInt z => z <=? bound | NFrac num den => num <=? bound * Zpos den
  | NInf negative => negative | NNaN => false end.

Definition validateTransactionPolicyConfig (config : EvmTransactionPolicyConfig) : result unit :=
  let f := fees config in
  if minPriorityFeePerGasWei f <=? 0 then Err "minPriorityFeePerGasWei must be positive"
  else if negb (isIntegerNum (priorityFeeHistoryBlockCount f) && positiveNum (priorityFeeHistoryBlockCount f)
                && atMostNum (priorityFeeHistoryBlockCount f) 1024)
  then Err "priorityFeeHistoryBlockCount must be an integer between 1 and 1024"
  else if negb (isFiniteNum (priorityFeeHistoryRewardPercentile f) && positiveNum (priorityFeeHistoryRewardPercentile f)
                && atMostNum (priorityFeeHistoryRewardPercentile f) 100)
  then Err "priorityFeeHistoryRewardPercentile must be greater than 0 and less than or equal to 100"
  else if baseFeeMultiplierBps f <? FEE_MULTIPLIER_BPS_DENOMINATOR then Err "baseFeeMultiplierBps must be at least 10000"
  else if maxFeePerGasWei f <=? 0 then Err "maxFeePerGasWei must be positive"
  else if maxFeePerGasWei f <? minPriorityFeePerGasWei f
  then Err "maxFeePerGasWei must be greater than or equal to minPriorityFeePerGasWei"
  else if negb (String.eqb (pendingNoncePolicy config) "fail")
  then Err (append "Unsupported pending nonce policy: " (pendingNoncePolicy config))
  else Ok tt.

(** ** Preparation *)

Section Prepare.
Context {W : Type} `{EvmTransactionPolicyReader W}.
Context (config : EvmTransactionPolicyConfig).

(** A call whose failure is kept: what [Promise.all] does with each of its promises
    before it rejects. *)
Definition settled {A} (m : M W A) : M W (result A) := fun w => let '(r, w') := m w in (Ok r, w').

(** [readFeeHistory]: a node without the method, or that fails, selects nothing. *)
Definition readFeeHistory : M W (option Z) :=
  match getFeeHistory with
  | None => mret None
  | Some history =>
      mcatch (let! reward := history (priorityFeeHistoryBlockCount (fees config))
                               (priorityFeeHistoryRewardPercentile (fees config)) in
              mret (selectFeeHistoryPriorityFee (collectFeeHistoryRewardSamples reward)))
             (fun _ => mret None)
  end.

(** What [prepare] makes of the answers. *)
Definition resolve (context fromAddress : string) (latestBlock : EvmLatestBlock) (feeEstimate : EvmFeeEstimate)
    (feeHistory : option Z) (latestNonce pendingNonce : Z) : result EvmPreparedTransactionPolicy :=
  if latestNonce <? pendingNonce then
    Err (pendingNonceQueueError context fromAddress latestNonce pendingNonce (pendingNoncePolicy config))
  else
    match lb_baseFeePerGas latestBlock with
    | None => Err (String.concat "" ["Cannot prepare "; context; ": latest block did not include baseFeePerGas"]%string)
    | Some baseFee =>
        let priorityFee :=
          maxBigint (maxBigint (default 0 (fe_maxPriorityFeePerGas feeEstimate)) (default 0 feeHistory))
                    (minPriorityFeePerGasWei (fees config)) in
        let uncapped := multiplyByBpsCeil baseFee (baseFeeMultiplierBps (fees config)) + priorityFee in
        let maxFee := minBigint uncapped (maxFeePerGasWei (fees config)) in
        if maxFee <? baseFee + priorityFee then
          Err (feeCapTooLowError context baseFee priorityFee maxFee (maxFeePerGasWei (fees config)))
        else
          Ok {| pp_context := context; pp_fromAddress := fromAddress; pp_blockNumber := lb_number latestBlock;
                pp_baseFeePerGasWei := baseFee; pp_nodeGasPriceWei := fe_gasPrice feeEstimate;
                pp_nodeMaxFeePerGasWei := fe_maxFeePerGas feeEstimate;
                pp_nodeMaxPriorityFeePerGasWei := fe_maxPriorityFeePerGas feeEstimate;
                pp_feeHistoryPriorityFeePerGasWei := feeHistory;
                pp_maxPriorityFeePerGasWei := priorityFee; pp_uncappedMaxFeePerGasWei := uncapped;
                pp_maxFeePerGasWei := maxFee; pp_latestNonce := latestNonce; pp_pendingNonce := pendingNonce |}
    end.

(** [prepare]: the five reads run whether or not others fail; of several errors the code
    throws the one that comes first in time, here the first in the list. *)
Definition prepare (context fromAddress : string) : M W EvmPreparedTransactionPolicy :=
  let! latestBlock := settled getBlock in
  let! feeEstimate := settled estimateFeesPerGas in
  let! feeHistory := settled readFeeHistory in
  let! latestNonce := settled (getTransactionCount fromAddress Latest) in
  let! pendingNonce := settled (getTransactionCount fromAddress Pending) in
  fun w =>
    (try latestBlock <- latestBlock;
     try feeEstimate <- feeEstimate;
     try feeHistory <- feeHistory;
     try latestNonce <- latestNonce;
     try pendingNonce <- pendingNonce;
     resolve context fromAddress latestBlock feeEstimate feeHistory latestNonce pendingNonce, w).

End Prepare.

(** ** Laws *)

(** Rounding up: the least whole number that is no less. *)
Lemma multiplyByBpsCeil_spec value bps :
  0 <= value -> 0 <= bps ->
  value * bps <= multiplyByBpsCeil value bps * FEE_MULTIPLIER_BPS_DENOMINATOR < value * bps + FEE_MULTIPLIER_BPS_DENOMINATOR.
Proof.
  intros Hv Hb. unfold multiplyByBpsCeil, FEE_MULTIPLIER_BPS_DENOMINATOR.
  rewrite Z.quot_div_nonneg, Z.rem_mod_nonneg by nia.
  pose proof (Z.div_mod (value * bps) 10000 ltac:(lia)) as E.
  pose proof (Z.mod_pos_bound (value * bps) 10000 ltac:(lia)). destruct (Z.eqb_spec ((value * bps) mod 10000) 0); lia.
Qed.

(** Headroom does not lower a fee. *)
Lemma multiplyByBpsCeil_ge value bps :
  0 <= value -> FEE_MULTIPLIER_BPS_DENOMINATOR <= bps -> value <= multiplyByBpsCeil value bps.
Proof.
  intros Hv Hb. unfold FEE_MULTIPLIER_BPS_DENOMINATOR in *. pose proof (multiplyByBpsCeil_spec value bps Hv ltac:(lia)) as H.
  unfold FEE_MULTIPLIER_BPS_DENOMINATOR in H. nia.
Qed.

Lemma minBigint_min a b : minBigint a b = Z.min a b.
Proof. unfold minBigint. destruct (Z.ltb_spec a b); lia. Qed.

Lemma maxBigint_max a b : maxBigint a b = Z.max a b.
Proof. unfold maxBigint. destruct (Z.ltb_spec b a); lia. Qed.

Lemma selectFeeHistoryPriorityFee_max l :
  match selectFeeHistoryPriorityFee l with
  | Some fee => In fee l /\ forall x, In x l -> x <= fee
  | None => l = []
  end.
Proof.
  destruct l as [|x l]; [done|]. unfold selectFeeHistoryPriorityFee. revert x.
  induction l as [|y l IH]; intros x; simpl; [split; [by left|]; intros z [->|[]]; lia|].
  destruct (Z.ltb_spec x y) as [Hxy|Hxy].
  - specialize (IH y) as [Hin Hmax]. split; [by right|]. intros z [->|Hz]; [|by apply Hmax].
    specialize (Hmax y ltac:(by left)). lia.
  - specialize (IH x) as [Hin Hmax]. split; [destruct Hin; auto|].
    intros z [->|[->|Hz]]; [apply Hmax; by left| |apply Hmax; by right].
    specialize (Hmax x ltac:(by left)). lia.
Qed.

(** A number that the configuration's checks admit. *)
Record config_wf (config : EvmTransactionPolicyConfig) : Prop := {
  cw_priority : 0 < minPriorityFeePerGasWei (fees config) <= maxFeePerGasWei (fees config);
  cw_multiplier : FEE_MULTIPLIER_BPS_DENOMINATOR <= baseFeeMultiplierBps (fees config);
  cw_nonce : pendingNoncePolicy config = "fail"%string;
}.

Lemma validateTransactionPolicyConfig_ok config : validateTransactionPolicyConfig config = Ok tt -> config_wf config.
Proof.
  unfold validateTransactionPolicyConfig. intros H. repeat (case_match; [done|]). zbool.
  constructor; try lia. by apply String.eqb_eq.
Qed.

(** What fees that were found always satisfy. *)
Lemma resolve_bounds config context fromAddress block estimate history latestNonce pendingNonce p :
  resolve config context fromAddress block estimate history latestNonce pendingNonce = Ok p ->
  pendingNonce <= latestNonce
  /\ minPriorityFeePerGasWei (fees config) <= pp_maxPriorityFeePerGasWei p
  /\ pp_baseFeePerGasWei p + pp_maxPriorityFeePerGasWei p <= pp_maxFeePerGasWei p <= maxFeePerGasWei (fees config).
Proof.
  unfold resolve. cbv zeta. rewrite !maxBigint_max.
  destruct (Z.ltb_spec latestNonce pendingNonce); [done|]. destruct (lb_baseFeePerGas block) as [base|]; [|done].
  rewrite minBigint_min. case_match; [done|]. zbool. intros [= <-]. simpl. lia.
Qed.

(** C20: with a valid configuration, fees are found exactly when no transaction of the
    account is waiting, the block has a base fee and the cap covers that fee with the
    priority fee.  The priority fee is the highest of the node's, the history's and the
    configured minimum; the fee offered covers the base fee and the priority fee, and is
    the lesser of the cap and the sum of the priority fee and the base fee with its
    headroom, rounded up. *)
Theorem fee_policy_exact config context fromAddress block estimate history latestNonce pendingNonce :
  validateTransactionPolicyConfig config = Ok tt -> (forall fee, lb_baseFeePerGas block = Some fee -> 0 <= fee) ->
  let cap := maxFeePerGasWei (fees config) in
  let priority := Z.max (Z.max (default 0 (fe_maxPriorityFeePerGas estimate)) (default 0 history))
                        (minPriorityFeePerGasWei (fees config)) in
  (is_ok (resolve config context fromAddress block estimate history latestNonce pendingNonce) = true
   <-> pendingNonce <= latestNonce
       /\ exists base, lb_baseFeePerGas block = Some base /\ base + priority <= cap)
  /\ forall p, resolve config context fromAddress block estimate history latestNonce pendingNonce = Ok p ->
       lb_baseFeePerGas block = Some (pp_baseFeePerGasWei p)
       /\ pp_maxPriorityFeePerGasWei p = priority
       /\ pp_baseFeePerGasWei p + priority <= pp_maxFeePerGasWei p <= cap
       /\ exists headroom,
            pp_baseFeePerGasWei p * baseFeeMultiplierBps (fees config) <= headroom * 10000
              < pp_baseFeePerGasWei p * baseFeeMultiplierBps (fees config) + 10000
            /\ pp_uncappedMaxFeePerGasWei p = headroom + priority
            /\ pp_maxFeePerGasWei p = Z.min cap (headroom + priority).
Proof.
  intros Hv Hbase cap priority. apply validateTransactionPolicyConfig_ok in Hv as [Hp Hm Hn].
  unfold resolve. cbv zeta. rewrite !maxBigint_max. fold priority.
  destruct (Z.ltb_spec latestNonce pendingNonce) as [Hl|Hl]; [split; [split; [done|lia]|done]|].
  destruct (lb_baseFeePerGas block) as [base|]; [|split; [split; [done|by intros (_ & ? & [=] & _)]|done]].
  rewrite minBigint_min. specialize (Hbase base eq_refl). pose proof (multiplyByBpsCeil_ge _ _ Hbase Hm) as Hge.
  assert (0 <= baseFeeMultiplierBps (fees config)) as H0 by (unfold FEE_MULTIPLIER_BPS_DENOMINATOR in Hm; lia).
  pose proof (multiplyByBpsCeil_spec base _ Hbase H0) as Hspec.
  set (headroom := multiplyByBpsCeil base _) in *. fold cap.
  destruct (Z.ltb_spec (Z.min (headroom + priority) cap) (base + priority)) as [Hlt|Hle].
  - split; [|done]. split; [done|]. intros (_ & b & [= <-] & Hb). lia.
  - split.
    + split; [|done]. intros _. split; [lia|]. exists base. split; [done|lia].
    + intros p [= <-]. simpl. split_and!; [done|done|lia|lia|].
      exists headroom. unfold FEE_MULTIPLIER_BPS_DENOMINATOR in Hspec. split_and!; [lia|lia|done|apply Z.min_comm].
Qed.

Definition exampleConfig : EvmTransactionPolicyConfig := {|
  fees := {| minPriorityFeePerGasWei := 1000000; priorityFeeHistoryBlockCount := NInt 20;
             priorityFeeHistoryRewardPercentile := NFrac 75 2; baseFeeMultiplierBps := 12500;
             maxFeePerGasWei := 5000000000 |};
  pendingNoncePolicy := "fail" |}.

Lemma fee_policy_exact_witness :
  exists p, resolve exampleConfig "weth_approval" "0x1" {| lb_number := Some 7; lb_baseFeePerGas := Some 1000000001 |}
              {| fe_gasPrice := None; fe_maxFeePerGas := None; fe_maxPriorityFeePerGas := Some 2000000 |}
              (Some 3000000) 4 4 = Ok p
    /\ pp_maxFeePerGasWei p = 1253000002 /\ pp_maxPriorityFeePerGasWei p = 3000000
    /\ pp_baseFeePerGasWei p + 3000000 <= pp_maxFeePerGasWei p <= 5000000000.
Proof.
  pose proof (fee_policy_exact exampleConfig "weth_approval" "0x1" {| lb_number := Some 7; lb_baseFeePerGas := Some 1000000001 |}
                {| fe_gasPrice := None; fe_maxFeePerGas := None; fe_maxPriorityFeePerGas := Some 2000000 |} (Some 3000000) 4 4
                ltac:(vm_compute; reflexivity) ltac:(intros fee [= <-]; lia)) as [_ H].
  eexists. split; [vm_compute; reflexivity|]. split; [reflexivity|]. split; [reflexivity|].
  exact (proj1 (proj2 (proj2 (H _ ltac:(vm_compute; reflexivity))))).
Defined.

Example formatDecimal_example : formatWeiAsGwei 1253000002 = "1.253000002 gwei"%string.
Proof. vm_compute. reflexivity. Qed.

Example formatDecimal_strips : formatWeiAsGwei 3050000000 = "3.05 gwei"%string.
Proof. vm_compute. reflexivity. Qed.

End TransactionPolicy.
