(* ===== verification/WethApproval.v ===== *)
(** * The WETH approval at start

    [trading/src/adapters/wallet/viem-weth-allowance-approval-service.ts] and
    [trading/src/runtime/bidding-policy-agreement.ts]: before any offer is signed the
    process sets the allowance of OpenSea's conduit to the cap of the mandate, with at
    most one transaction, whose fees the mandate bounds.  The node and the wallet client
    are called through [WethNode]; nothing constrains their answers.  [s_sent] records,
    for the statements, what was given to the wallet client to sign and send.  Progress
    callbacks and logs, with the reads made for them alone, are left out. *)

From S2P Require Import Prelude JsValue Mandate PolicyWallet PolicyWalletSpec TransactionPolicy.

Open Scope Z_scope.

Module WethApproval.
Import TransactionPolicy.

(** [OPENSEA_MAINNET_SECURITY_POLICY.conduitAddress] *)
Definition conduitAddress : string := "0x1e0049783f008a0085193e00003d00cd54003c71".

Definition APPROVAL_GAS_LIMIT_HEADROOM_BPS : Z := 12000.
Definition BASIS_POINTS_DENOMINATOR : Z := 10000.

Definition WETH_APPROVAL_GAS_FEE_CAP_ERROR : string := "WETH approval worst-case gas fee exceeds authorized cap".
Definition WETH_ALLOWANCE_POST_CONFIRMATION_ERROR : string :=
  "Confirmed WETH approval did not establish the authorized allowance cap".

(** [WethApprovalSubmission]: a call of [approve(spender, amount)] on a contract. *)
Record WethApprovalSubmission := {
  ws_address : string;
  ws_functionName : string;
  ws_spender : string;
  ws_amount : Z;
  ws_gas : Z;
  ws_maxFeePerGas : Z;
  ws_maxPriorityFeePerGas : Z;
}.

(** [WethAllowanceReadClient] and [WethAllowanceWriteClient] *)
Class WethNode (W : Type) := {
  policyReader :: EvmTransactionPolicyReader W;
  readAllowance : string -> string -> string -> M W Z;
  estimateContractGas : string -> string -> string -> Z -> M W Z;
  writeContract : WethApprovalSubmission -> M W string;
  waitForTransactionReceipt : string -> M W unit;
}.

Record WethApprovalAuthorization := {
  allowanceWei : Z;
  transactionPolicy : EvmTransactionPolicyConfig;
  maxTotalGasFeeWei : Z;
}.

(** [WETH_ALLOWANCE_RECONCILIATION_STATUS] *)
Inductive Status : Type := Exact | DryRun | Updated.

Record EnsureWethAllowanceResult := {
  er_status : Status;
  er_ownerAddress : string;
  er_spenderAddress : string;
  er_desiredAllowanceWei : Z;
  er_previousAllowanceWei : Z;
  er_currentAllowanceWei : Z;
  er_transactionHash : option string;
}.

Record PreparedWethApprovalTransaction := {
  pa_transactionPolicy : EvmPreparedTransactionPolicy;
  pa_gasEstimate : Z;
  pa_gasLimit : Z;
  pa_worstCaseGasFeeWei : Z;
}.

(** The fields of [ViemWethAllowanceApprovalService]. *)
Record Service := {
  wethAddress : string;
  spenderAddress : string;
  authorization : WethApprovalAuthorization;
}.

Definition multiplyByBpsCeil (value basisPoints : Z) : Z :=
  Z.quot (value * basisPoints + BASIS_POINTS_DENOMINATOR - 1) BASIS_POINTS_DENOMINATOR.

(** ** What the mandate and the configuration say *)

(** The fields of [EnabledBiddingConfig] read here. *)
Record EnabledBiddingConfig := {
  bc_wethAllowanceCapWei : Z;
  bc_trustOpenSeaSignedZoneTraitOffers : bool;
  bc_transactionPolicy : EvmTransactionPolicyConfig;
  bc_wethApprovalMaxGasFeeWei : Z;
}.

Definition pendingNonceText (p : Mandate.PendingNoncePolicy) : string :=
  match p with Mandate.NonceFail => "fail" end.

Definition assertEqual (setting : string) (same : bool) : result unit :=
  if same then Ok tt
  else Err (append "Bidding start policy does not match typed runtime config for " setting).

(** The settings are named by their environment keys, given by [key]. *)
Definition assertBiddingPolicyMatchesConfig (key : string -> string) (config : EnabledBiddingConfig)
    (mandate : Mandate.BiddingMandate) : result unit :=
  let policy := Mandate.startPolicy mandate in
  let configFees := fees (bc_transactionPolicy config) in
  try _ <- assertEqual (key "WethAllowanceCapEth")
             (bc_wethAllowanceCapWei config =? Mandate.wethAllowanceCapWei policy);
  try _ <- assertEqual (key "TrustOpenSeaSignedZoneTraitOffers")
             (Bool.eqb (bc_trustOpenSeaSignedZoneTraitOffers config) (Mandate.trustOpenSeaSignedZoneTraitOffers policy));
  try _ <- assertEqual (key "TxMinPriorityFeeGwei")
             (minPriorityFeePerGasWei configFees =? Mandate.minPriorityFeePerGasWei policy);
  try _ <- assertEqual (key "TxMaxFeeGwei") (maxFeePerGasWei configFees =? Mandate.maxFeePerGasWei policy);
  try _ <- assertEqual (key "WethApprovalMaxGasFeeEth")
             (bc_wethApprovalMaxGasFeeWei config =? Mandate.maxTotalGasFeeWei policy);
  assertEqual (key "TxPendingNoncePolicy")
    (String.eqb (pendingNoncePolicy (bc_transactionPolicy config)) (pendingNonceText (Mandate.pendingNoncePolicy policy))).

Definition buildMandateApprovalTransactionPolicy (config : EnabledBiddingConfig) (mandate : Mandate.BiddingMandate)
    : EvmTransactionPolicyConfig :=
  let policy := Mandate.startPolicy mandate in
  let configFees := fees (bc_transactionPolicy config) in
  {| fees := {| minPriorityFeePerGasWei := Mandate.minPriorityFeePerGasWei policy;
                priorityFeeHistoryBlockCount := priorityFeeHistoryBlockCount configFees;
                priorityFeeHistoryRewardPercentile := priorityFeeHistoryRewardPercentile configFees;
                baseFeeMultiplierBps := baseFeeMultiplierBps configFees;
                maxFeePerGasWei := Mandate.maxFeePerGasWei policy |};
     pendingNoncePolicy := pendingNonceText (Mandate.pendingNoncePolicy policy) |}.

(** The authorization the runtime builds (runtime/bidding-runtime.ts). *)
Definition mandateAuthorization (config : EnabledBiddingConfig) (mandate : Mandate.BiddingMandate)
    : WethApprovalAuthorization :=
  {| allowanceWei := Mandate.wethAllowanceCapWei (Mandate.startPolicy mandate);
     transactionPolicy := buildMandateApprovalTransactionPolicy config mandate;
     maxTotalGasFeeWei := Mandate.maxTotalGasFeeWei (Mandate.startPolicy mandate) |}.

(** ** The service *)

Section Service.
Context (getAddress : string -> option string).

(** viem's [getAddress] throws on a text that is no address; the text of the error is its
    own. *)
Definition address (text : string) : result string :=
  match getAddress text with Some a => Ok a | None => Err (append "Invalid address " text) end.

Definition assertPinnedApprovalTarget (weth spender : string) : result unit :=
  try pinnedWeth <- address PolicyWallet.policyWethAddress;
  if negb (String.eqb weth pinnedWeth) then Err "WETH approval token does not match the pinned policy"
  else
    try pinnedConduit <- address conduitAddress;
    if negb (String.eqb spender pinnedConduit)
    then Err "WETH approval spender does not match the pinned OpenSea conduit"
    else Ok tt.

(** The constructor. *)
Definition createService (weth spender : string) (a : WethApprovalAuthorization) : result Service :=
  try weth <- address weth;
  try spender <- address spender;
  try _ <- assertPinnedApprovalTarget weth spender;
  try _ <- validateTransactionPolicyConfig (transactionPolicy a);
  if allowanceWei a <? 0 then Err "Authorized WETH allowance must be non-negative"
  else if maxTotalGasFeeWei a <=? 0 then Err "WETH approval maximum gas fee must be positive"
  else Ok {| wethAddress := weth; spenderAddress := spender; authorization := a |}.

Definition assertAuthorizedApprovalSubmission (s : Service) (submission : WethApprovalSubmission)
    (prepared : PreparedWethApprovalTransaction) : result unit :=
  try _ <- assertPinnedApprovalTarget (wethAddress s) (spenderAddress s);
  let authorizedFees := fees (transactionPolicy (authorization s)) in
  if maxFeePerGasWei authorizedFees <? ws_maxFeePerGas submission
  then Err "WETH approval maximum fee per gas exceeds the authorized cap"
  else if (ws_maxPriorityFeePerGas submission <? minPriorityFeePerGasWei authorizedFees)
          || (ws_maxFeePerGas submission <? ws_maxPriorityFeePerGas submission)
  then Err "WETH approval priority fee is outside the authorized relationship"
  else
    let worstCaseGasFeeWei := ws_gas submission * ws_maxFeePerGas submission in
    if negb (worstCaseGasFeeWei =? pa_worstCaseGasFeeWei prepared)
       || (maxTotalGasFeeWei (authorization s) <? worstCaseGasFeeWei)
    then Err "WETH approval worst-case gas fee is outside the authorized cap"
    else if negb (String.eqb (ws_address submission) (wethAddress s))
            || negb (String.eqb (ws_functionName submission) "approve")
            || negb (String.eqb (ws_spender submission) (spenderAddress s))
            || negb (ws_amount submission =? allowanceWei (authorization s))
    then Err "WETH approval calldata does not match the authorized token, conduit, and allowance"
    else Ok tt.

Section Node.
Context {W : Type} `{WethNode W}.

Record State := { s_node : W; s_sent : list WethApprovalSubmission }.

(** A call of the node. *)
Definition onNode {A} (m : M W A) : M State A :=
  fun s => let '(r, node) := m (s_node s) in (r, {| s_node := node; s_sent := s_sent s |}).

Definition checked {A} (r : result A) : M State A := fun s => (r, s).

Definition submit (submission : WethApprovalSubmission) : M State string :=
  fun s => let '(r, node) := writeContract submission (s_node s) in
           (r, {| s_node := node; s_sent := submission :: s_sent s |}).

Definition readRequiredGasEstimate (s : Service) (owner : string) (desired : Z) : M State Z :=
  mcatch
    (let! gasEstimate := onNode (estimateContractGas owner (wethAddress s) (spenderAddress s) desired) in
     if gasEstimate <=? 0 then mthrow "RPC returned a non-positive gas estimate" else mret gasEstimate)
    (fun _ => mthrow "Cannot enforce WETH approval gas fee cap without a gas estimate").

Definition prepareApprovalTransactionPolicy (s : Service) (owner : string) (desired : Z)
    : M State PreparedWethApprovalTransaction :=
  let! gasEstimate := readRequiredGasEstimate s owner desired in
  let! policy := onNode (prepare (transactionPolicy (authorization s)) "weth_approval" owner) in
  let gasLimit := multiplyByBpsCeil gasEstimate APPROVAL_GAS_LIMIT_HEADROOM_BPS in
  let worstCaseGasFeeWei := gasLimit * pp_maxFeePerGasWei policy in
  if maxTotalGasFeeWei (authorization s) <? worstCaseGasFeeWei then
    mthrow (String.concat "" [WETH_APPROVAL_GAS_FEE_CAP_ERROR; ": worstCase="; Z_toString worstCaseGasFeeWei;
              " wei, cap="; Z_toString (maxTotalGasFeeWei (authorization s)); " wei"]%string)
  else
    mret {| pa_transactionPolicy := policy; pa_gasEstimate := gasEstimate; pa_gasLimit := gasLimit;
            pa_worstCaseGasFeeWei := worstCaseGasFeeWei |}.

Definition readConfirmedAllowance (s : Service) (owner : string) (desired : Z) (transactionHash : string) : M State Z :=
  let! confirmed := onNode (readAllowance (wethAddress s) owner (spenderAddress s)) in
  if negb (confirmed =? desired) then
    mthrow (String.concat "" [WETH_ALLOWANCE_POST_CONFIRMATION_ERROR; ": expected="; Z_toString desired;
              " wei, received="; Z_toString confirmed; " wei, tx="; transactionHash]%string)
  else mret confirmed.

Definition ensureAllowance (s : Service) (ownerAddress : string) (dryRun : bool) : M State EnsureWethAllowanceResult :=
  let! owner := checked (address ownerAddress) in
  let desired := allowanceWei (authorization s) in
  let outcome status current transactionHash previous :=
    {| er_status := status; er_ownerAddress := owner; er_spenderAddress := spenderAddress s;
       er_desiredAllowanceWei := desired; er_previousAllowanceWei := previous;
       er_currentAllowanceWei := current; er_transactionHash := transactionHash |} in
  let! current := onNode (readAllowance (wethAddress s) owner (spenderAddress s)) in
  if current =? desired then mret (outcome Exact current None current)
  else if dryRun then mret (outcome DryRun current None current)
  else
    let! prepared := prepareApprovalTransactionPolicy s owner desired in
    let submission := {| ws_address := wethAddress s; ws_functionName := "approve"; ws_spender := spenderAddress s;
                         ws_amount := desired; ws_gas := pa_gasLimit prepared;
                         ws_maxFeePerGas := pp_maxFeePerGasWei (pa_transactionPolicy prepared);
                         ws_maxPriorityFeePerGas := pp_maxPriorityFeePerGasWei (pa_transactionPolicy prepared) |} in
    do! checked (assertAuthorizedApprovalSubmission s submission prepared) in
    let! transactionHash := submit submission in
    do! onNode (waitForTransactionReceipt transactionHash) in
    let! confirmed := readConfirmedAllowance s owner desired transactionHash in
    mret (outcome Updated confirmed (Some transactionHash) current).

End Node.
End Service.

End WethApproval.

(** * The WETH approval: what it promises

    Whatever the node answers, the process sends at most one transaction, and that one
    sets the allowance of the conduit to the cap of the mandate within its fees; it
    reports success only after reading exactly that allowance; and an approval that is
    needed and affordable is sent. *)

Module WethApprovalClaims.
Import TransactionPolicy WethApproval.

Section Claims.
Context (getAddress : string -> option string).
Context {W : Type} {node : WethNode W}.

(** A computation that sends nothing. *)
Definition quiet {A} (m : M (@State W) A) : Prop := forall s, s_sent (snd (m s)) = s_sent s.

Lemma quiet_onNode {A} (m : M W A) : quiet (onNode m).
Proof. intros s. unfold onNode. by destruct (m (s_node s)). Qed.

Lemma quiet_checked {A} (r : result A) : quiet (checked r).
Proof. done. Qed.

Lemma quiet_mret {A} (a : A) : quiet (mret a).
Proof. done. Qed.

Lemma quiet_mthrow {A} e : quiet (@mthrow _ A e).
Proof. done. Qed.

Lemma quiet_mbind {A B} (m : M (@State W) A) (f : A -> M (@State W) B) : quiet m -> (forall a, quiet (f a)) -> quiet (mbind m f).
Proof.
  intros Hm Hf s. unfold mbind. specialize (Hm s). destruct (m s) as [[a|e] s']; simpl in *; [|done].
  by rewrite Hf, Hm.
Qed.

Lemma quiet_mcatch {A} (m : M (@State W) A) h : quiet m -> (forall e, quiet (h e)) -> quiet (mcatch m h).
Proof.
  intros Hm Hh s. unfold mcatch. specialize (Hm s). destruct (m s) as [[a|e] s']; simpl in *; [done|].
  by rewrite Hh, Hm.
Qed.

Lemma quiet_if {A} (b : bool) (m n : M (@State W) A) : quiet m -> quiet n -> quiet (if b then m else n).
Proof. by destruct b. Qed.

Create HintDb quiet.
Hint Resolve quiet_onNode quiet_checked quiet_mret quiet_mthrow quiet_mbind quiet_mcatch quiet_if : quiet.

Lemma quiet_prepare s owner desired : quiet (prepareApprovalTransactionPolicy s owner desired).
Proof. unfold prepareApprovalTransactionPolicy, readRequiredGasEstimate. auto 10 with quiet. Qed.

Lemma quiet_confirmed s owner desired hash : quiet (readConfirmedAllowance s owner desired hash).
Proof. unfold readConfirmedAllowance. auto 10 with quiet. Qed.

(** Running a sequence: where the result comes from. *)
Lemma mbind_run {S A B} (m : M S A) (f : A -> M S B) s r s' :
  mbind m f s = (r, s') ->
  (exists a s1, m s = (Ok a, s1) /\ f a s1 = (r, s')) \/ (exists e, m s = (Err e, s') /\ r = Err e).
Proof. unfold mbind. destruct (m s) as [[a|e] s1]; [left; eauto|]. intros [= <- <-]. right. eauto. Qed.

(** A transaction the mandate allows. *)
Record withinMandate (mandate : Mandate.BiddingMandate) (sub : WethApprovalSubmission) : Prop := {
  wm_token : getAddress PolicyWallet.policyWethAddress = Some (ws_address sub);
  wm_function : ws_functionName sub = "approve"%string;
  wm_spender : getAddress conduitAddress = Some (ws_spender sub);
  wm_amount : ws_amount sub = Mandate.wethAllowanceCapWei (Mandate.startPolicy mandate);
  wm_total : ws_gas sub * ws_maxFeePerGas sub <= Mandate.maxTotalGasFeeWei (Mandate.startPolicy mandate);
  wm_fee : ws_maxFeePerGas sub <= Mandate.maxFeePerGasWei (Mandate.startPolicy mandate);
  wm_priority : Mandate.minPriorityFeePerGasWei (Mandate.startPolicy mandate) <= ws_maxPriorityFeePerGas sub
                <= ws_maxFeePerGas sub;
}.

Lemma pinned_ok weth spender :
  assertPinnedApprovalTarget getAddress weth spender = Ok tt ->
  getAddress PolicyWallet.policyWethAddress = Some weth /\ getAddress conduitAddress = Some spender.
Proof.
  unfold assertPinnedApprovalTarget, address. destruct (getAddress PolicyWallet.policyWethAddress) as [w|]; simpl; [|done].
  destruct (String.eqb_spec weth w) as [<-|]; simpl; [|done].
  destruct (getAddress conduitAddress) as [c|]; simpl; [|done]. by destruct (String.eqb_spec spender c) as [<-|].
Qed.

Lemma createService_ok weth spender a s :
  createService getAddress weth spender a = Ok s ->
  authorization s = a /\ assertPinnedApprovalTarget getAddress (wethAddress s) (spenderAddress s) = Ok tt
  /\ validateTransactionPolicyConfig (transactionPolicy a) = Ok tt.
Proof.
  unfold createService. intros H.
  apply result_bind_ok in H as (w & _ & H). apply result_bind_ok in H as (c & _ & H).
  apply result_bind_ok in H as ([] & Hp & H). apply result_bind_ok in H as ([] & Hv & H).
  destruct (allowanceWei a <? 0); [done|]. destruct (maxTotalGasFeeWei a <=? 0); [done|]. by injection H as <-.
Qed.

(** What the last check before the transaction says. *)
Lemma assertAuthorized_ok config mandate s sub prepared :
  authorization s = mandateAuthorization config mandate ->
  assertAuthorizedApprovalSubmission getAddress s sub prepared = Ok tt -> withinMandate mandate sub.
Proof.
  intros Ha H. unfold assertAuthorizedApprovalSubmission in H. apply result_bind_ok in H as ([] & [Hw Hc]%pinned_ok & H).
  rewrite Ha in H. simpl in H.
  destruct (Z.ltb_spec (Mandate.maxFeePerGasWei (Mandate.startPolicy mandate)) (ws_maxFeePerGas sub)); [done|].
  destruct (Z.ltb_spec (ws_maxPriorityFeePerGas sub) (Mandate.minPriorityFeePerGasWei (Mandate.startPolicy mandate))); [done|].
  destruct (Z.ltb_spec (ws_maxFeePerGas sub) (ws_maxPriorityFeePerGas sub)); [done|]. simpl in H.
  destruct (negb _ || (Mandate.maxTotalGasFeeWei (Mandate.startPolicy mandate) <? _)) eqn:E; [done|].
  apply orb_false_iff in E as [_ E%Z.ltb_ge].
  destruct (String.eqb_spec (ws_address sub) (wethAddress s)) as [E1|]; [|done].
  destruct (String.eqb_spec (ws_functionName sub) "approve") as [E2|]; [|done].
  destruct (String.eqb_spec (ws_spender sub) (spenderAddress s)) as [E3|]; [|done].
  destruct (Z.eqb_spec (ws_amount sub) (Mandate.wethAllowanceCapWei (Mandate.startPolicy mandate))) as [E4|]; [|done].
  constructor; try done; try congruence; lia.
Qed.

(** The allowance of [service]'s conduit over [owner]'s WETH that the node answers. *)
Definition reads (service : Service) (owner : string) (before : W) (allowance : Z) (after : W) : Prop :=
  readAllowance (wethAddress service) owner (spenderAddress service) before = (Ok allowance, after).

(** What a result of [ensureAllowance] says of a run from [before] to [after] that sent
    [sent]: the first thing read is the previous allowance, and after a transaction the
    last thing read, once its receipt is there, is the current one. *)
Definition reported (mandate : Mandate.BiddingMandate) (service : Service) (dryRun : bool) (before after : W)
    (sent : list WethApprovalSubmission) (e : EnsureWethAllowanceResult) : Prop :=
  let cap := Mandate.wethAllowanceCapWei (Mandate.startPolicy mandate) in
  let owner := er_ownerAddress e in
  er_desiredAllowanceWei e = cap
  /\ exists answered, reads service owner before (er_previousAllowanceWei e) answered
  /\ match er_status e with
     | Exact => sent = [] /\ after = answered /\ er_previousAllowanceWei e = cap /\ er_currentAllowanceWei e = cap
     | DryRun => dryRun = true /\ sent = [] /\ after = answered /\ er_previousAllowanceWei e <> cap
                 /\ er_currentAllowanceWei e = er_previousAllowanceWei e
     | Updated => dryRun = false /\ er_previousAllowanceWei e <> cap /\ er_currentAllowanceWei e = cap
                  /\ exists submission hash ready written mined,
                       sent = [submission] /\ er_transactionHash e = Some hash
                       /\ writeContract submission ready = (Ok hash, written)
                       /\ waitForTransactionReceipt hash written = (Ok tt, mined)
                       /\ reads service owner mined cap after
     end.

(** What a run of [ensureAllowance] has sent, and what it says about it. *)
Definition accounted (mandate : Mandate.BiddingMandate) (service : Service) (dryRun : bool) (before : W)
    (earlier : list WethApprovalSubmission) (r : result EnsureWethAllowanceResult) (st' : @State W) : Prop :=
  exists sent, s_sent st' = sent ++ earlier
    /\ (length sent <= 1)%nat
    /\ Forall (withinMandate mandate) sent
    /\ (dryRun = true -> sent = [])
    /\ forall e, r = Ok e -> reported mandate service dryRun before (s_node st') sent e.

Lemma accounted_none mandate service dryRun before earlier r st' :
  s_sent st' = earlier -> (forall e, r = Ok e -> reported mandate service dryRun before (s_node st') [] e) ->
  accounted mandate service dryRun before earlier r st'.
Proof. intros Hs Hr. exists []. rewrite Hs. split_and!; [done|simpl; lia|constructor|done|done]. Qed.

Lemma accounted_error mandate service dryRun before earlier e st' :
  s_sent st' = earlier -> accounted mandate service dryRun before earlier (Err e) st'.
Proof. intros Hs. by apply accounted_none. Qed.

Lemma accounted_one mandate service sub before earlier r st' :
  withinMandate mandate sub -> s_sent st' = sub :: earlier ->
  (forall e, r = Ok e -> reported mandate service false before (s_node st') [sub] e) ->
  accounted mandate service false before earlier r st'.
Proof. intros Hw Hs Hr. exists [sub]. split_and!; [done|simpl; lia|by apply Forall_singleton|done|done]. Qed.

Lemma onNode_run {A} (m : M W A) st r st' : onNode m st = (r, st') -> m (s_node st) = (r, s_node st') /\ s_sent st' = s_sent st.
Proof. unfold onNode. destruct (m (s_node st)). by intros [= <- <-]. Qed.

Lemma submit_run submission st r st' : submit submission st = (r, st') ->
  writeContract submission (s_node st) = (r, s_node st') /\ s_sent st' = submission :: s_sent st.
Proof. unfold submit. destruct (writeContract submission (s_node st)). by intros [= <- <-]. Qed.

Lemma quiet_run {A} (m : M (@State W) A) st r st' : quiet m -> m st = (r, st') -> s_sent st' = s_sent st.
Proof. intros Hq E. specialize (Hq st). by rewrite E in Hq. Qed.

(** A confirmation is an answer of the node. *)
Lemma readConfirmedAllowance_ok s own desired hash st c st' :
  readConfirmedAllowance s own desired hash st = (Ok c, st') -> c = desired /\ reads s own (s_node st) desired (s_node st').
Proof.
  unfold readConfirmedAllowance. intros H. apply mbind_run in H as [(read & st1 & [E _]%onNode_run & H)|(e & _ & [=])].
  destruct (Z.eqb_spec read desired) as [->|]; [|done]. by injection H as <- <-.
Qed.

(** From the transaction on. *)
Lemma submitted_accounted mandate s own submission before answered (outcome : Z -> option string -> EnsureWethAllowanceResult) st r st' :
  let cap := Mandate.wethAllowanceCapWei (Mandate.startPolicy mandate) in
  withinMandate mandate submission ->
  (forall confirmed hash, let e := outcome confirmed (Some hash) in
     er_status e = Updated /\ er_ownerAddress e = own /\ er_desiredAllowanceWei e = cap
     /\ er_currentAllowanceWei e = confirmed /\ er_transactionHash e = Some hash
     /\ er_previousAllowanceWei e <> cap /\ reads s own before (er_previousAllowanceWei e) answered) ->
  (let! transactionHash := submit submission in
   do! onNode (waitForTransactionReceipt transactionHash) in
   let! confirmed := readConfirmedAllowance s own cap transactionHash in
   mret (outcome confirmed (Some transactionHash))) st = (r, st') ->
  accounted mandate s false before (s_sent st) r st'.
Proof.
  intros cap Hw Hout H.
  apply mbind_run in H as [(hash & st5 & [En5 E5]%submit_run & H)|(e & [_ E5]%submit_run & ->)]; [|by eapply accounted_one].
  apply mbind_run in H as [([] & st6 & [En6 E6]%onNode_run & H)|(e & [_ E6]%onNode_run & ->)];
    [|by eapply accounted_one; [|rewrite E6|]].
  apply mbind_run in H as [(confirmed & st7 & E7 & H)|(e & E7 & ->)];
    pose proof (quiet_run _ _ _ _ (quiet_confirmed s own cap hash) E7) as Hq; rewrite E6, E5 in Hq;
    [|by eapply accounted_one].
  injection H as <- <-. apply readConfirmedAllowance_ok in E7 as [-> Er].
  eapply accounted_one; [done..|]. intros e [= <-]. specialize (Hout cap hash). cbn zeta in Hout.
  destruct Hout as (Hs & Ho & Hd & Hc & Ht & Hp & Hr). unfold reported. rewrite Hs, Ho, Hd, Hc, Ht.
  split; [done|]. exists answered. split; [done|]. split_and!; [done..|].
  exists submission, hash, (s_node st), (s_node st5), (s_node st6). by split_and!.
Qed.

(** C19: whatever the node answers, reconciling the allowance sends at most one
    transaction, and it is one the mandate allows: it sets the allowance of the pinned
    conduit over the pinned WETH contract to the cap, and what it can cost in gas is
    within every fee limit.  Success is reported only when the cap is the allowance the
    node answered, at the start if nothing was sent and otherwise when it was asked again
    after the receipt; only a dry run reports another, and that is the one it read. *)
Theorem approval_within_mandate config mandate weth spender s owner dryRun st r st' :
  createService getAddress weth spender (mandateAuthorization config mandate) = Ok s ->
  ensureAllowance getAddress s owner dryRun st = (r, st') ->
  exists sent, s_sent st' = sent ++ s_sent st
    /\ (length sent <= 1)%nat
    /\ Forall (withinMandate mandate) sent
    /\ (dryRun = true -> sent = [])
    /\ forall e, r = Ok e ->
         getAddress owner = Some (er_ownerAddress e) /\ reported mandate s dryRun (s_node st) (s_node st') sent e.
Proof.
  intros (Ha & _ & _)%createService_ok H.
  enough (accounted mandate s dryRun (s_node st) (s_sent st) r st'
          /\ forall e, r = Ok e -> getAddress owner = Some (er_ownerAddress e)) as [(sent & ? & ? & ? & ? & ?) ?]
    by (exists sent; split_and!; auto).
  unfold ensureAllowance in H. rewrite Ha in H. cbn [allowanceWei mandateAuthorization] in H.
  set (cap := Mandate.wethAllowanceCapWei (Mandate.startPolicy mandate)) in *.
  apply mbind_run in H as [(own & st1 & E1 & H)|(e & E1 & ->)]; injection E1 as Eo <-; [|split; [by apply accounted_error|done]].
  assert (getAddress owner = Some own) as Hown by (unfold address in Eo; destruct (getAddress owner); [by injection Eo as ->|done]).
  apply mbind_run in H as [(current & st2 & [En2 E2]%onNode_run & H)|(e & [_ E2]%onNode_run & ->)];
    [|split; [by apply accounted_error|done]].
  destruct (Z.eqb_spec current cap) as [->|Hne].
  { injection H as <- <-. split; [|by intros e [= <-]]. apply accounted_none; [done|]. intros e [= <-].
    split; [done|]. by exists (s_node st2). }
  destruct dryRun.
  { injection H as <- <-. split; [|by intros e [= <-]]. apply accounted_none; [done|]. intros e [= <-].
    split; [done|]. by exists (s_node st2). }
  apply mbind_run in H as [(prepared & st3 & E3 & H)|(e & E3 & ->)];
    apply quiet_run in E3; auto using quiet_prepare; rewrite E2 in E3; [|split; [by apply accounted_error|done]].
  apply mbind_run in H as [([] & st4 & E4 & H)|(e & E4 & ->)]; injection E4 as E4 <-; [|split; [by apply accounted_error|done]].
  eapply (assertAuthorized_ok config mandate) in E4; [|done]. rewrite <- E3. split.
  - eapply submitted_accounted; [exact E4| |exact H]. intros confirmed hash. by split_and!.
  - intros e ->. repeat (apply mbind_run in H as [(? & ? & _ & H)|(? & _ & [=])]). by injection H as <- _.
Qed.

(** ** An approval that is needed and affordable *)

(** What preparation has computed. *)
Lemma prepareApproval_ok s owner desired st prepared st' :
  prepareApprovalTransactionPolicy s owner desired st = (Ok prepared, st') ->
  let p := pa_transactionPolicy prepared in
  let f := fees (transactionPolicy (authorization s)) in
  0 < pa_gasEstimate prepared
  /\ pa_gasLimit prepared = multiplyByBpsCeil (pa_gasEstimate prepared) APPROVAL_GAS_LIMIT_HEADROOM_BPS
  /\ pa_worstCaseGasFeeWei prepared = pa_gasLimit prepared * pp_maxFeePerGasWei p
  /\ pa_worstCaseGasFeeWei prepared <= maxTotalGasFeeWei (authorization s)
  /\ minPriorityFeePerGasWei f <= pp_maxPriorityFeePerGasWei p
  /\ pp_baseFeePerGasWei p + pp_maxPriorityFeePerGasWei p <= pp_maxFeePerGasWei p <= maxFeePerGasWei f.
Proof.
  intros H p f. unfold prepareApprovalTransactionPolicy in H.
  apply mbind_run in H as [(gas & st1 & E1 & H)|(e & _ & [=])].
  apply mbind_run in H as [(policy & st2 & E2 & H)|(e & _ & [=])].
  destruct (Z.ltb_spec (maxTotalGasFeeWei (authorization s)) (multiplyByBpsCeil gas APPROVAL_GAS_LIMIT_HEADROOM_BPS * pp_maxFeePerGasWei policy)) as [|Hcap]; [done|].
  injection H as <- <-. subst p f. cbn [pa_transactionPolicy pa_gasEstimate pa_gasLimit pa_worstCaseGasFeeWei].
  assert (0 < gas) as Hgas.
  { unfold readRequiredGasEstimate, mcatch in E1. destruct (mbind _ _ st) as [[g|e] s1] eqn:E; [|done].
    injection E1 as -> ->. apply mbind_run in E as [(g & s2 & _ & E)|(e & _ & [=])].
    destruct (Z.leb_spec g 0); [done|]. by injection E as -> _. }
  unfold onNode in E2. destruct (prepare _ _ _ (s_node st1)) as [r node'] eqn:E; injection E2 as -> _.
  assert (exists block estimate history latest pending,
    resolve (transactionPolicy (authorization s)) "weth_approval" owner block estimate history latest pending = Ok policy)
    as (block & estimate & history & latest & pending & Hr).
  { unfold prepare in E. repeat (apply mbind_run in E as [(? & ? & _ & E)|(? & _ & [=])]).
    injection E as E _. repeat (apply result_bind_ok in E as (? & _ & E)). eauto 10. }
  apply resolve_bounds in Hr. split_and!; try done; lia.
Qed.

(** The gas limit is the estimate and a fifth more, rounded up. *)
Lemma headroom_bounds gas : 0 < gas ->
  gas * 12000 <= multiplyByBpsCeil gas APPROVAL_GAS_LIMIT_HEADROOM_BPS * 10000 < gas * 12000 + 10000.
Proof.
  intros Hg. unfold multiplyByBpsCeil, APPROVAL_GAS_LIMIT_HEADROOM_BPS, BASIS_POINTS_DENOMINATOR.
  rewrite Z.quot_div_nonneg by lia.
  pose proof (Z.div_mod (gas * 12000 + 10000 - 1) 10000 ltac:(lia)).
  pose proof (Z.mod_pos_bound (gas * 12000 + 10000 - 1) 10000 ltac:(lia)). lia.
Qed.

(** The transaction of a preparation. *)
Definition submissionOf (s : Service) (prepared : PreparedWethApprovalTransaction) : WethApprovalSubmission := {|
  ws_address := wethAddress s; ws_functionName := "approve"; ws_spender := spenderAddress s;
  ws_amount := allowanceWei (authorization s); ws_gas := pa_gasLimit prepared;
  ws_maxFeePerGas := pp_maxFeePerGasWei (pa_transactionPolicy prepared);
  ws_maxPriorityFeePerGas := pp_maxPriorityFeePerGasWei (pa_transactionPolicy prepared) |}.

(** The last check refuses nothing that was prepared over a base fee. *)
Lemma prepared_authorized s owner desired st prepared st' :
  assertPinnedApprovalTarget getAddress (wethAddress s) (spenderAddress s) = Ok tt ->
  prepareApprovalTransactionPolicy s owner desired st = (Ok prepared, st') ->
  0 <= pp_baseFeePerGasWei (pa_transactionPolicy prepared) ->
  assertAuthorizedApprovalSubmission getAddress s (submissionOf s prepared) prepared = Ok tt.
Proof.
  intros Hpin E Hbase. destruct (prepareApproval_ok _ _ _ _ _ _ E) as (Hgas & Hlimit & Hworst & Htotal & Hprio & Hfee).
  unfold assertAuthorizedApprovalSubmission. rewrite Hpin. simpl in *.
  rewrite (proj2 (Z.ltb_ge _ _)) by lia. rewrite !(proj2 (Z.ltb_ge _ _)) by lia. simpl.
  rewrite (proj2 (Z.eqb_eq _ _)) by lia. simpl.
  by rewrite !String.eqb_refl, Z.eqb_refl.
Qed.

(** A run that reaches the transaction. *)
Lemma ensureAllowance_reaches s ownerAddress owner st current st2 prepared st3 :
  getAddress ownerAddress = Some owner ->
  onNode (readAllowance (wethAddress s) owner (spenderAddress s)) st = (Ok current, st2) ->
  current <> allowanceWei (authorization s) ->
  prepareApprovalTransactionPolicy s owner (allowanceWei (authorization s)) st2 = (Ok prepared, st3) ->
  assertAuthorizedApprovalSubmission getAddress s (submissionOf s prepared) prepared = Ok tt ->
  ensureAllowance getAddress s ownerAddress false st
  = (let! transactionHash := submit (submissionOf s prepared) in
     do! onNode (waitForTransactionReceipt transactionHash) in
     let! confirmed := readConfirmedAllowance s owner (allowanceWei (authorization s)) transactionHash in
     mret {| er_status := Updated; er_ownerAddress := owner; er_spenderAddress := spenderAddress s;
             er_desiredAllowanceWei := allowanceWei (authorization s); er_previousAllowanceWei := current;
             er_currentAllowanceWei := confirmed; er_transactionHash := Some transactionHash |}) st3.
Proof.
  intros Ho E2 Hne E3 Hauth. unfold ensureAllowance, address. rewrite Ho. unfold mbind at 1, checked at 1.
  unfold mbind at 1. rewrite E2. rewrite (proj2 (Z.eqb_neq _ _) Hne). unfold mbind at 1. rewrite E3.
  fold (submissionOf s prepared). unfold mbind at 1, checked at 1. rewrite Hauth. reflexivity.
Qed.

(** an approval that is needed and affordable is sent: when the allowance read is not
    the cap and fees within the limits were found over a base fee, the transaction is
    given to the wallet client, with the gas estimated and a fifth more; and when it
    is mined and the allowance is then the cap, the run reports it. *)
Theorem needed_approval_sent config mandate weth spender s ownerAddress owner st current st2 prepared st3 :
  let cap := Mandate.wethAllowanceCapWei (Mandate.startPolicy mandate) in
  createService getAddress weth spender (mandateAuthorization config mandate) = Ok s ->
  getAddress ownerAddress = Some owner ->
  onNode (readAllowance (wethAddress s) owner (spenderAddress s)) st = (Ok current, st2) -> current <> cap ->
  prepareApprovalTransactionPolicy s owner cap st2 = (Ok prepared, st3) ->
  0 <= pp_baseFeePerGasWei (pa_transactionPolicy prepared) ->
  exists submission,
    s_sent (snd (ensureAllowance getAddress s ownerAddress false st)) = submission :: s_sent st
    /\ pa_gasEstimate prepared * 12000 <= ws_gas submission * 10000 < pa_gasEstimate prepared * 12000 + 10000
    /\ forall hash node4 node5 node6,
         writeContract submission (s_node st3) = (Ok hash, node4) ->
         waitForTransactionReceipt hash node4 = (Ok tt, node5) ->
         readAllowance (wethAddress s) owner (spenderAddress s) node5 = (Ok cap, node6) ->
         exists e, fst (ensureAllowance getAddress s ownerAddress false st) = Ok e
           /\ er_status e = Updated /\ er_currentAllowanceWei e = cap /\ er_transactionHash e = Some hash.
Proof.
  intros cap (Ha & Hpin & _)%createService_ok Ho E2 Hne E3 Hbase.
  assert (cap = allowanceWei (authorization s)) as Hcap by (by rewrite Ha). rewrite Hcap in *.
  pose proof (prepared_authorized _ _ _ _ _ _ Hpin E3 Hbase) as Hauth.
  pose proof (quiet_run _ _ _ _ (quiet_onNode _) E2) as Hq2.
  pose proof (quiet_run _ _ _ _ (quiet_prepare _ _ _) E3) as Hq3.
  destruct (prepareApproval_ok _ _ _ _ _ _ E3) as (Hgas & Hlimit & _).
  rewrite (ensureAllowance_reaches s ownerAddress owner st current st2 prepared st3) by done.
  exists (submissionOf s prepared). split; [|split].
  - destruct (submit (submissionOf s prepared) st3) as [r st4] eqn:E4. pose proof (proj2 (submit_run _ _ _ _ E4)) as Hs.
    unfold mbind at 1. rewrite E4. destruct r as [hash|e]; [|simpl; congruence].
    match goal with |- context [snd (?m st4)] => assert (quiet m) as -> end; [|congruence].
    apply quiet_mbind; [apply quiet_onNode|]. intros _. apply quiet_mbind; [apply quiet_confirmed|]. intros c. apply quiet_mret.
  - simpl. rewrite Hlimit. by apply headroom_bounds.
  - intros hash n4 n5 n6 E4 E5 E6. unfold mbind, submit, onNode, readConfirmedAllowance, mbind, onNode.
    rewrite E4. simpl. rewrite E5. simpl. rewrite E6. simpl. rewrite Z.eqb_refl. simpl. eauto.
Qed.

End Claims.

(** ** An example *)

Definition lowerAddress (text : string) : option string :=
  let lowered := toLowerCase text in if Mandate.EVM_ADDRESS_PATTERN lowered then Some lowered else None.

(** A node whose state is the allowance. *)
#[local] Instance exampleReader : EvmTransactionPolicyReader Z := {
  getBlock := mret {| lb_number := Some 7; lb_baseFeePerGas := Some 1000000000 |};
  estimateFeesPerGas := mret {| fe_gasPrice := None; fe_maxFeePerGas := None; fe_maxPriorityFeePerGas := Some 0 |};
  getTransactionCount := fun _ _ => mret 4;
  getFeeHistory := Some (fun _ _ => mthrow "method not found"%string) }.

#[local] Instance exampleNode : WethNode Z := {
  readAllowance := fun _ _ _ w => (Ok w, w);
  estimateContractGas := fun _ _ _ _ => mret 50001;
  writeContract := fun submission _ => (Ok "0xhash"%string, ws_amount submission);
  waitForTransactionReceipt := fun _ => mret tt }.

Definition exampleMandate : Mandate.BiddingMandate := {|
  Mandate.chainId := 1;
  Mandate.startPolicy := {| Mandate.wethAllowanceCapWei := 500;
    Mandate.trustOpenSeaSignedZoneTraitOffers := false;
    Mandate.minPriorityFeePerGasWei := 1000000; Mandate.maxFeePerGasWei := 5000000000;
    Mandate.maxTotalGasFeeWei := 100000000000000; Mandate.pendingNoncePolicy := Mandate.NonceFail |};
  Mandate.collectionsById := [] |}.

Definition exampleBiddingConfig : EnabledBiddingConfig := {|
  bc_wethAllowanceCapWei := 500; bc_trustOpenSeaSignedZoneTraitOffers := false;
  bc_transactionPolicy := exampleConfig; bc_wethApprovalMaxGasFeeWei := 100000000000000 |}.

Definition exampleService : Service := {|
  wethAddress := toLowerCase PolicyWallet.policyWethAddress; spenderAddress := conduitAddress;
  authorization := mandateAuthorization exampleBiddingConfig exampleMandate |}.

Definition exampleOwner : string := "0x1111111111111111111111111111111111111111".

Definition exampleStart : @State Z := {| s_node := 3; s_sent := [] |}.

Definition exampleRun : result EnsureWethAllowanceResult * @State Z :=
  ensureAllowance lowerAddress exampleService exampleOwner false exampleStart.

Lemma exampleService_created :
  createService lowerAddress PolicyWallet.policyWethAddress conduitAddress
    (mandateAuthorization exampleBiddingConfig exampleMandate) = Ok exampleService.
Proof. vm_compute. reflexivity. Qed.

Lemma approval_within_mandate_witness :
  length (s_sent (snd exampleRun)) = 1%nat
  /\ exists e, fst exampleRun = Ok e /\ er_status e = Updated /\ er_currentAllowanceWei e = 500.
Proof.
  destruct (approval_within_mandate lowerAddress exampleBiddingConfig exampleMandate PolicyWallet.policyWethAddress
              conduitAddress exampleService exampleOwner false exampleStart (fst exampleRun) (snd exampleRun)
              exampleService_created (surjective_pairing exampleRun)) as (sent & Hs & _ & _ & _ & Hr).
  assert (sent = s_sent (snd exampleRun)) as -> by (rewrite Hs; simpl; by rewrite app_nil_r).
  split; [vm_compute; reflexivity|]. eexists. split; [vm_compute; reflexivity|]. split; [reflexivity|].
  destruct (Hr _ ltac:(vm_compute; reflexivity)) as (_ & _ & answered & _ & _ & _ & Hcap & _). exact Hcap.
Defined.

Definition examplePrepared : PreparedWethApprovalTransaction :=
  match fst (prepareApprovalTransactionPolicy exampleService exampleOwner 500 exampleStart) with
  | Ok p => p
  | Err _ => {| pa_transactionPolicy := {| pp_context := ""; pp_fromAddress := ""; pp_blockNumber := None;
                  pp_baseFeePerGasWei := 0; pp_nodeGasPriceWei := None; pp_nodeMaxFeePerGasWei := None;
                  pp_nodeMaxPriorityFeePerGasWei := None; pp_feeHistoryPriorityFeePerGasWei := None;
                  pp_maxPriorityFeePerGasWei := 0; pp_uncappedMaxFeePerGasWei := 0; pp_maxFeePerGasWei := 0;
                  pp_latestNonce := 0; pp_pendingNonce := 0 |};
                pa_gasEstimate := 0; pa_gasLimit := 0; pa_worstCaseGasFeeWei := 0 |}
  end.

Lemma needed_approval_sent_witness :
  exists submission, s_sent (snd exampleRun) = [submission]
    /\ 50001 * 12000 <= ws_gas submission * 10000 < 50001 * 12000 + 10000.
Proof.
  destruct (needed_approval_sent lowerAddress exampleBiddingConfig exampleMandate PolicyWallet.policyWethAddress
              conduitAddress exampleService exampleOwner exampleOwner exampleStart 3 exampleStart examplePrepared exampleStart
              exampleService_created ltac:(vm_compute; reflexivity) ltac:(vm_compute; reflexivity) ltac:(vm_compute; discriminate)
              ltac:(vm_compute; reflexivity) ltac:(vm_compute; discriminate)) as (submission & Hs & Hg & _).
  exists submission. split; [exact Hs|exact Hg].
Defined.

End WethApprovalClaims.
