(* ===== verification/JsConvert.v ===== *)
(** * Conversions of JavaScript values

    [Number(value)], [BigInt(value)], [String(value)], strict equality and [??] on the
    values of an external payload, and the regular expressions searched in error texts.
    A number is the exact value of a double.  An array converts as the text of its
    elements; an object is taken to have no field named [toString] or [valueOf], so that
    its text is the default one.  Negative zero is not told from zero. *)

From Stdlib Require Import SpecFloat.
From S2P Require Import Prelude JsValue Domain TraitCriteria.

Open Scope Z_scope.

Module JsConvert.
Import TraitCriteria.

(** ** Conditions and fields *)

Definition nullish (v : jsval) : bool := match v with VUndef | VNull => true | _ => false end.

(** [a ?? b] *)
Definition orElse (a b : jsval) : jsval := if nullish a then b else a.

(** A value as a condition. *)
Definition truthyVal (v : jsval) : bool :=
  match v with
  | VUndef | VNull | VBool false | VNum (NInt 0) | VNum NNaN | VStr EmptyString | VBigInt 0 => false
  | _ => true
  end.

(** [asRecord], whose result may be asked for any field. *)
Definition asRecord (v : jsval) : list (string * jsval) := match v with VObj fields => fields | _ => [] end.

(** [v?.field], or [asRecord(v).field] *)
Definition fieldOf (field : string) (v : jsval) : jsval := obj_get field (asRecord v).

(** The first of several fields that is not nullish, as a chain of [??]. *)
Fixpoint firstField (fields : list string) (v : jsval) : jsval :=
  match fields with
  | [] => VUndef
  | [f] => fieldOf f v
  | f :: rest => orElse (fieldOf f v) (firstField rest v)
  end.

Definition asArray (v : jsval) : list jsval := match v with VArr l => l | _ => [] end.

(** [stringOrUndefined] of the decoder: a text that is not empty. *)
Definition textOrNone (v : jsval) : option string :=
  match v with VStr s => if truthy s then Some s else None | _ => None end.

(** [a ?? b] on such texts. *)
Definition orText (a b : option string) : option string := match a with Some _ => a | None => b end.

(** [===]; two containers are never the same one here. *)
Definition strictEq (a b : jsval) : bool :=
  match a, b with
  | VUndef, VUndef | VNull, VNull => true
  | VBool a, VBool b => Bool.eqb a b
  | VNum a, VNum b => SFeqb (doubleOf a) (doubleOf b)
  | VStr a, VStr b => String.eqb a b
  | VBigInt a, VBigInt b => a =? b
  | _, _ => false
  end.

(** ** Numbers *)

(** The number with the value of a double. *)
Definition ratioOf (x : spec_float) : jsnum :=
  match x with
  | S754_zero _ => NInt 0
  | S754_finite s m e =>
      let v := if s then Zneg m else Zpos m in
      if 0 <=? e then NInt (v * 2 ^ e)
      else if v mod 2 ^ (- e) =? 0 then NInt (v / 2 ^ (- e)) else NFrac v (Z.to_pos (2 ^ (- e)))
  | S754_infinity s => NInf s
  | S754_nan => NNaN
  end.

Definition digitOf (c : ascii) : option Z :=
  let n := Z.of_N (N_of_ascii c) in
  if (48 <=? n) && (n <=? 57) then Some (n - 48)
  else if (65 <=? n) && (n <=? 90) then Some (n - 55)
  else if (97 <=? n) && (n <=? 122) then Some (n - 87)
  else None.

Fixpoint radixDigits (radix acc : Z) (s : string) : option Z :=
  match s with
  | EmptyString => Some acc
  | String c s' =>
      match digitOf c with
      | Some d => if d <? radix then radixDigits radix (acc * radix + d) s' else None
      | None => None
      end
  end.

(** A literal with the prefix of a radix other than ten. *)
Definition prefixedLiteral (s : string) : option (option Z) :=
  match s with
  | String "0" (String c digits) =>
      let radix := if Ascii.eqb c "x" || Ascii.eqb c "X" then 16
                   else if Ascii.eqb c "o" || Ascii.eqb c "O" then 8
                   else if Ascii.eqb c "b" || Ascii.eqb c "B" then 2 else 0 in
      if radix =? 0 then None
      else Some (if truthy digits then radixDigits radix 0 digits else None)
  | _ => None
  end.

(** The sign of a decimal literal and what follows it. *)
Definition signOf (s : string) : bool * string :=
  match s with String "-" t => (true, t) | String "+" t => (false, t) | _ => (false, s) end.

(** [Number(text)] *)
Definition numberOfText (s : string) : jsnum :=
  let t := trim s in
  if negb (truthy t) then NInt 0
  else
    match prefixedLiteral t with
    | Some (Some z) => ratioOf (doubleOfRatio false z 1)
    | Some None => NNaN
    | None =>
        let '(neg, u) := signOf t in
        if String.eqb u "Infinity" then NInf neg
        else match u with
             | String "-" _ => NNaN
             | _ => match parseDecimal u with
                    | Some (_, d, e) => ratioOf (numberOfDecimal neg d e)
                    | None => NNaN
                    end
             end
    end.

(** [BigInt(text)]; [None] where it throws. *)
Definition bigintOfText (s : string) : option Z :=
  let t := trim s in
  if negb (truthy t) then Some 0
  else
    match prefixedLiteral t with
    | Some r => r
    | None =>
        let '(neg, u) := signOf t in
        if truthy u && allDigits u then z ← parseDigits u; Some (if neg then - z else z) else None
    end.

(** ** The text of a number

    The shortest decimal that reads back as the number: [candidate num den k n] is the
    one with [k] digits, of which [n] before the point, closest to [num / den]. *)

Definition candidate (num : Z) (den : positive) (k n : Z) : Z :=
  let '(p, q) := if k <=? n then (num, Zpos den * 10 ^ (n - k)) else (num * 10 ^ (k - n), Zpos den) in
  (2 * p + q) / (2 * q).

Definition readsBack (num : Z) (den : positive) (s k n : Z) : bool :=
  SFeqb (numberOfDecimal false s (n - k)) (doubleOfRatio false num den).

(** The digits before the point of a positive ratio; not positive below a tenth. *)
Definition magnitude (num : Z) (den : positive) : Z :=
  let whole := num / Zpos den in
  if 0 <? whole then Z.of_nat (String.length (Z_toString whole))
  else 1 - Z.of_nat (String.length (Z_toString ((Zpos den - 1) / num))).

Fixpoint shortest (fuel : nat) (num : Z) (den : positive) (k n : Z) : Z * Z :=
  let s := candidate num den k n in
  match fuel with
  | O => (s, k)
  | S fuel' => if readsBack num den s k n then (s, k) else shortest fuel' num den (k + 1) n
  end.

Definition zeros (n : Z) : string := String.concat "" (repeat "0"%string (Z.to_nat n)).

Definition positiveText (num : Z) (den : positive) : string :=
  let n := magnitude num den in
  let '(s, k) := shortest 16 num den 1 n in
  (* rounding up may have given one digit more *)
  let '(s, k, n) := if s =? 10 ^ k then (1, 1, n + 1) else (s, k, n) in
  let digits := Z_toString s in
  if (k <=? n) && (n <=? 21) then append digits (zeros (n - k))
  else if (0 <? n) && (n <=? 21) then
    append (String.substring 0 (Z.to_nat n) digits)
      (append "." (String.substring (Z.to_nat n) (String.length digits) digits))
  else if (-6 <? n) && (n <=? 0) then append "0." (append (zeros (- n)) digits)
  else
    let exponent := append (if 0 <=? n - 1 then "e+" else "e-") (Z_toString (Z.abs (n - 1))) in
    append (String.substring 0 1 digits)
      (append (if k =? 1 then EmptyString
               else append "." (String.substring 1 (String.length digits) digits)) exponent).

(** [String(number)] *)
Definition numberText (n : jsnum) : string :=
  let ratio num den :=
    if num =? 0 then "0"%string
    else if num <? 0 then append "-" (positiveText (- num) den) else positiveText num den in
  match n with
  | NInt z => ratio z 1%positive
  | NFrac num den => ratio num den
  | NNaN => "NaN"
  | NInf neg => if neg then "-Infinity" else "Infinity"
  end.

Example numberText_examples :
  map (fun x => numberText (ratioOf (numberOfDecimal false (fst x) (snd x))))
    [(1, -1); (123456, -3); (5, -7); (1, 21); (2 ^ 60, 0); (3, -1); (5, -324); (99, 0); (17976931348623157, 292)]
  = ["0.1"; "123.456"; "5e-7"; "1e+21"; "1152921504606847000"; "0.3"; "5e-324"; "99"; "1.7976931348623157e+308"]%string.
Proof. vm_compute. reflexivity. Qed.

(** ** Whole values *)

(** [String(value)]; payloads hold no functions. *)
Fixpoint toText (v : jsval) : string :=
  match v with
  | VUndef => "undefined"
  | VNull => "null"
  | VBool b => if b then "true" else "false"
  | VNum n => numberText n
  | VStr s => s
  | VArr l => String.concat "," (map (fun x => match x with VUndef | VNull => EmptyString | _ => toText x end) l)
  | VObj _ => "[object Object]"
  | VBigInt z => Z_toString z
  | VFunction => EmptyString
  end.

(** [Number(value)] *)
Definition toNumber (v : jsval) : jsnum :=
  match v with
  | VNull => NInt 0
  | VBool b => NInt (if b then 1 else 0)
  | VNum n => n
  | VStr s => numberOfText s
  | VArr _ => numberOfText (toText v)
  | VBigInt z => ratioOf (doubleOfRatio (z <? 0) (Z.abs z) 1)
  | VUndef | VObj _ | VFunction => NNaN
  end.

(** [BigInt(value)]; [None] where it throws. *)
Definition toBigInt (v : jsval) : option Z :=
  match v with
  | VBool b => Some (if b then 1 else 0)
  | VNum (NInt z) => Some z
  | VStr s => bigintOfText s
  | VArr _ => bigintOfText (toText v)
  | VBigInt z => Some z
  | _ => None
  end.

Example toNumber_examples :
  map toNumber [VStr " 2 "; VStr "0x10"; VStr "-1.5e1"; VStr "+-1"; VStr ""; VStr "2a"; VArr [VNum (NInt 4)]; VObj []]
  = [NInt 2; NInt 16; NInt (-15); NNaN; NInt 0; NNaN; NInt 4; NNaN]%string.
Proof. vm_compute. reflexivity. Qed.

(** ** Regular expressions

    The patterns tested on error texts are sequences of literals, word boundaries and
    [.+] or [.*]; [matchHere] asks whether the rest of the text, after the unit [prev],
    begins with a match, [searchFrom] whether one begins anywhere. *)
Inductive RegexItem : Type :=
  | Literal (text : string)
  | WordBoundary
  | AnyRun (atLeastOne : bool).

Definition isWordUnit (c : ascii) : bool :=
  match digitOf c with Some _ => true | None => Ascii.eqb c "_" end.

Definition isLineEnd (c : ascii) : bool :=
  let n := N_of_ascii c in ((n =? 10) || (n =? 13))%N.

Definition wordAt (o : option ascii) : bool := match o with Some c => isWordUnit c | None => false end.

Definition headOf (s : string) : option ascii := match s with EmptyString => None | String c _ => Some c end.

(** The text after a literal, with the last unit before it. *)
Fixpoint afterLiteral (text : string) (prev : option ascii) (s : string) : option (option ascii * string) :=
  match text, s with
  | EmptyString, _ => Some (prev, s)
  | String c text', String d s' => if Ascii.eqb c d then afterLiteral text' (Some d) s' else None
  | String _ _, EmptyString => None
  end.

Section Run.
Context (next : option ascii -> string -> bool).
Fixpoint anyRun (prev : option ascii) (s : string) : bool :=
  next prev s || match s with
                 | String c s' => negb (isLineEnd c) && anyRun (Some c) s'
                 | EmptyString => false
                 end.
End Run.

Fixpoint matchHere (items : list RegexItem) (prev : option ascii) (s : string) : bool :=
  match items with
  | [] => true
  | Literal text :: rest =>
      match afterLiteral text prev s with Some (prev, s) => matchHere rest prev s | None => false end
  | WordBoundary :: rest => xorb (wordAt prev) (wordAt (headOf s)) && matchHere rest prev s
  | AnyRun atLeastOne :: rest =>
      if atLeastOne then
        match s with
        | String c s' => negb (isLineEnd c) && anyRun (matchHere rest) (Some c) s'
        | EmptyString => false
        end
      else anyRun (matchHere rest) prev s
  end.

Fixpoint searchFrom (items : list RegexItem) (prev : option ascii) (s : string) : bool :=
  matchHere items prev s || match s with String c s' => searchFrom items (Some c) s' | EmptyString => false end.

(** [pattern.test(text)] *)
Definition regexTest (items : list RegexItem) (text : string) : bool := searchFrom items None text.

(** [text.includes(part)] *)
Definition includes (part text : string) : bool := regexTest [Literal part] text.

End JsConvert.
