(* ===== verification/OpenSeaOffers.v ===== *)
(** * Offers as OpenSea describes them

    [shared/trading/open-sea-bidding-offers.ts], with the readers of
    [shared/opensea/payload.ts] it uses: the unit price of an offer in WETH, the trait
    criteria it states, which tokens it is for, and the whole decoding.  A payload is any
    value; the fields of an object are listed as JavaScript enumerates them.
    [dateParse], which is [Date.parse], and the collation of [TraitCriteria] are
    parameters.  Labels, which are only shown, are left out. *)

From Stdlib Require Import SpecFloat.
From S2P Require Import Prelude JsValue Domain TraitCriteria PolicyWallet JsConvert.

Open Scope Z_scope.

Module OpenSeaOffers.
Import TraitCriteria JsConvert.

(** ** Membership of a token *)

(** One segment: a number, or an ascending range of numbers. *)
Definition parseSegment (segment : string) : option (Z * Z) :=
  match splitOn ":" segment with
  | [a] => if truthy a && allDigits a then z ← parseDigits a; Some (z, z) else None
  | [a; b] =>
      if truthy a && allDigits a && truthy b && allDigits b then
        s ← parseDigits a; e ← parseDigits b; if e <? s then None else Some (s, e)
      else None
  | _ => None
  end.

Fixpoint segmentsContain (segments : list string) (target : Z) (contains : bool) : bool :=
  match segments with
  | [] => contains
  | segment :: rest =>
      match parseSegment segment with
      | None => false
      | Some (s, e) => segmentsContain rest target (contains || ((s <=? target) && (target <=? e)))
      end
  end.

Definition openSeaEncodedTokenIdsContain (encodedTokenIds tokenId : string) : bool :=
  if negb (truthy tokenId && allDigits tokenId) then false
  else if String.eqb encodedTokenIds "*" then true
  else if negb (truthy encodedTokenIds) then false
  else match parseDigits tokenId with
       | Some target => segmentsContain (splitOn "," encodedTokenIds) target false
       | None => false
       end.

(** ** Readers of an order *)

Definition readOrderHash (raw : jsval) : jsval :=
  match fieldOf "orderHash" raw with
  | VStr s => if truthy (trim s) then VStr s else fieldOf "order_hash" raw
  | _ => fieldOf "order_hash" raw
  end.

Definition getOpenSeaOrderHash (raw : jsval) : option string :=
  match readOrderHash raw with VStr s => if truthy (trim s) then Some s else None | _ => None end.

(** [getOpenSeaProtocolEnvelope]; [VUndef] without one. *)
Definition getOpenSeaProtocolEnvelope (raw : jsval) : jsval :=
  match firstField ["protocolData"; "protocol_data"]%string raw with VObj f => VObj f | _ => VUndef end.

Definition getOpenSeaProtocolParameters (raw : jsval) : jsval :=
  match fieldOf "parameters" (getOpenSeaProtocolEnvelope raw) with VObj f => VObj f | _ => VObj [] end.

Definition readItemType (item : jsval) : jsnum := toNumber (firstField ["itemType"; "item_type"]%string item).

Definition readIdentifierOrCriteria (item : jsval) : option string :=
  orText (textOrNone (fieldOf "identifierOrCriteria" item)) (textOrNone (fieldOf "identifier_or_criteria" item)).

Definition readAmount (item : jsval) : jsval := firstField ["startAmount"; "start_amount"; "amount"]%string item.

Definition explicitType (n : jsnum) : bool := match n with NInt z => (z =? 2) || (z =? 3) | _ => false end.

Definition criteriaType (n : jsnum) : bool := match n with NInt z => (z =? 4) || (z =? 5) | _ => false end.

Definition nftType (n : jsnum) : bool := explicitType n || criteriaType n.

(** [recordOrUndefined]: an array is a record too. *)
Definition recordOrUndef (v : jsval) : jsval := match v with VObj _ | VArr _ => v | _ => VUndef end.

Definition tryParseBigInt (v : jsval) : option Z := if nullish v then None else toBigInt v.

Definition tryParseNumber (v : jsval) : option jsnum :=
  if nullish v then None else let n := toNumber v in if isFiniteNum n then Some n else None.

Definition tokenOf (item : jsval) : option string := textOrNone (fieldOf "token" item).

(** An address that was given. *)
Definition given (address : option string) : option string :=
  match address with Some a => if truthy a then Some a else None | None => None end.

Definition isNftItemOf (collectionAddress : option string) (item : jsval) : bool :=
  nftType (readItemType item)
  && match given collectionAddress with
     | None => true
     | Some a => match tokenOf item with
                 | Some token => String.eqb (toLowerCase token) (toLowerCase a)
                 | None => false
                 end
     end.

Definition getOpenSeaNftItems (raw : jsval) (collectionAddress : option string) : list jsval :=
  let parameters := getOpenSeaProtocolParameters raw in
  match List.filter (isNftItemOf collectionAddress) (asArray (fieldOf "consideration" parameters)) with
  | [] => List.filter (isNftItemOf collectionAddress) (asArray (fieldOf "offer" parameters))
  | items => items
  end.

Inductive NftSelectionKind : Type := KindItem | KindCriteria | KindUnknown.

Definition inferOpenSeaNftSelectionKind (raw : jsval) (collectionAddress : option string) : NftSelectionKind :=
  let items := getOpenSeaNftItems raw collectionAddress in
  if existsb (fun item => explicitType (readItemType item)) items then KindItem
  else if existsb (fun item => criteriaType (readItemType item)) items then KindCriteria
  else KindUnknown.

Definition hasCriteriaNftItem (raw : jsval) (collectionAddress : option string) : bool :=
  existsb (fun item => criteriaType (readItemType item)) (getOpenSeaNftItems raw collectionAddress).

Definition getExplicitTokenId (raw : jsval) (collectionAddress : option string) : option string :=
  hd_error (omap (fun item => if explicitType (readItemType item) then readIdentifierOrCriteria item else None)
              (getOpenSeaNftItems raw collectionAddress)).

Definition getOpenSeaCriteriaRoot (raw : jsval) (collectionAddress : option string) : option string :=
  match List.filter (fun item => criteriaType (readItemType item)) (getOpenSeaNftItems raw collectionAddress) with
  | item :: _ => readIdentifierOrCriteria item
  | [] => None
  end.

(** ** The unit price *)

Definition sumTokenItems (items : jsval) (tokenAddress : string) : Z :=
  fold_left (fun sum item =>
      match tokenOf item with
      | Some token => if String.eqb (toLowerCase token) tokenAddress
                      then sum + default 0 (tryParseBigInt (readAmount item)) else sum
      | None => sum
      end) (asArray items) 0.

Definition sumNftUnits (items : jsval) (collectionAddress : option string) : Z :=
  fold_left (fun sum item =>
      if negb (nftType (readItemType item)) then sum
      else
        let other := match given collectionAddress, tokenOf item with
                     | Some a, Some token => negb (String.eqb (toLowerCase token) (toLowerCase a))
                     | _, _ => false
                     end in
        if other then sum else sum + default 0 (tryParseBigInt (readAmount item))) (asArray items) 0.

(** [toUpperCase], on the letters that matter to the comparisons. *)
Fixpoint upperLetters (s : string) : string :=
  match s with
  | EmptyString => EmptyString
  | String c s' =>
      let n := N_of_ascii c in
      String (if ((97 <=? n) && (n <=? 122))%N then ascii_of_N (n - 32) else c) (upperLetters s')
  end.

Definition isPartialOrderType (orderType : jsval) : bool :=
  match orderType with
  | VNum (NInt z) => (z =? 1) || (z =? 3)
  | VStr s =>
      let upper := upperLetters s in
      includes "PARTIAL" upper || String.eqb upper "1" || String.eqb upper "3"
  | _ => false
  end.

Definition divCeil (numerator denominator : Z) : Z :=
  let quotient := Z.quot numerator denominator in
  if Z.rem numerator denominator =? 0 then quotient else quotient + 1.

Definition isWethCurrency (currency wethAddress : string) : bool :=
  let normalized := toLowerCase currency in
  String.eqb normalized wethAddress || String.eqb normalized "weth".

Definition lowerIs (address : string) (text : option string) : bool :=
  match text with Some t => String.eqb (toLowerCase t) address | None => false end.

Definition isOpenSeaWethOrder (raw : jsval) (wethAddress : string) : bool :=
  let paymentToken :=
    orText (textOrNone (fieldOf "paymentToken" raw))
      (orText (textOrNone (fieldOf "payment_token" raw))
        (orText (textOrNone (fieldOf "paymentTokenAddress" raw)) (textOrNone (fieldOf "payment_token_address" raw)))) in
  let parameters := getOpenSeaProtocolParameters raw in
  lowerIs wethAddress paymentToken
  || existsb (fun item => lowerIs wethAddress (tokenOf item)) (asArray (fieldOf "offer" parameters))
  || existsb (fun item => lowerIs wethAddress (tokenOf item)) (asArray (fieldOf "consideration" parameters)).

Record OpenSeaBiddingPriceExtraction := {
  pe_price : Z;
  pe_source : string;
  pe_quantity : Z;
  pe_currencyAddress : string;
}.

Definition moreThanOne (n : option jsnum) : bool :=
  match n with
  | Some (NInt z) => 1 <? z
  | Some (NFrac num den) => Zpos den <? num
  | _ => false
  end.

(** The price of the items of the order itself. *)
Definition protocolPrice (raw : jsval) (collectionAddress : option string) (wethAddress : string)
    : option OpenSeaBiddingPriceExtraction :=
  let parameters := getOpenSeaProtocolParameters raw in
  let offerSum := sumTokenItems (fieldOf "offer" parameters) wethAddress in
  let considerationSum := sumTokenItems (fieldOf "consideration" parameters) wethAddress in
  let unitsWanted := sumNftUnits (fieldOf "consideration" parameters) collectionAddress in
  let nftUnits := if 0 <? unitsWanted then unitsWanted else sumNftUnits (fieldOf "offer" parameters) collectionAddress in
  let isPartial :=
    isPartialOrderType (firstField ["orderType"; "order_type"]%string parameters)
    || moreThanOne (tryParseNumber (firstField ["remainingQuantity"; "remaining_quantity"]%string raw)) in
  if (0 <? offerSum) || (0 <? considerationSum) then
    let '(value, source) := if considerationSum <=? offerSum then (offerSum, "protocol.offer")
                            else (considerationSum, "protocol.consideration") in
    let quantity := if 0 <? nftUnits then nftUnits else 1 in
    if isPartial && (1 <? quantity) then
      Some {| pe_price := divCeil value quantity; pe_source := append source "/unit"; pe_quantity := quantity;
              pe_currencyAddress := wethAddress |}
    else Some {| pe_price := value; pe_source := source; pe_quantity := quantity; pe_currencyAddress := wethAddress |}
  else None.

(** The address is given in lower case. *)
Definition extractOpenSeaWethUnitPrice (raw : jsval) (collectionAddress : option string) (wethAddress : string)
    : option OpenSeaBiddingPriceExtraction :=
  let plain price source := Some {| pe_price := price; pe_source := source; pe_quantity := 1;
                                    pe_currencyAddress := wethAddress |} in
  let otherwise :=
    let priceRecord := fieldOf "price" raw in
    match tryParseBigInt (fieldOf "value" priceRecord), textOrNone (fieldOf "currency" priceRecord) with
    | Some value, Some currency =>
        if isWethCurrency currency wethAddress then plain value "price.value"%string else None
    | _, _ => None
    end in
  let byCurrentPrice :=
    if isOpenSeaWethOrder raw wethAddress then
      match tryParseBigInt (firstField ["currentPrice"; "current_price"]%string raw) with
      | Some price => plain price "currentPrice"%string
      | None => None
      end
    else None in
  let fromItems := if truthyVal (fieldOf "parameters" (getOpenSeaProtocolEnvelope raw))
                   then protocolPrice raw collectionAddress wethAddress else None in
  match fromItems with
  | Some p => Some p
  | None => match otherwise with Some p => Some p | None => byCurrentPrice end
  end.

(** ** Trait criteria *)

Definition openSeaTraitValue (v : jsval) : result string :=
  match v with
  | VStr _ | VBool _ => Ok (toText v)
  | VNum n => if isFiniteNum n then Ok (toText v) else Err "Invalid OpenSea trait value"
  | _ => Err "Invalid OpenSea trait value"
  end.

Definition textVal (o : option string) : jsval := match o with Some s => VStr s | None => VUndef end.

Definition typeField (v : jsval) : option string :=
  orText (textOrNone (fieldOf "type" v))
    (orText (textOrNone (fieldOf "trait_type" v)) (textOrNone (fieldOf "traitType" v))).

(** The entry given to [parseBiddingTraitCriteria]. *)
Definition criterionEntry (type : jsval) (value min max : jsval) : jsval :=
  VObj [("type", type); ("value", value); ("min", min); ("max", max)]%string.

Definition presentValues (v : jsval) (keys : list string) : list jsval :=
  List.filter (fun x => negb (isUndef x)) (map (fun key => fieldOf key v) keys).

(** [values.some((value) => value !== values[0])]: only NaN differs from itself. *)
Definition conflicting (values : list jsval) : bool :=
  match values with
  | [] => false
  | first :: rest =>
      match first with VNum NNaN => true | _ => existsb (fun x => negb (strictEq x first)) rest end
  end.

Definition readOpenSeaNumericTraitBound (record : jsval) (aliases : list string) : result jsval :=
  let values := presentValues record aliases in
  if conflicting values then Err "Conflicting OpenSea numeric trait bounds"
  else Ok (default VUndef (hd_error values)).

(** [String(range.min)] of an interval of one number. *)
Definition collapseRange (c : TraitCriterion) : TraitCriterion :=
  match c with
  | RangeTrait type min max => if SFeqb min max then ExactTrait type (numberText (ratioOf min)) else c
  | _ => c
  end.

Definition numericCriterion (entry : jsval) : result TraitCriterion :=
  let type := textVal (typeField entry) in
  try exactValues <- result_map openSeaTraitValue (presentValues entry ["value"; "trait_value"; "traitValue"]%string);
  try min <- readOpenSeaNumericTraitBound entry ["min"; "min_value"; "minValue"]%string;
  try max <- readOpenSeaNumericTraitBound entry ["max"; "max_value"; "maxValue"]%string;
  if negb (isUndef min && isUndef max) then
    try range <- parseCriterion (criterionEntry type (textVal (hd_error exactValues)) min max);
    Ok (collapseRange range)
  else
    match exactValues with
    | [] => Err "Invalid OpenSea numeric criterion"
    | exactValue :: _ =>
        if existsb (fun value => negb (String.eqb value exactValue)
                                 || match numericTraitValue value with None => true | Some _ => false end) exactValues
        then Err "Invalid OpenSea numeric criterion"
        else parseCriterion (criterionEntry type (VStr exactValue) VUndef VUndef)
    end.

Definition normalizeOpenSeaNumericTraitCriteria (v : jsval) : result (list TraitCriterion) :=
  match v with
  | VUndef | VNull => Ok []
  | VArr entries => result_map numericCriterion entries
  | _ => Err "Invalid OpenSea numeric criteria"
  end.

Definition hasField (fields : list (string * jsval)) (name : string) : bool :=
  match jm_get name fields with Some _ => true | None => false end.

Definition isOpenSeaCriteriaEnvelope (fields : list (string * jsval)) : bool :=
  existsb (hasField fields)
    ["trait"; "traits"; "numeric_traits"; "numericTraits"; "encoded_token_ids"; "encodedTokenIds"; "collection"; "contract"]%string.

(** A criterion that was supplied has to decode. *)
Definition required (supplied : jsval) (traits : list TraitCriterion) : result (list TraitCriterion) :=
  match traits with
  | [] => if nullish supplied then Ok [] else Err "Invalid OpenSea trait criterion"
  | _ => Ok traits
  end.

(** A record that is no envelope. *)
Definition plainCriteria (fields : list (string * jsval)) : result (list TraitCriterion) :=
  let candidate := VObj fields in
  let type := textVal (typeField candidate) in
  let value := firstField ["value"; "trait_value"; "traitValue"; "trait_name"; "traitName"]%string candidate in
  let min := fieldOf "min" candidate in
  let max := fieldOf "max" candidate in
  if negb (isUndef min && isUndef max) then
    parseBiddingTraitCriteria (VArr [criterionEntry type value min max])
  else if existsb (hasField fields)
            ["type"; "trait_type"; "traitType"; "value"; "trait_value"; "traitValue"; "trait_name"; "traitName"]%string
  then
    try text <- openSeaTraitValue value;
    parseBiddingTraitCriteria (VArr [criterionEntry type (VStr text) VUndef VUndef])
  else
    match fields with
    | [] => Err "Invalid OpenSea trait criteria"
    | _ =>
        try entries <- result_map (fun kv => try text <- openSeaTraitValue (snd kv);
                                             Ok (criterionEntry (VStr (fst kv)) (VStr text) VUndef VUndef)) fields;
        parseBiddingTraitCriteria (VArr entries)
    end.

(** The criteria of the fields of an envelope are worked out with the envelope, and used
    where the code asks for them. *)
Fixpoint normalizeOpenSeaTraitCriteria (criteria : jsval) : result (list TraitCriterion) :=
  match criteria with
  | VArr entries =>
      try lists <- result_map (fun entry =>
        match entry with
        | VObj _ => try traits <- normalizeOpenSeaTraitCriteria entry;
                    match traits with [] => Err "Invalid OpenSea trait criterion" | _ => Ok traits end
        | _ => Err "Invalid OpenSea trait criterion: expected object"
        end) entries;
      Ok (concat lists)
  | VObj fields =>
      let inner := map (fun '(key, v) => (key, if nullish v then Ok [] else normalizeOpenSeaTraitCriteria v)) fields in
      let innerOf key := default (Ok []) (jm_get key inner) in
      if isOpenSeaCriteriaEnvelope fields then
        try trait <- innerOf "trait"%string;
        try trait <- required (obj_get "trait" fields) trait;
        try traits <- innerOf "traits"%string;
        try numeric <- normalizeOpenSeaNumericTraitCriteria (obj_get "numeric_traits" fields);
        try numeric' <- normalizeOpenSeaNumericTraitCriteria (obj_get "numericTraits" fields);
        Ok (trait ++ traits ++ numeric ++ numeric')
      else plainCriteria fields
  | _ => Err "Invalid OpenSea trait criteria: expected object"
  end.

Definition normalizeOptionalOpenSeaTraitCriteria (criteria : jsval) : result (list TraitCriterion) :=
  if nullish criteria then Ok [] else normalizeOpenSeaTraitCriteria criteria.

Definition normalizeOptionalOpenSeaTraitCriterion (criteria : jsval) : result (list TraitCriterion) :=
  try traits <- normalizeOptionalOpenSeaTraitCriteria criteria; required criteria traits.

(** A criterion as the record it is. *)
Definition criterionVal (c : TraitCriterion) : jsval :=
  match c with
  | ExactTrait type value => VObj [("type", VStr type); ("value", VStr value)]%string
  | RangeTrait type min max =>
      VObj [("type", VStr type); ("min", VNum (ratioOf min)); ("max", VNum (ratioOf max))]%string
  end.

Fixpoint indexed (i : Z) (l : list jsval) : list (string * jsval) :=
  match l with [] => [] | x :: l' => (Z_toString i, x) :: indexed (i + 1) l' end.

(** [{ ...v }] *)
Definition spread (v : jsval) : list (string * jsval) :=
  match v with VObj f => f | VArr l => indexed 0 l | _ => [] end.

Section Decode.
Context (localeCompare : keyItem -> keyItem -> Z) (dateParse : string -> option Z).

Abbreviation dedupe := (dedupeBiddingTraitCriteria localeCompare).

Definition normalizeOpenSeaOfferTraitCriteria (criteria : jsval) : result (list TraitCriterion) :=
  match criteria with
  | VObj [] => Ok []
  | _ => try traits <- normalizeOptionalOpenSeaTraitCriteria criteria; Ok (dedupe traits)
  end.

Definition getOpenSeaStreamTraitCriteria (offer : jsval) : result (list TraitCriterion) :=
  try single <- normalizeOptionalOpenSeaTraitCriterion (firstField ["trait_criteria"; "traitCriteria"]%string offer);
  try several <- normalizeOptionalOpenSeaTraitCriteria (firstField ["trait_criteria_list"; "traitCriteriaList"]%string offer);
  try numeric <- normalizeOpenSeaNumericTraitCriteria (fieldOf "numeric_trait_criteria_list" offer);
  try numeric' <- normalizeOpenSeaNumericTraitCriteria (fieldOf "numericTraitCriteriaList" offer);
  Ok (dedupe (single ++ several ++ numeric ++ numeric')).

(** [VUndef] without criteria. *)
Definition getOpenSeaOfferCriteria (raw : jsval) : result jsval :=
  let criteria := orElse (recordOrUndef (fieldOf "criteria" raw))
                         (recordOrUndef (fieldOf "criteria" (getOpenSeaProtocolEnvelope raw))) in
  try stream <- getOpenSeaStreamTraitCriteria (VObj (asRecord raw));
  match stream with
  | [] => Ok criteria
  | _ =>
      try own <- normalizeOpenSeaOfferTraitCriteria criteria;
      try streamed <- normalizeOpenSeaOfferTraitCriteria (VObj [("traits"%string, VArr (map criterionVal stream))]);
      Ok (VObj (jm_set "traits" (VArr (map criterionVal (dedupe (own ++ streamed)))) (spread criteria)))
  end.

Definition getEncodedTokenIds (criteria : jsval) : option string :=
  orText (textOrNone (fieldOf "encoded_token_ids" criteria)) (textOrNone (fieldOf "encodedTokenIds" criteria)).

(** [normalizeOpenSeaOfferTraitCriteria(getOpenSeaOfferCriteria(raw))] *)
Definition offerCriteria (raw : jsval) : result (list TraitCriterion) :=
  try criteria <- getOpenSeaOfferCriteria raw; normalizeOpenSeaOfferTraitCriteria criteria.

Definition isOpenSeaCollectionWideOffer (raw : jsval) : result bool :=
  match inferOpenSeaNftSelectionKind raw None with
  | KindItem => Ok false
  | _ =>
      try criteria <- getOpenSeaOfferCriteria raw;
      try traits <- normalizeOpenSeaOfferTraitCriteria criteria;
      Ok (match traits with [] => true | _ => false end
          && match getEncodedTokenIds criteria with None => true | Some ids => String.eqb ids "*" end)
  end.

Definition inferOpenSeaOfferScope (raw : jsval) : result OfferScope :=
  match inferOpenSeaNftSelectionKind raw None with
  | KindItem => Ok OfferItem
  | kind =>
      try criteria <- getOpenSeaOfferCriteria raw;
      if nullish criteria then Ok match kind with KindCriteria => OfferCollection | _ => OfferItem end
      else
        try traits <- normalizeOpenSeaOfferTraitCriteria criteria;
        Ok match traits with [] => OfferCollection | _ => OfferTrait end
  end.

Definition getOpenSeaCollectionAddress (raw : jsval) (collectionAddress : option string) : result (option string) :=
  match hd_error (getOpenSeaNftItems raw collectionAddress) ≫= tokenOf with
  | Some token => Ok (Some (toLowerCase token))
  | None =>
      try criteria <- getOpenSeaOfferCriteria raw;
      match textOrNone (fieldOf "address" (recordOrUndef (fieldOf "contract" criteria))) with
      | Some address => Ok (Some (toLowerCase address))
      | None =>
          let asset := recordOrUndef (firstField ["assetContractCriteria"; "asset_contract_criteria"]%string raw) in
          match textOrNone (fieldOf "address" asset) with
          | Some address => Ok (Some (toLowerCase address))
          | None => Ok (option_map toLowerCase collectionAddress)
          end
      end
  end.

(** [TRADING_BIDDING_BID_SCOPE_KIND] *)
Inductive BidScopeKind : Type := ScopeCollection | ScopeTrait | ScopeToken | ScopeTokenSet | ScopeUnknown.

Record OpenSeaBiddingOfferBidScope := {
  bs_kind : BidScopeKind;
  bs_tokenId : option string;
  bs_traits : list TraitCriterion;
  bs_encodedTokenIds : option string;
}.

Definition resolveOpenSeaBiddingOfferBidScope (raw : jsval) (collectionAddress : option string)
    : result OpenSeaBiddingOfferBidScope :=
  try criteria <- getOpenSeaOfferCriteria raw;
  try traits <- normalizeOpenSeaOfferTraitCriteria criteria;
  let encoded := getEncodedTokenIds criteria in
  let scope kind tokenId traits encoded :=
    Ok {| bs_kind := kind; bs_tokenId := tokenId; bs_traits := traits; bs_encodedTokenIds := encoded |} in
  match getExplicitTokenId raw collectionAddress with
  | Some tokenId => scope ScopeToken (Some tokenId) [] None
  | None =>
      match traits with
      | _ :: _ => scope ScopeTrait None traits encoded
      | [] =>
          if match encoded with Some ids => negb (String.eqb ids "*") | None => false end
          then scope ScopeTokenSet None [] encoded
          else if truthyVal criteria || hasCriteriaNftItem raw collectionAddress
          then scope ScopeCollection None [] encoded
          else scope ScopeUnknown None [] None
      end
  end.

(** ** The whole offer *)

Definition tryParseTimestamp (v : jsval) : option Z :=
  if nullish v then None else ms ← dateParse (toText v); Some (ms / 1000).

(** [toISOString] without the milliseconds. *)
Definition toRfc3339Seconds (ms : Z) : string :=
  let iso := toISOString ms in append (String.substring 0 (String.length iso - 5) iso) "Z".

Definition normalizeOpenSeaTimestamp (v : jsval) : option string :=
  seconds ← tryParseTimestamp v; Some (toRfc3339Seconds (seconds * 1000)).

Inductive DiscoverySource : Type := ItemOffers | CollectionOffers | TraitOffers | BestOffer | StateRecovery.

Record ParsedOpenSeaBiddingOffer := {
  pa_id : string;
  pa_price : Z;
  pa_maker : string;
  pa_collectionAddress : option string;
  pa_currencyAddress : string;
  pa_protocolAddress : option string;
  pa_createdAt : option string;
  pa_validFrom : option jsnum;
  pa_expirationTime : option jsnum;
  pa_criteriaRoot : option string;
  pa_rawOrder : jsval;
  pa_offerScope : OfferScope;
  pa_discoverySource : DiscoverySource;
  pa_priceSource : string;
  pa_quantity : Z;
  pa_bidScope : OpenSeaBiddingOfferBidScope;
}.

Definition makerOf (raw : jsval) : option string :=
  orText (textOrNone (fieldOf "address" (fieldOf "maker" raw)))
    (orText (textOrNone (fieldOf "maker" raw))
      (textOrNone (fieldOf "offerer" (getOpenSeaProtocolParameters raw)))).

Definition orNumber (a b : option jsnum) : option jsnum := match a with Some _ => a | None => b end.

Definition parseOpenSeaBiddingOffer (raw : jsval) (collectionAddress : option string) (wethAddress : string)
    (discoverySource : DiscoverySource) : result (option ParsedOpenSeaBiddingOffer) :=
  if negb (truthyVal raw) then Ok None
  else
    match getOpenSeaOrderHash raw, makerOf raw,
          extractOpenSeaWethUnitPrice raw collectionAddress (toLowerCase wethAddress) with
    | Some orderHash, Some maker, Some extracted =>
        let parameters := getOpenSeaProtocolParameters raw in
        let createdAt := normalizeOpenSeaTimestamp
          (firstField ["createdAt"; "created_at"; "createdDate"; "created_date"]%string raw) in
        let validFrom :=
          orNumber (tryParseNumber (orElse (firstField ["startTime"; "start_time"]%string raw)
                                           (firstField ["startTime"; "start_time"]%string parameters)))
            (option_map NInt (tryParseTimestamp (textVal createdAt))) in
        let ownEnd := firstField ["expirationTime"; "expiration_time"; "closingDate"; "closing_date"; "endDate"; "end_date"]%string raw in
        let expirationTime :=
          orNumber (tryParseNumber (orElse ownEnd (firstField ["endTime"; "end_time"]%string parameters)))
            (option_map NInt (tryParseTimestamp ownEnd)) in
        try address <- getOpenSeaCollectionAddress raw collectionAddress;
        try offerScope <- inferOpenSeaOfferScope raw;
        try bidScope <- resolveOpenSeaBiddingOfferBidScope raw collectionAddress;
        Ok (Some {| pa_id := orderHash; pa_price := pe_price extracted; pa_maker := toLowerCase maker;
                    pa_collectionAddress := address; pa_currencyAddress := pe_currencyAddress extracted;
                    pa_protocolAddress := orText (textOrNone (fieldOf "protocolAddress" raw))
                                                 (textOrNone (fieldOf "protocol_address" raw));
                    pa_createdAt := createdAt; pa_validFrom := validFrom; pa_expirationTime := expirationTime;
                    pa_criteriaRoot := getOpenSeaCriteriaRoot raw collectionAddress; pa_rawOrder := raw;
                    pa_offerScope := offerScope; pa_discoverySource := discoverySource;
                    pa_priceSource := pe_source extracted; pa_quantity := pe_quantity extracted;
                    pa_bidScope := bidScope |})
    | _, _, _ => Ok None
    end.

End Decode.

End OpenSeaOffers.
