(* ===== verification/OpenSeaService.v ===== *)
(** * The OpenSea adapter of the bidder

    [trading/src/adapters/opensea/open-sea-bidding-service.ts] with
    [adapters/support/retry.ts]: discovery of the offers a job competes with, recovery,
    placement and cancellation of its own, with retries and pagination.  The SDK, behind
    the policy wallet, the clock, the rate limiter, the snapshot service and the metadata
    of tokens are the class [OpenSeaSdk] over a state of their own; nothing constrains
    their answers.  Logs and observers are left out.  Jitter is a rational number where
    the code has a double. *)

From Stdlib Require Import QArith Qround.
From S2P Require Import Prelude JsValue OfferPrice Domain TraitCriteria BiddingService PolicyWallet Snapshots JsConvert OpenSeaOffers.

Open Scope Z_scope.

Module OpenSeaService.
Import TraitCriteria JsConvert OpenSeaOffers.

(** ** Errors of the SDK *)

(** A thrown value: whether it is an [Error], its message or text, and its [status], or
    that of its [response]. *)
Record Thrown := { th_isError : bool; th_message : string; th_status : jsval }.

Inductive Answer (A : Type) : Type :=
  | Returned (a : A)
  | Threw (e : Thrown).
Arguments Returned {A} a.
Arguments Threw {A} e.

Definition PERMANENT_OPENSEA_ERROR_PATTERNS : list (list RegexItem) :=
  [[WordBoundary; Literal "nft with identifier "; AnyRun true; Literal " not found in collection"; WordBoundary];
   [WordBoundary; Literal "unsupported trait"; WordBoundary];
   [WordBoundary; Literal "trait "; AnyRun true; Literal " not found"; WordBoundary]].

(** The patterns ignore case. *)
Definition isRetryableOpenSeaBiddingError (e : Thrown) : bool :=
  negb (existsb (fun pattern => regexTest pattern (toLowerCase (th_message e))) PERMANENT_OPENSEA_ERROR_PATTERNS).

Definition isNotFoundError (e : Thrown) : bool :=
  includes "404" (th_message e) || match toNumber (th_status e) with NInt z => z =? 404 | _ => false end.

Definition isDirectOrderAbsentError (e : Thrown) : bool :=
  if isNotFoundError e then true
  else
    let message := toLowerCase (trim (th_message e)) in
    let both a b := [WordBoundary; Literal a; WordBoundary; AnyRun false; WordBoundary; Literal b; WordBoundary] in
    String.eqb message "not found"
    || existsb (fun pattern => regexTest pattern message)
         [both "order" "not found"; both "not found" "order"; both "order" "inactive"; both "order" "not active";
          both "inactive" "order"; both "not active" "order"]%string.

(** ** Configuration *)

Record RetryPolicy := {
  rp_maxAttempts : Z;
  rp_baseDelayMs : Z;
  rp_maxDelayMs : Z;
  rp_jitterRatio : Q;
}.

Definition defaultRetryPolicy : RetryPolicy := {|
  rp_maxAttempts := 5; rp_baseDelayMs := 500; rp_maxDelayMs := 10000; rp_jitterRatio := 1 # 5 |}.

(** The fields of the service; [makerAddress] and the options. *)
Record Config := {
  makerAddress : string;
  retryPolicy : RetryPolicy;
  offerExpirationSeconds : Z;
  orderLookupMaxPages : Z;
  offersPageSize : Z;
  tokenCriteriaTraitsByCollection : list (string * list string);
  competitiveTraitMaxLookupSelectors : Z;
  trustOpenSeaSignedZoneTraitOffers : bool;
}.

(** The bounds the constructor puts on the options. *)
Definition create (c : Config) : Config := {|
  makerAddress := makerAddress c; retryPolicy := retryPolicy c; offerExpirationSeconds := offerExpirationSeconds c;
  orderLookupMaxPages := Z.max 1 (orderLookupMaxPages c); offersPageSize := Z.max 1 (offersPageSize c);
  tokenCriteriaTraitsByCollection := tokenCriteriaTraitsByCollection c;
  competitiveTraitMaxLookupSelectors := Z.max 1 (competitiveTraitMaxLookupSelectors c);
  trustOpenSeaSignedZoneTraitOffers := trustOpenSeaSignedZoneTraitOffers c |}.

(** [OpenSeaCreateOfferInput] and [OpenSeaCreateCollectionOfferInput]. *)
Record CreateOfferInput := {
  ci_tokenAddress : string;
  ci_tokenId : string;
  ci_accountAddress : string;
  ci_amount : string;
  ci_expirationTime : Z;
}.

Record CreateCollectionOfferInput := {
  cc_collectionSlug : string;
  cc_accountAddress : string;
  cc_amount : string;
  cc_quantity : Z;
  cc_traitType : option string;
  cc_traitValue : option string;
  cc_traits : option (list TraitTarget);
  cc_expirationTime : Z;
}.

(** What a page of offers is asked for; [None] asks the first page. *)
Inductive PageRequest : Type :=
  | NftOffers (slug tokenId : string)
  | AllOffers (slug : string)
  | CollectionOffersOf (slug : string)
  | TraitOffersOf (slug type value : string).

Class OpenSeaSdk (W : Type) := {
  getPage : PageRequest -> Z -> option string -> M W (Answer jsval);
  getTraits : string -> M W (Answer jsval);
  getBestOffer : string -> string -> M W (Answer jsval);
  getOrderByHash : string -> string -> M W (Answer jsval);
  createOffer : CreateOfferInput -> PolicyWallet.OpenSeaOfferSigningAuthorization -> M W (Answer jsval);
  createCollectionOffer : CreateCollectionOfferInput -> PolicyWallet.OpenSeaOfferSigningAuthorization ->
                          M W (Answer jsval);
  offchainCancelOrder : string -> string -> M W (Answer unit);
  (** [rateLimiter.wait], with the costs of reads and writes *)
  rateLimiterWait : Z -> Z -> RequestPriority -> W -> W;
  sleep : Z -> W -> W;
  random : W -> Q * W;
  now : W -> Z;
  (** the snapshot provider and the metadata repository, where the service has them *)
  getSnapshot : option (string -> W -> option Snapshots.CollectionOfferSnapshot);
  getTokenTraits : option (string -> string -> M W (list TraitTarget));
}.

(** ** Retries *)

(** [Math.round] *)
Definition roundQ (x : Q) : Z := Qfloor (x + (1 # 2)).

Definition getRetryDelayMs (attempt : Z) (policy : RetryPolicy) (randomValue : Q) : Z :=
  let exponent := Z.max 0 (attempt - 1) in
  let baseDelay := Z.min (rp_maxDelayMs policy) (rp_baseDelayMs policy * 2 ^ exponent) in
  let jitter := (inject_Z baseDelay * rp_jitterRatio policy * (randomValue * 2 - 1))%Q in
  Z.max 0 (roundQ (inject_Z baseDelay + jitter)).

(** What is thrown in the end is always an [Error]. *)
Definition asError (e : Thrown) : Thrown :=
  if th_isError e then e else {| th_isError := true; th_message := th_message e; th_status := VUndef |}.

Section Adapter.
Context {W : Type} `{OpenSeaSdk W}.
Context (localeCompare : keyItem -> keyItem -> Z) (dateParse : string -> option Z) (formatUnits : Z -> Z -> string).
Context (config : Config).
(** The pages read before an endless pagination is given up; the code has no bound. *)
Context (fuel : nat).

Section Retry.
Context {A : Type} (fn : M W (Answer A)) (policy : RetryPolicy) (shouldRetry : Thrown -> bool).

(** The loop with [left] attempts left after [attempt] that failed. *)
Fixpoint attempts (left : nat) (attempt : Z) (lastError : Thrown) : M W (Answer A) :=
  match left with
  | O => mret (Threw (asError lastError))
  | S left' =>
      let! answer := fn in
      match answer with
      | Returned a => mret (Returned a)
      | Threw error =>
          let attempt := attempt + 1 in
          if rp_maxAttempts policy <=? attempt then mret (Threw (asError error))
          else if negb (shouldRetry error) then mret (Threw (asError error))
          else fun w =>
            let '(r, w) := random w in
            attempts left' attempt error (sleep (getRetryDelayMs attempt policy r) w)
      end
  end.

(** Without an attempt the error is the text of [undefined]. *)
Definition retry : M W (Answer A) :=
  attempts (Z.to_nat (rp_maxAttempts policy)) 0 {| th_isError := false; th_message := "undefined"; th_status := VUndef |}.

End Retry.

Definition toRateLimitPriority (context : RequestContext) : RequestPriority :=
  match context with Some PriorityUserCommand => PriorityUserCommand | _ => PriorityBackground end.

(** [trackSdkCall], with the costs of [sdkCallCosts]. *)
Definition trackSdkCall {A} (getCost postCost : Z) (fn : M W (Answer A)) (context : RequestContext) : M W (Answer A) :=
  fun w => fn (rateLimiterWait getCost postCost (toRateLimitPriority context) w).

Definition withRetry {A} (fn : M W (Answer A)) (context : RequestContext) (isExpectedAbsence : Thrown -> bool)
    : M W (Answer A) :=
  retry (trackSdkCall 1 0 fn context) (retryPolicy config)
    (fun error => negb (isExpectedAbsence error) && isRetryableOpenSeaBiddingError error).

Definition orThrow {A} (answer : Answer A) : M W A :=
  match answer with Returned a => mret a | Threw e => mthrow (th_message e) end.

Definition lifted {A} (r : result A) : M W A := fun w => (r, w).

Definition never (e : Thrown) : bool := false.

(** ** Pages *)

(** [response?.offers] and [response?.next]. *)
Definition pageOffers (response : jsval) : list jsval := asArray (fieldOf "offers" response).

Definition nextCursor (response : jsval) : option string := textOrNone (fieldOf "next" response).

Definition askPage (request : PageRequest) (cursor : option string) (context : RequestContext) : M W jsval :=
  let! answer := withRetry (getPage request (offersPageSize config) cursor) context never in orThrow answer.

(** [fetchNftOffers]: [pages] are left before the bound. *)
Fixpoint nftPages (pages : nat) (slug tokenId : string) (context : RequestContext) (cursor : option string)
    (seenCursors : list string) : M W (list jsval) :=
  match pages with
  | O => mret []
  | S pages' =>
      let! response := askPage (NftOffers slug tokenId) cursor context in
      match nextCursor response with
      | None => mret (pageOffers response)
      | Some next =>
          if bool_decide (next ∈ seenCursors) then mret (pageOffers response)
          else
            let! rest := nftPages pages' slug tokenId context (Some next) (next :: seenCursors) in
            mret (pageOffers response ++ rest)
      end
  end.

Definition fetchNftOffers (slug tokenId : string) (context : RequestContext) : M W (list jsval) :=
  nftPages (Z.to_nat (orderLookupMaxPages config)) slug tokenId context None [].

Definition STILL_PAGING : string := "the pagination has not ended".

(** The loops of [fetchAllCollectionOffers] and [fetchAllTraitOffers]. *)
Fixpoint allPages (fuel : nat) (request : PageRequest) (context : RequestContext) (onRepeat : result unit)
    (cursor : option string) (seenCursors : list string) : M W (list jsval) :=
  match fuel with
  | O => mthrow STILL_PAGING
  | S fuel' =>
      let! response := askPage request cursor context in
      match nextCursor response with
      | None => mret (pageOffers response)
      | Some next =>
          if bool_decide (next ∈ seenCursors) then do! lifted onRepeat in mret (pageOffers response)
          else
            let! rest := allPages fuel' request context onRepeat (Some next) (next :: seenCursors) in
            mret (pageOffers response ++ rest)
      end
  end.

Definition fetchAllCollectionOffers (slug : string) (context : RequestContext) (includeTraitOffers : bool)
    : M W (list jsval) :=
  if includeTraitOffers then
    allPages fuel (AllOffers slug) context
      (Err "Incomplete trait competition: all-offers pagination cursor repeated") None []
  else allPages fuel (CollectionOffersOf slug) context (Ok tt) None [].

Definition fetchAllTraitOffers (slug traitType traitValue : string) (context : RequestContext) : M W (list jsval) :=
  allPages fuel (TraitOffersOf slug traitType traitValue) context (Ok tt) None [].

(** ** Offers as orders *)

(** [parseRawOffer].  The criteria the bidder reads off the raw order are read here. *)
Definition parseRawOffer (raw : jsval) (collectionAddress : option string) (source : DiscoverySource)
    : result (option Order) :=
  try parsed <- parseOpenSeaBiddingOffer localeCompare dateParse raw collectionAddress
                  PolicyWallet.policyWethAddress source;
  match parsed with
  | None => Ok None
  | Some p =>
      try criteria <- offerCriteria localeCompare raw;
      Ok (Some {| ord_id := pa_id p; ord_price := pa_price p; ord_maker := pa_maker p;
                  ord_protocolAddress := pa_protocolAddress p; ord_placedAt := pa_createdAt p;
                  ord_expirationTime := pa_expirationTime p; ord_offerScope := Some (pa_offerScope p);
                  ord_criteria := criteria; ord_quantity := Some (pa_quantity p) |})
  end.

Definition addUniqueOffer (offers : list Order) (offer : Order) : list Order :=
  if existsb (fun existing => String.eqb (ord_id existing) (ord_id offer)) offers then offers else offers ++ [offer].

(** Every raw offer that [pick] takes is added under its source. *)
Fixpoint collect (pick : jsval -> result (option DiscoverySource)) (collectionAddress : option string)
    (raws : list jsval) (offers : list Order) : result (list Order) :=
  match raws with
  | [] => Ok offers
  | raw :: rest =>
      try source <- pick raw;
      match source with
      | None => collect pick collectionAddress rest offers
      | Some source =>
          try parsed <- parseRawOffer raw collectionAddress source;
          collect pick collectionAddress rest
            (match parsed with Some offer => addUniqueOffer offers offer | None => offers end)
      end
  end.

Definition isItem (raw : jsval) (collectionAddress : option string) : bool :=
  match inferOpenSeaNftSelectionKind raw collectionAddress with KindItem => true | _ => false end.

Abbreviation wide := (isOpenSeaCollectionWideOffer localeCompare).

Definition always (source : DiscoverySource) (raw : jsval) : result (option DiscoverySource) := Ok (Some source).

Definition pickWide (raw : jsval) : result (option DiscoverySource) :=
  try w <- wide raw; Ok (if w then Some CollectionOffers else None).

Definition exactCriterion (t : TraitTarget) : TraitCriterion := ExactTrait (tt_type t) (tt_value t).

Definition dedupeTargets (targets : list TraitTarget) : list TraitTarget :=
  omap (fun c => match c with ExactTrait type value => Some {| tt_type := type; tt_value := value |} | _ => None end)
    (dedupeBiddingTraitCriteria localeCompare (map exactCriterion targets)).

Definition getPlacementTraits (job : BidderJob) : list TraitTarget :=
  match target job with
  | CollectionTarget _ traits => dedupeTargets (default [] traits)
  | CompetitiveTraitTarget _ targetTrait _ => [targetTrait]
  | TokenTarget _ => []
  end.

(** [dedupeTradingCompetitionSelectors] *)
Fixpoint dedupeSelectors (seen selectors : list TraitSelector) : list TraitSelector :=
  match selectors with
  | [] => []
  | s :: rest => if bool_decide (s ∈ seen) then dedupeSelectors seen rest else s :: dedupeSelectors (s :: seen) rest
  end.

Definition selectorOf (t : TraitTarget) : TraitSelector := {| ts_type := tt_type t; ts_value := Some (tt_value t) |}.

Definition getLookupTraitSelectors (job : BidderJob) : list TraitSelector :=
  dedupeSelectors []
    (map selectorOf (getPlacementTraits job)
     ++ match target job with CompetitiveTraitTarget _ _ competitorTraits => competitorTraits | _ => [] end).

Definition expandCompetitiveTraitSelectors (job : BidderJob) (selectors : list TraitSelector) (context : RequestContext)
    : M W (list TraitTarget) :=
  let explicitTargets := omap (fun s => v ← ts_value s; Some {| tt_type := ts_type s; tt_value := v |}) selectors in
  let typeOnly := List.filter (fun s => match ts_value s with None => true | Some _ => false end) selectors in
  match typeOnly with
  | [] => mret (dedupeTargets explicitTargets)
  | _ =>
      let! answer := withRetry (getTraits (collectionSlug job)) context never in
      match answer with
      | Threw _ => mret (dedupeTargets explicitTargets)
      | Returned response =>
          let valuesOf type := map fst (asRecord (fieldOf type (fieldOf "counts" response))) in
          mret (dedupeTargets (explicitTargets ++
                  concat (map (fun s => map (fun v => {| tt_type := ts_type s; tt_value := v |}) (valuesOf (ts_type s)))
                            typeOnly)))
      end
  end.

(** ** Offers of a token *)

(** The raw text of a field of the criteria, empty or not. *)
Definition rawText (v : jsval) : option string := match v with VStr s => Some s | _ => None end.

Definition adapterEncodedIds (criteria : jsval) : option string :=
  orText (rawText (fieldOf "encoded_token_ids" criteria)) (rawText (fieldOf "encodedTokenIds" criteria)).

Definition getRestrictedCriteriaTraitTypes (slug : string) : option (list string) :=
  match jm_get slug (tokenCriteriaTraitsByCollection config) with
  | Some (_ :: _ as types) => Some types
  | _ => None
  end.

(** A criterion of a type that is not followed for the collection. *)
Definition untracked (slug : string) (criteria : list TraitCriterion) : bool :=
  match getRestrictedCriteriaTraitTypes slug with
  | Some types => existsb (fun c => negb (bool_decide (tc_type c ∈ types))) criteria
  | None => false
  end.

(** The first pass over a snapshot: offers for the whole collection. *)
Definition pickSnapshotWide (collectionAddress : string) (raw : jsval) : result (option DiscoverySource) :=
  if isItem raw (Some collectionAddress) then Ok None else pickWide raw.

(** The second pass: offers for tokens or traits that the token has. *)
Definition pickForToken (collectionAddress slug tokenId : string) (tokenTraits : option (list TraitTarget)) (raw : jsval)
    : result (option DiscoverySource) :=
  try w <- wide raw;
  if w || isItem raw (Some collectionAddress) then Ok None
  else
    try criteria <- getOpenSeaOfferCriteria localeCompare raw;
    try criteriaTraits <- normalizeOpenSeaOfferTraitCriteria localeCompare criteria;
    let encodedIds := default EmptyString (adapterEncodedIds criteria) in
    if truthy encodedIds && negb (String.eqb encodedIds "*") then
      Ok (if openSeaEncodedTokenIdsContain encodedIds tokenId then Some TraitOffers else None)
    else
      match criteriaTraits, tokenTraits with
      | [], _ | _, None => Ok None
      | _, Some tokenTraits =>
          if untracked slug criteriaTraits then Ok None
          else match tokenTraits with
               | [] => Ok None
               | _ => Ok (if biddingTraitsMatchToken criteriaTraits tokenTraits then Some TraitOffers else None)
               end
      end.

Definition snapshotOf (slug : string) : M W (option (list jsval)) := fun w =>
  (Ok (get ← getSnapshot; snapshot ← get slug w; Some (Snapshots.sn_offers snapshot)), w).

Definition getCachedTokenSnapshotOffers (job : BidderJob) (tokenId : string) : M W (list Order) :=
  let! snapshot := snapshotOf (collectionSlug job) in
  match snapshot with
  | None => mret []
  | Some raws =>
      let address := collectionAddress job in
      let! cached := lifted (collect (pickSnapshotWide address) (Some address) raws []) in
      let! tokenTraits :=
        match getTokenTraits with
        | None => mret None
        | Some read => let! traits := read (collectionSlug job) tokenId in mret (Some traits)
        end in
      lifted (collect (pickForToken address (collectionSlug job) tokenId tokenTraits) (Some address) raws cached)
  end.

(** ** Offers of a collection *)

Definition targetTraitsOf (job : BidderJob) : list TraitTarget :=
  match target job with CollectionTarget _ traits => dedupeTargets (default [] traits) | _ => [] end.

Definition competes (job : BidderJob) (criteriaTraits : list TraitCriterion) : bool :=
  matchesTraitCompetition localeCompare criteriaTraits (targetTraitsOf job)
    (default [] (extraCompetitionTraits (Domain.config job))).

Definition pickForCollection (job : BidderJob) (raw : jsval) : result (option DiscoverySource) :=
  if isItem raw (Some (collectionAddress job)) then Ok None
  else
    try w <- wide raw;
    if w then Ok (Some CollectionOffers)
    else match targetTraitsOf job with
         | [] => Ok None
         | _ =>
             try criteriaTraits <- offerCriteria localeCompare raw;
             Ok (if competes job criteriaTraits then Some TraitOffers else None)
         end.

Definition collectCachedCollectionSnapshotOffers (job : BidderJob) (raws : list jsval) : result (list Order) :=
  collect (pickForCollection job) (Some (collectionAddress job)) raws [].

Definition pickLiveTrait (job : BidderJob) (raw : jsval) : result (option DiscoverySource) :=
  try criteriaTraits <- offerCriteria localeCompare raw;
  Ok (if isItem raw (Some (collectionAddress job)) || negb (competes job criteriaTraits) then None
      else Some TraitOffers).

Definition getLiveCollectionTargetOffers (job : BidderJob) (raws : list jsval) : result (list Order) :=
  match target job with
  | TokenTarget _ | CompetitiveTraitTarget _ _ _ => Ok []
  | CollectionTarget _ _ =>
      try offers <- collect pickWide (Some (collectionAddress job)) raws [];
      match targetTraitsOf job with
      | [] => Ok offers
      | _ => collect (pickLiveTrait job) (Some (collectionAddress job)) raws offers
      end
  end.

(** ** All offers of a job *)

(** The final sort asks only whether the comparator is negative. *)
Fixpoint insertByPrice (offer : Order) (l : list Order) : list Order :=
  match l with
  | [] => [offer]
  | x :: l' => if ord_price offer <? ord_price x then x :: insertByPrice offer l' else offer :: l
  end.

Definition sortByPrice (l : list Order) : list Order := foldr insertByPrice [] l.

Definition addAll (offers more : list Order) : list Order := fold_left addUniqueOffer more offers.

Definition addBestOffer (job : BidderJob) (tokenId : string) (context : RequestContext) (offers : list Order)
    : M W (list Order) :=
  let! answer := withRetry (getBestOffer (collectionSlug job) tokenId) context isNotFoundError in
  match answer with
  | Threw e => if isNotFoundError e then mret offers else mthrow (th_message e)
  | Returned raw =>
      match parseRawOffer raw (Some (collectionAddress job)) BestOffer with
      | Ok (Some offer) => mret (addUniqueOffer offers offer)
      | Ok None => mret offers
      | Err e => if includes "404" e then mret offers else mthrow e
      end
  end.

Definition tokenOffers (job : BidderJob) (tokenId : string) (context : RequestContext) : M W (list Order) :=
  let address := Some (collectionAddress job) in
  let! itemOffers := fetchNftOffers (collectionSlug job) tokenId context in
  let! offers := lifted (collect (always ItemOffers) address itemOffers []) in
  let! cached := getCachedTokenSnapshotOffers job tokenId in
  addBestOffer job tokenId context (addAll offers cached).

Definition collectionOffers (job : BidderJob) (traits : option (list TraitTarget)) (context : RequestContext)
    : M W (list Order) :=
  let! snapshot := snapshotOf (collectionSlug job) in
  let! offers :=
    match snapshot with
    | Some raws => lifted (collectCachedCollectionSnapshotOffers job raws)
    | None =>
        let! raws := fetchAllCollectionOffers (collectionSlug job) context (0 <? length (default [] traits))%nat in
        lifted (getLiveCollectionTargetOffers job raws)
    end in
  mret (addAll [] offers).

Fixpoint traitBuckets (job : BidderJob) (targets : list TraitTarget) (context : RequestContext) (offers : list Order)
    : M W (list Order) :=
  match targets with
  | [] => mret offers
  | t :: rest =>
      let! raws := fetchAllTraitOffers (collectionSlug job) (tt_type t) (tt_value t) context in
      let! offers := lifted (collect (always TraitOffers) (Some (collectionAddress job)) raws offers) in
      traitBuckets job rest context offers
  end.

Definition competitiveOffers (job : BidderJob) (context : RequestContext) : M W (list Order) :=
  let! expanded := expandCompetitiveTraitSelectors job (getLookupTraitSelectors job) context in
  let count := Z.of_nat (length expanded) in
  if competitiveTraitMaxLookupSelectors config <? count then
    mthrow (String.concat ""
      ["[OpenSeaBiddingService] Competitive trait lookup selector count exceeds configured limit: jobId="; job_id job;
       ", selectorCount="; Z_toString count; ", limit="; Z_toString (competitiveTraitMaxLookupSelectors config)]%string)
  else
    let! raws := fetchAllCollectionOffers (collectionSlug job) context false in
    let! offers := lifted (collect pickWide (Some (collectionAddress job)) raws []) in
    traitBuckets job expanded context offers.

Definition getActiveOffers (job : BidderJob) (context : RequestContext) : M W (list Order) :=
  let! offers :=
    match target job with
    | TokenTarget tokenId => tokenOffers job tokenId context
    | CollectionTarget _ traits => collectionOffers job traits context
    | CompetitiveTraitTarget _ _ _ => competitiveOffers job context
    end in
  mret (sortByPrice offers).

(** The first offer of [maker] among the offers of the token. *)
Fixpoint firstByMaker (raws : list jsval) (collectionAddress : option string) (maker : string) : result (option Order) :=
  match raws with
  | [] => Ok None
  | raw :: rest =>
      try parsed <- parseRawOffer raw collectionAddress ItemOffers;
      match parsed with
      | Some offer => if String.eqb (toLowerCase (ord_maker offer)) (toLowerCase maker) then Ok (Some offer)
                      else firstByMaker rest collectionAddress maker
      | None => firstByMaker rest collectionAddress maker
      end
  end.

Definition getActiveTokenOfferByMaker (job : BidderJob) (maker : string) (context : RequestContext)
    : M W (option Order) :=
  match target job with
  | TokenTarget tokenId =>
      let! raws := fetchNftOffers (collectionSlug job) tokenId context in
      lifted (firstByMaker raws (Some (collectionAddress job)) maker)
  | _ => mret None
  end.

(** ** One order *)

Definition isLegacyInactive (raw : jsval) (nowMs : Z) : bool :=
  let isExpired := match toNumber (fieldOf "expirationTime" raw) with
                   | NInt z => (0 <? z) && (z * 1000 <? nowMs)
                   | NFrac num den => (0 <? num) && (num * 1000 <? nowMs * Zpos den)
                   | _ => false
                   end in
  truthyVal (fieldOf "cancelled" raw) || truthyVal (fieldOf "finalized" raw)
  || truthyVal (fieldOf "markedInvalid" raw) || isExpired.

(** The order, if it was found, and whether the lookup failed to say. *)
Definition directLookup (orderHash : string) (protocolAddress : option string) (context : RequestContext)
    : M W (option jsval * bool) :=
  match given protocolAddress with
  | None => mret (None, false)
  | Some protocol =>
      let! answer := withRetry (getOrderByHash orderHash protocol) context isDirectOrderAbsentError in
      match answer with
      | Returned response =>
          mret (match getOpenSeaOrderHash response with
                | Some hash => if String.eqb hash orderHash then Some response else None
                | None => None
                end, false)
      | Threw e => mret (None, negb (isDirectOrderAbsentError e))
      end
  end.

Definition statusOf (raw : jsval) : option string :=
  match fieldOf "status" raw with VStr s => given (Some (toLowerCase s)) | _ => None end.

Definition getOrder (orderHash : string) (protocolAddress collectionAddress : option string) (context : RequestContext)
    : M W BiddingOrderRecoveryResult :=
  let! (found, inconclusive) := directLookup orderHash protocolAddress context in
  match found with
  | None =>
      mret (if negb inconclusive then RecoveryInactiveOrMissing
            else RecoveryInconclusive (if otruthy protocolAddress then "direct_lookup_failed" else "lookup_unavailable"))
  | Some raw =>
      let! parsed := lifted (parseRawOffer raw collectionAddress StateRecovery) in
      match parsed with
      | None => mret (RecoveryInconclusive "parse_failed")
      | Some order =>
          match statusOf raw with
          | Some status => mret (if String.eqb status "active" then RecoveryActive order else RecoveryInactiveOrMissing)
          | None => fun w => (Ok (if isLegacyInactive raw (now w) then RecoveryInactiveOrMissing
                                  else RecoveryActive order), w)
          end
      end
  end.

(** ** Placement *)

Definition OPENSEA_SIGNED_ZONE_TRAIT_TRUST_REQUIRED_ERROR : string :=
  "Trait and multi-trait offer placement requires explicit OpenSea SignedZone trust in Admin Config".

(** [nonEmptyStringOrUndefined] *)
Definition trimmedText (v : jsval) : option string :=
  match v with VStr s => given (Some (trim s)) | _ => None end.

Definition requirePlacedOrderIdentity (raw : jsval) : result (string * string) :=
  let order := VObj (asRecord raw) in
  match getOpenSeaOrderHash order ≫= fun hash => trimmedText (VStr hash) with
  | None => Err "OpenSea create offer response missing order hash"
  | Some orderHash =>
      match orText (trimmedText (fieldOf "protocolAddress" order)) (trimmedText (fieldOf "protocol_address" order)) with
      | None => Err "OpenSea create offer response missing protocol address"
      | Some protocolAddress => Ok (orderHash, protocolAddress)
      end
  end.

(** [Math.max(1, Math.floor(quantity))], which [BigInt] refuses when it is not finite. *)
Definition placementQuantity (quantity : jsnum) : result Z :=
  match quantity with
  | NInt _ | NFrac _ _ => Ok (Z.max 1 (floorNum quantity))
  | NInf true => Ok 1
  | NInf false => Err "The number Infinity cannot be converted to a BigInt because it is not an integer"
  | NNaN => Err "The number NaN cannot be converted to a BigInt because it is not an integer"
  end.

(** What is returned of the SDK's answer. *)
Definition placed (order : jsval) (noOrder : string) (expirationTime : Z) : M W PlacedOffer := fun w =>
  let placedAt := toISOString (now w) in
  (if negb (truthyVal order) then Err noOrder
   else
     try (orderHash, protocolAddress) <- requirePlacedOrderIdentity order;
     Ok {| po_orderHash := orderHash; po_protocolAddress := protocolAddress; po_placedAt := placedAt;
           po_expirationTime :=
             Some (default (NInt expirationTime)
                     (tryParseNumber (firstField ["expiration_time"; "expirationTime"]%string order))) |}, w).

Definition collectionOfferInput (job : BidderJob) (quantity totalAmountWei expirationTime : Z)
    : CreateCollectionOfferInput :=
  let placementTraits := getPlacementTraits job in
  let single := match placementTraits with [t] => Some t | _ => None end in
  let competitive := match target job with CompetitiveTraitTarget _ _ _ => true | _ => false end in
  let collection := match target job with CollectionTarget _ _ => true | _ => false end in
  {| cc_collectionSlug := collectionSlug job; cc_accountAddress := makerAddress config;
     cc_amount := formatUnits totalAmountWei 18; cc_quantity := quantity;
     cc_traitType := if competitive then option_map tt_type single else None;
     cc_traitValue := if competitive then option_map tt_value single else None;
     cc_traits := if collection then match placementTraits with [] => None | _ => Some placementTraits end else None;
     cc_expirationTime := expirationTime |}.

Definition authorizationFor (job : BidderJob) (totalAmountWei expirationTime : Z)
    : PolicyWallet.OpenSeaOfferSigningAuthorization :=
  {| PolicyWallet.job := job; PolicyWallet.totalAmountWei := totalAmountWei;
     PolicyWallet.expirationTime := NInt expirationTime |}.

Definition placeCollectionOffer (job : BidderJob) (quantity : jsnum) (amount expirationTime : Z) (context : RequestContext)
    : M W PlacedOffer :=
  let! quantity := lifted (placementQuantity quantity) in
  let totalAmountWei := amount * quantity in
  let! answer := trackSdkCall 1 2
    (createCollectionOffer (collectionOfferInput job quantity totalAmountWei expirationTime)
       (authorizationFor job totalAmountWei expirationTime)) context in
  let! order := orThrow answer in
  placed order "Failed to create collection offer (no order returned)" expirationTime.

Definition placeTokenOffer (job : BidderJob) (tokenId : string) (amount expirationTime : Z) (context : RequestContext)
    : M W PlacedOffer :=
  let! answer := trackSdkCall 1 2
    (createOffer {| ci_tokenAddress := collectionAddress job; ci_tokenId := tokenId;
                    ci_accountAddress := makerAddress config; ci_amount := formatUnits amount 18;
                    ci_expirationTime := expirationTime |}
       (authorizationFor job amount expirationTime)) context in
  let! order := orThrow answer in
  placed order "Failed to create token offer (no order returned)" expirationTime.

Definition placeOffer (job : BidderJob) (amount : Z) (context : RequestContext) : M W PlacedOffer :=
  if bidderTargetRequiresOpenSeaSignedZoneTrust (target job) && negb (trustOpenSeaSignedZoneTraitOffers config) then
    mthrow OPENSEA_SIGNED_ZONE_TRAIT_TRUST_REQUIRED_ERROR
  else fun w =>
    let expirationTime := now w / 1000 + offerExpirationSeconds config in
    match target job with
    | CollectionTarget quantity _ | CompetitiveTraitTarget quantity _ _ =>
        placeCollectionOffer job quantity amount expirationTime context w
    | TokenTarget tokenId => placeTokenOffer job tokenId amount expirationTime context w
    end.

Definition cancelOrder (order : Order) (context : RequestContext) : M W unit :=
  match given (ord_protocolAddress order) with
  | None => mthrow "Missing protocolAddress for offchain cancellation"
  | Some protocolAddress =>
      let! answer := retry (trackSdkCall 0 1 (offchainCancelOrder protocolAddress (ord_id order)) context)
                       (retryPolicy config) isRetryableOpenSeaBiddingError in
      orThrow answer
  end.

(** ** The interface of the bidder *)

#[export] Instance openSeaBiddingService : BiddingService W := {
  BiddingService.roundOfferPriceDown := OfferPrice.roundOpenSeaOfferPriceDown;
  BiddingService.roundOfferPriceUp := OfferPrice.roundOpenSeaOfferPriceUp;
  BiddingService.getActiveOffers := getActiveOffers;
  BiddingService.getOrder := fun orderHash protocolAddress collectionAddress _ _ context =>
    getOrder orderHash protocolAddress (Some collectionAddress) context;
  BiddingService.placeOffer := placeOffer;
  BiddingService.cancelOffer := fun _ order context => cancelOrder order context }.

End Adapter.

End OpenSeaService.
