(* ===== verification/OpenSeaClaims.v ===== *)
(** * What the adapter promises

    Discovery misses no offer its sources hold and lists none twice, the pagination of a
    provider with finitely many cursors ends, an order is reported active or gone only on
    the provider's word, and an offer that was placed is within the mandate. *)

From Stdlib Require Import QArith Sorted Permutation.
From S2P Require Import Prelude JsValue Domain Mandate TraitCriteria BiddingService PolicyWallet PolicySessions PolicySessionsClaims Snapshots JsConvert OpenSeaOffers OpenSeaService.

Open Scope Z_scope.

Module OpenSeaClaims.
Import TraitCriteria JsConvert OpenSeaOffers OpenSeaService.

(** ** Lists of offers *)

Definition ids (offers : list Order) : list string := map ord_id offers.

(** [out] is [offers] with every offer of [source] whose identity it had not. *)
Record grows (offers out : list Order) (source : Order -> Prop) : Prop := {
  gr_NoDup : NoDup (ids offers) -> NoDup (ids out);
  gr_keeps : forall o, In o offers -> In o out;
  gr_only : forall o, In o out -> In o offers \/ source o;
  gr_all : forall o, source o -> In (ord_id o) (ids out);
}.

Lemma ids_keeps offers out : (forall o, In o offers -> In o out) -> forall id, In id (ids offers) -> In id (ids out).
Proof. intros Hk id. unfold ids. rewrite !in_map_iff. intros (o & <- & Ho). eauto. Qed.

Lemma grows_refl offers (source : Order -> Prop) : (forall o, ~ source o) -> grows offers offers source.
Proof. intros Hs. split; [done|done|by left|]. intros o Ho. by destruct (Hs o). Qed.

Lemma grows_trans a b c (s1 s2 : Order -> Prop) :
  grows a b s1 -> grows b c s2 -> grows a c (fun o => s1 o \/ s2 o).
Proof.
  intros [N1 K1 O1 A1] [N2 K2 O2 A2]. split.
  - auto.
  - auto.
  - intros o [Ho| ]%O2; [|auto]. destruct (O1 _ Ho); auto.
  - intros o [Ho|Ho]; [|auto]. apply (ids_keeps b); auto.
Qed.

Lemma grows_ext a b (s1 s2 : Order -> Prop) : (forall o, s1 o <-> s2 o) -> grows a b s1 -> grows a b s2.
Proof.
  intros He [N K O A]. split; [done|done| |].
  - intros o [?|?]%O; [by left|right; by apply He].
  - intros o Ho. by apply A, He.
Qed.

Lemma existsb_id offers id : existsb (fun existing => String.eqb (ord_id existing) id) offers = true <-> In id (ids offers).
Proof.
  unfold ids. rewrite existsb_exists, in_map_iff. split.
  - intros (o & Ho & E%String.eqb_eq). eauto.
  - intros (o & E & Ho). exists o. by rewrite E, String.eqb_refl.
Qed.

Lemma addUniqueOffer_grows offers offer : grows offers (addUniqueOffer offers offer) (eq offer).
Proof.
  unfold addUniqueOffer. destruct (existsb _ _) eqn:E.
  - apply existsb_id in E. split; [done|done|by left|]. by intros o <-.
  - assert (~ In (ord_id offer) (ids offers)) as Hn by (rewrite <- existsb_id; congruence).
    split; unfold ids in *.
    + intros Hnd. rewrite List.map_app. apply NoDup_app. split; [done|]. split; [|by repeat constructor; apply not_elem_of_nil].
      intros id Hin Hid. apply list_elem_of_In in Hin. apply list_elem_of_singleton in Hid as ->. done.
    + intros o Ho. apply in_app_iff. by left.
    + intros o [Ho|[->|[]]]%in_app_iff; auto.
    + intros o <-. rewrite List.map_app. apply in_app_iff. right. by left.
Qed.

Lemma addAll_grows more : forall offers, grows offers (addAll offers more) (fun o => In o more).
Proof.
  induction more as [|x more IH]; intros offers; [apply grows_refl; intros o []|].
  eapply grows_ext; [|eapply grows_trans; [apply addUniqueOffer_grows|apply IH]]. intros o. simpl. tauto.
Qed.

Lemma insertByPrice_perm x l : Permutation (insertByPrice x l) (x :: l).
Proof.
  induction l as [|y l IH]; [done|]. simpl. case_match; [|done]. rewrite IH. apply perm_swap.
Qed.

Lemma sortByPrice_perm l : Permutation (sortByPrice l) l.
Proof. induction l as [|x l IH]; [done|]. simpl. by rewrite insertByPrice_perm, IH. Qed.

(** Dearest first. *)
Definition byPrice (a b : Order) : Prop := ord_price b <= ord_price a.

Lemma insertByPrice_sorted x l : Sorted byPrice l -> Sorted byPrice (insertByPrice x l).
Proof.
  induction l as [|y l IH]; intros Hl; [by repeat constructor|]. simpl. destruct (Z.ltb_spec (ord_price x) (ord_price y)).
  - apply Sorted_inv in Hl as [Hs Hh]. constructor; [by apply IH|].
    destruct l as [|z l]; simpl; [constructor; unfold byPrice; lia|]. case_match; [by inversion_clear Hh; constructor|].
    constructor. unfold byPrice. lia.
  - constructor; [done|]. constructor. done.
Qed.

Lemma sortByPrice_sorted l : Sorted byPrice (sortByPrice l).
Proof. induction l as [|x l IH]; [constructor|]. by apply insertByPrice_sorted. Qed.

Lemma grows_sorted out source : grows [] out source ->
  NoDup (ids (sortByPrice out)) /\ Sorted byPrice (sortByPrice out)
  /\ (forall o, In o (sortByPrice out) -> source o)
  /\ (forall o, source o -> In (ord_id o) (ids (sortByPrice out))).
Proof.
  intros [N _ O A]. split_and!.
  - unfold ids. rewrite sortByPrice_perm. apply N. constructor.
  - apply sortByPrice_sorted.
  - intros o Ho. destruct (O o) as [[]|]; [|done]. by rewrite <- sortByPrice_perm.
  - intros o Ho. unfold ids. rewrite sortByPrice_perm. by apply A.
Qed.

(** ** Lists of tokens *)

(** The tokens a list of segments names. *)
Definition listsToken (encodedIds tokenId : string) : Prop :=
  exists target ranges,
    truthy tokenId && allDigits tokenId = true /\ parseDigits tokenId = Some target
    /\ mapM parseSegment (splitOn "," encodedIds) = Some ranges
    /\ exists s e, In (s, e) ranges /\ s <= target <= e.

Lemma segmentsContain_spec segments target : forall contains,
  segmentsContain segments target contains = true <->
  exists ranges, mapM parseSegment segments = Some ranges
    /\ (contains = true \/ exists s e, In (s, e) ranges /\ s <= target <= e).
Proof.
  induction segments as [|x segments IH]; intros contains; simpl.
  - split; [intros ->; exists []; auto|]. intros (ranges & [= <-] & [|(s & e & [] & _)]); done.
  - destruct (parseSegment x) as [[s e]|] eqn:E; [|split; [done|by intros (? & [=] & _)]].
    rewrite IH. setoid_rewrite orb_true_iff. setoid_rewrite andb_true_iff. setoid_rewrite Z.leb_le.
    split.
    + intros (ranges & Er & Hc). exists ((s, e) :: ranges). simpl. rewrite Er. split; [done|].
      destruct Hc as [[?|?]|(s' & e' & ? & ?)]; [by left|right; exists s, e; auto|right; exists s', e'; auto].
    + simpl. intros (ranges & Er & Hc). destruct (mapM parseSegment segments) as [rs|] eqn:Ers; [|done].
      simpl in Er. injection Er as <-. exists rs. split; [done|].
      destruct Hc as [?|(s' & e' & [[= -> ->]|?] & ?)]; [by left; left|by left; right|right; eauto].
Qed.

Lemma contain_spec encodedIds tokenId : truthy encodedIds = true -> encodedIds <> "*"%string ->
  openSeaEncodedTokenIdsContain encodedIds tokenId = true <-> listsToken encodedIds tokenId.
Proof.
  intros Ht Hs. unfold openSeaEncodedTokenIdsContain, listsToken. apply String.eqb_neq in Hs. rewrite Ht, Hs. simpl.
  destruct (truthy tokenId && allDigits tokenId); simpl; [|split; [done|by intros (? & ? & [=] & _)]].
  destruct (parseDigits tokenId) as [target|]; [|split; [done|by intros (? & ? & _ & [=] & _)]].
  rewrite segmentsContain_spec. split.
  - intros (ranges & Er & [[=]|H]). exists target, ranges. auto.
  - intros (t & ranges & _ & [= <-] & Er & H). eauto.
Qed.

Section Claims.
Context {W : Type} `{OpenSeaSdk W}.
Context (localeCompare : keyItem -> keyItem -> Z) (dateParse : string -> option Z) (formatUnits : Z -> Z -> string).
Context (config : Config) (fuel : nat).

Abbreviation wide := (isOpenSeaCollectionWideOffer localeCompare).
Abbreviation parseRaw := (parseRawOffer localeCompare dateParse).
Abbreviation collect := (collect localeCompare dateParse).

(** Where an offer was found does not change the order. *)
Lemma parseRawOffer_source raw address s s' : parseRaw raw address s = parseRaw raw address s'.
Proof.
  unfold parseRawOffer, parseOpenSeaBiddingOffer. destruct (negb (truthyVal raw)); [done|].
  destruct (getOpenSeaOrderHash raw); [|done]. destruct (makerOf raw); [|done].
  destruct (extractOpenSeaWethUnitPrice _ _ _); [|done].
  destruct (getOpenSeaCollectionAddress _ _ _); [|done]. destruct (inferOpenSeaOfferScope _ _); [|done].
  by destruct (resolveOpenSeaBiddingOfferBidScope _ _ _).
Qed.

(** An offer that was decoded from a raw one that [pick] takes. *)
Definition decoded (pick : jsval -> result (option DiscoverySource)) (address : string) (raws : list jsval) (o : Order) : Prop :=
  exists raw source, In raw raws /\ pick raw = Ok (Some source) /\ parseRaw raw (Some address) source = Ok (Some o).

Lemma collect_grows pick address raws : forall offers out,
  collect pick (Some address) raws offers = Ok out -> grows offers out (decoded pick address raws).
Proof.
  induction raws as [|raw raws IH]; intros offers out; simpl.
  { intros [= <-]. apply grows_refl. intros o (? & ? & [] & _). }
  destruct (pick raw) as [[source|]|] eqn:Ep; simpl; [| |done].
  - destruct (parseRaw raw (Some address) source) as [[o|]|] eqn:Ed; simpl; [| |done]; intros E%IH.
    + eapply grows_ext; [|eapply grows_trans; [apply addUniqueOffer_grows|exact E]].
      intros o'. split.
      * intros [<-|(r & s & Hr & Hp & Hd)]; [exists raw, source|exists r, s]; split_and!; auto; [by left|by right].
      * intros (r & s & [<-|Hr] & Hp & Hd); [left|right; exists r, s; auto].
        rewrite Ep in Hp. injection Hp as <-. rewrite Ed in Hd. by injection Hd.
    + eapply grows_ext; [|exact E]. intros o'. split; intros (r & s & Hr & Hp & Hd).
      * exists r, s. split; [by right|done].
      * destruct Hr as [<-|Hr]; [|exists r, s; auto]. rewrite Ep in Hp. injection Hp as <-. congruence.
  - intros E%IH. eapply grows_ext; [|exact E]. intros o'. split; intros (r & s & Hr & Hp & Hd).
    + exists r, s. split; [by right|done].
    + destruct Hr as [<-|Hr]; [congruence|exists r, s; auto].
Qed.

(** Every raw offer was asked about. *)
Lemma collect_picked pick address raws : forall offers out,
  collect pick (Some address) raws offers = Ok out -> forall raw, In raw raws -> exists source, pick raw = Ok source.
Proof.
  induction raws as [|x raws IH]; intros offers out; simpl; [done|].
  destruct (pick x) as [[source|]|] eqn:Ep; simpl; [| |done].
  - destruct (parseRaw _ _ _); simpl; [|done]. intros E raw [<-|Hr]; [eauto|eapply IH; eauto].
  - intros E raw [<-|Hr]; [eauto|eapply IH; eauto].
Qed.

(** ** What an offer of the snapshot has to be to concern a token *)

Definition tracked (slug : string) (criteria : list TraitCriterion) : Prop :=
  forall types, getRestrictedCriteriaTraitTypes config slug = Some types ->
    forall c, In c criteria -> tc_type c ∈ types.

Definition hasTraits (slug : string) (tokenTraits : option (list TraitTarget)) (raw : jsval) : Prop :=
  exists criteria traits, offerCriteria localeCompare raw = Ok criteria /\ criteria <> []
    /\ tracked slug criteria /\ tokenTraits = Some traits /\ traits <> [] /\ biddingTraitsMatchToken criteria traits = true.

(** The finite list of tokens an offer is for, when it has one. *)
Definition finiteList (raw : jsval) (encodedIds : string) : Prop :=
  exists criteria, getOpenSeaOfferCriteria localeCompare raw = Ok criteria
    /\ adapterEncodedIds criteria = Some encodedIds /\ truthy encodedIds = true /\ encodedIds <> "*"%string.

Definition concernsToken (address slug tokenId : string) (tokenTraits : option (list TraitTarget)) (raw : jsval) : Prop :=
  isItem raw (Some address) = false
  /\ (wide raw = Ok true
      \/ wide raw = Ok false
         /\ ((exists encodedIds, finiteList raw encodedIds /\ listsToken encodedIds tokenId)
             \/ ~ (exists encodedIds, finiteList raw encodedIds) /\ hasTraits slug tokenTraits raw)).

Lemma pickSnapshotWide_spec address raw source :
  pickSnapshotWide localeCompare address raw = Ok (Some source) <->
  isItem raw (Some address) = false /\ wide raw = Ok true /\ source = CollectionOffers.
Proof.
  unfold pickSnapshotWide, pickWide. destruct (isItem raw (Some address)); [by naive_solver|].
  destruct (wide raw) as [[]|]; simpl; naive_solver.
Qed.

Lemma untracked_spec slug criteria : untracked config slug criteria = false <-> tracked slug criteria.
Proof.
  unfold tracked, untracked. destruct (getRestrictedCriteriaTraitTypes config slug) as [types|]; [|split; [done|done]].
  rewrite <- not_true_iff_false, existsb_exists. setoid_rewrite negb_true_iff. setoid_rewrite bool_decide_eq_false.
  split.
  - intros Hn types' [= <-] c Hc. destruct (decide (tc_type c ∈ types)); [done|]. exfalso. eauto.
  - intros Ht (c & Hc & Hn). by apply Hn, Ht.
Qed.

Lemma finiteList_spec raw criteria : getOpenSeaOfferCriteria localeCompare raw = Ok criteria ->
  forall encodedIds, finiteList raw encodedIds <->
    default EmptyString (adapterEncodedIds criteria) = encodedIds
    /\ truthy encodedIds && negb (String.eqb encodedIds "*") = true.
Proof.
  intros Ec encodedIds. unfold finiteList. rewrite Ec, andb_true_iff, negb_true_iff, String.eqb_neq. split.
  - intros (c & [= <-] & Ei & Ht & Hs). by rewrite Ei.
  - intros (Ei & Ht & Hs). exists criteria. split_and!; auto.
    destruct (adapterEncodedIds criteria) as [x|]; simpl in Ei; [by subst|by subst].
Qed.

Lemma pickForToken_spec address slug tokenId tokenTraits raw source :
  pickForToken localeCompare config address slug tokenId tokenTraits raw = Ok source ->
  source = Some TraitOffers <->
  isItem raw (Some address) = false /\ wide raw = Ok false
  /\ ((exists encodedIds, finiteList raw encodedIds /\ listsToken encodedIds tokenId)
      \/ ~ (exists encodedIds, finiteList raw encodedIds) /\ hasTraits slug tokenTraits raw).
Proof.
  unfold pickForToken. destruct (wide raw) as [[]|] eqn:Ew; simpl; [| |done].
  { intros [= <-]. split; [done|by intros (_ & [=] & _)]. }
  destruct (isItem raw (Some address)) eqn:Ei; [intros [= <-]; split; [done|by intros ([=] & _)]|].
  destruct (getOpenSeaOfferCriteria localeCompare raw) as [criteria|] eqn:Ec; simpl; [|done].
  destruct (normalizeOpenSeaOfferTraitCriteria localeCompare criteria) as [traits|] eqn:En; simpl; [|done].
  pose proof (finiteList_spec raw criteria Ec) as Hf. set (encodedIds := default EmptyString (adapterEncodedIds criteria)) in *.
  destruct (truthy encodedIds && negb (String.eqb encodedIds "*")) eqn:Ef.
  - intros [= <-]. assert (finiteList raw encodedIds) as Hl by (by apply Hf).
    apply andb_true_iff in Ef as [Ht Hs%negb_true_iff%String.eqb_neq].
    pose proof (contain_spec encodedIds tokenId Ht Hs) as Hc. destruct (openSeaEncodedTokenIdsContain _ _).
    + split; [|done]. intros _. split_and!; [done..|]. left. exists encodedIds. split; [done|by apply Hc].
    + split; [done|]. intros (_ & _ & [(x & [<- _]%Hf & Hx%Hc)|[Hn _]]); [done|]. exfalso. eauto.
  - assert (~ (exists x, finiteList raw x)) as Hn by (intros (x & [<- Hx]%Hf); congruence). intros E.
    split; [intros ->; split_and!; [done..|]; right; split; [done|]|intros (_ & _ & [(x & Hx & _)|[_ Hh]]); [exfalso; eauto|]].
    + destruct traits as [|c cs]; [done|]. destruct tokenTraits as [tt|]; [|done].
      pose proof (untracked_spec slug (c :: cs)) as Hu. destruct (untracked config slug (c :: cs)); [done|].
      destruct tt as [|x xs]; [done|]. destruct (biddingTraitsMatchToken _ _) eqn:Em; [|done].
      exists (c :: cs), (x :: xs). unfold offerCriteria. rewrite Ec. simpl. rewrite En. split_and!; auto. by apply Hu.
    + destruct Hh as (cs & tt & Eo & Hcs & Htr & -> & Htt & Hm). unfold offerCriteria in Eo. rewrite Ec in Eo. simpl in Eo.
      rewrite En in Eo. injection Eo as ->. destruct cs as [|c cs]; [done|]. apply untracked_spec in Htr. rewrite Htr in E.
      destruct tt as [|x xs]; [done|]. rewrite Hm in E. congruence.
Qed.


Lemma mbind_returns {A B} (m : M W A) (f : A -> M W B) w b w' :
  mbind m f w = (Ok b, w') -> exists a w1, m w = (Ok a, w1) /\ f a w1 = (Ok b, w').
Proof. unfold mbind. destruct (m w) as [[a|] w1]; [eauto|done]. Qed.

(** What the discovery for a token read: the live offers of the token, the snapshot of its
    collection, the traits of the token, and its best offer. *)
Definition tokenReads (job : BidderJob) (tokenId : string) (context : RequestContext) (w : W) (items : list jsval)
    (snapshot : option (list jsval)) (tokenTraits : option (list TraitTarget)) (best : Answer jsval) (w' : W) : Prop :=
  exists w1 w2,
    fetchNftOffers config (collectionSlug job) tokenId context w = (Ok items, w1)
    /\ snapshot = (get ← getSnapshot; snapshot ← get (collectionSlug job) w1; Some (Snapshots.sn_offers snapshot))
    /\ match snapshot, getTokenTraits with
       | Some _, Some read => exists traits, read (collectionSlug job) tokenId w1 = (Ok traits, w2) /\ tokenTraits = Some traits
       | _, _ => w2 = w1 /\ tokenTraits = None
       end
    /\ withRetry config (getBestOffer (collectionSlug job) tokenId) context isNotFoundError w2 = (Ok best, w').

(** Where an offer can come from. *)
Definition tokenSource (job : BidderJob) (tokenId : string) (items : list jsval) (snapshot : option (list jsval))
    (tokenTraits : option (list TraitTarget)) (best : Answer jsval) (o : Order) : Prop :=
  exists raw source, parseRaw raw (Some (collectionAddress job)) source = Ok (Some o)
    /\ (In raw items
        \/ In raw (default [] snapshot)
           /\ concernsToken (collectionAddress job) (collectionSlug job) tokenId tokenTraits raw
        \/ best = Returned raw).

Lemma decoded_always address source raws o :
  decoded (always source) address raws o <-> exists raw s, parseRaw raw (Some address) s = Ok (Some o) /\ In raw raws.
Proof.
  split.
  - intros (raw & s & Hr & _ & Hd). eauto.
  - intros (raw & s & Hd & Hr). exists raw, source. split_and!; [done|done|]. by rewrite (parseRawOffer_source _ _ _ s).
Qed.

Lemma pickForToken_trait address slug tokenId tokenTraits raw s :
  pickForToken localeCompare config address slug tokenId tokenTraits raw = Ok (Some s) -> s = TraitOffers.
Proof.
  unfold pickForToken. destruct (wide raw); simpl; [|done]. case_match; [congruence|].
  destruct (getOpenSeaOfferCriteria localeCompare raw); simpl; [|done].
  destruct (normalizeOpenSeaOfferTraitCriteria localeCompare _); simpl; [|done]. repeat case_match; congruence.
Qed.

(** The two passes over the snapshot take exactly what concerns the token. *)
Lemma snapshot_grows address slug tokenId tokenTraits raws cached out :
  collect (pickSnapshotWide localeCompare address) (Some address) raws [] = Ok cached ->
  collect (pickForToken localeCompare config address slug tokenId tokenTraits) (Some address) raws cached = Ok out ->
  grows [] out (fun o => exists raw source, parseRaw raw (Some address) source = Ok (Some o)
                 /\ In raw raws /\ concernsToken address slug tokenId tokenTraits raw).
Proof.
  intros E1%collect_grows E2. pose proof (collect_picked _ _ _ _ _ E2) as Hp. apply collect_grows in E2.
  eapply grows_ext; [|exact (grows_trans _ _ _ _ _ E1 E2)]. intros o. split.
  - intros [(raw & s & Hr & (Hi & Hw & _)%pickSnapshotWide_spec & Hd)|(raw & s & Hr & Hpick & Hd)]; exists raw, s.
    + split_and!; [done|done|]. split; [done|by left].
    + split_and!; [done|done|]. pose proof (pickForToken_spec _ _ _ _ _ _ Hpick) as Hs.
      apply pickForToken_trait in Hpick as ->. destruct Hs as [Hs _]. specialize (Hs eq_refl) as (Hi & Hw & Hc). split; [done|by right].
  - intros (raw & s & Hd & Hr & Hi & [Hw|[Hw Hc]]).
    + left. exists raw, CollectionOffers. split_and!; [done|by apply pickSnapshotWide_spec|]. by rewrite (parseRawOffer_source _ _ _ s).
    + right. destruct (Hp raw Hr) as [s' Hs']. exists raw, TraitOffers. split_and!; [done| |by rewrite (parseRawOffer_source _ _ _ s)].
      rewrite Hs'. f_equal. by apply (pickForToken_spec _ _ _ _ _ _ Hs').
Qed.

(** Offers gathered elsewhere are added with where they came from. *)
Lemma addAll_source offers more source : grows [] more source -> grows offers (addAll offers more) source.
Proof.
  intros [_ _ O A]. destruct (addAll_grows more offers) as [N' K' O' A']. split; [done|done| |].
  - intros o [?|Ho]%O'; [by left|right]. by destruct (O _ Ho) as [[]|].
  - intros o Ho%A. unfold ids in Ho. apply in_map_iff in Ho as (o' & <- & Ho'). by apply A'.
Qed.

Lemma cachedToken_grows job tokenId w cached w2 :
  getCachedTokenSnapshotOffers localeCompare dateParse config job tokenId w = (Ok cached, w2) ->
  exists snapshot tokenTraits,
    snapshot = (get ← getSnapshot; snapshot ← get (collectionSlug job) w; Some (Snapshots.sn_offers snapshot))
    /\ match snapshot, getTokenTraits with
       | Some _, Some read => exists traits, read (collectionSlug job) tokenId w = (Ok traits, w2) /\ tokenTraits = Some traits
       | _, _ => w2 = w /\ tokenTraits = None
       end
    /\ grows [] cached (fun o => exists raw source, parseRaw raw (Some (collectionAddress job)) source = Ok (Some o)
         /\ In raw (default [] snapshot) /\ concernsToken (collectionAddress job) (collectionSlug job) tokenId tokenTraits raw).
Proof.
  unfold getCachedTokenSnapshotOffers. intros (snapshot & v & Es & E)%mbind_returns.
  injection Es as Es <-. exists snapshot. rewrite Es. destruct snapshot as [raws|].
  - apply mbind_returns in E as (c1 & v & Ec & E). injection Ec as Ec <-.
    apply mbind_returns in E as (traits & v & Er & E). injection E as E <-.
    exists traits. split; [done|]. split; [|by eapply snapshot_grows].
    destruct getTokenTraits as [read|]; [|by injection Er as <- <-].
    apply mbind_returns in Er as (tt & v' & Er & Et). injection Et as <- <-. eauto.
  - injection E as <- <-. exists None. split_and!; [done|done|done|].
    apply grows_refl. by intros o (? & ? & ? & [] & _).
Qed.

Lemma bestOffer_grows job tokenId context offers w out w' :
  addBestOffer localeCompare dateParse config job tokenId context offers w = (Ok out, w') ->
  exists best, withRetry config (getBestOffer (collectionSlug job) tokenId) context isNotFoundError w = (Ok best, w')
    /\ grows offers out (fun o => exists raw source, parseRaw raw (Some (collectionAddress job)) source = Ok (Some o)
         /\ best = Returned raw).
Proof.
  unfold addBestOffer. intros (best & w1 & E1 & E)%mbind_returns. exists best. destruct best as [raw|e].
  - assert (forall o s, parseRaw raw (Some (collectionAddress job)) s = Ok (Some o) ->
              parseRaw raw (Some (collectionAddress job)) BestOffer = Ok (Some o)) as Hsame
      by (intros o s; by rewrite (parseRawOffer_source _ _ s BestOffer)).
    destruct (parseRaw raw (Some (collectionAddress job)) BestOffer) as [[o|]|] eqn:Ed.
    + injection E as <- <-. split; [done|]. eapply grows_ext; [|apply addUniqueOffer_grows].
      intros o'. split; [intros <-; eauto|]. intros (r & s & Hd & [= <-]). apply Hsame in Hd. congruence.
    + injection E as <- <-. split; [done|]. apply grows_refl. intros o (r & s & Hd & [= <-]). apply Hsame in Hd. congruence.
    + revert E. case_match; intros [= <- <-]. split; [done|]. apply grows_refl.
      intros o (r & s & Hd & [= <-]). apply Hsame in Hd. congruence.
  - revert E. case_match; intros [= <- <-]. split; [done|]. apply grows_refl. by intros o (? & ? & _ & [=]).
Qed.

Lemma tokenOffers_grows job tokenId context w offers w' :
  tokenOffers localeCompare dateParse config job tokenId context w = (Ok offers, w') ->
  exists items snapshot tokenTraits best, tokenReads job tokenId context w items snapshot tokenTraits best w'
    /\ grows [] offers (tokenSource job tokenId items snapshot tokenTraits best).
Proof.
  unfold tokenOffers. intros (items & w1 & E1 & E)%mbind_returns.
  apply mbind_returns in E as (live & v & E2 & E). injection E2 as E2%collect_grows <-.
  apply mbind_returns in E as (cached & w2 & E3 & E4).
  apply cachedToken_grows in E3 as (snapshot & tokenTraits & Hs & Ht & G3).
  apply bestOffer_grows in E4 as (best & Hb & G4). exists items, snapshot, tokenTraits, best.
  split; [exists w1, w2; auto|].
  eapply grows_ext; [|eapply grows_trans; [eapply grows_trans; [exact E2|apply addAll_source, G3]|exact G4]].
  intros o. unfold tokenSource. simpl. rewrite decoded_always. split.
  - intros [[(r & s & Hd & Hr)|(r & s & Hd & Hr & Hc)]|(r & s & Hd & Hr)]; exists r, s; auto.
  - intros (r & s & Hd & [Hr|[[Hr Hc]|Hr]]); [left; left|left; right|right]; eauto.
Qed.

(** C4: a discovery for a token that returns lists the offers, dearest first and none
    twice, of exactly these sources: the live offers of the token, those of the snapshot
    that are for the whole collection, for a list of tokens with the token in it or for
    traits the token has, and the best offer; and of each of them the identity is listed. *)
Theorem token_discovery_exact job tokenId context w orders w' :
  target job = TokenTarget tokenId ->
  getActiveOffers localeCompare dateParse config fuel job context w = (Ok orders, w') ->
  exists items snapshot tokenTraits best,
    tokenReads job tokenId context w items snapshot tokenTraits best w'
    /\ NoDup (ids orders) /\ Sorted byPrice orders
    /\ (forall o, In o orders -> tokenSource job tokenId items snapshot tokenTraits best o)
    /\ (forall o, tokenSource job tokenId items snapshot tokenTraits best o -> In (ord_id o) (ids orders)).
Proof.
  intros Ht. unfold getActiveOffers. rewrite Ht. intros (offers & w1 & E & Es)%mbind_returns. injection Es as <- <-.
  apply tokenOffers_grows in E as (items & snapshot & tokenTraits & best & Hr & G).
  exists items, snapshot, tokenTraits, best. split; [done|]. by apply grows_sorted.
Qed.

(** ** A snapshot and a live book agree *)

Lemma decoded_pick pick pick' address raws o :
  (forall raw s, In raw raws -> pick raw = Ok (Some s) -> exists s', pick' raw = Ok (Some s')) ->
  decoded pick address raws o -> decoded pick' address raws o.
Proof.
  intros Hp (raw & s & Hr & Hs & Hd). destruct (Hp _ _ Hr Hs) as [s' Hs']. exists raw, s'.
  split_and!; [done|done|]. by rewrite (parseRawOffer_source _ _ _ s).
Qed.

Lemma grows_ids offers (source : Order -> Prop) : grows [] offers source ->
  forall id, In id (ids offers) <-> exists o, source o /\ ord_id o = id.
Proof.
  intros [_ _ O A] id. split.
  - unfold ids. rewrite in_map_iff. intros (o & <- & Ho). destruct (O _ Ho) as [[]|]. eauto.
  - intros (o & Ho & <-). by apply A.
Qed.

(** Offers of the live book: collection-wide ones, then those of competing traits. *)
Lemma live_grows job raws out : target_type (target job) = TCollection ->
  getLiveCollectionTargetOffers localeCompare dateParse job raws = Ok out ->
  grows [] out (fun o => decoded (pickWide localeCompare) (collectionAddress job) raws o
                 \/ targetTraitsOf localeCompare job <> [] /\ decoded (pickLiveTrait localeCompare job) (collectionAddress job) raws o).
Proof.
  intros Ht. unfold getLiveCollectionTargetOffers. destruct (target job); try done.
  destruct (collect _ _ raws []) as [offers|] eqn:E1; simpl; [|done].
  apply collect_grows in E1. destruct (targetTraitsOf localeCompare job).
  - intros [= <-]. eapply grows_ext; [|exact E1]. intros o. by split; [left|intros [?|[? _]]].
  - intros E2%collect_grows. eapply grows_ext; [|eapply grows_trans; [exact E1|exact E2]]. intros o.
    split; [intros [?|?]; [by left|by right]|intros [?|[_ ?]]; [by left|by right]].
Qed.

(** C17: for a collection job the snapshot and the live book are read alike.  Let no raw
    offer name items of another contract only, that is, let it count as an offer for an item
    of the job's contract just when it counts as one for an item of any contract.  Then of
    the same raw offers the one pass over the snapshot and the two over the live book, when
    both decode, list orders of the same identities. *)
Theorem cached_and_live_agree job raws cached live :
  target_type (target job) = TCollection ->
  (forall raw, In raw raws -> isItem raw (Some (collectionAddress job)) = isItem raw None) ->
  collectCachedCollectionSnapshotOffers localeCompare dateParse job raws = Ok cached ->
  getLiveCollectionTargetOffers localeCompare dateParse job raws = Ok live ->
  forall id, In id (ids cached) <-> In id (ids live).
Proof.
  intros Ht Hitem E1 E2 id. unfold collectCachedCollectionSnapshotOffers in E1.
  pose proof (collect_picked _ _ _ _ _ E1) as Hp. apply collect_grows in E1. apply (live_grows _ _ _ Ht) in E2. clear Ht.
  rewrite (grows_ids _ _ E1), (grows_ids _ _ E2).
  assert (forall raw, In raw raws -> wide raw = Ok true -> isItem raw (Some (collectionAddress job)) = false) as Hwide.
  { intros raw Hr Hw. rewrite Hitem by done. revert Hw. unfold isOpenSeaCollectionWideOffer, isItem. by case_match. }
  assert (forall o, decoded (pickForCollection localeCompare job) (collectionAddress job) raws o <->
            decoded (pickWide localeCompare) (collectionAddress job) raws o
            \/ targetTraitsOf localeCompare job <> [] /\ decoded (pickLiveTrait localeCompare job) (collectionAddress job) raws o)
    as Hiff; [|split; intros (o & Ho & <-); exists o; (split; [by apply Hiff|done])].
  intros o. split.
  - intros (raw & s & Hr & Hs & Hd). unfold pickForCollection in Hs. destruct (isItem raw _) eqn:Ei; [done|].
    destruct (wide raw) as [[]|] eqn:Ew; simpl in Hs; [| |done].
    + left. exists raw, s. split_and!; [done| |done]. unfold pickWide. rewrite Ew. simpl. congruence.
    + destruct (targetTraitsOf localeCompare job) eqn:Et; [done|]. right. split; [done|]. exists raw, s.
      split_and!; [done| |done]. unfold pickLiveTrait. destruct (offerCriteria localeCompare raw); simpl in *; [|done].
      rewrite Ei. destruct (competes _ _ _); [done|done].
  - intros [(raw & s & Hr & Hs & Hd)|[Ht (raw & s & Hr & Hs & Hd)]].
    + unfold pickWide in Hs. destruct (wide raw) as [[]|] eqn:Ew; simpl in Hs; [|done..].
      exists raw, s. split_and!; [done| |done]. unfold pickForCollection. by rewrite Hwide, Ew.
    + unfold pickLiveTrait in Hs. destruct (offerCriteria localeCompare raw) as [criteria|] eqn:Ec; simpl in Hs; [|done].
      destruct (isItem raw (Some (collectionAddress job))) eqn:Ei; [done|].
      destruct (competes localeCompare job criteria) eqn:Ecm; [|done]. destruct (Hp raw Hr) as [s' Hs'].
      assert (exists s'', pickForCollection localeCompare job raw = Ok (Some s'')) as [s'' Hs''].
      { revert Hs'. unfold pickForCollection. rewrite Ei. destruct (wide raw) as [[]|]; simpl; [eauto| |done].
        destruct (targetTraitsOf localeCompare job); [done|]. rewrite Ec. simpl. rewrite Ecm. eauto. }
      exists raw, s''. split_and!; [done|done|]. by rewrite (parseRawOffer_source _ _ _ s).
Qed.

(** ** Pagination *)

Section Pages.
Context (request : PageRequest) (context : RequestContext) (onRepeat : result unit).

(** What the loop without a bound does: the responses it reads, and how it ends. *)
Inductive readPages : option string -> list string -> W -> list jsval -> result (list jsval) -> W -> Prop :=
  | rp_fails cursor seen w e w' :
      askPage config request cursor context w = (Err e, w') -> readPages cursor seen w [] (Err e) w'
  | rp_last cursor seen w response w' :
      askPage config request cursor context w = (Ok response, w') -> nextCursor response = None ->
      readPages cursor seen w [response] (Ok (pageOffers response)) w'
  | rp_repeats cursor seen w response w' next :
      askPage config request cursor context w = (Ok response, w') -> nextCursor response = Some next -> In next seen ->
      readPages cursor seen w [response] (result_bind onRepeat (fun _ => Ok (pageOffers response))) w'
  | rp_next cursor seen w response w1 next rest r w' :
      askPage config request cursor context w = (Ok response, w1) -> nextCursor response = Some next -> ~ In next seen ->
      readPages (Some next) (next :: seen) w1 rest r w' ->
      readPages cursor seen w (response :: rest) (result_bind r (fun offers => Ok (pageOffers response ++ offers))) w'.

Lemma readPages_ok cursor seen w responses r w' offers :
  readPages cursor seen w responses r w' -> r = Ok offers -> offers = concat (map pageOffers responses).
Proof.
  intros Hr. revert offers. induction Hr as [| |? ? ? ? ? ? ? ? ?|? ? ? ? ? ? ? r]; intros offers Ho; simpl.
  - done.
  - injection Ho as <-. by rewrite app_nil_r.
  - destruct onRepeat; [|done]. injection Ho as <-. by rewrite app_nil_r.
  - destruct r as [more|]; [|done]. injection Ho as <-. by rewrite <- (IHHr more).
Qed.

(** The bounded loop with enough fuel is the loop. *)
Lemma readPages_fuel cursor seen w responses r w' : readPages cursor seen w responses r w' ->
  forall fuel, (length responses < fuel)%nat -> allPages config fuel request context onRepeat cursor seen w = (r, w').
Proof.
  induction 1 as [cursor seen w e w' E|cursor seen w response w' E Hn|cursor seen w response w' next E Hn Hin
                 |cursor seen w response w1 next rest r w' E Hn Hin Hr IH]; intros [|f] Hf; simpl in Hf; try lia;
    simpl; unfold mbind at 1; rewrite E; [done|..]; rewrite Hn; [done|..].
  - rewrite bool_decide_eq_true_2 by (by apply list_elem_of_In). unfold mbind, lifted. by destruct onRepeat.
  - rewrite bool_decide_eq_false_2 by (by rewrite list_elem_of_In). unfold mbind. rewrite IH by lia. by destruct r.
Qed.

End Pages.

(** C18: the pagination ends whenever the provider hands out finitely many cursors,
    however it repeats them: after at most one response more than there are cursors, with
    the offers of all responses in order, or the error of the call or of the repetition;
    any larger bound on the loop gives the same. *)
Theorem pagination_ends request context onRepeat cursors w :
  (forall cursor w response w' next, askPage config request cursor context w = (Ok response, w') ->
     nextCursor response = Some next -> In next cursors) ->
  exists responses r w', readPages request context onRepeat None [] w responses r w'
    /\ (length responses <= S (length cursors))%nat
    /\ (forall offers, r = Ok offers -> offers = concat (map pageOffers responses))
    /\ forall fuel, (S (length cursors) < fuel)%nat -> allPages config fuel request context onRepeat None [] w = (r, w').
Proof.
  intros Hc.
  assert (forall n seen cursor w, NoDup seen -> (forall x, In x seen -> In x cursors) ->
            (length cursors <= n + length seen)%nat ->
            exists responses r w', readPages request context onRepeat cursor seen w responses r w' /\ (length responses <= S n)%nat)
    as Hrun.
  { induction n as [|n IH]; intros seen cursor w0 Hnd Hsub Hlen;
      destruct (askPage config request cursor context w0) as [[response|e] w1] eqn:E;
      [|exists [], (Err e), w1; split; [by constructor|simpl; lia]
       | |exists [], (Err e), w1; split; [by constructor|simpl; lia]];
      (destruct (nextCursor response) as [next|] eqn:En;
       [|exists [response], (Ok (pageOffers response)), w1; split; [by eapply rp_last|simpl; lia]]);
      (destruct (in_dec String.string_dec next seen) as [Hin|Hin];
       [exists [response], (result_bind onRepeat (fun _ => Ok (pageOffers response))), w1;
        split; [by eapply rp_repeats|simpl; lia]|]).
    - exfalso. assert (incl cursors seen) as Hinc.
      { apply NoDup_length_incl; [by apply NoDup_ListNoDup|simpl in Hlen; lia|exact Hsub]. }
      apply Hin, Hinc. by eapply Hc.
    - destruct (IH (next :: seen) (Some next) w1) as (rest & r & w' & Hr & Hl).
      + constructor; [by rewrite list_elem_of_In|done].
      + intros x [<-|Hx]; [by eapply Hc|auto].
      + simpl. lia.
      + eexists _, _, w'. split; [by eapply rp_next|simpl; lia]. }
  destruct (Hrun (length cursors) [] None w) as (responses & r & w' & Hr & Hl); [constructor|done|simpl; lia|].
  exists responses, r, w'. split_and!; [done|done| |].
  - intros offers Ho. by eapply readPages_ok.
  - intros f Hf. apply (readPages_fuel _ _ _ _ _ _ _ _ _ Hr). lia.
Qed.


(** ** One order *)

(** What the provider's description says of the order: its status, or without one that it
    was neither cancelled nor invalidated and has not expired. *)
Definition saysActive (raw : jsval) (w : W) : bool :=
  match statusOf raw with
  | Some status => String.eqb status "active"
  | None => negb (isLegacyInactive raw (now w))
  end.

Definition describes (orderHash : string) (raw : jsval) : Prop := getOpenSeaOrderHash raw = Some orderHash.

(** C16: an order is reported active exactly on a description of this order that says so,
    and gone exactly when the provider says there is no such order, describes another, or
    describes it as over; any other failure leaves it inconclusive.  But an order whose
    contract is not known is reported gone without asking. *)
Theorem recovery_on_providers_word orderHash protocolAddress address context w r w' :
  getOrder localeCompare dateParse config orderHash protocolAddress address context w = (Ok r, w') ->
  match given protocolAddress with
  | None => r = RecoveryInactiveOrMissing /\ w' = w
  | Some protocol =>
      exists answer, withRetry config (getOrderByHash orderHash protocol) context isDirectOrderAbsentError w = (Ok answer, w')
        /\ match r with
           | RecoveryActive order =>
               exists raw, answer = Returned raw /\ describes orderHash raw /\ saysActive raw w' = true
                 /\ parseRaw raw address StateRecovery = Ok (Some order)
           | RecoveryInactiveOrMissing =>
               (exists e, answer = Threw e /\ isDirectOrderAbsentError e = true)
               \/ exists raw, answer = Returned raw
                    /\ (~ describes orderHash raw \/ describes orderHash raw /\ saysActive raw w' = false)
           | RecoveryInconclusive reason =>
               (exists e, answer = Threw e /\ isDirectOrderAbsentError e = false /\ reason = "direct_lookup_failed"%string)
               \/ exists raw, answer = Returned raw /\ describes orderHash raw
                    /\ parseRaw raw address StateRecovery = Ok None /\ reason = "parse_failed"%string
           end
  end.
Proof.
  unfold getOrder, directLookup, describes, saysActive. intros ((found, inconclusive) & w1 & E1 & E2)%mbind_returns.
  destruct (given protocolAddress) as [protocol|] eqn:Eg; [|injection E1 as <- <- <-; by injection E2 as <- <-].
  apply mbind_returns in E1 as (answer & w2 & Ea & E1). exists answer. destruct answer as [raw|e].
  - injection E1 as <- <- <-. destruct (getOpenSeaOrderHash raw) as [hash|] eqn:Eh.
    + destruct (String.eqb_spec hash orderHash) as [->|Hne].
      * apply mbind_returns in E2 as (parsed & v & Ep & E2). injection Ep as Ep <-. destruct parsed as [order|].
        -- destruct (statusOf raw) as [status|] eqn:Es.
           ++ injection E2 as <- <-. split; [done|]. destruct (String.eqb status "active") eqn:Ee; [|right]; eexists; rewrite Es; eauto.
           ++ injection E2 as <- <-. split; [done|]. destruct (isLegacyInactive raw (now w2)) eqn:El; [right|]; eexists; rewrite Es, El; eauto.
        -- injection E2 as <- <-. split; [done|]. right. exists raw. auto.
      * injection E2 as <- <-. split; [done|]. right. exists raw. split; [done|]. left. congruence.
    + injection E2 as <- <-. split; [done|]. right. exists raw. split; [done|]. left. congruence.
  - injection E1 as <- <- <-. destruct (isDirectOrderAbsentError e) eqn:Ee; simpl in E2; injection E2 as <- <-;
      (split; [done|]); left; exists e; [done|]. split_and!; [done|done|].
    revert Eg. unfold given, otruthy. destruct protocolAddress as [a|]; [|done]. by destruct (truthy a).
Qed.

(** ** Placement *)

Section Placement.
Context (getAddress : string -> option string) (wallet : PolicyWallet.Wallet).

Definition authorized (authorization : PolicyWallet.OpenSeaOfferSigningAuthorization) : Prop :=
  exists expectation, PolicyWallet.createOfferSigningExpectation getAddress wallet authorization = Ok expectation.

(** The promise of the SDK client the service is given: it creates an offer only under an
    authorization the policy wallet accepted. *)
Context (Hclient : forall input authorization w order w',
  createOffer input authorization w = (Ok (Returned order), w') -> authorized authorization).
Context (Hcollection : forall input authorization w order w',
  createCollectionOffer input authorization w = (Ok (Returned order), w') -> authorized authorization).

(** The number of tokens an offer of the job is for. *)
Definition offerUnits (job : BidderJob) : Z :=
  match target job with
  | TokenTarget _ => 1
  | CollectionTarget quantity _ | CompetitiveTraitTarget quantity _ _ => Z.max 1 (floorNum quantity)
  end.

(** What the SDK is asked to create for an expectation of the wallet. *)
Definition asksFor (job : BidderJob) (expectation : PolicyWallet.OfferSigningExpectation) : Prop :=
  let total := PolicyWallet.ex_totalAmountWei expectation in
  let expiration := PolicyWallet.ex_expirationTime expectation in
  match target job with
  | TokenTarget tokenId =>
      exists w w' order authorization, createOffer
        {| ci_tokenAddress := collectionAddress job; ci_tokenId := tokenId; ci_accountAddress := makerAddress config;
           ci_amount := formatUnits total 18; ci_expirationTime := expiration |} authorization w = (Ok (Returned order), w')
        /\ PolicyWallet.createOfferSigningExpectation getAddress wallet authorization = Ok expectation
  | _ =>
      exists w w' order authorization input, createCollectionOffer input authorization w = (Ok (Returned order), w')
        /\ PolicyWallet.createOfferSigningExpectation getAddress wallet authorization = Ok expectation
        /\ cc_collectionSlug input = collectionSlug job /\ cc_amount input = formatUnits total 18
        /\ cc_quantity input = PolicyWallet.ex_quantity expectation /\ cc_expirationTime input = expiration
  end.

Lemma expectation_ok job total expiration expectation :
  PolicyWallet.createOfferSigningExpectation getAddress wallet (authorizationFor job total expiration) = Ok expectation ->
  is_ok (Mandate.assertOfferAuthorized (PolicyWallet.biddingMandate wallet) job total) = true
  /\ 0 < total <= Mandate.wethAllowanceCapWei (Mandate.startPolicy (PolicyWallet.biddingMandate wallet))
  /\ PolicyWallet.ex_totalAmountWei expectation = total /\ PolicyWallet.ex_expirationTime expectation = expiration
  /\ match target job with
     | TokenTarget _ => PolicyWallet.ex_quantity expectation = 1
     | CollectionTarget quantity _ | CompetitiveTraitTarget quantity _ _ =>
         PolicyWallet.normalizeTargetQuantity quantity = Ok (PolicyWallet.ex_quantity expectation)
     end.
Proof.
  unfold PolicyWallet.createOfferSigningExpectation, authorizationFor. simpl.
  destruct (Mandate.assertOfferAuthorized _ _ _); [|done]. simpl.
  destruct (Z.leb_spec total 0); [done|]. destruct (Z.ltb_spec (Mandate.wethAllowanceCapWei (Mandate.startPolicy (PolicyWallet.biddingMandate wallet))) total); [done|].
  case_match; [done|].
  destruct (PolicyWallet.normalizeAddress _ _ _); simpl; [|done]. case_match; [done|].
  destruct (target job) eqn:Et; simpl.
  - destruct (PolicyWallet.requireUint _ _); simpl; [|done]. intros [= <-]. simpl. split_and!; done || lia.
  - destruct (PolicyWallet.normalizeTargetQuantity _) eqn:En; simpl; [|done]. intros [= <-]. simpl. split_and!; done || lia.
  - destruct (PolicyWallet.normalizeTargetQuantity _) eqn:En; simpl; [|done]. intros [= <-]. simpl. split_and!; done || lia.
Qed.

Lemma normalizeTargetQuantity_placement quantity q q' :
  PolicyWallet.normalizeTargetQuantity quantity = Ok q -> placementQuantity quantity = Ok q' -> q = q'.
Proof.
  unfold PolicyWallet.normalizeTargetQuantity, placementQuantity. destruct quantity as [z|n d| |[]]; try done.
  - case_match; [|done]. congruence.
  - case_match; [|done]. congruence.
  - congruence.
Qed.

Lemma placed_from order noOrder expirationTime w offer w' :
  placed order noOrder expirationTime w = (Ok offer, w') ->
  requirePlacedOrderIdentity order = Ok (po_orderHash offer, po_protocolAddress offer).
Proof.
  unfold placed. case_match; [done|]. destruct (requirePlacedOrderIdentity order) as [[hash protocol]|]; simpl; [|done].
  by intros [= <- <-].
Qed.

(** The wallet's expectation behind an offer that was placed. *)
Definition placedAs (job : BidderJob) (total expiration : Z) (offer : PlacedOffer) : Prop :=
  exists expectation order,
    PolicyWallet.createOfferSigningExpectation getAddress wallet (authorizationFor job total expiration) = Ok expectation
    /\ asksFor job expectation /\ requirePlacedOrderIdentity order = Ok (po_orderHash offer, po_protocolAddress offer).

Lemma placeToken_placed job tokenId amount expiration context w offer w' : target job = TokenTarget tokenId ->
  placeTokenOffer formatUnits config job tokenId amount expiration context w = (Ok offer, w') ->
  placedAs job amount expiration offer.
Proof.
  intros Ht. unfold placeTokenOffer. intros (answer & w1 & Ec & E)%mbind_returns.
  apply mbind_returns in E as (order & w2 & Eo & E%placed_from). destruct answer as [order'|]; [|done]. injection Eo as -> <-.
  destruct (Hclient _ _ _ _ _ Ec) as [expectation He]. destruct (expectation_ok _ _ _ _ He) as (_ & _ & Etot & Eexp & _).
  exists expectation, order. split_and!; [done| |done]. unfold asksFor. rewrite Ht, Etot, Eexp. eauto 6.
Qed.

Lemma placeCollection_placed job quantity amount expiration context w offer w' :
  match target job with
  | TokenTarget _ => False
  | CollectionTarget q _ | CompetitiveTraitTarget q _ _ => q = quantity
  end ->
  placeCollectionOffer localeCompare formatUnits config job quantity amount expiration context w = (Ok offer, w') ->
  placedAs job (amount * offerUnits job) expiration offer.
Proof.
  intros Hq. unfold placeCollectionOffer. intros (q & w1 & Eq & E)%mbind_returns. injection Eq as Eq <-.
  apply mbind_returns in E as (answer & w2 & Ec & E).
  apply mbind_returns in E as (order & w3 & Eo & E%placed_from). destruct answer as [order'|]; [|done]. injection Eo as -> <-.
  destruct (Hcollection _ _ _ _ _ Ec) as [expectation He].
  destruct (expectation_ok _ _ _ _ He) as (_ & _ & Etot & Eexp & Equ).
  assert (q = offerUnits job) as ->.
  { unfold offerUnits. destruct (target job); [done|..]; subst quantity; unfold placementQuantity in Eq;
      repeat case_match; first [done|by injection Eq as <-]. }
  exists expectation, order. split_and!; [done| |done]. unfold asksFor. destruct (target job) eqn:Et; [done|..]; subst quantity;
    pose proof (normalizeTargetQuantity_placement _ _ _ Equ Eq) as Hqq;
    eexists _, _, _, _, _; (split_and!; [exact Ec|exact He|done|by rewrite Etot|by rewrite Hqq|by rewrite Eexp]).
Qed.

(** C3: an offer the service reports placed is one the mandate authorizes, for the job's
    units at the amount given and within the allowance; what the SDK was asked to create
    is what the wallet expects to sign, in total, units and expiration; and the offer
    reported has an identity and a contract. *)
Theorem placed_offer_within_mandate job amount context w offer w' :
  placeOffer localeCompare formatUnits config job amount context w = (Ok offer, w') ->
  let total := amount * offerUnits job in
  is_ok (Mandate.assertOfferAuthorized (PolicyWallet.biddingMandate wallet) job total) = true
  /\ 0 < total <= Mandate.wethAllowanceCapWei (Mandate.startPolicy (PolicyWallet.biddingMandate wallet))
  /\ (bidderTargetRequiresOpenSeaSignedZoneTrust (target job) = true -> trustOpenSeaSignedZoneTraitOffers config = true)
  /\ (exists expectation, PolicyWallet.ex_totalAmountWei expectation = total
       /\ PolicyWallet.ex_expirationTime expectation = now w / 1000 + offerExpirationSeconds config
       /\ asksFor job expectation)
  /\ exists order, requirePlacedOrderIdentity order = Ok (po_orderHash offer, po_protocolAddress offer).
Proof.
  unfold placeOffer. destruct (bidderTargetRequiresOpenSeaSignedZoneTrust (target job) && _) eqn:Etrust; [done|].
  intros E. set (total := amount * offerUnits job). assert (placedAs job total (now w / 1000 + offerExpirationSeconds config) offer) as (expectation & order & He & Ha & Hi).
  { unfold total. destruct (target job) eqn:Et.
    - replace (amount * offerUnits job) with amount by (unfold offerUnits; rewrite Et; lia). by eapply placeToken_placed.
    - eapply placeCollection_placed; [by rewrite Et|exact E].
    - eapply placeCollection_placed; [by rewrite Et|exact E]. }
  destruct (expectation_ok _ _ _ _ He) as (Hm & Hb & Etot & Eexp & _). split_and!; [done|lia|lia| |by exists expectation|by exists order].
  intros Ht. rewrite Ht in Etrust. by apply negb_false_iff in Etrust.
Qed.

End Placement.

End Claims.

(** ** An example

    A provider with one live offer of token 7, a snapshot with an offer for the whole
    collection, one for a range of tokens and one for a trait the token lacks, and no best
    offer; its SDK creates what the example wallet of [PolicySessionsClaims] accepts. *)

Definition wethPrice (amount : string) : string * jsval :=
  ("price", VObj [("value", VStr amount); ("currency", VStr "WETH")])%string.

Definition rawOffer (hash amount : string) (more : list (string * jsval)) : jsval :=
  VObj (app [("order_hash", VStr hash); ("maker", VObj [("address", VStr "0xMaker")]); wethPrice amount]%string more).

Definition criteriaOf (fields : list (string * jsval)) : string * jsval := ("criteria"%string, VObj fields).

Definition itemOffer : jsval :=
  rawOffer "0xitem" "1"
    [("protocol_data", VObj [("parameters", VObj
       [("offer", VArr [VObj [("itemType", VNum (NInt 1)); ("token", VStr PolicyWallet.policyWethAddress); ("startAmount", VStr "250")]]);
        ("consideration", VArr [VObj [("itemType", VNum (NInt 2)); ("token", VStr PolicySessionsClaims.exampleCollection);
                                      ("identifierOrCriteria", VStr "7"); ("startAmount", VStr "1")]])])])]%string.

Definition exampleBook : list jsval := [
  rawOffer "0xwide" "300" [criteriaOf [("collection", VObj [])]];
  rawOffer "0xrange" "200" [criteriaOf [("encoded_token_ids", VStr "1:3,7")]];
  rawOffer "0xtrait" "900" [criteriaOf [("trait", VObj [("type", VStr "Mode"); ("value", VStr "Dream")])]]]%string.

Definition exampleSnapshot : Snapshots.CollectionOfferSnapshot := {|
  Snapshots.sn_collectionSlug := "terraforms"; Snapshots.sn_offers := exampleBook; Snapshots.sn_refreshedAt := 0;
  Snapshots.sn_metrics := {| Snapshots.durationMs := 1; Snapshots.pageCount := 1; Snapshots.offerCount := 3;
    Snapshots.complete := true; Snapshots.firstPriceWei := None; Snapshots.lastPriceWei := None;
    Snapshots.minPriceWei := None; Snapshots.maxPriceWei := None; Snapshots.finalCursor := None |} |}.

Definition orderAnswer : jsval := VObj [("order_hash", VStr "0xplaced"); ("protocol_address", VStr "0xseaport")]%string.

(** The SDK client: an offer needs an authorization the wallet accepts. *)
Definition exampleCreate {I} (input : I) (authorization : PolicyWallet.OpenSeaOfferSigningAuthorization) (w : Z)
    : result (Answer jsval) * Z :=
  match PolicyWallet.createOfferSigningExpectation PolicySessionsClaims.lowerAddress PolicySessionsClaims.exampleWallet
          authorization with
  | Ok _ => (Ok (Returned orderAnswer), w + 1)
  | Err e => (Ok (Threw {| th_isError := true; th_message := e; th_status := VUndef |}), w)
  end.

Lemma exampleCreate_authorized {I} (input : I) authorization w order w' :
  exampleCreate input authorization w = (Ok (Returned order), w') ->
  authorized PolicySessionsClaims.lowerAddress PolicySessionsClaims.exampleWallet authorization.
Proof. unfold exampleCreate, authorized. case_match; [eauto|done]. Qed.

#[local] Instance exampleSdk : OpenSeaSdk Z := {
  getPage := fun request _ cursor =>
    match request with
    | NftOffers _ _ => mret (Returned (VObj [("offers", VArr [itemOffer]); ("next", VNull)]%string))
    | _ => mret (Returned (VObj [("offers", VArr exampleBook); ("next", VStr "again")]%string))
    end;
  getTraits := fun _ => mret (Returned (VObj []));
  getBestOffer := fun _ _ => mret (Threw {| th_isError := true; th_message := "Not Found"; th_status := VNum (NInt 404) |});
  getOrderByHash := fun _ _ => mret (Returned itemOffer);
  createOffer := exampleCreate;
  createCollectionOffer := exampleCreate;
  offchainCancelOrder := fun _ _ => mret (Returned tt);
  rateLimiterWait := fun _ _ _ w => w;
  sleep := fun ms w => w + ms;
  random := fun w => (1 # 2, w)%Q;
  now := fun w => w;
  getSnapshot := Some (fun _ _ => Some exampleSnapshot);
  getTokenTraits := Some (fun _ _ => mret [{| tt_type := "Mode"; tt_value := "Terrain" |}])%string }.

Lemma createOffer_authorized input authorization (w : Z) order w' :
  createOffer input authorization w = (Ok (Returned order), w') ->
  authorized PolicySessionsClaims.lowerAddress PolicySessionsClaims.exampleWallet authorization.
Proof. apply exampleCreate_authorized. Qed.

Lemma createCollectionOffer_authorized input authorization (w : Z) order w' :
  createCollectionOffer input authorization w = (Ok (Returned order), w') ->
  authorized PolicySessionsClaims.lowerAddress PolicySessionsClaims.exampleWallet authorization.
Proof. apply exampleCreate_authorized. Qed.

Definition exampleConfig : Config := create {|
  makerAddress := PolicySessionsClaims.exampleMaker; retryPolicy := defaultRetryPolicy; offerExpirationSeconds := 900;
  orderLookupMaxPages := 3; offersPageSize := 50; tokenCriteriaTraitsByCollection := [];
  competitiveTraitMaxLookupSelectors := 4; trustOpenSeaSignedZoneTraitOffers := false |}.

Definition tokenJob : BidderJob := {|
  job_id := "job"; revision := 1; collectionId := 7; collectionAddress := PolicySessionsClaims.exampleCollection;
  collectionSlug := "terraforms"; target := TokenTarget "7";
  Domain.config := {| ceiling := 100; floor := 1; delta := 1; extraCompetitionTraits := None |}; state := emptyState |}.

Definition sameItem (_ _ : keyItem) : Z := 0.
Definition noDate (_ : string) : option Z := None.
Definition asUnits (amount _ : Z) : string := Z_toString amount.

Definition exampleDiscovery : result (list Order) * Z :=
  getActiveOffers sameItem noDate exampleConfig 3 tokenJob None 1000000.

Lemma token_discovery_exact_witness :
  match fst exampleDiscovery with
  | Ok orders => NoDup (ids orders) /\ ids orders = ["0xwide"; "0xitem"; "0xrange"]%string
  | Err _ => False
  end.
Proof.
  destruct exampleDiscovery as [[orders|e] w'] eqn:E; [|vm_compute in E; discriminate].
  destruct (token_discovery_exact sameItem noDate exampleConfig 3 tokenJob "7" None 1000000 orders w' eq_refl E)
    as (? & ? & ? & ? & _ & Hnd & _).
  split; [exact Hnd|]. vm_compute in E. injection E as <- _. reflexivity.
Defined.

Definition resultOf {A} (d : A) (r : result A) : A := match r with Ok a => a | Err _ => d end.

Lemma cached_and_live_agree_witness :
  let cached := resultOf [] (collectCachedCollectionSnapshotOffers sameItem noDate PolicySessionsClaims.exampleJob exampleBook) in
  let live := resultOf [] (getLiveCollectionTargetOffers sameItem noDate PolicySessionsClaims.exampleJob exampleBook) in
  In "0xwide"%string (ids cached) /\ In "0xwide"%string (ids live).
Proof.
  intros cached live. assert (In "0xwide"%string (ids cached)) as Hc by (vm_compute; left; reflexivity).
  split; [exact Hc|].
  apply (cached_and_live_agree sameItem noDate PolicySessionsClaims.exampleJob exampleBook cached live eq_refl
           ltac:(intros raw [<-|[<-|[<-|[]]]]; vm_compute; reflexivity) ltac:(vm_compute; reflexivity)
           ltac:(vm_compute; reflexivity) "0xwide"%string).
  exact Hc.
Defined.

Lemma pagination_ends_witness :
  exists responses r w', readPages exampleConfig (CollectionOffersOf "terraforms") None (Ok tt) None [] 0 responses r w'
    /\ (length responses <= 2)%nat.
Proof.
  assert (forall cursor w response w' next,
    askPage exampleConfig (CollectionOffersOf "terraforms") cursor None w = (Ok response, w') ->
    nextCursor response = Some next -> In next ["again"%string]) as Hcursors.
  { intros cursor w response w' next E. vm_compute in E. injection E as <- _. intros [= <-]. left. reflexivity. }
  destruct (pagination_ends exampleConfig (CollectionOffersOf "terraforms") None (Ok tt) ["again"%string] 0 Hcursors)
    as (responses & r & w' & Hr & Hl & _).
  exists responses, r, w'. split; [exact Hr|exact Hl].
Defined.

Lemma recovery_on_providers_word_witness :
  exists order, fst (getOrder sameItem noDate exampleConfig "0xitem" (Some "0xseaport"%string)
                       (Some PolicySessionsClaims.exampleCollection) None 5) = Ok (RecoveryActive order)
    /\ ord_price order = 250.
Proof.
  destruct (getOrder sameItem noDate exampleConfig "0xitem" (Some "0xseaport"%string)
              (Some PolicySessionsClaims.exampleCollection) None 5) as [[r|e] w'] eqn:E; [|vm_compute in E; discriminate].
  destruct (recovery_on_providers_word _ _ _ _ _ _ _ _ _ _ E) as (answer & Ha & Hr).
  vm_compute in E. injection E as <- <-. destruct Hr as (raw & _ & _ & _ & _). eexists. split; reflexivity.
Defined.

Lemma placed_offer_within_mandate_witness :
  match fst (placeOffer sameItem asUnits exampleConfig PolicySessionsClaims.exampleJob 50 None 1000000) with
  | Ok offer => is_ok (Mandate.assertOfferAuthorized PolicySessionsClaims.exampleMandate PolicySessionsClaims.exampleJob 100) = true
      /\ po_orderHash offer = "0xplaced"%string /\ po_expirationTime offer = Some (NInt 1900)
  | Err _ => False
  end.
Proof.
  destruct (placeOffer sameItem asUnits exampleConfig PolicySessionsClaims.exampleJob 50 None 1000000)
    as [[offer|e] w'] eqn:E; [|vm_compute in E; discriminate].
  destruct (placed_offer_within_mandate sameItem asUnits exampleConfig PolicySessionsClaims.lowerAddress
              PolicySessionsClaims.exampleWallet createOffer_authorized createCollectionOffer_authorized
              PolicySessionsClaims.exampleJob 50 None 1000000 offer w' E) as (Hm & _).
  split; [exact Hm|]. vm_compute in E. injection E as <- _. split; reflexivity.
Defined.

End OpenSeaClaims.
